(* ===== verification/_CoqProject ===== *)
-Q . S2P
Prelude.v
Endian.v
StringPiece.v
Buffer.v
BufferFacts.v
StdContainers.v
Format.v
Timestamp.v
Atomic.v
TimerQueue.v
TimerQueueFacts.v
Channel.v
Poller.v
PollerFacts.v
EventLoop.v
EventLoopFacts.v
EventLoopThread.v
EventLoopThreadPool.v
ChannelHost.v
TcpConnection.v
TcpConnectionFacts.v
ConnLife.v
Acceptor.v
TcpServer.v
TcpServerFacts.v
Connector.v
ConnectorFacts.v
TcpClient.v
TcpClientFacts.v
ClientDelete.v
Lifetime.v
TimerService.v
TimerApi.v
ConnUse.v
FileTransfer.v
EchoConn.v
Http.v
HttpFacts.v
HttpStream.v
HttpConn.v
LogStream.v
LogFile.v
AsyncLogging.v
CondVar.v
CountDownLatch.v
ThreadPool.v
Decoder.v
LengthCodec.v
FastCgi.v
FastCgiFacts.v
PubSub.v
PubSubFacts.v
RbTree.v
RbShape.v
RbTreeFacts.v
RbMap.v
YQueue.v
YQueueFacts.v
IdleEcho.v
MaxEcho.v
Memcached.v
MemcachedFacts.v
MemcachedRefines.v
FileNames.v
FileConf.v
Logging.v
FastMutex.v
Locks.v
Relay.v
Sockets.v
RoundTrip.v
AnyMy.v
MainThread.v
SelectServer.v
SelectClient.v
SelectEcho.v
ShortUrl.v
PingPong.v
Thread.v
