(* ===== verification/Prelude.v ===== *)
(** * msmuduo: a verification development for the msmuduo network library

    msmuduo is a reactor library in C++ for Windows and Linux: an [EventLoop]
    waits in [PollPoller] for events of the [Channel]s registered with it, runs
    their callbacks, expired timers ([TimerQueue]) and functors that any thread
    queued. On top of it [TcpConnection] moves bytes between a socket and two
    [Buffer]s, [TcpServer] (with [Acceptor] and [EventLoopThreadPool]) and
    [TcpClient] (with [Connector]) make and destroy connections, and
    [HttpServer] parses requests and writes responses. The library's sources
    are under src/msmuduo: base/ holds the foundation, net/ the reactor,
    net/http/ the server, util/ the red-black tree; src/msexamples holds servers
    and codecs built on it.

    ** How the model reads

    Definitions keep the names of the code. C++ integers are [Z] with their
    wrap-around written out ([wrapU], [wrapS]), characters are [ascii], strings
    and [vector<char>] are lists of them; objects are records, and objects that
    are shared through pointers live in finite maps from addresses (timers,
    channels, connections). A call returns [res A]: a value or a [fault], which
    is a failed [assert], a [LOG_FATAL], an access outside a container, a
    null or dangling pointer, a signed overflow, a failed allocation, or
    exhausted fuel. "Nothing fails" below always means: the result is [Ok].
    Where [#ifdef WIN] selects code, the class [Platform] (file Endian) does;
    witnesses instantiate it with [windows] or [linux].

    What is not source code is an input: answers of system calls ([poll],
    [accept], [connect], [send], reads), addresses of new objects, the clock,
    and the calls that user callbacks make. What may be assumed of them is
    written out in the predicates named [..._enabled] (what can happen in a
    state) and in the laws of the interface classes. Concurrency is a step relation:
    operations that a mutex protects are atomic steps, and steps of different
    threads interleave freely.

    ** Files and the code they model

    - Prelude: results and faults, the weakest precondition [wp], characters,
      fixed-width integers, searching in character arrays.
    - Endian (base/endiantool), StringPiece (base/StringPiece.h), StdContainers
      (the [std::set] and [std::map] operations used), Format ([snprintf] with its
      conversions, and IEEE doubles), Timestamp (base/Timestamp), Atomic
      (base/Atomic.h), LogStream (base/LogStream).
    - Buffer, BufferFacts: net/Buffer.
    - TimerQueue, TimerQueueFacts: net/Timer, TimerId, TimerQueue.
    - Channel: net/Channel. Poller, PollerFacts: net/Poller,
      poller/PollPoller.
    - EventLoop, EventLoopFacts: net/EventLoop; the loop thread is a machine
      [loop_step] and other threads queue, quit and wake it in [step].
    - EventLoopThread: one loop thread, its start and end, as a finite machine
      whose reachable states are enumerated. EventLoopThreadPool: the pool.
    - ChannelHost: the interface between a loop and the owners of channels,
      [ChannelHost] and [ChannelOwner] with their laws; [EventLoop] is an
      instance. TcpConnection, Acceptor and Connector are proved against it.
    - TcpConnection, TcpConnectionFacts: net/TcpConnection.
    - ConnLife: the life cycle of a connection as its owner sees it, and the
      proof that [TcpConnection] implements it. TcpServer and TcpClient use
      connections through it.
    - ConnUse: the messages given to [send] and what every handler of a
      connection does to them; its users below build on it.
    - Acceptor, TcpServer, TcpServerFacts: net/Acceptor, TcpServer.
    - Connector, ConnectorFacts, TcpClient, TcpClientFacts: net/Connector,
      TcpClient. ClientDelete: the destructor of [TcpClient] and all that
      happens after it.
    - Lifetime: the [shared_ptr]s to a connection of a server, counted, with
      the two loops and user threads interleaved.
    - TimerService: the timer queue with the clock, the timer of the operating
      system, the messages that reach the loop, and the functors in which other
      threads queue timers and cancellations. TimerApi: [EventLoop::runAt] and
      its relatives, threads that are interrupted in the middle of [addTimer],
      and the destructor of the queue.
    - Sockets: base/sockettool, net/Socket, net/InetAddress and the socket of
      Acceptor, over a kernel that is a parameter ([Kernel], [KernelLaws]).
    - Http, HttpFacts: net/http. HttpStream: requests that arrive in pieces.
      HttpConn: the server as the user of a [TcpConnection].
    - LogFile: base/LogFile and the [AppendFile] of base/FileUtil.
      AsyncLogging: base/AsyncLogging, appends of any threads interleaved with
      the logging thread and the [LogFile] it writes.
    - CondVar: the condition variables of base/lock as lists of waiting
      threads. CountDownLatch and ThreadPool: base/CountDownLatch.h and
      ThreadPool, callers and pool threads interleaved at their critical
      sections.
    - YQueue, YQueueFacts: base/yqueue.hpp and atomic_ptr.hpp, linked chunks at
      explicit addresses.
    - RbTree: util/rbtree, nodes at explicit addresses, and the map of
      msexamples/0unittest/rbtree_test.cpp. RbShape: the tree that the nodes
      represent, seen from one of its nodes. RbTreeFacts: insertion, removal
      and replacement. RbMap: the map.
    - Decoder: decoders that consume a buffer, and why cutting a stream into
      reads does not matter. LengthCodec: msexamples/asio/chat. FastCgi,
      FastCgiFacts: msexamples/fastcgi. PubSub, PubSubFacts: msexamples/hub.
    - Memcached, MemcachedFacts, MemcachedRefines: msexamples/memcached/server,
      the definitions, the decoder of a session and single commands, the
      refinement of an abstract cache. IdleEcho: msexamples/idleconnection.
      MaxEcho: msexamples/maxconnection. Relay: the TCP relay of
      msexamples/socks4a (tunnel.h, tcprelay.cpp). RoundTrip:
      msexamples/roundtrip. ShortUrl: msexamples/shorturl. PingPong:
      msexamples/pingpong and the server of netty/echo. FileTransfer:
      msexamples/filetransfer, over a [TcpConnection]. EchoConn:
      msexamples/netty/echo, both programs over two [TcpConnection]s and the
      network between them.
    - SelectServer, SelectClient: mstest/select_server.cpp and
      select_client.cpp, one step per system call. SelectEcho: both together.
    - AnyMy: mstest/AnyMy.hpp, holders at explicit addresses. MainThread: which
      thread is the main thread (base/Thread.cpp).
    - FileNames: the path functions of base/FileUtil. FileConf:
      base/FileConfReader. Logging: base/Logging, a line from its parts.
      FastMutex: base/fast_mutex.h, threads interleaved at every access to the
      word. Locks: base/lock, [mutex_t], its guard and the wait of a condition
      variable, over a mutex of the operating system that is a parameter. Thread: base/Thread.h, an object and the thread it starts.

    ** What the theorems show

    - Loop: no wake-up is lost however threads interleave, functors run in
      order and once, a batch of functors terminates; [handleEvent] runs the
      callbacks the events call for; the poller reports what [poll] reported and
      watches exactly what was requested, also after removals move entries.
    - Timers: processing an expiry never fails, runs exactly the expired timers,
      and respects cancellation from callbacks; while a timer is scheduled, a
      message or the operating system's timer will make the loop serve it, not
      early and not never ([timers_served]), whichever threads add and cancel;
      the destructor deletes what is scheduled, once ([timers_freed]).
    - Connections: no handler fails under any kernel answers and re-entrant
      user calls and under all events but one, a hang-up with urgent data and no
      other input, which does fail when the stream ends ([connection_safe]); the
      byte stream is neither reordered nor lost; the
      callbacks come once and in order; the owner's contract is refined; no
      connection is used after its deletion or kept for ever
      ([connection_lifetime]), under conditions that [lifetime_races] shows to be
      needed.
    - Servers and clients: no step of a server fails but for a failing
      [accept], while it lives and has made less than 10^8 connections
      ([server_safe]); the connection map is exact; a client has one open
      connection, and when it is deleted with its connector at rest or without a
      connection nothing calls it afterwards ([client_deleted_safely]); when it
      is deleted too soon the destructor of its connector fails
      ([deleted_too_soon]); sockets of the connector are not leaked; the
      pool is fair; starting a loop thread cannot get stuck.
    - Sockets: whichever call but [close] fails, [socketpair] leaks no descriptor
      ([socketpair_no_leak]); addresses print as they were given
      ([address_reads_back]).
    - Data: [Buffer] refines a byte queue while sizes fit a [size_t]
      ([buffer_refines_queue]; a reservation near 2^64 does not,
      [huge_reservation]); integers, time stamps and HTTP
      messages round-trip; incremental HTTP parsing equals parsing at once as
      long as nothing was refused, and
      the HTTP server on a connection is an abstract server that answers at most
      one request per read ([http_serves], [pipelined_waits]); log
      streams stay inside their arrays and print what [printf] would.
    - Logging: a log file loses nothing when it rolls; the asynchronous log
      writes the lines that fit a buffer in the order of their appends to its log
      file, each after at most five steps of its thread, while files can be
      opened and no buffers are dropped ([log_order], [log_delivered]).
    - Threads: every task given to the pool runs once and in order, no wake-up
      is lost ([pool_fifo], [pool_drains]); the latch opens exactly at zero.
    - Containers: the chunked queue refines a list ([yqueue_refines]); the
      red-black tree keeps its balance and the map in it refines a finite map
      ([rb_map_refines], [rb_map_balanced]); variables that hold values of any
      type behave as values and own what they hold ([any_refines]).
    - Protocols: codecs deliver what was sent however the stream is cut
      ([codec_roundtrip], [fcgi_request], [pubsub_delivers]); the hub refines an
      abstract publish-subscribe service ([hub_refines]), a memcached session an
      abstract cache for the commands set, add, get, gets, delete and version
      ([memcached_refines]).
    - Connections under a regime: the timing wheel shuts a connection down after
      exactly its idle time ([idle_exact], [idle_refines]), the limit on
      connections is kept ([limit_kept]); a tunnel of the relay forwards exactly
      what arrives, in both directions ([relay_exact]); a pingpong session
      repeats its block and counts it ([pingpong_exact]); a file of less than
      2 GiB arrives whole ([file_transferred]); a message circles between the echo programs
      without loss ([echo_circle]); the select server echoes to every client
      it listens to while [recv] and [accept] work ([select_echoes]), and a
      line client with it prints its input of whole lines and never waits in
      vain ([cli_prints], [echo_service]); the clocks are compared
      with the times at which messages were read ([clock_exact]); a short-url
      request gets its answer ([shorturl_answers]).
    - Foundation: the spin lock excludes and lets a lone thread in
      ([fast_mutex_excludes], [fast_mutex_progress]); sections under a
      [lock_guard_t] behave as atomic steps ([sections_atomic]), which is how the
      other files model operations that a mutex protects; a log statement writes
      exactly its line ([log_line]); a thread runs its function once and [join]
      waits for it ([thread_lifecycle]), the main thread is the one created
      first ([main_thread_first]); a stored setting is read back
      ([setVal_roundtrip], [load_safe]); names of files are found in paths
      ([path_name], [path_stem]).
    - Errors: theorems named after misbehaviour ([urgent_hangup],
      [bad_request_aborts], [delete_dangles], [stale_retry],
      [destructor_races], [log_lost], [reenable_ignored], [read_error],
      [destroy_disconnecting], [stop_strands], [respond_unfinished],
      [request_aborts], [replace_stores_nothing],
      [long_entry_swallows], [full_line_runs_on], [orphan_stays], [accept_or_die],
      [thread_misuse], [stopped_counts_twice], [throughput_wraps],
      [deleted_elsewhere_called], [deleted_too_soon], [lifetime_races], [timer_races],
      [huge_reservation], [piece_of_string_negative],
      [pipelined_waits], [select_starves], [unfinished_line_waits], the second half of [connection_names], [dueTime_bounds], [path_stem] and
      [int64_roundtrip]) prove faults of the code.

    ** Fuel and bounds

    [digits] has a digit of fuel per bit, HTTP's [parse_loop] one round per
    readable byte plus one (a round that goes on consumes two), the table
    loops of LogStream one round per digit of a 64 bit integer; each is proved
    to suffice. [EventLoopThread.explore] gets 40 rounds, and that the
    explored set is closed under steps is checked by computation. Message
    handlers of the codecs get one round per readable byte plus one, walks and
    rebalancing in a tree one round per node in memory plus one, the destructor
    of the chunked queue one per chunk plus one.

    ** Not modelled

    Sizes of 2 GiB and more where a codec or the hub hands a string to
    [TcpConnection::send] (an [int] counts its characters; TcpConnection,
    FileTransfer, EchoConn and IdleEcho do model that conversion, and that an
    [append] of bytes that are in memory cannot wrap a [size_t] is
    [room_for_code]). Sleeping, the console and crash dumps; the text of doubles and of the
    format strings of [Fmt], which are parameters. Outside Lifetime, and in it
    for one connection, addresses of connections are not reused. The memcached
    server is modelled with one worker thread. base/WeakCallback.h is used by
    nothing. Of the examples socks4a.cpp, which does not compile. Test programs
    and experiments (src/mstest, tests/), but for AnyMy.hpp and the two select
    programs, whose sockets are made before the model starts and whose
    [fd_set]s are a parameter with the laws of winsock2.h. *)
From stdpp Require Export base prelude gmap strings list sorting.
From Stdlib Require Export Lia ZArith Ascii.

#[global] Open Scope Z_scope.
#[global] Open Scope nat_scope.

(** ** Results: what a C++ call can do besides returning

    [AssertFailed] is a failed [assert] (the library is modelled in its debug
    build), [LogFatal] a [LOG_FATAL] message, which aborts the process,
    [OutOfBounds] an access outside a container or array, [NullDeref] the use
    of a null or dangling pointer, [Overflow] a signed integer overflow or an
    out-of-range conversion, [BadAlloc] a failed [new] and [OutOfFuel] the end of a loop's fuel. *)
Inductive fault :=
  | AssertFailed
  | LogFatal
  | OutOfBounds
  | NullDeref
  | OutOfFuel
  | Overflow
  | BadAlloc.

Inductive res (A : Type) : Type :=
  | Ok (a : A)
  | Fault (f : fault).
Arguments Ok {A} _.
Arguments Fault {A} _.

#[global] Instance fault_eq_dec : EqDecision fault.
Proof. solve_decision. Defined.

#[global] Instance res_eq_dec {A} `{EqDecision A} : EqDecision (res A).
Proof. solve_decision. Defined.

#[global] Instance res_ret : MRet res := fun A a => Ok a.
#[global] Instance res_bind : MBind res := fun A B f m =>
  match m with Ok a => f a | Fault e => Fault e end.
#[global] Instance res_fmap : FMap res := fun A B f m =>
  match m with Ok a => Ok (f a) | Fault e => Fault e end.

Definition assert_ (b : bool) : res unit :=
  if b then Ok tt else Fault AssertFailed.

Definition get_ {A} (f : fault) (o : option A) : res A :=
  match o with Some a => Ok a | None => Fault f end.

Definition is_ok {A} (r : res A) : bool :=
  match r with Ok _ => true | Fault _ => false end.

Lemma bind_ok {A B} (m : res A) (f : A -> res B) b :
  m ≫= f = Ok b <-> exists a, m = Ok a /\ f a = Ok b.
Proof.
  destruct m as [a|e]; simpl; split.
  - intros H; exists a; done.
  - intros (a' & [= <-] & H); done.
  - done.
  - intros (a' & [=] & _).
Qed.

Lemma assert_ok b u : assert_ b = Ok u <-> b = true.
Proof. destruct b, u; simpl; split; done. Qed.

Lemma get_ok {A} f (o : option A) a : get_ f o = Ok a <-> o = Some a.
Proof. destruct o; simpl; split; congruence. Qed.

(** [wp F r P]: the call returns a value satisfying [P], or fails with one of
    the faults in [F]. *)
Definition wp {A} (F : fault -> Prop) (r : res A) (P : A -> Prop) : Prop :=
  match r with Ok a => P a | Fault e => F e end.

Lemma wp_bind {A B} F (m : res A) (f : A -> res B) P :
  wp F m (fun a => wp F (f a) P) -> wp F (m ≫= f) P.
Proof. by destruct m. Qed.

Lemma wp_mono {A} F (m : res A) (P Q : A -> Prop) :
  wp F m P -> (forall a, P a -> Q a) -> wp F m Q.
Proof. destruct m; simpl; auto. Qed.

Lemma wp_assert F b (P : unit -> Prop) : b = true -> P tt -> wp F (assert_ b) P.
Proof. by intros ->. Qed.

Lemma wp_get {A} F f (o : option A) a (P : A -> Prop) :
  o = Some a -> P a -> wp F (get_ f o) P.
Proof. by intros ->. Qed.

Lemma wp_ok {A} F (m : res A) P a : wp F m P -> m = Ok a -> P a.
Proof. by intros H ->. Qed.

(** Opens every successful bind, assertion and checked read in the context. *)
Ltac inv_res :=
  repeat match goal with
  | H : _ ≫= _ = Ok _ |- _ =>
      let a := fresh "a" in let Ha := fresh "Ha" in
      apply bind_ok in H as (a & Ha & H)
  | H : assert_ _ = Ok _ |- _ => apply assert_ok in H
  | H : get_ _ _ = Ok _ |- _ => apply get_ok in H
  | H : Ok _ = Ok _ |- _ => injection H as H; subst
  | H : Fault _ = Ok _ |- _ => discriminate H
  end.

(** Runs the calls whose result is known. *)
Ltac run_res := cbn [mbind res_bind get_ assert_ fmap res_fmap andb orb negb].

(** Turns boolean comparisons in the context into propositions. *)
Ltac bool_props :=
  repeat match goal with
  | H : (_ && _)%bool = true |- _ => apply andb_true_iff in H as [? H]
  | H : (_ || _)%bool = false |- _ => apply orb_false_iff in H as [? H]
  | H : negb _ = true |- _ => apply negb_true_iff in H
  | H : negb _ = false |- _ => apply negb_false_iff in H
  | H : (_ <=? _)%nat = true |- _ => apply Nat.leb_le in H
  | H : (_ <=? _)%nat = false |- _ => apply Nat.leb_gt in H
  | H : (_ <? _)%nat = true |- _ => apply Nat.ltb_lt in H
  | H : (_ <? _)%nat = false |- _ => apply Nat.ltb_ge in H
  | H : (_ =? _)%nat = true |- _ => apply Nat.eqb_eq in H
  | H : (_ =? _)%nat = false |- _ => apply Nat.eqb_neq in H
  | H : (_ <=? _)%Z = true |- _ => apply Z.leb_le in H
  | H : (_ <=? _)%Z = false |- _ => apply Z.leb_gt in H
  | H : (_ <? _)%Z = true |- _ => apply Z.ltb_lt in H
  | H : (_ <? _)%Z = false |- _ => apply Z.ltb_ge in H
  | H : (_ =? _)%Z = true |- _ => apply Z.eqb_eq in H
  | H : (_ =? _)%Z = false |- _ => apply Z.eqb_neq in H
  | H : bool_decide _ = true |- _ => apply bool_decide_eq_true in H
  | H : bool_decide _ = false |- _ => apply bool_decide_eq_false in H
  end.

(** Case analysis on the outermost [if] or [match] of the goal, with the
    comparison as a hypothesis. *)
Ltac case_if :=
  match goal with
  | |- context [if ?b then _ else _] => destruct b eqn:?
  end; bool_props.

(** ** Characters and byte strings

    [char] arrays, [std::string] and [vector<char>] are lists of characters. *)
Abbreviation char := Ascii.ascii.
Abbreviation bytes := (list Ascii.ascii).

Definition str (s : String.string) : bytes := String.list_ascii_of_string s.

(** The unsigned value of a character, and the character a value is stored
    as ([static_cast<unsigned char>]). *)
Definition Z_of_char (c : char) : Z := Z.of_N (N_of_ascii c).
Definition char_of_Z (z : Z) : char := ascii_of_N (Z.to_N (z mod 256)).

Definition nul : char := Ascii.zero.

(** Conversions to a w-bit unsigned and signed integer. *)
Definition wrapU (w z : Z) : Z := (z mod 2 ^ w)%Z.
Definition wrapS (w z : Z) : Z :=
  let u := wrapU w z in if (u <? 2 ^ (w - 1))%Z then u else (u - 2 ^ w)%Z.

Lemma Z_of_char_bound c : (0 <= Z_of_char c < 256)%Z.
Proof.
  unfold Z_of_char. pose proof (N_ascii_bounded c). lia.
Qed.

Lemma Z_of_char_of_Z z : Z_of_char (char_of_Z z) = (z mod 256)%Z.
Proof.
  unfold Z_of_char, char_of_Z.
  pose proof (Z.mod_pos_bound z 256 eq_refl).
  rewrite N_ascii_embedding by lia. lia.
Qed.

Lemma char_of_Z_of_char c : char_of_Z (Z_of_char c) = c.
Proof.
  unfold char_of_Z. rewrite Z.mod_small by apply Z_of_char_bound.
  unfold Z_of_char. rewrite N2Z.id. apply ascii_N_embedding.
Qed.

Lemma Z_of_char_inj c d : Z_of_char c = Z_of_char d -> c = d.
Proof.
  intros H. rewrite <- (char_of_Z_of_char c), <- (char_of_Z_of_char d). congruence.
Qed.

Lemma wrapU_bound w z : (0 <= w)%Z -> (0 <= wrapU w z < 2 ^ w)%Z.
Proof. intros H. apply Z.mod_pos_bound. lia. Qed.

Lemma wrapU_small w z : (0 <= z < 2 ^ w)%Z -> wrapU w z = z.
Proof. apply Z.mod_small. Qed.

Lemma wrapS_small w z :
  (0 < w)%Z -> (- 2 ^ (w - 1) <= z < 2 ^ (w - 1))%Z -> wrapS w z = z.
Proof.
  intros Hw Hz. unfold wrapS, wrapU.
  assert (Hp : (2 ^ w = 2 * 2 ^ (w - 1))%Z)
    by (rewrite <- Z.pow_succ_r by lia; f_equal; lia).
  destruct (Z.leb_spec 0 z).
  - rewrite Z.mod_small by lia. case_if; lia.
  - replace (z mod 2 ^ w)%Z with (z + 2 ^ w)%Z
      by (apply Z.mod_unique with (q := (-1)%Z); lia).
    case_if; lia.
Qed.

(** [wrapS] undoes [wrapU] on values that fit the signed width. *)
Lemma wrapS_wrapU w z :
  (0 < w)%Z -> (- 2 ^ (w - 1) <= z < 2 ^ (w - 1))%Z -> wrapS w (wrapU w z) = z.
Proof.
  intros Hw Hz. rewrite <- (wrapS_small w z) at 2 by done.
  unfold wrapS, wrapU. by rewrite Z.mod_mod by lia.
Qed.

Lemma wrapU_wrapS w z : (0 < w)%Z -> wrapU w (wrapS w z) = wrapU w z.
Proof.
  intros Hw. unfold wrapS, wrapU. case_if; [by rewrite Z.mod_mod by lia|].
  rewrite <- (Z.mod_add _ 1) by lia.
  replace (z mod 2 ^ w - 2 ^ w + 1 * 2 ^ w)%Z with (z mod 2 ^ w)%Z by lia.
  by rewrite Z.mod_mod by lia.
Qed.

Lemma wrapS_add w a b : (0 < w)%Z -> wrapS w (wrapS w a + b) = wrapS w (a + b).
Proof.
  intros Hw. assert (Hn : (2 ^ w <> 0)%Z) by (apply Z.pow_nonzero; lia).
  assert (H : forall x, wrapU w (x + b) = wrapU w (wrapU w x + b))
    by (intros x; unfold wrapU; by rewrite Z.add_mod_idemp_l by done).
  unfold wrapS at 1 3. by rewrite (H (wrapS w a)), wrapU_wrapS, <- H by done.
Qed.

Lemma wrapS_wrapS w a : (0 < w)%Z -> wrapS w (wrapS w a) = wrapS w a.
Proof. intros Hw. pose proof (wrapS_add w a 0 Hw) as H. by rewrite !Z.add_0_r in H. Qed.

(** Or-ing a field below a shifted one adds them. *)
Lemma lor_shift_add n a b :
  (0 <= n)%Z -> (0 <= b < 2 ^ n)%Z -> Z.lor (a * 2 ^ n) b = (a * 2 ^ n + b)%Z.
Proof.
  intros Hn Hb. rewrite <- Z.add_lor_land.
  enough (Z.land (a * 2 ^ n) b = 0%Z) as -> by lia.
  apply Z.bits_inj'. intros i Hi. rewrite Z.land_spec, Z.bits_0.
  destruct (Z.ltb_spec i n).
  - by rewrite Z.mul_pow2_bits_low.
  - rewrite <- (Z.mod_small b (2 ^ n)) by done.
    rewrite Z.mod_pow2_bits_high by lia. apply andb_false_r.
Qed.

Lemma land_ones_mod n a : (0 <= n)%Z -> Z.land a (2 ^ n - 1) = (a mod 2 ^ n)%Z.
Proof. intros Hn. rewrite <- Z.land_ones by done. by rewrite Z.ones_equiv. Qed.

(** ** Searching and copying in character arrays *)

(** [std::find] and [memchr]: the offset of the first [c]. *)
Fixpoint find_char (c : char) (l : bytes) : option nat :=
  match l with
  | [] => None
  | x :: l' => if Ascii.eqb x c then Some 0 else S <$> find_char c l'
  end.

(** Does [l] start with [p]? *)
Fixpoint starts (p l : bytes) : bool :=
  match p, l with
  | [], _ => true
  | x :: p', y :: l' => Ascii.eqb x y && starts p' l'
  | _ :: _, [] => false
  end.

(** [std::search]: the offset of the first occurrence of the pattern. *)
Fixpoint find_sub (p l : bytes) : option nat :=
  if starts p l then Some 0
  else match l with
       | [] => None
       | _ :: l' => S <$> find_sub p l'
       end.

(** [std::copy] of [d] to offset [i] of an array. *)
Definition overwrite (i : nat) (d l : bytes) : res bytes :=
  if (i + length d <=? length l)%nat
  then Ok (take i l ++ d ++ drop (i + length d) l)
  else Fault OutOfBounds.

Lemma starts_spec p l : starts p l = true <-> exists l', l = p ++ l'.
Proof.
  revert l; induction p as [|x p IH]; intros l; simpl.
  - split; [by exists l | done].
  - destruct l as [|y l]; [split; [done | by intros (? & ?)]|].
    rewrite andb_true_iff, Ascii.eqb_eq, IH. split.
    + intros (-> & l' & ->). by exists l'.
    + intros (l' & [= -> ->]). eauto.
Qed.

Lemma starts_app p l l' : starts p l = true -> starts p (l ++ l') = true.
Proof.
  rewrite !starts_spec. intros (t & ->). exists (t ++ l'). by rewrite <- app_assoc.
Qed.

Lemma starts_length p l : starts p l = true -> length p <= length l.
Proof. rewrite starts_spec. intros (t & ->). rewrite length_app. lia. Qed.

Lemma find_sub_Some p l i :
  find_sub p l = Some i -> exists a b, l = a ++ p ++ b /\ length a = i.
Proof.
  revert i; induction l as [|x l IH]; intros i; simpl.
  - destruct p; simpl; [intros [= <-]; by exists [], [] | done].
  - destruct (starts p (x :: l)) eqn:Hs.
    + intros [= <-]. apply starts_spec in Hs as (t & ->). by exists [], t.
    + destruct (find_sub p l) as [j|]; [|done]. simpl. intros [= <-].
      destruct (IH j eq_refl) as (a & b & -> & <-). by exists (x :: a), b.
Qed.

(** Nothing before the offset found starts the pattern. *)
Lemma find_sub_first p l i j :
  find_sub p l = Some i -> j < i -> starts p (drop j l) = false.
Proof.
  revert i j; induction l as [|x l IH]; intros i j; simpl.
  - destruct (starts p []); intros [= <-]; lia.
  - destruct (starts p (x :: l)) eqn:Hs; [intros [= <-]; lia|].
    destruct (find_sub p l) as [k|] eqn:Hk; [|done]. simpl. intros [= <-] Hj.
    destruct j as [|j]; [done|]. simpl. apply (IH k); [done | lia].
Qed.

Lemma find_sub_None p l j :
  find_sub p l = None -> starts p (drop j l) = false.
Proof.
  revert j; induction l as [|x l IH]; intros j; simpl.
  - rewrite drop_nil. by destruct (starts p []).
  - destruct (starts p (x :: l)) eqn:Hs; [done|].
    destruct (find_sub p l) as [k|] eqn:Hk; [done|]. intros _.
    destruct j as [|j]; [done|]. simpl. by apply IH.
Qed.

(** More bytes do not change what was found. *)
Lemma find_sub_app p l l' n : p <> [] -> find_sub p l = Some n -> find_sub p (l ++ l') = Some n.
Proof.
  intros Hp. revert n; induction l as [|x l IH]; intros n; simpl.
  - destruct p; [done | simpl; done].
  - destruct (starts p (x :: l)) eqn:Hs.
    + rewrite (starts_app p (x :: l) l' Hs : starts p (x :: l ++ l') = true). done.
    + destruct (find_sub p l) as [k|] eqn:Hk; [|done]. simpl. intros [= <-].
      rewrite (IH k eq_refl). destruct (starts p (x :: l ++ l')) eqn:Hs'; [|done]. exfalso.
      destruct (find_sub_Some _ _ _ Hk) as (a & b & -> & _).
      apply starts_spec in Hs' as (t & Ht). change (x :: (a ++ p ++ b) ++ l') with ((x :: a ++ p ++ b) ++ l') in Ht.
      assert (starts p (x :: a ++ p ++ b) = true); [|congruence].
      apply starts_spec. exists (drop (length p) (x :: a ++ p ++ b)).
      apply (f_equal (take (length p))) in Ht.
      rewrite take_app_le, take_app_length in Ht by (rewrite !length_app || idtac; simpl; rewrite !length_app; lia).
      rewrite <- Ht at 2. by rewrite take_drop.
Qed.

Lemma find_char_Some c l i :
  find_char c l = Some i -> exists a b, l = a ++ c :: b /\ length a = i /\ c ∉ a.
Proof.
  revert i; induction l as [|x l IH]; intros i; simpl; [done|].
  destruct (Ascii.eqb_spec x c) as [->|Hx].
  - intros [= <-]. exists [], l. split_and!; [done|done|]. set_solver.
  - destruct (find_char c l) as [j|]; [|done]. simpl. intros [= <-].
    destruct (IH j eq_refl) as (a & b & -> & <- & Hn).
    exists (x :: a), b. split_and!; [done|done|]. set_solver.
Qed.

Lemma find_char_None c l : find_char c l = None <-> c ∉ l.
Proof.
  induction l as [|x l IH]; simpl; [split; [set_solver | done]|].
  destruct (Ascii.eqb_spec x c) as [->|Hx].
  - split; [done | set_solver].
  - rewrite fmap_None, IH. set_solver.
Qed.

Lemma find_char_app c a b : c ∉ a -> find_char c (a ++ c :: b) = Some (length a).
Proof.
  induction a as [|x a IH]; intros Hn; simpl.
  - by rewrite Ascii.eqb_refl.
  - destruct (Ascii.eqb_spec x c) as [->|Hx]; [set_solver|].
    rewrite IH by set_solver. done.
Qed.

Lemma overwrite_ok i d l l' :
  overwrite i d l = Ok l' ->
  i + length d <= length l /\ l' = take i l ++ d ++ drop (i + length d) l.
Proof. unfold overwrite. case_if; intros [= <-]; done. Qed.

Lemma overwrite_length i d l l' : overwrite i d l = Ok l' -> length l' = length l.
Proof.
  intros (Hl & ->)%overwrite_ok. rewrite !length_app, length_take, length_drop. lia.
Qed.

Lemma overwrite_in_range i d l :
  i + length d <= length l ->
  overwrite i d l = Ok (take i l ++ d ++ drop (i + length d) l).
Proof. intros H. unfold overwrite. apply Nat.leb_le in H. by rewrite H. Qed.

(** The part of an array before a copy is kept. *)
Lemma take_overwrite i d l l' : overwrite i d l = Ok l' -> take i l' = take i l.
Proof.
  intros (Hl & ->)%overwrite_ok. rewrite take_app_le by (rewrite length_take; lia).
  by rewrite take_take, Nat.min_id.
Qed.

Create HintDb msm.
Create Rewrite HintDb msm_len.
#[export] Hint Resolve Z_of_char_bound : msm.
#[export] Hint Rewrite @length_app @length_take @length_drop @length_replicate : msm_len.

(** Arithmetic about lengths of take, drop and append. *)
Ltac len := autorewrite with msm_len in *; simpl in *; lia.
