(* ===== verification/Endian.v ===== *)
(** * Byte order: [src/msmuduo/base/endiantool.cpp]

    The in-memory representation of integers on the host, [htonl] and its
    relatives, and the 16, 32 and 64 bit conversions of namespace
    [endiantool]. A [Platform] says which branch of the [#ifdef WIN] is
    compiled and what [is_bigendian()] finds on the host. *)
From S2P Require Import Prelude.

(** ** Integers in memory *)
Fixpoint le_bytes (n : nat) (z : Z) : bytes :=
  match n with
  | O => []
  | S n => char_of_Z z :: le_bytes n (z / 256)
  end.

Definition be_bytes (n : nat) (z : Z) : bytes := reverse (le_bytes n z).

Fixpoint of_le (l : bytes) : Z :=
  match l with
  | [] => 0
  | c :: l => Z_of_char c + 256 * of_le l
  end%Z.

Definition of_be (l : bytes) : Z := of_le (reverse l).

(** The integer whose n bytes are those of [z] in the opposite order. *)
Definition byteswap (n : nat) (z : Z) : Z := of_be (le_bytes n z).

Lemma length_le_bytes n z : length (le_bytes n z) = n.
Proof. revert z; induction n; intros z; simpl; congruence. Qed.

Lemma length_be_bytes n z : length (be_bytes n z) = n.
Proof. unfold be_bytes. by rewrite length_reverse, length_le_bytes. Qed.

Lemma of_le_le_bytes n z : of_le (le_bytes n z) = (z mod 256 ^ Z.of_nat n)%Z.
Proof.
  revert z; induction n as [|n IH]; intros z; simpl le_bytes; simpl of_le.
  - by rewrite Z.mod_1_r.
  - rewrite IH, Z_of_char_of_Z, Nat2Z.inj_succ, Z.pow_succ_r by lia.
    rewrite Z.rem_mul_r by lia. done.
Qed.

Lemma le_bytes_of_le l : le_bytes (length l) (of_le l) = l.
Proof.
  induction l as [|c l IH]; simpl; [done|].
  pose proof (Z_of_char_bound c).
  replace ((Z_of_char c + 256 * of_le l) / 256)%Z with (of_le l)
    by (apply Z.div_unique with (r := Z_of_char c); lia).
  rewrite IH. f_equal.
  rewrite <- (char_of_Z_of_char c) at 2. unfold char_of_Z. f_equal. f_equal.
  rewrite Z.mul_comm. by rewrite Z.mod_add by lia.
Qed.

Lemma of_le_bound l : (0 <= of_le l < 256 ^ Z.of_nat (length l))%Z.
Proof.
  rewrite <- (le_bytes_of_le l) at 1 2. rewrite of_le_le_bytes.
  apply Z.mod_pos_bound. lia.
Qed.

Lemma le_bytes_mod n z : le_bytes n (z mod 256 ^ Z.of_nat n)%Z = le_bytes n z.
Proof.
  rewrite <- of_le_le_bytes. rewrite <- (length_le_bytes n z) at 1.
  apply le_bytes_of_le.
Qed.

Lemma le_bytes_inj n x y :
  (0 <= x < 256 ^ Z.of_nat n)%Z -> (0 <= y < 256 ^ Z.of_nat n)%Z ->
  le_bytes n x = le_bytes n y -> x = y.
Proof.
  intros Hx Hy H. apply (f_equal of_le) in H.
  by rewrite !of_le_le_bytes, !Z.mod_small in H.
Qed.

(** Concatenating memory images adds them with a shift. *)
Lemma le_bytes_app n m z :
  le_bytes (n + m) z = le_bytes n z ++ le_bytes m (z / 256 ^ Z.of_nat n)%Z.
Proof.
  revert z; induction n as [|n IH]; intros z; simpl.
  - by rewrite Z.div_1_r.
  - f_equal. rewrite IH. do 2 f_equal.
    rewrite Z.div_div by lia. f_equal.
    rewrite <- Z.pow_succ_r by lia. f_equal. lia.
Qed.

Lemma le_bytes_byteswap n z : le_bytes n (byteswap n z) = be_bytes n z.
Proof.
  unfold byteswap, of_be, be_bytes.
  rewrite <- (length_le_bytes n z) at 1. rewrite <- length_reverse.
  apply le_bytes_of_le.
Qed.

Lemma byteswap_bound n z : (0 <= byteswap n z < 256 ^ Z.of_nat n)%Z.
Proof.
  unfold byteswap, of_be. pose proof (of_le_bound (reverse (le_bytes n z))) as H.
  by rewrite length_reverse, length_le_bytes in H.
Qed.

Lemma byteswap_involutive n z :
  (0 <= z < 256 ^ Z.of_nat n)%Z -> byteswap n (byteswap n z) = z.
Proof.
  intros Hz. unfold byteswap at 1, of_be. rewrite le_bytes_byteswap.
  unfold be_bytes. rewrite reverse_involutive, of_le_le_bytes.
  by apply Z.mod_small.
Qed.

Lemma of_be_be_bytes n z : of_be (be_bytes n z) = (z mod 256 ^ Z.of_nat n)%Z.
Proof. unfold of_be, be_bytes. by rewrite reverse_involutive, of_le_le_bytes. Qed.

(** ** The host *)
Class Platform := {
  win : bool;            (* WIN is defined *)
  bigendian : bool       (* the first byte of the int 1 is 0 *)
}.

(** The platforms the witnesses run on. *)
Definition windows : Platform := {| win := true; bigendian := false |}.
Definition linux : Platform := {| win := false; bigendian := false |}.

(** The macros [is_bigendian] and [is_littlendbian]. *)
Definition is_bigendian `{Platform} : bool := bigendian.
Definition is_littlendbian `{Platform} : bool := negb bigendian.

(** The n bytes of an integer object of the host, and the value they hold. *)
Definition to_mem `{Platform} (n : nat) (z : Z) : bytes :=
  if bigendian then be_bytes n z else le_bytes n z.
Definition of_mem `{Platform} (l : bytes) : Z :=
  if bigendian then of_be l else of_le l.

(** [htons], [htonl], [htobe64] and the converse functions of the socket
    library: they swap on a little-endian host. *)
Definition hton `{Platform} (n : nat) (z : Z) : Z :=
  if bigendian then z else byteswap n z.

(** ** [endiantool] *)
Section Endiantool.
Context `{Platform}.

Definition hton64 (host : Z) : Z :=
  if is_bigendian then host
  else
    let low := Z.land host 0xFFFFFFFF in
    let high := Z.land (Z.shiftr host 32) 0xFFFFFFFF in
    let low := hton 4 low in
    let high := hton 4 high in
    let ret := low in
    let ret := wrapU 64 (Z.shiftl ret 32) in
    Z.lor ret high.

Definition ntoh64 (net : Z) : Z :=
  if is_littlendbian then net
  else
    let low := Z.land net 0xFFFFFFFF in
    let high := Z.land (Z.shiftr net 32) 0xFFFFFFFF in
    let low := hton 4 low in
    let high := hton 4 high in
    let ret := low in
    let ret := wrapU 64 (Z.shiftl ret 32) in
    Z.lor ret high.

Definition hostToNetwork64 (host64 : Z) : Z :=
  if win then hton64 host64 else hton 8 host64.
Definition hostToNetwork32 (host32 : Z) : Z := hton 4 host32.
Definition hostToNetwork16 (host16 : Z) : Z := hton 2 host16.

Definition networkToHost64 (net64 : Z) : Z :=
  if win then ntoh64 net64 else hton 8 net64.
Definition networkToHost32 (net32 : Z) : Z := hton 4 net32.
Definition networkToHost16 (net16 : Z) : Z := hton 2 net16.
End Endiantool.

(** ** What the conversions compute *)
Section EndianFacts.
Context `{Platform}.

Lemma length_to_mem n z : length (to_mem n z) = n.
Proof. unfold to_mem. case_if; auto using length_be_bytes, length_le_bytes. Qed.

Lemma of_mem_to_mem n z : of_mem (to_mem n z) = (z mod 256 ^ Z.of_nat n)%Z.
Proof.
  unfold of_mem, to_mem. case_if; auto using of_be_be_bytes, of_le_le_bytes.
Qed.

Lemma to_mem_mod n z : to_mem n (z mod 256 ^ Z.of_nat n)%Z = to_mem n z.
Proof. unfold to_mem, be_bytes. by rewrite le_bytes_mod. Qed.

Lemma hton_bound n z :
  (0 <= z < 256 ^ Z.of_nat n)%Z -> (0 <= hton n z < 256 ^ Z.of_nat n)%Z.
Proof. unfold hton. case_if; auto using byteswap_bound. Qed.

Lemma hton_involutive n z :
  (0 <= z < 256 ^ Z.of_nat n)%Z -> hton n (hton n z) = z.
Proof. unfold hton. case_if; auto using byteswap_involutive. Qed.

(** A converted integer lies in memory in network order. *)
Lemma to_mem_hton n z : to_mem n (hton n z) = be_bytes n z.
Proof. unfold to_mem, hton. case_if; auto using le_bytes_byteswap. Qed.

Lemma of_mem_be_bytes n z :
  (0 <= z < 256 ^ Z.of_nat n)%Z -> hton n (of_mem (be_bytes n z)) = z.
Proof.
  intros Hz. rewrite <- to_mem_hton, of_mem_to_mem, Z.mod_small
    by auto using hton_bound.
  by apply hton_involutive.
Qed.

(** The 64-bit word assembled from two 32-bit halves. *)
Lemma join_halves a b :
  (0 <= a < 2 ^ 32)%Z -> (0 <= b < 2 ^ 32)%Z ->
  Z.lor (wrapU 64 (Z.shiftl a 32)) b = (a * 2 ^ 32 + b)%Z.
Proof.
  intros Ha Hb. rewrite Z.shiftl_mul_pow2 by lia.
  rewrite wrapU_small by lia. by apply lor_shift_add.
Qed.

Lemma split_halves z :
  (0 <= z < 2 ^ 64)%Z ->
  Z.land z 0xFFFFFFFF = (z mod 2 ^ 32)%Z
  /\ Z.land (Z.shiftr z 32) 0xFFFFFFFF = (z / 2 ^ 32)%Z.
Proof.
  intros Hz. change 0xFFFFFFFF%Z with (2 ^ 32 - 1)%Z.
  rewrite !land_ones_mod, Z.shiftr_div_pow2 by lia. split; [done|].
  apply Z.mod_small. split; [apply Z.div_pos; lia | apply Z.div_lt_upper_bound; lia].
Qed.

(** On a little-endian host [hton64] is the full 8-byte swap. *)
Lemma hton64_byteswap z :
  bigendian = false -> (0 <= z < 2 ^ 64)%Z -> hton64 z = byteswap 8 z.
Proof.
  intros Hle Hz. unfold hton64, is_bigendian, hton. rewrite Hle.
  destruct (split_halves z Hz) as [-> ->].
  pose proof (byteswap_bound 4 (z mod 2 ^ 32)).
  pose proof (byteswap_bound 4 (z / 2 ^ 32)).
  rewrite join_halves by lia.
  apply (le_bytes_inj 8); [lia | apply byteswap_bound |].
  rewrite le_bytes_byteswap. change 8 with (4 + 4). rewrite !le_bytes_app.
  unfold be_bytes. rewrite le_bytes_app, reverse_app. change (256 ^ Z.of_nat 4)%Z with (2 ^ 32)%Z.
  rewrite Z.div_add_l, (Z.div_small (byteswap 4 (z / 2 ^ 32))), Z.add_0_r by lia.
  fold (be_bytes 4 (z / 2 ^ 32)) (be_bytes 4 z).
  rewrite <- (le_bytes_byteswap 4 (z / 2 ^ 32)), <- (le_bytes_byteswap 4 z). f_equal.
  - rewrite <- (le_bytes_mod 4 (_ + _)%Z). change (256 ^ Z.of_nat 4)%Z with (2 ^ 32)%Z.
    rewrite Z.add_comm, Z.mod_add by lia. by rewrite Z.mod_small by lia.
  - unfold byteswap. do 2 f_equal. apply (le_bytes_mod 4 z).
Qed.

(** [hostToNetwork64] puts every 64-bit integer in network order, on every
    platform. *)
Lemma to_mem_hostToNetwork64 z :
  (0 <= z < 2 ^ 64)%Z -> to_mem 8 (hostToNetwork64 z) = be_bytes 8 z.
Proof.
  intros Hz. unfold hostToNetwork64. case_if; [|apply to_mem_hton].
  destruct bigendian eqn:Hb.
  - unfold to_mem, hton64, is_bigendian. by rewrite Hb.
  - rewrite hton64_byteswap by done. unfold to_mem. rewrite Hb.
    apply le_bytes_byteswap.
Qed.
End EndianFacts.
