(* ===== verification/StringPiece.v ===== *)
(** * String views: [src/msmuduo/base/StringPiece.h]

    A [StringPiece] is a pointer into memory it does not own and an [int]
    length. The memory is the list of characters from the pointer to the end
    of the array it points into; [sp_view] is the text the piece denotes. *)
From S2P Require Import Prelude.

Record StringPiece := mkStringPiece { ptr_ : bytes; length_ : Z }.

(** [StringPiece()], [StringPiece(const string&)] and
    [StringPiece(const char*, int)]; the size of a string is cast to [int]. *)
Definition sp_null : StringPiece := mkStringPiece [] 0.
Definition sp_of_string (s : bytes) : StringPiece :=
  mkStringPiece s (wrapS 32 (Z.of_nat (length s))).
Definition sp_of_range (offset : bytes) (len : Z) : StringPiece :=
  mkStringPiece offset len.

(** [strlen]: the characters before the first NUL; running past the end of
    the array is an out-of-bounds read. *)
Definition strlen (s : bytes) : res nat := get_ OutOfBounds (find_char nul s).
Definition sp_of_cstr (s : bytes) : res StringPiece :=
  n ← strlen s; Ok (mkStringPiece s (wrapS 32 (Z.of_nat n))).

Definition sp_data (p : StringPiece) : bytes := ptr_ p.
Definition sp_size (p : StringPiece) : Z := length_ p.
Definition sp_empty (p : StringPiece) : bool := (length_ p =? 0)%Z.
Definition sp_clear (p : StringPiece) : StringPiece := mkStringPiece [] 0.
Definition sp_set (buffer : bytes) (len : Z) (p : StringPiece) : StringPiece :=
  mkStringPiece buffer len.
Definition sp_at (p : StringPiece) (i : nat) : res char := get_ OutOfBounds (ptr_ p !! i).
Definition sp_remove_prefix (n : nat) (p : StringPiece) : StringPiece :=
  mkStringPiece (drop n (ptr_ p)) (length_ p - Z.of_nat n).
Definition sp_remove_suffix (n : nat) (p : StringPiece) : StringPiece :=
  mkStringPiece (ptr_ p) (length_ p - Z.of_nat n).

(** [memcmp] compares unsigned characters; it is positive, zero or negative. *)
Fixpoint memcmp (n : nat) (a b : bytes) : res Z :=
  match n with
  | O => Ok 0%Z
  | S n =>
      match a, b with
      | x :: a, y :: b =>
          if Ascii.eqb x y then memcmp n a b
          else Ok (if (Z_of_char x <? Z_of_char y)%Z then (-1)%Z else 1%Z)
      | _, _ => Fault OutOfBounds
      end
  end.

Definition sp_eqb (p x : StringPiece) : res bool :=
  if (length_ p =? length_ x)%Z
  then r ← memcmp (Z.to_nat (length_ p)) (ptr_ p) (ptr_ x); Ok (r =? 0)%Z
  else Ok false.
Definition sp_neqb (p x : StringPiece) : res bool := negb <$> sp_eqb p x.

Definition min_length (p x : StringPiece) : nat :=
  Z.to_nat (if (length_ p <? length_ x)%Z then length_ p else length_ x).

(** [STRINGPIECE_BINARY_PREDICATE(cmp, auxcmp)] and its four instances. *)
Definition sp_predicate (cmp auxcmp : Z -> Z -> bool) (p x : StringPiece) : res bool :=
  r ← memcmp (min_length p x) (ptr_ p) (ptr_ x);
  Ok (auxcmp r 0%Z || ((r =? 0)%Z && cmp (length_ p) (length_ x))).
Definition sp_ltb := sp_predicate Z.ltb Z.ltb.
Definition sp_leb := sp_predicate Z.leb Z.ltb.
Definition sp_geb := sp_predicate Z.geb Z.gtb.
Definition sp_gtb := sp_predicate Z.gtb Z.gtb.

Definition sp_compare (p x : StringPiece) : res Z :=
  r ← memcmp (min_length p x) (ptr_ p) (ptr_ x);
  Ok (if (r =? 0)%Z
      then if (length_ p <? length_ x)%Z then (-1)%Z
           else if (length_ p >? length_ x)%Z then 1%Z else r
      else r).

Definition sp_as_string (p : StringPiece) : res bytes :=
  if (0 <=? length_ p)%Z && (Z.to_nat (length_ p) <=? length (ptr_ p))
  then Ok (take (Z.to_nat (length_ p)) (ptr_ p)) else Fault OutOfBounds.
(** What a caller passes as a piece of valid memory: its text, which an [int]
    can count. *)
Record piece := mkPiece {
  piece_text : bytes;
  piece_fits : (Z.of_nat (length piece_text) <? 2 ^ 31)%Z = true
}.
Definition sp_of_piece (p : piece) : StringPiece :=
  mkStringPiece (piece_text p) (Z.of_nat (length (piece_text p))).

(** A string given where a piece is expected: with a negative length it does not
    denote memory of the string. *)
Definition piece_of_string (s : bytes) : res piece :=
  text ← sp_as_string (sp_of_string s);
  match decide ((Z.of_nat (length text) <? 2 ^ 31)%Z = true) with
  | left fits => Ok (mkPiece text fits)
  | right _ => Fault OutOfBounds
  end.

Definition sp_CopyToString (p : StringPiece) : res bytes := sp_as_string p.

Definition sp_starts_with (p x : StringPiece) : res bool :=
  if (length_ p >=? length_ x)%Z
  then r ← memcmp (Z.to_nat (length_ x)) (ptr_ p) (ptr_ x); Ok (r =? 0)%Z
  else Ok false.

(** ** Facts *)

(** The text of a piece, and the pieces whose text lies in their array. *)
Definition sp_view (p : StringPiece) : bytes := take (Z.to_nat (length_ p)) (ptr_ p).
Definition sp_ok (p : StringPiece) : Prop :=
  (0 <= length_ p)%Z /\ Z.to_nat (length_ p) <= length (ptr_ p).

(** The lexicographic order on texts, by unsigned character. *)
Fixpoint lexcmp (a b : bytes) : comparison :=
  match a, b with
  | [], [] => Eq
  | [], _ => Lt
  | _, [] => Gt
  | x :: a, y :: b =>
      match (Z_of_char x ?= Z_of_char y)%Z with Eq => lexcmp a b | c => c end
  end.

Definition Z_of_comparison (c : comparison) : Z :=
  match c with Lt => -1 | Eq => 0 | Gt => 1 end%Z.

(** *** Pieces as arguments *)

Lemma sp_of_piece_text p : sp_as_string (sp_of_piece p) = Ok (piece_text p).
Proof.
  unfold sp_as_string, sp_of_piece. cbn [length_ ptr_]. rewrite (proj2 (Z.leb_le _ _)) by lia.
  rewrite Nat2Z.id, Nat.leb_refl. cbn [andb]. by rewrite firstn_all.
Qed.

(** A string whose size is an [int] is passed as it is. *)
Definition fits_int (s : bytes) : Prop := (Z.of_nat (length s) < 2 ^ 31)%Z.

Lemma sp_of_string_text s : fits_int s -> sp_as_string (sp_of_string s) = Ok s.
Proof.
  unfold fits_int, sp_as_string, sp_of_string. intros Hs. cbn [length_ ptr_].
  rewrite wrapS_small by lia. rewrite (proj2 (Z.leb_le _ _)) by lia.
  rewrite Nat2Z.id, Nat.leb_refl. cbn [andb]. by rewrite firstn_all.
Qed.

Lemma piece_of_string_text s : fits_int s -> exists p, piece_of_string s = Ok p /\ piece_text p = s.
Proof.
  intros Hs. unfold piece_of_string. rewrite sp_of_string_text by done. run_res.
  destruct (decide _) as [H|H]; [by eexists|]. destruct H. by apply Z.ltb_lt.
Qed.

(** From 2 GiB on the length is negative, until it wraps again. *)
Lemma piece_of_string_negative s :
  (2 ^ 31 <= Z.of_nat (length s) < 2 ^ 32)%Z -> piece_of_string s = Fault OutOfBounds.
Proof.
  intros Hs. unfold piece_of_string, sp_as_string, sp_of_string. cbn [length_ ptr_].
  assert (wrapS 32 (Z.of_nat (length s)) < 0)%Z as Hw.
  { unfold wrapS, wrapU. rewrite Z.mod_small by lia. cbv zeta. destruct (Z.ltb_spec (Z.of_nat (length s)) (2 ^ (32 - 1))); lia. }
  by rewrite (proj2 (Z.leb_gt _ _) Hw).
Qed.

Lemma length_sp_view p : sp_ok p -> Z.of_nat (length (sp_view p)) = length_ p.
Proof. intros [H0 H1]. unfold sp_view. rewrite length_take. lia. Qed.

(** The result of comparing prefixes and then lengths. *)
Lemma memcmp_prefix n a b :
  n <= length a -> n <= length b ->
  exists r, memcmp n a b = Ok r
    /\ (r = 0%Z -> take n a = take n b)
    /\ (r <> 0%Z -> forall ta tb,
          r = Z_of_comparison (lexcmp (take n a ++ ta) (take n b ++ tb)))
    /\ (-1 <= r <= 1)%Z.
Proof.
  revert a b; induction n as [|n IH]; intros a b Ha Hb; simpl.
  { exists 0%Z. split_and!; [done | done | done | lia | lia]. }
  destruct a as [|x a]; simpl in Ha; [lia|]. destruct b as [|y b]; simpl in Hb; [lia|].
  destruct (Ascii.eqb_spec x y) as [<-|Hxy].
  - destruct (IH a b) as (r & Hr & H0 & H1 & Hb'); [lia|lia|].
    exists r. split_and!; [done | | | lia | lia].
    + intros Hz. simpl. by rewrite (H0 Hz).
    + intros Hz ta tb. simpl. rewrite Z.compare_refl. by apply H1.
  - eexists. split; [done|]. simpl.
    assert (Z_of_char x <> Z_of_char y) by (by intros ?%Z_of_char_inj).
    case_if.
    + split_and!; [lia | | lia | lia]. intros _ ta tb.
      by rewrite (proj2 (Z.compare_lt_iff _ _)).
    + split_and!; [lia | | lia | lia]. intros _ ta tb.
      by rewrite (proj2 (Z.compare_gt_iff _ _)) by lia.
Qed.

Lemma lexcmp_refl a : lexcmp a a = Eq.
Proof. induction a; simpl; rewrite ?Z.compare_refl; done. Qed.

Lemma lexcmp_eq a b : lexcmp a b = Eq -> a = b.
Proof.
  revert b; induction a as [|x a IH]; intros [|y b]; simpl; try done.
  destruct (Z.compare_spec (Z_of_char x) (Z_of_char y)) as [H| |]; try done.
  intros Hab. f_equal; [by apply Z_of_char_inj | by apply IH].
Qed.

Lemma lexcmp_opp a b : lexcmp b a = CompOpp (lexcmp a b).
Proof.
  revert b; induction a as [|x a IH]; intros [|y b]; simpl; try done.
  rewrite (Z.compare_antisym (Z_of_char x)).
  destruct (Z_of_char x ?= Z_of_char y)%Z; simpl; auto.
Qed.

Lemma lexcmp_app p a b : lexcmp (p ++ a) (p ++ b) = lexcmp a b.
Proof. induction p; simpl; rewrite ?Z.compare_refl; auto. Qed.

Lemma lexcmp_nil a : lexcmp [] a = if decide (a = []) then Eq else Lt.
Proof. destruct a; by case_decide. Qed.

(** [compare] is the lexicographic order of the two texts. *)
Lemma sp_compare_view p x :
  sp_ok p -> sp_ok x ->
  sp_compare p x = Ok (Z_of_comparison (lexcmp (sp_view p) (sp_view x))).
Proof.
  intros Hp Hx. pose proof (length_sp_view _ Hp) as Lp. pose proof (length_sp_view _ Hx) as Lx.
  destruct Hp as [Hp0 Hp], Hx as [Hx0 Hx]. unfold sp_compare.
  assert (Hm : min_length p x = min (length (sp_view p)) (length (sp_view x))).
  { unfold min_length. destruct (Z.ltb_spec (length_ p) (length_ x)); lia. }
  set (n := min_length p x) in *.
  destruct (memcmp_prefix n (ptr_ p) (ptr_ x)) as (r & -> & H0 & H1 & _);
    [unfold n, min_length; case_if; lia | unfold n, min_length; case_if; lia |].
  simpl. f_equal.
  assert (Hvp : sp_view p = take n (ptr_ p) ++ drop n (sp_view p)).
  { rewrite <- (take_drop n (sp_view p)) at 1. f_equal. unfold sp_view.
    rewrite take_take. f_equal. unfold sp_view in *. len. }
  assert (Hvx : sp_view x = take n (ptr_ x) ++ drop n (sp_view x)).
  { rewrite <- (take_drop n (sp_view x)) at 1. f_equal. unfold sp_view.
    rewrite take_take. f_equal. unfold sp_view in *. len. }
  destruct (Z.eqb_spec r 0) as [->|Hr].
  - rewrite Hvp, Hvx, (H0 eq_refl), lexcmp_app.
    destruct (Z.ltb_spec (length_ p) (length_ x)).
    + rewrite (drop_ge (sp_view p)), lexcmp_nil by lia.
      case_decide as Hd; [|done]. apply (f_equal length) in Hd.
      rewrite length_drop in Hd. simpl in Hd. lia.
    + rewrite (drop_ge (sp_view x)) by lia.
      rewrite lexcmp_opp, lexcmp_nil. case_decide as Hd.
      * apply (f_equal length) in Hd. rewrite length_drop in Hd. simpl in Hd.
        case_if; [|done]. rewrite Z.gtb_lt in *. lia.
      * case_if; [done|]. rewrite Z.gtb_ltb in *. bool_props.
        exfalso. apply Hd. apply length_zero_iff_nil. rewrite length_drop. lia.
  - rewrite Hvp, Hvx. by apply H1.
Qed.

(** The value [memcmp] decides equality of the compared prefixes. *)
Lemma memcmp_eqb n a b :
  n <= length a -> n <= length b ->
  exists r, memcmp n a b = Ok r /\ (r =? 0)%Z = bool_decide (take n a = take n b).
Proof.
  intros Ha Hb. destruct (memcmp_prefix n a b Ha Hb) as (r & Hr & H0 & H1 & _).
  exists r. split; [done|]. destruct (Z.eqb_spec r 0) as [->|Hn].
  - symmetry. apply bool_decide_eq_true. auto.
  - symmetry. apply bool_decide_eq_false. intros E. apply Hn.
    rewrite (H1 Hn [] []), E, lexcmp_refl. done.
Qed.

(** [==] decides equality of the texts. *)
Lemma sp_eqb_view p x :
  sp_ok p -> sp_ok x -> sp_eqb p x = Ok (bool_decide (sp_view p = sp_view x)).
Proof.
  intros Hp Hx. pose proof (length_sp_view _ Hp) as Lp. pose proof (length_sp_view _ Hx) as Lx.
  destruct Hp as [Hp0 Hp], Hx as [Hx0 Hx]. unfold sp_eqb. case_if.
  - destruct (memcmp_eqb (Z.to_nat (length_ p)) (ptr_ p) (ptr_ x)) as (r & -> & Hr); [lia|lia|].
    simpl. rewrite Hr. unfold sp_view. rewrite <- (Heqb : length_ p = length_ x). done.
  - symmetry. f_equal. apply bool_decide_eq_false. intros E. rewrite E in Lp. lia.
Qed.

(** [starts_with] decides whether the text of [x] is a prefix of that of [p]. *)
Lemma sp_starts_with_view p x :
  sp_ok p -> sp_ok x ->
  exists b, sp_starts_with p x = Ok b /\ (b = true <-> sp_view x `prefix_of` sp_view p).
Proof.
  intros Hp Hx. pose proof (length_sp_view _ Hp) as Lp. pose proof (length_sp_view _ Hx) as Lx.
  destruct Hp as [Hp0 Hp], Hx as [Hx0 Hx]. unfold sp_starts_with. case_if.
  - rewrite Z.geb_leb in *. bool_props.
    destruct (memcmp_eqb (Z.to_nat (length_ x)) (ptr_ p) (ptr_ x)) as (r & -> & Hr); [lia|lia|].
    eexists. split; [done|]. rewrite Hr, bool_decide_eq_true. unfold sp_view at 1.
    assert (Ht : take (Z.to_nat (length_ x)) (ptr_ p) = take (length (sp_view x)) (sp_view p)).
    { unfold sp_view at 2. rewrite take_take. f_equal. lia. }
    rewrite Ht. fold (sp_view x). split.
    + intros <-. exists (drop (length (sp_view x)) (sp_view p)). by rewrite take_drop.
    + intros [k ->]. rewrite take_app_length. done.
  - exists false. split; [done|]. split; [done|]. intros [k E].
    apply (f_equal length) in E. rewrite length_app in E.
    rewrite Z.geb_leb in *. bool_props. lia.
Qed.

(** The four comparison operators agree with [compare]. *)
Lemma sp_predicate_compare p x c :
  sp_compare p x = Ok c ->
  sp_ltb p x = Ok (c <? 0)%Z /\ sp_leb p x = Ok (c <=? 0)%Z
  /\ sp_geb p x = Ok (c >=? 0)%Z /\ sp_gtb p x = Ok (c >? 0)%Z.
Proof.
  unfold sp_compare, sp_ltb, sp_leb, sp_geb, sp_gtb, sp_predicate.
  intros Hc. inv_res. rename a into r. rewrite Ha. simpl.
  destruct (Z.eqb_spec r 0) as [->|Hr]; simpl.
  - destruct (Z.ltb_spec (length_ p) (length_ x)).
    + split_and!; f_equal; rewrite ?Z.geb_leb, ?Z.gtb_ltb; lia.
    + destruct (length_ p >? length_ x)%Z eqn:Hg; rewrite Z.gtb_ltb in Hg; bool_props;
        split_and!; f_equal; rewrite ?Z.geb_leb, ?Z.gtb_ltb; lia.
  - split_and!; f_equal; rewrite ?Z.geb_leb, ?Z.gtb_ltb; lia.
Qed.

Lemma Z_of_comparison_lt c : (Z_of_comparison c <? 0)%Z = bool_decide (c = Lt).
Proof. by destruct c. Qed.

(** on pieces that lie in their arrays, [operator<] is the lexicographic
    order of the two texts by unsigned character, [==] is equality of the
    texts, and [<=], [>=], [>] agree with both: the operators describe one
    total order. *)
Theorem comparison_operators p x :
  sp_ok p -> sp_ok x ->
  sp_compare p x = Ok (Z_of_comparison (lexcmp (sp_view p) (sp_view x)))
  /\ sp_ltb p x = Ok (bool_decide (lexcmp (sp_view p) (sp_view x) = Lt))
  /\ sp_gtb p x = sp_ltb x p
  /\ sp_leb p x = negb <$> sp_ltb x p
  /\ sp_geb p x = negb <$> sp_ltb p x
  /\ (sp_eqb p x = Ok true <-> sp_compare p x = Ok 0%Z).
Proof.
  intros Hp Hx. pose proof (sp_compare_view p x Hp Hx) as Hc.
  pose proof (sp_compare_view x p Hx Hp) as Hc'.
  destruct (sp_predicate_compare _ _ _ Hc) as (-> & -> & -> & ->).
  destruct (sp_predicate_compare _ _ _ Hc') as (-> & _).
  rewrite (lexcmp_opp (sp_view p)), Hc, (sp_eqb_view p x Hp Hx).
  pose proof (lexcmp_eq (sp_view p) (sp_view x)) as He.
  assert (sp_view p = sp_view x -> lexcmp (sp_view p) (sp_view x) = Eq) as He'.
  { intros ->. apply lexcmp_refl. }
  rewrite Z_of_comparison_lt.
  assert (Heq : bool_decide (sp_view p = sp_view x) = true <->
                lexcmp (sp_view p) (sp_view x) = Eq).
  { rewrite bool_decide_eq_true. split; auto. }
  destruct (lexcmp _ _); simpl; split_and!; try done;
    split; intros Hb; try discriminate Hb;
    solve [ f_equal; apply Heq; done
          | injection Hb as Hb; apply Heq in Hb; discriminate ].
Qed.

Lemma comparison_operators_witness :
  sp_ok (sp_of_string (str "abc")) /\ sp_ok (sp_of_string (str "abd"))
  /\ sp_compare (sp_of_string (str "abc")) (sp_of_string (str "abd"))
     = Ok (Z_of_comparison (lexcmp (str "abc") (str "abd"))).
Proof.
  assert (sp_ok (sp_of_string (str "abc"))) as H1 by (split; vm_compute; [discriminate | lia]).
  assert (sp_ok (sp_of_string (str "abd"))) as H2 by (split; vm_compute; [discriminate | lia]).
  split; [exact H1 | split; [exact H2 |]].
  exact (proj1 (comparison_operators _ _ H1 H2)).
Defined.
