(* ===== verification/Buffer.v ===== *)
(** * The I/O buffer: [src/msmuduo/net/Buffer.h], [src/msmuduo/net/Buffer.cpp]

    A [vector<char>] with a read and a write index. A pointer into the buffer
    ([const char*]) is its offset from the start of the vector. A call whose
    [assert] fails is a [Fault AssertFailed]. Sizes and indices bounded by the
    size of the vector are kept as [nat]: the invariant [buf_inv] makes every
    subtraction on them exact. Sums with a [size_t] of the caller wrap. *)
From S2P Require Import Prelude.
From S2P Require Import Endian.
From S2P Require Import StringPiece.

Definition kCheapPrepend : nat := 8.
Definition kInitialSize : nat := 1024.

Lemma kCheapPrepend_eq : kCheapPrepend = 8.
Proof. reflexivity. Qed.
Lemma kInitialSize_eq : kInitialSize = 1024.
Proof. reflexivity. Qed.
#[global] Opaque kCheapPrepend kInitialSize.

Definition kCRLF : bytes := [Ascii.ascii_of_nat 13; Ascii.ascii_of_nat 10].
Definition CR : char := Ascii.ascii_of_nat 13.
Definition LF : char := Ascii.ascii_of_nat 10.

Record Buffer := mkBuffer {
  buffer_ : bytes;
  readerIndex_ : nat;
  writerIndex_ : nat
}.

(** [explicit Buffer(size_t initSize)]. *)
Definition new_Buffer (initSize : nat) : Buffer :=
  mkBuffer (replicate (kCheapPrepend + initSize) nul) kCheapPrepend kCheapPrepend.

(** [swap] exchanges the two buffers. *)
Definition swap_Buffer (b rhs : Buffer) : Buffer * Buffer :=
  (mkBuffer (buffer_ rhs) (readerIndex_ rhs) (writerIndex_ rhs),
   mkBuffer (buffer_ b) (readerIndex_ b) (writerIndex_ b)).

Definition readableBytes (b : Buffer) : nat := writerIndex_ b - readerIndex_ b.
Definition writableBytes (b : Buffer) : nat := length (buffer_ b) - writerIndex_ b.
Definition prependableBytes (b : Buffer) : nat := readerIndex_ b.

(** [peek()] and [beginWrite()] as offsets. *)
Definition peek (b : Buffer) : nat := readerIndex_ b.
Definition beginWrite (b : Buffer) : nat := writerIndex_ b.

(** The characters in the pointer range [[first, last)]. *)
Definition range (b : Buffer) (first last : nat) : bytes :=
  take (last - first) (drop first (buffer_ b)).

(** The readable bytes. *)
Definition content (b : Buffer) : bytes := range b (peek b) (beginWrite b).

(** ** Searching *)
Definition findCRLF (b : Buffer) : option nat :=
  Nat.add (peek b) <$> find_sub kCRLF (range b (peek b) (beginWrite b)).

Definition findCRLF_from (start : nat) (b : Buffer) : res (option nat) :=
  assert_ (peek b <=? start);;
  assert_ (start <=? beginWrite b);;
  Ok (Nat.add start <$> find_sub kCRLF (range b start (beginWrite b))).

Definition findEOL (b : Buffer) : option nat :=
  Nat.add (peek b) <$> find_char LF (range b (peek b) (beginWrite b)).

Definition findEOL_from (start : nat) (b : Buffer) : res (option nat) :=
  assert_ (peek b <=? start);;
  assert_ (start <=? beginWrite b);;
  Ok (Nat.add start <$> find_char LF (range b start (beginWrite b))).

(** ** Consuming *)
Definition retrieveAll (b : Buffer) : Buffer :=
  mkBuffer (buffer_ b) kCheapPrepend kCheapPrepend.

Definition retrieve (len : nat) (b : Buffer) : res Buffer :=
  assert_ (len <=? readableBytes b);;
  if len <? readableBytes b
  then Ok (mkBuffer (buffer_ b) (readerIndex_ b + len) (writerIndex_ b))
  else Ok (retrieveAll b).

Definition retrieveUntil (end_ : nat) (b : Buffer) : res Buffer :=
  assert_ (peek b <=? end_);;
  assert_ (end_ <=? beginWrite b);;
  retrieve (end_ - peek b) b.

Definition retrieveInt64 (b : Buffer) : res Buffer := retrieve 8 b.
Definition retrieveInt32 (b : Buffer) : res Buffer := retrieve 4 b.
Definition retrieveInt16 (b : Buffer) : res Buffer := retrieve 2 b.
Definition retrieveInt8 (b : Buffer) : res Buffer := retrieve 1 b.

Definition retrieveAsString (len : nat) (b : Buffer) : res (bytes * Buffer) :=
  assert_ (len <=? readableBytes b);;
  let result := range b (peek b) (peek b + len) in
  b ← retrieve len b;
  Ok (result, b).

Definition retrieveAllAsString (b : Buffer) : res (bytes * Buffer) :=
  retrieveAsString (readableBytes b) b.

Definition toStringPiece (b : Buffer) : StringPiece :=
  sp_of_range (drop (peek b) (buffer_ b)) (wrapS 32 (Z.of_nat (readableBytes b))).

(** ** Producing *)

(** [vector::resize]: cut or extended with zero characters. *)
Definition resize (n : nat) (l : bytes) : bytes :=
  take n l ++ replicate (n - length l) nul.

(** A sum or a difference of [size_t]s wraps. *)
Definition size_add (a b : nat) : N := ((N.of_nat a + N.of_nat b) mod 2 ^ 64)%N.
Definition size_sub (a b : nat) : N := ((2 ^ 64 + N.of_nat a - N.of_nat b) mod 2 ^ 64)%N.

(** [makeSpace] and [ensureWritableBytes] over a way to add and subtract
    sizes. *)
Section Room.
Context (add sub : nat -> nat -> N).

Definition makeSpace_by (len : nat) (b : Buffer) : res Buffer :=
  if (N.of_nat (writableBytes b + prependableBytes b) <? add len kCheapPrepend)%N
  then Ok (mkBuffer (resize (N.to_nat (add (writerIndex_ b) len)) (buffer_ b))
                    (readerIndex_ b) (writerIndex_ b))
  else
    assert_ (kCheapPrepend <? readerIndex_ b);;
    let readable := readableBytes b in
    buf ← overwrite kCheapPrepend (range b (readerIndex_ b) (writerIndex_ b)) (buffer_ b);
    let b := mkBuffer buf kCheapPrepend (kCheapPrepend + readable) in
    assert_ (readable =? readableBytes b);;
    Ok b.

Definition ensureWritableBytes_by (len : nat) (b : Buffer) : res Buffer :=
  b ← (if writableBytes b <? len then makeSpace_by len b else Ok b);
  assert_ (N.of_nat len <=? sub (length (buffer_ b)) (writerIndex_ b))%N;;
  Ok b.
End Room.

(** The calls with a [len] of the caller's choice. *)
Definition makeSpace : nat -> Buffer -> res Buffer := makeSpace_by size_add.
Definition ensureWritableBytes : nat -> Buffer -> res Buffer := ensureWritableBytes_by size_add size_sub.

(** The call with the size of bytes that are in memory beside the vector: no
    sum of such sizes wraps ([room_for_code] in BufferFacts says that it is
    the same call). *)
Definition room_for : nat -> Buffer -> res Buffer :=
  ensureWritableBytes_by (fun a b => N.of_nat (a + b)) (fun a b => N.of_nat (a - b)).

Definition hasWritten (len : nat) (b : Buffer) : res Buffer :=
  assert_ (len <=? writableBytes b);;
  Ok (mkBuffer (buffer_ b) (readerIndex_ b) (writerIndex_ b + len)).

Definition unwrite (len : nat) (b : Buffer) : res Buffer :=
  assert_ (len <=? readableBytes b);;
  Ok (mkBuffer (buffer_ b) (readerIndex_ b) (writerIndex_ b - len)).

(** [append(const char* data, size_t len)]: [data] is the memory pointed to. *)
Definition append (data : bytes) (len : nat) (b : Buffer) : res Buffer :=
  b ← room_for len b;
  if len <=? length data
  then
    buf ← overwrite (beginWrite b) (take len data) (buffer_ b);
    hasWritten len (mkBuffer buf (readerIndex_ b) (writerIndex_ b))
  else Fault OutOfBounds.

(** [append(const StringPiece&)]: a negative [int] size becomes a [size_t]
    no vector can hold, so the resize fails. *)
Definition append_piece (s : StringPiece) (b : Buffer) : res Buffer :=
  if (0 <=? sp_size s)%Z then append (sp_data s) (Z.to_nat (sp_size s)) b
  else Fault OutOfBounds.

(** Appending a whole string. *)
Definition append_str (d : bytes) (b : Buffer) : res Buffer := append d (length d) b.

Definition prepend (data : bytes) (len : nat) (b : Buffer) : res Buffer :=
  assert_ (len <=? prependableBytes b);;
  if len <=? length data
  then
    let r := readerIndex_ b - len in
    buf ← overwrite r (take len data) (buffer_ b);
    Ok (mkBuffer buf r (writerIndex_ b))
  else Fault OutOfBounds.

Definition shrink (reserve : nat) (b : Buffer) : res Buffer :=
  other ← ensureWritableBytes (N.to_nat (size_add (readableBytes b) reserve)) (new_Buffer kInitialSize);
  other ← append_piece (toStringPiece b) other;
  Ok (swap_Buffer b other).1.

(** ** Integers in network order *)
Section Integers.
Context `{Platform}.

Definition appendInt64 (x : Z) (b : Buffer) : res Buffer :=
  let be64 := wrapS 64 (hostToNetwork64 (wrapU 64 x)) in
  append (to_mem 8 be64) 8 b.
Definition appendInt32 (x : Z) (b : Buffer) : res Buffer :=
  let be32 := wrapS 32 (hostToNetwork32 (wrapU 32 x)) in
  append (to_mem 4 be32) 4 b.
Definition appendInt16 (x : Z) (b : Buffer) : res Buffer :=
  let be16 := wrapS 16 (hostToNetwork16 (wrapU 16 x)) in
  append (to_mem 2 be16) 2 b.
Definition appendInt8 (x : Z) (b : Buffer) : res Buffer :=
  append (to_mem 1 x) 1 b.

Definition peekInt64 (b : Buffer) : res Z :=
  assert_ (8 <=? readableBytes b);;
  let be64 := wrapS 64 (of_mem (range b (peek b) (peek b + 8))) in
  Ok (wrapS 64 (networkToHost64 (wrapU 64 be64))).
Definition peekInt32 (b : Buffer) : res Z :=
  assert_ (4 <=? readableBytes b);;
  let be32 := wrapS 32 (of_mem (range b (peek b) (peek b + 4))) in
  Ok (wrapS 32 (networkToHost32 (wrapU 32 be32))).
Definition peekInt16 (b : Buffer) : res Z :=
  assert_ (2 <=? readableBytes b);;
  let be16 := wrapS 16 (of_mem (range b (peek b) (peek b + 2))) in
  Ok (wrapS 16 (networkToHost16 (wrapU 16 be16))).
Definition peekInt8 (b : Buffer) : res Z :=
  assert_ (1 <=? readableBytes b);;
  c ← get_ OutOfBounds (buffer_ b !! peek b);
  Ok (wrapS 8 (Z_of_char c)).

Definition readInt64 (b : Buffer) : res (Z * Buffer) :=
  result ← peekInt64 b; b ← retrieveInt64 b; Ok (result, b).
Definition readInt32 (b : Buffer) : res (Z * Buffer) :=
  result ← peekInt32 b; b ← retrieveInt32 b; Ok (result, b).
Definition readInt16 (b : Buffer) : res (Z * Buffer) :=
  result ← peekInt16 b; b ← retrieveInt16 b; Ok (result, b).
Definition readInt8 (b : Buffer) : res (Z * Buffer) :=
  result ← peekInt8 b; b ← retrieveInt8 b; Ok (result, b).

Definition prependInt64 (x : Z) (b : Buffer) : res Buffer :=
  let be64 := wrapS 64 (hostToNetwork64 (wrapU 64 x)) in
  prepend (to_mem 8 be64) 8 b.
Definition prependInt32 (x : Z) (b : Buffer) : res Buffer :=
  let be32 := wrapS 32 (hostToNetwork32 (wrapU 32 x)) in
  prepend (to_mem 4 be32) 4 b.
Definition prependInt16 (x : Z) (b : Buffer) : res Buffer :=
  let be16 := wrapS 16 (hostToNetwork16 (wrapU 16 x)) in
  prepend (to_mem 2 be16) 2 b.
Definition prependInt8 (x : Z) (b : Buffer) : res Buffer :=
  prepend (to_mem 1 x) 1 b.
End Integers.

(** ** Reading from a socket

    The kernel's answer is an input: the bytes it scatters into the free
    space and then into the 64 KiB stack buffer, or an error code. *)
Inductive recv_result :=
  | RecvData (data : bytes)
  | RecvError (err : Z).

Definition extrabuf_size : N := 65536.

(** The scatter step: the bytes beyond the free space go to [extrabuf] and
    are appended. *)
Definition scatter (data : bytes) (b : Buffer) : res Buffer :=
  let writable := writableBytes b in
  buf ← overwrite (writerIndex_ b) (take writable data) (buffer_ b);
  let b := mkBuffer buf (readerIndex_ b) (writerIndex_ b) in
  if length data <=? writable
  then Ok (mkBuffer (buffer_ b) (readerIndex_ b) (writerIndex_ b + length data))
  else
    let extrabuf := drop writable data in
    append extrabuf (length data - writable)
      (mkBuffer (buffer_ b) (readerIndex_ b) (length (buffer_ b))).

(** [Buffer::readFd], [WIN] branch ([WSARecv]): the value returned, the error
    stored through [savedErrno], and the buffer. *)
Definition readFd_win (r : recv_result) (b : Buffer) : res (Z * option Z * Buffer) :=
  match r with
  | RecvError err => Ok (0%Z, Some err, b)
  | RecvData data =>
      if (N.of_nat (length data) <=? N.of_nat (writableBytes b) + extrabuf_size)%N
      then b ← scatter data b; Ok (Z.of_nat (length data), None, b)
      else Fault OutOfBounds
  end.

(** [Buffer::readFd], Linux branch ([readv] with one or two vectors). *)
Definition readFd_linux (r : recv_result) (b : Buffer) : res (Z * option Z * Buffer) :=
  let writable := writableBytes b in
  let space := if (N.of_nat writable <? extrabuf_size)%N
               then (N.of_nat writable + extrabuf_size)%N else N.of_nat writable in
  match r with
  | RecvError err => Ok ((-1)%Z, Some err, b)
  | RecvData data =>
      if (N.of_nat (length data) <=? space)%N
      then b ← scatter data b; Ok (Z.of_nat (length data), None, b)
      else Fault OutOfBounds
  end.

Definition readFd `{Platform} (r : recv_result) (b : Buffer) : res (Z * option Z * Buffer) :=
  if win then readFd_win r b else readFd_linux r b.
