(* ===== verification/BufferFacts.v ===== *)
(** * Correctness of the buffer

    The invariant of [Buffer], the effect of each operation on the readable
    bytes, the abstract byte queue the buffer implements, and the round trips
    of the integer encodings. *)
From S2P Require Import Prelude.
From S2P Require Import Endian.
From S2P Require Import StringPiece.
From S2P Require Import Buffer.

(** 0 <= readerIndex <= writerIndex <= size, with room for the reserved
    prefix. *)
Record buf_inv (b : Buffer) : Prop := {
  inv_order : readerIndex_ b <= writerIndex_ b;
  inv_size : writerIndex_ b <= length (buffer_ b);
  inv_prefix : kCheapPrepend <= length (buffer_ b)
}.

#[export] Instance buf_inv_dec b : Decision (buf_inv b).
Proof.
  refine (cast_if (decide (readerIndex_ b <= writerIndex_ b
    /\ writerIndex_ b <= length (buffer_ b) /\ kCheapPrepend <= length (buffer_ b))));
    [by split; destruct_and? | by intros [? ? ?]; auto].
Defined.

Ltac unfold_sizes :=
  unfold readableBytes, writableBytes, prependableBytes, peek, beginWrite in *; simpl in *.

Lemma length_range b i j : j <= length (buffer_ b) -> length (range b i j) = j - i.
Proof. intros. unfold range. rewrite length_take, length_drop. lia. Qed.

Lemma length_content b : buf_inv b -> length (content b) = readableBytes b.
Proof. intros [? ? ?]. unfold content. by rewrite length_range. Qed.

#[export] Hint Rewrite length_content using done : msm_len.

Lemma new_Buffer_inv n : buf_inv (new_Buffer n).
Proof. split; simpl; rewrite ?length_replicate; lia. Qed.

Lemma new_Buffer_content n : content (new_Buffer n) = [].
Proof. done. Qed.

Lemma retrieveAll_inv b : buf_inv b -> buf_inv (retrieveAll b).
Proof. intros [? ? ?]. by split; simpl. Qed.

Lemma retrieveAll_content b : content (retrieveAll b) = [].
Proof. done. Qed.

(** Two writes to the vector that agree on a window give equal contents. *)
Lemma content_eq b c :
  readableBytes b = readableBytes c ->
  (forall i, i < readableBytes b ->
     buffer_ b !! (readerIndex_ b + i) = buffer_ c !! (readerIndex_ c + i)) ->
  content b = content c.
Proof.
  intros Hn H. apply list_eq. intros i. unfold content, range. unfold_sizes.
  destruct (decide (i < writerIndex_ b - readerIndex_ b)).
  - rewrite !lookup_take_lt, !lookup_drop by lia. by apply H.
  - rewrite !lookup_take_ge by lia. done.
Qed.

(** The readable bytes after writing [d] over the vector from [i]. *)
Lemma range_overwrite_at b i d l :
  overwrite i d (buffer_ b) = Ok l ->
  range (mkBuffer l (readerIndex_ b) (writerIndex_ b)) i (i + length d) = d.
Proof.
  intros (Hl & ->)%overwrite_ok. unfold range. simpl.
  rewrite drop_app_length' by (rewrite length_take; lia).
  by rewrite take_app_length' by lia.
Qed.

Lemma range_overwrite_before b i d l r j :
  overwrite i d (buffer_ b) = Ok l -> j <= i ->
  take (j - r) (drop r l) = range b r j.
Proof.
  intros H Hj. unfold range. apply take_overwrite in H.
  rewrite !take_drop_commute. destruct (decide (r <= j)).
  - replace (r + (j - r)) with (min j i) by lia.
    by rewrite <- !take_take, H.
  - replace (j - r) with 0 by lia. rewrite Nat.add_0_r.
    by rewrite !drop_ge by (rewrite length_take; lia).
Qed.

Lemma take_split {A} i j (l : list A) : i <= j -> take j l = take i l ++ take (j - i) (drop i l).
Proof.
  intros H. rewrite <- (take_drop i (take j l)), take_take, Nat.min_l by done.
  by rewrite <- skipn_firstn_comm.
Qed.

Lemma range_app b i j k :
  i <= j <= k -> range b i k = range b i j ++ range b j k.
Proof.
  intros H. unfold range. rewrite (take_split (j - i) (k - i)) by lia.
  rewrite drop_drop. do 2 f_equal; [lia|]. f_equal. lia.
Qed.

(** For sizes of bytes in memory [makeSpace] never fails an assertion when it
    is called, keeps the readable bytes and frees at least [len] bytes. *)
Abbreviation exact_add := (fun a b : nat => N.of_nat (a + b)).
Abbreviation exact_sub := (fun a b : nat => N.of_nat (a - b)).

Lemma makeSpace_spec len b :
  buf_inv b -> writableBytes b < len ->
  exists b', makeSpace_by exact_add len b = Ok b' /\ buf_inv b' /\ content b' = content b
    /\ len <= writableBytes b'
    /\ (readerIndex_ b' = readerIndex_ b \/ readerIndex_ b' = kCheapPrepend).
Proof.
  intros [Ho Hs Hp] Hlen. unfold makeSpace_by. unfold_sizes. rewrite Nat2N.id.
  destruct (N.ltb_spec (N.of_nat (length (buffer_ b) - writerIndex_ b + readerIndex_ b))
    (N.of_nat (len + kCheapPrepend))).
  - eexists. split; [done|]. split_and!; [split; simpl| | |by left]; unfold_sizes;
      unfold resize; try len.
    unfold content, range; simpl.
    rewrite (take_ge (buffer_ b)) by lia. rewrite drop_app_le by lia.
    by rewrite take_app_le by (rewrite length_drop; lia).
  - rewrite (proj2 (Nat.ltb_lt kCheapPrepend (readerIndex_ b))) by lia. simpl.
    assert (Hr : length (range b (readerIndex_ b) (writerIndex_ b))
                 = writerIndex_ b - readerIndex_ b) by (by rewrite length_range).
    rewrite overwrite_in_range by lia. simpl.
    rewrite (proj2 (Nat.eqb_eq _ _)) by lia. simpl.
    eexists. split; [done|].
    split_and!; [split; simpl| | |by right]; unfold_sizes; try len.
    unfold content at 1, range at 1; simpl.
    rewrite drop_app_length' by (rewrite length_take; lia).
    by rewrite take_app_length' by lia.
Qed.

Lemma room_for_spec len b :
  buf_inv b ->
  exists b', room_for len b = Ok b' /\ buf_inv b' /\ content b' = content b
    /\ len <= writableBytes b'
    /\ (readerIndex_ b' = readerIndex_ b \/ readerIndex_ b' = kCheapPrepend).
Proof.
  intros Hi. unfold room_for, ensureWritableBytes_by. case_if.
  - destruct (makeSpace_spec len b Hi) as (b' & -> & Hi' & Hc & Hl & Hr); [done|].
    simpl. rewrite (proj2 (N.leb_le _ _)) by (unfold writableBytes in Hl; lia). simpl. eauto 10.
  - simpl. rewrite (proj2 (N.leb_le _ _)) by (unfold writableBytes in *; lia). simpl. eauto 10.
Qed.

(** *** Sizes that wrap *)

(** All that a size can be added to fits a [size_t]. *)
Definition size_fits (len : nat) (b : Buffer) : Prop :=
  (N.of_nat (length (buffer_ b)) + N.of_nat len + N.of_nat kCheapPrepend < 2 ^ 64)%N.

Lemma size_add_exact a b : (N.of_nat a + N.of_nat b < 2 ^ 64)%N -> size_add a b = N.of_nat (a + b).
Proof. intros Hs. unfold size_add. rewrite N.mod_small by done. lia. Qed.

Lemma size_sub_exact a b : (N.of_nat a < 2 ^ 64)%N -> b <= a -> size_sub a b = N.of_nat (a - b).
Proof.
  intros Ha Hb. unfold size_sub.
  replace (2 ^ 64 + N.of_nat a - N.of_nat b)%N with (N.of_nat (a - b) + 1 * 2 ^ 64)%N by lia.
  rewrite N.Div0.mod_add, N.mod_small; lia.
Qed.

(** Room is made by growing the vector by at most what is asked for. *)
Lemma makeSpace_length add len b b' :
  add (writerIndex_ b) len = N.of_nat (writerIndex_ b + len) -> buf_inv b ->
  makeSpace_by add len b = Ok b' ->
  length (buffer_ b') <= length (buffer_ b) + len /\ writerIndex_ b' <= length (buffer_ b').
Proof.
  intros Ha [Ho Hs Hp]. unfold makeSpace_by. rewrite Ha, Nat2N.id. destruct (_ <? _)%N; intros E; inv_res; simpl.
  - unfold resize. len.
  - match goal with HH : overwrite _ _ _ = Ok _ |- _ => apply overwrite_length in HH end. unfold_sizes. bool_props. lia.
Qed.

(** While the sums fit, the call is the one with exact sums. *)
Lemma room_for_code len b : buf_inv b -> size_fits len b -> ensureWritableBytes len b = room_for len b.
Proof.
  intros Hi Hf. unfold size_fits in Hf. pose proof Hi as [Ho Hs Hp].
  unfold ensureWritableBytes, room_for, ensureWritableBytes_by.
  assert (Hm : makeSpace_by size_add len b = makeSpace_by exact_add len b)
    by (unfold makeSpace_by; rewrite !size_add_exact by lia; done).
  rewrite Hm. destruct (writableBytes b <? len) eqn:Hl; simpl.
  - destruct (makeSpace_by exact_add len b) as [b'|] eqn:E; [|done]. simpl.
    destruct (makeSpace_length exact_add len b b' eq_refl Hi E). rewrite size_sub_exact by lia. done.
  - rewrite size_sub_exact by lia. done.
Qed.

Lemma ensureWritableBytes_spec len b :
  buf_inv b -> size_fits len b ->
  exists b', ensureWritableBytes len b = Ok b' /\ buf_inv b' /\ content b' = content b
    /\ len <= writableBytes b'
    /\ (readerIndex_ b' = readerIndex_ b \/ readerIndex_ b' = kCheapPrepend).
Proof. intros Hi Hf. rewrite (room_for_code len b Hi Hf). by apply room_for_spec. Qed.

Lemma room_for_length len b b' : buf_inv b -> room_for len b = Ok b' -> length (buffer_ b') <= length (buffer_ b) + len.
Proof.
  intros Hi. unfold room_for, ensureWritableBytes_by. destruct (writableBytes b <? len); intros E; inv_res; [|lia].
  by apply (makeSpace_length exact_add len b b' eq_refl Hi).
Qed.

(** A size near 2^64 wraps: the vector is cut, the free space then wraps as
    well and the assertion holds, with the write index outside the vector. *)
Lemma huge_reservation :
  let b := mkBuffer (replicate 16 nul) 0 16 in
  buf_inv b /\ exists b', ensureWritableBytes (N.to_nat (2 ^ 64 - 5)) b = Ok b'
    /\ length (buffer_ b') = 11 /\ writerIndex_ b' = 16.
Proof.
  set (len := N.to_nat (2 ^ 64 - 5)). assert (Hl : N.of_nat len = (2 ^ 64 - 5)%N) by apply N2Nat.id. clearbody len.
  split; [split; simpl; rewrite ?kCheapPrepend_eq; lia|].
  unfold ensureWritableBytes, ensureWritableBytes_by, makeSpace_by, size_add, size_sub, writableBytes.
  rewrite (proj2 (Nat.ltb_lt _ _)) by (simpl; lia). rewrite Hl, kCheapPrepend_eq. eexists. by split_and!.
Qed.

(** Writing below the write index's free space and advancing it. *)
Lemma write_spec d b :
  buf_inv b -> length d <= writableBytes b ->
  exists l, overwrite (writerIndex_ b) d (buffer_ b) = Ok l
    /\ let b' := mkBuffer l (readerIndex_ b) (writerIndex_ b + length d) in
       buf_inv b' /\ content b' = content b ++ d.
Proof.
  intros [Ho Hs Hp] Hd. unfold_sizes.
  destruct (overwrite (writerIndex_ b) d (buffer_ b)) as [l|] eqn:Hw.
  2:{ rewrite overwrite_in_range in Hw by lia. done. }
  exists l. split; [done|]. pose proof (overwrite_length _ _ _ _ Hw) as Hl.
  split; [split; simpl; lia|].
  unfold content at 1. unfold_sizes.
  rewrite (range_app _ _ (writerIndex_ b)) by lia. f_equal.
  - unfold range at 1. simpl. exact (range_overwrite_before b _ _ _ _ _ Hw (le_n _)).
  - by apply (range_overwrite_at b).
Qed.

Lemma append_spec d n b :
  buf_inv b -> n <= length d ->
  exists b', append d n b = Ok b' /\ buf_inv b' /\ content b' = content b ++ take n d
    /\ (readerIndex_ b' = readerIndex_ b \/ readerIndex_ b' = kCheapPrepend).
Proof.
  intros Hi Hn. unfold append.
  destruct (room_for_spec n b Hi) as (b1 & -> & Hi1 & Hc & Hl & Hr). simpl.
  rewrite (proj2 (Nat.leb_le _ _) Hn).
  destruct (write_spec (take n d) b1) as (l & Hw & Hi2 & Hc2);
    [done | rewrite length_take; lia |].
  unfold beginWrite. rewrite Hw. simpl. unfold hasWritten, writableBytes. simpl.
  rewrite (overwrite_length _ _ _ _ Hw).
  rewrite (proj2 (Nat.leb_le _ _)) by done. simpl.
  rewrite length_take, Nat.min_l in Hi2, Hc2 by done.
  eexists. split; [done|]. split_and!; [done | by rewrite Hc2, Hc | done].
Qed.

Lemma append_str_spec d b :
  buf_inv b ->
  exists b', append_str d b = Ok b' /\ buf_inv b' /\ content b' = content b ++ d
    /\ (readerIndex_ b' = readerIndex_ b \/ readerIndex_ b' = kCheapPrepend).
Proof.
  intros Hi. destruct (append_spec d (length d) b Hi (le_n _)) as (b' & H & Hi' & Hc & Hr).
  exists b'. rewrite firstn_all in Hc. auto.
Qed.

Lemma append_length d b b' : buf_inv b -> append_str d b = Ok b' -> length (buffer_ b') <= length (buffer_ b) + length d.
Proof.
  intros Hi. unfold append_str, append, hasWritten. rewrite Nat.leb_refl. intros E. inv_res. simpl.
  apply room_for_length in Ha; [|done]. apply overwrite_length in Ha0. lia.
Qed.

Lemma prepend_length d n b b' : prepend d n b = Ok b' -> length (buffer_ b') = length (buffer_ b).
Proof. unfold prepend. intros E. inv_res. destruct (n <=? length d); [|done]. inv_res. by apply overwrite_length in Ha0. Qed.

Lemma retrieve_spec n b :
  buf_inv b -> n <= readableBytes b ->
  exists b', retrieve n b = Ok b' /\ buf_inv b' /\ content b' = drop n (content b).
Proof.
  intros Hi Hn. unfold retrieve. rewrite (proj2 (Nat.leb_le _ _) Hn). simpl. case_if.
  - eexists. split; [done|]. destruct Hi as [Ho Hs Hp]. unfold_sizes.
    split; [split; simpl; lia|]. unfold content, range. unfold_sizes.
    rewrite skipn_firstn_comm, drop_drop. f_equal. lia.
  - exists (retrieveAll b). split; [done|]. split; [by apply retrieveAll_inv|].
    rewrite retrieveAll_content, drop_ge; [done|]. by rewrite length_content.
Qed.

Lemma retrieve_too_much n b :
  readableBytes b < n -> retrieve n b = Fault AssertFailed.
Proof. intros H. unfold retrieve. by rewrite (proj2 (Nat.leb_gt _ _) H). Qed.

Lemma range_prefix b n :
  buf_inv b -> n <= readableBytes b -> range b (peek b) (peek b + n) = take n (content b).
Proof.
  intros [Ho Hs Hp] Hn. unfold content, range. unfold_sizes.
  rewrite take_take. f_equal. lia.
Qed.

Lemma retrieveAsString_spec n b :
  buf_inv b -> n <= readableBytes b ->
  exists b', retrieveAsString n b = Ok (take n (content b), b') /\ buf_inv b'
    /\ content b' = drop n (content b).
Proof.
  intros Hi Hn. unfold retrieveAsString. rewrite (proj2 (Nat.leb_le _ _) Hn). simpl.
  destruct (retrieve_spec n b Hi Hn) as (b' & -> & Hi' & Hc). simpl.
  rewrite range_prefix by done. eauto.
Qed.

Lemma retrieve_everything b : buf_inv b -> exists b', retrieveAllAsString b = Ok (content b, b').
Proof.
  intros Hb. destruct (retrieveAsString_spec (readableBytes b) b Hb (le_n _)) as (b' & E & _).
  exists b'. unfold retrieveAllAsString. rewrite E. by rewrite firstn_all2 by (by rewrite length_content).
Qed.

Lemma prepend_spec d b :
  buf_inv b -> length d <= prependableBytes b ->
  exists b', prepend d (length d) b = Ok b' /\ buf_inv b' /\ content b' = d ++ content b
    /\ readerIndex_ b' = readerIndex_ b - length d.
Proof.
  intros [Ho Hs Hp] Hd. unfold prepend. rewrite (proj2 (Nat.leb_le _ _) Hd). simpl.
  rewrite Nat.leb_refl, firstn_all. unfold_sizes.
  destruct (overwrite (readerIndex_ b - length d) d (buffer_ b)) as [l|] eqn:Hw.
  2:{ rewrite overwrite_in_range in Hw by lia. done. }
  pose proof (overwrite_length _ _ _ _ Hw) as Hl. simpl.
  eexists. split; [done|]. split_and!; [split; simpl; lia| |done].
  unfold content at 1. unfold_sizes. rewrite (range_app _ _ (readerIndex_ b)) by lia. f_equal.
  - pose proof (range_overwrite_at b _ _ _ Hw) as He.
    replace (readerIndex_ b - length d + length d) with (readerIndex_ b) in He by lia.
    exact He.
  - apply overwrite_ok in Hw as [_ ->]. unfold content, range. simpl. f_equal.
    rewrite app_assoc, drop_app_ge by (rewrite length_app, length_take; lia).
    rewrite length_app, length_take, drop_drop. f_equal. unfold peek. lia.
Qed.

Lemma unwrite_spec n b :
  buf_inv b -> n <= readableBytes b ->
  exists b', unwrite n b = Ok b' /\ buf_inv b'
    /\ content b' = take (readableBytes b - n) (content b).
Proof.
  intros [Ho Hs Hp] Hn. unfold unwrite. rewrite (proj2 (Nat.leb_le _ _) Hn). simpl.
  eexists. split; [done|]. unfold_sizes. split; [split; simpl; lia|].
  unfold content, range. unfold_sizes. rewrite take_take. f_equal. lia.
Qed.

(** ** The abstract byte queue

    What clients rely on: a buffer is a queue of bytes, in front of which some
    bytes can be put: [room] of them for sure, eight when nothing was taken or
    put there. The operations are described by their effect on the queue;
    [Refused] is a violated precondition, which the code catches with an
    [assert], and [Unpromised] a prepend of more than there is room for for
    sure. *)
Record queue := mkQueue { body : bytes; room : nat }.

Inductive outcome := Becomes (q : queue) | Refused | Unpromised.

Inductive buf_op :=
  | OpAppend (d : bytes)
  | OpPrepend (d : bytes)
  | OpRetrieve (n : nat)
  | OpRetrieveAll
  | OpRetrieveUntil (n : nat)     (* [retrieveUntil(peek() + n)] *)
  | OpUnwrite (n : nat)
  | OpEnsure (n : nat).

(** The bytes an operation asks for. *)
Definition op_size (op : buf_op) : nat :=
  match op with OpAppend d => length d | OpEnsure n => n | _ => 0 end.

Definition queue_take (n : nat) (q : queue) : outcome :=
  if n <=? length (body q)
  then Becomes (if n <? length (body q) then mkQueue (drop n (body q)) (room q + n) else mkQueue [] kCheapPrepend)
  else Refused.

Definition queue_step (q : queue) (op : buf_op) : outcome :=
  match op with
  | OpAppend d => Becomes (mkQueue (body q ++ d) (room q `min` kCheapPrepend))
  | OpPrepend d =>
      if length d <=? room q then Becomes (mkQueue (d ++ body q) (room q - length d)) else Unpromised
  | OpRetrieve n | OpRetrieveUntil n => queue_take n q
  | OpRetrieveAll => Becomes (mkQueue [] kCheapPrepend)
  | OpUnwrite n =>
      if n <=? length (body q)
      then Becomes (mkQueue (take (length (body q) - n) (body q)) (room q)) else Refused
  | OpEnsure _ => Becomes (mkQueue (body q) (room q `min` kCheapPrepend))
  end.

Definition buf_step (b : Buffer) (op : buf_op) : res Buffer :=
  match op with
  | OpAppend d => append_str d b
  | OpPrepend d => prepend d (length d) b
  | OpRetrieve n => retrieve n b
  | OpRetrieveAll => Ok (retrieveAll b)
  | OpRetrieveUntil n => retrieveUntil (peek b + n) b
  | OpUnwrite n => unwrite n b
  | OpEnsure n => ensureWritableBytes n b
  end.

Fixpoint queue_run (q : queue) (ops : list buf_op) : outcome :=
  match ops with
  | [] => Becomes q
  | op :: ops => match queue_step q op with Becomes q => queue_run q ops | o => o end
  end.

Fixpoint buf_run (b : Buffer) (ops : list buf_op) : res Buffer :=
  match ops with
  | [] => Ok b
  | op :: ops => buf_step b op ≫= fun b => buf_run b ops
  end.

Lemma retrieveUntil_spec n b :
  buf_inv b ->
  retrieveUntil (peek b + n) b
  = if n <=? readableBytes b then retrieve n b else Fault AssertFailed.
Proof.
  intros [Ho Hs Hp]. unfold retrieveUntil.
  rewrite (proj2 (Nat.leb_le (peek b) _)) by lia. simpl.
  replace (peek b + n <=? beginWrite b) with (n <=? readableBytes b).
  - case_if; [|done]. simpl. f_equal. lia.
  - unfold_sizes. destruct (Nat.leb_spec n (writerIndex_ b - readerIndex_ b)); symmetry;
      [apply Nat.leb_le | apply Nat.leb_gt]; lia.
Qed.

(** ** Lines *)

(** The delimiter found lies within the readable bytes. *)
Lemma find_crlf_bound l n : find_sub kCRLF l = Some n -> n + 2 <= length l.
Proof.
  intros (a & b & -> & <-)%find_sub_Some. rewrite !length_app. simpl. lia.
Qed.

Lemma retrieve_line b n :
  buf_inv b -> find_sub kCRLF (content b) = Some n ->
  range b (peek b) (peek b + n) = take n (content b)
  /\ exists b', retrieveUntil (peek b + n + 2) b = Ok b' /\ buf_inv b'
       /\ content b' = drop (n + 2) (content b).
Proof.
  intros Hi Hn. pose proof (find_crlf_bound _ _ Hn) as Hb. rewrite (length_content b Hi) in Hb.
  split; [apply range_prefix; [done | lia]|].
  rewrite <- Nat.add_assoc, retrieveUntil_spec by done.
  rewrite (proj2 (Nat.leb_le _ _) Hb). by apply retrieve_spec.
Qed.

(** A line without carriage returns is delimited by the CRLF that follows. *)
Lemma find_crlf_line line rest : CR ∉ line -> find_sub kCRLF (line ++ kCRLF ++ rest) = Some (length line).
Proof.
  induction line as [|x line IH]; intros Hn; [done|]. rewrite not_elem_of_cons in Hn.
  destruct Hn as [Hx Hn].
  change (find_sub kCRLF ((x :: line) ++ kCRLF ++ rest))
    with (if starts kCRLF (x :: line ++ kCRLF ++ rest) then Some 0
          else S <$> find_sub kCRLF (line ++ kCRLF ++ rest)).
  rewrite (IH Hn). cbn [starts kCRLF].
  destruct (Ascii.eqb_spec (Ascii.ascii_of_nat 13) x) as [E|E]; [by destruct Hx | done].
Qed.

(** The buffer holds the queue. *)
Record holds_queue (b : Buffer) (q : queue) : Prop := {
  hq_inv : buf_inv b;
  hq_body : content b = body q;
  hq_room : room q <= prependableBytes b
}.

Lemma retrieve_front n b b' :
  buf_inv b -> retrieve n b = Ok b' ->
  readerIndex_ b' = (if n <? readableBytes b then readerIndex_ b + n else kCheapPrepend) /\ buffer_ b' = buffer_ b.
Proof. intros Hi. unfold retrieve. intros E. inv_res. destruct (n <? readableBytes b); by injection E as <-. Qed.

Lemma queue_take_simulates n b q :
  holds_queue b q ->
  match queue_take n q with
  | Becomes q' => exists b', retrieve n b = Ok b' /\ holds_queue b' q' /\ length (buffer_ b') = length (buffer_ b)
  | _ => retrieve n b = Fault AssertFailed
  end.
Proof.
  intros [Hi Hb Hr]. unfold queue_take. rewrite <- Hb, length_content by done.
  destruct (Nat.leb_spec n (readableBytes b)); [|by apply retrieve_too_much].
  destruct (retrieve_spec n b Hi) as (b' & E & Hi' & Hc'); [done|].
  destruct (retrieve_front n b b' Hi E) as [Hf Hv]. exists b'. split; [done|]. rewrite Hv. split; [|done].
  destruct (Nat.ltb_spec n (readableBytes b)); split; simpl; try done; unfold prependableBytes in *; rewrite ?Hf; try lia.
  rewrite Hc', drop_ge; [done|]. rewrite length_content by done. lia.
Qed.

(** One operation of the buffer simulates one of the queue, failures
    included; none fails but by an assertion. *)
Lemma buf_step_simulates b q op :
  holds_queue b q -> size_fits (op_size op) b ->
  match queue_step q op with
  | Becomes q' => exists b', buf_step b op = Ok b' /\ holds_queue b' q'
      /\ length (buffer_ b') <= length (buffer_ b) + op_size op
  | Refused => buf_step b op = Fault AssertFailed
  | Unpromised => buf_step b op = Fault AssertFailed
      \/ exists b', buf_step b op = Ok b' /\ buf_inv b' /\ length (buffer_ b') <= length (buffer_ b) + op_size op
  end.
Proof.
  intros Hq Hf. pose proof Hq as [Hi Hb Hr]. destruct op as [d|d|n| |n|n|n]; cbn [queue_step buf_step op_size] in *.
  - destruct (append_str_spec d b Hi) as (b' & E & Hi' & Hc & Hx). exists b'. split; [done|]. split.
    + split; [done|by rewrite Hc, Hb|]. simpl. unfold prependableBytes in *. destruct Hx as [-> | ->]; lia.
    + by apply append_length in E.
  - destruct (Nat.leb_spec (length d) (room q)).
    + destruct (prepend_spec d b Hi) as (b' & E & Hi' & Hc & Hx); [lia|]. exists b'. split; [done|]. split.
      * split; [done|by rewrite Hc, Hb|]. simpl. unfold prependableBytes in *. lia.
      * apply prepend_length in E. lia.
    + destruct (Nat.leb_spec (length d) (prependableBytes b)).
      * right. destruct (prepend_spec d b Hi) as (b' & E & Hi' & _); [done|]. exists b'. split_and!; try done.
        apply prepend_length in E. lia.
      * left. unfold prepend. by rewrite (proj2 (Nat.leb_gt (length d) (prependableBytes b))) by lia.
  - pose proof (queue_take_simulates n b q Hq) as Ht. destruct (queue_take n q) eqn:Eq; [|done|].
    + destruct Ht as (b' & ? & ? & ?). exists b'. split_and!; try done. lia.
    + unfold queue_take in Eq. by destruct (_ <=? _).
  - exists (retrieveAll b). split; [done|]. split; [split; [by apply retrieveAll_inv|apply retrieveAll_content|done]|]. simpl. lia.
  - rewrite retrieveUntil_spec by done.
    pose proof (queue_take_simulates n b q Hq) as Ht. unfold queue_take in *. rewrite <- Hb, length_content in * by done.
    destruct (n <=? readableBytes b); [|done]. destruct Ht as (b' & ? & ? & ?). exists b'. split_and!; try done. lia.
  - rewrite <- Hb, length_content by done. destruct (Nat.leb_spec n (readableBytes b)).
    + destruct (unwrite_spec n b Hi) as (b' & E & Hi' & Hc); [done|]. exists b'. split; [done|].
      unfold unwrite in E. inv_res. split; [|simpl; lia]. by split.
    + unfold unwrite. by rewrite (proj2 (Nat.leb_gt _ _)) by done.
  - destruct (ensureWritableBytes_spec n b Hi Hf) as (b' & E & Hi' & Hc & _ & Hx). exists b'. split; [done|]. split.
    + split; [done|by rewrite Hc, Hb|]. simpl. unfold prependableBytes in *. destruct Hx as [-> | ->]; lia.
    + rewrite (room_for_code n b Hi Hf) in E. by apply room_for_length in E.
Qed.

(** All sizes asked for, with the first size and the reserved prefix. *)
Definition total_size (n : nat) (ops : list buf_op) : N :=
  N.of_nat (n + sum_list (op_size <$> ops) + 2 * kCheapPrepend).

Lemma buf_run_safe b ops :
  buf_inv b -> (N.of_nat (length (buffer_ b) + sum_list (op_size <$> ops) + kCheapPrepend) < 2 ^ 64)%N ->
  buf_run b ops = Fault AssertFailed \/ exists b', buf_run b ops = Ok b' /\ buf_inv b'.
Proof.
  revert b; induction ops as [|op ops IH]; intros b Hi Hs; cbn [buf_run]; [eauto|]. csimpl in Hs.
  pose proof (buf_step_simulates b (mkQueue (content b) 0) op) as Hstep.
  assert (Hq : holds_queue b (mkQueue (content b) 0)) by (split; [done|done|simpl; lia]).
  specialize (Hstep Hq ltac:(unfold size_fits; lia)).
  destruct (queue_step _ op) as [q| |]; [|rewrite Hstep; by left|].
  - destruct Hstep as (b' & -> & [Hi' _ _] & Hl). simpl. apply IH; [done|lia].
  - destruct Hstep as [-> | (b' & -> & Hi' & Hl)]; [by left|]. simpl. apply IH; [done|lia].
Qed.

Lemma buf_run_simulates b q ops :
  holds_queue b q -> (N.of_nat (length (buffer_ b) + sum_list (op_size <$> ops) + kCheapPrepend) < 2 ^ 64)%N ->
  match queue_run q ops with
  | Becomes q' => exists b', buf_run b ops = Ok b' /\ holds_queue b' q'
  | Refused => buf_run b ops = Fault AssertFailed
  | Unpromised => buf_run b ops = Fault AssertFailed \/ exists b', buf_run b ops = Ok b' /\ buf_inv b'
  end.
Proof.
  revert b q; induction ops as [|op ops IH]; intros b q Hq Hs; cbn [buf_run queue_run]; [eauto|]. csimpl in Hs.
  pose proof (buf_step_simulates b q op Hq) as Hstep.
  destruct (queue_step q op) as [q1| |].
  - destruct Hstep as (b' & -> & Hq' & Hl); [unfold size_fits; lia|]. simpl. apply IH; [done|lia].
  - rewrite Hstep; [done|unfold size_fits; lia].
  - destruct Hstep as [-> | (b' & -> & Hi' & Hl)]; [unfold size_fits; lia|by left|]. simpl. apply buf_run_safe; [done|lia].
Qed.

(** C23: every sequence of appends, prepends, retrieves, unwrites and
    reservations on a fresh buffer whose sizes together fit a [size_t] behaves
    as on an unbounded byte queue that keeps room for eight bytes in front: it
    ends with exactly the queue's bytes readable, at least the promised room
    and the index invariant intact; taking more bytes than there are fails an
    assertion, and so does, at worst, a prepend of more bytes than promised. *)
Theorem buffer_refines_queue n ops :
  (total_size n ops < 2 ^ 64)%N ->
  match queue_run (mkQueue [] kCheapPrepend) ops with
  | Becomes q => exists b, buf_run (new_Buffer n) ops = Ok b /\ buf_inv b /\ content b = body q
      /\ room q <= prependableBytes b
  | Refused => buf_run (new_Buffer n) ops = Fault AssertFailed
  | Unpromised => buf_run (new_Buffer n) ops = Fault AssertFailed
      \/ exists b, buf_run (new_Buffer n) ops = Ok b /\ buf_inv b
  end.
Proof.
  intros Hs. unfold total_size in Hs.
  assert (Hq : holds_queue (new_Buffer n) (mkQueue [] kCheapPrepend))
    by (split; [apply new_Buffer_inv|apply new_Buffer_content|done]).
  assert (Hl : (N.of_nat (length (buffer_ (new_Buffer n)) + sum_list (op_size <$> ops) + kCheapPrepend) < 2 ^ 64)%N)
    by (cbn [new_Buffer buffer_]; rewrite length_replicate; lia).
  pose proof (buf_run_simulates _ _ ops Hq Hl) as Hrun. destruct (queue_run _ ops) as [q| |]; [|done..].
  destruct Hrun as (b & E & [Hi Hb Hr]). by exists b.
Qed.

Lemma buffer_refines_queue_witness :
  exists b, buf_run (new_Buffer 4) [OpAppend (str "hello"); OpPrepend (str "01"); OpRetrieve 3; OpAppend (str "!"); OpEnsure 9]
            = Ok b /\ content b = str "ello!" /\ 8 <= prependableBytes b.
Proof.
  destruct (buffer_refines_queue 4
    [OpAppend (str "hello"); OpPrepend (str "01"); OpRetrieve 3; OpAppend (str "!"); OpEnsure 9]) as (b & E & _ & Hb & Hr);
    [vm_compute; reflexivity|]. exists b. split; [exact E|]. split; [exact Hb|exact Hr].
Defined.

(** [makeSpace] either grows the vector or slides the readable bytes
    to the front; in both cases the reserved 8-byte prefix survives, the bytes
    are kept and the requested space is free: no call of
    [ensureWritableBytes] can fail its assertion. *)
Theorem ensureWritableBytes_total len b :
  buf_inv b -> size_fits len b ->
  exists b', ensureWritableBytes len b = Ok b'
    /\ buf_inv b' /\ content b' = content b /\ len <= writableBytes b'
    /\ min kCheapPrepend (prependableBytes b) <= prependableBytes b'.
Proof.
  intros Hi Hf. destruct (ensureWritableBytes_spec len b Hi Hf) as (b' & ? & ? & ? & ? & Hr).
  exists b'. unfold prependableBytes. split_and!; try done. lia.
Qed.

Lemma ensureWritableBytes_total_witness :
  buf_inv (new_Buffer 4) /\ exists b', ensureWritableBytes 10 (new_Buffer 4) = Ok b'.
Proof.
  assert (buf_inv (new_Buffer 4)) as Hi by apply new_Buffer_inv.
  split; [exact Hi|]. destruct (ensureWritableBytes_total 10 (new_Buffer 4) Hi) as (b' & H & _); [vm_compute; reflexivity|].
  exists b'. exact H.
Defined.

(** ** Searching *)

Lemma range_from b i : buf_inv b -> readerIndex_ b <= i <= writerIndex_ b ->
  range b i (writerIndex_ b) = drop (i - readerIndex_ b) (content b).
Proof.
  intros [Ho Hs Hp] Hi. unfold content, range. unfold_sizes.
  rewrite skipn_firstn_comm, drop_drop. f_equal; [lia|]. f_equal. lia.
Qed.

(** [findCRLF] in terms of the readable bytes. *)
Lemma findCRLF_content b i :
  findCRLF b = Some i -> exists x y,
    content b = x ++ kCRLF ++ y /\ i = peek b + length x.
Proof.
  unfold findCRLF. intros (j & H & ->)%fmap_Some.
  apply find_sub_Some in H as (x & y & H & <-). by exists x, y.
Qed.

Lemma findCRLF_from_content b start r :
  buf_inv b -> findCRLF_from start b = Ok r ->
  readerIndex_ b <= start <= writerIndex_ b
  /\ r = Nat.add start <$> find_sub kCRLF (drop (start - readerIndex_ b) (content b)).
Proof.
  intros Hi H. unfold findCRLF_from in H. inv_res. bool_props. unfold_sizes.
  split; [lia|]. rewrite range_from by done. done.
Qed.

(** ** Receiving *)

Lemma scatter_spec d b :
  buf_inv b -> exists b', scatter d b = Ok b' /\ buf_inv b' /\ content b' = content b ++ d.
Proof.
  intros Hi. unfold scatter.
  destruct (write_spec (take (writableBytes b) d) b) as (l & Hw & Hi1 & Hc1);
    [done | rewrite length_take; lia |].
  rewrite Hw. simpl. case_if.
  - rewrite take_ge in Hi1, Hc1 by done. eauto.
  - rewrite length_take, Nat.min_l in Hi1, Hc1 by lia.
    assert (Hsz : writerIndex_ b + writableBytes b = length l).
    { rewrite (overwrite_length _ _ _ _ Hw). destruct Hi. unfold_sizes. lia. }
    rewrite Hsz in Hi1, Hc1.
    destruct (append_spec (drop (writableBytes b) d) (length d - writableBytes b) _ Hi1)
      as (b' & -> & Hi' & Hc' & _); [by rewrite length_drop|].
    exists b'. split_and!; [done | done |]. rewrite Hc', Hc1, <- app_assoc. f_equal.
    rewrite (take_ge (drop _ _)) by (rewrite length_drop; lia). apply take_drop.
Qed.

(** [readFd] appends exactly the bytes the kernel delivered, however
    they are split between the free space and the stack buffer, and returns
    their number. *)
Theorem readFd_appends `{Platform} d b :
  buf_inv b -> (N.of_nat (length d) <= N.of_nat (writableBytes b))%N
            \/ ((N.of_nat (writableBytes b) < extrabuf_size)%N
                /\ (N.of_nat (length d) <= N.of_nat (writableBytes b) + extrabuf_size)%N) ->
  exists b', readFd (RecvData d) b = Ok (Z.of_nat (length d), None, b')
    /\ buf_inv b' /\ content b' = content b ++ d.
Proof.
  intros Hi Hd. destruct (scatter_spec d b Hi) as (b' & Hs & Hi' & Hc).
  exists b'. unfold readFd, readFd_win, readFd_linux.
  split; [|done]. destruct win.
  - rewrite (proj2 (N.leb_le _ _)) by lia. by rewrite Hs.
  - rewrite (proj2 (N.leb_le _ _)); [by rewrite Hs|].
    destruct (N.ltb_spec (N.of_nat (writableBytes b)) extrabuf_size); lia.
Qed.

Lemma readFd_appends_witness :
  let p := {| win := true; bigendian := false |} in
  exists b', readFd (RecvData (str "hello")) (new_Buffer 2) = Ok (5%Z, None, b')
    /\ content b' = str "hello".
Proof.
  intros p. destruct (readFd_appends (str "hello") (new_Buffer 2)) as (b' & H & _ & Hc).
  - apply new_Buffer_inv.
  - right. vm_compute. split; [reflexivity | discriminate].
  - exists b'. split; [exact H | exact Hc].
Defined.

(** [shrink] moves the readable bytes to a fresh vector and changes
    nothing a reader can see, for contents an [int] can count. *)
Theorem shrink_spec reserve b :
  buf_inv b -> (Z.of_nat (readableBytes b) < 2 ^ 31)%Z -> (Z.of_nat reserve < 2 ^ 63)%Z ->
  exists b', shrink reserve b = Ok b' /\ buf_inv b' /\ content b' = content b.
Proof.
  intros Hi Hn Hres. unfold shrink. rewrite size_add_exact by lia. rewrite Nat2N.id.
  destruct (ensureWritableBytes_spec (readableBytes b + reserve) (new_Buffer kInitialSize))
    as (o & -> & Hio & Hco & _);
    [apply new_Buffer_inv|unfold size_fits; cbn [new_Buffer buffer_]; rewrite length_replicate, kCheapPrepend_eq, kInitialSize_eq; lia|]. simpl.
  unfold append_piece, toStringPiece, sp_of_range. simpl.
  rewrite wrapS_small by lia. rewrite (proj2 (Z.leb_le _ _)) by lia. rewrite Nat2Z.id.
  destruct (append_spec (drop (peek b) (buffer_ b)) (readableBytes b) o Hio)
    as (b' & -> & Hi' & Hc' & _).
  { destruct Hi. rewrite length_drop. unfold_sizes. lia. }
  simpl. eexists. split; [done|]. split; [by destruct Hi'|].
  change (content _) with (content b') at 1. rewrite Hc', Hco, new_Buffer_content. done.
Qed.

Lemma shrink_spec_witness :
  exists b', shrink 100 (new_Buffer 3) = Ok b' /\ content b' = [].
Proof.
  destruct (shrink_spec 100 (new_Buffer 3)) as (b' & H & _ & Hc).
  - apply new_Buffer_inv.
  - vm_compute. reflexivity.
  - vm_compute. reflexivity.
  - exists b'. split; [exact H | exact Hc].
Defined.

(** ** Integers in network order *)
Section IntegerFacts.
Context `{Platform}.

Lemma pow256 n : (256 ^ Z.of_nat n = 2 ^ (8 * Z.of_nat n))%Z.
Proof. change 256%Z with (2 ^ 8)%Z. rewrite <- Z.pow_mul_r by lia. done. Qed.

Lemma be_bytes_wrapU n x : be_bytes n (wrapU (8 * Z.of_nat n) x) = be_bytes n x.
Proof. unfold be_bytes, wrapU. by rewrite <- pow256, le_bytes_mod. Qed.

(** Storing an integer as signed does not change its memory image. *)
Lemma to_mem_wrapS n x :
  0 < n -> to_mem n (wrapS (8 * Z.of_nat n) x) = to_mem n x.
Proof.
  intros Hn. rewrite <- (to_mem_mod n (wrapS _ _)), <- (to_mem_mod n x), pow256.
  fold (wrapU (8 * Z.of_nat n) x) (wrapU (8 * Z.of_nat n) (wrapS (8 * Z.of_nat n) x)).
  by rewrite wrapU_wrapS by lia.
Qed.

(** The image an [appendIntN] or [prependIntN] writes. *)
Lemma image64 x : to_mem 8 (wrapS 64 (hostToNetwork64 (wrapU 64 x))) = be_bytes 8 x.
Proof.
  rewrite (to_mem_wrapS 8) by lia. rewrite to_mem_hostToNetwork64 by (apply wrapU_bound; lia).
  apply (be_bytes_wrapU 8).
Qed.
Lemma image32 x : to_mem 4 (wrapS 32 (hostToNetwork32 (wrapU 32 x))) = be_bytes 4 x.
Proof.
  rewrite (to_mem_wrapS 4) by lia. unfold hostToNetwork32.
  rewrite to_mem_hton. apply (be_bytes_wrapU 4).
Qed.
Lemma image16 x : to_mem 2 (wrapS 16 (hostToNetwork16 (wrapU 16 x))) = be_bytes 2 x.
Proof.
  rewrite (to_mem_wrapS 2) by lia. unfold hostToNetwork16.
  rewrite to_mem_hton. apply (be_bytes_wrapU 2).
Qed.
Lemma image8 x : to_mem 1 x = be_bytes 1 x.
Proof. unfold to_mem, be_bytes. by case_if. Qed.

(** Reading back an n-byte image with the swap of [htonl] undone. *)
Lemma decode_hton n w x :
  w = (8 * Z.of_nat n)%Z -> 0 < n -> (- 2 ^ (w - 1) <= x < 2 ^ (w - 1))%Z ->
  wrapS w (hton n (wrapU w (wrapS w (of_mem (be_bytes n x))))) = x.
Proof.
  intros Ew Hn Hx.
  rewrite wrapU_wrapS by lia. rewrite <- be_bytes_wrapU, <- Ew.
  assert (Hw : (0 <= wrapU w x < 256 ^ Z.of_nat n)%Z)
    by (rewrite pow256, <- Ew; apply wrapU_bound; lia).
  rewrite wrapU_small.
  - rewrite of_mem_be_bytes by done. apply wrapS_wrapU; lia.
  - rewrite pow256, <- Ew in Hw. unfold of_mem.
    case_if; [rewrite of_be_be_bytes | unfold be_bytes; rewrite <- (length_le_bytes n (wrapU w x)) at 2].
    + rewrite pow256, <- Ew. apply Z.mod_pos_bound. lia.
    + pose proof (of_le_bound (reverse (le_bytes n (wrapU w x)))) as Hb.
      rewrite length_reverse, length_le_bytes, pow256, <- Ew in Hb.
      by rewrite length_le_bytes.
Qed.

Lemma content_prefix_range b n p c :
  buf_inv b -> content b = p ++ c -> n = length p ->
  n <= readableBytes b /\ range b (peek b) (peek b + n) = p.
Proof.
  intros Hi Hc ->. assert (length p <= readableBytes b).
  { rewrite <- length_content by done. rewrite Hc, length_app. lia. }
  split; [done|]. rewrite range_prefix, Hc by done. apply take_app_length.
Qed.

Lemma read_spec n p c b :
  buf_inv b -> content b = p ++ c -> n = length p ->
  exists b', retrieve n b = Ok b' /\ buf_inv b' /\ content b' = c.
Proof.
  intros Hi Hc ->. destruct (content_prefix_range b _ p c Hi Hc eq_refl) as [Hn _].
  destruct (retrieve_spec _ b Hi Hn) as (b' & ? & ? & Hc').
  exists b'. split_and!; [done..|]. by rewrite Hc', Hc, drop_app_length.
Qed.

(** Reading an integer whose image heads the readable bytes. *)
Lemma readInt32_image x c b :
  (- 2 ^ 31 <= x < 2 ^ 31)%Z -> buf_inv b -> content b = be_bytes 4 x ++ c ->
  exists b', readInt32 b = Ok (x, b') /\ buf_inv b' /\ content b' = c.
Proof.
  intros Hx Hi Hc. destruct (content_prefix_range b 4 _ c Hi Hc) as [Hn Hr];
    [by rewrite length_be_bytes|].
  unfold readInt32, peekInt32, networkToHost32, retrieveInt32.
  rewrite (proj2 (Nat.leb_le _ _) Hn), Hr. simpl. rewrite (decode_hton 4 32 x) by (simpl; lia).
  destruct (read_spec 4 _ c b Hi Hc) as (b' & -> & ? & ?);
    [by rewrite length_be_bytes|]. simpl. eauto.
Qed.

Lemma readInt16_image x c b :
  (- 2 ^ 15 <= x < 2 ^ 15)%Z -> buf_inv b -> content b = be_bytes 2 x ++ c ->
  exists b', readInt16 b = Ok (x, b') /\ buf_inv b' /\ content b' = c.
Proof.
  intros Hx Hi Hc. destruct (content_prefix_range b 2 _ c Hi Hc) as [Hn Hr];
    [by rewrite length_be_bytes|].
  unfold readInt16, peekInt16, networkToHost16, retrieveInt16.
  rewrite (proj2 (Nat.leb_le _ _) Hn), Hr. simpl. rewrite (decode_hton 2 16 x) by (simpl; lia).
  destruct (read_spec 2 _ c b Hi Hc) as (b' & -> & ? & ?);
    [by rewrite length_be_bytes|]. simpl. eauto.
Qed.

Lemma readInt8_image x c b :
  (- 2 ^ 7 <= x < 2 ^ 7)%Z -> buf_inv b -> content b = be_bytes 1 x ++ c ->
  exists b', readInt8 b = Ok (x, b') /\ buf_inv b' /\ content b' = c.
Proof.
  intros Hx Hi Hc. destruct (content_prefix_range b 1 _ c Hi Hc) as [Hn Hr];
    [by rewrite length_be_bytes|].
  unfold readInt8, peekInt8, retrieveInt8. rewrite (proj2 (Nat.leb_le _ _) Hn). simpl.
  assert (Hl : buffer_ b !! peek b = Some (char_of_Z x)).
  { apply (f_equal (fun l => l !! 0)) in Hr. unfold range in Hr.
    rewrite lookup_take_lt, lookup_drop, Nat.add_0_r in Hr by lia. done. }
  rewrite Hl. simpl. rewrite Z_of_char_of_Z. change (x mod 256)%Z with (wrapU 8 x).
  rewrite wrapS_wrapU by lia.
  destruct (read_spec 1 _ c b Hi Hc) as (b' & -> & ? & ?);
    [by rewrite length_be_bytes|]. simpl. eauto.
Qed.

Lemma peekInt64_image x c b :
  buf_inv b -> content b = be_bytes 8 x ++ c ->
  peekInt64 b = Ok (wrapS 64 (networkToHost64 (wrapU 64 (wrapS 64 (of_mem (be_bytes 8 x)))))).
Proof.
  intros Hi Hc. destruct (content_prefix_range b 8 _ c Hi Hc) as [Hn Hr];
    [by rewrite length_be_bytes|].
  unfold peekInt64. by rewrite (proj2 (Nat.leb_le _ _) Hn), Hr.
Qed.

(** The buffer after an integer was appended. *)
Lemma append_image n d b :
  buf_inv b -> n = length d ->
  exists b', append d n b = Ok b' /\ buf_inv b' /\ content b' = content b ++ d.
Proof.
  intros Hi ->. destruct (append_str_spec d b Hi) as (b' & ? & ? & ? & _). eauto.
Qed.

(** 32, 16 and 8 bit integers survive the trip through an empty
    buffer on every platform: what [appendIntN] writes is the big-endian
    image, and [readIntN] returns the signed value it was given and leaves
    the buffer empty. *)
Theorem int_roundtrip x8 x16 x32 b :
  buf_inv b -> content b = [] ->
  (- 2 ^ 7 <= x8 < 2 ^ 7)%Z -> (- 2 ^ 15 <= x16 < 2 ^ 15)%Z -> (- 2 ^ 31 <= x32 < 2 ^ 31)%Z ->
  exists b3, (b1 ← appendInt32 x32 b; b2 ← appendInt16 x16 b1; appendInt8 x8 b2) = Ok b3
    /\ content b3 = be_bytes 4 x32 ++ be_bytes 2 x16 ++ be_bytes 1 x8
    /\ exists b4, ('(y32, b) ← readInt32 b3; '(y16, b) ← readInt16 b;
                   '(y8, b) ← readInt8 b; Ok (y32, y16, y8, b))
                  = Ok (x32, x16, x8, b4)
       /\ buf_inv b4 /\ content b4 = [].
Proof.
  intros Hi Hc H8 H16 H32. unfold appendInt32, appendInt16, appendInt8.
  rewrite image32, image16, image8.
  destruct (append_image 4 (be_bytes 4 x32) b Hi) as (b1 & -> & Hi1 & Hc1);
    [by rewrite length_be_bytes|]. simpl.
  destruct (append_image 2 (be_bytes 2 x16) b1 Hi1) as (b2 & -> & Hi2 & Hc2);
    [by rewrite length_be_bytes|]. simpl.
  destruct (append_image 1 (be_bytes 1 x8) b2 Hi2) as (b3 & -> & Hi3 & Hc3);
    [by rewrite length_be_bytes|].
  assert (Hc3' : content b3 = be_bytes 4 x32 ++ be_bytes 2 x16 ++ be_bytes 1 x8)
    by (by rewrite Hc3, Hc2, Hc1, Hc, <- !app_assoc).
  exists b3. split_and!; [done | done |].
  destruct (readInt32_image _ _ _ H32 Hi3 Hc3') as (c1 & -> & Hj1 & Hd1). simpl.
  destruct (readInt16_image _ _ _ H16 Hj1 Hd1) as (c2 & -> & Hj2 & Hd2). simpl.
  rewrite <- (app_nil_r (be_bytes 1 x8)) in Hd2.
  destruct (readInt8_image _ _ _ H8 Hj2 Hd2) as (c3 & -> & Hj3 & Hd3). simpl. eauto.
Qed.

(** on platforms that use [be64toh], a 64 bit integer survives the
    trip; on a little-endian Windows host [readInt64] returns the value with
    its eight bytes reversed, because [ntoh64] returns its argument
    unchanged there while [hton64] swaps. *)
Theorem int64_roundtrip x b :
  buf_inv b -> content b = [] -> (- 2 ^ 63 <= x < 2 ^ 63)%Z ->
  exists b1, appendInt64 x b = Ok b1 /\ content b1 = be_bytes 8 x
    /\ (win = false -> exists b2, readInt64 b1 = Ok (x, b2) /\ content b2 = [])
    /\ (win = true -> bigendian = false ->
        exists b2, readInt64 b1 = Ok (wrapS 64 (byteswap 8 (wrapU 64 x)), b2)).
Proof.
  intros Hi Hc Hx. unfold appendInt64. rewrite image64.
  destruct (append_image 8 (be_bytes 8 x) b Hi) as (b1 & -> & Hi1 & Hc1);
    [by rewrite length_be_bytes|].
  rewrite Hc in Hc1. simpl in Hc1. exists b1. split_and!; [done | done | |].
  all: rewrite <- (app_nil_r (be_bytes 8 x)) in Hc1.
  all: destruct (read_spec 8 _ [] b1 Hi1 Hc1) as (b2 & Hr & Hi2 & Hc2);
    [by rewrite length_be_bytes|].
  all: unfold readInt64, retrieveInt64; rewrite (peekInt64_image x [] b1 Hi1 Hc1), Hr.
  - intros Hw. exists b2. unfold networkToHost64. rewrite Hw.
    rewrite (decode_hton 8 64 x) by (simpl; lia). done.
  - intros Hw Hb. exists b2. unfold networkToHost64, ntoh64, is_littlendbian, of_mem.
    rewrite Hw, Hb. cbn -[be_bytes of_le byteswap wrapS wrapU]. do 2 f_equal.
    rewrite wrapU_wrapS by lia. rewrite <- (be_bytes_wrapU 8). f_equal.
    change (of_le (be_bytes 8 (wrapU 64 x))) with (byteswap 8 (wrapU 64 x)).
    apply wrapU_small. apply (byteswap_bound 8).
Qed.
End IntegerFacts.

Lemma int_roundtrip_witness :
  exists b3, content b3 = be_bytes 4 (-70000) ++ be_bytes 2 300 ++ be_bytes 1 (-5).
Proof.
  destruct (@int_roundtrip windows (-5) 300 (-70000) (new_Buffer 16))
    as (b3 & _ & H & _).
  - apply new_Buffer_inv.
  - reflexivity.
  - split; [discriminate | reflexivity].
  - split; [discriminate | reflexivity].
  - split; [discriminate | reflexivity].
  - exists b3. exact H.
Defined.

Lemma int64_roundtrip_witness :
  exists b1, @appendInt64 windows 1 (new_Buffer 16) = Ok b1
    /\ exists b2, @readInt64 windows b1 = Ok ((2 ^ 56)%Z, b2).
Proof.
  destruct (@int64_roundtrip windows 1 (new_Buffer 16)) as (b1 & H & _ & _ & Hw).
  - apply new_Buffer_inv.
  - reflexivity.
  - split; [discriminate | reflexivity].
  - exists b1. split; [exact H|].
    destruct (Hw eq_refl eq_refl) as (b2 & H2). exists b2. exact H2.
Defined.
