(* ===== verification/StdContainers.v ===== *)
(** * Ordered containers of the C++ standard library

    [std::set] and [std::map] as strictly sorted lists, with the operations
    the library uses: [insert], [erase], [find], [lower_bound], [begin],
    iteration in order, and [operator[]] of a map. Elements and keys have a
    strict order ([Ordered]), as [std::less] requires. *)
From S2P Require Import Prelude.

Class Ordered (A : Type) := {
  ltb : A -> A -> bool;
  ltb_irrefl x : ltb x x = false;
  ltb_trans x y z : ltb x y = true -> ltb y z = true -> ltb x z = true;
  ltb_total x y : ltb x y = false -> ltb y x = false -> x = y
}.

#[export] Instance Ordered_Z : Ordered Z.
Proof.
  refine {| ltb := Z.ltb |}; intros; rewrite ?Z.ltb_lt, ?Z.ltb_ge in *; lia.
Defined.

(** [operator<] of [std::pair]: lexicographic. *)
#[export] Instance Ordered_pair {A B} `{Ordered A} `{Ordered B} : Ordered (A * B).
Proof.
  refine {| ltb := fun x y => ltb x.1 y.1 || (negb (ltb y.1 x.1) && ltb x.2 y.2) |}.
  - intros [a b]; simpl. by rewrite !ltb_irrefl.
  - intros [a b] [a' b'] [a'' b'']; simpl.
    destruct (ltb a a') eqn:H1, (ltb a' a'') eqn:H2; simpl; intros H3 H4.
    + by rewrite (ltb_trans _ _ _ H1 H2).
    + destruct (ltb a'' a') eqn:H5; [done|].
      pose proof (ltb_total _ _ H2 H5) as ->. by rewrite H1.
    + destruct (ltb a' a) eqn:H5; [done|].
      pose proof (ltb_total _ _ H1 H5) as ->. by rewrite H2.
    + destruct (ltb a' a) eqn:H5; [done|]. destruct (ltb a'' a') eqn:H6; [done|].
      pose proof (ltb_total _ _ H1 H5) as ->. pose proof (ltb_total _ _ H2 H6) as ->.
      rewrite ltb_irrefl. simpl in *. by rewrite (ltb_trans _ _ _ H3 H4).
  - intros [a b] [a' b']; simpl.
    destruct (ltb a a') eqn:H1; [done|]. destruct (ltb a' a) eqn:H2; [done|].
    simpl. intros H3 H4. by rewrite (ltb_total _ _ H1 H2), (ltb_total _ _ H3 H4).
Defined.

(** [operator<] of [std::string]: lexicographic by unsigned character. *)
Fixpoint bytes_ltb (a b : bytes) : bool :=
  match a, b with
  | _, [] => false
  | [], _ :: _ => true
  | x :: a, y :: b =>
      (Z_of_char x <? Z_of_char y)%Z || (Ascii.eqb x y && bytes_ltb a b)
  end.

#[export] Instance Ordered_bytes : Ordered bytes.
Proof.
  refine {| ltb := bytes_ltb |}.
  - induction x as [|c x IH]; simpl; [done|].
    rewrite IH, andb_false_r, orb_false_r. apply Z.ltb_irrefl.
  - induction x as [|c x IH]; intros [|d y] [|e z]; simpl; try done.
    rewrite !orb_true_iff, !andb_true_iff, !Z.ltb_lt, !Ascii.eqb_eq.
    intros [H1|[-> H1]] [H2|[-> H2]]; [left; lia | by left | by left |].
    right. split; [done|]. by eapply IH.
  - induction x as [|c x IH]; intros [|d y]; simpl; try done.
    rewrite !orb_false_iff, !andb_false_iff, !Z.ltb_ge.
    intros [H1 H2] [H3 H4]. assert (c = d) as -> by (apply Z_of_char_inj; lia).
    rewrite Ascii.eqb_refl in *. f_equal. apply IH; naive_solver.
Defined.

(** ** Sets *)
Section Sets.
Context {A : Type} `{Ordered A}.

Definition olt (x y : A) : Prop := ltb x y = true.
Definition sorted : list A -> Prop := StronglySorted olt.

(** [insert]: the new set and whether the element was inserted. *)
Fixpoint set_insert (x : A) (l : list A) : list A * bool :=
  match l with
  | [] => ([x], true)
  | y :: l' =>
      if ltb x y then (x :: l, true)
      else if ltb y x then let '(r, b) := set_insert x l' in (y :: r, b)
      else (l, false)
  end.

(** [erase(key)]: the new set and the number of elements removed. *)
Fixpoint set_erase (x : A) (l : list A) : list A * nat :=
  match l with
  | [] => ([], 0)
  | y :: l' =>
      if ltb x y then (l, 0)
      else if ltb y x then let '(r, n) := set_erase x l' in (y :: r, n)
      else (l', 1)
  end.

(** [lower_bound]: the elements before the first one not less than [x],
    and the rest. *)
Fixpoint lower_bound (x : A) (l : list A) : list A * list A :=
  match l with
  | [] => ([], [])
  | y :: l' => if ltb y x then let '(a, b) := lower_bound x l' in (y :: a, b) else ([], l)
  end.

Lemma lt_not_eq x y : ltb x y = true -> x <> y.
Proof. intros Hl ->. by rewrite ltb_irrefl in Hl. Qed.

Lemma ltb_asym x y : ltb x y = true -> ltb y x = false.
Proof.
  intros H1. destruct (ltb y x) eqn:H2; [|done].
  pose proof (ltb_trans _ _ _ H1 H2) as H3. by rewrite ltb_irrefl in H3.
Qed.

Lemma sorted_cons x l : sorted (x :: l) <-> sorted l /\ forall y, y ∈ l -> ltb x y = true.
Proof.
  unfold sorted. split.
  - intros (Hs & Hf)%StronglySorted_inv. split; [done|].
    intros y Hy. by rewrite Forall_forall in Hf; apply Hf.
  - intros [Hs Hf]. constructor; [done|]. by apply Forall_forall.
Qed.

Lemma sorted_not_in x l : sorted (x :: l) -> x ∉ l.
Proof. intros [_ Hf]%sorted_cons Hx. by apply Hf, lt_not_eq in Hx. Qed.

Lemma sorted_NoDup l : sorted l -> NoDup l.
Proof.
  induction l as [|x l IH]; intros Hs; constructor.
  - by apply sorted_not_in.
  - apply IH. by apply sorted_cons in Hs as [? _].
Qed.

Lemma elem_of_set_insert x y l : y ∈ (set_insert x l).1 <-> y = x \/ y ∈ l.
Proof.
  induction l as [|z l IH]; simpl; [set_solver|].
  destruct (ltb x z) eqn:H1; [set_solver|]. destruct (ltb z x) eqn:H2; simpl.
  - destruct (set_insert x l); simpl in *. set_solver.
  - pose proof (ltb_total _ _ H1 H2) as ->. set_solver.
Qed.

Lemma set_insert_sorted x l : sorted l -> sorted (set_insert x l).1.
Proof.
  induction l as [|z l IH]; intros Hs; simpl.
  { apply sorted_cons. split; [constructor | set_solver]. }
  pose proof Hs as [Hl Hf]%sorted_cons.
  destruct (ltb x z) eqn:H1; [|destruct (ltb z x) eqn:H2; [|done]].
  - apply sorted_cons. split; [done|]. intros y [->|Hy]%elem_of_cons; [done|].
    eapply ltb_trans; [done|]. by apply Hf.
  - pose proof (elem_of_set_insert x) as He. specialize (IH Hl).
    destruct (set_insert x l) as [r b] eqn:E. simpl in *.
    apply sorted_cons. split; [done|]. intros y Hy.
    specialize (He y l). rewrite E in He. simpl in He.
    apply He in Hy as [->|Hy]; [done | by apply Hf].
Qed.

Lemma set_insert_new x l :
  sorted l -> x ∉ l ->
  (set_insert x l).2 = true /\ length (set_insert x l).1 = S (length l).
Proof.
  induction l as [|z l IH]; intros Hs Hx; simpl; [done|].
  destruct (ltb x z) eqn:H1; [done|]. destruct (ltb z x) eqn:H2.
  - apply sorted_cons in Hs as [Hl _]. destruct (IH Hl) as [? ?]; [set_solver|].
    destruct (set_insert x l). simpl in *. auto.
  - pose proof (ltb_total _ _ H1 H2) as ->. set_solver.
Qed.

Lemma set_erase_spec x l :
  sorted l -> x ∈ l ->
  (set_erase x l).2 = 1 /\ sorted (set_erase x l).1
  /\ (forall y, y ∈ (set_erase x l).1 <-> y ∈ l /\ y <> x)
  /\ S (length (set_erase x l).1) = length l.
Proof.
  induction l as [|z l IH]; intros Hs Hx; simpl; [set_solver|].
  pose proof Hs as [Hl Hf]%sorted_cons. pose proof (sorted_not_in _ _ Hs) as Hn.
  destruct (ltb x z) eqn:H1.
  { apply elem_of_cons in Hx as [->|Hx]; [by rewrite ltb_irrefl in H1|].
    apply Hf in Hx. by rewrite (ltb_asym _ _ Hx) in H1. }
  destruct (ltb z x) eqn:H2.
  - assert (x ∈ l) as Hx' by (apply elem_of_cons in Hx as [->|]; [by rewrite ltb_irrefl in H2 | done]).
    destruct (IH Hl Hx') as (H3 & H4 & H5 & H6).
    destruct (set_erase x l) as [r n]. simpl in *.
    apply lt_not_eq in H2 as Hne. split_and!; [done | | | lia].
    + apply sorted_cons. split; [done|]. intros y Hy. apply Hf. by apply H5 in Hy as [? _].
    + intros y. rewrite !elem_of_cons, H5. naive_solver.
  - pose proof (ltb_total _ _ H1 H2) as ->. split_and!; [done | done | | done].
    intros y. rewrite elem_of_cons. naive_solver.
Qed.

Lemma set_erase_subset x y l : y ∈ (set_erase x l).1 -> y ∈ l.
Proof.
  induction l as [|z l IH]; simpl; [done|]. case_match; [done|]. case_match; [|set_solver].
  destruct (set_erase x l). simpl in *. set_solver.
Qed.

Lemma lower_bound_app x l : (lower_bound x l).1 ++ (lower_bound x l).2 = l.
Proof.
  induction l as [|y l IH]; simpl; [done|].
  destruct (ltb y x); [|done]. destruct (lower_bound x l). simpl in *. by f_equal.
Qed.

Lemma lower_bound_spec x l y :
  sorted l ->
  (y ∈ (lower_bound x l).1 -> ltb y x = true) /\ (y ∈ (lower_bound x l).2 -> ltb y x = false).
Proof.
  induction l as [|z l IH]; intros Hs; simpl; [set_solver|].
  apply sorted_cons in Hs as [Hl Hf]. specialize (IH Hl).
  destruct (ltb z x) eqn:H1.
  - destruct (lower_bound x l) as [a b]. simpl in *.
    rewrite elem_of_cons. split; [intros [->|]; naive_solver | naive_solver].
  - simpl. split; [set_solver|]. intros [->|Hy]%elem_of_cons; [done|].
    destruct (ltb y x) eqn:H2; [|done].
    by rewrite (ltb_trans _ _ _ (Hf _ Hy) H2) in H1.
Qed.

Lemma sorted_app l k : sorted (l ++ k) ->
  sorted l /\ sorted k /\ forall x y, x ∈ l -> y ∈ k -> ltb x y = true.
Proof.
  induction l as [|z l IH]; simpl.
  { intros Hs. split_and!; [constructor | done | set_solver]. }
  intros [Hs Hf]%sorted_cons. destruct (IH Hs) as (Ha & Hb & Hc).
  split_and!; [|done|].
  - apply sorted_cons. split; [done|]. intros y Hy. apply Hf. set_solver.
  - intros x y [->|Hx]%elem_of_cons Hy; [apply Hf; set_solver | by apply Hc].
Qed.
End Sets.

(** ** Maps *)
Section Maps.
Context {K V : Type} `{Ordered K}.

(** [m[k] = v]. *)
Fixpoint map_set (k : K) (v : V) (m : list (K * V)) : list (K * V) :=
  match m with
  | [] => [(k, v)]
  | (k', v') :: m' =>
      if ltb k k' then (k, v) :: m
      else if ltb k' k then (k', v') :: map_set k v m'
      else (k, v) :: m'
  end.

(** [m.insert(make_pair(k, v))]: an existing key keeps its value. *)
Fixpoint map_insert (k : K) (v : V) (m : list (K * V)) : list (K * V) :=
  match m with
  | [] => [(k, v)]
  | (k', v') :: m' =>
      if ltb k k' then (k, v) :: m
      else if ltb k' k then (k', v') :: map_insert k v m'
      else m
  end.

Fixpoint map_find (k : K) (m : list (K * V)) : option V :=
  match m with
  | [] => None
  | (k', v') :: m' =>
      if ltb k k' then None else if ltb k' k then map_find k m' else Some v'
  end.

Definition keys_sorted (m : list (K * V)) : Prop := sorted (m.*1).

Lemma map_find_notin k m : keys_sorted m -> k ∉ m.*1 -> map_find k m = None.
Proof.
  unfold keys_sorted. induction m as [|[k' v'] m IH]; simpl; [done|].
  intros [Hs _]%sorted_cons Hn. destruct (ltb k k') eqn:H1; [done|].
  destruct (ltb k' k) eqn:H2; [apply IH; set_solver|].
  pose proof (ltb_total _ _ H1 H2). set_solver.
Qed.

Lemma map_set_keys k v m : forall x, x ∈ (map_set k v m).*1 <-> x = k \/ x ∈ m.*1.
Proof.
  induction m as [|[k' v'] m IH]; intros x; simpl; [set_solver|].
  destruct (ltb k k') eqn:H1; [set_solver|].
  destruct (ltb k' k) eqn:H2; simpl; [rewrite !elem_of_cons, IH; naive_solver|].
  pose proof (ltb_total _ _ H1 H2). set_solver.
Qed.

Lemma map_set_sorted k v m : keys_sorted m -> keys_sorted (map_set k v m).
Proof.
  unfold keys_sorted. induction m as [|[k' v'] m IH]; simpl.
  { intros _. apply sorted_cons. split; [constructor | set_solver]. }
  intros Hs. pose proof Hs as [Hl Hf]%sorted_cons.
  destruct (ltb k k') eqn:H1; [|destruct (ltb k' k) eqn:H2]; simpl.
  - apply sorted_cons. split; [done|]. intros y [->|Hy]%elem_of_cons; [done|].
    eapply ltb_trans; [done | by apply Hf].
  - apply sorted_cons. split; [by apply IH|].
    intros y [->|Hy]%map_set_keys; [done | by apply Hf].
  - by rewrite (ltb_total _ _ H1 H2).
Qed.

Lemma map_find_set_eq k v m : map_find k (map_set k v m) = Some v.
Proof.
  induction m as [|[k' v'] m IH]; simpl; [by rewrite ltb_irrefl|].
  destruct (ltb k k') eqn:H1; simpl; [by rewrite ltb_irrefl|].
  destruct (ltb k' k) eqn:H2; simpl; [by rewrite H1, H2 | by rewrite ltb_irrefl].
Qed.

Lemma map_find_set_ne k j v m :
  keys_sorted m -> j <> k -> map_find j (map_set k v m) = map_find j m.
Proof.
  intros Hs Hj. induction m as [|[k' v'] m IH]; simpl.
  { destruct (ltb j k) eqn:H1; [done|]. destruct (ltb k j) eqn:H2; [done|].
    by pose proof (ltb_total _ _ H1 H2). }
  unfold keys_sorted in Hs. simpl in Hs. apply sorted_cons in Hs as [Hl Hf].
  destruct (ltb k k') eqn:H1; [|destruct (ltb k' k) eqn:H2]; simpl.
  - destruct (ltb j k) eqn:H3.
    + by rewrite (ltb_trans _ _ _ H3 H1).
    + destruct (ltb k j) eqn:H4; [done|]. by pose proof (ltb_total _ _ H3 H4).
  - by rewrite IH.
  - pose proof (ltb_total _ _ H1 H2) as <-.
    destruct (ltb j k) eqn:H3; [done|]. destruct (ltb k j) eqn:H4; [done|].
    by pose proof (ltb_total _ _ H3 H4).
Qed.

(** [insert] of a new key is [m[k] = v]; it leaves an existing one alone. *)
Lemma map_insert_absent k v m : map_find k m = None -> map_insert k v m = map_set k v m.
Proof.
  induction m as [|[k' v'] m IH]; simpl; [done|]. destruct (ltb k k'); [done|].
  destruct (ltb k' k); [|done]. by intros ->%IH.
Qed.

Lemma map_insert_present k v x m : map_find k m = Some x -> map_insert k v m = m.
Proof.
  induction m as [|[k' v'] m IH]; simpl; [done|]. destruct (ltb k k'); [done|].
  destruct (ltb k' k); [|done]. by intros ->%IH.
Qed.

Lemma map_insert_sorted k v m : keys_sorted m -> keys_sorted (map_insert k v m).
Proof.
  intros Hs. destruct (map_find k m) eqn:E.
  - by rewrite (map_insert_present _ _ _ _ E).
  - rewrite map_insert_absent by done. by apply map_set_sorted.
Qed.

(** A key greater than all goes to the end. *)
Lemma map_insert_last k v m : keys_sorted (m ++ [(k, v)]) -> map_insert k v m = m ++ [(k, v)].
Proof.
  unfold keys_sorted. induction m as [|[k' v'] m IH]; simpl; [done|].
  intros [Hs Hf]%sorted_cons. assert (Hk : ltb k' k = true).
  { apply Hf. rewrite fmap_app. apply elem_of_app. right. by apply list_elem_of_singleton. }
  rewrite (ltb_asym _ _ Hk), Hk. by rewrite IH.
Qed.
End Maps.
