(* ===== verification/Format.v ===== *)
(** * [printf] conversions and [double] arithmetic

    The decimal conversions of [snprintf] the library uses ([%d], [%06d],
    [%s] is concatenation), and IEEE 754 [double] values with the conversions
    to and from integers that [addTime] needs. *)
From S2P Require Import Prelude.
From S2P Require Import Endian.
From Stdlib Require Import SpecFloat.

(** ** Decimal integers *)
Definition digit (d : Z) : char := char_of_Z (48 + d).

(** The decimal digits of [z >= 0]; [fuel] bounds their number. *)
Fixpoint digits (fuel : nat) (z : Z) (acc : bytes) : bytes :=
  match fuel with
  | O => acc
  | S fuel =>
      let acc := digit (z mod 10) :: acc in
      if (z / 10 =? 0)%Z then acc else digits fuel (z / 10) acc
  end.

Definition dec_fuel (z : Z) : nat := S (Z.to_nat (Z.log2 z)).
Definition dec (z : Z) : bytes := digits (dec_fuel z) z [].

(** [%d]. *)
Definition fmt_d (z : Z) : bytes :=
  if (z <? 0)%Z then str "-" ++ dec (- z) else dec z.

(** [%0wd]: zeros between the sign and the digits. *)
Definition fmt_0d (w : nat) (z : Z) : bytes :=
  let sign := if (z <? 0)%Z then str "-" else [] in
  let ds := dec (Z.abs z) in
  sign ++ replicate (w - length sign - length ds) (digit 0) ++ ds.

(** [snprintf(buf, n, ...)], used for texts that fit the buffer: at most n - 1
    characters reach it. *)
Definition snprintf (n : nat) (s : bytes) : bytes := take (n - 1) s.

(** The same where the text may not fit and is read back as a C string: under
    [WIN] the macro of stdafx.h makes it [_snprintf], which then leaves out the
    terminating NUL, so that the read runs past the array. *)
Definition snprintf_z `{Platform} (n : nat) (s : bytes) : res bytes :=
  if length s <? n then Ok s else if win then Fault OutOfBounds else Ok (snprintf n s).

Lemma snprintf_z_fits `{Platform} n s : length s < n -> snprintf_z n s = Ok s.
Proof. intros Hl. unfold snprintf_z. by rewrite (proj2 (Nat.ltb_lt _ _) Hl). Qed.

(** The number a digit string denotes. *)
Definition undigit (c : char) : Z := (Z_of_char c - 48)%Z.
Definition undec (l : bytes) : Z := fold_left (fun n c => (10 * n + undigit c)%Z) l 0%Z.

Definition is_digit (c : char) : bool :=
  (48 <=? Z_of_char c)%Z && (Z_of_char c <=? 57)%Z.

Lemma undigit_digit d : (0 <= d < 10)%Z -> undigit (digit d) = d.
Proof. intros H. unfold undigit, digit. rewrite Z_of_char_of_Z, Z.mod_small; lia. Qed.

Lemma is_digit_digit d : (0 <= d < 10)%Z -> is_digit (digit d) = true.
Proof.
  intros H. unfold is_digit, digit. rewrite Z_of_char_of_Z, Z.mod_small by lia.
  apply andb_true_iff; split; apply Z.leb_le; lia.
Qed.

Lemma undec_app a b :
  undec (a ++ b) = (undec a * 10 ^ Z.of_nat (length b) + undec b)%Z.
Proof.
  unfold undec. rewrite fold_left_app.
  generalize (fold_left (fun n c => (10 * n + undigit c)%Z) a 0%Z). intros n.
  rewrite <- (Z.add_0_r n) at 1. generalize 0%Z as m. revert n.
  induction b as [|c b IH]; intros n m; cbn [fold_left length]; [lia|].
  replace (10 * (n + m) + undigit c)%Z with (10 * n + (10 * m + undigit c))%Z by lia.
  rewrite IH, Nat2Z.inj_succ, Z.pow_succ_r by lia. lia.
Qed.

Lemma undec_nonneg l : Forall (fun c => is_digit c = true) l -> (0 <= undec l)%Z.
Proof.
  intros Hl. unfold undec.
  enough (forall n, (0 <= n)%Z -> (0 <= fold_left (fun n c => (10 * n + undigit c)%Z) l n)%Z)
    as H by (by apply H).
  induction Hl as [|c l Hc Hl IH]; intros n Hn; cbn [fold_left]; [done|]. apply IH.
  unfold is_digit, undigit in *. bool_props. lia.
Qed.

(** The digits produced: they denote the number, and are at most as many as
    its bits. *)
Lemma digits_spec fuel z acc :
  (0 <= z < 2 ^ Z.of_nat fuel)%Z -> 0 < fuel ->
  exists ds, digits fuel z acc = ds ++ acc /\ undec ds = z
    /\ Forall (fun c => is_digit c = true) ds /\ ds <> []
    /\ ((0 < z)%Z -> head ds <> Some (digit 0)).
Proof.
  revert z acc; induction fuel as [|fuel IH]; intros z acc Hz Hf; [lia|].
  cbn [digits]. pose proof (Z.mod_pos_bound z 10 eq_refl) as Hm.
  pose proof (Z.div_mod z 10 ltac:(lia)) as Hd.
  destruct (Z.eqb_spec (z / 10) 0) as [H0|H0].
  - exists [digit (z mod 10)]. split_and!; [done | | | done |].
    + unfold undec. cbn [fold_left]. rewrite undigit_digit by done. lia.
    + constructor; [by apply is_digit_digit | constructor].
    + intros Hp. cbn. intros [= E]. apply (f_equal undigit) in E.
      rewrite !undigit_digit in E by lia. lia.
  - assert (0 <= z / 10)%Z by (apply Z.div_pos; lia).
    rewrite Nat2Z.inj_succ, Z.pow_succ_r in Hz by lia.
    destruct (IH (z / 10)%Z (digit (z mod 10) :: acc)) as (ds & E & Hu & Hds & Hne & Hh).
    { split; [done|]. lia. }
    { destruct fuel; [simpl in *; lia | lia]. }
    exists (ds ++ [digit (z mod 10)]). split_and!.
    + by rewrite E, <- app_assoc.
    + rewrite undec_app, Hu. unfold undec at 1. cbn [fold_left length].
      rewrite undigit_digit by done. lia.
    + apply Forall_app. split; [done|]. constructor; [by apply is_digit_digit | constructor].
    + by destruct ds.
    + intros _. destruct ds; [done|]. cbn in *. apply Hh. lia.
Qed.

Lemma dec_spec z :
  (0 <= z)%Z -> undec (dec z) = z /\ Forall (fun c => is_digit c = true) (dec z)
                /\ dec z <> [] /\ ((0 < z)%Z -> head (dec z) <> Some (digit 0)).
Proof.
  intros Hz. unfold dec. destruct (digits_spec (dec_fuel z) z []) as (ds & E & H); [|unfold dec_fuel; lia|].
  - unfold dec_fuel. rewrite Nat2Z.inj_succ, Z2Nat.id by apply Z.log2_nonneg.
    split; [done|]. destruct (Z.eq_dec z 0) as [->|]; [done|].
    apply Z.log2_spec. lia.
  - by rewrite E, app_nil_r.
Qed.

Lemma digits_length fuel z acc n :
  (0 <= z < 10 ^ Z.of_nat n)%Z -> 0 < n -> length (digits fuel z acc) <= n + length acc.
Proof.
  revert z acc n; induction fuel as [|fuel IH]; intros z acc n Hz Hn; cbn [digits]; [lia|].
  destruct (Z.eqb_spec (z / 10) 0); [simpl; lia|].
  destruct n as [|[|n]]; [lia | |].
  - change (10 ^ Z.of_nat 1)%Z with 10%Z in Hz. rewrite Z.div_small in * by lia. lia.
  - etransitivity; [apply (IH _ _ (S n)); [|lia] | simpl; lia].
    rewrite Nat2Z.inj_succ, Z.pow_succ_r in Hz by lia. split; [apply Z.div_pos; lia|].
    apply Z.div_lt_upper_bound; lia.
Qed.

Lemma dec_length n z : (0 <= z < 10 ^ Z.of_nat n)%Z -> 0 < n -> length (dec z) <= n.
Proof. intros Hz Hn. unfold dec. pose proof (digits_length (dec_fuel z) z [] n Hz Hn). simpl in *. lia. Qed.

Lemma fmt_d_length n z : (0 <= z < 10 ^ Z.of_nat n)%Z -> 0 < n -> length (fmt_d z) <= n.
Proof. intros Hz Hn. unfold fmt_d. rewrite (proj2 (Z.ltb_ge z 0)) by lia. by apply dec_length. Qed.

Lemma dec_inj x y : (0 <= x)%Z -> (0 <= y)%Z -> dec x = dec y -> x = y.
Proof.
  intros Hx Hy E. destruct (dec_spec x Hx) as [Ex _]. destruct (dec_spec y Hy) as [Ey _].
  congruence.
Qed.

Lemma dec_not_in z c : (0 <= z)%Z -> is_digit c = false -> c ∉ dec z.
Proof.
  intros Hz Hc Hin. destruct (dec_spec z Hz) as (_ & Hd & _).
  rewrite Forall_forall in Hd. rewrite (Hd _ Hin) in Hc. done.
Qed.

(** ** [double] *)
Abbreviation double := spec_float.

Definition double_mul (x y : double) : double := SFmul 53 1024 x y.
Definition double_div (x y : double) : double := SFdiv 53 1024 x y.
Definition double_gt (x y : double) : bool := SFltb y x.
Definition double_of_Z (z : Z) : double := binary_normalize 53 1024 z 0 false.

(** [static_cast<int64_t>(x)]: truncation toward zero; a value out of range,
    an infinity or a NaN is undefined behaviour. *)
Definition trunc (x : double) : option Z :=
  match x with
  | S754_zero _ => Some 0%Z
  | S754_finite s m e =>
      let a := if (0 <=? e)%Z then (Zpos m * 2 ^ e)%Z else (Zpos m / 2 ^ (- e))%Z in
      Some (if s then (- a)%Z else a)
  | _ => None
  end.

Definition int64_fits (z : Z) : bool := (- 2 ^ 63 <=? z)%Z && (z <? 2 ^ 63)%Z.

(** The value of a signed 64 bit expression, which must not overflow. *)
Definition checked64 (z : Z) : res Z := if int64_fits z then Ok z else Fault Overflow.

Definition int64_of_double (x : double) : res Z :=
  z ← get_ Overflow (trunc x); checked64 z.

Lemma checked64_ok z r : checked64 z = Ok r <-> r = z /\ (- 2 ^ 63 <= z < 2 ^ 63)%Z.
Proof.
  unfold checked64, int64_fits. split.
  - case_if; [|done]. intros [= <-]. bool_props. auto.
  - intros [-> [H1 H2]]. by rewrite (proj2 (Z.leb_le _ _) H1), (proj2 (Z.ltb_lt _ _) H2).
Qed.
