(* ===== verification/Timestamp.v ===== *)
(** * Time stamps: [src/msmuduo/base/Timestamp.h], [Timestamp.cpp]

    A [Timestamp] is its [microSecondsSinceEpoch_], a signed 64 bit integer. *)
From S2P Require Import Prelude.
From S2P Require Import Endian.
From S2P Require Import StdContainers.
From S2P Require Import Format.

Abbreviation Timestamp := Z.

Definition kMicroSecondsPerSecond : Z := 1000 * 1000.

Definition invalid : Timestamp := 0.
Definition valid (t : Timestamp) : bool := (0 <? t)%Z.
Definition secondsSinceEpoch (t : Timestamp) : Z := Z.quot t kMicroSecondsPerSecond.
Definition swap_Timestamp (t that : Timestamp) : Timestamp * Timestamp := (that, t).

(** [Timestamp::fromUnixTime(time_t t, int microseconds)]. *)
Definition fromUnixTime (t microseconds : Z) : res Timestamp :=
  checked64 (t * kMicroSecondsPerSecond + microseconds).

Definition Timestamp_lt (lhs rhs : Timestamp) : bool := (lhs <? rhs)%Z.
Definition Timestamp_eq (lhs rhs : Timestamp) : bool := (lhs =? rhs)%Z.

Definition timeDifference (high low : Timestamp) : res double :=
  diff ← checked64 (high - low);
  Ok (double_div (double_of_Z diff) (double_of_Z kMicroSecondsPerSecond)).

Definition addTime (timestamp : Timestamp) (seconds : double) : res Timestamp :=
  delta ← int64_of_double (double_mul seconds (double_of_Z kMicroSecondsPerSecond));
  checked64 (timestamp + delta).

(** [Timestamp::toString]: ["%" PRId64 ".%06" PRId64] into a 32 byte array. *)
Definition toString (t : Timestamp) : bytes :=
  let seconds := Z.quot t kMicroSecondsPerSecond in
  let microseconds := Z.rem t kMicroSecondsPerSecond in
  snprintf 31 (fmt_d seconds ++ str "." ++ fmt_0d 6 microseconds).

(** [Timestamp::now]: the [timeval] is the clock's answer. *)
Definition now (tv_sec tv_usec : Z) : res Timestamp :=
  checked64 (tv_sec * kMicroSecondsPerSecond + tv_usec).

(** ** Local time

    [localtime] belongs to the C library. *)

(** [struct tm]. *)
Record tm := mkTm { tm_year : Z; tm_mon : Z; tm_mday : Z; tm_hour : Z; tm_min : Z; tm_sec : Z }.

(** [%4d], [%5d]: padded with blanks. *)
Definition fmt_pad (w : nat) (z : Z) : bytes := replicate (w - length (fmt_d z)) " "%char ++ fmt_d z.

(** ["%4d%02d%02d %02d:%02d:%02d"]. *)
Definition time_text (t : tm) : bytes :=
  fmt_pad 4 (tm_year t + 1900) ++ fmt_0d 2 (tm_mon t + 1) ++ fmt_0d 2 (tm_mday t) ++ str " "
  ++ fmt_0d 2 (tm_hour t) ++ str ":" ++ fmt_0d 2 (tm_min t) ++ str ":" ++ fmt_0d 2 (tm_sec t).

Definition toFormattedString `{Platform} (localtime : Z -> tm) (showMicroseconds : bool) (t : Timestamp) : res bytes :=
  let seconds := Z.quot t kMicroSecondsPerSecond in
  let tm_time := localtime seconds in
  if showMicroseconds then
    let microseconds := Z.rem t kMicroSecondsPerSecond in
    snprintf_z 32 (time_text tm_time ++ str "." ++ fmt_0d 6 microseconds)
  else snprintf_z 32 (time_text tm_time).

(** Half a second and the retry delays are what they read as. *)
Example addTime_half : addTime 1000 (double_div (double_of_Z 1) (double_of_Z 2)) = Ok 501000%Z.
Proof. vm_compute. reflexivity. Qed.

Lemma addTime_ok t s r :
  addTime t s = Ok r ->
  exists d, int64_of_double (double_mul s (double_of_Z kMicroSecondsPerSecond)) = Ok d
    /\ r = (t + d)%Z.
Proof.
  unfold addTime. intros H. inv_res. apply checked64_ok in H as [-> _]. eauto.
Qed.

Lemma fmt_0d_nonneg w z :
  (0 <= z)%Z -> fmt_0d w z = replicate (w - length (dec z)) (digit 0) ++ dec z.
Proof.
  intros Hz. unfold fmt_0d. rewrite (proj2 (Z.ltb_ge z 0) Hz), Z.abs_eq by done.
  cbn [length app]. by rewrite Nat.sub_0_r.
Qed.

Lemma undec_zeros n l : undec (replicate n (digit 0) ++ l) = undec l.
Proof.
  rewrite undec_app. enough (undec (replicate n (digit 0)) = 0%Z) as -> by lia.
  unfold undec. induction n as [|n IH]; simpl; [done|]. exact IH.
Qed.

(** The digits of a number below 10^w fit the width. *)
Lemma length_dec_lt z w :
  (0 <= z < 10 ^ Z.of_nat w)%Z -> 0 < w -> length (dec z) <= w.
Proof.
  intros Hz Hw. destruct (dec_spec z) as (Hu & Hd & Hne & Hh); [lia|].
  destruct (Z.eq_dec z 0) as [->|Hz0]; [change (dec 0) with [digit 0]; simpl; lia|].
  destruct (decide (length (dec z) <= w)) as [|Hn]; [done|]. exfalso.
  destruct (dec z) as [|c l] eqn:E; [done|]. simpl in Hn.
  change (c :: l) with ([c] ++ l) in Hu. rewrite undec_app in Hu.
  apply Forall_cons in Hd as [Hc Hl].
  assert (Hle : (0 <= undec l)%Z).
  { by apply undec_nonneg. }
  assert (Hpos : (1 <= undec [c])%Z).
  { unfold undec, undigit. cbn [fold_left]. unfold is_digit in Hc. bool_props.
    destruct (Z.eq_dec (Z_of_char c) 48) as [E48|]; [|lia]. exfalso.
    apply Hh; [lia|]. simpl. f_equal. apply Z_of_char_inj. rewrite E48. done. }
  assert (10 ^ Z.of_nat w <= 10 ^ Z.of_nat (length l))%Z by (apply Z.pow_le_mono_r; lia).
  nia.
Qed.

(** [toString] of a non-negative time stamp is the seconds, a point
    and exactly six digits of microseconds: both parts read back as the parts
    of the time stamp, and nothing is cut off by the 32 byte array. *)
Theorem toString_reads_back t :
  (0 <= t < 2 ^ 63)%Z ->
  exists secs micros, toString t = secs ++ str "." ++ micros
    /\ length micros = 6
    /\ (undec secs * kMicroSecondsPerSecond + undec micros)%Z = t.
Proof.
  intros Ht. set (s := (t / kMicroSecondsPerSecond)%Z).
  set (m := (t mod kMicroSecondsPerSecond)%Z).
  assert (Hs : (0 <= s < 10 ^ Z.of_nat 13)%Z).
  { unfold s, kMicroSecondsPerSecond. split; [apply Z.div_pos; lia|].
    apply Z.div_lt_upper_bound; [lia|]. simpl. lia. }
  assert (Hm : (0 <= m < 10 ^ Z.of_nat 6)%Z) by (apply Z.mod_pos_bound; done).
  assert (Ls : length (dec s) <= 13) by (apply length_dec_lt; lia).
  assert (Lm : length (dec m) <= 6) by (apply length_dec_lt; lia).
  exists (dec s), (fmt_0d 6 m). unfold toString.
  rewrite Z.quot_div_nonneg, Z.rem_mod_nonneg by (unfold kMicroSecondsPerSecond; lia).
  fold s m. unfold fmt_d at 1. rewrite (proj2 (Z.ltb_ge s 0)) by lia.
  rewrite fmt_0d_nonneg by lia. split_and!.
  - unfold snprintf. rewrite take_ge; [done|].
    rewrite !length_app, length_replicate. simpl. lia.
  - rewrite length_app, length_replicate. lia.
  - rewrite undec_zeros. destruct (dec_spec s) as [-> _]; [lia|].
    destruct (dec_spec m) as [-> _]; [lia|]. unfold s, m.
    pose proof (Z.div_mod t kMicroSecondsPerSecond). unfold kMicroSecondsPerSecond in *. lia.
Qed.

Lemma toString_reads_back_witness :
  (0 <= 1470469212286007 < 2 ^ 63)%Z
  /\ exists secs micros, toString 1470469212286007 = secs ++ str "." ++ micros.
Proof.
  assert (H : (0 <= 1470469212286007 < 2 ^ 63)%Z) by (split; [discriminate | reflexivity]).
  split; [exact H|]. destruct (toString_reads_back _ H) as (s & m & E & _).
  exists s, m. exact E.
Defined.

Lemma length_fmt_pad w z : length (fmt_d z) <= w -> length (fmt_pad w z) = w.
Proof. intros Hl. unfold fmt_pad. len. Qed.

Lemma length_fmt_0d w z : 0 < w -> (0 <= z < 10 ^ Z.of_nat w)%Z -> length (fmt_0d w z) = w.
Proof.
  intros Hw Hz. pose proof (length_dec_lt z w Hz Hw). rewrite fmt_0d_nonneg by lia. len.
Qed.

(** What [localtime] gives: the year has at most four digits. *)
Definition tm_ok (t : tm) : Prop :=
  (0 <= tm_year t + 1900 < 10000)%Z /\ (0 <= tm_mon t < 12)%Z /\ (1 <= tm_mday t <= 31)%Z
  /\ (0 <= tm_hour t < 24)%Z /\ (0 <= tm_min t < 60)%Z /\ (0 <= tm_sec t <= 60)%Z.

Lemma length_time_text t : tm_ok t -> length (time_text t) = 17.
Proof.
  intros (Hy & Hm & Hd & Hh & Hi & Hs). unfold time_text. rewrite !length_app.
  pose proof (fmt_d_length 4 (tm_year t + 1900) ltac:(lia) ltac:(lia)).
  rewrite length_fmt_pad, !length_fmt_0d by lia. reflexivity.
Qed.

(** The formatted text has its 17 characters, and 7 for the microseconds; it
    is never cut off. *)
Lemma toFormattedString_text `{Platform} localtime show t :
  (0 <= t)%Z -> (forall s, tm_ok (localtime s)) ->
  exists text, toFormattedString localtime show t = Ok text /\ length text = (if show then 24 else 17)
    /\ take 17 text = time_text (localtime (t / kMicroSecondsPerSecond)%Z)
    /\ (show = true -> undec (drop 18 text) = (t mod kMicroSecondsPerSecond)%Z).
Proof.
  intros Ht Hl. unfold toFormattedString.
  rewrite Z.quot_div_nonneg, Z.rem_mod_nonneg by (unfold kMicroSecondsPerSecond; lia).
  pose proof (length_time_text _ (Hl (t / kMicroSecondsPerSecond)%Z)) as H17.
  set (m := (t mod kMicroSecondsPerSecond)%Z). set (tt := time_text _) in *.
  assert (Hm : (0 <= m < 10 ^ Z.of_nat 6)%Z) by (apply Z.mod_pos_bound; done).
  pose proof (length_fmt_0d 6 m ltac:(lia) Hm) as H6. destruct show.
  - eexists. split; [apply snprintf_z_fits; rewrite !length_app, H17, H6; simpl; lia|]. split_and!.
    + rewrite !length_app, H17, H6. reflexivity.
    + by rewrite take_app_length'.
    + intros _. rewrite app_assoc, drop_app_length' by (rewrite length_app, H17; reflexivity).
      rewrite fmt_0d_nonneg, undec_zeros by lia. by destruct (dec_spec m) as [-> _]; [lia|].
  - eexists. split; [apply snprintf_z_fits; lia|]. split_and!; [done|by rewrite take_ge by lia|done].
Qed.
