(* ===== verification/Atomic.v ===== *)
(** * Atomic integers: [src/msmuduo/base/Atomic.h]

    [AtomicIntegerT<T>] holds a [volatile LONG] whatever [T] is: 32 bits
    under Windows, also for [AtomicInt64]. Each operation returns its result
    and the new value; the interlocked functions wrap around. *)
From S2P Require Import Prelude.

Record AtomicInteger := mkAtomicInteger { value_ : Z }.

Definition new_AtomicInteger : AtomicInteger := mkAtomicInteger 0.
Definition atomic_get (a : AtomicInteger) : Z := value_ a.
Definition getAndAdd (x : Z) (a : AtomicInteger) : Z * AtomicInteger :=
  (value_ a, mkAtomicInteger (wrapS 32 (value_ a + x))).
Definition addAndGet (x : Z) (a : AtomicInteger) : Z * AtomicInteger :=
  let '(r, a) := getAndAdd x a in (wrapS 32 (r + x), a).
Definition incrementAndGet (a : AtomicInteger) : Z * AtomicInteger := addAndGet 1 a.
Definition decrementAndGet (a : AtomicInteger) : Z * AtomicInteger := addAndGet (-1) a.
Definition atomic_add (x : Z) (a : AtomicInteger) : AtomicInteger := (getAndAdd x a).2.
Definition atomic_increment (a : AtomicInteger) : AtomicInteger := (incrementAndGet a).2.
Definition atomic_decrement (a : AtomicInteger) : AtomicInteger := (decrementAndGet a).2.
Definition getAndSet (newValue : Z) (a : AtomicInteger) : Z * AtomicInteger :=
  (value_ a, mkAtomicInteger newValue).

(** The value returned is the value stored. *)
Lemma addAndGet_value x a : (addAndGet x a).1 = value_ (addAndGet x a).2.
Proof. reflexivity. Qed.

(** n increments of a fresh counter. *)
Fixpoint increments (n : nat) (a : AtomicInteger) : list Z * AtomicInteger :=
  match n with
  | O => ([], a)
  | S n => let '(r, a) := incrementAndGet a in
           let '(l, a) := increments n a in (r :: l, a)
  end.
