(* ===== verification/TimerQueue.v ===== *)
(** * Timers: [src/msmuduo/net/Timer.h], [Timer.cpp], [TimerId.h],
    [TimerQueue.h], [TimerQueue.cpp]

    Timer objects live in a heap from addresses to objects, so that the raw
    [Timer*] of the code can dangle: using a freed one is a
    [Fault NullDeref]. [timers_] is a [std::set] of pairs ordered by
    expiration and address. The functions are the bodies that run in the loop
    thread. What a user callback does is a list of commands; the allocator and
    the answers of the operating system are inputs. *)
From S2P Require Import Prelude.
From S2P Require Import Endian.
From S2P Require Import StdContainers.
From S2P Require Import Format.
From S2P Require Import Timestamp.
From S2P Require Import Atomic.

Definition UINTPTR_MAX : Z := 2 ^ 64 - 1.

Section TimerQueue.
Context {Cb : Type}.

Record Timer := mkTimer {
  callback_ : Cb;
  expiration_ : Timestamp;
  interval_ : double;
  repeat_ : bool;
  sequence_ : Z
}.

Definition double_zero : double := double_of_Z 0.

(** The constructor; the sequence number is the incremented counter. *)
Definition new_Timer (cb : Cb) (when : Timestamp) (interval : double)
    (s_numCreated : AtomicInteger) : Timer * AtomicInteger :=
  let '(seq, n) := incrementAndGet s_numCreated in
  (mkTimer cb when interval (double_gt interval double_zero) seq, n).

Definition restart (now : Timestamp) (t : Timer) : res Timer :=
  if repeat_ t
  then e ← addTime now (interval_ t);
       Ok (mkTimer (callback_ t) e (interval_ t) (repeat_ t) (sequence_ t))
  else Ok (mkTimer (callback_ t) invalid (interval_ t) (repeat_ t) (sequence_ t)).

Record TimerId := mkTimerId { timer_ : Z; id_sequence_ : Z }.

Abbreviation Entry := (Timestamp * Z)%type.
Abbreviation ActiveTimer := (Z * Z)%type.

(** [hTimer_] is a handle (0 is NULL) into the timers armed in the
    operating system, which map a handle to its due time in milliseconds;
    [timerfd_] is the value armed in the Linux timer descriptor. *)
Record TimerQueue := mkTimerQueue {
  heap : gmap Z Timer;
  s_numCreated_ : AtomicInteger;
  timers_ : list Entry;
  activeTimers_ : gset ActiveTimer;
  callingExpiredTimers_ : bool;
  cancelingTimers_ : gset ActiveTimer;
  hTimer_ : Z;
  os_timers : gmap Z Z;
  timerfd_ : option (Z * Z)
}.

Definition new_TimerQueue : TimerQueue :=
  mkTimerQueue ∅ new_AtomicInteger [] ∅ false ∅ 0 ∅ None.

Definition set_heap h q := mkTimerQueue h (s_numCreated_ q) (timers_ q) (activeTimers_ q)
  (callingExpiredTimers_ q) (cancelingTimers_ q) (hTimer_ q) (os_timers q) (timerfd_ q).
Definition set_numCreated n q := mkTimerQueue (heap q) n (timers_ q) (activeTimers_ q)
  (callingExpiredTimers_ q) (cancelingTimers_ q) (hTimer_ q) (os_timers q) (timerfd_ q).
Definition set_timers l s q := mkTimerQueue (heap q) (s_numCreated_ q) l s
  (callingExpiredTimers_ q) (cancelingTimers_ q) (hTimer_ q) (os_timers q) (timerfd_ q).
Definition set_calling b q := mkTimerQueue (heap q) (s_numCreated_ q) (timers_ q)
  (activeTimers_ q) b (cancelingTimers_ q) (hTimer_ q) (os_timers q) (timerfd_ q).
Definition set_canceling s q := mkTimerQueue (heap q) (s_numCreated_ q) (timers_ q)
  (activeTimers_ q) (callingExpiredTimers_ q) s (hTimer_ q) (os_timers q) (timerfd_ q).
Definition set_os h o f q := mkTimerQueue (heap q) (s_numCreated_ q) (timers_ q)
  (activeTimers_ q) (callingExpiredTimers_ q) (cancelingTimers_ q) h o f.

(** ** Arming the timer of the operating system *)

(** The clock, whether [DeleteTimerQueueTimer] succeeds, and the handle
    [CreateTimerQueueTimer] returns, if it succeeds. *)
Record os_answer := mkOs { os_now : Timestamp; os_delete : bool; os_create : option Z }.

(** The delay the timer is armed with: at least 100 microseconds. *)
Definition delay (expiration now : Timestamp) : Z :=
  let microseconds := (expiration - now)%Z in
  if (microseconds <? 100)%Z then 100%Z else microseconds.

Definition howMuchTimeFromNow (when now : Timestamp) : Z * Z :=
  let microseconds := delay when now in
  (Z.quot microseconds kMicroSecondsPerSecond,
   (Z.rem microseconds kMicroSecondsPerSecond * 1000)%Z).

(** [(DWORD)microseconds / 1000]: the cast to 32 bits comes first. *)
Definition dueTime (expiration now : Timestamp) : Z :=
  (wrapU 32 (delay expiration now) / 1000)%Z.

Definition resetTimerWin (expiration : Timestamp) (os : os_answer) (q : TimerQueue) : TimerQueue :=
  let due := dueTime expiration (os_now os) in
  let '(h, o) :=
    if (hTimer_ q =? 0)%Z then (hTimer_ q, os_timers q)
    else if os_delete os then (hTimer_ q, delete (hTimer_ q) (os_timers q))
    else (0%Z, os_timers q) in
  match os_create os with
  | Some handle => set_os handle (<[handle := due]> o) (timerfd_ q) q
  | None => set_os h o (timerfd_ q) q
  end.

Definition resetTimerfd (expiration : Timestamp) (os : os_answer) (q : TimerQueue) : TimerQueue :=
  set_os (hTimer_ q) (os_timers q) (Some (howMuchTimeFromNow expiration (os_now os))) q.

Definition resetTimer `{Platform} (expiration : Timestamp) (os : os_answer) (q : TimerQueue) :=
  if win then resetTimerWin expiration os q else resetTimerfd expiration os q.

(** ** Insertion and cancellation *)

Definition sizes_agree (q : TimerQueue) : bool :=
  length (timers_ q) =? size (activeTimers_ q).

Definition insert_timer (timer : Z) (q : TimerQueue) : res (bool * TimerQueue) :=
  assert_ (sizes_agree q);;
  t ← get_ NullDeref (heap q !! timer);
  let when := expiration_ t in
  let earliestChanged :=
    match timers_ q with
    | [] => true
    | (first, _) :: _ => Timestamp_lt when first
    end in
  let '(l, inserted) := set_insert (when, timer) (timers_ q) in
  assert_ inserted;;
  let key := (timer, sequence_ t) in
  assert_ (bool_decide (key ∉ activeTimers_ q));;
  let q := set_timers l ({[key]} ∪ activeTimers_ q) q in
  assert_ (sizes_agree q);;
  Ok (earliestChanged, q).

Definition addTimerInLoop `{Platform} (timer : Z) (os : os_answer) (q : TimerQueue)
    : res TimerQueue :=
  '(earliestChanged, q) ← insert_timer timer q;
  if earliestChanged : bool
  then t ← get_ NullDeref (heap q !! timer);
       Ok (resetTimer (expiration_ t) os q)
  else Ok q.

(** [addTimer]: [new Timer], then [runInLoop(addTimerInLoop)]. *)
Definition alloc_timer (addr : option Z) (cb : Cb) (when : Timestamp) (interval : double)
    (q : TimerQueue) : res (TimerId * TimerQueue) :=
  a ← get_ BadAlloc addr;
  let '(t, n) := new_Timer cb when interval (s_numCreated_ q) in
  Ok (mkTimerId a (sequence_ t), set_numCreated n (set_heap (<[a := t]> (heap q)) q)).

Definition cancelInLoop (id : TimerId) (q : TimerQueue) : res TimerQueue :=
  assert_ (sizes_agree q);;
  let key := (timer_ id, id_sequence_ id) in
  q ← (if bool_decide (key ∈ activeTimers_ q)
       then
         t ← get_ NullDeref (heap q !! timer_ id);
         let '(l, n) := set_erase (expiration_ t, timer_ id) (timers_ q) in
         assert_ (n =? 1);;
         Ok (set_timers l (activeTimers_ q ∖ {[key]})
               (set_heap (delete (timer_ id) (heap q)) q))
       else if callingExpiredTimers_ q
       then Ok (set_canceling ({[key]} ∪ cancelingTimers_ q) q)
       else Ok q);
  assert_ (sizes_agree q);;
  Ok q.

(** ** Expiry *)

(** [activeTimers_.erase(timer)] for each expired entry. *)
Fixpoint erase_active (h : gmap Z Timer) (expired : list Entry) (s : gset ActiveTimer)
    : res (gset ActiveTimer) :=
  match expired with
  | [] => Ok s
  | (_, a) :: expired =>
      t ← get_ NullDeref (h !! a);
      assert_ (bool_decide ((a, sequence_ t) ∈ s));;
      erase_active h expired (s ∖ {[(a, sequence_ t)]})
  end.

Definition getExpired (now : Timestamp) (q : TimerQueue) : res (list Entry * TimerQueue) :=
  assert_ (sizes_agree q);;
  let sentry := (now, UINTPTR_MAX) in
  let '(expired, rest) := lower_bound sentry (timers_ q) in
  assert_ (match rest with [] => true | (w, _) :: _ => Timestamp_lt now w end);;
  s ← erase_active (heap q) expired (activeTimers_ q);
  let q := set_timers rest s q in
  assert_ (sizes_agree q);;
  Ok (expired, q).

(** The loop of [reset]: repeating timers that were not cancelled are
    restarted and inserted again, the others are deleted. *)
Fixpoint reset_loop (expired : list Entry) (now : Timestamp) (q : TimerQueue) : res TimerQueue :=
  match expired with
  | [] => Ok q
  | (_, a) :: expired =>
      t ← get_ NullDeref (heap q !! a);
      q ← (if repeat_ t && bool_decide ((a, sequence_ t) ∉ cancelingTimers_ q)
           then t ← restart now t;
                '(_, q) ← insert_timer a (set_heap (<[a := t]> (heap q)) q);
                Ok q
           else Ok (set_heap (delete a (heap q)) q));
      reset_loop expired now q
  end.

Definition reset `{Platform} (expired : list Entry) (now : Timestamp) (os : os_answer)
    (q : TimerQueue) : res TimerQueue :=
  q ← reset_loop expired now q;
  nextExpire ← match timers_ q with
               | [] => Ok invalid
               | (_, a) :: _ => t ← get_ NullDeref (heap q !! a); Ok (expiration_ t)
               end;
  if valid nextExpire then Ok (resetTimer nextExpire os q) else Ok q.

(** What a callback may do to the queue from inside the loop thread:
    [runAt]/[runEvery] and [cancel], which [runInLoop] executes at once. *)
Inductive timer_cmd :=
  | CmdAdd (cb : Cb) (when : Timestamp) (interval : double) (os : os_answer)
  | CmdCancel (id : TimerId).

Section Allocator.
(** The allocator: an address for a new object, if there is one. *)
Context (alloc : gmap Z Timer -> option Z).

Definition exec_cmd `{Platform} (c : timer_cmd) (q : TimerQueue) : res TimerQueue :=
  match c with
  | CmdAdd cb when interval os =>
      '(id, q) ← alloc_timer (alloc (heap q)) cb when interval q;
      addTimerInLoop (timer_ id) os q
  | CmdCancel id => cancelInLoop id q
  end.

Fixpoint exec_cmds `{Platform} (cs : list timer_cmd) (q : TimerQueue) : res TimerQueue :=
  match cs with
  | [] => Ok q
  | c :: cs => q ← exec_cmd c q; exec_cmds cs q
  end.

(** The user callbacks, which may look at the queue. *)
Context (user : Cb -> TimerQueue -> list timer_cmd).

(** [it->second->run()] for each expired entry; the log collects the
    sequence numbers of the timers run. *)
Fixpoint run_expired `{Platform} (expired : list Entry) (q : TimerQueue) (log : list Z)
    : res (TimerQueue * list Z) :=
  match expired with
  | [] => Ok (q, log)
  | (_, a) :: expired =>
      t ← get_ NullDeref (heap q !! a);
      q ← exec_cmds (user (callback_ t) q) q;
      run_expired expired q (log ++ [sequence_ t])
  end.

Definition handleRead `{Platform} (now : Timestamp) (os : os_answer) (q : TimerQueue)
    : res (TimerQueue * list Z) :=
  '(expired, q) ← getExpired now q;
  let q := set_canceling ∅ (set_calling true q) in
  '(q, log) ← run_expired expired q [];
  let q := set_calling false q in
  q ← reset expired now os q;
  Ok (q, log).
End Allocator.
End TimerQueue.
Arguments Timer : clear implicits.
Arguments TimerQueue : clear implicits.
Arguments timer_cmd : clear implicits.
