(* ===== verification/TimerQueueFacts.v ===== *)
(** * Correctness of the timer queue

    The invariant relating the heap of [Timer] objects to [timers_] and
    [activeTimers_], its preservation by every operation, memory safety, what
    an expiry runs and in which order, and what cancelling does. *)
From S2P Require Import Prelude.
From S2P Require Import Endian.
From S2P Require Import StdContainers.
From S2P Require Import Format.
From S2P Require Import Timestamp.
From S2P Require Import Atomic.
From S2P Require Import TimerQueue.

Section Facts.
Context {Cb : Type}.
Implicit Types (q : TimerQueue Cb) (D : list Z).

(** [D] lists the detached timers: the objects that are in neither set
    (expired and being processed, or allocated and not inserted yet). Every
    other object is in both sets, under its expiration and its sequence
    number, and the sets hold nothing else. *)
Record tq_inv D q : Prop := {
  ti_sorted : sorted (timers_ q);
  ti_timers : forall w a, (w, a) ∈ timers_ q <->
    exists t, heap q !! a = Some t /\ expiration_ t = w /\ a ∉ D;
  ti_active : forall a s, (a, s) ∈ activeTimers_ q <->
    exists t, heap q !! a = Some t /\ sequence_ t = s /\ a ∉ D;
  ti_size : length (timers_ q) = size (activeTimers_ q);
  ti_addr : forall a t, heap q !! a = Some t -> (0 < a < UINTPTR_MAX)%Z;
  ti_nodup : NoDup D;
  ti_live : forall a, a ∈ D -> is_Some (heap q !! a)
}.

Lemma new_TimerQueue_inv : tq_inv [] (@new_TimerQueue Cb).
Proof.
  split; simpl; try done; try constructor; try set_solver.
Qed.

Lemma tq_inv_frame D q q' :
  heap q' = heap q -> timers_ q' = timers_ q -> activeTimers_ q' = activeTimers_ q ->
  tq_inv D q -> tq_inv D q'.
Proof. intros H1 H2 H3 []. split; rewrite ?H1, ?H2, ?H3; done. Qed.

Lemma tq_inv_perm D D' q : D' ≡ₚ D -> tq_inv D q -> tq_inv D' q.
Proof.
  intros Hp []. split; try done.
  - intros w a. rewrite ti_timers0. by setoid_rewrite Hp.
  - intros a s. rewrite ti_active0. by setoid_rewrite Hp.
  - by rewrite Hp.
  - intros a. rewrite Hp. apply ti_live0.
Qed.

Lemma resetTimer_frame `{Platform} e os q :
  heap (resetTimer e os q) = heap q
  /\ timers_ (resetTimer e os q) = timers_ q
  /\ activeTimers_ (resetTimer e os q) = activeTimers_ q
  /\ callingExpiredTimers_ (resetTimer e os q) = callingExpiredTimers_ q
  /\ cancelingTimers_ (resetTimer e os q) = cancelingTimers_ q.
Proof.
  unfold resetTimer, resetTimerWin, resetTimerfd. destruct win; [|done].
  destruct (hTimer_ q =? 0)%Z, (os_delete os), (os_create os); done.
Qed.

Lemma sizes_agree_true D q : tq_inv D q -> sizes_agree q = true.
Proof. intros []. unfold sizes_agree. by apply Nat.eqb_eq. Qed.

(** What every operation leaves alone. *)
Definition same_flags q q' : Prop :=
  callingExpiredTimers_ q' = callingExpiredTimers_ q
  /\ cancelingTimers_ q ⊆ cancelingTimers_ q'.

(** Inserting a detached timer attaches it. *)
Lemma insert_timer_inv F a D q :
  tq_inv (a :: D) q ->
  wp F (insert_timer a q) (fun r =>
    tq_inv D r.2 /\ heap r.2 = heap q /\ cancelingTimers_ r.2 = cancelingTimers_ q
    /\ callingExpiredTimers_ r.2 = callingExpiredTimers_ q).
Proof.
  intros Hi. pose proof Hi as [Hs Ht Ha Hsz Had Hnd Hl].
  apply NoDup_cons in Hnd as [HaD Hnd].
  unfold insert_timer. apply wp_bind, wp_assert; [by eapply sizes_agree_true|].
  destruct (Hl a) as [t Ht']; [set_solver|].
  eapply wp_bind, wp_get; [exact Ht'|].
  assert (Hn : (expiration_ t, a) ∉ timers_ q).
  { rewrite Ht. intros (u & _ & _ & Hnot). set_solver. }
  assert (Hk : (a, sequence_ t) ∉ activeTimers_ q).
  { rewrite Ha. intros (u & _ & _ & Hnot). set_solver. }
  destruct (set_insert_new _ _ Hs Hn) as [H1 H2].
  pose proof (elem_of_set_insert (expiration_ t, a)) as He.
  pose proof (set_insert_sorted (expiration_ t, a) _ Hs) as Hs'.
  specialize (fun y => He y (timers_ q)).
  destruct (set_insert (expiration_ t, a) (timers_ q)) as [l b]. simpl in *. subst b.
  apply wp_bind, wp_assert; [done|]. apply wp_bind, wp_assert; [by apply bool_decide_eq_true|].
  assert (Hsz' : length l = size ({[(a, sequence_ t)]} ∪ activeTimers_ q)).
  { rewrite size_union by set_solver. rewrite size_singleton. lia. }
  apply wp_bind, wp_assert; [by apply Nat.eqb_eq|]. simpl.
  split_and!; [|done..]. split; simpl; try done.
  - intros w b. rewrite He, Ht. split.
    + intros [[= -> ->]|(u & ? & ? & ?)]; [eauto | exists u; set_solver].
    + intros (u & Hu & <- & HbD). destruct (decide (b = a)) as [->|Hba].
      * left. congruence.
      * right. exists u. set_solver.
  - intros b s. rewrite elem_of_union, elem_of_singleton, Ha. split.
    + intros [[= -> ->]|(u & ? & ? & ?)]; [eauto | exists u; set_solver].
    + intros (u & Hu & <- & HbD). destruct (decide (b = a)) as [->|Hba].
      * left. congruence.
      * right. exists u. set_solver.
  - intros b Hb. apply Hl. set_solver.
Qed.

(** Writing a detached object. *)
Lemma set_heap_detached_inv a t D q :
  tq_inv D q -> a ∈ D -> tq_inv D (set_heap (<[a := t]> (heap q)) q).
Proof.
  intros [Hs Ht Ha Hsz Had Hnd Hl] HaD. split; simpl; try done.
  - intros w b. rewrite Ht. split; intros (u & Hu & Hw & Hb); exists u; split_and!; try done.
    + rewrite lookup_insert_ne; [done | by intros ->].
    + rewrite lookup_insert_ne in Hu; [done | by intros ->].
  - intros b s. rewrite Ha. split; intros (u & Hu & Hw & Hb); exists u; split_and!; try done.
    + rewrite lookup_insert_ne; [done | by intros ->].
    + rewrite lookup_insert_ne in Hu; [done | by intros ->].
  - intros b u. destruct (decide (b = a)) as [->|Hba].
    + intros _. destruct (Hl a HaD) as [v Hv]. by eapply Had.
    + rewrite lookup_insert_ne by done. apply Had.
  - intros b Hb. destruct (decide (b = a)) as [->|Hba];
      [rewrite lookup_insert_eq; eauto | rewrite lookup_insert_ne by done; auto].
Qed.

(** [delete] of a detached object. *)
Lemma delete_detached_inv a D q :
  tq_inv (a :: D) q -> tq_inv D (set_heap (delete a (heap q)) q).
Proof.
  intros [Hs Ht Ha Hsz Had Hnd Hl]. apply NoDup_cons in Hnd as [HaD Hnd].
  split; simpl; try done.
  - intros w b. rewrite Ht. split; intros (u & Hu & Hw & Hb); exists u.
    + rewrite lookup_delete_ne by set_solver. set_solver.
    + apply lookup_delete_Some in Hu as [Hne Hu]. set_solver.
  - intros b s. rewrite Ha. split; intros (u & Hu & Hw & Hb); exists u.
    + rewrite lookup_delete_ne by set_solver. set_solver.
    + apply lookup_delete_Some in Hu as [Hne Hu]. set_solver.
  - intros b u [_ Hu]%lookup_delete_Some. by eapply Had.
  - intros b Hb. rewrite lookup_delete_ne by (by intros ->). apply Hl. set_solver.
Qed.

(** [new Timer]: the new object is detached. *)
Lemma alloc_timer_inv F a cb w i D q :
  tq_inv D q -> heap q !! a = None -> (0 < a < UINTPTR_MAX)%Z ->
  wp F (alloc_timer (Some a) cb w i q) (fun r =>
    timer_ r.1 = a /\ tq_inv (a :: D) r.2
    /\ (forall b, b <> a -> heap r.2 !! b = heap q !! b)
    /\ (exists t, heap r.2 !! a = Some t /\ expiration_ t = w /\ callback_ t = cb
                 /\ sequence_ t = id_sequence_ r.1
                 /\ repeat_ t = double_gt i double_zero)
    /\ callingExpiredTimers_ r.2 = callingExpiredTimers_ q
    /\ cancelingTimers_ r.2 = cancelingTimers_ q).
Proof.
  intros [Hs Ht Ha Hsz Had Hnd Hl] Hf Hr. unfold alloc_timer. simpl.
  assert (HaD : a ∉ D).
  { intros HD. destruct (Hl a HD) as [t Ht']. congruence. }
  split_and!; try done; [|intros; by rewrite lookup_insert_ne | eexists; by rewrite lookup_insert_eq].
  split; simpl; try done; [| | | by apply NoDup_cons|].
  - intros w' b. rewrite Ht. split; intros (u & Hu & Hw & Hb); exists u; split_and!; try done.
    + rewrite lookup_insert_ne; [done | intros ->; congruence].
    + apply not_elem_of_cons. split; [intros ->; congruence | done].
    + rewrite lookup_insert_ne in Hu; [done | set_solver].
    + set_solver.
  - intros b s. rewrite Ha. split; intros (u & Hu & Hw & Hb); exists u; split_and!; try done.
    + rewrite lookup_insert_ne; [done | intros ->; congruence].
    + apply not_elem_of_cons. split; [intros ->; congruence | done].
    + rewrite lookup_insert_ne in Hu; [done | set_solver].
    + set_solver.
  - intros b u. destruct (decide (b = a)) as [->|Hba]; [done|].
    rewrite lookup_insert_ne by done. apply Had.
  - intros b [->|Hb]%elem_of_cons; [rewrite lookup_insert_eq; eauto|].
    destruct (decide (b = a)) as [->|]; [done|]. rewrite lookup_insert_ne by done. auto.
Qed.

Lemma addTimerInLoop_inv `{Platform} F a os D q :
  tq_inv (a :: D) q ->
  wp F (addTimerInLoop a os q) (fun q' =>
    tq_inv D q' /\ heap q' = heap q /\ cancelingTimers_ q' = cancelingTimers_ q
    /\ callingExpiredTimers_ q' = callingExpiredTimers_ q).
Proof.
  intros Hi. unfold addTimerInLoop. apply wp_bind.
  eapply wp_mono; [by apply insert_timer_inv|].
  intros [b q'] (Hi' & Hh & Hc & Hf). simpl in *. destruct b; [|done].
  destruct (ti_live _ _ Hi a) as [t Ht]; [set_solver|].
  eapply wp_bind, wp_get; [by rewrite Hh|]. simpl.
  destruct (resetTimer_frame (expiration_ t) os q') as (E1 & E2 & E3 & E4 & E5).
  split_and!; try congruence. by eapply tq_inv_frame.
Qed.

(** Cancelling: an attached timer is destroyed; any other id is only
    remembered while an expiry is being processed. *)
Lemma cancelInLoop_inv F id D q :
  tq_inv D q ->
  wp F (cancelInLoop id q) (fun q' =>
    tq_inv D q'
    /\ (forall a, a ∈ D \/ a <> timer_ id -> heap q' !! a = heap q !! a)
    /\ callingExpiredTimers_ q' = callingExpiredTimers_ q
    /\ cancelingTimers_ q ⊆ cancelingTimers_ q'
    /\ (((timer_ id, id_sequence_ id) ∈ activeTimers_ q /\ heap q' !! timer_ id = None
          /\ cancelingTimers_ q' = cancelingTimers_ q)
        \/ ((timer_ id, id_sequence_ id) ∉ activeTimers_ q /\ heap q' = heap q
            /\ timers_ q' = timers_ q
            /\ (callingExpiredTimers_ q = true ->
                (timer_ id, id_sequence_ id) ∈ cancelingTimers_ q')))).
Proof.
  intros Hi. pose proof Hi as [Hs Ht Ha Hsz Had Hnd Hl].
  unfold cancelInLoop. apply wp_bind, wp_assert; [by eapply sizes_agree_true|].
  apply wp_bind. destruct (bool_decide (_ ∈ activeTimers_ q)) eqn:Hb; bool_props.
  2:{ assert (Hcase : exists q', (if callingExpiredTimers_ q
        then Ok (set_canceling ({[(timer_ id, id_sequence_ id)]} ∪ cancelingTimers_ q) q)
        else Ok q) = Ok q' /\ heap q' = heap q /\ timers_ q' = timers_ q
        /\ activeTimers_ q' = activeTimers_ q
        /\ callingExpiredTimers_ q' = callingExpiredTimers_ q
        /\ cancelingTimers_ q ⊆ cancelingTimers_ q'
        /\ (callingExpiredTimers_ q = true ->
            (timer_ id, id_sequence_ id) ∈ cancelingTimers_ q')).
      { destruct (callingExpiredTimers_ q) eqn:Ec; eexists; split; try done; simpl;
          split_and!; try done; set_solver. }
      destruct Hcase as (q' & -> & E1 & E2 & E3 & E4 & E5 & E6). simpl.
      assert (Hi' : tq_inv D q') by (by eapply tq_inv_frame).
      apply wp_bind, wp_assert; [by eapply sizes_agree_true|]. simpl.
      split_and!; try done; [intros; by rewrite E1|]. right. done. }
  pose proof Hb as (t & Hta & Hts & HaD)%Ha. eapply wp_bind, wp_get; [exact Hta|].
  assert (Hin : (expiration_ t, timer_ id) ∈ timers_ q) by (apply Ht; eauto).
  destruct (set_erase_spec _ _ Hs Hin) as (H1 & H2 & H3 & H4).
  destruct (set_erase (expiration_ t, timer_ id) (timers_ q)) as [l n]. simpl in *. subst n.
  apply wp_bind, wp_assert; [done|]. simpl.
  assert (Hsz' : length l = size (activeTimers_ q ∖ {[(timer_ id, id_sequence_ id)]})).
  { rewrite size_difference by set_solver. rewrite size_singleton. lia. }
  apply wp_bind, wp_assert; [by apply Nat.eqb_eq|]. simpl.
  split_and!; try done.
  - split; simpl; try done.
    + intros w b. rewrite H3, Ht. split.
      * intros [(u & Hu & <- & HbD) Hne]. exists u. split_and!; [|done|done].
        rewrite lookup_delete_ne; [done|]. intros <-. congruence.
      * intros (u & [Hne Hu]%lookup_delete_Some & <- & HbD). split; [eauto|]. congruence.
    + intros b s. rewrite elem_of_difference, elem_of_singleton, Ha. split.
      * intros [(u & Hu & <- & HbD) Hne]. exists u. split_and!; [|done|done].
        rewrite lookup_delete_ne; [done|]. intros <-. congruence.
      * intros (u & [Hne Hu]%lookup_delete_Some & <- & HbD). split; [eauto|]. congruence.
    + intros b u [_ Hu]%lookup_delete_Some. by eapply Had.
    + intros b HbD. rewrite lookup_delete_ne by (by intros <-). auto.
  - intros b Hor. rewrite lookup_delete_ne; [done|]. intros <-. by destruct Hor.
  - left. split_and!; [done | apply lookup_delete_eq | done].
Qed.

(** Erasing the expired timers from [activeTimers_]. *)
Lemma erase_active_spec (F : fault -> Prop) (h : gmap Z (Timer Cb)) (E : list (Timestamp * Z)) (s : gset (Z * Z)) :
  NoDup (E.*2) ->
  (forall w a, (w, a) ∈ E -> exists t, h !! a = Some t /\ (a, sequence_ t) ∈ s) ->
  (forall a n, (a, n) ∈ s -> exists t, h !! a = Some t /\ sequence_ t = n) ->
  wp F (erase_active h E s) (fun s' =>
    (forall a n, (a, n) ∈ s' <-> (a, n) ∈ s /\ a ∉ E.*2)
    /\ size s = length E + size s').
Proof.
  revert s. induction E as [|[w a] E IH]; intros s Hnd HE Hs; simpl.
  { split; [set_solver | done]. }
  simpl in Hnd. apply NoDup_cons in Hnd as [HaE Hnd].
  destruct (HE w a) as (t & Ht & Hin); [set_solver|].
  eapply wp_bind, wp_get; [exact Ht|].
  apply wp_bind, wp_assert; [by apply bool_decide_eq_true|].
  eapply wp_mono; [apply IH; [done| |]|].
  - intros w' b Hb. destruct (HE w' b) as (u & Hu & Hub); [set_solver|].
    exists u. split; [done|]. apply elem_of_difference. split; [done|].
    intros [= -> _]%elem_of_singleton. apply HaE. apply list_elem_of_fmap. by exists (w', a).
  - intros b n Hb. apply Hs. set_solver.
  - intros s' [H1 H2]. split.
    + intros b n. rewrite H1, elem_of_difference, elem_of_singleton, not_elem_of_cons.
      split; [|naive_solver].
      intros [[Hb Hne] HbE]. split_and!; [done | | done]. intros ->.
      destruct (Hs _ _ Hb) as (u & Hu & <-). congruence.
    + rewrite size_difference in H2 by set_solver. rewrite size_singleton in H2.
      assert (size s <> 0) by (intros Hz%size_empty_inv; set_solver). lia.
Qed.

(** In a well-formed queue an address occurs at most once in [timers_]. *)
Lemma timers_addr_unique D q w w' a :
  tq_inv D q -> (w, a) ∈ timers_ q -> (w', a) ∈ timers_ q -> w = w'.
Proof.
  intros [] (t & H1 & <- & _)%ti_timers0 (u & H2 & <- & _)%ti_timers0. congruence.
Qed.

Lemma NoDup_addresses (l : list (Timestamp * Z)) :
  NoDup l -> (forall w w' a, (w, a) ∈ l -> (w', a) ∈ l -> w = w') -> NoDup (l.*2).
Proof.
  induction 1 as [|[w a] l Hn Hnd IH]; intros Hu; simpl; constructor.
  - intros ([w' b] & [= ->] & Hb)%list_elem_of_fmap. simpl in *. apply Hn.
    rewrite (Hu w w' b); [done | by left | by right].
  - apply IH. intros w0 w' a0 H1 H2. apply (Hu w0 w' a0); by right.
Qed.

Lemma sentry_lt now w a :
  (0 < a < UINTPTR_MAX)%Z -> ltb (w, a) (now, UINTPTR_MAX) = (w <=? now)%Z.
Proof.
  intros Ha. simpl. destruct (Z.ltb_spec w now), (Z.ltb_spec now w), (Z.leb_spec w now),
    (Z.ltb_spec a UINTPTR_MAX); simpl; lia.
Qed.

(** What [getExpired] returns and leaves. *)
Lemma getExpired_inv F now D q :
  tq_inv D q ->
  wp F (getExpired now q) (fun r =>
    tq_inv (r.1.*2 ++ D) r.2 /\ heap r.2 = heap q
    /\ timers_ q = r.1 ++ timers_ r.2
    /\ (forall w a, (w, a) ∈ r.1 -> (w <= now)%Z)
    /\ (forall w a, (w, a) ∈ timers_ r.2 -> (now < w)%Z)
    /\ (forall w a, (w, a) ∈ r.1 -> exists t, heap q !! a = Some t /\ expiration_ t = w)).
Proof.
  intros Hi. pose proof Hi as [Hs Ht Ha Hsz Had Hnd Hl].
  unfold getExpired. apply wp_bind, wp_assert; [by eapply sizes_agree_true|].
  pose proof (lower_bound_app (now, UINTPTR_MAX) (timers_ q)) as Happ.
  assert (Hcut : forall w a, (w, a) ∈ timers_ q ->
    ltb (w, a) (now, UINTPTR_MAX) = (w <=? now)%Z).
  { intros w a (t & Hat & _)%Ht. by eapply sentry_lt, Had. }
  pose proof (fun y => lower_bound_spec (now, UINTPTR_MAX) (timers_ q) y Hs) as Hsp.
  destruct (lower_bound (now, UINTPTR_MAX) (timers_ q)) as [E R]. cbn [fst snd] in *.
  assert (HE : forall w a, (w, a) ∈ E -> (w <= now)%Z).
  { intros w a HwE. destruct (Hsp (w, a)) as [H1 _]. specialize (H1 HwE).
    rewrite Hcut in H1 by (rewrite <- Happ; set_solver). by apply Z.leb_le. }
  assert (HR : forall w a, (w, a) ∈ R -> (now < w)%Z).
  { intros w a HwR. destruct (Hsp (w, a)) as [_ H1]. specialize (H1 HwR).
    rewrite Hcut in H1 by (rewrite <- Happ; set_solver). by apply Z.leb_gt. }
  apply wp_bind, wp_assert.
  { destruct R as [|[w a] R]; [done|]. apply Z.ltb_lt, (HR w a). set_solver. }
  rewrite <- Happ in Hs. apply sorted_app in Hs as (HsE & HsR & HER).
  assert (HndE : NoDup (E.*2)).
  { apply NoDup_addresses; [by apply sorted_NoDup|]. intros w w' a H1 H2.
    eapply (timers_addr_unique _ _ _ _ a Hi); rewrite <- Happ; set_solver. }
  assert (HinE : forall w a, (w, a) ∈ E -> exists t, heap q !! a = Some t /\ expiration_ t = w /\ a ∉ D).
  { intros w a HwE. apply Ht. rewrite <- Happ. set_solver. }
  apply wp_bind. eapply wp_mono; [apply erase_active_spec; [done| |]|].
  - intros w a HwE. destruct (HinE w a HwE) as (t & Hat & <- & HaD).
    exists t. split; [done|]. apply Ha. by exists t.
  - intros a n (t & Hat & Hn & _)%Ha. eauto.
  - intros s' [H1 H2].
    assert (Hsz' : length R = size s').
    { rewrite <- Happ, length_app in Hsz. lia. }
    apply wp_bind, wp_assert; [by apply Nat.eqb_eq|]. simpl. split_and!; try done;
      [|intros w a HwE; destruct (HinE w a HwE) as (t & ? & ? & _); eauto].
    split; simpl; try done.
    + intros w a. split.
      * intros HwR. destruct (proj1 (Ht w a)) as (t & Hat & Hw & HaD);
          [rewrite <- Happ; set_solver|].
        exists t. split_and!; [done..|]. rewrite elem_of_app. intros [HbE|]; [|done].
        apply list_elem_of_fmap in HbE as ([w' b] & [= ->] & Hb). simpl in *.
        pose proof (timers_addr_unique _ _ w w' b Hi) as Hww.
        rewrite <- Happ in Hww. specialize (Hww ltac:(set_solver) ltac:(set_solver)).
        pose proof (HE w' b Hb). pose proof (HR w b HwR). lia.
      * intros (t & Hat & <- & [HaE HaD]%not_elem_of_app).
        assert (Hin : (expiration_ t, a) ∈ E ++ R) by (rewrite Happ; apply Ht; by exists t).
        apply elem_of_app in Hin as [Hin|]; [|done].
        exfalso. apply HaE. apply list_elem_of_fmap. by exists (expiration_ t, a).
    + intros a n. rewrite H1, Ha. set_solver.
    + apply NoDup_app. split_and!; [done| |done].
      intros a ([w b] & -> & Hb)%list_elem_of_fmap. by destruct (HinE w b Hb) as (t & _ & _ & ?).
    + intros a [([w b] & -> & Hb)%list_elem_of_fmap|HaD]%elem_of_app; [|by apply Hl].
      simpl. by destruct (HinE w b Hb) as (t & -> & _).
Qed.

(** ** Rescheduling *)
Section Reset.
Context `{Platform}.

(** The only ways an expiry can fail: out of memory, or a repeating
    timer whose next expiration does not fit an [int64_t]. *)
Definition env_fault (e : fault) : Prop := e = BadAlloc \/ e = Overflow.

(** A timer object after the expiry at [now] it took part in. *)
Definition after_expiry (now : Timestamp) (cancelled : gset (Z * Z)) (a : Z)
    (t : Timer Cb) (o : option (Timer Cb)) : Prop :=
  if repeat_ t && bool_decide ((a, sequence_ t) ∉ cancelled)
  then exists e, addTime now (interval_ t) = Ok e
       /\ o = Some (mkTimer (callback_ t) e (interval_ t) true (sequence_ t))
  else o = None.

Lemma reset_loop_inv E now D q :
  tq_inv (E.*2 ++ D) q ->
  wp env_fault (reset_loop E now q) (fun q' =>
    tq_inv D q' /\ cancelingTimers_ q' = cancelingTimers_ q
    /\ callingExpiredTimers_ q' = callingExpiredTimers_ q
    /\ (forall a, a ∉ E.*2 -> heap q' !! a = heap q !! a)
    /\ (forall w a t, (w, a) ∈ E -> heap q !! a = Some t ->
          after_expiry now (cancelingTimers_ q) a t (heap q' !! a))).
Proof.
  revert q. induction E as [|[w a] E IH]; intros q Hi; simpl.
  { split_and!; try done. set_solver. }
  simpl in Hi. pose proof (ti_nodup _ _ Hi) as [[HaE HaD]%not_elem_of_app HndE]%NoDup_cons.
  destruct (ti_live _ _ Hi a) as [t Ht]; [set_solver|].
  eapply wp_bind, wp_get; [exact Ht|]. apply wp_bind.
  eapply (wp_mono _ _ (fun q1 => tq_inv (E.*2 ++ D) q1 /\ cancelingTimers_ q1 = cancelingTimers_ q
    /\ callingExpiredTimers_ q1 = callingExpiredTimers_ q
    /\ (forall b, b <> a -> heap q1 !! b = heap q !! b)
    /\ after_expiry now (cancelingTimers_ q) a t (heap q1 !! a))).
  - unfold after_expiry. destruct (repeat_ t && _) eqn:Hb.
    + apply andb_true_iff in Hb as [Hr _]. unfold restart. rewrite Hr.
      apply wp_bind. destruct (addTime now (interval_ t)) as [e|f] eqn:Ee; simpl.
      * apply wp_bind. eapply wp_mono.
        { apply insert_timer_inv, set_heap_detached_inv; [exact Hi | set_solver]. }
        intros [b q1] (Hi1 & Hh1 & Hc1 & Hf1). simpl in *. rewrite Hh1.
        split_and!; try done; [intros; by rewrite lookup_insert_ne|].
        exists e. by rewrite lookup_insert_eq.
      * right. unfold addTime, int64_of_double, checked64 in Ee.
        destruct (trunc _); simpl in Ee; [|congruence].
        destruct (int64_fits z); simpl in Ee; [|congruence].
        destruct (int64_fits _); congruence.
    + simpl. split_and!; try done; [by apply delete_detached_inv | | apply lookup_delete_eq].
      intros b Hba. by rewrite lookup_delete_ne.
  - intros q1 (Hi1 & Hc1 & Hf1 & Hh1 & Ha1). eapply wp_mono; [by apply IH|].
    intros q2 (Hi2 & Hc2 & Hf2 & Hh2 & Ha2). split_and!; [done|congruence|congruence| |].
    + intros b [Hb1 Hb2]%not_elem_of_cons. rewrite Hh2 by done. by apply Hh1.
    + intros w' b u Hin Hu. apply elem_of_cons in Hin as [[= -> ->]|Hin].
      * rewrite Hh2 by done. rewrite Ht in Hu. injection Hu as <-. done.
      * rewrite <- Hc1. eapply Ha2; [done|]. rewrite Hh1; [done|].
        intros ->. apply HaE. apply list_elem_of_fmap. by exists (w', a).
Qed.

Lemma reset_inv E now os D q :
  tq_inv (E.*2 ++ D) q ->
  wp env_fault (reset E now os q) (fun q' =>
    tq_inv D q' /\ cancelingTimers_ q' = cancelingTimers_ q
    /\ callingExpiredTimers_ q' = callingExpiredTimers_ q
    /\ (forall a, a ∉ E.*2 -> heap q' !! a = heap q !! a)
    /\ (forall w a t, (w, a) ∈ E -> heap q !! a = Some t ->
          after_expiry now (cancelingTimers_ q) a t (heap q' !! a))
    /\ (forall w a l h, timers_ q' = (w, a) :: l -> (0 < w)%Z -> win = true ->
          os_create os = Some h ->
          hTimer_ q' = h /\ os_timers q' !! h = Some (dueTime w (os_now os)))).
Proof.
  intros Hi. unfold reset. apply wp_bind. eapply wp_mono; [by apply reset_loop_inv|].
  intros q1 (Hi1 & Hc1 & Hf1 & Hh1 & Ha1). apply wp_bind.
  destruct (timers_ q1) as [|[w a] l] eqn:Et; simpl.
  { split_and!; try done. intros w a l h. rewrite Et. done. }
  destruct (proj1 (ti_timers _ _ Hi1 w a)) as (t & Ht & Hw & _); [rewrite Et; set_solver|].
  eapply wp_bind, wp_get; [exact Ht|]. simpl. rewrite Hw.
  destruct (valid w) eqn:Ev; simpl.
  2:{ split_and!; try done. intros w' a' l' h E2. rewrite Et in E2.
      injection E2 as -> -> ->. unfold valid in Ev. bool_props. lia. }
  destruct (resetTimer_frame w os q1) as (E1 & E2 & E3 & E4 & E5).
  split_and!; try congruence.
  - by eapply tq_inv_frame.
  - intros b Hb. rewrite E1. by apply Hh1.
  - intros w' b u Hin Hu. rewrite E1. by eapply Ha1.
  - intros w' a' l' h. rewrite E2, Et. intros [= -> -> ->] _ Hwin Hcr.
    unfold resetTimer, resetTimerWin. rewrite Hwin, Hcr.
    destruct (if (hTimer_ q1 =? 0)%Z then _ else _) as [h' o]. simpl.
    split; [done | apply lookup_insert_eq].
Qed.
End Reset.

(** ** Expiry as a whole *)
Section Expiry.
Context `{Platform}.
Context (alloc : gmap Z (Timer Cb) -> option Z).
Context (user : Cb -> TimerQueue Cb -> list (timer_cmd Cb)).

(** The allocator returns a fresh address below [UINTPTR_MAX]. *)
Definition alloc_ok : Prop := forall h a,
  alloc h = Some a -> h !! a = None /\ (0 < a < UINTPTR_MAX)%Z.
Context (Halloc : alloc_ok).

(** Commands keep the detached timers, and the calling flag. *)
Lemma exec_cmd_inv c D q :
  tq_inv D q ->
  wp env_fault (exec_cmd alloc c q) (fun q' =>
    tq_inv D q' /\ (forall a, a ∈ D -> heap q' !! a = heap q !! a)
    /\ callingExpiredTimers_ q' = callingExpiredTimers_ q
    /\ cancelingTimers_ q ⊆ cancelingTimers_ q').
Proof.
  intros Hi. destruct c as [cb w i os|id]; simpl.
  - apply wp_bind. destruct (alloc (heap q)) as [a|] eqn:Ea; [|by left].
    destruct (Halloc _ _ Ea) as [Hf Hr].
    eapply wp_mono; [by apply alloc_timer_inv|].
    intros [id q1] (E1 & Hi1 & Hh & _ & Hc & Hk). simpl in *. subst a.
    eapply wp_mono; [by apply addTimerInLoop_inv|].
    intros q2 (Hi2 & Hh2 & Hk2 & Hc2). split_and!; [done| |congruence|by rewrite Hk2, Hk].
    intros b Hb. rewrite Hh2. apply Hh. intros ->.
    destruct (ti_live _ _ Hi _ Hb). congruence.
  - eapply wp_mono; [by apply cancelInLoop_inv|].
    intros q' (Hi' & Hh & Hc & Hk & _). split_and!; auto.
Qed.

Lemma exec_cmds_inv cs D q :
  tq_inv D q ->
  wp env_fault (exec_cmds alloc cs q) (fun q' =>
    tq_inv D q' /\ (forall a, a ∈ D -> heap q' !! a = heap q !! a)
    /\ callingExpiredTimers_ q' = callingExpiredTimers_ q
    /\ cancelingTimers_ q ⊆ cancelingTimers_ q').
Proof.
  revert q. induction cs as [|c cs IH]; intros q Hi; simpl; [done|].
  apply wp_bind. eapply wp_mono; [by apply exec_cmd_inv|].
  intros q1 (Hi1 & Hh1 & Hc1 & Hk1). eapply wp_mono; [by apply IH|].
  intros q2 (Hi2 & Hh2 & Hc2 & Hk2). split_and!; [done| |congruence|set_solver].
  intros a Ha. by rewrite Hh2, Hh1.
Qed.

(** The sequence number of the timer at an address. *)
Definition seq_at (h : gmap Z (Timer Cb)) (e : Timestamp * Z) : Z :=
  match h !! e.2 with Some t => sequence_ t | None => 0%Z end.

(** Running the callbacks of [E]: every expired object stays as it was,
    and the log gets their sequence numbers in order. *)
Lemma run_expired_inv E D q log :
  tq_inv D q -> E.*2 ⊆ D ->
  wp env_fault (run_expired alloc user E q log) (fun r =>
    tq_inv D r.1 /\ (forall a, a ∈ D -> heap r.1 !! a = heap q !! a)
    /\ callingExpiredTimers_ r.1 = callingExpiredTimers_ q
    /\ cancelingTimers_ q ⊆ cancelingTimers_ r.1
    /\ r.2 = log ++ (seq_at (heap q) <$> E)).
Proof.
  revert q log. induction E as [|[w a] E IH]; intros q log Hi HE; simpl.
  { rewrite app_nil_r. done. }
  assert (HaD : a ∈ D) by (simpl in HE; set_solver).
  destruct (ti_live _ _ Hi a HaD) as [t Ht]. eapply wp_bind, wp_get; [exact Ht|].
  apply wp_bind. eapply wp_mono; [by apply exec_cmds_inv|].
  intros q1 (Hi1 & Hh1 & Hc1 & Hk1).
  eapply wp_mono; [apply IH; [done | simpl in HE; set_solver]|].
  intros [q2 log2] (Hi2 & Hh2 & Hc2 & Hk2 & ->). simpl in *.
  split_and!; [done| |congruence|set_solver|].
  - intros b Hb. by rewrite Hh2, Hh1.
  - unfold seq_at at 2. simpl. rewrite Ht, <- app_assoc. simpl. do 2 f_equal.
    apply list_fmap_ext. intros i [w' b] Hb%list_elem_of_lookup_2. unfold seq_at. simpl.
    rewrite Hh1; [done|]. apply HE. right. apply list_elem_of_fmap. by exists (w', b).
Qed.

Lemma handleRead_inv now os D q :
  tq_inv D q ->
  wp env_fault (handleRead alloc user now os q) (fun r =>
    tq_inv D r.1 /\ callingExpiredTimers_ r.1 = false
    /\ (exists E R, timers_ q = E ++ R
         /\ (forall w a, (w, a) ∈ E -> (w <= now)%Z)
         /\ (forall w a, (w, a) ∈ R -> (now < w)%Z)
         /\ r.2 = seq_at (heap q) <$> E
         /\ (forall w a t, (w, a) ∈ E -> heap q !! a = Some t ->
               after_expiry now (cancelingTimers_ r.1) a t (heap r.1 !! a)))
    /\ (forall w a l h, timers_ r.1 = (w, a) :: l -> (0 < w)%Z -> win = true ->
          os_create os = Some h ->
          hTimer_ r.1 = h /\ os_timers r.1 !! h = Some (dueTime w (os_now os)))).
Proof.
  intros Hi. unfold handleRead. apply wp_bind.
  eapply wp_mono; [by apply getExpired_inv|].
  intros [E q1] (Hi1 & Hh1 & Happ & HE & HR & HinE). cbn [fst snd] in *. apply wp_bind.
  eapply wp_mono; [apply (run_expired_inv E (E.*2 ++ D)); [by eapply tq_inv_frame; [..|exact Hi1] | set_solver]|].
  intros [q2 log] (Hi2 & Hh2 & Hc2 & Hk2 & Hlog). cbn [fst snd] in *.
  apply wp_bind. eapply wp_mono; [apply reset_inv; by eapply tq_inv_frame; [..|exact Hi2]|].
  intros q3 (Hi3 & Hk3 & Hc3 & Hh3 & Ha3 & Harm). cbn [wp fst snd mret] in *.
  split_and!; try done. exists E, (timers_ q1). split_and!; try done.
  - rewrite Hlog. simpl. by rewrite Hh1.
  - intros w a t Hin Ht. rewrite Hk3. eapply Ha3; [exact Hin|]. simpl.
    rewrite Hh2; [simpl; by rewrite Hh1|]. apply elem_of_app. left. apply list_elem_of_fmap. by exists (w, a).
Qed.

(** Whatever the user callbacks add and cancel, processing an expiry
    never dereferences a dangling [Timer*], never deletes an object twice
    and never fails an assertion; afterwards every [Timer] object is in
    [timers_] and [activeTimers_] or is one of those in [D] that other threads
    have allocated and queued for insertion (nothing leaks), and both sets hold
    only live objects. *)
Theorem handleRead_safe now os D q :
  tq_inv D q ->
  wp env_fault (handleRead alloc user now os q) (fun r =>
    tq_inv D r.1 /\ callingExpiredTimers_ r.1 = false).
Proof.
  intros Hi. eapply wp_mono; [by apply handleRead_inv|]. by intros r (? & ? & _).
Qed.

Lemma expired_exact now os D q q' log :
  tq_inv D q -> handleRead alloc user now os q = Ok (q', log) ->
  exists expired rest, timers_ q = expired ++ rest
    /\ (forall w a, (w, a) ∈ timers_ q -> ((w, a) ∈ expired <-> (w <= now)%Z))
    /\ sorted expired
    /\ log = seq_at (heap q) <$> expired
    /\ (forall w a t, (w, a) ∈ expired -> heap q !! a = Some t ->
          after_expiry now (cancelingTimers_ q') a t (heap q' !! a)).
Proof.
  intros Hi Hr. pose proof (wp_ok _ _ _ _ (handleRead_inv now os D q Hi) Hr) as Hp.
  destruct Hp as (_ & _ & (E & R & Happ & HE & HR & Hlog & Ha) & _).
  exists E, R. simpl in *. split_and!; try done.
  - intros w a Hin. split; [by apply HE|]. intros Hw.
    rewrite Happ in Hin. apply elem_of_app in Hin as [|HinR]; [done|].
    apply HR in HinR. lia.
  - pose proof (ti_sorted _ _ Hi) as Hs. rewrite Happ in Hs. by apply sorted_app in Hs as [? _].
Qed.

(** an expiry at [now] runs exactly the timers whose expiration is
    not after [now], once each and in the order of their expirations;
    afterwards a repeating timer that was not cancelled meanwhile is
    scheduled at [now] plus its interval and every other timer that ran
    is deleted. *)
Theorem handleRead_runs_expired now os D q q' log :
  tq_inv D q -> handleRead alloc user now os q = Ok (q', log) ->
  exists expired rest, timers_ q = expired ++ rest
    /\ (forall w a, (w, a) ∈ timers_ q -> ((w, a) ∈ expired <-> (w <= now)%Z))
    /\ sorted expired
    /\ log = seq_at (heap q) <$> expired
    /\ (forall w a t, (w, a) ∈ expired -> heap q !! a = Some t ->
          after_expiry now (cancelingTimers_ q') a t (heap q' !! a)).
Proof. by apply expired_exact. Qed.

(** under Windows, when an expiry leaves timers behind and
    [CreateTimerQueueTimer] succeeds, the timer of the operating system
    is armed for the earliest of them. *)
Theorem handleRead_rearms now os D q q' log w a l h :
  win = true -> tq_inv D q -> handleRead alloc user now os q = Ok (q', log) ->
  timers_ q' = (w, a) :: l -> (0 < w)%Z -> os_create os = Some h ->
  hTimer_ q' = h /\ os_timers q' !! h = Some (dueTime w (os_now os))
  /\ (forall w' a', (w', a') ∈ timers_ q' -> (w <= w')%Z).
Proof.
  intros Hwin Hi Hr Ht Hw Hcr.
  pose proof (wp_ok _ _ _ _ (handleRead_inv now os D q Hi) Hr) as (Hi' & _ & _ & Harm).
  simpl in *. destruct (Harm _ _ _ _ Ht Hw Hwin Hcr) as [H1 H2].
  split_and!; [done..|]. intros w' a'. rewrite Ht.
  pose proof (ti_sorted _ _ Hi') as Hs. rewrite Ht in Hs.
  intros [[= -> ->]|Hin]%elem_of_cons; [done|].
  apply sorted_cons in Hs as [_ Hf]. specialize (Hf _ Hin). simpl in Hf.
  destruct (Z.ltb_spec w w'); [lia|]. simpl in Hf. bool_props.
  destruct (Z.ltb_spec w' w); simpl in *; [done | lia].
Qed.
End Expiry.

(** cancelling with the id [addTimer] returned removes an attached
    timer for good: its object is freed, it is in neither set, and no other
    timer changes; an id whose timer is gone or whose address now belongs
    to another timer has no effect on the scheduled timers. *)
Theorem cancelInLoop_exact id D q :
  tq_inv D q ->
  exists q', cancelInLoop id q = Ok q' /\ tq_inv D q'
    /\ (forall a t, heap q !! a = Some t ->
          a ∉ D -> a = timer_ id -> sequence_ t = id_sequence_ id -> heap q' !! a = None)
    /\ (forall a t, heap q !! a = Some t ->
          a ∈ D \/ a <> timer_ id \/ sequence_ t <> id_sequence_ id -> heap q' !! a = Some t).
Proof.
  intros Hi. pose proof (cancelInLoop_inv (fun _ => False) id D q Hi) as Hc.
  destruct (cancelInLoop id q) as [q'|f]; simpl in Hc; [|done].
  destruct Hc as (Hi' & Hh & _ & _ & Hcase). exists q'. split_and!; try done.
  - intros a t Ht HaD -> Hseq. destruct Hcase as [(_ & Hn & _)|(Hnot & _)]; [done|].
    exfalso. apply Hnot, (ti_active _ _ Hi). eauto.
  - intros a t Ht Hor. destruct Hcase as [(Hin & _)|(_ & -> & _)]; [|done].
    rewrite <- Ht. apply Hh. destruct Hor as [|[|Hseq]]; [by left | by right |].
    right. intros ->. apply Hseq. apply (ti_active _ _ Hi) in Hin as (u & Hu & <- & _).
    congruence.
Qed.

(** a timer cancelled while it is being processed, by its own or by
    another callback, is not scheduled again: the end of the expiry deletes
    it even if it repeats. *)
Theorem cancel_while_running `{Platform} (E : list (Timestamp * Z)) D w a t now os q q1 q2 :
  tq_inv (E.*2 ++ D) q -> callingExpiredTimers_ q = true ->
  (w, a) ∈ E -> heap q !! a = Some t ->
  cancelInLoop (mkTimerId a (sequence_ t)) q = Ok q1 ->
  reset E now os (set_calling false q1) = Ok q2 ->
  heap q2 !! a = None /\ tq_inv D q2.
Proof.
  intros Hi Hcall Hin Ht H1 H2.
  assert (HaE : a ∈ E.*2 ++ D) by (apply elem_of_app; left; apply list_elem_of_fmap; by exists (w, a)).
  pose proof (wp_ok _ _ _ _ (cancelInLoop_inv (fun _ => False) _ _ q Hi) H1)
    as (Hi1 & Hh1 & _ & _ & Hcase).
  pose proof (wp_ok _ _ _ _ (reset_inv E now os D (set_calling false q1)
    ltac:(by eapply tq_inv_frame; [..|exact Hi1])) H2) as (Hi2 & _ & _ & _ & Ha & _).
  split; [|done]. simpl in *.
  specialize (Ha w a t Hin). rewrite Hh1 in Ha by auto. specialize (Ha Ht).
  destruct Hcase as [(Hact & _)|(_ & _ & _ & Hk)].
  - apply (ti_active _ _ Hi) in Hact as (_ & _ & _ & Hn). done.
  - specialize (Hk Hcall). unfold after_expiry in Ha.
    rewrite (bool_decide_eq_false_2 (_ ∉ _)), andb_false_r in Ha by (intros Hnot; by apply Hnot).
    done.
Qed.
End Facts.

(** [resetTimerWin] never arms the timer of the operating system for later
    than asked (rounded down to a millisecond), and for exactly that when the
    delay fits 32 bits; because [(DWORD)microseconds / 1000] casts before it
    divides, a longer delay is reduced modulo 2^32 microseconds, so that a
    timer 2^32 microseconds away is armed for 0 milliseconds. *)
Theorem dueTime_bounds {Cb} (q : TimerQueue Cb) expiration os handle :
  os_create os = Some handle ->
  let wait := delay expiration (os_now os) in
  exists due, os_timers (resetTimerWin expiration os q) !! handle = Some due
    /\ (0 <= due * 1000 <= wait)%Z
    /\ ((wait < 2 ^ 32)%Z -> due = (wait / 1000)%Z)
    /\ (wait = (2 ^ 32)%Z -> due = 0%Z).
Proof.
  intros Hc wait. exists (dueTime expiration (os_now os)). split.
  - unfold resetTimerWin. rewrite Hc. case_match. simpl. apply lookup_insert_eq.
  - unfold dueTime. fold wait. assert (H100 : (100 <= wait)%Z) by (unfold wait, delay; case_if; lia).
    pose proof (wrapU_bound 32 wait ltac:(lia)).
    assert (wrapU 32 wait <= wait)%Z by (apply Z.mod_le; lia).
    pose proof (Z.mul_div_le (wrapU 32 wait) 1000). split_and!.
    + apply Z.mul_nonneg_nonneg; [apply Z.div_pos|]; lia.
    + lia.
    + intros Hd. by rewrite wrapU_small by lia.
    + by intros ->.
Qed.

Lemma dueTime_bounds_witness :
  exists due, os_timers (resetTimerWin (2 ^ 32) (mkOs 0 true (Some 7%Z)) (@new_TimerQueue nat)) !! 7%Z = Some due
    /\ due = 0%Z.
Proof.
  destruct (dueTime_bounds (@new_TimerQueue nat) (2 ^ 32) (mkOs 0 true (Some 7%Z)) 7 eq_refl)
    as (due & E & _ & _ & H0). exists due. split; [exact E | apply H0; reflexivity].
Defined.

(** ** A concrete queue *)

(** An allocator with four addresses. *)
Definition small_alloc (h : gmap Z (Timer nat)) : option Z :=
  List.find (fun a => bool_decide (h !! a = None)) [8; 16; 24; 32]%Z.

Lemma small_alloc_ok : alloc_ok small_alloc.
Proof.
  intros h a Ha. apply List.find_some in Ha as [Hin Hb]. bool_props. split; [done|].
  unfold UINTPTR_MAX. simpl in Hin. lia.
Qed.

Definition demo_platform : Platform := {| win := true; bigendian := false |}.
Definition demo_os (n : Z) : os_answer := mkOs 1000 true (Some n).

(** Timer 1 fires once, timer 2 every second; callback 1 adds a timer. *)
Definition demo_cmds : list (timer_cmd nat) :=
  [CmdAdd 1 5000 (double_of_Z 0) (demo_os 1); CmdAdd 2 3000 (double_of_Z 1) (demo_os 2);
   CmdAdd 3 9000 (double_of_Z 0) (demo_os 3)].
Definition demo_user (cb : nat) (q : TimerQueue nat) : list (timer_cmd nat) :=
  if cb =? 1 then [CmdAdd 4 (7000)%Z (double_of_Z 0) (demo_os 4)] else [].

Definition demo_queue : TimerQueue nat :=
  match exec_cmds (H := demo_platform) small_alloc demo_cmds new_TimerQueue with
  | Ok q => q
  | Fault _ => new_TimerQueue
  end.

Lemma demo_queue_inv : tq_inv [] demo_queue.
Proof.
  unfold demo_queue. pose proof (@exec_cmds_inv nat demo_platform small_alloc small_alloc_ok
    demo_cmds [] new_TimerQueue new_TimerQueue_inv) as H.
  destruct (exec_cmds _ _ _); simpl in H; [tauto | apply new_TimerQueue_inv].
Qed.

Lemma handleRead_safe_witness :
  tq_inv [] demo_queue
  /\ wp env_fault (@handleRead nat small_alloc demo_user demo_platform 6000 (demo_os 9) demo_queue)
      (fun r => tq_inv [] r.1 /\ callingExpiredTimers_ r.1 = false).
Proof.
  split; [exact demo_queue_inv|].
  exact (@handleRead_safe nat demo_platform small_alloc demo_user small_alloc_ok
           6000 (demo_os 9) [] demo_queue demo_queue_inv).
Defined.

(** At time 6000 timers 2 and 1 have expired, in this order; timer 2 is
    scheduled again one second later. *)
Lemma handleRead_runs_expired_witness :
  exists q' log,
    @handleRead nat small_alloc demo_user demo_platform 6000 (demo_os 9) demo_queue = Ok (q', log)
    /\ log = [2; 1]%Z /\ (timers_ q').*1 = [7000; 9000; 1006000]%Z
    /\ exists expired rest, timers_ demo_queue = expired ++ rest.
Proof.
  destruct (@handleRead nat small_alloc demo_user demo_platform 6000 (demo_os 9) demo_queue)
    as [[q' log]|] eqn:E.
  - exists q', log. split; [reflexivity|].
    destruct (@handleRead_runs_expired nat demo_platform small_alloc demo_user small_alloc_ok
                6000 (demo_os 9) [] demo_queue q' log demo_queue_inv E)
      as (expired & rest & Happ & _).
    vm_compute in E. injection E as <- <-.
    split; [reflexivity|]. split; [reflexivity|]. exists expired, rest. exact Happ.
  - exfalso. vm_compute in E. discriminate E.
Defined.

Lemma handleRead_rearms_witness :
  exists q', hTimer_ q' = 9%Z /\ @os_timers nat q' !! 9%Z = Some (dueTime 7000 1000).
Proof.
  destruct (@handleRead nat small_alloc demo_user demo_platform 6000 (demo_os 9) demo_queue)
    as [[q' log]|] eqn:E.
  - assert (Ht : exists a l, timers_ q' = (7000%Z, a) :: l).
    { vm_compute in E. injection E as <- <-. eexists _, _. reflexivity. }
    destruct Ht as (a & l & Ht). exists q'.
    destruct (@handleRead_rearms nat demo_platform small_alloc demo_user small_alloc_ok
                6000 (demo_os 9) [] demo_queue q' log 7000 a l 9 eq_refl demo_queue_inv E Ht
                eq_refl eq_refl) as (H1 & H2 & _).
    split; [exact H1 | exact H2].
  - exfalso. vm_compute in E. discriminate E.
Defined.

Lemma cancelInLoop_exact_witness :
  exists q', cancelInLoop (mkTimerId 16 2) demo_queue = Ok q' /\ tq_inv [] q'.
Proof.
  destruct (cancelInLoop_exact (mkTimerId 16 2) [] demo_queue demo_queue_inv)
    as (q' & H & Hi & _).
  exists q'. split; [exact H | exact Hi].
Defined.

(** The state in which timer 2 is being processed. *)
Definition demo_expired : list (Timestamp * Z) * TimerQueue nat :=
  match getExpired 4000 demo_queue with
  | Ok (e, q) => (e, set_calling true q)
  | Fault _ => ([], demo_queue)
  end.

Lemma demo_expired_inv : tq_inv (demo_expired.1.*2 ++ []) demo_expired.2.
Proof.
  unfold demo_expired. pose proof (getExpired_inv (fun _ => False) 4000 [] demo_queue demo_queue_inv) as H.
  destruct (getExpired 4000 demo_queue) as [[e q]|]; simpl in H; [|done].
  destruct H as [H _]. simpl. eapply tq_inv_frame; [..|exact H]; done.
Qed.

Lemma cancel_while_running_witness :
  exists q2, @heap nat q2 !! 16%Z = None /\ tq_inv [] q2.
Proof.
  destruct (cancelInLoop (mkTimerId 16 2) demo_expired.2) as [q1|] eqn:E1;
    [|exfalso; vm_compute in E1; discriminate E1].
  destruct (@reset nat demo_platform demo_expired.1 4000 (demo_os 9) (set_calling false q1))
    as [q2|] eqn:E2.
  - exists q2.
    assert (Ht : exists t, heap demo_expired.2 !! 16%Z = Some t /\ sequence_ t = 2%Z).
    { eexists. split; vm_compute; reflexivity. }
    destruct Ht as (t & Ht & Hs). rewrite <- Hs in E1.
    refine (@cancel_while_running nat demo_platform demo_expired.1 [] 3000 16 t 4000 (demo_os 9)
             demo_expired.2 q1 q2 demo_expired_inv _ _ Ht E1 E2).
    + vm_compute. reflexivity.
    + vm_compute. left.
  - exfalso. vm_compute in E1. injection E1 as <-. vm_compute in E2. discriminate E2.
Defined.
