(* ===== verification/Channel.v ===== *)
(** * Channels: [src/msmuduo/net/Channel.h], [Channel.cpp]

    A [Channel] binds a file descriptor to the events of interest and to four
    callbacks. The callbacks themselves belong to the owner of the channel: the
    record says which are set. [update] and [remove] go to the poller, in
    [Poller.v]. *)
From S2P Require Import Prelude.
From S2P Require Import Endian.
From S2P Require Import Format.

(** ** Event flags of [WSAPoll] and of [poll] *)
Section Flags.
Context `{Platform}.
Definition POLLIN : Z := if win then 0x0300 else 0x0001.
Definition POLLPRI : Z := if win then 0x0400 else 0x0002.
Definition POLLOUT : Z := if win then 0x0010 else 0x0004.
Definition POLLERR : Z := if win then 0x0001 else 0x0008.
Definition POLLHUP : Z := if win then 0x0002 else 0x0010.
Definition POLLNVAL : Z := if win then 0x0004 else 0x0020.

Definition kNoneEvent : Z := 0.
Definition kReadEvent : Z := if win then POLLIN else Z.lor POLLIN POLLPRI.
Definition kWriteEvent : Z := POLLOUT.
End Flags.

Record Channel := mkChannel {
  loop_ : positive;   (* the address of the owner *)
  fd_ : Z;
  events_ : Z;
  revents_ : Z;
  index_ : Z;
  logHup_ : bool;
  eventHandling_ : bool;
  readCallback_ : bool;
  writeCallback_ : bool;
  closeCallback_ : bool;
  errorCallback_ : bool
}.

(** [Channel(EventLoop*, int)]. *)
Definition new_Channel (loop : positive) (fd : Z) : Channel :=
  mkChannel loop fd 0 0 (-1) false false false false false false.

Definition set_events (e : Z) (c : Channel) : Channel :=
  mkChannel (loop_ c) (fd_ c) e (revents_ c) (index_ c) (logHup_ c) (eventHandling_ c)
    (readCallback_ c) (writeCallback_ c) (closeCallback_ c) (errorCallback_ c).
Definition set_revents (r : Z) (c : Channel) : Channel :=
  mkChannel (loop_ c) (fd_ c) (events_ c) r (index_ c) (logHup_ c) (eventHandling_ c)
    (readCallback_ c) (writeCallback_ c) (closeCallback_ c) (errorCallback_ c).
Definition set_index (i : Z) (c : Channel) : Channel :=
  mkChannel (loop_ c) (fd_ c) (events_ c) (revents_ c) i (logHup_ c) (eventHandling_ c)
    (readCallback_ c) (writeCallback_ c) (closeCallback_ c) (errorCallback_ c).
Definition set_eventHandling (b : bool) (c : Channel) : Channel :=
  mkChannel (loop_ c) (fd_ c) (events_ c) (revents_ c) (index_ c) (logHup_ c) b
    (readCallback_ c) (writeCallback_ c) (closeCallback_ c) (errorCallback_ c).
Definition doNotLogHup (c : Channel) : Channel :=
  mkChannel (loop_ c) (fd_ c) (events_ c) (revents_ c) (index_ c) false (eventHandling_ c)
    (readCallback_ c) (writeCallback_ c) (closeCallback_ c) (errorCallback_ c).
Definition setReadCallback (c : Channel) : Channel :=
  mkChannel (loop_ c) (fd_ c) (events_ c) (revents_ c) (index_ c) (logHup_ c) (eventHandling_ c)
    true (writeCallback_ c) (closeCallback_ c) (errorCallback_ c).
Definition setWriteCallback (c : Channel) : Channel :=
  mkChannel (loop_ c) (fd_ c) (events_ c) (revents_ c) (index_ c) (logHup_ c) (eventHandling_ c)
    (readCallback_ c) true (closeCallback_ c) (errorCallback_ c).
Definition setCloseCallback (c : Channel) : Channel :=
  mkChannel (loop_ c) (fd_ c) (events_ c) (revents_ c) (index_ c) (logHup_ c) (eventHandling_ c)
    (readCallback_ c) (writeCallback_ c) true (errorCallback_ c).
Definition setErrorCallback (c : Channel) : Channel :=
  mkChannel (loop_ c) (fd_ c) (events_ c) (revents_ c) (index_ c) (logHup_ c) (eventHandling_ c)
    (readCallback_ c) (writeCallback_ c) (closeCallback_ c) true.

Definition has_flag (v f : Z) : bool := negb (Z.land v f =? 0)%Z.

Inductive callback := CbClose | CbError | CbRead | CbWrite.

#[export] Instance callback_eq_dec : EqDecision callback.
Proof. solve_decision. Defined.

Section ChannelOps.
Context `{Platform}.

Definition isNoneEvent (c : Channel) : bool := (events_ c =? kNoneEvent)%Z.
Definition isWriting (c : Channel) : bool := has_flag (events_ c) kWriteEvent.
Definition isReading (c : Channel) : bool := has_flag (events_ c) kReadEvent.

(** The events each request leaves the channel interested in; [update()]
    follows every one of them. *)
Inductive request :=
  | EnableReading | DisableReading | EnableWriting | DisableWriting | DisableAll.

Definition request_events (r : request) (e : Z) : Z :=
  match r with
  | EnableReading => Z.lor e kReadEvent
  | DisableReading => Z.land e (Z.lnot kReadEvent)
  | EnableWriting => Z.lor e kWriteEvent
  | DisableWriting => Z.land e (Z.lnot kWriteEvent)
  | DisableAll => kNoneEvent
  end.

(** The callbacks that received events [r] call for, in order. *)
Definition calls_close (c : Channel) : bool :=
  has_flag (revents_ c) POLLHUP && negb (has_flag (revents_ c) POLLIN) && closeCallback_ c.
Definition calls_error (c : Channel) : bool :=
  has_flag (revents_ c) (Z.lor POLLERR POLLNVAL) && errorCallback_ c.
Definition calls_read (c : Channel) : bool :=
  has_flag (revents_ c) (Z.lor POLLIN POLLPRI) && readCallback_ c.
Definition calls_write (c : Channel) : bool :=
  has_flag (revents_ c) POLLOUT && writeCallback_ c.

Definition eventsToString (fd ev : Z) : bytes :=
  fmt_d fd ++ str ": "
  ++ (if has_flag ev POLLIN then str "IN " else [])
  ++ (if has_flag ev POLLPRI then str "PRI " else [])
  ++ (if has_flag ev POLLOUT then str "OUT " else [])
  ++ (if has_flag ev POLLHUP then str "HUP " else [])
  ++ (if has_flag ev POLLERR then str "ERR " else [])
  ++ (if has_flag ev POLLNVAL then str "NVAL " else []).
Definition reventsToString (c : Channel) : bytes := eventsToString (fd_ c) (revents_ c).

(** [handleEvent] in a program state [S] that holds the channel [this]: a
    callback may change the state, so each test reads the channel again;
    a channel destroyed by a callback is a dangling pointer. *)
Section HandleEvent.
Context {S : Type} (this : S -> option Channel) (modify : (Channel -> Channel) -> S -> S).
Context (run : callback -> S -> res S).

Definition call_if (want : Channel -> bool) (cb : callback) (s : S) : res S :=
  c ← get_ NullDeref (this s);
  if want c then run cb s else Ok s.

Definition handleEvent (s : S) : res S :=
  c ← get_ NullDeref (this s);
  s ← call_if calls_close CbClose (modify (set_eventHandling true) s);
  s ← call_if calls_error CbError s;
  s ← call_if calls_read CbRead s;
  s ← call_if calls_write CbWrite s;
  c ← get_ NullDeref (this s);
  Ok (modify (set_eventHandling false) s).
End HandleEvent.
End ChannelOps.

(** ** Facts about the flags *)
Section ChannelFacts.
Context `{Platform}.

(** The flags are disjoint bits: enabling and disabling one leaves the
    other alone. *)
Lemma land_lnot_disjoint e f g :
  Z.land f g = 0%Z -> has_flag (Z.land e (Z.lnot f)) g = has_flag e g.
Proof.
  intros Hfg. unfold has_flag. do 2 f_equal.
  apply Z.bits_inj'. intros i Hi. apply (f_equal (fun z => Z.testbit z i)) in Hfg.
  rewrite !Z.land_spec, Z.lnot_spec by done. rewrite Z.land_spec, Z.bits_0 in Hfg.
  destruct (Z.testbit e i), (Z.testbit f i), (Z.testbit g i); done.
Qed.

Lemma lor_disjoint e f g :
  Z.land f g = 0%Z -> has_flag (Z.lor e f) g = has_flag e g.
Proof.
  intros Hfg. unfold has_flag. do 2 f_equal.
  apply Z.bits_inj'. intros i Hi. apply (f_equal (fun z => Z.testbit z i)) in Hfg.
  rewrite !Z.land_spec, Z.lor_spec. rewrite Z.land_spec, Z.bits_0 in Hfg.
  destruct (Z.testbit e i), (Z.testbit f i), (Z.testbit g i); done.
Qed.

Lemma lor_same e f : f <> 0%Z -> has_flag (Z.lor e f) f = true.
Proof.
  intros Hf. unfold has_flag. apply negb_true_iff, Z.eqb_neq. intros Hz. apply Hf.
  apply Z.bits_inj'. intros i Hi. apply (f_equal (fun z => Z.testbit z i)) in Hz.
  rewrite Z.land_spec, Z.lor_spec, Z.bits_0 in Hz. rewrite Z.bits_0.
  destruct (Z.testbit e i), (Z.testbit f i); done.
Qed.

Lemma land_lnot_same e f : has_flag (Z.land e (Z.lnot f)) f = false.
Proof.
  unfold has_flag. apply negb_false_iff, Z.eqb_eq.
  apply Z.bits_inj'. intros i Hi. rewrite !Z.land_spec, Z.lnot_spec, Z.bits_0 by done.
  destruct (Z.testbit e i), (Z.testbit f i); done.
Qed.

Lemma read_write_disjoint : Z.land kReadEvent kWriteEvent = 0%Z /\ Z.land kWriteEvent kReadEvent = 0%Z
  /\ kReadEvent <> 0%Z /\ kWriteEvent <> 0%Z.
Proof. unfold kReadEvent, kWriteEvent, POLLOUT, POLLIN, POLLPRI. by destruct win. Qed.

(** The events of interest as two booleans. *)
Definition interest (c : Channel) : bool * bool := (isReading c, isWriting c).

Lemma request_interest r c :
  interest (set_events (request_events r (events_ c)) c) =
  match r with
  | EnableReading => (true, isWriting c)
  | DisableReading => (false, isWriting c)
  | EnableWriting => (isReading c, true)
  | DisableWriting => (isReading c, false)
  | DisableAll => (false, false)
  end.
Proof.
  destruct read_write_disjoint as (H1 & H2 & H3 & H4).
  unfold interest, isReading, isWriting. destruct r; simpl;
    rewrite ?lor_same, ?lor_disjoint, ?land_lnot_same, ?land_lnot_disjoint by done; try done.
Qed.

(** The callbacks of a channel, in the order of [handleEvent]. *)
Definition callbacks_for (c : Channel) : list callback :=
  (if calls_close c then [CbClose] else [])
  ++ (if calls_error c then [CbError] else [])
  ++ (if calls_read c then [CbRead] else [])
  ++ (if calls_write c then [CbWrite] else []).

(** What [handleEvent] reads of the channel. *)
Definition same_wants (c d : Channel) : Prop :=
  calls_close c = calls_close d /\ calls_error c = calls_error d
  /\ calls_read c = calls_read d /\ calls_write c = calls_write d.

Section Order.
Context {S : Type} (this : S -> option Channel) (modify : (Channel -> Channel) -> S -> S).
Context (run : callback -> S -> res S).

Fixpoint run_all (cbs : list callback) (s : S) : res S :=
  match cbs with
  | [] => Ok s
  | cb :: cbs' => s' ← run cb s; run_all cbs' s'
  end.

Lemma run_all_app l1 l2 s : run_all (l1 ++ l2) s = (s' ← run_all l1 s; run_all l2 s').
Proof.
  revert s; induction l1 as [|cb l1 IH]; intros s; [done|]. simpl.
  destruct (run cb s); simpl; [apply IH | done].
Qed.

Hypothesis modify_this : forall f s, this (modify f s) = f <$> this s.
Hypothesis run_keeps : forall cb s s' c, run cb s = Ok s' -> this s = Some c ->
  exists d, this s' = Some d /\ same_wants c d.

Lemma call_if_spec want cb c s d :
  this s = Some d -> same_wants c d -> (forall e, same_wants c e -> want e = want c) ->
  call_if this run want cb s = run_all (if want c then [cb] else []) s
  /\ forall s', call_if this run want cb s = Ok s' ->
       exists e, this s' = Some e /\ same_wants c e.
Proof.
  intros Hd Hc Hw. unfold call_if. rewrite Hd. simpl. rewrite (Hw d Hc).
  destruct (want c); simpl; [|split; [done | intros s' [= <-]; by exists d]].
  split; [by destruct (run cb s)|]. intros s' Hs.
  destruct (run_keeps cb s s' d Hs Hd) as (e & He & Hde). exists e. split; [done|].
  unfold same_wants in *. intuition congruence.
Qed.

Lemma handleEvent_runs s c :
  this s = Some c ->
  handleEvent this modify run s =
  (s' ← run_all (callbacks_for c) (modify (set_eventHandling true) s);
   Ok (modify (set_eventHandling false) s')).
Proof.
  intros Hc. unfold handleEvent, callbacks_for. rewrite Hc. simpl.
  assert (H0 : exists d, this (modify (set_eventHandling true) s) = Some d /\ same_wants c d)
    by (rewrite modify_this, Hc; simpl; by eexists).
  destruct H0 as (d0 & Hd0 & Hs0).
  rewrite !run_all_app.
  destruct (call_if_spec calls_close CbClose c _ d0 Hd0 Hs0) as [E1 P1];
    [by intros e (?&?&?&?)|].
  rewrite <- E1. destruct (call_if _ _ calls_close _ _) as [s1|] eqn:R1; [|done].
  destruct (P1 _ eq_refl) as (d1 & Hd1 & Hs1). simpl. rewrite run_all_app.
  destruct (call_if_spec calls_error CbError c _ d1 Hd1 Hs1) as [E2 P2];
    [by intros e (?&?&?&?)|].
  rewrite <- E2. destruct (call_if _ _ calls_error _ _) as [s2|] eqn:R2; [|done].
  destruct (P2 _ eq_refl) as (d2 & Hd2 & Hs2). simpl. rewrite run_all_app.
  destruct (call_if_spec calls_read CbRead c _ d2 Hd2 Hs2) as [E3 P3];
    [by intros e (?&?&?&?)|].
  rewrite <- E3. destruct (call_if _ _ calls_read _ _) as [s3|] eqn:R3; [|done].
  destruct (P3 _ eq_refl) as (d3 & Hd3 & Hs3). simpl.
  destruct (call_if_spec calls_write CbWrite c _ d3 Hd3 Hs3) as [E4 P4];
    [by intros e (?&?&?&?)|].
  rewrite <- E4. destruct (call_if _ _ calls_write _ _) as [s4|] eqn:R4; [|done].
  destruct (P4 _ eq_refl) as (d4 & Hd4 & _). simpl. by rewrite Hd4.
Qed.
End Order.

(** with callbacks that keep the channel, [handleEvent] runs exactly
    the callbacks the received events call for, each once, in the order
    close, error, read, write. A hang-up is reported as a close only when
    nothing is left to read, and a readable or writable descriptor always
    reaches its callback. *)
Theorem handleEvent_order {S} (this : S -> option Channel) modify run s c :
  (forall f s, this (modify f s) = f <$> this s) ->
  (forall cb s s' c, run cb s = Ok s' -> this s = Some c ->
     exists d, this s' = Some d /\ same_wants c d) ->
  this s = Some c -> closeCallback_ c && errorCallback_ c && readCallback_ c && writeCallback_ c ->
  exists cbs,
    handleEvent this modify run s =
      (s' ← run_all run cbs (modify (set_eventHandling true) s);
       Ok (modify (set_eventHandling false) s'))
    /\ cbs `sublist_of` [CbClose; CbError; CbRead; CbWrite]
    /\ (CbClose ∈ cbs <-> has_flag (revents_ c) POLLHUP = true /\ has_flag (revents_ c) POLLIN = false)
    /\ (CbError ∈ cbs <-> has_flag (revents_ c) (Z.lor POLLERR POLLNVAL) = true)
    /\ (CbRead ∈ cbs <-> has_flag (revents_ c) (Z.lor POLLIN POLLPRI) = true)
    /\ (CbWrite ∈ cbs <-> has_flag (revents_ c) POLLOUT = true).
Proof.
  intros Hm Hk Hc Hcb. exists (callbacks_for c). split; [by apply handleEvent_runs|].
  apply Is_true_true in Hcb. rewrite !andb_true_iff in Hcb.
  destruct Hcb as [[[H1 H2] H3] H4].
  unfold callbacks_for, calls_close, calls_error, calls_read, calls_write.
  rewrite H1, H2, H3, H4.
  destruct (has_flag (revents_ c) POLLHUP), (has_flag (revents_ c) POLLIN),
    (has_flag (revents_ c) (Z.lor POLLERR POLLNVAL)),
    (has_flag (revents_ c) (Z.lor POLLIN POLLPRI)), (has_flag (revents_ c) POLLOUT); simpl;
    split_and!; try set_solver; repeat constructor.
Qed.
End ChannelFacts.

(** A descriptor that hung up and is writable, in a state that logs the
    callbacks. *)
Definition demo_channel : Channel :=
  set_revents (Z.lor (@POLLHUP windows) (@POLLOUT windows))
    (setReadCallback (setWriteCallback (setCloseCallback (setErrorCallback (new_Channel 1 5))))).
Definition demo_run (cb : callback) (s : Channel * list callback) :
  res (Channel * list callback) := Ok (s.1, s.2 ++ [cb]).

Lemma handleEvent_order_witness :
  (exists cbs, @handleEvent windows _ (fun s => Some s.1) (fun f s => (f s.1, s.2)) demo_run
                 (demo_channel, [])
     = (s' ← run_all demo_run cbs (set_eventHandling true demo_channel, []);
        Ok (set_eventHandling false s'.1, s'.2)) /\ CbWrite ∈ cbs)
  /\ @handleEvent windows _ (fun s => Some s.1) (fun f s => (f s.1, s.2)) demo_run
       (demo_channel, []) = Ok (demo_channel, [CbClose; CbWrite]).
Proof.
  split; [|reflexivity].
  destruct (@handleEvent_order windows _ (fun s : Channel * list callback => Some s.1)
    (fun f s => (f s.1, s.2)) demo_run (demo_channel, []) demo_channel)
    as (cbs & H & _ & _ & _ & _ & Hw); try done.
  - intros cb s s' c [= <-] [= <-]. by exists s.1.
  - exists cbs. split; [exact H | by apply Hw].
Defined.
