(* ===== verification/Poller.v ===== *)
(** * The poller: [src/msmuduo/net/Poller.h], [Poller.cpp],
    [poller/PollPoller.h], [PollPoller.cpp]

    Channels are objects in a store, named by their addresses: the poller keeps
    pointers to them and writes their [index_] and [revents_]. The answer of
    [WSAPoll] or [poll], the event count and the received events, is an
    input. *)
From S2P Require Import Prelude.
From S2P Require Import Endian.
From S2P Require Import Format.
From S2P Require Import Timestamp.
From S2P Require Import Channel.

(** The address of a [Channel]. *)
Abbreviation chan := positive.

Record pollfd := mkPollfd { pfd_fd : Z; pfd_events : Z; pfd_revents : Z }.

(** [objs] holds the channel objects; [channels_] maps descriptors to
    channels and [pollfds_] is the array given to [poll]. *)
Record PollPoller := mkPollPoller {
  objs : gmap chan Channel;
  channels_ : gmap Z chan;
  pollfds_ : list pollfd
}.

Definition new_PollPoller (cs : gmap chan Channel) : PollPoller := mkPollPoller cs ∅ [].

Definition upd_channel (id : chan) (f : Channel -> Channel) (p : PollPoller) : PollPoller :=
  mkPollPoller (alter f id (objs p)) (channels_ p) (pollfds_ p).

(** [static_cast<short>]. *)
Definition short (e : Z) : Z := wrapS 16 e.

(** The descriptor stored to have [poll] skip the entry. *)
Definition ignored (fd : Z) : Z := (- fd - 1)%Z.

Definition updateChannel (id : chan) (p : PollPoller) : res PollPoller :=
  c ← get_ NullDeref (objs p !! id);
  if (index_ c <? 0)%Z then
    assert_ (bool_decide (channels_ p !! fd_ c = None));;
    let fds := pollfds_ p ++ [mkPollfd (fd_ c) (short (events_ c)) 0] in
    Ok (mkPollPoller (<[id := set_index (Z.of_nat (length fds) - 1) c]> (objs p))
          (<[fd_ c := id]> (channels_ p)) fds)
  else
    assert_ (bool_decide (channels_ p !! fd_ c = Some id));;
    let idx := index_ c in
    assert_ ((0 <=? idx)%Z && (idx <? Z.of_nat (length (pollfds_ p)))%Z);;
    pfd ← get_ OutOfBounds (pollfds_ p !! Z.to_nat idx);
    assert_ ((pfd_fd pfd =? fd_ c)%Z || (pfd_fd pfd =? ignored (fd_ c))%Z);;
    let fd := if isNoneEvent c then ignored (fd_ c) else pfd_fd pfd in
    Ok (mkPollPoller (objs p) (channels_ p)
          (<[Z.to_nat idx := mkPollfd fd (short (events_ c)) 0]> (pollfds_ p))).

Definition removeChannel (id : chan) (p : PollPoller) : res PollPoller :=
  c ← get_ NullDeref (objs p !! id);
  assert_ (bool_decide (channels_ p !! fd_ c = Some id));;
  assert_ (isNoneEvent c);;
  let idx := index_ c in
  assert_ ((0 <=? idx)%Z && (idx <? Z.of_nat (length (pollfds_ p)))%Z);;
  pfd ← get_ OutOfBounds (pollfds_ p !! Z.to_nat idx);
  assert_ ((pfd_fd pfd =? ignored (fd_ c))%Z && (pfd_events pfd =? events_ c)%Z);;
  let chs := delete (fd_ c) (channels_ p) in
  let end_ := length (pollfds_ p) - 1 in
  if Z.to_nat idx =? end_ then
    Ok (mkPollPoller (objs p) chs (take end_ (pollfds_ p)))
  else
    back ← get_ OutOfBounds (pollfds_ p !! end_);
    let channelAtEnd := if (pfd_fd back <? 0)%Z then ignored (pfd_fd back) else pfd_fd back in
    last ← get_ NullDeref (chs !! channelAtEnd);
    lastc ← get_ NullDeref (objs p !! last);
    Ok (mkPollPoller (<[last := set_index idx lastc]> (objs p)) chs
          (take end_ (<[Z.to_nat idx := back]> (pollfds_ p)))).

Definition hasChannel (id : chan) (p : PollPoller) : res bool :=
  c ← get_ NullDeref (objs p !! id);
  Ok (bool_decide (channels_ p !! fd_ c = Some id)).

Definition getChannelMapSize (p : PollPoller) : nat := size (channels_ p).

(** [fillActiveChannels]: scans the entries until [numEvents] are found,
    stores their events in the channels and lists these. *)
Fixpoint fill_from (pfds : list pollfd) (numEvents : Z) (chs : gmap Z chan)
    (cs : gmap chan Channel) : res (list chan * gmap chan Channel) :=
  match pfds with
  | [] => Ok ([], cs)
  | pfd :: pfds' =>
      if (0 <? numEvents)%Z then
        if (0 <? pfd_revents pfd)%Z then
          id ← match chs !! pfd_fd pfd with Some id => Ok id | None => Fault AssertFailed end;
          c ← get_ NullDeref (cs !! id);
          assert_ (fd_ c =? pfd_fd pfd)%Z;;
          '(l, cs') ← fill_from pfds' (numEvents - 1) chs
                        (<[id := set_revents (pfd_revents pfd) c]> cs);
          Ok (id :: l, cs')
        else fill_from pfds' numEvents chs cs
      else Ok ([], cs)
  end.

Definition fillActiveChannels (numEvents : Z) (activeChannels : list chan) (p : PollPoller) :
    res (list chan * PollPoller) :=
  '(l, cs) ← fill_from (pollfds_ p) numEvents (channels_ p) (objs p);
  Ok (activeChannels ++ l, mkPollPoller cs (channels_ p) (pollfds_ p)).

(** What the system call returns: the count, or a negative number, and the
    events received for each entry. *)
Record poll_answer := mkPollAnswer { ans_count : Z; ans_revents : list Z }.

Fixpoint set_pfd_revents (rs : list Z) (pfds : list pollfd) : list pollfd :=
  match pfds, rs with
  | pfd :: pfds', r :: rs' =>
      mkPollfd (pfd_fd pfd) (pfd_events pfd) r :: set_pfd_revents rs' pfds'
  | _, _ => pfds
  end.

(** [poll]; [&*pollfds_.begin()] needs an entry. *)
Definition poll (ans : poll_answer) (activeChannels : list chan) (p : PollPoller) :
    res (list chan * PollPoller) :=
  assert_ (negb (length (pollfds_ p) =? 0));;
  let p' := mkPollPoller (objs p) (channels_ p) (set_pfd_revents (ans_revents ans) (pollfds_ p)) in
  if (0 <? ans_count ans)%Z then fillActiveChannels (ans_count ans) activeChannels p'
  else Ok (activeChannels, p').

(** [Channel::enableReading] and its siblings, and [Channel::remove]. *)
Definition request_channel `{Platform} (r : request) (id : chan) (p : PollPoller) : res PollPoller :=
  updateChannel id (upd_channel id (fun c => set_events (request_events r (events_ c)) c) p).

Definition remove_channel (id : chan) (p : PollPoller) : res PollPoller :=
  c ← get_ NullDeref (objs p !! id);
  assert_ (isNoneEvent c);;
  removeChannel id p.
