(* ===== verification/PollerFacts.v ===== *)
(** * Correctness of the poller

    [poll_inv] relates the channel objects, the map and the array; every
    operation keeps it. [watched] is the abstract view: the descriptors the
    system call waits on, with their events. *)
From S2P Require Import Prelude.
From S2P Require Import Endian.
From S2P Require Import Format.
From S2P Require Import Timestamp.
From S2P Require Import Channel.
From S2P Require Import Poller.

(** Entry [i] of the array belongs to channel [id]. *)
Definition entry_of (p : PollPoller) (id : chan) (c : Channel) (i : nat) (pfd : pollfd) : Prop :=
  objs p !! id = Some c /\ index_ c = Z.of_nat i /\ pollfds_ p !! i = Some pfd
  /\ (0 <= fd_ c)%Z /\ (pfd_fd pfd = fd_ c \/ pfd_fd pfd = ignored (fd_ c)).

Definition registered (p : PollPoller) (id : chan) (c : Channel) : Prop :=
  objs p !! id = Some c /\ channels_ p !! fd_ c = Some id.

Record poll_inv (p : PollPoller) : Prop := {
  inv_chs : forall fd id, channels_ p !! fd = Some id ->
    exists c i pfd, fd_ c = fd /\ entry_of p id c i pfd;
  inv_fds : forall i, i < length (pollfds_ p) ->
    exists id c, registered p id c /\ index_ c = Z.of_nat i
}.

(** What [poll] waits for. *)
Definition watched (p : PollPoller) (fd ev : Z) : Prop :=
  (0 <= fd)%Z /\ exists i pfd, pollfds_ p !! i = Some pfd /\ pfd_fd pfd = fd /\ pfd_events pfd = ev.

Lemma poll_inv_new cs : poll_inv (new_PollPoller cs).
Proof. split; simpl; [intros fd id; by rewrite lookup_empty | lia]. Qed.

Lemma ignored_neg fd : (0 <= fd)%Z -> (ignored fd < 0)%Z.
Proof. unfold ignored. lia. Qed.

Lemma ignored_invol fd : ignored (ignored fd) = fd.
Proof. unfold ignored. lia. Qed.

Section Inv.
Context (p : PollPoller) (Hinv : poll_inv p).

Lemma registered_entry id c :
  registered p id c -> exists i pfd, entry_of p id c i pfd.
Proof.
  intros [Ho Hc]. destruct (inv_chs p Hinv _ _ Hc) as (c' & i & pfd & _ & He).
  destruct (He) as (Ho' & _). assert (c' = c) as -> by congruence. by exists i, pfd.
Qed.

Lemma entry_owner i pfd :
  pollfds_ p !! i = Some pfd -> exists id c, registered p id c /\ entry_of p id c i pfd.
Proof.
  intros Hi. destruct (inv_fds p Hinv i) as (id & c & Hr & Hx).
  { by eapply lookup_lt_Some. }
  exists id, c. split; [done|]. destruct (registered_entry id c Hr) as (j & pfd' & He).
  destruct (He) as (? & Hj & Hp & ?). assert (j = i) as -> by lia.
  assert (pfd' = pfd) as -> by congruence. done.
Qed.

(** Two registered channels with the same index or descriptor are one. *)
Lemma registered_index id1 c1 id2 c2 :
  registered p id1 c1 -> registered p id2 c2 -> index_ c1 = index_ c2 -> id1 = id2 /\ c1 = c2.
Proof.
  intros H1 H2 Hi. destruct (registered_entry _ _ H1) as (i & pfd & _ & Hi1 & Hp1 & Hf1 & Hd1).
  destruct (registered_entry _ _ H2) as (j & pfd2 & _ & Hi2 & Hp2 & Hf2 & Hd2).
  assert (i = j) as -> by lia. assert (pfd2 = pfd) as -> by congruence.
  assert (fd_ c1 = fd_ c2) as Hf by (unfold ignored in *; lia).
  destruct H1 as [Ho1 Hc1], H2 as [Ho2 Hc2]. rewrite Hf in Hc1.
  assert (id1 = id2) as -> by congruence. split; congruence.
Qed.

Lemma registered_index_nonneg id c : registered p id c -> (0 <= index_ c)%Z.
Proof. intros H. destruct (registered_entry _ _ H) as (i & pfd & _ & -> & _). lia. Qed.

Lemma watched_inj i j pfd1 pfd2 :
  pollfds_ p !! i = Some pfd1 -> pollfds_ p !! j = Some pfd2 ->
  pfd_fd pfd1 = pfd_fd pfd2 -> i = j.
Proof.
  intros H1 H2 Hf.
  destruct (entry_owner _ _ H1) as (id1 & c1 & R1 & _ & I1 & _ & F1 & D1).
  destruct (entry_owner _ _ H2) as (id2 & c2 & R2 & _ & I2 & _ & F2 & D2).
  assert (fd_ c1 = fd_ c2) as Hfd by (unfold ignored in *; lia).
  destruct R1 as [O1 C1], R2 as [O2 C2]. rewrite Hfd in C1.
  assert (id1 = id2) as -> by congruence. assert (c1 = c2) as -> by congruence. lia.
Qed.

Lemma watched_fun fd ev1 ev2 : watched p fd ev1 -> watched p fd ev2 -> ev1 = ev2.
Proof.
  intros (_ & i & pfd1 & H1 & F1 & <-) (_ & j & pfd2 & H2 & F2 & <-).
  assert (i = j) as -> by (apply (watched_inj i j pfd1 pfd2); congruence). congruence.
Qed.
End Inv.

(** ** Changing events *)

(** Channel fields the invariant does not read may change, and so may the
    received events. *)
Lemma poll_inv_ext p q :
  poll_inv p -> channels_ q = channels_ p ->
  (forall id c, objs p !! id = Some c -> exists c',
     objs q !! id = Some c' /\ fd_ c' = fd_ c /\ index_ c' = index_ c) ->
  (pfd_fd <$> pollfds_ q) = (pfd_fd <$> pollfds_ p) ->
  poll_inv q.
Proof.
  intros [H1 H2] Hch Hl Hfds.
  assert (Hp : forall i pfd, pollfds_ p !! i = Some pfd -> exists pfd',
    pollfds_ q !! i = Some pfd' /\ pfd_fd pfd' = pfd_fd pfd).
  { intros i pfd Hi. apply (f_equal (fun l => l !! i)) in Hfds.
    rewrite !list_lookup_fmap, Hi in Hfds. simpl in Hfds.
    destruct (pollfds_ q !! i) as [pfd'|]; [|done]. injection Hfds as Hfds. by exists pfd'. }
  split.
  - rewrite Hch. intros fd id' Hc. destruct (H1 fd id' Hc) as (c & i & pfd & Hfd & Ho & Hi & Hpf & Hn & Hd).
    destruct (Hl _ _ Ho) as (c' & Hc' & Ef & Ei). destruct (Hp _ _ Hpf) as (pfd' & Hp' & Epf).
    exists c', i, pfd'. unfold entry_of. rewrite Ef, Ei, Epf. done.
  - intros i Hi. apply (f_equal length) in Hfds. rewrite !length_fmap in Hfds.
    destruct (H2 i) as (id' & c & [Ho Hc] & Hx); [lia|].
    destruct (Hl _ _ Ho) as (c' & Hc' & Ef & Ei). exists id', c'.
    unfold registered. rewrite Hch, Ef, Ei. done.
Qed.

Lemma poll_inv_upd p id f :
  poll_inv p -> (forall c, fd_ (f c) = fd_ c /\ index_ (f c) = index_ c) ->
  poll_inv (upd_channel id f p).
Proof.
  intros Hinv Hf. apply (poll_inv_ext p); try done.
  intros id' c Hc. simpl. destruct (decide (id = id')) as [->|Hne].
  - exists (f c). rewrite lookup_alter, decide_True, Hc by done. split; [done | apply Hf].
  - exists c. by rewrite lookup_alter_ne.
Qed.

(** A registered channel's entry is rewritten in place. *)
Lemma poll_inv_insert p i pfd pfd' id c :
  poll_inv p -> entry_of p id c i pfd ->
  (pfd_fd pfd' = fd_ c \/ pfd_fd pfd' = ignored (fd_ c)) -> channels_ p !! fd_ c = Some id ->
  poll_inv (mkPollPoller (objs p) (channels_ p) (<[i := pfd']> (pollfds_ p))).
Proof.
  intros Hinv He Hd Hc. destruct (He) as (Ho & Hi & Hp & Hf & _). split.
  - intros fd id' Hc'. destruct (inv_chs p Hinv _ _ Hc') as (c2 & j & pfd2 & <- & Ho2 & Hj & Hp2 & R).
    destruct (decide (i = j)) as [<-|Hne].
    + destruct (registered_index p Hinv id' c2 id c) as [-> ->]; try done; [lia|].
      exists c, i, pfd'. unfold entry_of. simpl.
      rewrite list_lookup_insert_eq by (by eapply lookup_lt_Some). done.
    + exists c2, j, pfd2. unfold entry_of. simpl. by rewrite list_lookup_insert_ne.
  - intros j Hj. simpl in Hj. rewrite length_insert in Hj. apply (inv_fds p Hinv j Hj).
Qed.

Lemma watched_insert p i pfd pfd' fd ev :
  poll_inv p -> pollfds_ p !! i = Some pfd ->
  pfd_fd pfd' <> fd -> pfd_fd pfd <> fd ->
  watched (mkPollPoller (objs p) (channels_ p) (<[i := pfd']> (pollfds_ p))) fd ev
  <-> watched p fd ev.
Proof.
  intros Hinv Hi H1 H2. unfold watched. simpl. split; intros (Hn & j & q & Hq & Hf & Hev).
  - split; [done|]. destruct (decide (i = j)) as [<-|Hne].
    + rewrite list_lookup_insert_eq in Hq by (by eapply lookup_lt_Some). congruence.
    + rewrite list_lookup_insert_ne in Hq by done. by exists j, q.
  - split; [done|]. destruct (decide (i = j)) as [<-|Hne]; [congruence|].
    exists j, q. by rewrite list_lookup_insert_ne.
Qed.

(** [updateChannel] on a registered channel. *)
Lemma update_registered p id c :
  poll_inv p -> registered p id c ->
  exists p', updateChannel id p = Ok p' /\ poll_inv p' /\ objs p' = objs p
    /\ channels_ p' = channels_ p
    /\ (forall fd ev, fd <> fd_ c -> watched p' fd ev <-> watched p fd ev)
    /\ (forall ev, watched p' (fd_ c) ev <->
          ev = short (events_ c) /\ isNoneEvent c = false /\ exists ev0, watched p (fd_ c) ev0)
    /\ exists i pfd, entry_of p' id c i pfd /\ pfd_events pfd = short (events_ c)
         /\ (isNoneEvent c = true -> pfd_fd pfd = ignored (fd_ c)).
Proof.
  intros Hinv Hr. destruct (registered_entry p Hinv id c Hr) as (i & pfd & He).
  destruct (He) as (Ho & Hi & Hp & Hf & Hd). destruct Hr as [_ Hc].
  unfold updateChannel. rewrite Ho. run_res. rewrite Hi.
  replace (Z.of_nat i <? 0)%Z with false by (symmetry; apply Z.ltb_ge; lia).
  rewrite bool_decide_true by done. run_res.
  pose proof (lookup_lt_Some _ _ _ Hp) as Hlt.
  replace (0 <=? Z.of_nat i)%Z with true by (symmetry; apply Z.leb_le; lia).
  replace (Z.of_nat i <? Z.of_nat (length (pollfds_ p)))%Z with true
    by (symmetry; apply Z.ltb_lt; lia). run_res.
  rewrite Nat2Z.id, Hp. run_res.
  replace ((pfd_fd pfd =? fd_ c)%Z || (pfd_fd pfd =? ignored (fd_ c))%Z) with true
    by (symmetry; apply orb_true_iff; rewrite !Z.eqb_eq; done).
  run_res. eexists. split; [done|].
  assert (Hd' : forall b : bool, (if b then ignored (fd_ c) else pfd_fd pfd) = fd_ c \/
    (if b then ignored (fd_ c) else pfd_fd pfd) = ignored (fd_ c)) by (intros []; tauto).
  split_and!; try done.
  - by eapply poll_inv_insert; [| |apply Hd'|].
  - intros fd ev Hne. split.
    + intros Hw. assert (0 <= fd)%Z by apply Hw. revert Hw.
      apply watched_insert with (pfd := pfd); try done; simpl;
        [destruct (Hd' (isNoneEvent c)) as [->| ->] | destruct Hd as [->| ->]]; unfold ignored; lia.
    + intros Hw. assert (0 <= fd)%Z by apply Hw. revert Hw.
      apply watched_insert with (pfd := pfd); try done; simpl;
        [destruct (Hd' (isNoneEvent c)) as [->| ->] | destruct Hd as [->| ->]]; unfold ignored; lia.
  - intros ev. split.
    + intros (_ & j & q & Hq & Hqf & Hev). simpl in Hq.
      destruct (decide (i = j)) as [<-|Hne].
      * rewrite list_lookup_insert_eq in Hq by done. injection Hq as <-. simpl in *.
        destruct (isNoneEvent c); [unfold ignored in Hqf; lia|].
        split_and!; try done. exists (pfd_events pfd). split; [done|]. by exists i, pfd.
      * rewrite list_lookup_insert_ne in Hq by done. exfalso.
        destruct (entry_owner p Hinv _ _ Hq) as (id2 & c2 & R2 & _ & I2 & _ & F2 & D2).
        assert (fd_ c2 = fd_ c) as E by (unfold ignored in *; lia).
        destruct R2 as [O2 C2]. rewrite E in C2. assert (id2 = id) as -> by congruence.
        assert (c2 = c) as -> by congruence. lia.
    + intros (-> & Hn & ev0 & _ & j & q & Hq & Hqf & _). split; [done|].
      exists i. eexists. simpl. rewrite list_lookup_insert_eq by done.
      split; [done|]. simpl. rewrite Hn. split; [|done].
      destruct (entry_owner p Hinv _ _ Hq) as (id2 & c2 & R2 & _ & I2 & Hq2 & F2 & D2).
      assert (fd_ c2 = fd_ c) as E by (unfold ignored in *; lia).
      destruct R2 as [O2 C2]. rewrite E in C2. assert (id2 = id) as -> by congruence.
      assert (c2 = c) as -> by congruence. assert (j = i) as -> by lia. congruence.
  - exists i. eexists. unfold entry_of. simpl. rewrite list_lookup_insert_eq by done.
    split; [split_and!; try done; apply Hd'|]. split; [done|]. simpl. by intros ->.
Qed.

(** [updateChannel] on a new channel. *)
Lemma update_new p id c :
  poll_inv p -> objs p !! id = Some c -> (index_ c < 0)%Z -> (0 <= fd_ c)%Z ->
  channels_ p !! fd_ c = None ->
  exists p' i, updateChannel id p = Ok p' /\ poll_inv p'
    /\ objs p' = <[id := set_index (Z.of_nat i) c]> (objs p) /\ channels_ p' = <[fd_ c := id]> (channels_ p)
    /\ (forall fd ev, watched p' fd ev <-> watched p fd ev \/ fd = fd_ c /\ ev = short (events_ c)).
Proof.
  intros Hinv Ho Hi Hf Hc. unfold updateChannel. rewrite Ho. run_res.
  replace (index_ c <? 0)%Z with true by (symmetry; by apply Z.ltb_lt).
  rewrite bool_decide_true by done. run_res.
  set (n := length (pollfds_ p)). exists (mkPollPoller
    (<[id := set_index (Z.of_nat n) c]> (objs p)) (<[fd_ c := id]> (channels_ p))
    (pollfds_ p ++ [mkPollfd (fd_ c) (short (events_ c)) 0])), n.
  assert (Hnew : forall id' c', registered p id' c' -> id' <> id).
  { intros id' c' Hr ->. pose proof (registered_index_nonneg p Hinv _ _ Hr).
    destruct Hr. assert (c' = c) as -> by congruence. lia. }
  split; [do 3 f_equal; autorewrite with msm_len; simpl; f_equal; fold n; lia|].
  split; [|split; [done|split; [done|]]].
  - split; simpl.
    + intros fd id' Hl. destruct (decide (fd = fd_ c)) as [->|Hne].
      * rewrite lookup_insert_eq in Hl. injection Hl as <-.
        exists (set_index (Z.of_nat n) c), n. eexists. split; [done|].
        unfold entry_of. simpl. rewrite lookup_insert_eq, list_lookup_middle by done. naive_solver.
      * rewrite lookup_insert_ne in Hl by done.
        destruct (inv_chs p Hinv _ _ Hl) as (c2 & i & pfd & <- & Ho2 & Hi2 & Hp2 & R).
        exists c2, i, pfd. split; [done|]. unfold entry_of. simpl.
        rewrite lookup_insert_ne, lookup_app_l by
          (try (eapply not_eq_sym, Hnew; by split); by eapply lookup_lt_Some). done.
    + intros i Hi'. rewrite length_app in Hi'. simpl in Hi'. fold n in Hi'.
      destruct (decide (i = n)) as [->|Hne].
      * exists id, (set_index (Z.of_nat n) c). unfold registered. simpl.
        by rewrite !lookup_insert_eq.
      * destruct (inv_fds p Hinv i) as (id2 & c2 & Hr & Hx); [lia|].
        exists id2, c2. split; [|done]. pose proof (Hnew _ _ Hr). destruct Hr as [Ho2 Hc2].
        unfold registered. simpl. rewrite lookup_insert_ne, lookup_insert_ne by congruence. done.
  - intros fd ev. unfold watched. simpl. split.
    + intros (Hn & i & q & Hq & <- & <-). rewrite lookup_app in Hq.
      destruct (pollfds_ p !! i) eqn:Hi'; [left; split; [done|]; exists i, p0; naive_solver|].
      right. apply list_lookup_singleton_Some in Hq as [_ <-]. done.
    + intros [(Hn & i & q & Hq & <- & <-)|[-> ->]].
      * split; [done|]. exists i, q.
        rewrite lookup_app_l by (by eapply lookup_lt_Some). done.
      * split; [done|]. exists n. eexists. rewrite list_lookup_middle by done. done.
Qed.

(** ** Removing a channel *)

Lemma lookup_take_insert {A} (l : list A) (i j end_ : nat) (x : A) :
  j < end_ -> i < length l ->
  take end_ (<[i := x]> l) !! j = if decide (i = j) then Some x else l !! j.
Proof.
  intros Hj Hi. rewrite lookup_take_lt by done.
  case_decide as Hd; [subst; by apply list_lookup_insert_eq | by apply list_lookup_insert_ne].
Qed.

(** What no removal changes in a channel. *)
Definition identity (c : Channel) : positive * Z * Z := (loop_ c, fd_ c, events_ c).

Section Remove.
Context (p : PollPoller) (id : chan) (c : Channel) (i : nat) (pfd : pollfd).
Hypothesis Hinv : poll_inv p.
Hypothesis Hr : registered p id c.
Hypothesis He : entry_of p id c i pfd.
Hypothesis Hfd : pfd_fd pfd = ignored (fd_ c).

Let end_ := length (pollfds_ p) - 1.
Let chs := delete (fd_ c) (channels_ p).

(** The other registered channels and their entries. *)
Lemma others fd' id' : chs !! fd' = Some id' ->
  exists c' j q, fd_ c' = fd' /\ entry_of p id' c' j q /\ j <> i /\ id' <> id.
Proof.
  intros Hl. destruct (He) as (Ho & Hi & _). pose proof Hr as [_ Hc].
  apply lookup_delete_Some in Hl as [Hne Hl].
  destruct (inv_chs p Hinv _ _ Hl) as (c' & j & q & <- & He'). exists c', j, q.
  split; [done|]. split; [done|]. destruct (He') as (Ho' & Hj & _).
  split; [|congruence]. intros ->. apply Hne.
  destruct (registered_index p Hinv id' c' id c) as [-> ->]; [by split|done|lia|done].
Qed.

(** The owner of another entry stays registered. *)
Lemma owner_kept j : j < length (pollfds_ p) -> j <> i ->
  exists id' c', registered p id' c' /\ index_ c' = Z.of_nat j
    /\ chs !! fd_ c' = Some id' /\ id' <> id.
Proof.
  intros Hj Hne. destruct (inv_fds p Hinv j Hj) as (id' & c' & Hr' & Hx).
  exists id', c'. destruct (Hr') as [Ho' Hc']. destruct (He) as (Ho & Hi & _).
  assert (id' <> id) by (intros ->; assert (c' = c) as -> by congruence; lia).
  split_and!; try done. unfold chs. rewrite lookup_delete_ne; [done|].
  intros Heq. pose proof Hr as [_ Hc]. congruence.
Qed.

Definition popped : PollPoller := mkPollPoller (objs p) chs (take end_ (pollfds_ p)).

Lemma popped_inv : i = end_ -> poll_inv popped.
Proof.
  intros Hie. split; simpl.
  - intros fd' id' Hl. destruct (others _ _ Hl) as (c' & j & q & Hfd' & (Ho' & Hj & Hq & R) & Hne & _).
    pose proof (lookup_lt_Some _ _ _ Hq).
    exists c', j, q. split; [done|]. unfold entry_of. simpl.
    rewrite lookup_take_lt by lia. done.
  - intros j Hj. rewrite length_take in Hj.
    destruct (owner_kept j) as (id' & c' & [Ho' _] & Hx & Hc' & _); [lia..|].
    by exists id', c'.
Qed.

Lemma removed_unwatched : (0 <= fd_ c)%Z -> (pfd_fd pfd < 0)%Z.
Proof. rewrite Hfd. apply ignored_neg. Qed.

Lemma popped_watched fd ev : i = end_ -> watched popped fd ev <-> watched p fd ev.
Proof.
  intros Hie. destruct (He) as (_ & _ & Hp & Hf & _). pose proof (removed_unwatched Hf).
  unfold watched. simpl. split; intros (Hnn & j & q & Hq & <- & <-);
    (split; [done|]); exists j, q; (split; [|done]).
  - apply lookup_take_Some in Hq. tauto.
  - pose proof (lookup_lt_Some _ _ _ Hq). rewrite lookup_take_lt; [done|].
    destruct (decide (j = i)) as [->|]; [|lia]. rewrite Hp in Hq. injection Hq as <-. lia.
Qed.

(** The last entry moves to the place of the removed one. *)
Section Swap.
Context (back : pollfd) (last : chan) (lc : Channel).
Hypothesis Hie : i <> end_.
Hypothesis Hback : pollfds_ p !! end_ = Some back.
Hypothesis Hrl : registered p last lc.
Hypothesis Hel : entry_of p last lc end_ back.

Definition swapped : PollPoller :=
  mkPollPoller (<[last := set_index (Z.of_nat i) lc]> (objs p)) chs
    (take end_ (<[i := back]> (pollfds_ p))).

Lemma last_ne : last <> id.
Proof.
  intros Heq. destruct Hel as (Hol & Hxl & _), He as (Ho & Hi & _).
  rewrite Heq in Hol. assert (lc = c) as E by congruence. rewrite E in Hxl. lia.
Qed.

Lemma last_chs : chs !! fd_ lc = Some last.
Proof.
  unfold chs. pose proof last_ne. pose proof Hr as [_ Hc]. destruct Hrl as [_ Hcl].
  rewrite lookup_delete_ne; congruence.
Qed.

Lemma in_range : i < length (pollfds_ p).
Proof. destruct He as (_ & _ & Hp & _). by eapply lookup_lt_Some. Qed.

Lemma swapped_inv : poll_inv swapped.
Proof.
  pose proof in_range as Hlt. pose proof Hel as (Hol & Hxl & _ & Hfl & Hdl). split; simpl.
  - intros fd' id' Hl. destruct (others _ _ Hl) as (c' & j & q & Hfd' & (Ho' & Hj & Hq & R) & Hne & _).
    pose proof (lookup_lt_Some _ _ _ Hq).
    destruct (decide (id' = last)) as [->|Hnl].
    + assert (c' = lc) as -> by congruence. assert (j = end_) as -> by lia.
      exists (set_index (Z.of_nat i) lc), i, back. split; [done|]. unfold entry_of. simpl.
      rewrite lookup_insert_eq, lookup_take_insert, decide_True by (done || lia).
      split_and!; try done; lia.
    + assert (j <> end_).
      { intros ->. apply Hnl.
        destruct (registered_index p Hinv id' c' last lc) as [-> _]; [|done|lia|done].
        apply lookup_delete_Some in Hl as [_ Hl]. rewrite <- Hfd' in Hl. by split. }
      exists c', j, q. split; [done|]. unfold entry_of. simpl.
      rewrite lookup_insert_ne by done.
      rewrite lookup_take_insert, decide_False by (done || lia). done.
  - intros j Hj. rewrite length_take, length_insert in Hj.
    destruct (decide (j = i)) as [->|Hji].
    + exists last, (set_index (Z.of_nat i) lc). unfold registered. simpl.
      rewrite lookup_insert_eq. split; [split; [done|] | done]. apply last_chs.
    + destruct (owner_kept j) as (id' & c' & [Ho' _] & Hx & Hc' & _); [lia..|].
      assert (id' <> last) by (intros ->; assert (c' = lc) as -> by congruence; lia).
      exists id', c'. split; [|done]. unfold registered. simpl.
      by rewrite lookup_insert_ne.
Qed.

Lemma swapped_watched fd ev : watched swapped fd ev <-> watched p fd ev.
Proof.
  pose proof in_range as Hlt. destruct (He) as (_ & _ & Hp & Hf & _).
  pose proof (removed_unwatched Hf).
  unfold watched. simpl. split; intros (Hnn & j & q & Hq & <- & <-); (split; [done|]).
  - apply lookup_take_Some in Hq as [Hq Hj].
    destruct (decide (i = j)) as [Hij|].
    + rewrite <- Hij, list_lookup_insert_eq in Hq by done. injection Hq as <-. by exists end_, back.
    + rewrite list_lookup_insert_ne in Hq by done. by exists j, q.
  - pose proof (lookup_lt_Some _ _ _ Hq).
    assert (j <> i) by (intros ->; rewrite Hp in Hq; injection Hq as <-; lia).
    destruct (decide (j = end_)) as [->|].
    + exists i, q. rewrite lookup_take_insert, decide_True by (done || lia).
      rewrite Hback in Hq. by injection Hq as <-.
    + exists j, q. rewrite lookup_take_insert, decide_False by (done || lia). done.
Qed.
End Swap.

Lemma removeChannel_spec :
  isNoneEvent c = true -> pfd_events pfd = events_ c ->
  exists p', removeChannel id p = Ok p' /\ poll_inv p' /\ channels_ p' = chs
    /\ (forall id', identity <$> objs p' !! id' = identity <$> objs p !! id')
    /\ (forall fd ev, watched p' fd ev <-> watched p fd ev).
Proof.
  intros Hn Hev. destruct (He) as (Ho & Hi & Hp & Hf & _).
  pose proof (lookup_lt_Some _ _ _ Hp) as Hlt. pose proof Hr as [_ Hc].
  unfold removeChannel. rewrite Ho. run_res. rewrite bool_decide_true by done. rewrite Hn. run_res.
  rewrite Hi, Nat2Z.id, Hp.
  replace (0 <=? Z.of_nat i)%Z with true by (symmetry; apply Z.leb_le; lia).
  replace (Z.of_nat i <? Z.of_nat (length (pollfds_ p)))%Z with true
    by (symmetry; apply Z.ltb_lt; lia). run_res.
  rewrite Hfd, Hev, !Z.eqb_refl. run_res. fold end_ chs.
  destruct (Nat.eqb_spec i end_) as [Hie|Hie].
  - exists popped. split; [done|]. split; [by apply popped_inv|]. split; [done|].
    split; [done | intros; by apply popped_watched].
  - destruct (lookup_lt_is_Some_2 (pollfds_ p) end_) as [back Hback]; [unfold end_; lia|].
    destruct (entry_owner p Hinv _ _ Hback) as (last & lc & Hrl & Hel).
    pose proof Hel as (Hol & _ & _ & Hfl & Hdl).
    rewrite Hback. run_res.
    assert ((if (pfd_fd back <? 0)%Z then ignored (pfd_fd back) else pfd_fd back) = fd_ lc) as ->.
    { case_if; destruct Hdl as [Hd|Hd]; rewrite Hd in *; unfold ignored in *; lia. }
    rewrite (last_chs back last lc Hie Hrl Hel). run_res. rewrite Hol. run_res.
    exists (swapped back last lc). split; [done|]. split; [by apply swapped_inv|]. split; [done|].
    split; [|intros; by apply swapped_watched].
    intros id'. simpl. destruct (decide (id' = last)) as [->|].
    + by rewrite lookup_insert_eq, Hol.
    + by rewrite lookup_insert_ne.
Qed.
End Remove.

(** ** Filling the active channels *)

Definition positive_revents (pfds : list pollfd) : nat :=
  length (filter (fun pfd => 0 < pfd_revents pfd)%Z pfds).

(** The channels of the entries that received events. *)
Definition active (chs : gmap Z chan) (pfds : list pollfd) : list chan :=
  omap (fun pfd => if (0 <? pfd_revents pfd)%Z then chs !! pfd_fd pfd else None) pfds.

(** Every entry that received events has its channel. *)
Definition fillable (chs : gmap Z chan) (cs : gmap chan Channel) (pfds : list pollfd) : Prop :=
  Forall (fun pfd => (0 < pfd_revents pfd)%Z -> exists id c,
    chs !! pfd_fd pfd = Some id /\ cs !! id = Some c /\ fd_ c = pfd_fd pfd) pfds.

Lemma fillable_set chs cs pfds id c r :
  cs !! id = Some c -> fillable chs cs pfds -> fillable chs (<[id := set_revents r c]> cs) pfds.
Proof.
  intros Hc Hall. eapply Forall_impl; [exact Hall|]. intros pfd H Hp.
  destruct (H Hp) as (id' & c' & H1 & H2 & H3). exists id'.
  destruct (decide (id = id')) as [<-|Hne].
  - exists (set_revents r c). rewrite lookup_insert_eq. assert (c' = c) as -> by congruence. done.
  - exists c'. by rewrite lookup_insert_ne.
Qed.

Lemma positive_cons pfd pfds :
  positive_revents (pfd :: pfds)
  = (if (0 <? pfd_revents pfd)%Z then 1 else 0) + positive_revents pfds.
Proof.
  unfold positive_revents. rewrite filter_cons.
  destruct (Z.ltb_spec 0 (pfd_revents pfd)); [rewrite decide_True by done | rewrite decide_False by lia];
    done.
Qed.

Lemma active_cons chs pfd pfds id :
  (0 < pfd_revents pfd)%Z -> chs !! pfd_fd pfd = Some id ->
  active chs (pfd :: pfds) = id :: active chs pfds.
Proof. intros H1 H2. unfold active. simpl. apply Z.ltb_lt in H1. by rewrite H1, H2. Qed.

Lemma active_skip chs pfd pfds :
  (pfd_revents pfd <= 0)%Z -> active chs (pfd :: pfds) = active chs pfds.
Proof. intros H1. unfold active. simpl. apply Z.ltb_ge in H1. by rewrite H1. Qed.

Lemma active_elem chs pfds id :
  id ∈ active chs pfds <->
  exists pfd, pfd ∈ pfds /\ (0 < pfd_revents pfd)%Z /\ chs !! pfd_fd pfd = Some id.
Proof.
  unfold active. rewrite list_elem_of_omap. split.
  - intros (pfd & Hin & H). exists pfd. destruct (Z.ltb_spec 0 (pfd_revents pfd)); done.
  - intros (pfd & Hin & Hr & H). exists pfd. apply Z.ltb_lt in Hr. by rewrite Hr.
Qed.

Lemma positive_none chs pfds : positive_revents pfds = 0 -> active chs pfds = [].
Proof.
  induction pfds as [|q l IH]; [done|]. rewrite positive_cons. intros H0.
  destruct (Z.ltb_spec 0 (pfd_revents q)); [lia|]. rewrite active_skip by done. apply IH. lia.
Qed.

(** The scan finds the active channels and stores their events. *)
Lemma fill_from_spec pfds n chs cs :
  fillable chs cs pfds -> (Z.of_nat (positive_revents pfds) <= n)%Z -> NoDup (active chs pfds) ->
  exists cs', fill_from pfds n chs cs = Ok (active chs pfds, cs')
    /\ (forall id, id ∉ active chs pfds -> cs' !! id = cs !! id)
    /\ (forall pfd id c, pfd ∈ pfds -> (0 < pfd_revents pfd)%Z -> chs !! pfd_fd pfd = Some id ->
          cs !! id = Some c -> cs' !! id = Some (set_revents (pfd_revents pfd) c)).
Proof.
  revert n cs; induction pfds as [|pfd pfds IH]; intros n cs Hf Hn Hnd.
  { exists cs. split; [done|]. split; [done|]. intros q id c Hq. by apply elem_of_nil in Hq. }
  apply Forall_cons in Hf as [Hp Hf]. rewrite positive_cons in Hn. simpl fill_from.
  destruct (Z.ltb_spec 0 (pfd_revents pfd)) as [Hr|Hr].
  - replace (0 <? n)%Z with true by (symmetry; apply Z.ltb_lt; lia).
    destruct (Hp Hr) as (id & c & H1 & H2 & H3). rewrite H1. run_res. rewrite H2. run_res.
    rewrite H3, Z.eqb_refl. run_res. rewrite (active_cons _ _ _ id) in * by done.
    apply NoDup_cons in Hnd as [Hni Hnd].
    destruct (IH (n - 1)%Z (<[id := set_revents (pfd_revents pfd) c]> cs)) as (cs' & E & Ho & Hs);
      [by apply fillable_set | lia | done |]. rewrite E. run_res. exists cs'.
    split; [done|]. split.
    + intros id' Hni'. rewrite not_elem_of_cons in Hni'. destruct Hni' as [Hne Hni'].
      rewrite (Ho id' Hni'). by rewrite lookup_insert_ne.
    + intros q id' c' Hq Hqr Hqc Hc'. apply elem_of_cons in Hq as [->|Hq].
      * assert (id' = id) as -> by congruence. assert (c' = c) as -> by congruence.
        by rewrite (Ho id Hni), lookup_insert_eq.
      * assert (id <> id').
        { intros <-. apply Hni, active_elem. by exists q. }
        apply (Hs q); try done. by rewrite lookup_insert_ne.
  - rewrite active_skip in * by done.
    assert (Hsub : forall q, q ∈ pfd :: pfds -> (0 < pfd_revents q)%Z -> q ∈ pfds).
    { intros q Hq Hq0. apply elem_of_cons in Hq as [->|]; [lia | done]. }
    destruct (IH n cs Hf ltac:(lia) Hnd) as (cs' & E & Ho & Hs).
    destruct (0 <? n)%Z eqn:Hn0.
    + exists cs'. split; [done|]. split; [done|]. intros; eapply Hs; eauto.
    + apply Z.ltb_ge in Hn0. exists cs. rewrite positive_none by lia.
      split; [done|]. split; [done|]. intros q id c Hq Hq0 Hc _. exfalso.
      assert (id ∈ active chs pfds) as Hin by (apply active_elem; exists q; auto).
      rewrite positive_none in Hin by lia. by apply elem_of_nil in Hin.
Qed.

(** What the system call promises: one answer per entry, nothing for the
    entries to ignore, and the count of the others. *)
Definition poll_contract (p : PollPoller) (ans : poll_answer) : Prop :=
  length (ans_revents ans) = length (pollfds_ p)
  /\ (forall i pfd r, pollfds_ p !! i = Some pfd -> ans_revents ans !! i = Some r ->
       (pfd_fd pfd < 0)%Z -> r = 0%Z)
  /\ ans_count ans = Z.of_nat (length (filter (fun r => 0 < r)%Z (ans_revents ans))).

Lemma set_pfd_revents_lookup rs pfds i q :
  length rs = length pfds ->
  set_pfd_revents rs pfds !! i = Some q <->
  exists pfd r, pfds !! i = Some pfd /\ rs !! i = Some r
    /\ q = mkPollfd (pfd_fd pfd) (pfd_events pfd) r.
Proof.
  revert rs i; induction pfds as [|pfd pfds IH]; intros [|r rs] i Hl; try done; simpl.
  - split; [done | naive_solver].
  - destruct i as [|i]; simpl; [split; [intros [= <-]; by exists pfd, r | naive_solver]|].
    apply IH. by injection Hl.
Qed.

Lemma set_pfd_revents_fds rs pfds :
  pfd_fd <$> set_pfd_revents rs pfds = pfd_fd <$> pfds.
Proof. revert rs; induction pfds; intros [|]; try done. rewrite !fmap_cons. simpl. by f_equal. Qed.

Lemma set_pfd_revents_positive rs pfds :
  length rs = length pfds ->
  positive_revents (set_pfd_revents rs pfds) = length (filter (fun r => 0 < r)%Z rs).
Proof.
  revert rs; induction pfds as [|pfd pfds IH]; intros [|r rs] Hl; try done.
  simpl set_pfd_revents. rewrite positive_cons, filter_cons, IH by (by injection Hl). simpl.
  destruct (Z.ltb_spec 0 r); [rewrite decide_True by done | rewrite decide_False by lia]; done.
Qed.

Section PollAnswer.
Context (p : PollPoller) (ans : poll_answer).
Hypothesis Hinv : poll_inv p.
Hypothesis Hans : poll_contract p ans.

Let pfds := set_pfd_revents (ans_revents ans) (pollfds_ p).
Let q := mkPollPoller (objs p) (channels_ p) pfds.

Lemma answered_inv : poll_inv q.
Proof.
  apply (poll_inv_ext p); try done; [intros id c Hc; by exists c | apply set_pfd_revents_fds].
Qed.

(** An entry that received events is watched, so it has its descriptor. *)
Lemma answered_entry pfd :
  pfd ∈ pfds -> (0 < pfd_revents pfd)%Z ->
  exists id c, registered p id c /\ pfd_fd pfd = fd_ c
    /\ ans_revents ans !! Z.to_nat (index_ c) = Some (pfd_revents pfd).
Proof.
  intros Hin Hr. apply list_elem_of_lookup in Hin as (i & Hi). destruct Hans as (Hl & Hneg & _).
  apply set_pfd_revents_lookup in Hi as (pfd0 & r & Hp0 & Hri & ->); [|done]. simpl in *.
  destruct (entry_owner p Hinv _ _ Hp0) as (id & c & Hreg & _ & Hx & _ & Hf & Hd).
  exists id, c. split; [done|]. rewrite Hx, Nat2Z.id. split; [|done].
  destruct Hd as [->| Hd]; [done|]. exfalso. pose proof (ignored_neg _ Hf).
  assert (r = 0%Z) by (by apply (Hneg i pfd0); [..|lia]). lia.
Qed.

Lemma answered_active id :
  id ∈ active (channels_ p) pfds <->
  exists c r, registered p id c /\ ans_revents ans !! Z.to_nat (index_ c) = Some r /\ (0 < r)%Z.
Proof.
  rewrite active_elem. split.
  - intros (pfd & Hin & Hr & Hc). destruct (answered_entry pfd Hin Hr) as (id' & c & Hreg & Hf & Ha).
    rewrite Hf in Hc. pose proof Hreg as [_ Hc']. assert (id' = id) as -> by congruence.
    by exists c, (pfd_revents pfd).
  - intros (c & r & Hreg & Hr & Hpos). destruct Hans as (Hl & Hneg & _).
    destruct (registered_entry p Hinv id c Hreg) as (i & pfd & Ho & Hx & Hp & Hf & Hd).
    rewrite Hx, Nat2Z.id in Hr.
    exists (mkPollfd (pfd_fd pfd) (pfd_events pfd) r). simpl. split_and!; [|done|].
    + apply (list_elem_of_lookup_2 _ i), set_pfd_revents_lookup; [done|]. by exists pfd, r.
    + destruct Hd as [->|Hd]; [apply Hreg|]. exfalso. pose proof (ignored_neg _ Hf).
      assert (r = 0%Z) by (by apply (Hneg i pfd); [..|lia]). lia.
Qed.

Lemma answered_nodup : NoDup (active (channels_ p) pfds).
Proof.
  assert (H : forall i j pfd1 pfd2 id, pfds !! i = Some pfd1 -> pfds !! j = Some pfd2 ->
    channels_ p !! pfd_fd pfd1 = Some id -> channels_ p !! pfd_fd pfd2 = Some id -> i = j).
  { intros i j pfd1 pfd2 id H1 H2 C1 C2. apply (watched_inj q answered_inv i j pfd1 pfd2); try done.
    destruct (inv_chs p Hinv _ _ C1) as (c1 & ? & ? & E1 & O1 & _).
    destruct (inv_chs p Hinv _ _ C2) as (c2 & ? & ? & E2 & O2 & _). congruence. }
  clearbody pfds. clear Hans q. induction pfds as [|pfd l IH]; [constructor|].
  assert (IH' : NoDup (active (channels_ p) l)).
  { apply IH. intros i j pfd1 pfd2 id H1 H2 C1 C2.
    enough (S i = S j) by lia. by apply (H (S i) (S j) pfd1 pfd2 id). }
  unfold active. simpl. destruct (0 <? pfd_revents pfd)%Z; [|done].
  destruct (channels_ p !! pfd_fd pfd) as [id|] eqn:Hc; [|done].
  apply NoDup_cons. split; [|done]. intros Hin.
  apply active_elem in Hin as (pfd2 & Hin & _ & Hc2).
  apply list_elem_of_lookup in Hin as (j & Hj).
  by pose proof (H 0 (S j) pfd pfd2 id eq_refl Hj Hc Hc2).
Qed.

Lemma answered_fillable : fillable (channels_ p) (objs p) pfds.
Proof.
  apply Forall_forall. intros pfd Hin Hr.
  destruct (answered_entry pfd Hin Hr) as (id & c & [Ho Hc] & Hf & _).
  exists id, c. rewrite Hf. done.
Qed.

(** The scan after the system call. *)
Lemma scan_spec :
  exists cs, fill_from pfds (ans_count ans) (channels_ p) (objs p)
               = Ok (active (channels_ p) pfds, cs)
    /\ (forall id c r, registered p id c -> ans_revents ans !! Z.to_nat (index_ c) = Some r ->
          (0 < r)%Z -> cs !! id = Some (set_revents r c))
    /\ (forall id, id ∉ active (channels_ p) pfds -> cs !! id = objs p !! id).
Proof.
  pose proof Hans as (Hlen & _ & Hcount).
  destruct (fill_from_spec pfds (ans_count ans) (channels_ p) (objs p)) as (cs & E & Ho & Hs).
  { by apply answered_fillable. }
  { unfold pfds. rewrite set_pfd_revents_positive by done. lia. }
  { by apply answered_nodup. }
  exists cs. split; [done|]. split; [|done]. intros id c r Hreg Hr Hpos.
  assert (id ∈ active (channels_ p) pfds) as Hin by (apply answered_active; naive_solver).
  apply active_elem in Hin as (pfd & Hin & Hpp & Hc).
  destruct (answered_entry pfd Hin Hpp) as (id2 & c2 & [O2 C2] & Hf2 & Hr2).
  rewrite Hf2 in Hc. assert (id2 = id) as -> by congruence. destruct Hreg as [O1 C1].
  assert (c2 = c) as -> by congruence. assert (r = pfd_revents pfd) as -> by congruence.
  apply (Hs pfd); try done. congruence.
Qed.

Lemma scanned_inv cs :
  (forall id c r, registered p id c -> ans_revents ans !! Z.to_nat (index_ c) = Some r ->
     (0 < r)%Z -> cs !! id = Some (set_revents r c)) ->
  (forall id, id ∉ active (channels_ p) pfds -> cs !! id = objs p !! id) ->
  poll_inv (mkPollPoller cs (channels_ p) pfds).
Proof.
  intros Hset Ho. apply (poll_inv_ext q); try done; [apply answered_inv|]. simpl.
  intros id c Hc. destruct (decide (id ∈ active (channels_ p) pfds)) as [Hin|Hin].
  - apply answered_active in Hin as (c2 & r & Hreg & Hr & Hpos).
    pose proof Hreg as [O2 _]. assert (c2 = c) as -> by congruence.
    rewrite (Hset id c r) by done. by eexists.
  - rewrite (Ho id Hin). by exists c.
Qed.

(** [poll] scans whatever the count. *)
Lemma poll_fill :
  pollfds_ p <> [] -> poll ans [] p = fillActiveChannels (ans_count ans) [] q.
Proof.
  intros Hne. unfold poll.
  replace (length (pollfds_ p) =? 0) with false
    by (symmetry; apply Nat.eqb_neq; by destruct (pollfds_ p)).
  run_res. fold pfds q. destruct (0 <? ans_count ans)%Z eqn:Hn; [done|].
  unfold fillActiveChannels. simpl. destruct pfds as [|pfd l] eqn:Hp; simpl; [done|].
  by rewrite Hn.
Qed.
End PollAnswer.

(** What [poll] returns and the state it leaves. *)
Lemma poll_spec p ans :
  poll_inv p -> pollfds_ p <> [] -> poll_contract p ans ->
  let pfds := set_pfd_revents (ans_revents ans) (pollfds_ p) in
  let l := active (channels_ p) pfds in
  exists cs, poll ans [] p = Ok (l, mkPollPoller cs (channels_ p) pfds)
    /\ poll_inv (mkPollPoller cs (channels_ p) pfds) /\ NoDup l
    /\ (forall id, id ∈ l <-> exists c r, registered p id c
          /\ ans_revents ans !! Z.to_nat (index_ c) = Some r /\ (0 < r)%Z)
    /\ (forall id c r, registered p id c -> ans_revents ans !! Z.to_nat (index_ c) = Some r ->
          (0 < r)%Z -> cs !! id = Some (set_revents r c))
    /\ (forall id, id ∉ l -> cs !! id = objs p !! id).
Proof.
  intros Hinv Hne Hans pfds l. destruct (scan_spec p ans Hinv Hans) as (cs & E & Hset & Ho).
  exists cs. rewrite (poll_fill p ans Hne). unfold fillActiveChannels. simpl. rewrite E. run_res.
  split; [done|]. split; [by apply scanned_inv|].
  split; [by apply answered_nodup|]. split; [intros id; by apply answered_active | by split].
Qed.

Lemma set_pfd_revents_watched p cs ans fd ev :
  length (ans_revents ans) = length (pollfds_ p) ->
  watched (mkPollPoller cs (channels_ p) (set_pfd_revents (ans_revents ans) (pollfds_ p))) fd ev
  <-> watched p fd ev.
Proof.
  intros Hl. unfold watched. simpl. split; intros (Hn & i & q & Hq & <- & <-); (split; [done|]).
  - apply set_pfd_revents_lookup in Hq as (pfd & r & Hp & _ & ->); [|done]. by exists i, pfd.
  - destruct (lookup_lt_is_Some_2 (ans_revents ans) i) as [r Hr].
    { rewrite Hl. by eapply lookup_lt_Some. }
    exists i. eexists. rewrite set_pfd_revents_lookup by done. split; [by exists q, r | done].
Qed.

(** C12: whatever [poll] answers within its contract, the poller reports each
    registered channel that received events exactly once, stores those events
    in it, leaves the other channels alone and keeps its invariant; none of
    its assertions fails. *)
Theorem poll_reports p ans :
  poll_inv p -> pollfds_ p <> [] -> poll_contract p ans ->
  exists l p', poll ans [] p = Ok (l, p') /\ poll_inv p' /\ NoDup l
    /\ channels_ p' = channels_ p
    /\ (forall id, id ∈ l <-> exists c r, registered p id c
          /\ ans_revents ans !! Z.to_nat (index_ c) = Some r /\ (0 < r)%Z)
    /\ (forall id c r, registered p id c -> ans_revents ans !! Z.to_nat (index_ c) = Some r ->
          (0 < r)%Z -> objs p' !! id = Some (set_revents r c))
    /\ (forall id, id ∉ l -> objs p' !! id = objs p !! id).
Proof.
  intros Hinv Hne Hans. destruct (poll_spec p ans Hinv Hne Hans) as (cs & E & Hp & Hnd & Hl & Hset & Ho).
  eexists _, _. split; [exact E|]. split; [done|]. split; [done|]. split; [done|]. done.
Qed.

(** C13: [enableReading] and its siblings implement the interest of the
    channel: afterwards [poll] waits for exactly the requested events on its
    descriptor, provided the channel is new or was being watched, and other
    descriptors are not affected. A registered channel that was put to sleep
    is not watched again, whatever it enables. *)
Theorem request_watched `{Platform} p id c r :
  poll_inv p -> objs p !! id = Some c -> (0 <= fd_ c)%Z ->
  ((index_ c < 0)%Z /\ channels_ p !! fd_ c = None) \/ channels_ p !! fd_ c = Some id ->
  exists p', request_channel r id p = Ok p' /\ poll_inv p'
    /\ channels_ p' !! fd_ c = Some id
    /\ (forall fd ev, fd <> fd_ c -> watched p' fd ev <-> watched p fd ev)
    /\ (forall ev, watched p' (fd_ c) ev <->
          ev = short (request_events r (events_ c))
          /\ ((index_ c < 0)%Z \/ request_events r (events_ c) <> kNoneEvent
                /\ exists ev0, watched p (fd_ c) ev0)).
Proof.
  intros Hinv Ho Hf Hcase. unfold request_channel.
  set (e := request_events r (events_ c)).
  set (q := upd_channel id _ p).
  assert (Hq : poll_inv q) by (apply poll_inv_upd; [done | by intros []]).
  assert (Hoq : objs q !! id = Some (set_events e c)).
  { simpl. by rewrite lookup_alter, decide_True, Ho. }
  destruct (decide (index_ c < 0)%Z) as [Hi|Hi].
  - destruct Hcase as [[_ Hc]|Hc].
    2: { destruct (registered_entry p Hinv id c) as (i & pfd & _ & Hx & _); [by split|]. lia. }
    destruct (update_new q id (set_events e c)) as (p' & i & E & Hp' & _ & Hch & Hw); try done.
    exists p'. split; [done|]. split; [done|]. rewrite Hch. simpl. rewrite lookup_insert_eq.
    split; [done|]. split.
    + intros fd ev Hne. rewrite Hw. simpl. naive_solver.
    + intros ev. rewrite Hw. simpl. split; [|naive_solver].
      intros [(_ & j & pfd & Hj & Hfd & _)|[_ ->]]; [|naive_solver]. exfalso.
      destruct (entry_owner p Hinv j pfd Hj) as (id2 & c2 & [O2 C2] & _ & _ & _ & F2 & D2).
      assert (fd_ c2 = fd_ c) as Hff by (unfold ignored in *; lia). congruence.
  - destruct Hcase as [[? _]|Hc]; [done|].
    destruct (update_registered q id (set_events e c)) as (p' & E & Hp' & _ & Hch & Hw1 & Hw2 & _);
      try done.
    exists p'. split; [done|]. split; [done|]. rewrite Hch. split; [done|]. split; [done|].
    intros ev. rewrite (Hw2 ev). simpl. unfold isNoneEvent. simpl. rewrite Z.eqb_neq.
    split; [naive_solver|]. intros (-> & [?|?]); [done | naive_solver].
Qed.

(** [disableAll] followed by [remove] succeeds on every registered
    channel: the poller forgets it, compacts its array and keeps waiting for
    the same events on every other descriptor. *)
Theorem remove_forgets `{Platform} p id c :
  poll_inv p -> registered p id c ->
  exists p1 p2, request_channel DisableAll id p = Ok p1 /\ remove_channel id p1 = Ok p2
    /\ poll_inv p2 /\ channels_ p2 = delete (fd_ c) (channels_ p)
    /\ hasChannel id p2 = Ok false
    /\ (forall fd ev, fd <> fd_ c -> watched p2 fd ev <-> watched p fd ev)
    /\ (forall ev, ~ watched p2 (fd_ c) ev).
Proof.
  intros Hinv [Ho Hc].
  set (q := upd_channel id (fun c => set_events (request_events DisableAll (events_ c)) c) p).
  assert (Hq : poll_inv q) by (apply poll_inv_upd; [done | by intros []]).
  set (c0 := set_events kNoneEvent c).
  assert (Hoq : objs q !! id = Some c0) by (simpl; by rewrite lookup_alter, decide_True, Ho).
  destruct (update_registered q id c0) as (p1 & E1 & Hp1 & Hob & Hch & Hw1 & Hw2 & i & pfd & He & Hev & Hfd);
    [done | by split|].
  assert (Hr1 : registered p1 id c0) by (split; [by rewrite Hob | by rewrite Hch]).
  destruct (removeChannel_spec p1 id c0 i pfd Hp1 Hr1 He) as (p2 & E2 & Hp2 & Hch2 & Hob2 & Hw);
    [by apply Hfd | done | by rewrite Hev |].
  exists p1, p2. split; [done|]. split.
  { unfold remove_channel. destruct Hr1 as [Ho1 _]. rewrite Ho1. run_res. done. }
  split; [done|]. rewrite Hch2, Hch. split; [done|]. split.
  - unfold hasChannel. destruct Hr1 as [Ho1 _]. specialize (Hob2 id). rewrite Ho1 in Hob2.
    destruct (objs p2 !! id) as [c2|]; [|done]. injection Hob2 as _ Hf2 _. run_res. rewrite bool_decide_false; [done|].
    rewrite Hch2, Hf2, lookup_delete_eq. done.
  - split.
    + intros fd ev Hne. rewrite Hw. by apply Hw1.
    + intros ev. rewrite Hw. intros (_ & Hn & _)%Hw2. done.
Qed.

(** after [disableAll] on a registered channel, [enableReading] succeeds
    but the entry keeps the negative descriptor: [poll] goes on ignoring the
    channel, although its events of interest are set. *)
Theorem reenable_ignored `{Platform} p id c :
  poll_inv p -> registered p id c ->
  exists p1 p2 c2, request_channel DisableAll id p = Ok p1
    /\ request_channel EnableReading id p1 = Ok p2
    /\ objs p2 !! id = Some c2 /\ isReading c2 = true
    /\ forall ev, ~ watched p2 (fd_ c) ev.
Proof.
  intros Hinv [Ho Hc].
  set (q := upd_channel id (fun c => set_events (request_events DisableAll (events_ c)) c) p).
  assert (Hq : poll_inv q) by (apply poll_inv_upd; [done | by intros []]).
  assert (Hoq : objs q !! id = Some (set_events kNoneEvent c))
    by (simpl; by rewrite lookup_alter, decide_True, Ho).
  destruct (update_registered q id (set_events kNoneEvent c))
    as (p1 & E1 & Hp1 & Hob & Hch & _ & Hw & _); [done | by split|].
  set (q1 := upd_channel id (fun c => set_events (request_events EnableReading (events_ c)) c) p1).
  assert (Hq1 : poll_inv q1) by (apply poll_inv_upd; [done | by intros []]).
  set (c1 := set_events (request_events EnableReading kNoneEvent) (set_events kNoneEvent c)).
  assert (Hoq1 : objs q1 !! id = Some c1)
    by (simpl; by rewrite lookup_alter, decide_True, Hob, Hoq).
  destruct (update_registered q1 id c1) as (p2 & E2 & _ & Hob2 & _ & _ & Hw2 & _);
    [done | split; [done | simpl; by rewrite Hch]|].
  exists p1, p2, c1. split; [done|]. split; [done|]. split; [by rewrite Hob2|]. split.
  - unfold isReading. simpl. apply lor_same, read_write_disjoint.
  - intros ev (_ & _ & ev0 & Hw0)%Hw2. by apply Hw in Hw0 as (_ & Hn & _).
Qed.

(** Two channels, the first of them readable. *)
Definition demo_poller : PollPoller := new_PollPoller {[ 1%positive := new_Channel 1 5; 2%positive := new_Channel 1 7 ]}.
Definition demo_added : res PollPoller :=
  p ← @request_channel windows EnableReading 1%positive demo_poller;
  @request_channel windows EnableReading 2%positive p.
Definition demo_two : PollPoller := match demo_added with Ok p => p | Fault _ => demo_poller end.

Lemma request_watched_witness :
  exists p', @request_channel windows EnableReading 1%positive demo_poller = Ok p'
    /\ watched p' 5 (@kReadEvent windows).
Proof.
  destruct (@request_watched windows demo_poller 1 (new_Channel 1 5) EnableReading)
    as (p' & E & _ & _ & _ & Hw); [apply poll_inv_new | reflexivity | simpl; lia | by left |].
  exists p'. split; [exact E|]. apply (Hw 0x300%Z). split; [reflexivity | left; reflexivity].
Defined.

Lemma demo_two_inv : poll_inv demo_two.
Proof.
  destruct (@request_watched windows demo_poller 1 (new_Channel 1 5) EnableReading)
    as (p1 & E1 & H1 & _); [apply poll_inv_new | reflexivity | simpl; lia | by left |].
  destruct (@request_watched windows p1 2 (new_Channel 1 7) EnableReading)
    as (p2 & E2 & H2 & _); [done | | simpl; lia | left |].
  1, 2: vm_compute in E1; injection E1 as <-; by vm_compute.
  unfold demo_two, demo_added. by rewrite E1; run_res; rewrite E2.
Qed.

Definition demo_answer : poll_answer := mkPollAnswer 1 [0x200%Z; 0%Z].

Lemma poll_reports_witness :
  exists l p', poll demo_answer [] demo_two = Ok (l, p') /\ poll_inv p' /\ l = [1%positive].
Proof.
  destruct (poll_reports demo_two demo_answer demo_two_inv) as (l & p' & E & Hp & _).
  - vm_compute. discriminate.
  - split; [reflexivity|]. split; [|reflexivity].
    intros [|[|i]] pfd r H1 H2 Hneg; vm_compute in H1, H2; try discriminate H1; injection H1 as <-; injection H2 as <-;
      [by vm_compute in Hneg | reflexivity].
  - exists l, p'. split; [exact E|]. split; [exact Hp|].
    vm_compute in E. by injection E as <- _.
Defined.

Lemma demo_registered : exists c, registered demo_two 1%positive c /\ fd_ c = 5%Z.
Proof.
  exists (set_index 0 (set_events (@kReadEvent windows) (new_Channel 1 5))).
  split; [split|]; reflexivity.
Qed.

Lemma remove_forgets_witness :
  exists c p1 p2, fd_ c = 5%Z /\ @request_channel windows DisableAll 1%positive demo_two = Ok p1
    /\ remove_channel 1%positive p1 = Ok p2 /\ hasChannel 1%positive p2 = Ok false.
Proof.
  destruct demo_registered as (c & Hr & Hf).
  destruct (@remove_forgets windows demo_two 1%positive c demo_two_inv Hr)
    as (p1 & p2 & E1 & E2 & _ & _ & H & _).
  exists c, p1, p2. done.
Defined.

Lemma reenable_ignored_witness :
  exists p1 p2, @request_channel windows DisableAll 1%positive demo_two = Ok p1
    /\ @request_channel windows EnableReading 1%positive p1 = Ok p2 /\ forall ev, ~ watched p2 5 ev.
Proof.
  destruct demo_registered as (c & Hr & Hf).
  destruct (@reenable_ignored windows demo_two 1%positive c demo_two_inv Hr)
    as (p1 & p2 & c2 & E1 & E2 & _ & _ & H). rewrite Hf in H.
  exists p1, p2. done.
Defined.
