(* ===== verification/EventLoop.v ===== *)
(** * The event loop: [src/msmuduo/net/EventLoop.h], [EventLoop.cpp]

    The state of an [EventLoop], its operations, and the loop thread as a
    machine that other threads interleave with. Functors and event handlers
    are user code: each time one runs, the operations of the loop it calls are
    an input of the step. A [send] of [wakeup] puts one eight-byte message in the
    socket pair; [handleRead] takes one out. *)
From S2P Require Import Prelude.
From S2P Require Import Endian.
From S2P Require Import Timestamp.
From S2P Require Import Channel.
From S2P Require Import Poller.
From S2P Require Import PollerFacts.

(** [loop_->assertInLoopThread()] in the owner of a loop pointer, which knows
    whether the calling thread is the loop's. *)
Definition assert_in_loop (in_loop : bool) : res unit :=
  if in_loop then Ok tt else Fault LogFatal.

Section EventLoop.
Context `{Platform} {F : Type}.

(** [this_] is the address of the object and [wakeupFd_] counts the
    messages waiting in the socket pair. *)
Record EventLoop := mkEventLoop {
  this_ : positive;
  looping_ : bool;
  quit_ : bool;
  ev_handling_ : bool;
  callingPendingFunctors_ : bool;
  iterator_ : Z;
  threadId_ : Z;
  poller_ : PollPoller;
  wakeupFd_ : nat;
  wakeupChannel_ : chan;
  activeChannels_ : list chan;
  currentActiveChannel_ : option chan;
  pendingFunctors_ : list F
}.

Definition set_flags looping quit handling calling (l : EventLoop) : EventLoop :=
  mkEventLoop (this_ l) looping quit handling calling (iterator_ l) (threadId_ l)
    (poller_ l) (wakeupFd_ l) (wakeupChannel_ l) (activeChannels_ l)
    (currentActiveChannel_ l) (pendingFunctors_ l).
Definition set_looping b l := set_flags b (quit_ l) (ev_handling_ l) (callingPendingFunctors_ l) l.
Definition set_quit b l := set_flags (looping_ l) b (ev_handling_ l) (callingPendingFunctors_ l) l.
Definition set_handling b l := set_flags (looping_ l) (quit_ l) b (callingPendingFunctors_ l) l.
Definition set_calling b l := set_flags (looping_ l) (quit_ l) (ev_handling_ l) b l.
Definition set_poller p (l : EventLoop) : EventLoop :=
  mkEventLoop (this_ l) (looping_ l) (quit_ l) (ev_handling_ l) (callingPendingFunctors_ l)
    (iterator_ l) (threadId_ l) p (wakeupFd_ l) (wakeupChannel_ l) (activeChannels_ l)
    (currentActiveChannel_ l) (pendingFunctors_ l).
Definition set_wakeup n (l : EventLoop) : EventLoop :=
  mkEventLoop (this_ l) (looping_ l) (quit_ l) (ev_handling_ l) (callingPendingFunctors_ l)
    (iterator_ l) (threadId_ l) (poller_ l) n (wakeupChannel_ l) (activeChannels_ l)
    (currentActiveChannel_ l) (pendingFunctors_ l).
Definition set_pending fs (l : EventLoop) : EventLoop :=
  mkEventLoop (this_ l) (looping_ l) (quit_ l) (ev_handling_ l) (callingPendingFunctors_ l)
    (iterator_ l) (threadId_ l) (poller_ l) (wakeupFd_ l) (wakeupChannel_ l) (activeChannels_ l)
    (currentActiveChannel_ l) fs.
Definition set_active it act cur (l : EventLoop) : EventLoop :=
  mkEventLoop (this_ l) (looping_ l) (quit_ l) (ev_handling_ l) (callingPendingFunctors_ l)
    it (threadId_ l) (poller_ l) (wakeupFd_ l) (wakeupChannel_ l) act cur (pendingFunctors_ l).

(** ** Threads and channels *)

Definition isInLoopThread (tid : Z) (l : EventLoop) : bool := (threadId_ l =? tid)%Z.

(** [abortNotInLoopThread] is a [LOG_FATAL]. *)
Definition assertInLoopThread (tid : Z) (l : EventLoop) : res unit :=
  if isInLoopThread tid l then Ok tt else Fault LogFatal.

Definition assert_owner (id : chan) (l : EventLoop) : res unit :=
  c ← get_ NullDeref (objs (poller_ l) !! id);
  assert_ (loop_ c =? this_ l)%positive.

Definition loop_updateChannel (tid : Z) (id : chan) (l : EventLoop) : res EventLoop :=
  assert_owner id l;;
  assertInLoopThread tid l;;
  p ← updateChannel id (poller_ l);
  Ok (set_poller p l).

Definition loop_removeChannel (tid : Z) (id : chan) (l : EventLoop) : res EventLoop :=
  assert_owner id l;;
  assertInLoopThread tid l;;
  assert_ (if ev_handling_ l
           then bool_decide (currentActiveChannel_ l = Some id)
                || bool_decide (id ∉ activeChannels_ l)
           else true);;
  p ← removeChannel id (poller_ l);
  Ok (set_poller p l).

Definition loop_hasChannel (tid : Z) (id : chan) (l : EventLoop) : res bool :=
  assert_owner id l;;
  assertInLoopThread tid l;;
  hasChannel id (poller_ l).

(** ** Construction

    [other] is the loop the thread already has, if any, and [pair_ok] the
    result of [socketpair] and of making it non-blocking. The wake-up
    channel is a new object at [id] with descriptor [fd]. *)
Definition new_EventLoop (this : positive) (tid : Z) (other : option positive)
    (pair_ok : bool) (id : chan) (fd : Z) : res EventLoop :=
  (if pair_ok || negb win then Ok tt else Fault LogFatal);;
  match other with Some _ => Fault LogFatal | None => Ok tt end;;
  let wakeup := setReadCallback (new_Channel this fd) in
  let l := mkEventLoop this false false false false 0 tid (new_PollPoller {[ id := wakeup ]})
             0 id [] None [] in
  loop_updateChannel tid id
    (set_poller (upd_channel id (fun c => set_events (request_events EnableReading (events_ c)) c)
                   (poller_ l)) l).

(** [~EventLoop]: the wake-up channel leaves the poller. *)
Definition delete_EventLoop (tid : Z) (l : EventLoop) : res EventLoop :=
  l ← loop_updateChannel tid (wakeupChannel_ l)
        (set_poller (upd_channel (wakeupChannel_ l) (set_events kNoneEvent) (poller_ l)) l);
  loop_removeChannel tid (wakeupChannel_ l) l.

(** ** Waking up, quitting and queueing *)

Definition wakeup (l : EventLoop) : EventLoop := set_wakeup (S (wakeupFd_ l)) l.

Definition handleRead (l : EventLoop) : EventLoop := set_wakeup (pred (wakeupFd_ l)) l.

Definition quit (tid : Z) (l : EventLoop) : EventLoop :=
  let l := set_quit true l in
  if isInLoopThread tid l then l else wakeup l.

Definition push_pending (f : F) (l : EventLoop) : EventLoop :=
  set_pending (pendingFunctors_ l ++ [f]) l.

Definition must_wakeup (tid : Z) (l : EventLoop) : bool :=
  negb (isInLoopThread tid l) || callingPendingFunctors_ l.

Definition queueInLoop (tid : Z) (f : F) (l : EventLoop) : EventLoop :=
  let l := push_pending f l in
  if must_wakeup tid l then wakeup l else l.

(** [runInLoop]: the functor to call at once, if any. *)
Definition runInLoop (tid : Z) (f : F) (l : EventLoop) : option F * EventLoop :=
  if isInLoopThread tid l then (Some f, l) else (None, queueInLoop tid f l).

(** [doPendingFunctors], for functors that run as [run] says: it calls the
    functors that were pending when it swapped the queue. *)
Definition doPendingFunctors (run : F -> EventLoop -> res EventLoop) (l : EventLoop) :
    res EventLoop :=
  let l := set_calling true l in
  let functors := pendingFunctors_ l in
  l ← foldl (fun r f => l ← r; run f l) (Ok (set_pending [] l)) functors;
  Ok (set_calling false l).

(** ** The loop thread

    The operations that functors and event handlers call. *)
Inductive cmd :=
  | RunInLoop (f : F)
  | QueueInLoop (f : F)
  | Quit
  | Request (r : request) (id : chan)
  | Remove (id : chan).

(** The answer of [poll], and what the user code that the step calls does. *)
Record inputs := mkInputs { in_poll : poll_answer; in_calls : list cmd }.

(** What is left to run of the calls in progress; [Wake] is the call of
    [wakeup] at the end of [queueInLoop]. *)
Inductive frame := Cmd (c : cmd) | Wake | ReadWakeup.

Inductive pc :=
  | AtCheck                       (* while (!quit_) *)
  | AtPoll                        (* poller_->poll *)
  | AtEvents (rest : list chan)   (* the loop over activeChannels_ *)
  | AtFunctors (rest : list F)    (* the loop of doPendingFunctors *)
  | AtEnd.                        (* loop returned *)

(** [wakers] counts the other threads between the end of their critical
    section, or [quit_ = true], and their [wakeup]. [queued] and [executed]
    record the functors queued and those taken from the queue and run. *)
Record machine := mkMachine {
  lp : EventLoop;
  at_ : pc;
  stack : list frame;
  wakers : nat;
  queued : list F;
  executed : list F
}.

Definition goto l p m := mkMachine l p (stack m) (wakers m) (queued m) (executed m).
Definition calls l st m := mkMachine l (at_ m) st (wakers m) (queued m) (executed m).

(** One call of a functor or handler; [st] is the rest. *)
Definition exec_frame (inp : inputs) (fr : frame) (st : list frame) (m : machine) : res machine :=
  let l := lp m in
  let tid := threadId_ l in
  match fr with
  | Wake => Ok (calls (wakeup l) st m)
  | ReadWakeup => Ok (calls (handleRead l) st m)
  | Cmd (RunInLoop f) =>
      let '(now, l) := runInLoop tid f l in
      Ok (calls l ((if now then Cmd <$> in_calls inp else []) ++ st) m)
  | Cmd (QueueInLoop f) =>
      let l := push_pending f l in
      Ok (mkMachine l (at_ m) (if must_wakeup tid l then Wake :: st else st) (wakers m)
            (queued m ++ [f]) (executed m))
  | Cmd Quit => Ok (calls (set_quit true l) st m)
  | Cmd (Request r id) =>
      l ← loop_updateChannel tid id
            (set_poller (upd_channel id (fun c => set_events (request_events r (events_ c)) c)
                           (poller_ l)) l);
      Ok (calls l st m)
  | Cmd (Remove id) =>
      c ← get_ NullDeref (objs (poller_ l) !! id);
      assert_ (isNoneEvent c);;
      l ← loop_removeChannel tid id l;
      Ok (calls l st m)
  end.

(** [loop()] up to its [while]. *)
Definition loop_start (tid : Z) (l : EventLoop) : res machine :=
  assert_ (negb (looping_ l));;
  assertInLoopThread tid l;;
  Ok (mkMachine (set_quit false (set_looping true l)) AtCheck [] 0 (pendingFunctors_ l) []).

(** The callbacks of an active channel. *)
Definition frames_of (inp : inputs) (id : chan) (l : EventLoop) : list frame :=
  if (id =? wakeupChannel_ l)%positive then [ReadWakeup] else Cmd <$> in_calls inp.

(** One step of the loop thread. *)
Definition loop_step (inp : inputs) (m : machine) : res machine :=
  let l := lp m in
  match stack m with
  | fr :: st => exec_frame inp fr st m
  | [] =>
      match at_ m with
      | AtCheck =>
          if quit_ l then Ok (goto (set_looping false l) AtEnd m)
          else Ok (goto (set_active (iterator_ l) [] (currentActiveChannel_ l) l) AtPoll m)
      | AtPoll =>
          '(act, p) ← poll (in_poll inp) (activeChannels_ l) (poller_ l);
          Ok (goto (set_handling true
                (set_active (iterator_ l + 1) act (currentActiveChannel_ l) (set_poller p l)))
                (AtEvents act) m)
      | AtEvents (id :: rest) =>
          Ok (mkMachine (set_active (iterator_ l) (activeChannels_ l) (Some id) l)
                (AtEvents rest) (frames_of inp id l) (wakers m) (queued m) (executed m))
      | AtEvents [] =>
          (* eventHandling_ is reset and doPendingFunctors swaps the queue *)
          let l := set_handling false (set_active (iterator_ l) (activeChannels_ l) None l) in
          Ok (goto (set_pending [] (set_calling true l)) (AtFunctors (pendingFunctors_ l)) m)
      | AtFunctors (f :: rest) =>
          Ok (mkMachine l (AtFunctors rest) (Cmd <$> in_calls inp) (wakers m) (queued m)
                (executed m ++ [f]))
      | AtFunctors [] => Ok (goto (set_calling false l) AtCheck m)
      | AtEnd => Ok m
      end
  end.

(** The level-triggered answer: the wake-up channel is readable exactly
    when a message waits. *)
Definition answers (l : EventLoop) (ans : poll_answer) : Prop :=
  poll_contract (poller_ l) ans
  /\ exists c r, objs (poller_ l) !! wakeupChannel_ l = Some c
    /\ ans_revents ans !! Z.to_nat (index_ c) = Some r
    /\ ((0 < r)%Z <-> 0 < wakeupFd_ l).

(** The wake-up channel is private to the loop. *)
Definition private_wakeup (l : EventLoop) (c : cmd) : Prop :=
  match c with
  | Request _ id | Remove id => id <> wakeupChannel_ l
  | _ => True
  end.

(** The loop thread and any number of other threads. *)
Inductive step : machine -> machine -> Prop :=
  | step_loop inp m m' :
      (at_ m = AtPoll -> stack m = [] -> answers (lp m) (in_poll inp)) ->
      Forall (private_wakeup (lp m)) (in_calls inp) ->
      loop_step inp m = Ok m' -> step m m'
  | step_push f m :   (* queueInLoop of another thread: the critical section *)
      step m (mkMachine (push_pending f (lp m)) (at_ m) (stack m) (S (wakers m))
                (queued m ++ [f]) (executed m))
  | step_quit m :     (* quit of another thread: quit_ = true *)
      step m (mkMachine (set_quit true (lp m)) (at_ m) (stack m) (S (wakers m))
                (queued m) (executed m))
  | step_wake m n :   (* its wakeup *)
      wakers m = S n ->
      step m (mkMachine (wakeup (lp m)) (at_ m) (stack m) n (queued m) (executed m)).

Inductive reachable (m0 : machine) : machine -> Prop :=
  | reach_refl : reachable m0 m0
  | reach_step m m' : reachable m0 m -> step m m' -> reachable m0 m'.
End EventLoop.

Arguments EventLoop : clear implicits.
Arguments machine : clear implicits.
Arguments cmd : clear implicits.
Arguments frame : clear implicits.
Arguments pc : clear implicits.
Arguments inputs : clear implicits.
