(* ===== verification/EventLoopFacts.v ===== *)
(** * Correctness of the event loop

    The invariant of the loop thread and the other threads, by induction on
    the steps: the wake-up channel stays watched, no functor is lost or
    reordered, and the loop never blocks with work queued. *)
From S2P Require Import Prelude.
From S2P Require Import Endian.
From S2P Require Import Timestamp.
From S2P Require Import Channel.
From S2P Require Import Poller.
From S2P Require Import PollerFacts.
From S2P Require Import EventLoop.

(** ** Requests that succeed keep the poller's invariant *)

(** Every channel object has a valid descriptor. *)
Definition fds_valid (p : PollPoller) : Prop :=
  forall id c, objs p !! id = Some c -> (0 <= fd_ c)%Z.

(** Channel [id] is registered and [poll] waits for [ev] on it. *)
Definition listens (p : PollPoller) (id : chan) (ev : Z) : Prop :=
  exists c, registered p id c /\ watched p (fd_ c) ev.

Section Requests.
Context `{Platform}.

Lemma update_keeps p p' id w ev :
  poll_inv p -> fds_valid p -> updateChannel id p = Ok p' -> id <> w -> listens p w ev ->
  poll_inv p' /\ fds_valid p' /\ listens p' w ev.
Proof.
  intros Hinv Hv E Hne (cw & [Ow Cw] & Hw).
  destruct (objs p !! id) as [c|] eqn:Ho; [|by unfold updateChannel in E; rewrite Ho in E].
  assert (Hfd : channels_ p !! fd_ c = Some id -> fd_ cw <> fd_ c) by congruence.
  destruct (decide (index_ c < 0)%Z) as [Hi|Hi].
  - destruct (channels_ p !! fd_ c) as [id'|] eqn:Hc.
    { unfold updateChannel in E. rewrite Ho in E. simpl in E. apply Z.ltb_lt in Hi.
      rewrite Hi, Hc in E. by rewrite bool_decide_false in E. }
    destruct (update_new p id c) as (p2 & i & E2 & Hp2 & Hob & Hch & Hw2); try done;
      [by apply (Hv id)|].
    rewrite E in E2. injection E2 as <-. split; [done|]. split.
    + intros id' c'. rewrite Hob. intros [[-> <-]|[_ Hl]]%lookup_insert_Some; simpl; eauto.
    + exists cw. unfold registered. rewrite Hob, Hch.
      rewrite lookup_insert_ne, lookup_insert_ne by congruence.
      split; [done|]. apply Hw2. by left.
  - assert (Hc : channels_ p !! fd_ c = Some id).
    { unfold updateChannel in E. rewrite Ho in E. simpl in E.
      replace (index_ c <? 0)%Z with false in E by (symmetry; apply Z.ltb_ge; lia).
      destruct (bool_decide (channels_ p !! fd_ c = Some id)) eqn:Hb; [|done].
      by apply bool_decide_eq_true in Hb. }
    destruct (update_registered p id c) as (p2 & E2 & Hp2 & Hob & Hch & Hw2 & _); try done.
    rewrite E in E2. injection E2 as <-. split; [done|]. split.
    + intros id' c'. rewrite Hob. apply Hv.
    + exists cw. unfold registered. rewrite Hob, Hch. split; [done|].
      apply Hw2; [by apply Hfd | done].
Qed.

Lemma upd_keeps p id e w ev :
  poll_inv p -> fds_valid p -> id <> w -> listens p w ev ->
  let q := upd_channel id (fun c => set_events (e c) c) p in
  poll_inv q /\ fds_valid q /\ listens q w ev.
Proof.
  intros Hinv Hv Hne (cw & [Ow Cw] & Hw). simpl. split; [|split].
  - apply poll_inv_upd; [done | by intros []].
  - intros id' c'. simpl. destruct (decide (id = id')) as [<-|].
    + rewrite lookup_alter, decide_True by done. destruct (objs p !! id) eqn:Ho; [|done].
      intros [= <-]. simpl. by apply (Hv id).
    + rewrite lookup_alter_ne by done. apply Hv.
  - exists cw. unfold registered. simpl. rewrite lookup_alter_ne by done. done.
Qed.

(** Removing another channel, whatever its entry looks like. *)
Lemma remove_keeps p p' id w ev :
  poll_inv p -> fds_valid p -> removeChannel id p = Ok p' -> id <> w -> listens p w ev ->
  poll_inv p' /\ fds_valid p' /\ listens p' w ev.
Proof.
  intros Hinv Hv E Hne (cw & [Ow Cw] & Hw). pose proof E as E0.
  unfold removeChannel in E. inv_res.
  rename a into c, Ha into Ho. bool_props. rename Ha0 into Hc, Ha1 into Hn.
  assert (Hr : registered p id c) by done.
  destruct (registered_entry p Hinv id c Hr) as (i & pfd & He).
  pose proof He as (_ & Hx & Hp & _).
  assert (a3 = pfd) as -> by (rewrite Hx, Nat2Z.id in Ha3; congruence). bool_props.
  destruct (removeChannel_spec p id c i pfd Hinv Hr He) as (p2 & E2 & Hp2 & Hch & Hob & Hwt);
    try done.
  rewrite E0 in E2. injection E2 as <-. split; [done|]. split.
  - intros id' c' Hc'. specialize (Hob id'). rewrite Hc' in Hob.
    destruct (objs p !! id') as [c2|] eqn:Ho2; [|done]. injection Hob as _ -> _. by apply (Hv id').
  - specialize (Hob w). rewrite Ow in Hob. destruct (objs p' !! w) as [c3|] eqn:Hc3; [|done].
    injection Hob as _ Hf _. exists c3. unfold registered.
    rewrite Hf, Hch, Hc3. split; [|by apply Hwt]. split; [done|].
    rewrite lookup_delete_ne; [done|]. congruence.
Qed.
End Requests.

(** ** The invariant of the running loop *)
Section LoopInv.
Context `{Platform} {F : Type}.
Implicit Types (l : EventLoop F) (m : machine F).

(** Someone makes the next [poll] return: a message is waiting or on its
    way. *)
Definition alerted m : Prop :=
  0 < wakers m \/ 0 < wakeupFd_ (lp m) \/ Wake ∈ stack m.

Definition poller_ok l : Prop :=
  poll_inv (poller_ l) /\ fds_valid (poller_ l)
  /\ listens (poller_ l) (wakeupChannel_ l) kReadEvent.

Definition frame_ok (p : pc F) l (fr : frame F) : Prop :=
  match fr with
  | Cmd c => private_wakeup l c
  | Wake => True
  | ReadWakeup => match p with AtEvents _ => True | _ => False end
  end.

Definition remaining (p : pc F) : list F :=
  match p with AtFunctors fs => fs | _ => [] end.

Definition in_functors (p : pc F) : bool :=
  match p with AtFunctors _ => true | _ => false end.

(** Outside of the loops over events and functors no call is in progress. *)
Definition pc_ok m : Prop :=
  match at_ m with
  | AtEvents _ | AtFunctors _ => True
  | AtPoll => stack m = [] /\ activeChannels_ (lp m) = []
  | AtCheck | AtEnd => stack m = []
  end.

(** Queued functors and requests to quit are announced wherever the loop
    could otherwise fall asleep on them. *)
Definition announced m : Prop :=
  match at_ m with
  | AtEvents _ | AtEnd => True
  | AtCheck | AtFunctors _ => pendingFunctors_ (lp m) <> [] -> alerted m
  | AtPoll => pendingFunctors_ (lp m) <> [] \/ quit_ (lp m) = true -> alerted m
  end.

Record loop_inv m : Prop := {
  li_poller : poller_ok (lp m);
  li_stack : Forall (frame_ok (at_ m) (lp m)) (stack m);
  li_pc : pc_ok m;
  li_calling : callingPendingFunctors_ (lp m) = in_functors (at_ m);
  li_announced : announced m;
  li_fifo : queued m = executed m ++ remaining (at_ m) ++ pendingFunctors_ (lp m)
}.

Lemma frames_ok_calls p l cs st :
  Forall (private_wakeup l) cs -> Forall (frame_ok p l) st ->
  Forall (frame_ok p l) ((Cmd <$> cs) ++ st).
Proof. intros Hc Hs. apply Forall_app. split; [|done]. by apply Forall_fmap. Qed.

(** Operations of the loop on its poller. *)
Lemma poller_ok_request l r id l' :
  poller_ok l -> id <> wakeupChannel_ l ->
  loop_updateChannel (threadId_ l) id
    (set_poller (upd_channel id (fun c => set_events (request_events r (events_ c)) c) (poller_ l)) l)
    = Ok l' ->
  exists p', l' = set_poller p' l /\ poller_ok l'.
Proof.
  intros (Hinv & Hv & Hw) Hne E. unfold loop_updateChannel in E. inv_res.
  destruct (upd_keeps (poller_ l) id (fun c => request_events r (events_ c)) (wakeupChannel_ l) kReadEvent)
    as (H1 & H2 & H3); try done.
  exists a1. split; [done|]. by eapply (update_keeps _ _ id).
Qed.

Lemma poller_ok_remove l id l' :
  poller_ok l -> id <> wakeupChannel_ l -> loop_removeChannel (threadId_ l) id l = Ok l' ->
  exists p', l' = set_poller p' l /\ poller_ok l'.
Proof.
  intros (Hinv & Hv & Hw) Hne E. unfold loop_removeChannel in E. inv_res.
  eexists. split; [done|]. by eapply (remove_keeps (poller_ l) _ id).
Qed.

(** Only the poller changes. *)
Lemma loop_inv_poller m p' st :
  loop_inv m -> poller_ok (set_poller p' (lp m)) ->
  (exists c, stack m = Cmd c :: st) -> loop_inv (calls (set_poller p' (lp m)) st m).
Proof.
  intros [Hp Hs Hpc Hc Ha Hf] Hp' (c & E).
  rewrite E in Hs. apply Forall_cons in Hs as [_ Hs].
  split; try done; unfold pc_ok, announced, alerted in *; simpl; rewrite E in *.
  - destruct (at_ m); naive_solver.
  - destruct (at_ m); set_solver.
Qed.

Lemma must_wakeup_in_loop l :
  must_wakeup (threadId_ l) l = callingPendingFunctors_ l.
Proof. unfold must_wakeup, isInLoopThread. by rewrite Z.eqb_refl. Qed.

Lemma exec_frame_inv inp fr st m m' :
  loop_inv m -> stack m = fr :: st -> Forall (private_wakeup (lp m)) (in_calls inp) ->
  exec_frame inp fr st m = Ok m' -> loop_inv m'.
Proof.
  intros Hinv E Hcalls Hx. pose proof Hinv as [Hp Hs Hpc Hc Ha Hf].
  rewrite E in Hs. apply Forall_cons in Hs as [Hfr Hs].
  assert (Hin : forall q, at_ m = q -> match q with AtEvents _ | AtFunctors _ => True | _ => False end).
  { intros q Hq. unfold pc_ok in Hpc. rewrite Hq, E in Hpc. destruct q; naive_solver. }
  specialize (Hin _ eq_refl).
  destruct fr as [c| |]; simpl in Hx; [destruct c as [f|f| |r id|id]|..].
  - unfold runInLoop, isInLoopThread in Hx. rewrite Z.eqb_refl in Hx. injection Hx as <-.
    split; try done; unfold pc_ok, announced, alerted in *; simpl.
    + by apply frames_ok_calls.
    + by destruct (at_ m).
    + destruct (at_ m); try done. rewrite E in Ha. set_solver.
  - injection Hx as <-. split; try done; unfold pc_ok, announced, alerted in *; simpl.
    + case_if; [by constructor | done].
    + by destruct (at_ m).
    + destruct (at_ m); try done. intros _. do 2 right.
      change (must_wakeup _ _) with (must_wakeup (threadId_ (lp m)) (lp m)).
      rewrite must_wakeup_in_loop, Hc. set_solver.
    + by rewrite Hf, !app_assoc.
  - injection Hx as <-. split; try done; unfold pc_ok, announced, alerted in *; simpl.
    + by destruct (at_ m).
    + destruct (at_ m); try done. rewrite E in Ha. set_solver.
  - inv_res. destruct (poller_ok_request _ _ _ _ Hp Hfr Ha0) as (p' & -> & Hp').
    apply loop_inv_poller; eauto.
  - inv_res. destruct (poller_ok_remove _ _ _ Hp Hfr Ha2) as (p' & -> & Hp').
    apply loop_inv_poller; eauto.
  - injection Hx as <-. split; try done; unfold pc_ok, announced, alerted in *; simpl.
    + by destruct (at_ m).
    + destruct (at_ m); try done. intros _. right. left. lia.
  - injection Hx as <-. simpl in Hfr. destruct (at_ m) eqn:Hat; try done.
    split; rewrite ?Hat; try done; unfold pc_ok, announced; simpl; by rewrite Hat.
Qed.

(** [poll] keeps the poller's state and reports the waiting message. *)
Lemma poll_listens l ans :
  poller_ok l -> answers l ans ->
  exists act p', poll ans [] (poller_ l) = Ok (act, p') /\ poller_ok (set_poller p' l)
    /\ (wakeupChannel_ l ∈ act <-> 0 < wakeupFd_ l).
Proof.
  intros (Hinv & Hv & c & Hr & Hw) (Hans & c' & r & Ho & Hr' & Hpos).
  pose proof Hr as [Ho' _]. assert (c' = c) as -> by congruence.
  destruct (poll_spec (poller_ l) ans Hinv) as (cs & E & Hp & _ & Hl & Hset & Hkeep); [|done|].
  { destruct Hw as (_ & i & pfd & Hi & _). intros Hn. by rewrite Hn in Hi. }
  assert (Hobj : forall id d, objs (poller_ l) !! id = Some d ->
    exists d', cs !! id = Some d' /\ fd_ d' = fd_ d).
  { intros id d Hd. destruct (decide (id ∈ active (channels_ (poller_ l))
      (set_pfd_revents (ans_revents ans) (pollfds_ (poller_ l))))) as [Hin|Hin].
    - apply Hl in Hin as (d2 & r2 & Hr2 & Ha & Hp2). pose proof Hr2 as [Hd2 _].
      assert (d2 = d) as -> by congruence. exists (set_revents r2 d). by rewrite (Hset id d r2).
    - rewrite (Hkeep id Hin). by exists d. }
  eexists _, _. split; [exact E|]. split.
  - split; [done|]. split.
    + intros id d Hd. simpl in Hd. destruct (decide (id ∈ active (channels_ (poller_ l))
        (set_pfd_revents (ans_revents ans) (pollfds_ (poller_ l))))) as [Hin|Hin].
      * apply Hl in Hin as (d2 & r2 & Hr2 & Ha & Hp2). rewrite (Hset id d2 r2) in Hd by done.
        injection Hd as <-. simpl. eapply Hv, Hr2.
      * rewrite (Hkeep id Hin) in Hd. by eapply Hv.
    + destruct (Hobj _ _ Ho) as (d & Hd & Hf). exists d. unfold registered. simpl.
      rewrite Hf. split; [by split; [|apply Hr]|]. apply set_pfd_revents_watched; [apply Hans | done].
  - rewrite Hl, <- Hpos. split.
    + intros (d & r2 & [Hd _] & Ha & H2). assert (d = c) as -> by congruence.
      by assert (r2 = r) as -> by congruence.
    + intros Hr0. by exists c, r.
Qed.

Lemma frames_of_ok inp id l l' rest :
  wakeupChannel_ l' = wakeupChannel_ l -> Forall (private_wakeup l) (in_calls inp) ->
  Forall (frame_ok (AtEvents rest) l') (frames_of inp id l).
Proof.
  intros Hw Hc. assert (Hc' : Forall (private_wakeup l') (in_calls inp)).
  { eapply Forall_impl; [exact Hc|]. intros []; simpl; congruence. }
  unfold frames_of. case_if; [by repeat constructor|]. by apply Forall_fmap.
Qed.

Lemma loop_step_inv inp m m' :
  loop_inv m -> (at_ m = AtPoll -> stack m = [] -> answers (lp m) (in_poll inp)) ->
  Forall (private_wakeup (lp m)) (in_calls inp) ->
  loop_step inp m = Ok m' -> loop_inv m'.
Proof.
  intros Hinv Hans Hcalls Hx. unfold loop_step in Hx.
  destruct (stack m) as [|fr st] eqn:Est; [|by eapply exec_frame_inv].
  pose proof Hinv as [Hp Hs Hpc Hc Ha Hf].
  destruct (at_ m) as [| |[|id rest]|[|f rest]|] eqn:Hat.
  - destruct (quit_ (lp m)) eqn:Hq; injection Hx as <-;
      split; try done; unfold pc_ok, announced, alerted in *; rewrite Hat in *; simpl;
      rewrite ?Est; simpl; try done.
    intros [Hpe|Hqt]; [|congruence]. rewrite Est in Ha. by apply Ha.
  - unfold pc_ok in Hpc. rewrite Hat in Hpc. destruct Hpc as [_ Hact]. rewrite Hact in Hx.
    destruct (poll_listens (lp m) (in_poll inp) Hp) as (act & p' & E & Hp' & _); [by apply Hans|].
    rewrite E in Hx. injection Hx as <-.
    split; try done; unfold pc_ok, announced; simpl; by rewrite ?Est.
  - injection Hx as <-. split; try done; unfold pc_ok, announced; simpl; rewrite ?Est; try done.
    by rewrite app_nil_r.
  - injection Hx as <-. split; try done; unfold pc_ok, announced; simpl; try done.
    by apply (frames_of_ok _ _ (lp m)).
  - injection Hx as <-. split; try done; unfold pc_ok, announced, alerted in *; simpl;
      rewrite ?Est in *; try done. rewrite Hat in Ha. done.
  - injection Hx as <-. split; try done; unfold pc_ok, announced, alerted in *; simpl; try done.
    + by apply Forall_fmap.
    + rewrite Hat, Est in Ha. intros Hne. destruct (Ha Hne) as [?|[?|Hin]]; [tauto..|].
      by apply elem_of_nil in Hin.
    + rewrite Hf. simpl. by rewrite <- !app_assoc.
  - by injection Hx as <-.
Qed.

Lemma step_inv m m' : loop_inv m -> step m m' -> loop_inv m'.
Proof.
  intros Hinv Hst. destruct Hst as [inp m m' Hans Hc Hx | f m | m | m n Hn].
  - by eapply loop_step_inv.
  - destruct Hinv as [Hp Hs Hpc Hc Ha Hf]. split; try done.
    + unfold announced, alerted. simpl. destruct (at_ m); try done; intros _; left; lia.
    + simpl. by rewrite Hf, !app_assoc.
  - destruct Hinv as [Hp Hs Hpc Hc Ha Hf]. split; try done.
    unfold announced, alerted. simpl. destruct (at_ m); try done; intros _; left; lia.
  - destruct Hinv as [Hp Hs Hpc Hc Ha Hf]. split; try done.
    unfold announced, alerted. simpl.
    destruct (at_ m); try done; intros _; right; left; lia.
Qed.

(** A loop about to start: its functors, if any, are announced. *)
Definition ready (tid : Z) l : Prop :=
  threadId_ l = tid /\ looping_ l = false /\ callingPendingFunctors_ l = false
  /\ poller_ok l /\ (pendingFunctors_ l <> [] -> 0 < wakeupFd_ l).

Lemma start_inv tid l m :
  ready tid l -> loop_start tid l = Ok m -> loop_inv m.
Proof.
  intros (Ht & Hl & Hc & Hp & Hpe) E. unfold loop_start in E. inv_res.
  split; try done. unfold announced, alerted. simpl. auto.
Qed.

Lemma reachable_inv tid l m0 m :
  ready tid l -> loop_start tid l = Ok m0 -> reachable m0 m -> loop_inv m.
Proof.
  intros Hr E Hm. induction Hm as [|m m' _ IH Hs]; [by eapply start_inv | by eapply step_inv].
Qed.
End LoopInv.

(** ** Properties *)
Section LoopProperties.
Context `{Platform} {F : Type}.

(** C1: whatever other threads do and whenever they do it, when the loop
    thread is about to wait in [poll] while a functor is queued or [quit_]
    is set, a wake-up message is waiting or its sender is on the way to send
    it; and [poll] then succeeds and reports the wake-up channel exactly when a
    message waits. So the loop never sleeps on queued work. *)
Theorem no_lost_wakeup tid (l : EventLoop F) m0 m :
  ready tid l -> loop_start tid l = Ok m0 -> reachable m0 m -> at_ m = AtPoll ->
  (pendingFunctors_ (lp m) <> [] \/ quit_ (lp m) = true -> 0 < wakers m \/ 0 < wakeupFd_ (lp m))
  /\ (forall inp, answers (lp m) (in_poll inp) ->
        exists m', loop_step inp m = Ok m' /\ at_ m' = AtEvents (activeChannels_ (lp m'))
          /\ (wakeupChannel_ (lp m) ∈ activeChannels_ (lp m') <-> 0 < wakeupFd_ (lp m))).
Proof.
  intros Hr E Hm Hat. pose proof (reachable_inv tid l m0 m Hr E Hm) as [Hp _ Hpc _ Ha _].
  unfold announced, pc_ok, alerted in *. rewrite Hat in *. destruct Hpc as [Hst Hact]. split.
  - intros Hw. destruct (Ha Hw) as [?|[?|Hin]]; [tauto..|]. rewrite Hst in Hin.
    by apply elem_of_nil in Hin.
  - intros inp Hans. unfold loop_step. rewrite Hst, Hat, Hact.
    destruct (poll_listens (lp m) (in_poll inp) Hp Hans) as (act & p' & E' & _ & Hin).
    rewrite E'. run_res. eexists. done.
Qed.

(** C8: functors run in the order in which they were queued, from whatever
    thread, each exactly once: at any time the functors run so far, those of
    the current batch still to run and those pending are together the
    functors queued, in order. *)
Theorem functors_fifo tid (l : EventLoop F) m0 m :
  ready tid l -> loop_start tid l = Ok m0 -> reachable m0 m ->
  queued m = executed m ++ remaining (at_ m) ++ pendingFunctors_ (lp m).
Proof. intros Hr E Hm. apply (reachable_inv tid l m0 m Hr E Hm). Qed.

(** A functor that queues others from the loop thread. *)
Definition requeue (news : F -> list F) (f : F) (l : EventLoop F) : res (EventLoop F) :=
  Ok (foldl (fun l g => queueInLoop (threadId_ l) g l) l (news f)).

Lemma queue_all_calling gs (l : EventLoop F) :
  callingPendingFunctors_ l = true ->
  foldl (fun l g => queueInLoop (threadId_ l) g l) l gs
  = set_pending (pendingFunctors_ l ++ gs) (set_wakeup (wakeupFd_ l + length gs) l).
Proof.
  revert l; induction gs as [|g gs IH]; intros l Hc; simpl.
  - rewrite app_nil_r, Nat.add_0_r. by destruct l.
  - assert (queueInLoop (threadId_ l) g l = wakeup (push_pending g l)) as ->.
    { unfold queueInLoop.
      change (must_wakeup (threadId_ l) (push_pending g l)) with (must_wakeup (threadId_ l) l).
      by rewrite must_wakeup_in_loop, Hc. }
    rewrite IH by done. simpl.
    rewrite <- app_assoc, <- Nat.add_succ_comm. done.
Qed.

Lemma run_batch news fs (l : EventLoop F) :
  callingPendingFunctors_ l = true ->
  foldl (fun r f => l ← r; requeue news f l) (Ok l) fs
  = Ok (set_pending (pendingFunctors_ l ++ concat (news <$> fs))
          (set_wakeup (wakeupFd_ l + length (concat (news <$> fs))) l)).
Proof.
  revert l; induction fs as [|f fs IH]; intros l Hc; simpl.
  - rewrite app_nil_r, Nat.add_0_r. by destruct l.
  - unfold requeue at 2. rewrite queue_all_calling, IH by done. simpl.
    by rewrite <- app_assoc, length_app, Nat.add_assoc.
Qed.

(** [doPendingFunctors] returns even when functors queue more functors
    for ever: it runs the batch it swapped out, and what the batch queued is
    pending for the next round, with one wake-up message for each, so that
    the next [poll] returns at once. *)
Theorem doPendingFunctors_snapshot news (l : EventLoop F) :
  let new := concat (news <$> pendingFunctors_ l) in
  doPendingFunctors (requeue news) l
  = Ok (set_calling false (set_pending new (set_wakeup (wakeupFd_ l + length new) l))).
Proof. unfold doPendingFunctors. by rewrite run_batch. Qed.

Lemma new_EventLoop_ok this tid id fd :
  (0 <= fd)%Z ->
  exists l, new_EventLoop (F:=F) this tid None true id fd = Ok l /\ ready tid l
     /\ wakeupChannel_ l = id /\ this_ l = this.
Proof.
  intros Hfd.
  set (c := set_events (Z.lor 0 kReadEvent) (setReadCallback (new_Channel this fd))).
  set (p := mkPollPoller {[ id := c ]} ∅ []).
  assert (Hp : poll_inv p) by apply poll_inv_new.
  assert (Hc : objs p !! id = Some c) by (simpl; by rewrite lookup_singleton_eq).
  destruct (update_new p id c) as (p' & i & E & Hp' & Hob & Hch & Hw); try done.
  assert (Hup : upd_channel id (fun c => set_events (request_events EnableReading (events_ c)) c)
    (new_PollPoller {[ id := setReadCallback (new_Channel this fd) ]}) = p).
  { unfold upd_channel, new_PollPoller. simpl. by rewrite alter_singleton_eq. }
  unfold new_EventLoop. run_res. cbv zeta. cbn [poller_ orb]. rewrite Hup.
  unfold loop_updateChannel, assert_owner. cbn [poller_ set_poller this_]. rewrite Hc. run_res.
  simpl loop_. rewrite Pos.eqb_refl. run_res.
  unfold assertInLoopThread, isInLoopThread. simpl threadId_. rewrite Z.eqb_refl. run_res.
  rewrite E. run_res. eexists. split; [done|]. split; [|done].
  split_and!; try done. split; [done|]. simpl. split.
  - intros id' c'. rewrite Hob. intros [[-> <-]|[_ Hl]]%lookup_insert_Some; [done|].
    simpl in Hl. by apply lookup_singleton_Some in Hl as [-> <-].
  - exists (set_index (Z.of_nat i) c). unfold registered. rewrite Hob, Hch, !lookup_insert_eq.
    split; [done|]. apply Hw. right. split; [done|]. simpl.
    unfold kReadEvent, POLLIN, POLLPRI. by destruct win.
Qed.

(** the constructor yields a loop that is ready to run: nothing pending,
    its wake-up channel registered and watched for reading; a second loop in
    the same thread is fatal. *)
Theorem new_EventLoop_ready this tid id fd :
  (0 <= fd)%Z ->
  (exists l, new_EventLoop (F:=F) this tid None true id fd = Ok l /\ ready tid l
     /\ wakeupChannel_ l = id /\ this_ l = this)
  /\ forall other, new_EventLoop (F:=F) this tid (Some other) true id fd = Fault LogFatal.
Proof. intros Hfd. split; [by apply new_EventLoop_ok | done]. Qed.
End LoopProperties.

(** ** A loop with a functor queued by another thread *)
Definition demo_loop : EventLoop nat :=
  match @new_EventLoop windows nat 1 7 None true 1 5 with
  | Ok l => l
  | Fault _ => mkEventLoop 1 false false false false 0 7 (new_PollPoller ∅) 0 1 [] None []
  end.
Definition demo_start : machine nat :=
  mkMachine (set_quit false (set_looping true demo_loop)) AtCheck [] 0 [] [].
Definition demo_queued : machine nat :=
  mkMachine (push_pending 42 (lp demo_start)) AtCheck [] 1 [42] [].
Definition demo_polling : machine nat := mkMachine (lp demo_queued) AtPoll [] 1 [42] [].

Lemma demo_ready : @ready windows nat 7 demo_loop.
Proof.
  destruct (@new_EventLoop_ok windows nat 1 7 1 5) as (l & E & Hr & _); [lia|].
  unfold demo_loop. by rewrite E.
Qed.

Lemma demo_reachable : @reachable windows nat demo_start demo_polling.
Proof.
  apply (@reach_step windows nat) with demo_queued.
  - apply (@reach_step windows nat) with demo_start; [constructor|]. apply (@step_push windows nat).
  - apply (@step_loop windows nat) with (mkInputs (mkPollAnswer 0 [0%Z]) []); [done | constructor |].
    vm_compute. reflexivity.
Qed.

Lemma no_lost_wakeup_witness :
  pendingFunctors_ (lp demo_polling) = [42] /\ (0 < wakers demo_polling \/ 0 < wakeupFd_ (lp demo_polling)).
Proof.
  split; [reflexivity|].
  apply (@no_lost_wakeup windows nat 7 demo_loop demo_start demo_polling demo_ready);
    [vm_compute; reflexivity | apply demo_reachable | reflexivity |].
  left. vm_compute. discriminate.
Defined.

Lemma functors_fifo_witness :
  queued demo_polling
  = executed demo_polling ++ remaining (at_ demo_polling) ++ pendingFunctors_ (lp demo_polling).
Proof.
  apply (@functors_fifo windows nat 7 demo_loop demo_start demo_polling demo_ready);
    [vm_compute; reflexivity | apply demo_reachable].
Defined.

Lemma new_EventLoop_ready_witness :
  exists l, @new_EventLoop windows nat 1 7 None true 1 5 = Ok l /\ looping_ l = false.
Proof.
  destruct (@new_EventLoop_ready windows nat 1 7 1 5) as [(l & E & Hr & _) _]; [lia|].
  exists l. split; [exact E | apply Hr].
Defined.
