(* ===== verification/EventLoopThread.v ===== *)
(** * One loop thread: [src/msmuduo/net/EventLoopThread.h], [EventLoopThread.cpp]

    The start and the end of a loop thread as a machine of four actors: the
    thread that calls [startLoop], the new thread in [threadFunc], the
    destructor, and any other code that calls [quit] on the loop. The state is
    finite: its reachable part is computed and searched. [condition_var_t]
    and [mutex_t] are the primitives of the operating system. *)
From S2P Require Import Prelude.
From S2P Require Import Endian.
From S2P Require Import EventLoop.

Inductive actor := Caller | Func | Dtor | Quitter | Spurious.

(** Where each actor is: [startLoop], [threadFunc] and [~EventLoopThread]. *)
Inductive caller_pc := CStart | CLock | CTest | CWait | CUnlock | CReturn | CDone (r : bool).
Inductive func_pc :=
  | FNone | FConstruct | FCallback | FLock | FPublish | FUnlock | FEnter | FLooping | FClear
  | FReturn | FExit.
Inductive dtor_pc := DNone | DTest | DQuit | DJoin | DDone.

#[export] Instance actor_eq_dec : EqDecision actor.
Proof. solve_decision. Defined.
#[export] Instance caller_eq_dec : EqDecision caller_pc.
Proof. solve_decision. Defined.
#[export] Instance func_eq_dec : EqDecision func_pc.
Proof. solve_decision. Defined.
#[export] Instance dtor_eq_dec : EqDecision dtor_pc.
Proof. solve_decision. Defined.

(** [loop_ptr] is [loop_ != NULL], [alive] says whether the [EventLoop] on
    the stack of the thread exists and [quit_flag] is its [quit_]. [sleeping]:
    the caller is inside [cond_.wait()]. *)
Record EventLoopThread := mkThread {
  loop_ptr : bool;
  exiting_ : bool;
  thread_started : bool;
  mutex_ : option actor;
  sleeping : bool;
  callback_ran : bool;
  alive : bool;
  quit_flag : bool;
  caller : caller_pc;
  func : func_pc;
  dtor : dtor_pc
}.

#[export] Instance thread_eq_dec : EqDecision EventLoopThread.
Proof. solve_decision. Defined.

Definition new_EventLoopThread : EventLoopThread :=
  mkThread false false false None false false false false CStart FNone DNone.

Definition lock (a : actor) (t : EventLoopThread) : option EventLoopThread :=
  match mutex_ t with
  | None => Some (mkThread (loop_ptr t) (exiting_ t) (thread_started t) (Some a) (sleeping t)
                    (callback_ran t) (alive t) (quit_flag t) (caller t) (func t) (dtor t))
  | Some _ => None
  end.
Definition unlock (t : EventLoopThread) : EventLoopThread :=
  mkThread (loop_ptr t) (exiting_ t) (thread_started t) None (sleeping t) (callback_ran t)
    (alive t) (quit_flag t) (caller t) (func t) (dtor t).
Definition at_caller (c : caller_pc) (t : EventLoopThread) : EventLoopThread :=
  mkThread (loop_ptr t) (exiting_ t) (thread_started t) (mutex_ t) (sleeping t) (callback_ran t)
    (alive t) (quit_flag t) c (func t) (dtor t).
Definition at_func (f : func_pc) (t : EventLoopThread) : EventLoopThread :=
  mkThread (loop_ptr t) (exiting_ t) (thread_started t) (mutex_ t) (sleeping t) (callback_ran t)
    (alive t) (quit_flag t) (caller t) f (dtor t).
Definition at_dtor (d : dtor_pc) (t : EventLoopThread) : EventLoopThread :=
  mkThread (loop_ptr t) (exiting_ t) (thread_started t) (mutex_ t) (sleeping t) (callback_ran t)
    (alive t) (quit_flag t) (caller t) (func t) d.
Definition set_sleeping (b : bool) (t : EventLoopThread) : EventLoopThread :=
  mkThread (loop_ptr t) (exiting_ t) (thread_started t) (mutex_ t) b (callback_ran t)
    (alive t) (quit_flag t) (caller t) (func t) (dtor t).
Definition set_loop_ptr (b : bool) (t : EventLoopThread) : EventLoopThread :=
  mkThread b (exiting_ t) (thread_started t) (mutex_ t) (sleeping t) (callback_ran t)
    (alive t) (quit_flag t) (caller t) (func t) (dtor t).
Definition set_alive (b : bool) (t : EventLoopThread) : EventLoopThread :=
  mkThread (loop_ptr t) (exiting_ t) (thread_started t) (mutex_ t) (sleeping t) (callback_ran t)
    b (quit_flag t) (caller t) (func t) (dtor t).
Definition set_quit_flag (b : bool) (t : EventLoopThread) : EventLoopThread :=
  mkThread (loop_ptr t) (exiting_ t) (thread_started t) (mutex_ t) (sleeping t) (callback_ran t)
    (alive t) b (caller t) (func t) (dtor t).
Definition set_started (t : EventLoopThread) : EventLoopThread :=
  mkThread (loop_ptr t) (exiting_ t) true (mutex_ t) (sleeping t) (callback_ran t)
    (alive t) (quit_flag t) (caller t) (func t) (dtor t).
Definition set_callback_ran (t : EventLoopThread) : EventLoopThread :=
  mkThread (loop_ptr t) (exiting_ t) (thread_started t) (mutex_ t) (sleeping t) true
    (alive t) (quit_flag t) (caller t) (func t) (dtor t).
Definition set_exiting (t : EventLoopThread) : EventLoopThread :=
  mkThread (loop_ptr t) true (thread_started t) (mutex_ t) (sleeping t) (callback_ran t)
    (alive t) (quit_flag t) (caller t) (func t) (dtor t).

(** [startLoop]. A step of a blocked actor is [None]. *)
Definition startLoop (t : EventLoopThread) : option (res EventLoopThread) :=
  match caller t with
  | CStart =>
      Some (assert_ (negb (thread_started t));;
            Ok (at_caller CLock (at_func FConstruct (set_started t))))
  | CLock => (fun t => Ok (at_caller CTest t)) <$> lock Caller t
  | CTest => Some (Ok (if loop_ptr t then at_caller CUnlock t
                       else at_caller CWait (set_sleeping true (unlock t))))
  | CWait => if sleeping t then None
             else (fun t => Ok (at_caller CTest t)) <$> lock Caller t
  | CUnlock => Some (Ok (at_caller CReturn (unlock t)))
  | CReturn => Some (Ok (at_caller (CDone (loop_ptr t)) t))
  | CDone _ => None
  end.

(** [threadFunc]; [loop.loop()] first resets [quit_], and returns once it is
    set. *)
Definition threadFunc (t : EventLoopThread) : option (res EventLoopThread) :=
  match func t with
  | FNone | FExit => None
  | FConstruct => Some (Ok (at_func FCallback (set_alive true t)))
  | FCallback => Some (Ok (at_func FLock (set_callback_ran t)))
  | FLock => (fun t => Ok (at_func FPublish t)) <$> lock Func t
  | FPublish => Some (Ok (at_func FUnlock (set_sleeping false (set_loop_ptr true t))))
  | FUnlock => Some (Ok (at_func FEnter (unlock t)))
  | FEnter => Some (Ok (at_func FLooping (set_quit_flag false t)))
  | FLooping => if quit_flag t then Some (Ok (at_func FClear t)) else None
  | FClear => Some (Ok (at_func FReturn (set_loop_ptr false t)))
  | FReturn => Some (Ok (at_func FExit (set_alive false t)))
  end.

(** The destructor, which the owner runs after [startLoop] returned. *)
Definition destructor (t : EventLoopThread) : option (res EventLoopThread) :=
  match dtor t with
  | DNone => match caller t with
             | CDone _ => Some (Ok (at_dtor DTest (set_exiting t)))
             | _ => None
             end
  | DTest => Some (Ok (at_dtor (if loop_ptr t then DQuit else DDone) t))
  | DQuit => Some (if alive t then Ok (at_dtor DJoin (set_quit_flag true t)) else Fault NullDeref)
  | DJoin => if decide (func t = FExit) then Some (Ok (at_dtor DDone t)) else None
  | DDone => None
  end.

Definition thread_step (a : actor) (t : EventLoopThread) : option (res EventLoopThread) :=
  match a with
  | Caller => startLoop t
  | Func => threadFunc t
  | Dtor => destructor t
  | Quitter => if callback_ran t && alive t then Some (Ok (set_quit_flag true t)) else None
  | Spurious => if sleeping t then Some (Ok (set_sleeping false t)) else None
  end.

(** The states that the actors [who] reach. *)
Inductive thread_reach (who : list actor) : EventLoopThread -> Prop :=
  | thread_init : thread_reach who new_EventLoopThread
  | thread_next t a t' : thread_reach who t -> a ∈ who -> thread_step a t = Some (Ok t') ->
      thread_reach who t'.

(** A schedule; steps of blocked actors are skipped. *)
Fixpoint run_schedule (l : list actor) (t : EventLoopThread) : res EventLoopThread :=
  match l with
  | [] => Ok t
  | a :: l => match thread_step a t with
              | Some r => t ← r; run_schedule l t
              | None => run_schedule l t
              end
  end.

(** ** Searching the reachable states *)

Definition successors (who : list actor) (t : EventLoopThread) : list EventLoopThread :=
  omap (fun a => match thread_step a t with Some (Ok t') => Some t' | _ => None end) who.

(** Breadth first, from the states [todo]; [fuel] bounds the rounds. *)
Fixpoint explore (who : list actor) (fuel : nat) (seen todo : list EventLoopThread) :
    list EventLoopThread :=
  match fuel, todo with
  | O, _ | _, [] => seen
  | S fuel, _ =>
      let next := remove_dups (filter (fun t => t ∉ seen) (todo ≫= successors who)) in
      explore who fuel (seen ++ next) next
  end.

Definition states (who : list actor) : list EventLoopThread :=
  explore who 40 [new_EventLoopThread] [new_EventLoopThread].

(** [l] holds the first state and all successors of its states. *)
Definition closed_under (who : list actor) (l : list EventLoopThread) : bool :=
  bool_decide (new_EventLoopThread ∈ l) &&
  forallb (fun t => forallb (fun t' => bool_decide (t' ∈ l)) (successors who t)) l.

(** A closed set that holds the first state holds every reachable one. *)
Lemma reach_states who l t :
  closed_under who l = true -> thread_reach who t -> t ∈ l.
Proof.
  intros [H0%bool_decide_eq_true Hc]%andb_true_iff Hr. induction Hr as [|t a t' _ IH Ha E]; [done|].
  rewrite forallb_forall in Hc.
  specialize (Hc t (proj1 (list_elem_of_In _ _) IH)). rewrite forallb_forall in Hc.
  apply (bool_decide_eq_true _), Hc. apply list_elem_of_In, list_elem_of_omap.
  exists a. by rewrite E.
Qed.

(** A property of all states that computation decides. *)
Lemma check_states who l (P : EventLoopThread -> bool) t :
  closed_under who l = true -> forallb P l = true -> thread_reach who t -> P t = true.
Proof.
  intros Hc Hall Hr. rewrite forallb_forall in Hall. apply Hall, list_elem_of_In.
  by apply (reach_states who).
Qed.

(** The actors when nobody else quits the loop. *)
Definition quiet : list actor := [Caller; Func; Dtor; Spurious].

Lemma quiet_closed : closed_under quiet (states quiet) = true.
Proof. vm_compute. reflexivity. Qed.

Lemma quiet_check (P : EventLoopThread -> bool) t :
  forallb P (states quiet) = true -> thread_reach quiet t -> P t = true.
Proof. exact (check_states quiet (states quiet) P t quiet_closed). Qed.

(** No actor fails. *)
Definition no_fault (t : EventLoopThread) : bool :=
  forallb (fun a => match thread_step a t with Some (Fault _) => false | _ => true end)
    [Caller; Func; Dtor; Spurious].

(** If the caller came back, it has the loop of a thread that ran its callback. *)
Definition returned_ready (t : EventLoopThread) : bool :=
  match caller t with
  | CDone r => r && callback_ran t && (alive t || bool_decide (func t = FExit))
  | _ => true
  end.

(** The caller came back, or the caller or the new thread can go on. *)
Definition can_start (t : EventLoopThread) : bool :=
  match caller t with
  | CDone _ => true
  | _ => bool_decide (is_Some (startLoop t)) || bool_decide (is_Some (threadFunc t))
  end.

(** The steps of [startLoop] and [threadFunc] left until the caller is back;
    spurious wake-ups apart it decreases. *)
Definition caller_work (t : EventLoopThread) : nat :=
  match caller t with
  | CStart => 9
  | CLock => 8
  | CTest => if loop_ptr t then 3 else 6
  | CWait => if sleeping t || loop_ptr t then 4 else 7
  | CUnlock => 2
  | CReturn => 1
  | CDone _ => 0
  end.
Definition func_work (t : EventLoopThread) : nat :=
  match func t with
  | FNone => 10
  | FConstruct => 9
  | FCallback => 8
  | FLock => 7
  | FPublish => 6
  | FUnlock => 5
  | FEnter => 4
  | FLooping => 3
  | FClear => 2
  | FReturn => 1
  | FExit => 0
  end.
Definition start_work (t : EventLoopThread) : nat := caller_work t + func_work t.

Definition decreases (t : EventLoopThread) : bool :=
  forallb (fun a => match thread_step a t with
                    | Some (Ok t') => start_work t' <? start_work t
                    | _ => true
                    end) [Caller; Func].

(** C39: while nobody else quits the loop, starting a loop thread works
    however the threads are scheduled: nothing fails, not even in the
    destructor; [startLoop] returns a loop that exists and whose thread ran the
    init callback; until it does, it or the new thread can take a step, and
    every such step but a wake-up decreases the work left. *)
Theorem startLoop_handshake t :
  thread_reach quiet t ->
  no_fault t = true /\ returned_ready t = true /\ can_start t = true /\ decreases t = true.
Proof.
  intros Hr. split_and!; revert Hr; apply quiet_check; vm_compute; reflexivity.
Qed.

Lemma run_schedule_reach who l t t' :
  thread_reach who t -> forallb (fun a => bool_decide (a ∈ who)) l = true ->
  run_schedule l t = Ok t' -> thread_reach who t'.
Proof.
  revert t; induction l as [|a l IH]; intros t Hr; cbn [forallb run_schedule].
  - by intros _ [= <-].
  - intros [Ha%bool_decide_eq_true Hl]%andb_true_iff.
    destruct (thread_step a t) as [[t1|f]|] eqn:E; [|done|by apply IH].
    run_res. apply IH; [|done]. by apply (thread_next who t a).
Qed.

(** The result of a schedule. *)
Definition after (l : list actor) : EventLoopThread :=
  match run_schedule l new_EventLoopThread with Ok t => t | Fault _ => new_EventLoopThread end.

(** The caller waits before the thread publishes its loop. *)
Definition demo_start : list actor :=
  [Caller; Caller; Caller; Func; Func; Func; Func; Func; Caller; Caller; Caller; Caller].

Lemma startLoop_handshake_witness :
  caller (after demo_start) = CDone true /\ returned_ready (after demo_start) = true.
Proof.
  split; [vm_compute; reflexivity|]. apply (startLoop_handshake (after demo_start)).
  apply (run_schedule_reach quiet demo_start new_EventLoopThread);
    [apply thread_init | vm_compute; reflexivity | vm_compute; reflexivity].
Defined.

(** ** Races of the destructor *)

(** No actor of [who] can take a step. *)
Definition stuck (who : list actor) (t : EventLoopThread) : bool :=
  forallb (fun a => bool_decide (thread_step a t = None)) who.

(** The thread publishes its loop, and the owner destroys the object before
    [loop()] resets [quit_]. *)
Definition early_quit : list actor :=
  [Caller; Func; Func; Func; Func; Func; Caller; Caller; Caller; Caller;
   Dtor; Dtor; Dtor; Func; Func].

(** Another thread quits the loop while the destructor looks at [loop_]. *)
Definition late_quit : list actor :=
  [Caller; Func; Func; Func; Func; Func; Caller; Caller; Caller; Caller; Func; Quitter;
   Dtor; Dtor; Func; Func; Func; Dtor].

(** the destructor races: when it runs before the new thread enters
    [loop()], its [quit] is lost and it waits for ever in [join] for a loop
    that nobody ends; and when another thread quits the loop after it saw
    [loop_], it calls [quit] on a destroyed loop. *)
Theorem destructor_races :
  (thread_reach quiet (after early_quit) /\ stuck quiet (after early_quit) = true
   /\ dtor (after early_quit) = DJoin /\ func (after early_quit) = FLooping)
  /\ run_schedule late_quit new_EventLoopThread = Fault NullDeref.
Proof.
  split; [|vm_compute; reflexivity]. split; [|vm_compute; done].
  apply (run_schedule_reach quiet early_quit new_EventLoopThread);
    [apply thread_init | vm_compute; reflexivity | vm_compute; reflexivity].
Qed.
