(* ===== verification/EventLoopThreadPool.v ===== *)
(** * Loop threads: [src/msmuduo/net/EventLoopThread.h], [EventLoopThread.cpp],
    [EventLoopThreadPool.h], [EventLoopThreadPool.cpp]

    The pool hands out its loops in turn; a loop is its address. The start of
    one loop thread is a machine of three threads, the one that calls
    [startLoop], the new one, and the one that destroys the object, with
    the mutex and the condition variable between them. *)
From S2P Require Import Prelude.
From S2P Require Import Endian.
From S2P Require Import Format.
From S2P Require Import EventLoop.

(** ** The pool *)
Record EventLoopThreadPool := mkPool {
  baseLoop_ : positive;
  pool_name_ : bytes;
  started_ : bool;
  numThreads_ : Z;
  next_ : Z;
  threads_ : list bytes;      (* the names of the threads *)
  loops_ : list positive
}.

Definition new_EventLoopThreadPool (baseLoop : positive) (nameArg : bytes) : EventLoopThreadPool :=
  mkPool baseLoop nameArg false 0 0 [] [].

Definition setThreadNum (numThreads : Z) (p : EventLoopThreadPool) : EventLoopThreadPool :=
  mkPool (baseLoop_ p) (pool_name_ p) (started_ p) numThreads (next_ p) (threads_ p) (loops_ p).

Definition set_next (n : Z) (p : EventLoopThreadPool) : EventLoopThreadPool :=
  mkPool (baseLoop_ p) (pool_name_ p) (started_ p) (numThreads_ p) n (threads_ p) (loops_ p).

(** [char buf[100 + 32]; snprintf(buf, sizeof buf, "%s%d", ...)]. *)
Definition thread_name `{Platform} (name : bytes) (i : nat) : res bytes :=
  snprintf_z (100 + 32) (name ++ fmt_d (Z.of_nat i)).

(** [start]; [startLoop i] is the loop of the i-th thread. The first result
    is the loop [cb] is called with by this thread, if any. *)
Definition start `{Platform} (startLoop : nat -> positive) (in_loop cb : bool) (p : EventLoopThreadPool) :
    res (option positive * EventLoopThreadPool) :=
  assert_ (negb (started_ p));;
  assert_in_loop in_loop;;
  let ids := seq 0 (Z.to_nat (numThreads_ p)) in
  names ← mapM (thread_name (pool_name_ p)) ids;
  let p' := mkPool (baseLoop_ p) (pool_name_ p) true (numThreads_ p) (next_ p)
              (threads_ p ++ names) (loops_ p ++ (startLoop <$> ids)) in
  Ok (if (numThreads_ p =? 0)%Z && cb then Some (baseLoop_ p) else None, p').

Definition getNextLoop (in_loop : bool) (p : EventLoopThreadPool) :
    res (positive * EventLoopThreadPool) :=
  assert_in_loop in_loop;;
  assert_ (started_ p);;
  match loops_ p with
  | [] => Ok (baseLoop_ p, p)
  | _ =>
      loop ← get_ OutOfBounds (if (0 <=? next_ p)%Z then loops_ p !! Z.to_nat (next_ p) else None);
      let n := (next_ p + 1)%Z in
      Ok (loop, set_next (if (Z.of_nat (length (loops_ p)) <=? n)%Z then 0%Z else n) p)
  end.

Definition getLoopForHash (in_loop : bool) (hashCode : nat) (p : EventLoopThreadPool) : res positive :=
  assert_in_loop in_loop;;
  match loops_ p with
  | [] => Ok (baseLoop_ p)
  | _ => get_ OutOfBounds (loops_ p !! (hashCode mod length (loops_ p)))
  end.

Definition getAllLoops (in_loop : bool) (p : EventLoopThreadPool) : res (list positive) :=
  assert_in_loop in_loop;;
  assert_ (started_ p);;
  Ok (match loops_ p with [] => [baseLoop_ p] | _ => loops_ p end).

(** ** Round robin *)

Fixpoint next_loops (n : nat) (p : EventLoopThreadPool) : res (list positive * EventLoopThreadPool) :=
  match n with
  | O => Ok ([], p)
  | S n =>
      '(l, p) ← getNextLoop true p;
      '(ls, p) ← next_loops n p;
      Ok (l :: ls, p)
  end.

(** A pool that runs: [next_] is an index, or 0 when there are no loops. *)
Definition pool_inv (p : EventLoopThreadPool) : Prop :=
  started_ p = true /\ (next_ p = 0 \/ 0 <= next_ p < Z.of_nat (length (loops_ p)))%Z.

(** The i-th loop in turn. *)
Definition in_turn (p : EventLoopThreadPool) (i : nat) : positive :=
  match loops_ p with
  | [] => baseLoop_ p
  | ls => nth ((Z.to_nat (next_ p) + i) mod length ls) ls (baseLoop_ p)
  end.

(** The names of the threads fit the array of [start]. *)
Definition names_fit (p : EventLoopThreadPool) : Prop :=
  length (pool_name_ p) <= 121 /\ (numThreads_ p < 2 ^ 31)%Z.

Lemma pool_start_ok `{Platform} sl cb p :
  next_ p = 0%Z -> started_ p = false -> names_fit p ->
  exists r p', start sl true cb p = Ok (r, p') /\ pool_inv p' /\ next_ p' = 0%Z.
Proof.
  intros Hn Hs [Hl Ht]. unfold start. rewrite Hs. run_res.
  assert (Hm : exists names, mapM (thread_name (pool_name_ p)) (seq 0 (Z.to_nat (numThreads_ p))) = Ok names).
  { assert (Hi : Forall (fun i => Z.of_nat i < 2 ^ 31)%Z (seq 0 (Z.to_nat (numThreads_ p))))
      by (apply Forall_seq; lia).
    induction Hi as [|i l Hi _ [names IH]]; [by exists []|]. exists ((pool_name_ p ++ fmt_d (Z.of_nat i)) :: names).
    pose proof (fmt_d_length 10 (Z.of_nat i)) as Hd.
    assert (Ei : thread_name (pool_name_ p) i = Ok (pool_name_ p ++ fmt_d (Z.of_nat i)))
      by (apply snprintf_z_fits; rewrite length_app; lia).
    cbn [mapM]. rewrite Ei. run_res. by rewrite IH. }
  destruct Hm as [names ->]. run_res. do 2 eexists. split; [reflexivity|]. split; [split; [done|by left] | done].
Qed.

Lemma in_turn_nth p i :
  loops_ p <> [] ->
  in_turn p i = nth ((Z.to_nat (next_ p) + i) mod length (loops_ p)) (loops_ p) (baseLoop_ p).
Proof. unfold in_turn. by destruct (loops_ p). Qed.

Lemma getNextLoop_turn p :
  pool_inv p -> exists p', getNextLoop true p = Ok (in_turn p 0, p') /\ pool_inv p'
    /\ loops_ p' = loops_ p /\ baseLoop_ p' = baseLoop_ p
    /\ forall i, in_turn p' i = in_turn p (S i).
Proof.
  intros [Hs Hn]. destruct (decide (loops_ p = [])) as [E|Hne].
  { exists p. unfold getNextLoop, in_turn. rewrite Hs, E. run_res. done. }
  assert (H0 : length (loops_ p) <> 0) by (by intros ?%nil_length_inv).
  set (k := Z.to_nat (next_ p)). assert (Hk : k < length (loops_ p)) by lia.
  set (n := (if (Z.of_nat (length (loops_ p)) <=? next_ p + 1)%Z then 0%Z else (next_ p + 1)%Z)).
  assert (Hw : n = Z.of_nat (S k mod length (loops_ p))).
  { unfold n. case_if; [replace (S k) with (length (loops_ p)) by lia; by rewrite Nat.Div0.mod_same|].
    rewrite Nat.mod_small by lia. lia. }
  destruct (lookup_lt_is_Some_2 (loops_ p) k Hk) as [l Hl].
  exists (set_next n p). split_and!.
  - unfold getNextLoop. rewrite Hs. run_res. rewrite (proj2 (Z.leb_le 0 (next_ p))) by lia.
    fold k. rewrite Hl. rewrite in_turn_nth by done. fold k.
    rewrite Nat.add_0_r, Nat.mod_small, nth_lookup, Hl by done. by destruct (loops_ p).
  - split; [done|]. right. cbn [next_ set_next loops_].
    pose proof (Nat.mod_upper_bound (S k) (length (loops_ p)) H0). lia.
  - done.
  - done.
  - intros i. rewrite !in_turn_nth by done. cbn [next_ set_next loops_ baseLoop_].
    rewrite Hw, Nat2Z.id, Nat.Div0.add_mod_idemp_l. by replace (S k + i) with (k + S i) by lia.
Qed.

Lemma next_loops_turn n p :
  pool_inv p -> exists p', next_loops n p = Ok (in_turn p <$> seq 0 n, p') /\ pool_inv p'
    /\ loops_ p' = loops_ p /\ baseLoop_ p' = baseLoop_ p.
Proof.
  revert p; induction n as [|n IH]; intros p Hp; [by exists p|].
  destruct (getNextLoop_turn p Hp) as (p1 & E1 & Hp1 & Hl1 & Hb1 & Ht).
  destruct (IH p1 Hp1) as (p2 & E2 & Hp2 & Hl2 & Hb2). exists p2.
  cbn [next_loops]. rewrite E1. run_res. rewrite E2. run_res. split_and!; [|done|congruence..].
  cbn [seq fmap list_fmap]. do 3 f_equal. rewrite <- fmap_S_seq. rewrite <- list_fmap_compose.
  apply list_fmap_ext. intros i x _. apply Ht.
Qed.

(** A loop's share of a list of choices. *)
Definition share (l : positive) (ls : list positive) : nat := length (filter (l =.) ls).

Lemma share_app l a b : share l (a ++ b) = share l a + share l b.
Proof. unfold share. by rewrite filter_app, length_app. Qed.

Lemma share_none l ls : l ∉ ls -> share l ls = 0.
Proof.
  unfold share. induction ls as [|x ls IH]; intros Hl; [done|].
  rewrite filter_cons_False by set_solver. apply IH. set_solver.
Qed.

Lemma share_some l ls : l ∈ ls -> 1 <= share l ls.
Proof.
  intros Hl. unfold share. destruct (filter (l =.) ls) as [|] eqn:E; [|simpl; lia].
  assert (l ∈ filter (l =.) ls) as Hf by (by apply list_elem_of_filter).
  rewrite E in Hf. by apply elem_of_nil in Hf.
Qed.

Lemma share_NoDup l ls : NoDup ls -> share l ls <= 1.
Proof.
  induction 1 as [|x ls Hx _ IH]; [unfold share; simpl; lia|].
  change (x :: ls) with ([x] ++ ls). rewrite share_app. destruct (decide (l = x)) as [->|Hn].
  - rewrite (share_none x ls) by done. unfold share. rewrite filter_cons_True by done. simpl. lia.
  - rewrite (share_none l [x]) by set_solver. lia.
Qed.

Section Turns.
Context (p : EventLoopThreadPool) (Hinv : pool_inv p) (Hne : loops_ p <> []) (Hnd : NoDup (loops_ p)).

Lemma in_turn_lookup i :
  loops_ p !! ((Z.to_nat (next_ p) + i) mod length (loops_ p)) = Some (in_turn p i).
Proof.
  assert (Hl : length (loops_ p) <> 0) by (by intros ?%nil_length_inv).
  pose proof (Nat.mod_upper_bound (Z.to_nat (next_ p) + i) _ Hl) as Hb.
  unfold in_turn. destruct (loops_ p) as [|l0 ls] eqn:E; [done|]. rewrite <- E in *.
  destruct (lookup_lt_is_Some_2 (loops_ p) _ Hb) as [x Hx].
  rewrite nth_lookup. unfold default. by rewrite Hx.
Qed.

(** Two turns less than a round apart go to different loops. *)
Lemma in_turn_inj i j : i < j < i + length (loops_ p) -> in_turn p i <> in_turn p j.
Proof.
  intros Hij E. pose proof (in_turn_lookup i) as Hi. pose proof (in_turn_lookup j) as Hj.
  rewrite E in Hi. pose proof (NoDup_lookup _ _ _ _ Hnd Hi Hj) as Hm.
  assert (Hl : length (loops_ p) <> 0) by (by intros ?%nil_length_inv).
  pose proof (Nat.div_mod (Z.to_nat (next_ p) + i) _ Hl) as Di.
  pose proof (Nat.div_mod (Z.to_nat (next_ p) + j) _ Hl) as Dj. rewrite Hm in Di.
  set (a := (_ + i) / _) in *. set (b := (_ + j) / _) in *.
  set (n := length (loops_ p)) in *. clearbody a b n.
  destruct (Nat.lt_trichotomy a b) as [?|[->|?]]; [|lia|]; nia.
Qed.

Lemma in_turn_loops i : in_turn p i ∈ loops_ p.
Proof. eapply list_elem_of_lookup_2, in_turn_lookup. Qed.

Lemma turns_NoDup s n : n <= length (loops_ p) -> NoDup (in_turn p <$> seq s n).
Proof.
  revert s; induction n as [|n IH]; intros s Hn; [constructor|].
  cbn [seq fmap list_fmap]. constructor; [|apply IH; lia].
  intros (i & E & Hi%elem_of_seq)%list_elem_of_fmap. revert E. apply in_turn_inj. lia.
Qed.

(** In a round each loop has one turn. *)
Lemma round_perm s : in_turn p <$> seq s (length (loops_ p)) ≡ₚ loops_ p.
Proof.
  apply submseteq_length_Permutation.
  - apply NoDup_submseteq; [by apply turns_NoDup|].
    intros x (i & -> & _)%list_elem_of_fmap. apply in_turn_loops.
  - by rewrite length_fmap, length_seq.
Qed.

Lemma share_round l s : l ∈ loops_ p -> share l (in_turn p <$> seq s (length (loops_ p))) = 1.
Proof.
  intros Hl. unfold share. rewrite (round_perm s).
  pose proof (share_NoDup l _ Hnd). pose proof (share_some l _ Hl). unfold share in *. lia.
Qed.

(** Shares are equal up to one. *)
Lemma share_turns l q r s :
  l ∈ loops_ p -> r < length (loops_ p) ->
  q <= share l (in_turn p <$> seq s (q * length (loops_ p) + r)) <= S q.
Proof.
  intros Hl Hr. revert s; induction q as [|q IH]; intros s.
  - simpl. split; [lia|]. apply share_NoDup, turns_NoDup. lia.
  - replace (S q * length (loops_ p) + r) with (length (loops_ p) + (q * length (loops_ p) + r)) by lia.
    rewrite seq_app, fmap_app, share_app, share_round by done. specialize (IH (s + length (loops_ p))). lia.
Qed.
End Turns.

(** round robin: from a started pool any number [n] of calls succeeds, the
    i-th returns the loop whose turn it is, and each of the loops gets
    [n / size] of them or one more; without threads all go to the base
    loop. *)
Theorem round_robin p n :
  pool_inv p -> NoDup (loops_ p) ->
  exists p', next_loops n p = Ok (in_turn p <$> seq 0 n, p') /\ pool_inv p'
    /\ (loops_ p = [] -> Forall (baseLoop_ p =.) (in_turn p <$> seq 0 n))
    /\ forall l, l ∈ loops_ p ->
         n / length (loops_ p) <= share l (in_turn p <$> seq 0 n) <= S (n / length (loops_ p)).
Proof.
  intros Hp Hnd. destruct (next_loops_turn n p Hp) as (p' & E & Hp' & _). exists p'.
  split; [done|]. split; [done|]. split.
  - intros H0. apply Forall_fmap, Forall_true. intros i. unfold in_turn. simpl. by rewrite H0.
  - intros l Hl. assert (Hne : loops_ p <> []) by (intros H0; rewrite H0 in Hl; set_solver).
    assert (length (loops_ p) <> 0) as H0 by (by intros ?%nil_length_inv).
    rewrite (Nat.div_mod n (length (loops_ p)) H0) at 2 3. rewrite Nat.mul_comm.
    apply share_turns; try done. by apply Nat.mod_upper_bound.
Qed.

Definition demo_pool : EventLoopThreadPool :=
  mkPool 1 (str "io") true 3 1 [] [2; 3; 4]%positive.

Lemma round_robin_witness :
  exists p', next_loops 5 demo_pool = Ok ([3; 4; 2; 3; 4]%positive, p').
Proof.
  assert (H : pool_inv demo_pool) by (split; [reflexivity | right; simpl; lia]).
  assert (Hn : NoDup (loops_ demo_pool))
    by (apply (bool_decide_unpack _); vm_compute; exact I).
  destruct (round_robin demo_pool 5 H Hn) as (p' & E & _). exists p'. exact E.
Defined.
