(* ===== verification/ChannelHost.v ===== *)
(** * What a loop promises the owner of a channel

    [TcpConnection], [Connector] and [Acceptor] use a loop through their
    channel and the functor queue. [ChannelHost] is that interface and
    [ChannelHostLaws] its contract; [EventLoop] implements both. *)
From S2P Require Import Prelude.
From S2P Require Import Endian.
From S2P Require Import Timestamp.
From S2P Require Import Channel.
From S2P Require Import Poller.
From S2P Require Import PollerFacts.
From S2P Require Import EventLoop.

Class ChannelHost (L F : Type) := {
  host_channel : chan -> L -> option Channel;
  host_request : request -> chan -> L -> res L;
  host_remove : chan -> L -> res L;
  host_queue : F -> L -> L;
  host_pending : L -> list F
}.

(** The life of a channel: new, watched by the poller, put to sleep by a
    request that left it no events, removed. A channel never wakes again. *)
Inductive status := Fresh | Awake | Asleep | Gone.

#[export] Instance status_eq_dec : EqDecision status.
Proof. solve_decision. Defined.

Definition next_status (st : status) (e : Z) : status :=
  match st with
  | Awake => if (e =? kNoneEvent)%Z then Asleep else Awake
  | Fresh => Awake
  | Asleep => Asleep
  | Gone => Gone
  end.

(** [host_holds l id st e]: channel [id] of the loop is in status [st] with
    events [e]; [host_idle l]: the loop is not between the events of a poll. *)
Class ChannelHostLaws (L F : Type) `{Platform} `{!ChannelHost L F} := {
  host_holds : L -> chan -> status -> Z -> Prop;
  host_idle : L -> Prop;
  holds_channel l id st e : host_holds l id st e ->
    exists c, host_channel id l = Some c /\ events_ c = e;
  request_law l id st e r : host_holds l id st e -> st <> Gone ->
    let e' := request_events r e in
    exists l', host_request r id l = Ok l' /\ host_holds l' id (next_status st e') e'
      /\ host_pending l' = host_pending l /\ (host_idle l -> host_idle l');
  remove_law l id : host_holds l id Asleep kNoneEvent -> host_idle l ->
    exists l', host_remove id l = Ok l' /\ host_holds l' id Gone kNoneEvent
      /\ host_pending l' = host_pending l /\ host_idle l';
  remove_active_law l id st e : host_holds l id st e -> e <> kNoneEvent ->
    host_remove id l = Fault AssertFailed;
  gone_law l id e e' : host_holds l id Asleep e -> host_holds l id Gone e' -> False;
  queue_law l f : host_pending (host_queue f l) = host_pending l ++ [f];
  queue_holds l f id st e : host_holds l id st e -> host_holds (host_queue f l) id st e;
  queue_idle l f : host_idle l -> host_idle (host_queue f l)
}.

(** An owner that makes and destroys its channels itself, also from their own
    callbacks. [host_free]: the address and the descriptor are not in use;
    [host_handling]: the loop is running the callbacks of the channel;
    [host_resting]: it is not. *)
Class ChannelOwner (L : Type) := {
  host_new : chan -> Channel -> L -> L;
  host_delete : chan -> L -> res L
}.

Class ChannelOwnerLaws (L F : Type) `{Platform} `{!ChannelHost L F} `{!ChannelHostLaws L F}
    `{!ChannelOwner L} := {
  host_free : chan -> Channel -> L -> Prop;
  host_handling : chan -> L -> Prop;
  host_resting : chan -> L -> Prop;
  new_law l id c : host_free id c l -> host_holds (host_new id c l) id Fresh (events_ c);
  new_channel l id c : host_channel id (host_new id c l) = Some c;
  request_fd l l' id r c : host_request r id l = Ok l' -> host_channel id l = Some c ->
    exists c', host_channel id l' = Some c' /\ fd_ c' = fd_ c;
  remove_fd l l' id c : host_remove id l = Ok l' -> host_channel id l = Some c ->
    exists c', host_channel id l' = Some c' /\ fd_ c' = fd_ c;
  request_handling l l' id r : host_request r id l = Ok l' -> host_handling id l -> host_handling id l';
  remove_handling l id : host_holds l id Asleep kNoneEvent -> host_handling id l ->
    exists l', host_remove id l = Ok l' /\ host_holds l' id Gone kNoneEvent;
  delete_law l id e : host_holds l id Gone e -> host_resting id l ->
    exists l', host_delete id l = Ok l'
}.

Section Instances.
Context `{Platform} {F : Type}.
Implicit Types l : EventLoop F.

(** The operations as the loop thread calls them. *)
#[export] Instance loop_host : ChannelHost (EventLoop F) F := {
  host_channel id l := objs (poller_ l) !! id;
  host_request r id l :=
    loop_updateChannel (threadId_ l) id
      (set_poller (upd_channel id (fun c => set_events (request_events r (events_ c)) c)
                     (poller_ l)) l);
  host_remove id l :=
    c ← get_ NullDeref (objs (poller_ l) !! id);
    assert_ (isNoneEvent c);;
    loop_removeChannel (threadId_ l) id l;
  host_queue f l := queueInLoop (threadId_ l) f l;
  host_pending l := pendingFunctors_ l
}.

(** [new Channel] and [~Channel] in the loop thread. *)
#[export] Instance loop_owner : ChannelOwner (EventLoop F) := {
  host_new id c l :=
    let p := poller_ l in
    set_poller (mkPollPoller (<[id := c]> (objs p)) (channels_ p) (pollfds_ p)) l;
  host_delete id l :=
    c ← get_ NullDeref (objs (poller_ l) !! id);
    assert_ (negb (eventHandling_ c));;
    b ← loop_hasChannel (threadId_ l) id l;
    assert_ (negb b);;
    let p := poller_ l in
    Ok (set_poller (mkPollPoller (delete id (objs p)) (channels_ p) (pollfds_ p)) l)
}.

Definition in_status (p : PollPoller) (id : chan) (st : status) (c : Channel) : Prop :=
  match st with
  | Fresh => (index_ c < 0)%Z /\ channels_ p !! fd_ c = None
  | Awake => registered p id c /\ exists ev, watched p (fd_ c) ev
  | Asleep => registered p id c /\ exists i pfd, entry_of p id c i pfd
                /\ pfd_fd pfd = ignored (fd_ c) /\ pfd_events pfd = short (events_ c)
  | Gone => channels_ p !! fd_ c <> Some id
  end.

Definition loop_holds l (id : chan) (st : status) (e : Z) : Prop :=
  poll_inv (poller_ l) /\ exists c, objs (poller_ l) !! id = Some c /\ loop_ c = this_ l
    /\ events_ c = e /\ (0 <= fd_ c)%Z /\ in_status (poller_ l) id st c.

(** The events of a registered channel change. *)
Lemma registered_request p id c st e' :
  poll_inv p -> objs p !! id = Some c -> channels_ p !! fd_ c = Some id ->
  (st = Awake \/ st = Asleep) -> in_status p id st c ->
  exists p', updateChannel id (upd_channel id (set_events e') p) = Ok p' /\ poll_inv p'
    /\ objs p' !! id = Some (set_events e' c) /\ in_status p' id (next_status st e') (set_events e' c).
Proof.
  intros Hinv Ho Hc Hst Hin.
  set (q := upd_channel id (set_events e') p).
  assert (Hq : poll_inv q) by (apply poll_inv_upd; [done | by intros []]).
  assert (Hoq : objs q !! id = Some (set_events e' c))
    by (simpl; by rewrite lookup_alter, decide_True, Ho).
  destruct (update_registered q id (set_events e' c))
    as (p' & E & Hp' & Hob & Hch & _ & Hw & i & pfd & He & Hev & Hfd); [done | by split|].
  exists p'. split; [done|]. split; [done|]. rewrite Hob. split; [done|].
  assert (Hr : registered p' id (set_events e' c)) by (split; [by rewrite Hob | by rewrite Hch]).
  assert (Hasleep : (forall ev, ~ watched p' (fd_ c) ev) -> in_status p' id Asleep (set_events e' c)).
  { intros Hn. split; [done|]. exists i, pfd. split; [done|]. split; [|done].
    destruct (He) as (_ & _ & Hp & Hf & [Hd|Hd]); [|done]. exfalso.
    apply (Hn (pfd_events pfd)). split; [done|]. by exists i, pfd. }
  destruct Hst as [-> | ->]; simpl.
  - destruct (Z.eqb_spec e' kNoneEvent) as [->|Hne].
    + apply Hasleep. intros ev (_ & Hn & _)%Hw. done.
    + split; [done|]. destruct Hin as [_ (ev0 & Hw0)]. exists (short e').
      apply Hw. split; [done|]. split; [by apply Z.eqb_neq | by exists ev0].
  - apply Hasleep. intros ev (_ & _ & ev0 & Hw0)%Hw.
    destruct Hin as [Hrp (j & q0 & Hj & Hfj & _)]. destruct Hw0 as (Hn0 & k & q1 & Hk & Hfk & _).
    destruct (entry_owner p Hinv k q1 Hk) as (id2 & c2 & [O2 C2] & _ & X2 & _ & F2 & D2).
    simpl in Hk, Hfk, Hn0. assert (fd_ c2 = fd_ c) as Hff by (unfold ignored in *; lia).
    rewrite Hff in C2. assert (id2 = id) as -> by congruence. assert (c2 = c) as -> by congruence.
    destruct Hj as (_ & Xj & Pj & _). assert (j = k) as -> by lia.
    assert (q0 = q1) as -> by congruence. unfold ignored in *; lia.
Qed.

Lemma loop_request_law l id st e r :
  loop_holds l id st e -> st <> Gone ->
  let e' := request_events r e in
  exists l', host_request r id l = Ok l' /\ loop_holds l' id (next_status st e') e'
    /\ pendingFunctors_ l' = pendingFunctors_ l /\ ev_handling_ l' = ev_handling_ l.
Proof.
  intros (Hinv & c & Ho & Hl & <- & Hf & Hs) Hng e'. simpl.
  set (up := fun c => set_events (request_events r (events_ c)) c).
  assert (Hup : upd_channel id up (poller_ l) = upd_channel id (set_events e') (poller_ l)).
  { unfold upd_channel. f_equal. apply map_eq. intros i. destruct (decide (id = i)) as [<-|].
    - by rewrite !lookup_alter, !decide_True, Ho.
    - by rewrite !lookup_alter_ne. }
  assert (Hmain : exists p', updateChannel id (upd_channel id up (poller_ l)) = Ok p' /\ poll_inv p'
    /\ exists c', objs p' !! id = Some c' /\ loop_ c' = this_ l /\ events_ c' = e' /\ (0 <= fd_ c')%Z
    /\ in_status p' id (next_status st e') c').
  { rewrite Hup.
    destruct st; simpl in Hs; [|destruct Hs as [[_ Hc] Hx]..|done].
    - destruct Hs as [Hi Hc]. set (q := upd_channel id (set_events e') (poller_ l)).
      assert (Hq : poll_inv q) by (apply poll_inv_upd; [done | by intros []]).
      assert (Hoq : objs q !! id = Some (set_events e' c))
        by (simpl; by rewrite lookup_alter, decide_True, Ho).
      destruct (update_new q id (set_events e' c)) as (p' & i & E & Hp' & Hob & Hch & Hw); try done.
      exists p'. split; [done|]. split; [done|]. rewrite Hob, lookup_insert_eq.
      eexists. split; [done|]. split; [done|]. split; [done|]. split; [done|]. simpl.
      split; [split; simpl|].
      + by rewrite Hob, lookup_insert_eq.
      + by rewrite Hch, lookup_insert_eq.
      + exists (short e'). apply Hw. by right.
    - destruct (registered_request (poller_ l) id c Awake e') as (p' & E & Hp' & Hob & Hst);
        try done; [by left|]. exists p'. split; [done|]. split; [done|]. by exists (set_events e' c).
    - destruct (registered_request (poller_ l) id c Asleep e') as (p' & E & Hp' & Hob & Hst);
        try done; [by right|]. exists p'. split; [done|]. split; [done|]. by exists (set_events e' c). }
  destruct Hmain as (p' & E & Hp' & c' & Ho' & Hl' & He' & Hf' & Hs').
  unfold loop_updateChannel, assert_owner. cbn [poller_ set_poller this_].
  fold up.
  assert (Hou : objs (upd_channel id up (poller_ l)) !! id = Some (up c))
    by (simpl; by rewrite lookup_alter, decide_True, Ho).
  rewrite Hou. run_res. simpl loop_. rewrite Hl, Pos.eqb_refl. run_res.
  unfold assertInLoopThread, isInLoopThread. simpl threadId_. rewrite Z.eqb_refl. run_res.
  rewrite E. run_res. eexists. split; [done|]. split; [|done]. split; [done|]. by exists c'.
Qed.

(** The assertion of [EventLoop::removeChannel]. *)
Definition may_remove l (id : chan) : Prop :=
  ev_handling_ l = false \/ currentActiveChannel_ l = Some id.

Lemma loop_remove_law l id :
  loop_holds l id Asleep kNoneEvent -> may_remove l id ->
  exists l', host_remove id l = Ok l' /\ loop_holds l' id Gone kNoneEvent
    /\ pendingFunctors_ l' = pendingFunctors_ l /\ ev_handling_ l' = ev_handling_ l.
Proof.
  intros (Hinv & c & Ho & Hl & He & Hf & Hr & i & pfd & Hent & Hfd & Hev) Hmay. simpl.
  rewrite Ho. run_res. assert (isNoneEvent c = true) as Hn by (by apply Z.eqb_eq). rewrite Hn. run_res.
  unfold loop_removeChannel, assert_owner. rewrite Ho. run_res. rewrite Hl, Pos.eqb_refl. run_res.
  unfold assertInLoopThread, isInLoopThread. rewrite Z.eqb_refl. run_res.
  assert (Hcur : (if ev_handling_ l then bool_decide (currentActiveChannel_ l = Some id)
                   || bool_decide (id ∉ activeChannels_ l) else true) = true).
  { destruct Hmay as [-> | ->]; [done|]. rewrite bool_decide_true by done. by destruct (ev_handling_ l). }
  rewrite Hcur. run_res.
  destruct (removeChannel_spec (poller_ l) id c i pfd Hinv Hr Hent Hfd Hn) as (p' & E & Hp' & Hch & Hob & _).
  { by rewrite Hev, He. }
  rewrite E. run_res. eexists. split; [done|]. split; [|done]. split; [done|]. simpl.
  specialize (Hob id). rewrite Ho in Hob. destruct (objs p' !! id) as [c'|]; [|done].
  injection Hob as Hl' Hf' He'. exists c'. split; [done|]. split; [congruence|].
  split; [congruence|]. split; [by rewrite Hf'|]. simpl. rewrite Hch, Hf', lookup_delete_eq. done.
Qed.

#[export, refine] Instance loop_host_laws : ChannelHostLaws (EventLoop F) F := {
  host_holds := loop_holds;
  host_idle l := ev_handling_ l = false
}.
Proof.
  - intros l id st e (_ & c & Ho & _ & He & _). by exists c.
  - intros l id st e r Hh Hst. destruct (loop_request_law l id st e r Hh Hst)
      as (l' & E & Hh' & Hp & Hi). exists l'. split; [done|]. split; [done|]. split; [done|].
    by rewrite Hi.
  - intros l id Hh Hid. destruct (loop_remove_law l id Hh (or_introl Hid))
      as (l' & E & Hg & Hp & Hi). exists l'. by rewrite Hi.
  - intros l id st e (_ & c & Ho & _ & He & _) Hne. simpl. rewrite Ho. run_res.
    unfold isNoneEvent. rewrite He. by apply Z.eqb_neq in Hne as ->.
  - intros l id e e' (_ & c & Ho & _ & _ & _ & [_ Hc] & _) (_ & c' & Ho' & _ & _ & _ & Hg).
    simpl in Hg. congruence.
  - intros l f. simpl. unfold queueInLoop. by destruct (must_wakeup _ _).
  - intros l f id st e. simpl. unfold queueInLoop. by destruct (must_wakeup _ _).
  - intros l f. simpl. unfold queueInLoop. by destruct (must_wakeup _ _).
Defined.

(** A new channel leaves the poller as it was. *)
Lemma poll_inv_alloc p id c :
  poll_inv p -> objs p !! id = None ->
  poll_inv (mkPollPoller (<[id := c]> (objs p)) (channels_ p) (pollfds_ p)).
Proof.
  intros [Hc Hf] Hn. split; simpl.
  - intros fd id' Hid. destruct (Hc fd id' Hid) as (c' & i & pfd & E & Ho & He). exists c', i, pfd.
    split; [done|]. split; [|exact He]. simpl in *. rewrite lookup_insert_ne; [done | congruence].
  - intros i Hi. destruct (Hf i Hi) as (id' & c' & [Ho Hch] & Hx). exists id', c'. split; [|done].
    split; [|done]. simpl in *. rewrite lookup_insert_ne; [done | congruence].
Qed.

(** The poller changes no descriptor. *)
Lemma updateChannel_fd p p' id id' c :
  updateChannel id p = Ok p' -> objs p !! id' = Some c ->
  exists c', objs p' !! id' = Some c' /\ fd_ c' = fd_ c.
Proof.
  unfold updateChannel. intros E Ho. inv_res. destruct (index_ a <? 0)%Z; inv_res.
  - simpl. destruct (decide (id = id')) as [<-|Hn].
    + exists (set_index (Z.of_nat (length (pollfds_ p ++ [mkPollfd (fd_ a) (short (events_ a)) 0])) - 1) a).
      rewrite lookup_insert_eq. split; [done|]. simpl. congruence.
    + exists c. by rewrite lookup_insert_ne.
  - by exists c.
Qed.

Lemma removeChannel_fd p p' id id' c :
  removeChannel id p = Ok p' -> objs p !! id' = Some c ->
  exists c', objs p' !! id' = Some c' /\ fd_ c' = fd_ c.
Proof.
  unfold removeChannel. intros E Ho. inv_res. destruct (_ =? _); inv_res; [by exists c|]. simpl.
  match goal with |- context [<[?i := ?x]> _] => destruct (decide (i = id')) as [<-|Hn] end.
  - eexists. rewrite lookup_insert_eq. split; [done|]. simpl. congruence.
  - exists c. by rewrite lookup_insert_ne.
Qed.

#[export, refine] Instance loop_owner_laws : ChannelOwnerLaws (EventLoop F) F := {
  host_free id c l := poll_inv (poller_ l) /\ objs (poller_ l) !! id = None
    /\ channels_ (poller_ l) !! fd_ c = None /\ (0 <= fd_ c)%Z /\ (index_ c < 0)%Z /\ loop_ c = this_ l;
  host_handling id l := currentActiveChannel_ l = Some id;
  host_resting id l := forall c, objs (poller_ l) !! id = Some c -> eventHandling_ c = false
}.
Proof.
  - intros l id c (Hi & Hn & Hc & Hf & Hx & Hl). split; [by apply poll_inv_alloc|].
    exists c. simpl. by rewrite lookup_insert_eq.
  - intros l id c. simpl. by rewrite lookup_insert_eq.
  - intros l l' id r c. simpl. unfold loop_updateChannel. intros E Ho. inv_res. simpl.
    apply (updateChannel_fd _ _ _ id (set_events (request_events r (events_ c)) c)) in Ha1; [done|].
    simpl. by rewrite lookup_alter, decide_True, Ho.
  - intros l l' id c. simpl. unfold loop_removeChannel. intros E Ho. inv_res. simpl.
    by eapply removeChannel_fd.
  - intros l l' id r. simpl. unfold loop_updateChannel. intros E Hh.
    destruct (assert_owner _ _); [|done]. simpl in E. destruct (assertInLoopThread _ _); [|done].
    simpl in E. destruct (updateChannel _ _); [|done]. by injection E as <-.
  - intros l id Hh Hd. destruct (loop_remove_law l id Hh (or_intror Hd)) as (l' & E & Hg & _). by exists l'.
  - intros l id e (_ & c & Ho & Hl & _ & _ & Hg) Hr. simpl. rewrite Ho. run_res.
    rewrite (Hr c Ho). run_res. unfold loop_hasChannel, assert_owner, assertInLoopThread, isInLoopThread, hasChannel.
    rewrite Ho. run_res. rewrite Hl, Pos.eqb_refl, Z.eqb_refl. run_res.
    simpl in Hg. rewrite bool_decide_false by done. simpl. by eexists.
Defined.
End Instances.
