(* ===== verification/TcpConnection.v ===== *)
(** * Connections: [src/msmuduo/net/TcpConnection.h], [TcpConnection.cpp]

    A connection owns a channel of its loop, which it uses through
    [ChannelHost], and two buffers. What the kernel does with a [send] or a
    read, and what user callbacks call, are inputs; what the connection does
    to the outside is a trace of actions. [in_loop] says whether the calling
    thread is the loop's. *)
From S2P Require Import Prelude.
From S2P Require Import Endian.
From S2P Require Import StringPiece.
From S2P Require Import Buffer.
From S2P Require Import Channel.
From S2P Require Import Poller.
From S2P Require Import EventLoop.
From S2P Require Import ChannelHost.

Inductive StateE := kDisconnected | kConnecting | kConnected | kDisconnecting.

#[export] Instance StateE_eq_dec : EqDecision StateE.
Proof. solve_decision. Defined.

(** What a connection queues in its loop. *)
Inductive functor :=
  | SendInLoop (message : bytes)
  | ShutdownInLoop
  | ForceCloseInLoop
  | WriteCompleteCallback
  | HighWaterMarkCallback (len : nat)
  | ConnectDestroyed.

Record TcpConnection := mkTcpConnection {
  name_ : bytes;
  state_ : StateE;
  channel_ : chan;
  highWaterMark_ : N;
  writeCompleteCallback_ : bool;
  highWaterMarkCallback_ : bool;
  inputBuffer_ : Buffer;
  outputBuffer_ : Buffer
}.

(** The constructor; its channel [id] is a new object of the loop. *)
Definition new_TcpConnection (name : bytes) (id : chan) : TcpConnection :=
  mkTcpConnection name kConnecting id (64 * 1024 * 1024)%N false false
    (new_Buffer kInitialSize) (new_Buffer kInitialSize).

Definition new_conn_channel (loop : positive) (sockfd : Z) : Channel :=
  setErrorCallback (setCloseCallback (setWriteCallback (setReadCallback (new_Channel loop sockfd)))).

Definition setState (s : StateE) (c : TcpConnection) : TcpConnection :=
  mkTcpConnection (name_ c) s (channel_ c) (highWaterMark_ c) (writeCompleteCallback_ c)
    (highWaterMarkCallback_ c) (inputBuffer_ c) (outputBuffer_ c).
Definition setWriteCompleteCallback (c : TcpConnection) : TcpConnection :=
  mkTcpConnection (name_ c) (state_ c) (channel_ c) (highWaterMark_ c) true
    (highWaterMarkCallback_ c) (inputBuffer_ c) (outputBuffer_ c).
Definition setHighWaterMarkCallback (highWaterMark : N) (c : TcpConnection) : TcpConnection :=
  mkTcpConnection (name_ c) (state_ c) (channel_ c) highWaterMark (writeCompleteCallback_ c)
    true (inputBuffer_ c) (outputBuffer_ c).
Definition set_input (b : Buffer) (c : TcpConnection) : TcpConnection :=
  mkTcpConnection (name_ c) (state_ c) (channel_ c) (highWaterMark_ c) (writeCompleteCallback_ c)
    (highWaterMarkCallback_ c) b (outputBuffer_ c).
Definition set_output (b : Buffer) (c : TcpConnection) : TcpConnection :=
  mkTcpConnection (name_ c) (state_ c) (channel_ c) (highWaterMark_ c) (writeCompleteCallback_ c)
    (highWaterMarkCallback_ c) (inputBuffer_ c) b.

Definition connected (c : TcpConnection) : bool := bool_decide (state_ c = kConnected).

Definition stateToString (c : TcpConnection) : bytes :=
  match state_ c with
  | kDisconnected => str "kDisconnected"
  | kConnecting => str "kConnecting"
  | kConnected => str "kConnected"
  | kDisconnecting => str "kDisconnecting"
  end.

(** [~TcpConnection]. *)
Definition delete_TcpConnection (c : TcpConnection) : res unit :=
  assert_ (bool_decide (state_ c = kDisconnected)).

(** What the outside sees. [Accepted] and [Dropped] record what became of a
    message handed to [sendInLoop], [Wire] the bytes the kernel took. *)
Inductive action :=
  | Accepted (message : bytes)
  | Dropped (message : bytes)
  | Wire (data : bytes)
  | ShutdownWrite
  | ConnectionCallback (up : bool)
  | MessageCallback
  | CloseCallback.

#[export] Instance action_eq_dec : EqDecision action.
Proof. solve_decision. Defined.

(** The result of a [send]: the count, or [errno]. *)
Inductive send_result := Sent (n : nat) | SendError (errno : Z).

Definition EPIPE : Z := 32.
Definition ECONNRESET `{Platform} : Z := if win then 108 else 104.
Definition EWOULDBLOCK `{Platform} : Z := if win then 140 else 11.

(** The kernel takes no more than it is given. *)
Definition kernel_send (ans : send_result) (len : nat) : send_result :=
  match ans with Sent n => Sent (n `min` len) | SendError e => SendError e end.

(** The calls user code makes from a callback. *)
Inductive uop :=
  | USend (message : piece) (ans : send_result)
  | USendBuffer (message : bytes) (ans : send_result)   (* a buffer of the callback's *)
  | USendInput (ans : send_result)
  | URetrieve (n : nat)
  | UShutdown
  | UForceClose
  | UForceCloseWithDelay.

Section TcpConnection.
Context `{Platform} {L F : Type} `{!ChannelHost L F} (embed : functor -> F).

Record world := mkWorld { loop : L; conn : TcpConnection; trace : list action }.

Definition set_loop (l : L) (w : world) : world := mkWorld l (conn w) (trace w).
Definition set_conn (c : TcpConnection) (w : world) : world := mkWorld (loop w) c (trace w).
Definition emit (a : list action) (w : world) : world := mkWorld (loop w) (conn w) (trace w ++ a).

Definition queueInLoop (f : functor) (w : world) : world :=
  set_loop (host_queue (embed f) (loop w)) w.
Definition channel (w : world) : res Channel :=
  get_ NullDeref (host_channel (channel_ (conn w)) (loop w)).
Definition request_ (r : request) (w : world) : res world :=
  l ← host_request r (channel_ (conn w)) (loop w); Ok (set_loop l w).

(** ** Sending *)

(** The direct [send] of [sendInLoop]: the count written and whether the
    connection is broken. *)
Definition try_send (ans : send_result) (len : nat) (w : world) : world * nat * bool :=
  match kernel_send ans len with
  | Sent nwrote =>
      (if (len - nwrote =? 0) && writeCompleteCallback_ (conn w)
       then queueInLoop WriteCompleteCallback w else w, nwrote, false)
  | SendError errno =>
      (w, 0, negb (errno =? EWOULDBLOCK)%Z && ((errno =? EPIPE)%Z || (errno =? ECONNRESET)%Z))
  end.

Definition sendInLoop (in_loop : bool) (ans : send_result) (data : bytes) (w : world) : res world :=
  assert_in_loop in_loop;;
  let len := length data in
  if decide (state_ (conn w) = kDisconnected) then Ok w
  else
    c ← channel w;
    let '(w, nwrote, faultError) :=
      if negb (isWriting c) && (readableBytes (outputBuffer_ (conn w)) =? 0)
      then try_send ans len w else (w, 0, false) in
    assert_ (nwrote <=? len);;
    let remaining := len - nwrote in
    let w := emit [if faultError then Dropped data else Accepted data; Wire (take nwrote data)] w in
    if negb faultError && (0 <? remaining) then
      let oldLen := readableBytes (outputBuffer_ (conn w)) in
      let hwm := highWaterMark_ (conn w) in
      let w := if (hwm <=? N.of_nat (oldLen + remaining))%N && (N.of_nat oldLen <? hwm)%N
                  && highWaterMarkCallback_ (conn w)
               then queueInLoop (HighWaterMarkCallback (oldLen + remaining)) w else w in
      out ← append_str (drop nwrote data) (outputBuffer_ (conn w));
      let w := set_conn (set_output out (conn w)) w in
      if negb (isWriting c) then request_ EnableWriting w else Ok w
    else Ok w.

(** [sendInLoop(const StringPiece&)]: the [int] length becomes a [size_t], so
    that a negative one reads outside the memory of the piece. *)
Definition sendInLoop_piece (in_loop : bool) (ans : send_result) (message : StringPiece) (w : world) : res world :=
  data ← sp_as_string message;
  sendInLoop in_loop ans data w.

(** [send(const StringPiece&)]. *)
Definition send (in_loop : bool) (ans : send_result) (message : StringPiece) (w : world) : res world :=
  if decide (state_ (conn w) = kConnected) then
    if in_loop then sendInLoop_piece true ans message w
    else (text ← sp_as_string message; Ok (queueInLoop (SendInLoop text) w))
  else Ok w.

(** [send(Buffer* buf)]: the size of the buffer stays a [size_t], unless the call
    comes from another thread and the functor makes a piece of the string. *)
Definition send_buffer (in_loop : bool) (ans : send_result) (buf : Buffer) (w : world) :
    res (Buffer * world) :=
  if decide (state_ (conn w) = kConnected) then
    if in_loop then
      w ← sendInLoop true ans (content buf) w;
      Ok (retrieveAll buf, w)
    else
      '(message, buf) ← retrieveAllAsString buf;
      Ok (buf, queueInLoop (SendInLoop message) w)
  else Ok (buf, w).

(** ** Closing *)

Definition shutdownInLoop (in_loop : bool) (w : world) : res world :=
  assert_in_loop in_loop;;
  c ← channel w;
  Ok (if negb (isWriting c) then emit [ShutdownWrite] w else w).

Definition shutdown (in_loop : bool) (w : world) : res world :=
  if decide (state_ (conn w) = kConnected) then
    let w := set_conn (setState kDisconnecting (conn w)) w in
    if in_loop then shutdownInLoop true w else Ok (queueInLoop ShutdownInLoop w)
  else Ok w.

Definition is_open (w : world) : bool :=
  bool_decide (state_ (conn w) = kConnected) || bool_decide (state_ (conn w) = kDisconnecting).

Definition forceClose (w : world) : world :=
  if is_open w
  then queueInLoop ForceCloseInLoop (set_conn (setState kDisconnecting (conn w)) w) else w.

(** [forceCloseWithDelay]: the delay is not used. *)
Definition forceCloseWithDelay (w : world) : world :=
  if is_open w
  then queueInLoop ForceCloseInLoop (set_conn (setState kDisconnecting (conn w)) w) else w.

(** ** User callbacks *)

Definition exec_uop (u : uop) (w : world) : res world :=
  match u with
  | USend message ans => send true ans (sp_of_piece message) w
  | USendBuffer message ans =>
      if decide (state_ (conn w) = kConnected) then sendInLoop true ans message w else Ok w
  | USendInput ans =>
      '(b, w) ← send_buffer true ans (inputBuffer_ (conn w)) w;
      Ok (set_conn (set_input b (conn w)) w)
  | URetrieve n =>
      b ← retrieve (n `min` readableBytes (inputBuffer_ (conn w))) (inputBuffer_ (conn w));
      Ok (set_conn (set_input b (conn w)) w)
  | UShutdown => shutdown true w
  | UForceClose => Ok (forceClose w)
  | UForceCloseWithDelay => Ok (forceCloseWithDelay w)
  end.

Fixpoint exec_uops (us : list uop) (w : world) : res world :=
  match us with
  | [] => Ok w
  | u :: us => w ← exec_uop u w; exec_uops us w
  end.

Definition connectionCallback_ (calls : list uop) (w : world) : res world :=
  exec_uops calls (emit [ConnectionCallback (connected (conn w))] w).

(** ** Events *)

Definition handleClose (in_loop : bool) (calls : list uop) (w : world) : res world :=
  assert_in_loop in_loop;;
  assert_ (is_open w);;
  let w := set_conn (setState kDisconnected (conn w)) w in
  w ← request_ DisableAll w;
  w ← connectionCallback_ calls w;
  Ok (emit [CloseCallback] w).

(** [handleError] reads and logs the error of the socket. *)
Definition handleError (w : world) : world := w.

Definition handleRead (in_loop : bool) (r : recv_result) (calls : list uop) (w : world) : res world :=
  assert_in_loop in_loop;;
  '(n, savedErrno, b) ← readFd r (inputBuffer_ (conn w));
  let w := set_conn (set_input b (conn w)) w in
  if (0 <? n)%Z then exec_uops calls (emit [MessageCallback] w)
  else if (n =? 0)%Z then handleClose in_loop calls w
  else Ok (handleError w).

Definition handleWrite (in_loop : bool) (ans : send_result) (w : world) : res world :=
  assert_in_loop in_loop;;
  c ← channel w;
  if isWriting c then
    let out := outputBuffer_ (conn w) in
    match kernel_send ans (readableBytes out) with
    | Sent (S n) =>
        let w := emit [Wire (take (S n) (content out))] w in
        out ← retrieve (S n) out;
        let w := set_conn (set_output out (conn w)) w in
        if readableBytes out =? 0 then
          w ← request_ DisableWriting w;
          let w := if writeCompleteCallback_ (conn w)
                   then queueInLoop WriteCompleteCallback w else w in
          if decide (state_ (conn w) = kDisconnecting) then shutdownInLoop in_loop w else Ok w
        else Ok w
    | _ => Ok w
    end
  else Ok w.

Definition forceCloseInLoop (in_loop : bool) (calls : list uop) (w : world) : res world :=
  assert_in_loop in_loop;;
  if is_open w then handleClose in_loop calls w else Ok w.

(** ** The life of a connection *)

Definition connectEstablished (in_loop : bool) (calls : list uop) (w : world) : res world :=
  assert_in_loop in_loop;;
  assert_ (bool_decide (state_ (conn w) = kConnecting));;
  let w := set_conn (setState kConnected (conn w)) w in
  w ← request_ EnableReading w;
  connectionCallback_ calls w.

Definition connectDestroyed (in_loop : bool) (calls : list uop) (w : world) : res world :=
  assert_in_loop in_loop;;
  w ← (if decide (state_ (conn w) = kConnected) then
         let w := set_conn (setState kDisconnected (conn w)) w in
         w ← request_ DisableAll w;
         connectionCallback_ calls w
       else Ok w);
  l ← host_remove (channel_ (conn w)) (loop w);
  Ok (set_loop l w).

(** ** The loop thread at work on the connection *)

(** The answers of the kernel and the calls of the user's callback for one
    event. *)
Record inputs := mkInputs { in_recv : recv_result; in_send : send_result; in_calls : list uop }.

Definition conn_callback (inp : inputs) (cb : callback) (w : world) : res world :=
  match cb with
  | CbClose => handleClose true (in_calls inp) w
  | CbError => Ok (handleError w)
  | CbRead => handleRead true (in_recv inp) (in_calls inp) w
  | CbWrite => handleWrite true (in_send inp) w
  end.

(** The callbacks that [Channel::handleEvent] runs for received events. *)
Definition conn_event (inp : inputs) (revents : Z) (w : world) : res world :=
  c ← channel w;
  run_all (conn_callback inp)
    (callbacks_for (set_revents revents
      (setErrorCallback (setCloseCallback (setWriteCallback (setReadCallback c)))))) w.

(** A functor of the connection, run by [doPendingFunctors]. *)
Definition run_functor (inp : inputs) (f : functor) (w : world) : res world :=
  match f with
  | SendInLoop message => sendInLoop_piece true (in_send inp) (sp_of_string message) w
  | ShutdownInLoop => shutdownInLoop true w
  | ForceCloseInLoop => forceCloseInLoop true (in_calls inp) w
  | WriteCompleteCallback | HighWaterMarkCallback _ => exec_uops (in_calls inp) w
  | ConnectDestroyed => connectDestroyed true (in_calls inp) w
  end.
End TcpConnection.

Arguments world : clear implicits.
