(* ===== verification/TcpConnectionFacts.v ===== *)
(** * Correctness of connections

    Proved against the contract [ChannelHostLaws] of the loop: the invariant
    of a connection, kept by every handler whatever the kernel answers and
    whatever its user's callbacks call. *)
From S2P Require Import Prelude.
From S2P Require Import Endian.
From S2P Require Import StringPiece.
From S2P Require Import Buffer.
From S2P Require Import BufferFacts.
From S2P Require Import Channel.
From S2P Require Import Poller.
From S2P Require Import PollerFacts.
From S2P Require Import EventLoop.
From S2P Require Import ChannelHost.
From S2P Require Import TcpConnection.

(** ** Reading a trace *)
Definition accepted (t : list action) : bytes :=
  concat ((fun a => match a with Accepted m => m | _ => [] end) <$> t).
Definition wired (t : list action) : bytes :=
  concat ((fun a => match a with Wire d => d | _ => [] end) <$> t).
Definition is_life (a : action) : bool :=
  match a with ConnectionCallback _ | CloseCallback => true | _ => false end.
Definition lifecycle (t : list action) : list action := filter (fun a => is_life a) t.

Lemma accepted_app t u : accepted (t ++ u) = accepted t ++ accepted u.
Proof. unfold accepted. by rewrite fmap_app, concat_app. Qed.
Lemma wired_app t u : wired (t ++ u) = wired t ++ wired u.
Proof. unfold wired. by rewrite fmap_app, concat_app. Qed.
Lemma lifecycle_app t u : lifecycle (t ++ u) = lifecycle t ++ lifecycle u.
Proof. apply filter_app. Qed.

(** The write side was shut down only when every accepted byte was sent, or
    after the connection went down. *)
Definition drained (t : list action) : Prop :=
  forall t1 t2, t = t1 ++ ShutdownWrite :: t2 ->
    accepted t1 = wired t1 \/ ConnectionCallback false ∈ t1.

Lemma drained_app t u :
  drained t -> (ShutdownWrite ∉ u) -> drained (t ++ u).
Proof.
  intros Hd Hu t1 t2 E. destruct (decide (length t1 < length t)) as [Hl|Hl].
  - apply (Hd t1 (drop (S (length t1)) t)).
    assert (Ht : take (S (length t1)) (t ++ u) = t1 ++ [ShutdownWrite]).
    { rewrite E. change (ShutdownWrite :: t2) with ([ShutdownWrite] ++ t2). rewrite app_assoc.
      apply take_app_length'. rewrite length_app. simpl. lia. }
    rewrite take_app_le in Ht by lia.
    rewrite <- (take_drop (S (length t1)) t) at 1. rewrite Ht. by rewrite <- app_assoc.
  - exfalso. apply Hu. apply (f_equal (drop (length t))) in E.
    rewrite drop_app_length, drop_app_le in E by lia. rewrite E. set_solver.
Qed.

Lemma drained_shutdown t :
  drained t -> accepted t = wired t \/ ConnectionCallback false ∈ t -> drained (t ++ [ShutdownWrite]).
Proof.
  intros Hd Hnow t1 t2 E.
  destruct (decide (t2 = [])) as [->|Hne].
  - apply app_inj_tail in E as [-> _]. done.
  - destruct (exists_last Hne) as (t3 & x & ->).
    change (ShutdownWrite :: t3 ++ [x]) with ((ShutdownWrite :: t3) ++ [x]) in E.
    rewrite app_assoc in E. apply app_inj_tail in E as [E _]. by apply (Hd t1 t3).
Qed.

(** A received [POLLIN] is a received readable event. *)
Lemma flag_lor r f g : has_flag r f = true -> has_flag r (Z.lor f g) = true.
Proof.
  unfold has_flag. rewrite !negb_true_iff, !Z.eqb_neq, Z.land_lor_distr_r. intros Hf Hz.
  apply Hf. by apply Z.lor_eq_0_iff in Hz as [? _].
Qed.

Section ConnFacts.
Context `{Platform} {L F : Type} `{!ChannelHost L F} `{!ChannelHostLaws L F} (embed : functor -> F).
Implicit Types (w : world L).

(** The channel of the connection, as the poller sees it. *)
Definition has_channel w (st : status) (e : Z) : Prop :=
  host_holds (loop w) (channel_ (conn w)) st e.

Definition up := ConnectionCallback true.
Definition down := ConnectionCallback false.

(** What the state of the connection says of its channel, of the output
    buffer and of the callbacks made so far. *)
Definition state_ok w (st : status) (e : Z) : Prop :=
  match state_ (conn w) with
  | kConnecting => st = Fresh /\ e = kNoneEvent /\ lifecycle (trace w) = []
                   /\ content (outputBuffer_ (conn w)) = []
  | kConnected | kDisconnecting =>
      st = Awake /\ has_flag e kReadEvent = true
      /\ (has_flag e kWriteEvent = true <-> content (outputBuffer_ (conn w)) <> [])
      /\ lifecycle (trace w) = [up]
  | kDisconnected =>
      (st = Asleep \/ st = Gone) /\ e = kNoneEvent
      /\ (lifecycle (trace w) = [up; down] \/ lifecycle (trace w) = [up; down; CloseCallback])
  end.

Record conn_inv w : Prop := {
  ci_in : buf_inv (inputBuffer_ (conn w));
  ci_out : buf_inv (outputBuffer_ (conn w));
  ci_stream : accepted (trace w) = wired (trace w) ++ content (outputBuffer_ (conn w));
  ci_drained : drained (trace w);
  ci_state : exists st e, has_channel w st e /\ state_ok w st e
}.

(** No fault is allowed. *)
Abbreviation safe := (wp (fun _ => False)).

Lemma channel_ok w st e (P : Channel -> Prop) :
  has_channel w st e -> (forall c, events_ c = e -> P c) -> safe (channel w) P.
Proof.
  intros Hh HP. destruct (holds_channel _ _ _ _ Hh) as (c & Hc & He).
  unfold channel. eapply wp_get; [done | by apply HP].
Qed.

(** Queueing a functor changes nothing the invariant reads. *)
Lemma queue_inv f w : conn_inv w -> conn_inv (queueInLoop embed f w).
Proof.
  intros [Hi Ho Hs Hd (st & e & Hh & Hst)]. split; try done.
  exists st, e. split; [by apply queue_holds | done].
Qed.

Lemma content_nil_iff b : buf_inv b -> (readableBytes b =? 0) = true <-> content b = [].
Proof.
  intros Hi. rewrite Nat.eqb_eq. rewrite <- (length_content b Hi). apply length_zero_iff_nil.
Qed.

Lemma isWriting_flag c e : events_ c = e -> isWriting c = has_flag e kWriteEvent.
Proof. by intros <-. Qed.

(** A request on the connection's channel. *)
Lemma request_ok r w st e (P : world L -> Prop) :
  has_channel w st e -> st <> Gone ->
  (forall l, let w' := set_loop l w in
     has_channel w' (next_status st (request_events r e)) (request_events r e) ->
     (host_idle (loop w) -> host_idle l) -> P w') ->
  safe (request_ r w) P.
Proof.
  intros Hh Hst HP. destruct (request_law _ _ _ _ r Hh Hst) as (l & E & Hh' & _ & Hid).
  unfold request_. rewrite E. simpl. by apply HP.
Qed.

Lemma flags_enable_write e :
  has_flag e kReadEvent = true ->
  has_flag (request_events EnableWriting e) kReadEvent = true
  /\ has_flag (request_events EnableWriting e) kWriteEvent = true
  /\ next_status Awake (request_events EnableWriting e) = Awake.
Proof.
  intros Hr. destruct read_write_disjoint as (H1 & H2 & H3 & H4). simpl.
  rewrite lor_disjoint, lor_same by done. split; [done|]. split; [done|].
  destruct (Z.eqb_spec (Z.lor e kWriteEvent) kNoneEvent) as [Hz|]; [|done].
  pose proof (lor_same e kWriteEvent H4) as Hf. by rewrite Hz in Hf.
Qed.

Lemma flags_disable_write e :
  has_flag e kReadEvent = true ->
  has_flag (request_events DisableWriting e) kReadEvent = true
  /\ has_flag (request_events DisableWriting e) kWriteEvent = false
  /\ next_status Awake (request_events DisableWriting e) = Awake.
Proof.
  intros Hr. destruct read_write_disjoint as (H1 & H2 & H3 & H4). simpl.
  assert (Hr' : has_flag (Z.land e (Z.lnot kWriteEvent)) kReadEvent = true)
    by (by rewrite land_lnot_disjoint).
  rewrite land_lnot_same. split; [done|]. split; [done|].
  destruct (Z.eqb_spec (Z.land e (Z.lnot kWriteEvent)) kNoneEvent) as [Hz|]; [|done].
  by rewrite Hz in Hr'.
Qed.

(** What the calls of user code leave alone: the callbacks made so far and
    whether the connection is down. *)
Definition calm w w' : Prop :=
  lifecycle (trace w') = lifecycle (trace w)
  /\ (state_ (conn w') = kDisconnected <-> state_ (conn w) = kDisconnected)
  /\ state_ (conn w') <> kConnecting
  /\ (host_idle (loop w) -> host_idle (loop w'))
  /\ (state_ (conn w) = kDisconnected -> forall st e, has_channel w st e -> has_channel w' st e).

Lemma calm_refl w : state_ (conn w) <> kConnecting -> calm w w.
Proof. done. Qed.
Lemma calm_trans w1 w2 w3 : calm w1 w2 -> calm w2 w3 -> calm w1 w3.
Proof. unfold calm. intros (H1 & H2 & H3 & H4 & H5) (H6 & H7 & H8 & H9 & H10).
  split_and!; [congruence | tauto | done | auto |]. intros Hd st e Hh. apply H10; [tauto | auto]. Qed.

Lemma up_state w st e :
  state_ (conn w) <> kDisconnected -> state_ (conn w) <> kConnecting -> state_ok w st e ->
  st = Awake /\ has_flag e kReadEvent = true
  /\ (has_flag e kWriteEvent = true <-> content (outputBuffer_ (conn w)) <> [])
  /\ lifecycle (trace w) = [up].
Proof. unfold state_ok. by destruct (state_ (conn w)). Qed.

Lemma up_state_ok w e :
  state_ (conn w) <> kDisconnected -> state_ (conn w) <> kConnecting ->
  has_flag e kReadEvent = true ->
  (has_flag e kWriteEvent = true <-> content (outputBuffer_ (conn w)) <> []) ->
  lifecycle (trace w) = [up] -> state_ok w Awake e.
Proof. unfold state_ok. by destruct (state_ (conn w)). Qed.

(** The direct send: either nothing was written or everything before it had
    been sent. *)
Lemma try_send_spec ans (data : bytes) w (direct : bool) :
  exists w1 n fault,
    (if direct then try_send embed ans (length data) w else (w, 0, false)) = (w1, n, fault)
    /\ (w1 = w \/ w1 = queueInLoop embed WriteCompleteCallback w)
    /\ n <= length data /\ (0 < n -> direct = true) /\ (fault = true -> n = 0).
Proof.
  destruct direct; [|exists w, 0, false; split_and!; auto; lia].
  unfold try_send. destruct ans as [n|err]; simpl; eexists _, _, _; (split; [done|]).
  - split; [case_if; auto|]. split; [lia|]. done.
  - split; [by left|]. split; [lia|]. split; [lia | done].
Qed.

(** A step of an open connection that changes its output buffer and emits
    [u]: the bytes of the stream must balance. *)
Definition steps_to w w' : Prop :=
  conn_inv w' /\ calm w w' /\ state_ (conn w') = state_ (conn w)
  /\ inputBuffer_ (conn w') = inputBuffer_ (conn w).

Lemma set_output_same (c : TcpConnection) : set_output (outputBuffer_ c) c = c.
Proof. by destruct c. Qed.

Lemma up_step w w' out u e :
  conn_inv w -> state_ (conn w) <> kDisconnected -> state_ (conn w) <> kConnecting ->
  conn w' = set_output out (conn w) -> trace w' = trace w ++ u -> buf_inv out ->
  ShutdownWrite ∉ u -> lifecycle u = [] ->
  content (outputBuffer_ (conn w)) ++ accepted u = wired u ++ content out ->
  has_channel w' Awake e -> has_flag e kReadEvent = true ->
  (has_flag e kWriteEvent = true <-> content out <> []) ->
  (host_idle (loop w) -> host_idle (loop w')) -> steps_to w w'.
Proof.
  intros [Hi Ho Hs Hd (st & e0 & Hh & Hst)] Hdis Hnc Ec Et Hout Hu Hlu Hbal Hh' Hr Hw Hid.
  destruct (up_state w st e0 Hdis Hnc Hst) as (-> & _ & _ & Hlife).
  assert (Hl' : lifecycle (trace w') = lifecycle (trace w))
    by (rewrite Et, lifecycle_app, Hlu; apply app_nil_r).
  split; [split|].
  - by rewrite Ec.
  - by rewrite Ec.
  - by rewrite Et, accepted_app, wired_app, Hs, Ec, <- !app_assoc, Hbal.
  - rewrite Et. by apply drained_app.
  - exists Awake, e. split; [done|]. apply up_state_ok; rewrite ?Ec; try done. by rewrite Hl'.
  - rewrite Ec. split; [|done]. unfold calm. by rewrite Ec.
Qed.

(** Queueing first makes no difference. *)
Lemma queue_channel (b : bool) f w st e :
  has_channel w st e -> has_channel (if b then queueInLoop embed f w else w) st e.
Proof. destruct b; [apply queue_holds | done]. Qed.

Lemma queue_idle_if (b : bool) f w :
  host_idle (loop w) -> host_idle (loop (if b then queueInLoop embed f w else w)).
Proof. destruct b; [apply queue_idle | done]. Qed.

(** The rest of a message goes to the output buffer, and the connection
    asks for writability. *)
Definition store (rest : bytes) (writing : bool) w : res (world L) :=
  let oldLen := readableBytes (outputBuffer_ (conn w)) in
  let hwm := highWaterMark_ (conn w) in
  let w := if (hwm <=? N.of_nat (oldLen + length rest))%N && (N.of_nat oldLen <? hwm)%N
              && highWaterMarkCallback_ (conn w)
           then queueInLoop embed (HighWaterMarkCallback (oldLen + length rest)) w else w in
  out ← append_str rest (outputBuffer_ (conn w));
  let w := set_conn (set_output out (conn w)) w in
  if negb writing then request_ EnableWriting w else Ok w.

Lemma store_rest w w1 rest u e :
  conn_inv w -> state_ (conn w) <> kDisconnected -> state_ (conn w) <> kConnecting ->
  conn w1 = conn w -> trace w1 = trace w ++ u -> has_channel w1 Awake e ->
  (host_idle (loop w) -> host_idle (loop w1)) ->
  ShutdownWrite ∉ u -> lifecycle u = [] -> has_flag e kReadEvent = true -> rest <> [] ->
  content (outputBuffer_ (conn w)) ++ accepted u = wired u ++ content (outputBuffer_ (conn w)) ++ rest ->
  safe (store rest (has_flag e kWriteEvent) w1) (steps_to w).
Proof.
  intros Hinv Hdis Hnc Ec Et Hh Hid Hu Hlu Hr Hne Hbal. unfold store.
  set (hw := (_ && _ && _)%bool). set (f := HighWaterMarkCallback _).
  pose proof (queue_channel hw f w1 Awake e Hh) as Hh2.
  pose proof (queue_idle_if hw f w1) as Hid2.
  assert (Ec2 : conn (if hw then queueInLoop embed f w1 else w1) = conn w) by (by destruct hw).
  assert (Et2 : trace (if hw then queueInLoop embed f w1 else w1) = trace w ++ u) by (by destruct hw).
  set (w2 := if hw then _ else w1) in *. clearbody w2. unfold has_channel in Hh2.
  rewrite Ec2 in *.
  destruct (append_str_spec rest (outputBuffer_ (conn w))) as (out & Eo & Hoi & Hoc & _);
    [apply Hinv|]. rewrite Eo. apply wp_bind. simpl.
  assert (Hnil : content out <> []) by (rewrite Hoc; intros [_ ?]%app_eq_nil; done).
  destruct (has_flag e kWriteEvent) eqn:Hfw; simpl.
  - apply (up_step w _ out u e); simpl; try done; [by rewrite Hbal, Hoc | auto].
  - eapply (request_ok EnableWriting _ Awake e); [done | done |]. intros l w' Hh' Hid'.
    destruct (flags_enable_write e Hr) as (Hr' & Hw' & Hn'). rewrite Hn' in Hh'.
    eapply (up_step w _ out u); [done..| | | done | done | | ]; simpl; try done; [by rewrite Hbal, Hoc | auto].
Qed.

Lemma sendInLoop_inv ans (data : bytes) w :
  conn_inv w -> state_ (conn w) <> kConnecting ->
  safe (sendInLoop embed true ans data w) (steps_to w).
Proof.
  intros Hinv Hnc. unfold sendInLoop. simpl. case_decide as Hdis; [done|].
  pose proof Hinv as [Hi Ho Hs Hd (st & e & Hh & Hst)].
  destruct (up_state w st e Hdis Hnc Hst) as (-> & Hr & Hwr & Hlife).
  apply wp_bind. eapply channel_ok; [exact Hh|]. intros c Hc.
  rewrite (isWriting_flag c e Hc).
  set (direct := negb (has_flag e kWriteEvent) && (readableBytes (outputBuffer_ (conn w)) =? 0)).
  destruct (try_send_spec ans data w direct) as (w1 & n & fault & E & Hw1 & Hn & Hdir & Hf0).
  rewrite E. clear E. apply wp_bind, wp_assert; [by apply Nat.leb_le|].
  assert (Hw1' : exists b : bool, w1 = if b then queueInLoop embed WriteCompleteCallback w else w)
    by (destruct Hw1; [by exists false | by exists true]).
  destruct Hw1' as [b ->]. clear Hw1.
  assert (Hc1 : conn (if b then queueInLoop embed WriteCompleteCallback w else w) = conn w
    /\ trace (if b then queueInLoop embed WriteCompleteCallback w else w) = trace w) by (by destruct b).
  destruct Hc1 as [Ec Et].
  pose proof (queue_channel b WriteCompleteCallback w Awake e Hh) as Hh1.
  pose proof (queue_idle_if b WriteCompleteCallback w) as Hid1.
  set (w1 := if b then _ else w) in *. clearbody w1.
  set (u := [if fault then Dropped data else Accepted data; Wire (take n data)]).
  assert (Hu : ShutdownWrite ∉ u /\ lifecycle u = [] /\ wired u = take n data
    /\ accepted u = if fault then [] else data).
  { unfold u. destruct fault; (split; [set_solver|]); (split; [done|]);
      unfold wired, accepted; simpl; by rewrite !app_nil_r. }
  destruct Hu as (Hu1 & Hu2 & Hu3 & Hu4).
  assert (Hbal : content (outputBuffer_ (conn w)) ++ data
    = take n data ++ content (outputBuffer_ (conn w)) ++ drop n data).
  { destruct (decide (n = 0)) as [->|]; [by rewrite take_0|].
    assert (content (outputBuffer_ (conn w)) = []) as ->.
    { apply content_nil_iff; [done|]. specialize (Hdir ltac:(lia)).
      by apply andb_true_iff in Hdir as [_ ?]. }
    simpl. by rewrite take_drop. }
  destruct (negb fault && (0 <? length data - n)) eqn:Hrem.
  - apply andb_true_iff in Hrem as [->%negb_true_iff Hrem%Nat.ltb_lt].
    rewrite <- (length_drop data n).
    apply (store_rest w (emit u w1) (drop n data) u e); try done; [by simpl; rewrite Et | |].
    + intros Hz. apply (f_equal length) in Hz. rewrite length_drop in Hz. simpl in Hz. lia.
    + by rewrite Hu3, Hu4.
  - apply (up_step w _ (outputBuffer_ (conn w)) u e); simpl; rewrite ?Ec, ?Et, ?set_output_same; try done.
    rewrite Hu3, Hu4. destruct fault.
    + by rewrite (Hf0 eq_refl), app_nil_r.
    + simpl in Hrem. apply Nat.ltb_ge in Hrem. rewrite Hbal, drop_ge by lia. by rewrite app_nil_r.
Qed.

(** ** User calls *)

Lemma set_input_inv b w :
  conn_inv w -> buf_inv b -> conn_inv (set_conn (set_input b (conn w)) w).
Proof. by intros [Hi Ho Hs Hd Hst] Hb. Qed.

Lemma set_input_calm b w :
  state_ (conn w) <> kConnecting -> calm w (set_conn (set_input b (conn w)) w).
Proof. done. Qed.

Lemma disconnecting_inv w :
  conn_inv w -> state_ (conn w) = kConnected \/ state_ (conn w) = kDisconnecting ->
  conn_inv (set_conn (setState kDisconnecting (conn w)) w)
  /\ calm w (set_conn (setState kDisconnecting (conn w)) w).
Proof.
  intros [Hi Ho Hs Hd (st & e & Hh & Hst)] Hstate. split.
  - split; try done. exists st, e. split; [done|]. unfold state_ok in *. simpl.
    by destruct Hstate as [Hx|Hx]; rewrite Hx in Hst.
  - unfold calm. simpl. destruct Hstate as [Hx|Hx]; rewrite Hx; split_and!; done.
Qed.

Lemma shutdownInLoop_inv w :
  conn_inv w -> state_ (conn w) <> kConnecting ->
  safe (shutdownInLoop true w) (fun w' => conn_inv w' /\ calm w w').
Proof.
  intros Hinv Hnc. pose proof Hinv as [Hi Ho Hs Hd (st & e & Hh & Hst)].
  unfold shutdownInLoop. simpl. apply wp_bind. eapply channel_ok; [exact Hh|]. intros c Hc.
  rewrite (isWriting_flag c e Hc). destruct (has_flag e kWriteEvent) eqn:Hw; simpl; [done|].
  assert (Hlife : lifecycle (trace w ++ [ShutdownWrite]) = lifecycle (trace w))
    by (rewrite lifecycle_app; apply app_nil_r).
  split; [split; simpl; try done|].
  - rewrite accepted_app, wired_app. simpl. by rewrite !app_nil_r.
  - apply drained_shutdown; [done|]. unfold state_ok in Hst.
    assert (Hup : forall P, (has_flag e kWriteEvent = true <-> content (outputBuffer_ (conn w)) <> []) ->
      accepted (trace w) = wired (trace w) \/ P).
    { intros P Hiff. left. rewrite Hs.
      destruct (content (outputBuffer_ (conn w))) eqn:Hc0; [by rewrite app_nil_r|].
      rewrite Hw in Hiff. naive_solver. }
    destruct (state_ (conn w)); [|done|apply Hup; apply Hst..].
    right. destruct Hst as (_ & _ & Hl).
    assert (ConnectionCallback false ∈ lifecycle (trace w)) as Hin
      by (destruct Hl as [-> | ->]; set_solver).
    apply list_elem_of_filter in Hin. apply Hin.
  - exists st, e. split; [done|]. unfold state_ok in *. simpl. by rewrite Hlife.
  - unfold calm. simpl. by rewrite Hlife.
Qed.

Lemma is_open_true w :
  is_open w = true <-> state_ (conn w) = kConnected \/ state_ (conn w) = kDisconnecting.
Proof. unfold is_open. by rewrite orb_true_iff, !bool_decide_eq_true. Qed.

Lemma forceClose_inv w :
  conn_inv w -> state_ (conn w) <> kConnecting ->
  conn_inv (forceClose embed w) /\ calm w (forceClose embed w).
Proof.
  intros Hinv Hnc. unfold forceClose. destruct (is_open w) eqn:Ho; [|done].
  apply is_open_true in Ho. destruct (disconnecting_inv w Hinv Ho) as [Hi Hc].
  split; [by apply queue_inv|]. eapply calm_trans; [exact Hc|].
  unfold calm. simpl. split_and!; try done. apply queue_idle.
Qed.

Lemma exec_uop_inv u w :
  conn_inv w -> state_ (conn w) <> kConnecting ->
  safe (exec_uop embed u w) (fun w' => conn_inv w' /\ calm w w').
Proof.
  intros Hinv Hnc. destruct u as [d ans|d ans|ans|n| | |]; cbn [exec_uop].
  - unfold send, sendInLoop_piece. case_decide; [|done]. rewrite sp_of_piece_text. run_res.
    eapply wp_mono; [by apply sendInLoop_inv|]. by intros w' (H1 & H2 & _).
  - case_decide; [|done]. eapply wp_mono; [by apply sendInLoop_inv|]. by intros w' (H1 & H2 & _).
  - unfold send_buffer. apply wp_bind. case_decide.
    + apply wp_bind. eapply wp_mono; [by apply sendInLoop_inv|]. simpl.
      intros w' (H1 & H2 & _). split.
      * apply set_input_inv; [done|]. apply retrieveAll_inv, Hinv.
      * eapply calm_trans; [done|]. apply set_input_calm, H2.
    + split; [|done]. apply set_input_inv; [done | apply Hinv].
  - apply wp_bind. destruct (retrieve_spec (n `min` readableBytes (inputBuffer_ (conn w)))
      (inputBuffer_ (conn w))) as (b & -> & Hb & _); [apply Hinv | lia |].
    simpl. split; [by apply set_input_inv | done].
  - unfold shutdown. case_decide as Hc; [|done].
    destruct (disconnecting_inv w Hinv (or_introl Hc)) as [Hi Hcalm].
    eapply wp_mono; [by apply shutdownInLoop_inv; [exact Hi|]|].
    intros w' [H1 H2]. split; [done | by eapply calm_trans].
  - by apply forceClose_inv.
  - by apply forceClose_inv.
Qed.

Lemma exec_uops_inv us w :
  conn_inv w -> state_ (conn w) <> kConnecting ->
  safe (exec_uops embed us w) (fun w' => conn_inv w' /\ calm w w').
Proof.
  revert w; induction us as [|u us IH]; intros w Hinv Hnc; [done|]. simpl. apply wp_bind.
  eapply wp_mono; [by apply exec_uop_inv|]. intros w1 [H1 C1].
  eapply wp_mono; [apply IH; [done | apply C1]|]. intros w2 [H2 C2].
  split; [done | by eapply calm_trans].
Qed.

(** ** Events *)

Lemma emit_plain_inv u w :
  conn_inv w -> accepted u = [] -> wired u = [] -> lifecycle u = [] -> ShutdownWrite ∉ u ->
  conn_inv (emit u w).
Proof.
  intros [Hi Ho Hs Hd (st & e & Hh & Hst)] Ha Hw Hl Hu. split; simpl; try done.
  - rewrite accepted_app, wired_app, Ha, Hw. by rewrite !app_nil_r.
  - by apply drained_app.
  - exists st, e. split; [done|]. unfold state_ok in *. simpl. by rewrite lifecycle_app, Hl, app_nil_r.
Qed.

(** The connection goes down: the channel is put to sleep and the user is
    told. *)
Definition closed w (t : list action) : Prop :=
  conn_inv w /\ state_ (conn w) = kDisconnected /\ has_channel w Asleep kNoneEvent
  /\ lifecycle (trace w) = t.

Lemma go_down calls w :
  conn_inv w -> is_open w = true ->
  safe (w ← request_ DisableAll (set_conn (setState kDisconnected (conn w)) w);
        connectionCallback_ embed calls w)
    (fun w' => closed w' [up; down] /\ (host_idle (loop w) -> host_idle (loop w'))).
Proof.
  intros [Hi Ho Hs Hd (st & e & Hh & Hst)] Hop%is_open_true. apply wp_bind.
  assert (Hst' : st = Awake /\ lifecycle (trace w) = [up])
    by (unfold state_ok in Hst; destruct Hop as [Hx|Hx]; rewrite Hx in Hst; naive_solver).
  destruct Hst' as [-> Hlife].
  eapply (request_ok DisableAll _ Awake e); [done | done |]. intros l w' Hh' Hid. simpl in Hh'.
  unfold connectionCallback_. set (w1 := emit _ w').
  assert (Hl1 : lifecycle (trace w1) = [up; down]) by (simpl; rewrite lifecycle_app; by rewrite Hlife).
  assert (H1 : conn_inv w1).
  { split; simpl; try done.
    - rewrite accepted_app, wired_app. simpl. by rewrite !app_nil_r.
    - apply drained_app; [done | set_solver].
    - exists Asleep, kNoneEvent. split; [done|]. unfold state_ok. simpl.
      split; [by left|]. split; [done|]. by left. }
  eapply wp_mono; [by apply exec_uops_inv|]. intros w2 (H2 & C1 & C2 & C3 & C4 & C5).
  split; [|intros Hx; by apply C4, Hid]. split; [done|]. split; [by apply C2|]. split; [by apply C5|].
  by rewrite C1.
Qed.

Lemma handleClose_inv calls w :
  conn_inv w -> is_open w = true ->
  safe (handleClose embed true calls w) (fun w' => closed w' [up; down; CloseCallback]
    /\ (host_idle (loop w) -> host_idle (loop w'))).
Proof.
  intros Hinv Hop. unfold handleClose. simpl. apply wp_bind, wp_assert; [done|].
  pose proof (go_down calls w Hinv Hop) as Hgd.
  destruct (request_ DisableAll _) as [w1|]; [|done]. simpl in *. apply wp_bind.
  eapply wp_mono; [exact Hgd|]. intros w2 [([Hi Ho Hs Hd (st & e & Hh & Hst)] & Hdis & Has & Hl) Hid].
  simpl. split; [|done]. assert (Hl' : lifecycle (trace w2 ++ [CloseCallback]) = [up; down; CloseCallback])
    by (rewrite lifecycle_app; by rewrite Hl).
  split; [|done]. split; simpl; try done.
  - rewrite accepted_app, wired_app. simpl. by rewrite !app_nil_r.
  - apply drained_app; [done | set_solver].
  - exists Asleep, kNoneEvent. split; [done|]. unfold state_ok. simpl. rewrite Hdis.
    split; [by left|]. split; [done | by right].
Qed.

(** The kernel delivers at most what the vectors of [readFd] hold. *)
Definition recv_fits (r : recv_result) (b : Buffer) : Prop :=
  match r with
  | RecvError _ => True
  | RecvData d => (N.of_nat (length d) <= N.of_nat (writableBytes b))%N
      \/ ((N.of_nat (writableBytes b) < extrabuf_size)%N
          /\ (N.of_nat (length d) <= N.of_nat (writableBytes b) + extrabuf_size)%N)
  end.

Lemma readFd_ok r b :
  buf_inv b -> recv_fits r b ->
  exists n e b', readFd r b = Ok (n, e, b') /\ buf_inv b'
    /\ content b' = content b ++ match r with RecvData d => d | RecvError _ => [] end
    /\ n = match r with RecvData d => Z.of_nat (length d)
                        | RecvError _ => if win then 0%Z else (-1)%Z end.
Proof.
  intros Hb Hfit. unfold readFd, readFd_win, readFd_linux. destruct r as [d|err].
  - destruct (scatter_spec d b Hb) as (b' & Hs & Hi & Hc). eexists _, _, b'.
    split; [|done]. simpl in Hfit. destruct win.
    + rewrite (proj2 (N.leb_le _ _)) by lia. by rewrite Hs.
    + rewrite (proj2 (N.leb_le _ _)); [by rewrite Hs|].
      destruct (N.ltb_spec (N.of_nat (writableBytes b)) extrabuf_size); lia.
  - destruct win; eexists _, _, b; rewrite app_nil_r; done.
Qed.

(** What an event on an open connection may do: nothing visible to the
    life cycle, or take the connection down. *)
Definition event_post w w' : Prop :=
  conn_inv w' /\ (calm w w' \/ closed w' [up; down; CloseCallback]).

Lemma conn_handleRead_inv r calls w :
  conn_inv w -> is_open w = true -> recv_fits r (inputBuffer_ (conn w)) ->
  safe (handleRead embed true r calls w) (event_post w).
Proof.
  intros Hinv Hop Hfit. unfold handleRead. simpl. apply wp_bind.
  destruct (readFd_ok r (inputBuffer_ (conn w))) as (n & e & b & E & Hb & _); [apply Hinv | done |].
  rewrite E. simpl. set (w1 := set_conn _ w).
  assert (H1 : conn_inv w1) by (by apply set_input_inv).
  pose proof (proj1 (is_open_true w) Hop) as Hst.
  assert (Hnc : state_ (conn w1) <> kConnecting) by (simpl; destruct Hst; congruence).
  case_if; [|case_if].
  - eapply wp_mono; [apply exec_uops_inv; [apply emit_plain_inv; (done || set_solver) | done]|].
    intros w2 [H2 C2]. split; [done|]. left. eapply calm_trans; [|exact C2].
    unfold calm. simpl. rewrite lifecycle_app. simpl. by rewrite app_nil_r.
  - eapply wp_mono; [by apply handleClose_inv|]. intros w2 [Hc _]. split; [apply Hc | by right].
  - simpl. split; [done|]. by left.
Qed.

Lemma handleWrite_inv ans w :
  conn_inv w -> state_ (conn w) <> kConnecting ->
  safe (handleWrite embed true ans w) (fun w' => conn_inv w' /\ calm w w').
Proof.
  intros Hinv Hnc. pose proof Hinv as [Hi Ho Hs Hd (st & e & Hh & Hst)].
  unfold handleWrite. simpl. apply wp_bind. eapply channel_ok; [exact Hh|]. intros c Hc.
  rewrite (isWriting_flag c e Hc). destruct (has_flag e kWriteEvent) eqn:Hw; [|done].
  assert (Hdis : state_ (conn w) <> kDisconnected).
  { intros Hx. unfold state_ok in Hst. rewrite Hx in Hst. destruct Hst as (_ & -> & _). done. }
  destruct (up_state w st e Hdis Hnc Hst) as (-> & Hr & Hwr & Hlife).
  unfold kernel_send. destruct ans as [n|err]; [|done].
  destruct (n `min` readableBytes (outputBuffer_ (conn w))) as [|k] eqn:Hk; [done|].
  apply wp_bind.
  destruct (retrieve_spec (S k) (outputBuffer_ (conn w)) Ho) as (out & E & Hb & Hcont); [lia|].
  rewrite E. simpl wp. simpl outputBuffer_.
  set (u := [Wire (take (S k) (content (outputBuffer_ (conn w))))]).
  assert (Hbal : content (outputBuffer_ (conn w)) ++ accepted u = wired u ++ content out).
  { unfold u, accepted, wired. simpl. rewrite !app_nil_r, Hcont.
    symmetry. apply (take_drop (S k)). }
  destruct (readableBytes out =? 0) eqn:Hz.
  - apply wp_bind. eapply (request_ok DisableWriting _ Awake e); [done | done |].
    intros l w' Hh' Hid'. destruct (flags_disable_write e Hr) as (Hr' & Hw' & Hn'). rewrite Hn' in Hh'.
    apply content_nil_iff in Hz; [|done].
    set (w2 := if writeCompleteCallback_ _ then _ else w').
    assert (H2 : steps_to w w2).
    { apply (up_step w w2 out u (request_events DisableWriting e)); try done; unfold w2.
      - by destruct (writeCompleteCallback_ _).
      - by destruct (writeCompleteCallback_ _).
      - set_solver.
      - by apply queue_channel.
      - rewrite Hw', Hz. naive_solver.
      - intros Hx. apply queue_idle_if. by apply Hid'. }
    destruct H2 as (H2 & C2 & _). case_decide; [|by split].
    eapply wp_mono; [by apply shutdownInLoop_inv; [|apply C2]|]. intros w3 [H3 C3].
    split; [done | by eapply calm_trans].
  - simpl wp. enough (Hst' : steps_to w (set_conn (set_output out (conn w)) (emit u w))).
    { by destruct Hst' as (? & ? & _). }
    apply (up_step w _ out u e); try done; [set_solver|].
    rewrite Hw. split; [|done]. intros _ Hx. apply content_nil_iff in Hx; [|done]. congruence.
Qed.

(** A hang-up comes without urgent data. *)
Definition plain_hup (r : Z) : Prop :=
  has_flag r POLLHUP = true -> has_flag r POLLIN = false -> has_flag r (Z.lor POLLIN POLLPRI) = false.

(** The write callback after the others, and the error callback between
    them. *)
Lemma write_post inp w w' :
  event_post w w' -> safe (conn_callback embed inp CbWrite w') (event_post w).
Proof.
  intros [H1 [C|C]]; simpl.
  - eapply wp_mono; [apply handleWrite_inv; [done | apply C]|]. intros w2 [H2 C2].
    split; [done|]. left. by eapply calm_trans.
  - destruct C as (_ & Hdis & Has & Hl).
    eapply wp_mono; [apply handleWrite_inv; [done | by rewrite Hdis]|].
    intros w2 [H2 (C2 & C3 & _ & _ & C6)]. split; [done|]. right.
    split; [done|]. split; [by apply C3|]. split; [by apply C6 | by rewrite C2].
Qed.

Lemma error_write_post inp w w' (we ww : bool) :
  event_post w w' ->
  safe (run_all (conn_callback embed inp)
          ((if we then [CbError] else []) ++ (if ww then [CbWrite] else [])) w') (event_post w).
Proof.
  intros Hp. assert (Hw : safe (run_all (conn_callback embed inp) (if ww then [CbWrite] else []) w')
    (event_post w)).
  { destruct ww; [|done]. simpl. apply wp_bind. by apply write_post. }
  destruct we; [|done]. simpl. by unfold handleError.
Qed.

(** One event of the channel, whatever events were received. *)
Lemma conn_event_inv inp r w :
  conn_inv w -> is_open w = true -> recv_fits (in_recv inp) (inputBuffer_ (conn w)) ->
  plain_hup r -> safe (conn_event embed inp r w) (event_post w).
Proof.
  intros Hinv Hop Hfit Hhup. pose proof (proj1 (is_open_true w) Hop) as Hst.
  assert (Hnc : state_ (conn w) <> kConnecting) by (destruct Hst; congruence).
  assert (Hrefl : event_post w w) by (split; [done | by left]).
  unfold conn_event. apply wp_bind. pose proof Hinv as [_ _ _ _ (st & e & Hh & _)].
  eapply channel_ok; [exact Hh|]. intros c _.
  unfold callbacks_for, calls_close, calls_error, calls_read, calls_write. simpl.
  rewrite !andb_true_r.
  destruct (has_flag r POLLHUP && negb (has_flag r POLLIN)) eqn:Hc.
  - apply andb_true_iff in Hc as [H1 H2%negb_true_iff]. rewrite (Hhup H1 H2). simpl.
    apply wp_bind. eapply wp_mono; [by apply handleClose_inv|].
    intros w' [Hc _]. apply error_write_post. split; [apply Hc | by right].
  - simpl. destruct (has_flag r (Z.lor POLLIN POLLPRI)); [|by apply error_write_post].
    rewrite run_all_app. apply wp_bind.
    assert (Hw : run_all (conn_callback embed inp)
      (if has_flag r (Z.lor POLLERR POLLNVAL) then [CbError] else []) w = Ok w)
      by (by destruct (has_flag r (Z.lor POLLERR POLLNVAL))).
    rewrite Hw. simpl. apply wp_bind. eapply wp_mono; [by apply conn_handleRead_inv|].
    intros w' Hp. apply (error_write_post inp w w' false), Hp.
Qed.

(** ** The beginning and the end *)

Lemma connectEstablished_inv calls w :
  conn_inv w -> state_ (conn w) = kConnecting ->
  safe (connectEstablished embed true calls w) (fun w' => conn_inv w'
    /\ lifecycle (trace w') = [up] /\ is_open w' = true).
Proof.
  intros [Hi Ho Hs Hd (st & e & Hh & Hst)] Hc. unfold state_ok in Hst. rewrite Hc in Hst.
  destruct Hst as (-> & -> & Hl & Hout). unfold connectEstablished. simpl.
  rewrite bool_decide_true by done. simpl. apply wp_bind.
  eapply (request_ok EnableReading _ Fresh kNoneEvent); [done | done |]. intros l w' Hh' Hid.
  simpl in Hh'. unfold connectionCallback_. set (w1 := emit _ w').
  assert (Hl1 : lifecycle (trace w1) = [up]) by (simpl; rewrite lifecycle_app; by rewrite Hl).
  destruct read_write_disjoint as (Hrw & Hwr & Hr0 & Hw0).
  assert (H1 : conn_inv w1).
  { split; simpl; try done.
    - rewrite accepted_app, wired_app. simpl. by rewrite !app_nil_r.
    - apply drained_app; [done | set_solver].
    - exists Awake, kReadEvent. split; [done|]. unfold state_ok. simpl. rewrite Hout.
      split; [done|]. split; [apply (lor_same 0 kReadEvent Hr0)|]. split; [|done].
      unfold has_flag. rewrite Hrw. naive_solver. }
  eapply wp_mono; [by apply exec_uops_inv|]. intros w2 (H2 & C1 & C2 & C3 & _).
  split; [done|]. rewrite C1. split; [done|]. apply is_open_true.
  assert (state_ (conn w2) <> kDisconnected) by (intros Hx; by apply C2 in Hx).
  destruct (state_ (conn w2)); auto; done.
Qed.

(** The owner destroys a connection that is up, or one that went down and
    whose channel is still there. *)
Lemma connectDestroyed_inv calls w :
  conn_inv w -> host_idle (loop w) ->
  (state_ (conn w) = kConnected
   \/ state_ (conn w) = kDisconnected /\ has_channel w Asleep kNoneEvent) ->
  safe (connectDestroyed embed true calls w) (fun w' => conn_inv w'
    /\ state_ (conn w') = kDisconnected /\ has_channel w' Gone kNoneEvent
    /\ lifecycle (trace w') = if connected (conn w) then [up; down] else lifecycle (trace w)).
Proof.
  intros Hinv Hid Hst. unfold connectDestroyed. simpl. apply wp_bind.
  assert (Hdown : safe (if decide (state_ (conn w) = kConnected)
                        then w ← request_ DisableAll (set_conn (setState kDisconnected (conn w)) w);
                             connectionCallback_ embed calls w
                        else Ok w)
    (fun w' => closed w' (if connected (conn w) then [up; down] else lifecycle (trace w))
               /\ host_idle (loop w'))).
  { unfold connected. case_decide as Hc.
    - rewrite bool_decide_true by done. eapply wp_mono.
      + apply go_down; [done|]. apply is_open_true. by left.
      + simpl. intros w' [Hcl Hx]. auto.
    - rewrite bool_decide_false by done. destruct Hst as [?|[Hdis Has]]; done. }
  eapply wp_mono; [exact Hdown|]. simpl.
  intros w1 [([Hi Ho Hs Hd (st & e & Hh & Hst1)] & Hdis & Has & Hl) Hid1].
  destruct (remove_law _ _ Has Hid1) as (l & E & Hgone & _ & _). rewrite E. simpl.
  split; [|done]. split; simpl; try done. exists Gone, kNoneEvent. split; [done|].
  unfold state_ok in *. simpl. rewrite Hdis in *. destruct Hst1 as (_ & _ & Hlc).
  split; [by right | done].
Qed.

(** ** All that can happen to a connection *)

(** A new connection. *)
Definition fresh w : Prop :=
  state_ (conn w) = kConnecting /\ buf_inv (inputBuffer_ (conn w))
  /\ buf_inv (outputBuffer_ (conn w)) /\ content (outputBuffer_ (conn w)) = []
  /\ trace w = [] /\ has_channel w Fresh kNoneEvent.

(** The owner may destroy the connection when it is up, or once after it
    went down. *)
Definition may_destroy w : Prop :=
  host_idle (loop w) /\ (state_ (conn w) = kConnected
    \/ state_ (conn w) = kDisconnected /\ has_channel w Asleep kNoneEvent).

Inductive conn_op :=
  | OpEvent (inp : inputs) (revents : Z)
  | OpFunctor (inp : inputs) (f : functor)
  | OpEstablished (calls : list uop)
  | OpDestroyed (calls : list uop)
  | OpSend (message : piece)        (* these three by another thread *)
  | OpShutdown
  | OpForceClose
  | OpLoop (l : L).                 (* the loop does something else *)

(** A string queued for sending has a size that fits the [int] of a piece. *)
Definition functor_fits (f : functor) : Prop :=
  match f with SendInLoop message => fits_int message | _ => True end.

Definition enabled (op : conn_op) w : Prop :=
  match op with
  | OpEvent inp r => is_open w = true /\ recv_fits (in_recv inp) (inputBuffer_ (conn w)) /\ plain_hup r
  | OpFunctor _ f => state_ (conn w) <> kConnecting /\ f <> ConnectDestroyed /\ functor_fits f
  | OpEstablished _ => state_ (conn w) = kConnecting
  | OpDestroyed _ => may_destroy w
  | OpSend _ | OpShutdown | OpForceClose => True
  | OpLoop l => forall st e, has_channel w st e -> host_holds l (channel_ (conn w)) st e
  end.

Definition conn_exec (op : conn_op) w : res (world L) :=
  match op with
  | OpEvent inp r => conn_event embed inp r w
  | OpFunctor inp f => run_functor embed inp f w
  | OpEstablished calls => connectEstablished embed true calls w
  | OpDestroyed calls => connectDestroyed embed true calls w
  | OpSend message => send embed false (Sent 0) (sp_of_piece message) w
  | OpShutdown => shutdown embed false w
  | OpForceClose => Ok (forceClose embed w)
  | OpLoop l => Ok (set_loop l w)
  end.

Inductive conn_reach (w0 : world L) : world L -> Prop :=
  | conn_start : conn_reach w0 w0
  | conn_next w op w' : conn_reach w0 w -> enabled op w -> conn_exec op w = Ok w' ->
      conn_reach w0 w'.

Lemma fresh_inv w : fresh w -> conn_inv w.
Proof.
  intros (Hc & Hi & Ho & Hout & Ht & Hh). split; try done.
  - by rewrite Ht, Hout.
  - rewrite Ht. by intros [|? []] t2.
  - exists Fresh, kNoneEvent. split; [done|]. unfold state_ok. by rewrite Hc, Ht.
Qed.

Lemma conn_exec_inv op w : conn_inv w -> enabled op w -> safe (conn_exec op w) conn_inv.
Proof.
  intros Hinv He. destruct op as [inp r|inp f|calls|calls|m| | |l]; simpl in *.
  - destruct He as (Hop & Hfit & Hhup). eapply wp_mono; [by apply conn_event_inv|]. by intros w' [? _].
  - destruct He as (Hnc & Hf & Hfit). destruct f; simpl in *; try done.
    + unfold sendInLoop_piece. rewrite sp_of_string_text by done. run_res. eapply wp_mono; [by apply sendInLoop_inv|]. by intros w' [? _].
    + eapply wp_mono; [by apply shutdownInLoop_inv|]. by intros w' [? _].
    + unfold forceCloseInLoop. simpl. case_if; [|done].
      eapply wp_mono; [by apply handleClose_inv|]. by intros w' [[? _] _].
    + eapply wp_mono; [by apply exec_uops_inv|]. by intros w' [? _].
    + eapply wp_mono; [by apply exec_uops_inv|]. by intros w' [? _].
  - eapply wp_mono; [by apply connectEstablished_inv|]. by intros w' [? _].
  - destruct He as [Hid Hst]. eapply wp_mono; [by apply connectDestroyed_inv|]. by intros w' [? _].
  - unfold send. rewrite sp_of_piece_text. case_decide; [by apply queue_inv | done].
  - unfold shutdown. case_decide as Hc; [|done]. apply queue_inv.
    apply (disconnecting_inv w Hinv). by left.
  - destruct (decide (state_ (conn w) = kConnecting)) as [Hc|Hc].
    + unfold forceClose. destruct (is_open w) eqn:Hop; [|done].
      apply is_open_true in Hop. rewrite Hc in Hop. by destruct Hop.
    + by apply forceClose_inv.
  - destruct Hinv as [Hi Ho Hs Hd (st & e & Hh & Hst)]. split; try done.
    exists st, e. split; [by apply He | done].
Qed.

Lemma conn_reach_inv w0 w : fresh w0 -> conn_reach w0 w -> conn_inv w.
Proof.
  intros Hf Hr. induction Hr as [|w op w' _ IH He Hx]; [by apply fresh_inv|].
  exact (wp_ok _ _ _ _ (conn_exec_inv op w IH He) Hx).
Qed.

Lemma closed_not_open w t : closed w t -> is_open w = false.
Proof. intros (_ & Hd & _). unfold is_open. by rewrite Hd. Qed.

(** The read that ends a connection: at the end of the stream, and on
    Windows at any error. *)
Definition read_ends (r : recv_result) : bool :=
  match r with RecvData d => length d =? 0 | RecvError _ => win end.

(** A hang-up with urgent data but no other input closes the connection and
    then reads; a read that ends it closes it again. *)
Lemma hangup_closes_twice inp r w :
  conn_inv w -> is_open w = true -> ~ plain_hup r -> read_ends (in_recv inp) = true ->
  conn_event embed inp r w = Fault AssertFailed.
Proof.
  intros Hinv Hop Hhup Hends. pose proof Hinv as [_ _ _ _ (st & e & Hh & _)].
  assert (Hr : has_flag r POLLHUP = true /\ has_flag r POLLIN = false
    /\ has_flag r (Z.lor POLLIN POLLPRI) = true).
  { unfold plain_hup in Hhup. destruct (has_flag r POLLHUP), (has_flag r POLLIN),
      (has_flag r (Z.lor POLLIN POLLPRI)); naive_solver. }
  destruct Hr as (H1 & H2 & H3). destruct (holds_channel _ _ _ _ Hh) as (c & Hc & _).
  unfold conn_event, channel. rewrite Hc. run_res.
  unfold callbacks_for, calls_close, calls_error, calls_read, calls_write. simpl.
  rewrite H1, H2, H3. simpl.
  pose proof (handleClose_inv (in_calls inp) w Hinv Hop) as Hcl.
  destruct (handleClose embed true (in_calls inp) w) as [w1|]; [|done].
  destruct Hcl as [Hcl _]. pose proof (closed_not_open _ _ Hcl) as Hno.
  assert (Hread : forall rest, run_all (conn_callback embed inp) (CbRead :: rest) w1 = Fault AssertFailed).
  { intros rest. simpl. unfold handleRead. simpl.
    destruct (readFd_ok (in_recv inp) (inputBuffer_ (conn w1))) as (n & er & b & E & _ & _ & Hn); [apply Hcl | |].
    { destruct (in_recv inp) as [d|]; [|done]. apply Nat.eqb_eq in Hends. left. simpl. lia. }
    assert (n = 0%Z) as ->.
    { rewrite Hn. destruct (in_recv inp) as [d|]; simpl in Hends; [apply Nat.eqb_eq in Hends; lia | by rewrite Hends]. }
    rewrite E. simpl. unfold handleClose. simpl.
    assert (is_open (set_conn (set_input b (conn w1)) w1) = false) as -> by done. done. }
  change (run_all (conn_callback embed inp)
    ((if has_flag r (Z.lor POLLERR POLLNVAL) && true then [CbError] else [])
     ++ [CbRead] ++ (if has_flag r POLLOUT && true then [CbWrite] else [])) w1 = Fault AssertFailed).
  destruct (has_flag r (Z.lor POLLERR POLLNVAL)); simpl app; [|apply Hread].
  change (run_all (conn_callback embed inp)
    (CbRead :: (if has_flag r POLLOUT && true then [CbWrite] else [])) w1 = Fault AssertFailed).
  apply Hread.
Qed.

(** C3: in every state a connection reaches, no assertion of the connection,
    of its buffers or of the poller fails, whatever its channel receives while
    it is open, whatever the kernel answers, whatever its functors and callbacks
    call and other threads queue (messages below 2 GiB), in the thread of its
    loop, as long as the owner establishes it once and destroys it when it may
    and no hang-up comes with urgent data but without other input; and such a
    hang-up, when the read that follows it ends the stream, always fails the
    assertion of [handleClose]. *)
Theorem connection_safe w0 w :
  fresh w0 -> conn_reach w0 w ->
  (forall op, enabled op w -> exists w', conn_exec op w = Ok w')
  /\ (forall inp r, is_open w = true -> ~ plain_hup r -> read_ends (in_recv inp) = true ->
        conn_exec (OpEvent inp r) w = Fault AssertFailed).
Proof.
  intros Hf Hr. pose proof (conn_reach_inv w0 w Hf Hr) as Hinv. split.
  - intros op He. pose proof (conn_exec_inv op w Hinv He) as Hsafe.
    destruct (conn_exec op w) as [w'|]; [by exists w' | done].
  - intros inp r Hop Hhup Hends. by apply hangup_closes_twice.
Qed.

(** C5: the byte stream: what the kernel took, followed by the output buffer,
    is exactly the accepted messages in order; and the write side is shut
    down only when every accepted byte was handed to the kernel or after the
    connection went down. *)
Theorem stream_integrity w0 w :
  fresh w0 -> conn_reach w0 w ->
  accepted (trace w) = wired (trace w) ++ content (outputBuffer_ (conn w)) /\ drained (trace w).
Proof. intros Hf Hr. destruct (conn_reach_inv w0 w Hf Hr). done. Qed.

(** the connection callback reports up once and down once, in that
    order, and the owner is told of the close at most once, after that. *)
Theorem callbacks_once w0 w :
  fresh w0 -> conn_reach w0 w ->
  lifecycle (trace w) `prefix_of` [up; down; CloseCallback]
  /\ (state_ (conn w) = kDisconnected <-> down ∈ lifecycle (trace w)).
Proof.
  intros Hf Hr. destruct (conn_reach_inv w0 w Hf Hr) as [_ _ _ _ (st & e & _ & Hst)].
  unfold state_ok in Hst. destruct (state_ (conn w)).
  - destruct Hst as (_ & _ & [-> | ->]); (split; [by eexists|]); split; set_solver.
  - destruct Hst as (_ & _ & -> & _). split; [by eexists|]. split; [done | set_solver].
  - destruct Hst as (_ & _ & _ & ->). split; [by eexists|]. split; [done | set_solver].
  - destruct Hst as (_ & _ & _ & ->). split; [by eexists|]. split; [done | set_solver].
Qed.

(** while the connection is open it listens for reading, and it asks
    for writability exactly while bytes wait in the output buffer, so the
    loop neither stalls nor spins on it. *)
Theorem writes_watched w0 w :
  fresh w0 -> conn_reach w0 w -> is_open w = true ->
  exists c, host_channel (channel_ (conn w)) (loop w) = Some c /\ isReading c = true
    /\ (isWriting c = true <-> 0 < readableBytes (outputBuffer_ (conn w))).
Proof.
  intros Hf Hr Hop%is_open_true. destruct (conn_reach_inv w0 w Hf Hr) as [_ Ho _ _ (st & e & Hh & Hst)].
  destruct (up_state w st e) as (_ & Hrd & Hwr & _); [destruct Hop; congruence.. | done |].
  destruct (holds_channel _ _ _ _ Hh) as (c & Hc & <-). exists c. split; [done|]. split; [done|].
  unfold isWriting. rewrite Hwr, <- length_content by done.
  destruct (content (outputBuffer_ (conn w))); simpl; split; intros; try done; lia.
Qed.

(** an error of the read system call takes the connection down on
    Windows, where [readFd] returns 0 for every error, also for one that only
    says that no data is ready; on Linux it changes nothing. *)
Theorem read_error w0 w err calls :
  fresh w0 -> conn_reach w0 w -> is_open w = true ->
  exists w', handleRead embed true (RecvError err) calls w = Ok w'
    /\ if win then state_ (conn w') = kDisconnected /\ lifecycle (trace w') = [up; down; CloseCallback]
       else state_ (conn w') = state_ (conn w) /\ trace w' = trace w.
Proof.
  intros Hf Hr Hop. pose proof (conn_reach_inv w0 w Hf Hr) as Hinv.
  unfold handleRead, readFd, readFd_win, readFd_linux. simpl. destruct win eqn:Hwin; simpl.
  - set (w1 := set_conn _ w). assert (H1 : conn_inv w1) by (apply set_input_inv; [done | apply Hinv]).
    pose proof (handleClose_inv calls w1 H1 Hop) as Hc.
    destruct (handleClose embed true calls w1) as [w'|]; [|done]. exists w'.
    destruct Hc as [(_ & Hd & _ & Hl) _]. done.
  - eexists. done.
Qed.

(** [connectDestroyed] on a connection that is shutting down fails the
    assertion of [Channel::remove]: it disables the channel only in the state
    [kConnected]. *)
Theorem destroy_disconnecting w0 w calls :
  fresh w0 -> conn_reach w0 w -> state_ (conn w) = kDisconnecting ->
  connectDestroyed embed true calls w = Fault AssertFailed.
Proof.
  intros Hf Hr Hst. destruct (conn_reach_inv w0 w Hf Hr) as [_ _ _ _ (st & e & Hh & Hs)].
  unfold connectDestroyed. simpl. rewrite decide_False by congruence. simpl.
  unfold state_ok in Hs. rewrite Hst in Hs. destruct Hs as (_ & Hrd & _).
  rewrite (remove_active_law _ _ _ e Hh); [done|]. by intros ->.
Qed.

(** a hang-up with urgent data but no other input runs the close
    callback and then the read callback of the same event, which reads the
    end of the stream and fails the assertion of [handleClose]. *)
Theorem urgent_hangup w0 w inp r :
  fresh w0 -> conn_reach w0 w -> is_open w = true -> in_recv inp = RecvData [] ->
  has_flag r POLLHUP = true -> has_flag r POLLIN = false -> has_flag r (Z.lor POLLIN POLLPRI) = true ->
  conn_event embed inp r w = Fault AssertFailed.
Proof.
  intros Hf Hr Hop Hrecv H1 H2 H3. apply hangup_closes_twice; [by apply (conn_reach_inv w0)|done| |by rewrite Hrecv].
  unfold plain_hup. rewrite H1, H2, H3. naive_solver.
Qed.
End ConnFacts.

(** ** A connection of an [EventLoop] *)
Definition demo_world : world (EventLoop functor) :=
  mkWorld (mkEventLoop 1 false false false false 0 7
             (new_PollPoller {[ 2%positive := new_conn_channel 1 9 ]}) 0 1 [] None [])
    (new_TcpConnection (str "conn") 2) [].

Definition the (r : res (world (EventLoop functor))) : world (EventLoop functor) :=
  match r with Ok w => w | Fault _ => demo_world end.

(** Established, and then with a partly sent message in [demo_sent]. *)
Definition demo_up (p : Platform) : world (EventLoop functor) :=
  the (connectEstablished id true [] demo_world).
Definition demo_sent (p : Platform) : world (EventLoop functor) :=
  the (sendInLoop id true (Sent 2) (str "hello") (demo_up p)).
Definition demo_closing (p : Platform) : world (EventLoop functor) :=
  the (shutdown id false (demo_up p)).
Definition demo_input : inputs := mkInputs (RecvData []) (Sent 2) [].

Lemma demo_fresh (p : Platform) : fresh demo_world.
Proof.
  split_and!; try done; try apply new_Buffer_inv.
  split; [apply poll_inv_new|]. by eexists.
Qed.

Lemma demo_up_reach (p : Platform) : p = windows \/ p = linux -> conn_reach id demo_world (demo_up p).
Proof.
  intros Hp. apply (conn_next id demo_world demo_world (OpEstablished [])); [constructor | done |].
  destruct Hp as [-> | ->]; vm_compute; reflexivity.
Qed.

Module OnWindows.
#[local] Instance platform : Platform := windows.

Lemma demo_sent_reach : conn_reach id demo_world (demo_sent windows).
Proof.
  apply (conn_next id demo_world (demo_up windows) (OpFunctor demo_input (SendInLoop (str "hello"))));
    [by apply demo_up_reach; left | done | vm_compute; reflexivity].
Qed.

Lemma connection_safe_witness :
  (exists w', conn_exec id (OpEvent demo_input (@POLLIN windows)) (demo_sent windows) = Ok w')
  /\ conn_exec id (OpEvent demo_input (Z.lor (@POLLHUP windows) (@POLLPRI windows))) (demo_sent windows)
     = Fault AssertFailed.
Proof.
  destruct (connection_safe id demo_world (demo_sent windows)) as [Hok Hurgent];
    [apply demo_fresh | apply demo_sent_reach |]. split.
  - apply Hok. split; [reflexivity|]. split; [left; vm_compute; discriminate | discriminate].
  - apply Hurgent; [reflexivity | | reflexivity]. intros Hp. by specialize (Hp eq_refl eq_refl).
Defined.

Lemma stream_integrity_witness :
  accepted (trace (demo_sent windows)) = str "hello" /\ wired (trace (demo_sent windows)) = str "he"
  /\ accepted (trace (demo_sent windows))
     = wired (trace (demo_sent windows)) ++ content (outputBuffer_ (conn (demo_sent windows))).
Proof.
  split; [reflexivity|]. split; [reflexivity|].
  apply (stream_integrity id demo_world); [apply demo_fresh | apply demo_sent_reach].
Defined.

Lemma callbacks_once_witness :
  lifecycle (trace (demo_sent windows)) `prefix_of` [up; down; CloseCallback].
Proof.
  apply (callbacks_once id demo_world); [apply demo_fresh | apply demo_sent_reach].
Defined.

Lemma writes_watched_witness :
  exists c, @isWriting windows c = true /\ @isReading windows c = true.
Proof.
  destruct (writes_watched id demo_world (demo_sent windows)) as (c & _ & Hr & Hw);
    [apply demo_fresh | apply demo_sent_reach | reflexivity |].
  exists c. split; [apply Hw; vm_compute; lia | exact Hr].
Defined.

(** 10035 is [WSAEWOULDBLOCK]. *)
Lemma read_error_witness :
  exists w', handleRead id true (RecvError 10035) [] (demo_up windows) = Ok w'
    /\ state_ (conn w') = kDisconnected.
Proof.
  destruct (read_error id demo_world (demo_up windows) 10035 []) as (w' & E & Hd & _);
    [apply demo_fresh | by apply demo_up_reach; left | reflexivity |].
  by exists w'.
Defined.

Lemma destroy_disconnecting_witness :
  connectDestroyed id true [] (demo_closing windows) = Fault AssertFailed.
Proof.
  apply (destroy_disconnecting id demo_world); [apply demo_fresh | | reflexivity].
  apply (conn_next id demo_world (demo_up windows) OpShutdown);
    [by apply demo_up_reach; left | done | vm_compute; reflexivity].
Defined.

End OnWindows.

Module OnLinux.
#[local] Instance platform : Platform := linux.

Lemma urgent_hangup_witness :
  conn_event id demo_input (Z.lor (@POLLHUP linux) (@POLLPRI linux)) (demo_up linux)
  = Fault AssertFailed.
Proof.
  apply (urgent_hangup id demo_world); try reflexivity;
    [apply demo_fresh | by apply demo_up_reach; right].
Defined.
End OnLinux.
