(* ===== verification/ConnLife.v ===== *)
(** * What a connection promises its owner

    [TcpServer] and [TcpClient] see a connection through three calls,
    [connectEstablished], [connectDestroyed] and the close callback. [stage] and
    [life_step] specify that contract; [conn_refines_life] proves that
    [TcpConnection] implements it. *)
From S2P Require Import Prelude.
From S2P Require Import Endian.
From S2P Require Import StringPiece.
From S2P Require Import Format.
From S2P Require Import Buffer.
From S2P Require Import Channel.
From S2P Require Import Poller.
From S2P Require Import EventLoop.
From S2P Require Import ChannelHost.
From S2P Require Import TcpConnection.
From S2P Require Import TcpConnectionFacts.

(** ** Names

    The longest dotted address and port have 21 characters. *)
Definition max_hostport : nat := 21.
Definition max_ids : Z := 10 ^ 8.

Lemma id_length i : (0 <= i < max_ids)%Z -> length (fmt_d i) <= 8.
Proof. intros Hi. apply fmt_d_length; [exact Hi | lia]. Qed.

(** The part of a name behind the owner's fits its array. *)
Lemma suffix_fits `{Platform} host i :
  length host <= max_hostport -> (0 <= i < max_ids)%Z ->
  snprintf_z 32 (str ":" ++ host ++ str "#" ++ fmt_d i) = Ok (str ":" ++ host ++ str "#" ++ fmt_d i).
Proof.
  intros Hh Hi. apply snprintf_z_fits. pose proof (id_length i Hi). rewrite !length_app.
  unfold max_hostport in Hh. simpl. lia.
Qed.

(** [Up] and [Shutting] are open; [Down]: closed and the owner told; [Dead]:
    removed from its loop. *)
Inductive stage := Born | Up | Shutting | Down | Dead.

#[export] Instance stage_eq_dec : EqDecision stage.
Proof. solve_decision. Defined.

Definition open (s : stage) : bool := bool_decide (s = Up) || bool_decide (s = Shutting).

(** [Work] is everything the connection does on its own. *)
Inductive life_op := Establish | Work | Destroy.

(** The flag says whether the close callback is called. *)
Inductive life_step : life_op -> stage -> bool -> stage -> Prop :=
  | life_establish s' : open s' = true -> life_step Establish Born false s'
  | life_rest s : life_step Work s false s
  | life_open s s' : open s = true -> open s' = true -> life_step Work s false s'
  | life_close s : open s = true -> life_step Work s true Down
  | life_destroy s : s = Up \/ s = Down -> life_step Destroy s false Dead.

(** When the owner may call. *)
Definition may (op : life_op) (s : stage) : Prop :=
  match op with
  | Establish => s = Born
  | Destroy => s = Up \/ s = Down
  | Work => True
  end.

Section Refinement.
Context `{Platform} {L F : Type} `{!ChannelHost L F} `{!ChannelHostLaws L F} (embed : functor -> F).
Implicit Types (w : world L).

Definition in_stage w (s : stage) : Prop :=
  match s with
  | Born => state_ (conn w) = kConnecting
  | Up => state_ (conn w) = kConnected
  | Shutting => state_ (conn w) = kDisconnecting
  | Down => state_ (conn w) = kDisconnected /\ has_channel w Asleep kNoneEvent
            /\ lifecycle (trace w) = [up; down; CloseCallback]
  | Dead => state_ (conn w) = kDisconnected /\ has_channel w Gone kNoneEvent
  end.

Definition kind (op : conn_op (L:=L)) : life_op :=
  match op with
  | OpEstablished _ => Establish
  | OpDestroyed _ => Destroy
  | _ => Work
  end.

(** The owner was told between [w] and [w']. *)
Definition told w : bool := bool_decide (CloseCallback ∈ lifecycle (trace w)).
Definition tells w w' : bool := negb (told w) && told w'.

Lemma tells_same w w' : lifecycle (trace w') = lifecycle (trace w) -> tells w w' = false.
Proof. unfold tells, told. intros ->. by destruct (bool_decide _). Qed.

Lemma stage_open w s : in_stage w s -> is_open w = open s.
Proof. unfold is_open, open. destruct s; simpl; [intros ->..|intros [-> _]|intros [-> _]]; reflexivity. Qed.

(** A step that the life cycle does not notice. *)
Lemma calm_stage w w' s :
  calm w w' -> in_stage w s -> s <> Born ->
  exists s', life_step Work s (tells w w') s' /\ in_stage w' s'.
Proof.
  intros (Hl & Hd & Hc & _ & Hch) Hs Hb. rewrite (tells_same _ _ Hl).
  destruct s; simpl in Hs; try done.
  1, 2: destruct (state_ (conn w')) eqn:E; [pose proof (proj1 Hd eq_refl); congruence | done
    | exists Up; by split; [apply life_open|] | exists Shutting; by split; [apply life_open|]].
  - destruct Hs as (Hs & Hst & Hlc). exists Down. split; [apply life_rest|].
    simpl. rewrite Hl, Hd. auto.
  - destruct Hs as (Hs & Hst). exists Dead. split; [apply life_rest|].
    simpl. rewrite Hd. auto.
Qed.

(** A step that leaves the connection alone. *)
Lemma rest_stage w w' s :
  lifecycle (trace w') = lifecycle (trace w) -> state_ (conn w') = state_ (conn w) ->
  (forall st e, has_channel w st e -> has_channel w' st e) -> in_stage w s ->
  exists s', life_step Work s (tells w w') s' /\ in_stage w' s'.
Proof.
  intros Hl Hst Hch Hs. rewrite (tells_same _ _ Hl). exists s. split; [apply life_rest|].
  destruct s; simpl in *; rewrite ?Hst, ?Hl; naive_solver.
Qed.

(** A step that takes the connection down. *)
Lemma closed_stage w w' s :
  conn_inv w -> closed w' [up; down; CloseCallback] -> in_stage w s -> open s = true ->
  exists s', life_step Work s (tells w w') s' /\ in_stage w' s'.
Proof.
  intros [_ _ _ _ (st & e & Hh & Hst)] (_ & Hd & Hch & Hl) Hs Ho. exists Down.
  split; [|done]. assert (Hlw : lifecycle (trace w) = [up]).
  { apply (up_state w st e); try done; intros E; destruct s; try done; simpl in Hs; congruence. }
  assert (tells w w' = true) as ->; [|by apply life_close].
  unfold tells, told. rewrite Hlw, Hl. rewrite bool_decide_false by set_solver.
  apply bool_decide_eq_true. set_solver.
Qed.

(** The work of a connection that was established. *)
Lemma work_stage w w' s :
  conn_inv w -> event_post w w' -> in_stage w s -> open s = true ->
  exists s', life_step Work s (tells w w') s' /\ in_stage w' s'.
Proof.
  intros Hinv [_ [Hc|Hc]] Hs Ho; [|by eapply closed_stage].
  apply calm_stage; [done..|]. by intros ->.
Qed.

Lemma functor_stage inp f w w' s :
  conn_inv w -> state_ (conn w) <> kConnecting -> f <> ConnectDestroyed -> functor_fits f ->
  run_functor embed inp f w = Ok w' -> in_stage w s ->
  exists s', life_step Work s (tells w w') s' /\ in_stage w' s'.
Proof.
  intros Hinv Hnc Hf Hfit E Hs. assert (Hb : s <> Born) by (by intros ->).
  assert (Hcalm : forall r : res (world L), wp (fun _ => False) r (fun w2 => conn_inv w2 /\ calm w w2) ->
    r = Ok w' -> exists s', life_step Work s (tells w w') s' /\ in_stage w' s').
  { intros r Hr Er. destruct (wp_ok _ _ _ _ Hr Er) as [_ Hc]. by apply calm_stage. }
  destruct f; simpl in E, Hfit; [| | | | |done].
  - unfold sendInLoop_piece in E. rewrite sp_of_string_text in E by done. apply (Hcalm _ (wp_mono _ _ _ _ (sendInLoop_inv embed (in_send inp) message w Hinv Hnc)
      (fun w2 H2 => conj (proj1 H2) (proj1 (proj2 H2)))) E).
  - apply (Hcalm _ (shutdownInLoop_inv w Hinv Hnc) E).
  - unfold forceCloseInLoop in E. simpl in E. destruct (is_open w) eqn:Ho.
    + destruct (wp_ok _ _ _ _ (handleClose_inv embed (in_calls inp) w Hinv Ho) E) as [Hcl _].
      apply (closed_stage w w' s); try done. by rewrite <- (stage_open w s Hs).
    + injection E as <-. exists s. rewrite tells_same by done. by split; [apply life_rest|].
  - apply (Hcalm _ (exec_uops_inv embed _ w Hinv Hnc) E).
  - apply (Hcalm _ (exec_uops_inv embed _ w Hinv Hnc) E).
Qed.

Lemma exec_stage op w w' s :
  conn_inv w -> enabled op w -> conn_exec embed op w = Ok w' -> in_stage w s ->
  exists s', life_step (kind op) s (tells w w') s' /\ in_stage w' s'.
Proof.
  intros Hinv He E Hs. pose proof (stage_open w s Hs) as Hopen.
  destruct op as [inp r|inp f|calls|calls|m| | |l]; simpl in He, E.
  - destruct He as (Hop & Hfit & Hhup). apply (work_stage w w' s); try done; [|congruence].
    by apply (wp_ok _ _ _ _ (conn_event_inv embed inp r w Hinv Hop Hfit Hhup)).
  - destruct He as (Hnc & Hf & Hfit). by apply (functor_stage inp f w w').
  - destruct (wp_ok _ _ _ _ (connectEstablished_inv embed calls w Hinv He) E) as (Hi' & Hl & Hop).
    assert (s = Born) as ->
      by (destruct s; try done; simpl in Hs; try congruence; destruct Hs as [Hs _]; congruence).
    assert (tells w w' = false) as -> by (unfold tells, told; rewrite Hl;
      rewrite (bool_decide_false (CloseCallback ∈ [up])) by set_solver; apply andb_false_r).
    apply is_open_true in Hop as [Hop|Hop].
    + exists Up. by split; [apply life_establish|].
    + exists Shutting. by split; [apply life_establish|].
  - destruct He as [Hid Hst].
    destruct (wp_ok _ _ _ _ (connectDestroyed_inv embed calls w Hinv Hid Hst) E) as (_ & Hd & Hg & Hl).
    exists Dead. split; [|done].
    assert (Hds : s = Up \/ s = Down).
    { destruct Hst as [Hst|[Hst Has]]; destruct s; simpl in Hs; auto; try congruence;
        destruct Hs as [Hs Hs']; try congruence.
      exfalso.
      exact (gone_law _ _ _ _ Has Hs'). }
    assert (tells w w' = false) as ->; [|by apply life_destroy].
    unfold connected in Hl. case_bool_decide as Hc; [|by apply tells_same].
    unfold tells, told. rewrite Hl.
    rewrite (bool_decide_false (CloseCallback ∈ [up; down])) by set_solver. apply andb_false_r.
  - unfold send in E. rewrite sp_of_piece_text in E. case_decide; injection E as <-; apply rest_stage; try done.
    intros st e. apply queue_holds.
  - unfold shutdown in E. case_decide as Hc; injection E as <-; [|by apply rest_stage].
    destruct (disconnecting_inv w Hinv (or_introl Hc)) as [_ Hcalm].
    destruct (calm_stage w _ s Hcalm Hs) as (s' & H1 & H2); [by intros ->; simpl in Hs; congruence|].
    exists s'. split; [exact H1|]. destruct s'; simpl in *; naive_solver.
  - injection E as <-. destruct (decide (state_ (conn w) = kConnecting)) as [Hc|Hc].
    + apply rest_stage; try done; unfold forceClose; destruct (is_open w) eqn:Ho; try done;
        apply is_open_true in Ho as [?|?]; congruence.
    + apply calm_stage; [by apply forceClose_inv | done |]. by intros ->.
  - injection E as <-. by apply rest_stage.
Qed.

Lemma reach_stage w0 w : fresh w0 -> conn_reach embed w0 w -> exists s, in_stage w s.
Proof.
  intros Hf Hr. induction Hr as [|w op w' Hr [s Hs] He Hx]; [exists Born; apply Hf|].
  destruct (exec_stage op w w' s (conn_reach_inv embed w0 w Hf Hr) He Hx Hs) as (s' & _ & H').
  by exists s'.
Qed.

End Refinement.

