(* ===== verification/Acceptor.v ===== *)
(** * The acceptor: [src/msmuduo/net/Acceptor.h], [Acceptor.cpp]

    The acceptor listens through a channel of its loop, which it uses through
    [ChannelHost]. The results of the socket calls are inputs. *)
From S2P Require Import Prelude.
From S2P Require Import Endian.
From S2P Require Import Channel.
From S2P Require Import Poller.
From S2P Require Import EventLoop.
From S2P Require Import ChannelHost.

Record Acceptor := mkAcceptor {
  acceptChannel_ : chan;
  newConnectionCallback_ : bool;
  listenning_ : bool
}.

(** The constructor; the channel at [id] is a new object of the loop. *)
Definition new_Acceptor (id : chan) : Acceptor := mkAcceptor id false false.

Definition new_accept_channel (loop : positive) (fd : Z) : Channel :=
  setReadCallback (new_Channel loop fd).

Definition setNewConnectionCallback (a : Acceptor) : Acceptor :=
  mkAcceptor (acceptChannel_ a) true (listenning_ a).

(** The errors after which [sockettool::accept] returns -1: EAGAIN,
    ECONNABORTED, EINTR, EPROTO, EPERM, EMFILE. *)
Definition expected_errors `{Platform} : list Z :=
  if win then [11; 106; 4; 134; 1; 24]%Z else [11; 103; 4; 71; 1; 24]%Z.

(** The answer to [::accept]: a descriptor, or what [getErrno] then says. *)
Inductive accept_answer := AcceptFd (connfd : Z) | AcceptFails (savedErrno : Z).

(** [Socket::accept]; Sockets has the calls that [sockettool::accept] makes. *)
Definition socket_accept `{Platform} (ans : accept_answer) : res Z :=
  match ans with
  | AcceptFd connfd => Ok connfd
  | AcceptFails savedErrno => if decide (savedErrno ∈ expected_errors) then Ok (-1)%Z else Fault LogFatal
  end.

(** What [handleRead] does with the result of [accept]. *)
Inductive accepted := Connection (connfd : Z) | Closed (connfd : Z) | AcceptError.

Section Acceptor.
Context `{Platform} {L F : Type} `{!ChannelHost L F}.

Definition listen (in_loop : bool) (a : Acceptor) (l : L) : res (Acceptor * L) :=
  assert_in_loop in_loop;;
  let a := mkAcceptor (acceptChannel_ a) (newConnectionCallback_ a) true in
  l ← host_request EnableReading (acceptChannel_ a) l;
  Ok (a, l).

(** The destructor. *)
Definition delete_Acceptor (a : Acceptor) (l : L) : res L :=
  l ← host_request DisableAll (acceptChannel_ a) l;
  host_remove (acceptChannel_ a) l.

Definition handleRead (in_loop : bool) (ans : accept_answer) (a : Acceptor) : res accepted :=
  assert_in_loop in_loop;;
  connfd ← socket_accept ans;
  Ok (if (0 <=? connfd)%Z
      then if newConnectionCallback_ a then Connection connfd else Closed connfd
      else AcceptError).
End Acceptor.

Section AcceptorFacts.
Context `{Platform} {L F : Type} `{!ChannelHost L F} `{!ChannelHostLaws L F}.

(** The channel is new until [listen], and then watched for reading. *)
Definition acceptor_inv (a : Acceptor) (l : L) : Prop :=
  if listenning_ a then host_holds l (acceptChannel_ a) Awake kReadEvent
  else host_holds l (acceptChannel_ a) Fresh kNoneEvent.

Lemma listen_ok a l :
  acceptor_inv a l ->
  exists a' l', listen true a l = Ok (a', l') /\ acceptor_inv a' l' /\ listenning_ a' = true
    /\ acceptChannel_ a' = acceptChannel_ a /\ newConnectionCallback_ a' = newConnectionCallback_ a.
Proof.
  intros Ha. unfold listen. run_res.
  assert (Hr : Z.lor kReadEvent kReadEvent = kReadEvent /\ (kReadEvent =? kNoneEvent)%Z = false).
  { split; [apply Z.lor_diag|]. unfold kReadEvent, POLLIN, POLLPRI, kNoneEvent. by destruct win. }
  destruct Hr as [Hr Hn]. unfold acceptor_inv in Ha. cbn [acceptChannel_]. destruct (listenning_ a).
  - destruct (request_law _ _ _ _ EnableReading Ha) as (l' & -> & Hh & _); [done|].
    simpl in Hh. rewrite Hr, Hn in Hh. by eexists _, l'.
  - destruct (request_law _ _ _ _ EnableReading Ha) as (l' & -> & Hh & _); [done|].
    simpl in Hh. by eexists _, l'.
Qed.

(** A listening acceptor leaves the loop. *)
Lemma delete_Acceptor_ok a l :
  acceptor_inv a l -> listenning_ a = true -> host_idle l ->
  exists l', delete_Acceptor a l = Ok l' /\ host_holds l' (acceptChannel_ a) Gone kNoneEvent.
Proof.
  unfold acceptor_inv, delete_Acceptor. intros Ha Hl Hi. rewrite Hl in Ha.
  destruct (request_law _ _ _ _ DisableAll Ha) as (l1 & -> & Hh & _ & Hi1); [done|]. run_res.
  destruct (remove_law _ _ Hh (Hi1 Hi)) as (l' & -> & Hg & _). by exists l'.
Qed.
End AcceptorFacts.

(** An acceptor that never listened: [disableAll] enters its channel into the
    poller, whose [removeChannel] then asserts that the entry is ignored. *)
Definition demo_loop : EventLoop unit :=
  mkEventLoop 1 false false false false 0 7
    (new_PollPoller {[ 2%positive := new_accept_channel 1 9 ]}) 0 1 [] None [].

Lemma delete_unlistened : @delete_Acceptor _ unit (@loop_host windows unit) (new_Acceptor 2) demo_loop = Fault AssertFailed.
Proof. reflexivity. Qed.
