(* ===== verification/TcpServer.v ===== *)
(** * Servers: [src/msmuduo/net/TcpServer.h], [TcpServer.cpp]

    A server, its acceptor and the connections it made, each in the stage of
    its life cycle ([ConnLife]), with the functors pending in the loops. A
    connection is named by its address, a loop by the address of the
    [EventLoop]; [pending] holds the functors queued in all loops, and each
    loop runs its own in order. *)
From S2P Require Import Prelude.
From S2P Require Import Endian.
From S2P Require Import Format.
From S2P Require Import Atomic.
From S2P Require Import Channel.
From S2P Require Import Poller.
From S2P Require Import EventLoop.
From S2P Require Import ChannelHost.
From S2P Require Import EventLoopThreadPool.
From S2P Require Import ConnLife.
From S2P Require Import Acceptor.

Abbreviation conn_ptr := positive.

(** A connection as its owner knows it. *)
Record connection := mkConnection { getLoop : positive; conn_name_ : bytes; conn_stage : stage }.

Definition set_stage (s : stage) (c : connection) : connection :=
  mkConnection (getLoop c) (conn_name_ c) s.

Record TcpServer := mkTcpServer {
  server_loop_ : positive;
  hostport_ : bytes;
  server_name_ : bytes;
  acceptor_ : Acceptor;
  threadPool_ : EventLoopThreadPool;
  threadInitCallback_ : bool;
  server_started_ : AtomicInteger;
  nextConnId_ : Z;
  connections_ : gmap bytes conn_ptr
}.

(** [hostport] is [listenAddr.toIpPort()] and [id] the acceptor's channel. *)
Definition new_TcpServer (loop : positive) (hostport nameArg : bytes) (id : chan) : TcpServer :=
  mkTcpServer loop hostport nameArg (setNewConnectionCallback (new_Acceptor id))
    (new_EventLoopThreadPool loop nameArg) false new_AtomicInteger 1 ∅.

Definition set_acceptor (a : Acceptor) (s : TcpServer) : TcpServer :=
  mkTcpServer (server_loop_ s) (hostport_ s) (server_name_ s) a (threadPool_ s)
    (threadInitCallback_ s) (server_started_ s) (nextConnId_ s) (connections_ s).
Definition set_pool (p : EventLoopThreadPool) (s : TcpServer) : TcpServer :=
  mkTcpServer (server_loop_ s) (hostport_ s) (server_name_ s) (acceptor_ s) p
    (threadInitCallback_ s) (server_started_ s) (nextConnId_ s) (connections_ s).
Definition set_server_started (n : AtomicInteger) (s : TcpServer) : TcpServer :=
  mkTcpServer (server_loop_ s) (hostport_ s) (server_name_ s) (acceptor_ s) (threadPool_ s)
    (threadInitCallback_ s) n (nextConnId_ s) (connections_ s).
Definition set_connections (n : Z) (m : gmap bytes conn_ptr) (s : TcpServer) : TcpServer :=
  mkTcpServer (server_loop_ s) (hostport_ s) (server_name_ s) (acceptor_ s) (threadPool_ s)
    (threadInitCallback_ s) (server_started_ s) n m.

Definition server_setThreadNum (numThreads : Z) (s : TcpServer) : res TcpServer :=
  assert_ (0 <=? numThreads)%Z;;
  Ok (set_pool (setThreadNum numThreads (threadPool_ s)) s).

(** [char buf[32]; snprintf(buf, sizeof buf, ":%s#%d", ...)]. *)
Definition connection_name `{Platform} (name hostport : bytes) (id : Z) : res bytes :=
  suffix ← snprintf_z 32 (str ":" ++ hostport ++ str "#" ++ fmt_d id);
  Ok (name ++ suffix).

(** The functors the server queues in loops. *)
Inductive sfun :=
  | Listen
  | ConnectEstablished (c : conn_ptr)
  | RemoveConnectionInLoop (c : conn_ptr)
  | ConnectDestroyed (c : conn_ptr).

Section TcpServer.
Context `{Platform} {L F : Type} `{!ChannelHost L F}.

(** [base] is the loop of the acceptor. [alive]: the server object exists. *)
Record net := mkNet {
  server : TcpServer;
  alive : bool;
  base : L;
  conns : gmap conn_ptr connection;
  pending : list (positive * sfun)
}.

Definition set_server (s : TcpServer) (w : net) : net :=
  mkNet s (alive w) (base w) (conns w) (pending w).
Definition set_base (l : L) (w : net) : net := mkNet (server w) (alive w) l (conns w) (pending w).
Definition set_conns (cs : gmap conn_ptr connection) (w : net) : net :=
  mkNet (server w) (alive w) (base w) cs (pending w).
Definition set_pending (q : list (positive * sfun)) (w : net) : net :=
  mkNet (server w) (alive w) (base w) (conns w) q.

Definition queue_functor (k : positive) (f : sfun) (w : net) : net :=
  set_pending (pending w ++ [(k, f)]) w.

(** The next functor of loop [k], and the others. *)
Fixpoint next_functor (k : positive) (q : list (positive * sfun)) :
    option (sfun * list (positive * sfun)) :=
  match q with
  | [] => None
  | (k', f) :: q =>
      if (k' =? k)%positive then Some (f, q)
      else '(g, q) ← next_functor k q; Some (g, (k', f) :: q)
  end.

(** ** Calls on a connection

    [s'] is the stage the user's callback leaves it in. *)
Definition connectEstablished (thread : positive) (s' : stage) (c : conn_ptr) (w : net) : res net :=
  k ← get_ NullDeref (conns w !! c);
  assert_in_loop (thread =? getLoop k)%positive;;
  assert_ (bool_decide (conn_stage k = Born));;
  Ok (set_conns (<[c := set_stage s' k]> (conns w)) w).

(** A connection that is shutting down, or not established, fails the
    assertions of [Channel::remove] and of the poller. *)
Definition connectDestroyed (thread : positive) (c : conn_ptr) (w : net) : res net :=
  k ← get_ NullDeref (conns w !! c);
  assert_in_loop (thread =? getLoop k)%positive;;
  assert_ (bool_decide (conn_stage k = Up) || bool_decide (conn_stage k = Down));;
  Ok (set_conns (<[c := set_stage Dead k]> (conns w)) w).

(** ** The server *)

Definition server_listen (thread : positive) (w : net) : res net :=
  if alive w then
    '(a, l) ← listen (thread =? server_loop_ (server w))%positive (acceptor_ (server w)) (base w);
    Ok (set_base l (set_server (set_acceptor a (server w)) w))
  else Fault NullDeref.

Definition removeConnectionInLoop (thread : positive) (c : conn_ptr) (w : net) : res net :=
  if alive w then
    let s := server w in
    assert_in_loop (thread =? server_loop_ s)%positive;;
    k ← get_ NullDeref (conns w !! c);
    let n := if decide (is_Some (connections_ s !! conn_name_ k)) then 1 else 0 in
    let w := set_server (set_connections (nextConnId_ s)
                           (delete (conn_name_ k) (connections_ s)) s) w in
    assert_ (n =? 1);;
    Ok (queue_functor (getLoop k) (ConnectDestroyed c) w)
  else Fault NullDeref.

Definition run_sfun (thread : positive) (s' : stage) (f : sfun) (w : net) : res net :=
  match f with
  | Listen => server_listen thread w
  | ConnectEstablished c => connectEstablished thread s' c w
  | RemoveConnectionInLoop c => removeConnectionInLoop thread c w
  | ConnectDestroyed c => connectDestroyed thread c w
  end.

(** [EventLoop::runInLoop], called on loop [k] by the thread of loop [thread]. *)
Definition runInLoop (thread k : positive) (s' : stage) (f : sfun) (w : net) : res net :=
  if (thread =? k)%positive then run_sfun thread s' f w else Ok (queue_functor k f w).

(** [removeConnection], the close callback of the connections. *)
Definition removeConnection (thread : positive) (c : conn_ptr) (w : net) : res net :=
  if alive w then runInLoop thread (server_loop_ (server w)) Up (RemoveConnectionInLoop c) w
  else Fault NullDeref.

(** [start]; [startLoop] gives the loops of the new threads. *)
Definition server_start (thread : positive) (startLoop : nat -> positive) (w : net) : res net :=
  let s := server w in
  let '(old, n) := getAndSet 1 (server_started_ s) in
  let s := set_server_started n s in
  if (old =? 0)%Z then
    '(_, p) ← start startLoop (thread =? server_loop_ s)%positive (threadInitCallback_ s)
                (threadPool_ s);
    let w := set_server (set_pool p s) w in
    assert_ (negb (listenning_ (acceptor_ s)));;
    runInLoop thread (server_loop_ s) Up Listen w
  else Ok (set_server s w).

(** [newConnection]; [c] is the address of the new connection. *)
Definition newConnection (thread : positive) (c : conn_ptr) (s' : stage) (w : net) : res net :=
  let s := server w in
  assert_in_loop (thread =? server_loop_ s)%positive;;
  '(ioLoop, p) ← getNextLoop (thread =? server_loop_ s)%positive (threadPool_ s);
  connName ← connection_name (server_name_ s) (hostport_ s) (nextConnId_ s);
  if (nextConnId_ s + 1 <? 2 ^ 31)%Z then
    let s := set_connections (nextConnId_ s + 1) (<[connName := c]> (connections_ s)) (set_pool p s) in
    let w := set_conns (<[c := mkConnection ioLoop connName Born]> (conns w)) (set_server s w) in
    runInLoop thread ioLoop s' (ConnectEstablished c) w
  else Fault Overflow.

(** [Acceptor::handleRead] of the server's acceptor, when [::accept] gives
    [ans]. *)
Definition acceptor_handleRead (thread : positive) (ans : accept_answer) (c : conn_ptr) (s' : stage)
    (w : net) : res net :=
  a ← handleRead (thread =? server_loop_ (server w))%positive ans (acceptor_ (server w));
  match a with
  | Connection _ => newConnection thread c s' w
  | _ => Ok w
  end.

(** The destructor: every connection of the map is destroyed in its loop, and
    the acceptor leaves the loop. *)
Fixpoint destroy_all (thread : positive) (cs : list conn_ptr) (w : net) : res net :=
  match cs with
  | [] => Ok w
  | c :: cs =>
      k ← get_ NullDeref (conns w !! c);
      w ← runInLoop thread (getLoop k) Up (ConnectDestroyed c) w;
      destroy_all thread cs w
  end.

Definition delete_TcpServer (thread : positive) (w : net) : res net :=
  assert_in_loop (thread =? server_loop_ (server w))%positive;;
  w ← destroy_all thread (snd <$> map_to_list (connections_ (server w))) w;
  l ← delete_Acceptor (acceptor_ (server w)) (base w);
  Ok (mkNet (server w) false l (conns w) (pending w)).

(** ** All that can happen *)
Inductive server_op :=
  | OpStart (startLoop : nat -> positive)      (* by the thread of the base loop *)
  | OpAccept (ans : accept_answer) (c : conn_ptr) (s' : stage)
  | OpRun (k : positive) (s' : stage)          (* loop k runs its next functor *)
  | OpWork (c : conn_ptr) (tell : bool) (s' : stage)  (* a connection at work in its loop *)
  | OpBase (l : L).                            (* the base loop does something else *)

Definition server_exec (op : server_op) (w : net) : res net :=
  match op with
  | OpStart startLoop => server_start (server_loop_ (server w)) startLoop w
  | OpAccept ans c s' => acceptor_handleRead (server_loop_ (server w)) ans c s' w
  | OpRun k s' =>
      match next_functor k (pending w) with
      | Some (f, q) => run_sfun k s' f (set_pending q w)
      | None => Ok w
      end
  | OpWork c tell s' =>
      k ← get_ NullDeref (conns w !! c);
      let w := set_conns (<[c := set_stage s' k]> (conns w)) w in
      if tell then removeConnection (getLoop k) c w else Ok w
  | OpBase l => Ok (set_base l w)
  end.
End TcpServer.

Arguments net : clear implicits.
