(* ===== verification/TcpServerFacts.v ===== *)
(** * Correctness of servers

    The invariant of a server and of all its connections: what is pending for
    a connection, and whether the map holds it, follows from the stage of
    its life. *)
From S2P Require Import Prelude.
From S2P Require Import Endian.
From S2P Require Import Format.
From S2P Require Import Atomic.
From S2P Require Import Channel.
From S2P Require Import Poller.
From S2P Require Import PollerFacts.
From S2P Require Import EventLoop.
From S2P Require Import ChannelHost.
From S2P Require Import EventLoopThreadPool.
From S2P Require Import ConnLife.
From S2P Require Import Acceptor.
From S2P Require Import TcpServer.

(** ** Names *)

Lemma fmt_d_inj i j : (0 <= i)%Z -> (0 <= j)%Z -> fmt_d i = fmt_d j -> i = j.
Proof.
  intros Hi Hj. unfold fmt_d. rewrite (proj2 (Z.ltb_ge i 0)), (proj2 (Z.ltb_ge j 0)) by done.
  by apply dec_inj.
Qed.

(** The name of a connection; while it fits, it is not cut. *)
Definition full_name (name hostport : bytes) (i : Z) : bytes :=
  name ++ str ":" ++ hostport ++ str "#" ++ fmt_d i.

Lemma connection_name_full `{Platform} name hostport i :
  length hostport <= max_hostport -> (0 <= i < max_ids)%Z ->
  connection_name name hostport i = Ok (full_name name hostport i).
Proof. intros Hh Hi. unfold connection_name. by rewrite suffix_fits. Qed.

Lemma full_name_inj name hostport i j :
  (0 <= i)%Z -> (0 <= j)%Z -> full_name name hostport i = full_name name hostport j -> i = j.
Proof.
  intros Hi Hj E%(inj (app name))%(inj (app (str ":")))%(inj (app hostport))%(inj (app (str "#"))).
  by apply fmt_d_inj.
Qed.

(** ** What is pending for a connection *)

Definition target (f : sfun) : option conn_ptr :=
  match f with
  | Listen => None
  | ConnectEstablished c | RemoveConnectionInLoop c | ConnectDestroyed c => Some c
  end.

Definition about (c : conn_ptr) (q : list (positive * sfun)) : list (positive * sfun) :=
  filter (fun e => target e.2 = Some c) q.

Lemma about_app c q q' : about c (q ++ q') = about c q ++ about c q'.
Proof. apply filter_app. Qed.

Lemma about_one c k f : target f = Some c -> about c [(k, f)] = [(k, f)].
Proof. intros Hf. unfold about. by rewrite filter_cons_True. Qed.

Lemma about_other c k f : target f <> Some c -> about c [(k, f)] = [].
Proof. intros Hf. unfold about. by rewrite filter_cons_False. Qed.

Lemma next_functor_split k q f q' :
  next_functor k q = Some (f, q') -> exists a b, q = a ++ (k, f) :: b /\ q' = a ++ b.
Proof.
  revert q'; induction q as [|[k' g] q IH]; intros q'; simpl; [done|].
  destruct (Pos.eqb_spec k' k) as [->|Hn].
  - intros [= <- <-]. by exists [], q.
  - destruct (next_functor k q) as [[h q1]|]; [|done]. simpl. intros [= -> <-].
    destruct (IH q1 eq_refl) as (a & b & -> & ->). by exists ((k', g) :: a), b.
Qed.

(** Taking a functor for [c] leaves nothing, if it was the only one. *)
Lemma next_functor_about k q f q' :
  next_functor k q = Some (f, q') ->
  (k, f) ∈ q /\ (forall e, e ∈ q' -> e ∈ q)
  /\ (forall c, target f <> Some c -> about c q' = about c q)
  /\ (forall c e, target f = Some c -> about c q = [e] -> e = (k, f) /\ about c q' = [])
  /\ (forall c, target f = Some c -> about c q <> []).
Proof.
  intros (a & b & -> & ->)%next_functor_split. split_and!.
  - set_solver.
  - set_solver.
  - intros c Hc. rewrite !about_app. change ((k, f) :: b) with ([(k, f)] ++ b).
    rewrite about_app, about_other by done. done.
  - intros c e Hc. rewrite !about_app. change ((k, f) :: b) with ([(k, f)] ++ b).
    rewrite about_app, about_one by done. intros E.
    destruct (about c a); simpl in *; [|injection E as _ E; by apply app_nil in E as [_ [=]]].
    by injection E as <- ->.
  - intros c Hc. rewrite about_app. change ((k, f) :: b) with ([(k, f)] ++ b).
    rewrite about_app, about_one by done. by destruct (about c a).
Qed.

Section ServerFacts.
Context `{Platform} {L F : Type} `{!ChannelHost L F} `{!ChannelHostLaws L F}.
Implicit Types (w : net L).

Abbreviation safe := (wp (fun _ => False)).

(** The connection is in the map. *)
Definition listed (c : conn_ptr) (k : connection) w : Prop :=
  connections_ (server w) !! conn_name_ k = Some c.

Definition stage_ok (c : conn_ptr) (k : connection) w : Prop :=
  let q := about c (pending w) in
  match conn_stage k with
  | Born => q = [(getLoop k, ConnectEstablished c)] /\ listed c k w
  | Up | Shutting => q = [] /\ listed c k w
  | Down => q = [(server_loop_ (server w), RemoveConnectionInLoop c)] /\ listed c k w
            \/ q = [(getLoop k, ConnectDestroyed c)] /\ ~ listed c k w
  | Dead => q = [] /\ ~ listed c k w
  end.

(** The server is started as a whole or not at all. *)
Definition start_ok (s : TcpServer) : Prop :=
  if (value_ (server_started_ s) =? 0)%Z
  then started_ (threadPool_ s) = false /\ next_ (threadPool_ s) = 0%Z /\ listenning_ (acceptor_ s) = false
    /\ names_fit (threadPool_ s)
  else pool_inv (threadPool_ s).

(** The invariant, connection [x] apart. *)
Record inv_but (x : option conn_ptr) w : Prop := {
  si_alive : alive w = true;
  si_start : start_ok (server w);
  si_acceptor : acceptor_inv (acceptor_ (server w)) (base w);
  si_host : length (hostport_ (server w)) <= max_hostport;
  si_ids : (1 <= nextConnId_ (server w) <= max_ids)%Z;
  si_names n c : connections_ (server w) !! n = Some c ->
    exists i, (1 <= i < nextConnId_ (server w))%Z
      /\ n = full_name (server_name_ (server w)) (hostport_ (server w)) i;
  si_listed n c : connections_ (server w) !! n = Some c -> Some c <> x ->
    exists k, conns w !! c = Some k /\ conn_name_ k = n;
  si_conns c k : Some c <> x -> conns w !! c = Some k -> stage_ok c k w;
  si_none c : Some c <> x -> conns w !! c = None -> about c (pending w) = [];
  si_listen k : (k, Listen) ∉ pending w
}.

Definition server_inv w : Prop := inv_but None w.

Lemma inv_forget c w : server_inv w -> inv_but (Some c) w.
Proof. intros []. by split; auto. Qed.

(** Putting the connection back. *)
Lemma inv_restore c k w :
  inv_but (Some c) w -> conns w !! c = Some k -> stage_ok c k w ->
  (forall n, connections_ (server w) !! n = Some c -> n = conn_name_ k) -> server_inv w.
Proof.
  intros [] Hk Hs Hnm. split; try done.
  - intros n c' Hc _. destruct (decide (c' = c)) as [->|Hne].
    + exists k. by rewrite (Hnm n Hc).
    + apply si_listed0; [done | congruence].
  - intros c' k' _ Hk'. destruct (decide (c' = c)) as [->|Hn]; [congruence|].
    apply si_conns0; [congruence | done].
  - intros c' _ Hc'. apply si_none0; [|done]. intros [= ->]. congruence.
Qed.

(** Operations on connection [c] do not touch the others. *)
Lemma inv_set_conn c k w : inv_but (Some c) w -> inv_but (Some c) (set_conns (<[c := k]> (conns w)) w).
Proof.
  intros []. split; try done; simpl.
  - intros n c' Hc Hn. rewrite lookup_insert_ne by congruence. by apply si_listed0.
  - intros c' k' Hn. rewrite lookup_insert_ne by congruence. by apply si_conns0.
  - intros c' Hn. rewrite lookup_insert_ne by congruence. by apply si_none0.
Qed.

Lemma inv_pending c q w :
  inv_but (Some c) w -> (forall c', c' <> c -> about c' q = about c' (pending w)) ->
  (forall l, (l, Listen) ∉ q) -> inv_but (Some c) (set_pending q w).
Proof.
  intros [] Hq Hl. split; try done; simpl.
  - intros c' k' Hn Hk. specialize (si_conns0 c' k' Hn Hk). unfold stage_ok in *. simpl.
    by rewrite Hq by congruence.
  - intros c' Hn Hk. rewrite Hq by congruence. by apply si_none0.
Qed.

Lemma inv_queue c l f w :
  target f = Some c -> inv_but (Some c) w -> inv_but (Some c) (queue_functor l f w).
Proof.
  intros Hf Hw. apply inv_pending; [done| |].
  - intros c' Hn. rewrite about_app, about_other, app_nil_r by congruence. done.
  - intros l' [Hin|Hin]%elem_of_app; [by apply (si_listen _ _ Hw l')|].
    apply list_elem_of_singleton in Hin as [= -> <-]. done.
Qed.

(** The map changes at names that no other connection has. *)
Lemma inv_map c n m w :
  inv_but (Some c) w -> (nextConnId_ (server w) <= n <= max_ids)%Z ->
  (forall s d, m !! s = Some d -> exists i, (1 <= i < n)%Z
     /\ s = full_name (server_name_ (server w)) (hostport_ (server w)) i) ->
  (forall s d, m !! s = Some d -> d <> c -> connections_ (server w) !! s = Some d) ->
  (forall d k, d <> c -> m !! conn_name_ k = Some d <-> listed d k w) ->
  inv_but (Some c) (set_server (set_connections n m (server w)) w).
Proof.
  intros [] Hn Hm Hs Hl. split; simpl; try done; [lia|..].
  { intros s d Hd Hne. apply si_listed0; [|done]. apply Hs; [done | congruence]. }
  intros d k Hd Hk. specialize (si_conns0 d k Hd Hk). unfold stage_ok, listed in *. simpl.
  assert (d <> c) as Hdc by congruence. pose proof (Hl d k Hdc) as Hlk. unfold listed in Hlk.
  destruct (conn_stage k); rewrite ?Hlk; done.
Qed.

Lemma inv_delete c k w :
  inv_but (Some c) w -> listed c k w ->
  inv_but (Some c) (set_server (set_connections (nextConnId_ (server w))
    (delete (conn_name_ k) (connections_ (server w))) (server w)) w).
Proof.
  intros Hw Hl. apply inv_map; [done | pose proof (si_ids _ _ Hw); lia | | |].
  - intros s d [_ Hs]%lookup_delete_Some. by apply (si_names _ _ Hw s d).
  - by intros s d [_ Hs]%lookup_delete_Some.
  - intros d k' Hd. unfold listed in *. rewrite lookup_delete_Some. split; [by intros [_ ?]|].
    intros Hk. split; [|done]. intros E. rewrite E in Hl. congruence.
Qed.

(** ** The calls on a connection *)

(** What is known when the server or a loop turns to connection [c]. *)
Record at_conn (c : conn_ptr) (k : connection) w : Prop := {
  at_inv : inv_but (Some c) w;
  at_here : conns w !! c = Some k;
  at_idle : about c (pending w) = [];
  at_name n : connections_ (server w) !! n = Some c -> n = conn_name_ k
}.

(** Running a functor of [c]. *)
Lemma at_run w l f q c :
  server_inv w -> next_functor l (pending w) = Some (f, q) -> target f = Some c ->
  exists k, at_conn c k (set_pending q w) /\ stage_ok c k w /\ about c (pending w) = [(l, f)].
Proof.
  intros Hinv Hq Hc. destruct (next_functor_about _ _ _ _ Hq) as (Hin & Hsub & Hoth & Hone & Hne).
  destruct (conns w !! c) as [k|] eqn:Ek.
  - exists k. assert (Hk : stage_ok c k w) by (by apply (si_conns _ _ Hinv)).
    assert (Hq1 : exists e, about c (pending w) = [e]).
    { unfold stage_ok in Hk. specialize (Hne c Hc).
      destruct (conn_stage k); destruct_and?; try done; [by eexists|].
      destruct Hk as [[? _]|[? _]]; by eexists. }
    destruct Hq1 as [e He]. destruct (Hone c e Hc He) as [-> Hab].
    split; [|done]. split; [|done..|].
    + apply inv_pending; [by apply inv_forget | |].
      * intros c' Hn. apply Hoth. congruence.
      * intros l' Hl%Hsub. by apply (si_listen _ _ Hinv l').
    + intros n (k' & Hk' & <-)%(si_listed _ _ Hinv); [|done]. congruence.
  - exfalso. apply (Hne c Hc). by apply (si_none _ _ Hinv).
Qed.

Lemma establish_inv c k s' w :
  at_conn c k w -> conn_stage k = Born -> listed c k w -> open s' = true ->
  safe (connectEstablished (getLoop k) s' c w) server_inv.
Proof.
  intros Ha Hb Hl Ho. pose proof Ha as []. unfold connectEstablished.
  rewrite at_here0. run_res. rewrite Pos.eqb_refl. run_res. rewrite Hb, bool_decide_true by done.
  run_res. simpl. eapply (inv_restore c); [by apply inv_set_conn | apply lookup_insert_eq | | done].
  unfold stage_ok. simpl. by destruct s'.
Qed.

Lemma destroy_inv c k w :
  at_conn c k w -> conn_stage k = Down -> ~ listed c k w ->
  safe (connectDestroyed (getLoop k) c w) server_inv.
Proof.
  intros Ha Hb Hl. pose proof Ha as []. unfold connectDestroyed.
  rewrite at_here0. run_res. rewrite Pos.eqb_refl. run_res. rewrite Hb. simpl.
  eapply (inv_restore c); [by apply inv_set_conn | apply lookup_insert_eq | | done]. done.
Qed.

Lemma remove_inv c k w :
  at_conn c k w -> conn_stage k = Down -> listed c k w ->
  safe (removeConnectionInLoop (server_loop_ (server w)) c w) server_inv.
Proof.
  intros Ha Hb Hl. pose proof Ha as []. unfold removeConnectionInLoop.
  rewrite (si_alive _ _ at_inv0). run_res. rewrite Pos.eqb_refl. run_res. rewrite at_here0. run_res.
  rewrite decide_True by (unfold listed in Hl; by eexists). run_res. simpl.
  eapply (inv_restore c); [by apply inv_queue, inv_delete | done | |].
  - unfold stage_ok. simpl. rewrite Hb. right. split.
    + by rewrite about_app, at_idle0, about_one.
    + unfold listed. simpl. by rewrite lookup_delete_eq.
  - simpl. intros n [_ Hn]%lookup_delete_Some. by apply at_name0.
Qed.

(** The close callback of a connection that went down. *)
Lemma removeConnection_inv c k w :
  at_conn c k w -> conn_stage k = Down -> listed c k w ->
  safe (removeConnection (getLoop k) c w) server_inv.
Proof.
  intros Ha Hb Hl. pose proof Ha as []. unfold removeConnection, runInLoop.
  rewrite (si_alive _ _ at_inv0). destruct (Pos.eqb_spec (getLoop k) (server_loop_ (server w))) as [->|].
  - by eapply remove_inv.
  - simpl. eapply (inv_restore c); [by apply inv_queue | done | | done].
    unfold stage_ok. simpl. rewrite Hb. left. split; [|done]. by rewrite about_app, at_idle0, about_one.
Qed.

(** ** The calls on the server *)

Lemma newConnection_inv c s' w :
  server_inv w -> listenning_ (acceptor_ (server w)) = true -> conns w !! c = None ->
  (nextConnId_ (server w) < max_ids)%Z -> open s' = true ->
  safe (newConnection (server_loop_ (server w)) c s' w) server_inv.
Proof.
  intros Hinv Hl Hc Hid Ho. pose proof (si_ids _ _ Hinv) as Hids.
  assert (Hpool : pool_inv (threadPool_ (server w))).
  { pose proof (si_start _ _ Hinv) as Hs. unfold start_ok in Hs.
    destruct (value_ _ =? 0)%Z; [|done]. destruct Hs as (_ & _ & Hs & _). congruence. }
  unfold newConnection. rewrite Pos.eqb_refl. run_res.
  destruct (getNextLoop_turn _ Hpool) as (p & E & Hp & _). rewrite E. run_res.
  rewrite connection_name_full by (lia || apply (si_host _ _ Hinv)). run_res.
  rewrite (proj2 (Z.ltb_lt _ _)) by (unfold max_ids in *; lia).
  set (io := in_turn _ 0). set (name := full_name _ _ _).
  set (k := mkConnection io name Born). set (w1 := set_conns _ _).
  assert (Hnew : forall d, connections_ (server w) !! name <> Some d).
  { intros d (i & Hi & En)%(si_names _ _ Hinv). unfold name in En.
    apply full_name_inj in En; lia. }
  assert (Hnone : forall n, connections_ (server w) !! n <> Some c).
  { intros n (k' & Hk' & _)%(si_listed _ _ Hinv); [|done]. congruence. }
  assert (H1 : at_conn c k w1).
  { split; [|apply lookup_insert_eq | by apply (si_none _ _ Hinv) |].
    2: { simpl. intros n [[<- _]|[_ Hn]]%lookup_insert_Some; [done | by apply Hnone in Hn]. }
    change (inv_but (Some c) (set_conns (<[c := k]> (conns w))
      (set_server (set_connections (nextConnId_ (server w) + 1)
         (<[name := c]> (connections_ (server w))) (set_pool p (server w))) w))).
    apply (inv_set_conn c k (set_server _ w)).
    change (set_server _ w) with (set_server (set_connections (nextConnId_ (server w) + 1)
      (<[name := c]> (connections_ (server (set_server (set_pool p (server w)) w))))
      (server (set_server (set_pool p (server w)) w))) (set_server (set_pool p (server w)) w)).
    apply inv_map; simpl.
    - pose proof (inv_forget c w Hinv) as []. split; simpl; try done.
      unfold start_ok in *. simpl. destruct (value_ _ =? 0)%Z; [|done].
      destruct si_start0 as (_ & _ & Hs & _). congruence.
    - lia.
    - intros n d [[<- <-]|[_ Hd]]%lookup_insert_Some.
      + exists (nextConnId_ (server w)). split; [lia | done].
      + destruct (si_names _ _ Hinv n d Hd) as (i & Hi & En). exists i. split; [lia | done].
    - intros n d [[_ <-]|[_ Hd]]%lookup_insert_Some; done.
    - intros d k' Hd. unfold listed. simpl. rewrite lookup_insert_Some. split.
      + intros [[_ ->]|[_ ?]]; done.
      + intros Hk. right. split; [|done]. intros ->. by apply (Hnew d). }
  assert (Hlk : listed c k w1) by (apply lookup_insert_eq).
  unfold runInLoop. fold io. destruct (Pos.eqb_spec (server_loop_ (server w)) io) as [Eio|].
  - rewrite Eio. by apply (establish_inv c k).
  - simpl. eapply (inv_restore c); [by apply inv_queue, H1 | apply H1 | | apply H1].
    unfold stage_ok. simpl. split; [|done].
    rewrite about_app, (si_none _ _ Hinv c) by done. by rewrite about_one.
Qed.

Lemma listen_inv t w :
  server_inv w -> (value_ (server_started_ (server w)) <> 0)%Z -> t = server_loop_ (server w) ->
  safe (server_listen t w) server_inv.
Proof.
  intros Hinv Hv ->. unfold server_listen. rewrite (si_alive _ _ Hinv), Pos.eqb_refl.
  destruct (listen_ok _ _ (si_acceptor _ _ Hinv)) as (a & l & E & Ha & _ & _ & _).
  rewrite E. run_res. simpl. destruct Hinv. split; simpl; try done.
  unfold start_ok in *. simpl. apply Z.eqb_neq in Hv. by rewrite Hv in *.
Qed.

Lemma start_server_inv sl w :
  server_inv w -> safe (server_start (server_loop_ (server w)) sl w) server_inv.
Proof.
  intros Hinv. unfold server_start, getAndSet. pose proof (si_start _ _ Hinv) as Hs.
  unfold start_ok in Hs. destruct (Z.eqb_spec (value_ (server_started_ (server w))) 0) as [Hv|Hv].
  - destruct Hs as (Hs & Hn & Hl & Hf). simpl. rewrite Pos.eqb_refl.
    destruct (pool_start_ok sl (threadInitCallback_ (server w)) _ Hn Hs Hf) as (r & p & E & Hp & Hnp).
    rewrite E. run_res. simpl. rewrite Hl. run_res. unfold runInLoop. rewrite Pos.eqb_refl. simpl.
    apply listen_inv; [|done..]. destruct Hinv. by split.
  - simpl. destruct Hinv. split; simpl; try done. 
Qed.

(** ** All that can happen to a server *)

(** New connections get fresh addresses and at most 10^8 of them are made; a
    connection follows its life cycle. *)
Definition server_enabled (op : server_op (L:=L)) w : Prop :=
  match op with
  | OpStart _ => True
  | OpAccept _ c s' => listenning_ (acceptor_ (server w)) = true /\ conns w !! c = None
      /\ (nextConnId_ (server w) < max_ids)%Z /\ open s' = true
  | OpRun _ s' => open s' = true
  | OpWork c tell s' => exists k, conns w !! c = Some k /\ life_step Work (conn_stage k) tell s'
  | OpBase l => forall st e, host_holds (base w) (acceptChannel_ (acceptor_ (server w))) st e ->
      host_holds l (acceptChannel_ (acceptor_ (server w))) st e
  end.

(** An [::accept] that fails with an error that is not tolerated. *)
Definition accept_dies (op : server_op (L:=L)) : Prop :=
  match op with OpAccept (AcceptFails e) _ _ => e ∉ expected_errors | _ => False end.

Inductive server_reach (w0 : net L) : net L -> Prop :=
  | server_start_reach : server_reach w0 w0
  | server_next w op w' : server_reach w0 w -> server_enabled op w -> server_exec op w = Ok w' ->
      server_reach w0 w'.

Lemma run_inv l s' f q w :
  server_inv w -> next_functor l (pending w) = Some (f, q) -> open s' = true ->
  safe (run_sfun l s' f (set_pending q w)) server_inv.
Proof.
  intros Hinv Hq Ho. destruct f as [|c|c|c].
  - exfalso. apply next_functor_about in Hq as (Hin & _). by apply (si_listen _ _ Hinv l).
  - destruct (at_run w l _ q c Hinv Hq eq_refl) as (k & Ha & Hk & E).
    unfold stage_ok in Hk. rewrite E in Hk. destruct (conn_stage k) eqn:Es; destruct_and?; try done.
    + simplify_eq. by apply (establish_inv c k).
    + by destruct Hk as [[[=] _]|[[=] _]].
  - destruct (at_run w l _ q c Hinv Hq eq_refl) as (k & Ha & Hk & E).
    unfold stage_ok in Hk. rewrite E in Hk. destruct (conn_stage k) eqn:Es; destruct_and?; try done.
    destruct Hk as [[[= ->] Hl]|[[=] _]]. by apply (remove_inv c k (set_pending q w)).
  - destruct (at_run w l _ q c Hinv Hq eq_refl) as (k & Ha & Hk & E).
    unfold stage_ok in Hk. rewrite E in Hk. destruct (conn_stage k) eqn:Es; destruct_and?; try done.
    destruct Hk as [[[=] _]|[[= ->] Hl]]. by apply (destroy_inv c k).
Qed.

Lemma work_inv c k tell s' w :
  server_inv w -> conns w !! c = Some k -> life_step Work (conn_stage k) tell s' ->
  safe (server_exec (OpWork c tell s') w) server_inv.
Proof.
  intros Hinv Hk Hl. pose proof (si_conns _ _ Hinv c k ltac:(done) Hk) as Hs.
  simpl. rewrite Hk. run_res. set (w1 := set_conns _ w).
  assert (Hb : inv_but (Some c) w1) by (by apply inv_set_conn, inv_forget).
  assert (Hc1 : conns w1 !! c = Some (set_stage s' k)) by apply lookup_insert_eq.
  remember Work as op. remember (conn_stage k) as s. unfold stage_ok in Hs. rewrite <- Heqs in Hs.
  assert (Hn1 : forall n, connections_ (server w) !! n = Some c -> n = conn_name_ k)
    by (intros n (k' & Hk' & <-)%(si_listed _ _ Hinv); [congruence | done]).
  destruct Hl as [|s|s s'' Ho Ho'|s Ho|]; try done; simpl.
  - eapply (inv_restore c); [done..| |done]. unfold stage_ok. simpl. done.
  - eapply (inv_restore c); [done..| |done]. unfold stage_ok. simpl. by destruct s, s''.
  - apply (removeConnection_inv c (set_stage Down k)); [|done|by destruct s; destruct_and?].
    split; [done..| |done]. by destruct s; destruct_and?.
Qed.

Lemma server_exec_inv op w :
  server_inv w -> server_enabled op w -> ~ accept_dies op -> safe (server_exec op w) server_inv.
Proof.
  intros Hinv He Hd. destruct op as [sl|ans c s'|l s'|c tell s'|l].
  - by apply start_server_inv.
  - destruct He as (Hl & Hc & Hid & Ho). simpl. unfold acceptor_handleRead, handleRead.
    rewrite Pos.eqb_refl. run_res. destruct ans as [fd|e]; cbn [socket_accept mbind res_bind].
    2:{ simpl in Hd. by destruct (decide (e ∈ expected_errors)). }
    destruct (0 <=? fd)%Z; [|done]. destruct (newConnectionCallback_ _); [|done].
    by apply newConnection_inv.
  - simpl. destruct (next_functor l (pending w)) as [[f q]|] eqn:Hq; [|done]. by apply run_inv.
  - destruct He as (k & Hk & Hl). by eapply work_inv.
  - simpl. destruct Hinv. split; simpl; try done. unfold acceptor_inv in *.
    destruct (listenning_ _); by apply He.
Qed.

(** A server that was just made. *)
Definition server_fresh w : Prop :=
  alive w = true /\ value_ (server_started_ (server w)) = 0%Z
  /\ started_ (threadPool_ (server w)) = false /\ next_ (threadPool_ (server w)) = 0%Z
  /\ listenning_ (acceptor_ (server w)) = false /\ acceptor_inv (acceptor_ (server w)) (base w)
  /\ length (hostport_ (server w)) <= max_hostport /\ nextConnId_ (server w) = 1%Z
  /\ connections_ (server w) = ∅ /\ conns w = ∅ /\ pending w = [] /\ names_fit (threadPool_ (server w)).

Lemma server_fresh_inv w : server_fresh w -> server_inv w.
Proof.
  intros (Ha & Hv & Hs & Hn & Hl & Hacc & Hh & Hid & Hm & Hc & Hp & Hf).
  split; try done; rewrite ?Hm, ?Hc, ?Hp, ?Hid; try done.
  - unfold start_ok. by rewrite Hv.
  - set_solver.
Qed.

Lemma server_exec_dies op w :
  accept_dies op -> server_exec op w = Fault LogFatal.
Proof.
  destruct op as [|[fd|e] c s'| | |]; try done. simpl. intros He. unfold acceptor_handleRead, handleRead.
  rewrite Pos.eqb_refl. run_res. simpl. by rewrite decide_False.
Qed.

Lemma server_reach_inv w0 w : server_fresh w0 -> server_reach w0 w -> server_inv w.
Proof.
  intros Hf Hr. induction Hr as [|w op w' _ IH He Hx]; [by apply server_fresh_inv|].
  refine (wp_ok _ _ _ _ (server_exec_inv op w IH He _) Hx). intros Hd. by rewrite (server_exec_dies op w Hd) in Hx.
Qed.


(** C11: the map of connections is exact: each entry is a connection of that
    name, an open connection is in it, a dead one is not, and once no functor is
    pending every connection is open and in the map, or dead and out of it:
    each was established once and each closed one destroyed once. *)
Theorem server_map_exact w0 w :
  server_fresh w0 -> server_reach w0 w ->
  (forall n c, connections_ (server w) !! n = Some c ->
     exists k, conns w !! c = Some k /\ conn_name_ k = n /\ conn_stage k <> Dead)
  /\ (forall c k, conns w !! c = Some k ->
        (open (conn_stage k) = true -> listed c k w)
        /\ (pending w = [] -> open (conn_stage k) = true /\ listed c k w
                              \/ conn_stage k = Dead /\ ~ listed c k w)).
Proof.
  intros Hf Hr. pose proof (server_reach_inv w0 w Hf Hr) as Hinv. split.
  - intros n c Hc. destruct (si_listed _ _ Hinv n c Hc) as (k & Hk & <-); [done|]. exists k.
    split_and!; try done. intros Hd. pose proof (si_conns _ _ Hinv c k ltac:(done) Hk) as Hs.
    unfold stage_ok in Hs. rewrite Hd in Hs. by destruct Hs as [_ []].
  - intros c k Hk. pose proof (si_conns _ _ Hinv c k ltac:(done) Hk) as Hs. unfold stage_ok in Hs.
    split.
    + by destruct (conn_stage k); intros; destruct_and?.
    + intros Hp. rewrite Hp in Hs. destruct (conn_stage k); simpl in Hs; destruct_and?; try done;
        [by left..| |by right]. by destruct Hs as [[[=] _]|[[=] _]].
Qed.
End ServerFacts.

(** Connection names are unique while their numbers have at most eight digits,
    the longest address included. The ninth digit does not fit the array of 32
    characters: on Linux it is cut off and two connections get the same name,
    on Windows the name is read past the end of the array. *)
Theorem connection_names :
  (forall (P : Platform) name hostport i j, length hostport <= max_hostport ->
     (0 <= i < max_ids)%Z -> (0 <= j < max_ids)%Z -> i <> j ->
     exists a b, connection_name name hostport i = Ok a /\ connection_name name hostport j = Ok b /\ a <> b)
  /\ let hostport := str "255.255.255.255:65535" in
     (exists a, @connection_name linux [] hostport max_ids = Ok a
        /\ @connection_name linux [] hostport (max_ids + 1) = Ok a)
     /\ @connection_name windows [] hostport max_ids = Fault OutOfBounds.
Proof.
  split.
  - intros P name hostport i j Hh Hi Hj Hne. exists (full_name name hostport i), (full_name name hostport j).
    rewrite !connection_name_full by done. split_and!; [done|done|]. intros E. apply full_name_inj in E; lia.
  - split; [eexists; split|]; vm_compute; reflexivity.
Qed.

(** ** A server with a base loop and two threads *)

Definition demo_net : net (EventLoop sfun) :=
  mkNet (set_pool (setThreadNum 2 (new_EventLoopThreadPool 1 (str "srv")))
           (new_TcpServer 1 (str "0.0.0.0:80") (str "srv") 2)) true
    (mkEventLoop 1 false false false false 0 7
       (new_PollPoller {[ 2%positive := new_accept_channel 1 9 ]}) 0 1 [] None []) ∅ [].

Definition demo_threads (i : nat) : positive := Pos.of_nat (10 + i).

(** Two connections are accepted, the first is established in its thread and
    closes; the base loop removes it. *)
Definition demo_ops : list (server_op (L:=EventLoop sfun)) :=
  [OpStart demo_threads; OpAccept (AcceptFd 20) 5 Up; OpAccept (AcceptFd 21) 6 Up; OpRun 10 Up; OpWork 5 true Down;
   OpRun 1 Up].

Fixpoint server_run `{Platform} (ops : list server_op) (w : net (EventLoop sfun)) :
    res (net (EventLoop sfun)) :=
  match ops with
  | [] => Ok w
  | op :: ops => w ← server_exec op w; server_run ops w
  end.

Lemma demo_net_fresh (p : Platform) : server_fresh demo_net.
Proof.
  split_and!; try done; [|simpl; unfold max_hostport; lia|split; simpl; lia].
  split; [apply poll_inv_new|]. by eexists.
Qed.

Module OnWindows.
#[local] Instance platform : Platform := windows.

Definition demo_after (n : nat) : net (EventLoop sfun) :=
  match server_run (take n demo_ops) demo_net with Ok w => w | Fault _ => demo_net end.

Lemma demo_next n op :
  demo_ops !! n = Some op -> server_enabled op (demo_after n) ->
  server_exec op (demo_after n) = Ok (demo_after (S n)) ->
  server_reach demo_net (demo_after n) -> server_reach demo_net (demo_after (S n)).
Proof. intros _ He Hx Hr. by apply (server_next _ (demo_after n) op). Qed.

Lemma demo_reach4 : server_reach demo_net (demo_after 4).
Proof.
  apply (demo_next 3 (OpRun 10 Up)); [done | done | vm_compute; reflexivity |].
  apply (demo_next 2 (OpAccept (AcceptFd 21) 6 Up)); [done | | vm_compute; reflexivity |].
  { split_and!; [vm_compute; done..|]. done. }
  apply (demo_next 1 (OpAccept (AcceptFd 20) 5 Up)); [done | | vm_compute; reflexivity |].
  { split_and!; [vm_compute; done..|]. done. }
  apply (demo_next 0 (OpStart demo_threads)); [done | done | vm_compute; reflexivity | constructor].
Qed.

Lemma demo_reach : server_reach demo_net (demo_after 5).
Proof.
  apply (demo_next 4 (OpWork 5 true Down)); [done | | vm_compute; reflexivity | apply demo_reach4].
  exists (mkConnection 10 (str "srv:0.0.0.0:80#1") Up). split; [vm_compute; reflexivity|].
  by apply life_close.
Qed.


Lemma server_map_exact_witness :
  connections_ (server (demo_after 5)) !! str "srv:0.0.0.0:80#1" = Some 5%positive
  /\ exists k, conns (demo_after 5) !! 5%positive = Some k /\ conn_stage k <> Dead.
Proof.
  assert (Hc : connections_ (server (demo_after 5)) !! str "srv:0.0.0.0:80#1" = Some 5%positive)
    by (vm_compute; reflexivity).
  split; [exact Hc|].
  destruct (server_map_exact demo_net (demo_after 5) (demo_net_fresh windows) demo_reach) as [Hm _].
  destruct (Hm _ _ Hc) as (k & Hk & _ & Hd). exists k. split; [exact Hk | exact Hd].
Defined.

(** The connection goes down in its thread after the server was deleted and
    before its [connectDestroyed] ran. *)
Definition after_delete : res (net (EventLoop sfun)) :=
  w ← delete_TcpServer 1 (demo_after 4);
  server_exec (OpWork 5 true Down) w.

(** the destructor leaves the close callback of its connections bound to
    the destroyed server: a connection of another loop that goes down before
    its [connectDestroyed] runs calls into freed memory. *)
Theorem delete_dangles :
  (exists w, delete_TcpServer 1 (demo_after 4) = Ok w
     /\ server_enabled (OpWork 5 true Down) w)
  /\ server_reach demo_net (demo_after 4) /\ after_delete = Fault NullDeref.
Proof.
  split; [|split; [apply demo_reach4 | vm_compute; reflexivity]].
  eexists. split; [vm_compute; reflexivity|].
  exists (mkConnection 10 (str "srv:0.0.0.0:80#1") Up). split; [vm_compute; reflexivity|].
  by apply life_close.
Qed.
End OnWindows.
