(* ===== verification/Connector.v ===== *)
(** * The connector: [src/msmuduo/net/Connector.h], [Connector.cpp]

    A connector makes one socket at a time, waits on a channel of its loop
    until it is connected, and hands it over or tries again. The loop is used
    through [ChannelHost] and [ChannelOwner]; the functors the connector queues
    in it, in their order, and the retry timers it starts are part of the
    state. Results of system calls are inputs. *)
From S2P Require Import Prelude.
From S2P Require Import Endian.
From S2P Require Import Channel.
From S2P Require Import Poller.
From S2P Require Import EventLoop.
From S2P Require Import ChannelHost.

Inductive States := kDisconnected | kConnecting | kConnected.

#[export] Instance States_eq_dec : EqDecision States.
Proof. solve_decision. Defined.

Definition kMaxRetryDelayMs : Z := 30 * 1000.
Definition kInitRetryDelayMs : Z := 500.

(** [channel_] is the address of the channel, if there is one. *)
Record Connector := mkConnector {
  loop_addr : positive;
  connect_ : bool;
  state_ : States;
  channel_ : option chan;
  retryDelayMs_ : Z
}.

Definition new_Connector (loop : positive) : Connector :=
  mkConnector loop false kDisconnected None kInitRetryDelayMs.

Definition set_connect (b : bool) (c : Connector) : Connector :=
  mkConnector (loop_addr c) b (state_ c) (channel_ c) (retryDelayMs_ c).
Definition setState (s : States) (c : Connector) : Connector :=
  mkConnector (loop_addr c) (connect_ c) s (channel_ c) (retryDelayMs_ c).
Definition set_channel (ch : option chan) (c : Connector) : Connector :=
  mkConnector (loop_addr c) (connect_ c) (state_ c) ch (retryDelayMs_ c).
Definition set_retryDelay (ms : Z) (c : Connector) : Connector :=
  mkConnector (loop_addr c) (connect_ c) (state_ c) (channel_ c) ms.

(** [~Connector]. *)
Definition delete_Connector (c : Connector) : res unit :=
  assert_ (bool_decide (channel_ c = None)).

(** The functors it queues. *)
Inductive cfun := StartInLoop | StopInLoop | ResetChannel.

#[export] Instance cfun_eq_dec : EqDecision cfun.
Proof. solve_decision. Defined.

(** What it does to sockets and timers. *)
Inductive caction :=
  | OpenSocket (fd : Z)
  | CloseSocket (fd : Z)
  | NewConnection (fd : Z)   (* newConnectionCallback_ *)
  | RunAfter (ms : Z).

(** The values of [errno] that [connect] tells apart. *)
Inductive errno :=
  | EOK | EINPROGRESS | EINTR | EISCONN
  | EAGAIN | EADDRINUSE | EADDRNOTAVAIL | ECONNREFUSED | ENETUNREACH
  | EACCES | EPERM | EAFNOSUPPORT | EALREADY | EBADF | EFAULT | ENOTSOCK
  | EOTHER.

(** The descriptor of a new socket, what [connect] answers and the address
    of a new channel. *)
Record connect_answer := mkAnswer { ans_fd : Z; ans_errno : errno; ans_chan : chan }.

(** [getSocketError] and [isSelfConnect]. *)
Record write_answer := mkWriteAnswer { ans_error : Z; ans_self : bool }.

Section Connector.
Context `{Platform} {L F G : Type} `{!ChannelHost L F} `{!ChannelOwner L} (embed : cfun -> G).

(** [cpending]: the functors pending in the loop; [timers]: the retry timers
    that run. *)
Record cworld := mkCworld {
  cloop : L;
  connector : Connector;
  cpending : list G;
  timers : nat;
  ctrace : list caction
}.

Definition set_cloop (l : L) (w : cworld) : cworld :=
  mkCworld l (connector w) (cpending w) (timers w) (ctrace w).
Definition set_connector (c : Connector) (w : cworld) : cworld :=
  mkCworld (cloop w) c (cpending w) (timers w) (ctrace w).
Definition set_cpending (q : list G) (w : cworld) : cworld :=
  mkCworld (cloop w) (connector w) q (timers w) (ctrace w).
Definition set_timers (n : nat) (w : cworld) : cworld :=
  mkCworld (cloop w) (connector w) (cpending w) n (ctrace w).
Definition cemit (a : caction) (w : cworld) : cworld :=
  mkCworld (cloop w) (connector w) (cpending w) (timers w) (ctrace w ++ [a]).
Definition upd_connector (f : Connector -> Connector) (w : cworld) : cworld :=
  set_connector (f (connector w)) w.

Definition queue_cfun (f : cfun) (w : cworld) : cworld := set_cpending (cpending w ++ [embed f]) w.

(** ** Sockets and channels *)

Definition retry (sockfd : Z) (w : cworld) : cworld :=
  let w := upd_connector (setState kDisconnected) (cemit (CloseSocket sockfd) w) in
  if connect_ (connector w)
  then set_timers (S (timers w)) (cemit (RunAfter (retryDelayMs_ (connector w))) w)
  else w.

Definition connecting (sockfd : Z) (id : chan) (w : cworld) : res cworld :=
  let w := upd_connector (setState kConnecting) w in
  assert_ (bool_decide (channel_ (connector w) = None));;
  let ch := setErrorCallback (setWriteCallback (new_Channel (loop_addr (connector w)) sockfd)) in
  let w := upd_connector (set_channel (Some id)) (set_cloop (host_new id ch (cloop w)) w) in
  l ← host_request EnableWriting id (cloop w);
  Ok (set_cloop l w).

Definition connect (ans : connect_answer) (w : cworld) : res cworld :=
  let sockfd := ans_fd ans in
  let w := cemit (OpenSocket sockfd) w in
  match ans_errno ans with
  | EOK | EINPROGRESS | EINTR | EISCONN => connecting sockfd (ans_chan ans) w
  | EAGAIN | EADDRINUSE | EADDRNOTAVAIL | ECONNREFUSED | ENETUNREACH => Ok (retry sockfd w)
  | _ => Ok (cemit (CloseSocket sockfd) w)
  end.

Definition startInLoop (in_loop : bool) (ans : connect_answer) (w : cworld) : res cworld :=
  assert_in_loop in_loop;;
  assert_ (bool_decide (state_ (connector w) = kDisconnected));;
  if connect_ (connector w) then connect ans w else Ok w.

Definition start (in_loop : bool) (ans : connect_answer) (w : cworld) : res cworld :=
  let w := upd_connector (set_connect true) w in
  if in_loop then startInLoop true ans w else Ok (queue_cfun StartInLoop w).

Definition restart (in_loop : bool) (ans : connect_answer) (w : cworld) : res cworld :=
  assert_in_loop in_loop;;
  startInLoop in_loop ans
    (upd_connector (fun c => set_connect true (set_retryDelay kInitRetryDelayMs (setState kDisconnected c))) w).

Definition removeAndResetChannel (w : cworld) : res (Z * cworld) :=
  id ← get_ NullDeref (channel_ (connector w));
  l ← host_request DisableAll id (cloop w);
  l ← host_remove id l;
  c ← get_ NullDeref (host_channel id l);
  Ok (fd_ c, queue_cfun ResetChannel (set_cloop l w)).

Definition resetChannel (w : cworld) : res cworld :=
  match channel_ (connector w) with
  | Some id => l ← host_delete id (cloop w);
               Ok (upd_connector (set_channel None) (set_cloop l w))
  | None => Ok w
  end.

Definition stop (w : cworld) : cworld := queue_cfun StopInLoop (upd_connector (set_connect false) w).

Definition stopInLoop (in_loop : bool) (w : cworld) : res cworld :=
  assert_in_loop in_loop;;
  if decide (state_ (connector w) = kConnecting) then
    '(sockfd, w) ← removeAndResetChannel (upd_connector (setState kDisconnected) w);
    Ok (retry sockfd w)
  else Ok w.

(** ** Events of the channel *)

Definition handleWrite (ans : write_answer) (w : cworld) : res cworld :=
  if decide (state_ (connector w) = kConnecting) then
    '(sockfd, w) ← removeAndResetChannel w;
    if negb (ans_error ans =? 0)%Z then Ok (retry sockfd w)
    else if ans_self ans then Ok (retry sockfd w)
    else
      let w := upd_connector (setState kConnected) w in
      Ok (cemit (if connect_ (connector w) then NewConnection sockfd else CloseSocket sockfd) w)
  else
    assert_ (bool_decide (state_ (connector w) = kDisconnected));;
    Ok w.

Definition handleError (w : cworld) : res cworld :=
  if decide (state_ (connector w) = kConnecting) then
    '(sockfd, w) ← removeAndResetChannel w;
    Ok (retry sockfd w)
  else Ok w.

Definition connector_callback (ans : write_answer) (cb : callback) (w : cworld) : res cworld :=
  match cb with
  | CbWrite => handleWrite ans w
  | CbError => handleError w
  | CbClose | CbRead => Ok w
  end.

(** [Channel::handleEvent] for received events. *)
Definition connector_event (ans : write_answer) (revents : Z) (w : cworld) : res cworld :=
  id ← get_ NullDeref (channel_ (connector w));
  c ← get_ NullDeref (host_channel id (cloop w));
  run_all (connector_callback ans)
    (callbacks_for (set_revents revents (setErrorCallback (setWriteCallback
       (new_Channel (loop_ c) (fd_ c)))))) w.

(** A functor of the connector, and a retry timer that expires. *)
Definition run_cfun (ans : connect_answer) (f : cfun) (w : cworld) : res cworld :=
  match f with
  | StartInLoop => startInLoop true ans w
  | StopInLoop => stopInLoop true w
  | ResetChannel => resetChannel w
  end.

Definition retry_timer (ans : connect_answer) (w : cworld) : res cworld :=
  startInLoop true ans (set_timers (pred (timers w)) w).
End Connector.

Arguments cworld : clear implicits.
