(* ===== verification/ConnectorFacts.v ===== *)
(** * Correctness of the connector

    Proved against the contracts of [ChannelHost] and [ChannelOwner], for a
    functor queue that other owners share. *)
From S2P Require Import Prelude.
From S2P Require Import Endian.
From S2P Require Import Channel.
From S2P Require Import Poller.
From S2P Require Import PollerFacts.
From S2P Require Import EventLoop.
From S2P Require Import ChannelHost.
From S2P Require Import Connector.

(** ** Reading a trace: sockets opened, closed and handed over *)
Definition opened (t : list caction) : list Z :=
  omap (fun a => match a with OpenSocket fd => Some fd | _ => None end) t.
Definition released (t : list caction) : list Z :=
  omap (fun a => match a with CloseSocket fd => Some fd | _ => None end) t.
Definition handed (t : list caction) : list Z :=
  omap (fun a => match a with NewConnection fd => Some fd | _ => None end) t.

Lemma opened_app t u : opened (t ++ u) = opened t ++ opened u.
Proof. apply omap_app. Qed.
Lemma released_app t u : released (t ++ u) = released t ++ released u.
Proof. apply omap_app. Qed.
Lemma handed_app t u : handed (t ++ u) = handed t ++ handed u.
Proof. apply omap_app. Qed.

(** How many of [f] are in a queue. *)
Definition count (f : cfun) (q : list cfun) : nat := length (filter (f =.) q).

Lemma count_app f q q' : count f (q ++ q') = count f q + count f q'.
Proof. unfold count. by rewrite filter_app, length_app. Qed.

Lemma count_one f g : count f [g] = if decide (f = g) then 1 else 0.
Proof. unfold count. rewrite filter_cons. by destruct (decide (f = g)). Qed.

Section ConnectorFacts.
Context `{Platform} {L F G : Type} `{!ChannelHost L F} `{!ChannelHostLaws L F}
  `{!ChannelOwner L} `{!ChannelOwnerLaws L F}.
(** The connector's functors among those of the queue. *)
Context (embed : cfun -> G) (proj : G -> option cfun) (Hproj : forall f, proj (embed f) = Some f).
Implicit Types (w : cworld L G).

Abbreviation safe := (wp (fun _ => False)).

Definition mine w : list cfun := omap proj (cpending w).

(** The channel of the connector in its loop. *)
Definition ch_holds w (id : chan) (st : status) (e : Z) : Prop := host_holds (cloop w) id st e.
Definition ch_fd w (id : chan) (fd : Z) : Prop :=
  exists c, host_channel id (cloop w) = Some c /\ fd_ c = fd.

(** The channel follows from the state: while connecting it waits to be
    writable, and later it waits to be reset. [live] are the sockets the
    connector still owns. *)
Definition channel_ok w (live : list Z) : Prop :=
  match channel_ (connector w), state_ (connector w) with
  | None, kConnecting => False
  | None, _ => count ResetChannel (mine w) = 0 /\ live = []
  | Some id, kConnecting => count ResetChannel (mine w) = 0 /\ ch_holds w id Awake kWriteEvent
      /\ exists fd, ch_fd w id fd /\ live = [fd]
  | Some id, _ => count ResetChannel (mine w) = 1 /\ ch_holds w id Gone kNoneEvent /\ live = []
  end.

Record cinv w : Prop := {
  ci_attempts : timers w + count StartInLoop (mine w)
                <= if decide (state_ (connector w) = kDisconnected) then 1 else 0;
  ci_start : 0 < count StartInLoop (mine w) -> channel_ (connector w) = None;
  ci_channel : exists live, channel_ok w live
    /\ opened (ctrace w) ≡ₚ released (ctrace w) ++ handed (ctrace w) ++ live
}.

Lemma mine_queue f w : mine (queue_cfun embed f w) = mine w ++ [f].
Proof. unfold mine. simpl. rewrite omap_app. simpl. by rewrite Hproj. Qed.

Lemma write_event_none : (kWriteEvent =? kNoneEvent)%Z = false.
Proof. unfold kWriteEvent, POLLOUT, kNoneEvent. by destruct win. Qed.

(** ** Leaving the connecting state *)

(** The loop lets the channel go: no event is being handled, or its own. *)
Definition may_leave w (id : chan) : Prop := host_idle (cloop w) \/ host_handling id (cloop w).

Lemma removeAndReset_ok w id fd :
  channel_ (connector w) = Some id -> ch_holds w id Awake kWriteEvent -> ch_fd w id fd ->
  may_leave w id ->
  exists w', removeAndResetChannel embed w = Ok (fd, w') /\ connector w' = connector w
    /\ timers w' = timers w /\ ctrace w' = ctrace w /\ mine w' = mine w ++ [ResetChannel]
    /\ ch_holds w' id Gone kNoneEvent.
Proof.
  intros Hc Hh (c & Hch & Hfd) Hm. unfold removeAndResetChannel. rewrite Hc. run_res.
  destruct (request_law _ _ _ _ DisableAll Hh) as (l1 & E1 & Hh1 & _ & Hi1); [done|].
  rewrite E1. run_res. simpl in Hh1.
  destruct (request_fd _ _ _ _ _ E1 Hch) as (c1 & Hch1 & Hf1).
  assert (Hrm : exists l2, host_remove id l1 = Ok l2 /\ host_holds l2 id Gone kNoneEvent).
  { destruct Hm as [Hi|Hhd].
    - destruct (remove_law _ _ Hh1 (Hi1 Hi)) as (l2 & E2 & Hg & _). by exists l2.
    - apply remove_handling; [done|]. by eapply request_handling. }
  destruct Hrm as (l2 & E2 & Hg). rewrite E2. run_res.
  destruct (remove_fd _ _ _ _ E2 Hch1) as (c2 & Hch2 & Hf2). rewrite Hch2. run_res.
  eexists. split; [do 2 f_equal; congruence|]. split_and!; try done.
  apply (mine_queue ResetChannel (set_cloop l2 w)).
Qed.

(** From the connecting state to [s], closing or handing over the socket. *)
Lemma leave_inv w w' id fd s act n :
  cinv w -> state_ (connector w) = kConnecting -> channel_ (connector w) = Some id ->
  ch_fd w id fd -> s <> kConnecting ->
  state_ (connector w') = s -> channel_ (connector w') = Some id ->
  mine w' = mine w ++ [ResetChannel] -> ch_holds w' id Gone kNoneEvent ->
  timers w' = timers w + n -> n <= (if decide (s = kDisconnected) then 1 else 0) ->
  ctrace w' = ctrace w ++ act -> opened act = [] -> released act ++ handed act = [fd] ->
  cinv w'.
Proof.
  intros [Ha Hs (live & Hch & Hp)] Hst Hid Hfd Hns Hs' Hid' Hm Hg Ht Hn Htr Ho Hrh.
  rewrite Hst in Ha. simpl in Ha. unfold channel_ok in Hch. rewrite Hid, Hst in Hch.
  destruct Hch as (Hr0 & _ & fd' & Hfd' & ->).
  assert (fd' = fd) as -> by (destruct Hfd as (c & Hc & <-), Hfd' as (c' & Hc' & <-); congruence).
  split.
  - rewrite Hm, count_app, count_one, Hs', Ht. simpl. lia.
  - rewrite Hm, count_app, count_one. simpl. lia.
  - exists []. split.
    + unfold channel_ok. rewrite Hid', Hs'. rewrite Hm, count_app, count_one, Hr0. simpl.
      by destruct s.
    + rewrite Htr, opened_app, released_app, handed_app, Ho, !app_nil_r, Hp.
      rewrite <- Hrh. solve_Permutation.
Qed.

(** [retry] after the channel was taken out of the loop. *)
Lemma retry_inv w w1 id fd :
  cinv w -> state_ (connector w) = kConnecting -> channel_ (connector w) = Some id ->
  ch_fd w id fd -> channel_ (connector w1) = Some id -> timers w1 = timers w ->
  ctrace w1 = ctrace w -> mine w1 = mine w ++ [ResetChannel] -> ch_holds w1 id Gone kNoneEvent ->
  cinv (retry fd w1).
Proof.
  intros Hw Hst Hid Hfd Hid1 Ht Htr Hm Hg.
  apply (leave_inv w _ id fd kDisconnected
    (CloseSocket fd :: if connect_ (connector w1) then [RunAfter (retryDelayMs_ (connector w1))] else [])
    (if connect_ (connector w1) then 1 else 0)); try done; unfold retry; simpl;
    destruct (connect_ (connector w1)); simpl; rewrite ?Ht, ?Htr, <- ?app_assoc; try done; lia.
Qed.

(** The channel of a connecting connector. *)
Lemma connecting_channel w :
  cinv w -> state_ (connector w) = kConnecting ->
  exists id fd, channel_ (connector w) = Some id /\ ch_holds w id Awake kWriteEvent /\ ch_fd w id fd.
Proof.
  intros [_ _ (live & Hch & _)] Hst. unfold channel_ok in Hch. rewrite Hst in Hch.
  destruct (channel_ (connector w)) as [id|]; [|done].
  destruct Hch as (_ & Hh & fd & Hfd & _). by exists id, fd.
Qed.

Lemma stopInLoop_inv w :
  cinv w -> host_idle (cloop w) -> safe (stopInLoop embed true w) cinv.
Proof.
  intros Hw Hi. unfold stopInLoop. run_res. case_decide as Hst; [|done].
  destruct (connecting_channel w Hw Hst) as (id & fd & Hid & Hh & Hfd).
  destruct (removeAndReset_ok (upd_connector (setState kDisconnected) w) id fd)
    as (w1 & E & Hc & Ht & Htr & Hm & Hg); try done; [by left|].
  rewrite E. run_res. simpl. apply (retry_inv w w1 id fd); try done. by rewrite Hc.
Qed.

Lemma handleError_inv w :
  cinv w -> (forall id, channel_ (connector w) = Some id -> may_leave w id) ->
  safe (handleError embed w) (fun w' => cinv w'
    /\ (state_ (connector w) = kDisconnected \/ state_ (connector w) = kConnecting ->
        state_ (connector w') = kDisconnected)).
Proof.
  intros Hw Hm. unfold handleError. case_decide as Hst; [|by split; [|intros [?|?]]].
  destruct (connecting_channel w Hw Hst) as (id & fd & Hid & Hh & Hfd).
  destruct (removeAndReset_ok w id fd) as (w1 & E & Hc & Ht & Htr & Hmi & Hg); try done; [by apply Hm|].
  rewrite E. run_res. simpl. split.
  - apply (retry_inv w w1 id fd); try done. by rewrite Hc.
  - intros _. unfold retry. simpl. by destruct (connect_ (connector w1)).
Qed.

Lemma cn_handleWrite_inv ans w :
  cinv w -> (forall id, channel_ (connector w) = Some id -> may_leave w id) ->
  state_ (connector w) <> kConnected -> safe (handleWrite embed ans w) cinv.
Proof.
  intros Hw Hm Hnc. unfold handleWrite. case_decide as Hst.
  - destruct (connecting_channel w Hw Hst) as (id & fd & Hid & Hh & Hfd).
    destruct (removeAndReset_ok w id fd) as (w1 & E & Hc & Ht & Htr & Hmi & Hg); try done; [by apply Hm|].
    rewrite E. run_res. simpl. assert (Hr : cinv (retry fd w1))
      by (apply (retry_inv w w1 id fd); try done; by rewrite Hc).
    destruct (negb _); [done|]. destruct (ans_self ans); [done|].
    apply (leave_inv w _ id fd kConnected
      [if connect_ (connector w1) then NewConnection fd else CloseSocket fd] 0); simpl; try done;
      [by rewrite Hc | lia | by rewrite Htr | |]; by destruct (connect_ (connector w1)).
  - rewrite bool_decide_true; [done|]. by destruct (state_ (connector w)).
Qed.

(** An event of the channel. *)
Lemma event_inv ans r w :
  cinv w -> state_ (connector w) = kConnecting ->
  (forall id, channel_ (connector w) = Some id -> host_handling id (cloop w)) ->
  safe (connector_event embed ans r w) cinv.
Proof.
  intros Hw Hst Hhd. destruct (connecting_channel w Hw Hst) as (id & fd & Hid & Hh & c & Hc & _).
  assert (Hm : forall id, channel_ (connector w) = Some id -> may_leave w id)
    by (intros id' Hid'; right; by apply Hhd).
  unfold connector_event. rewrite Hid. run_res. rewrite Hc. run_res.
  unfold callbacks_for, calls_close, calls_error, calls_read, calls_write. simpl.
  rewrite !andb_false_r, !andb_true_r. simpl.
  destruct (has_flag r (Z.lor POLLERR POLLNVAL)); simpl.
  - apply wp_bind. eapply wp_mono; [by apply handleError_inv|]. intros w1 [H1 Hd].
    specialize (Hd (or_intror Hst)). destruct (has_flag r POLLOUT); simpl; [|done]. apply wp_bind.
    unfold handleWrite. rewrite decide_False by congruence.
    rewrite bool_decide_true by done. done.
  - destruct (has_flag r POLLOUT); simpl; [|done]. apply wp_bind.
    eapply wp_mono; [apply cn_handleWrite_inv; [done..|congruence]|]. done.
Qed.

(** ** Connecting *)

(** The descriptor and the address of the channel are not in use. *)
Definition fresh_answer (ans : connect_answer) w : Prop :=
  host_free (ans_chan ans) (setErrorCallback (setWriteCallback
    (new_Channel (loop_addr (connector w)) (ans_fd ans)))) (cloop w).

(** Nothing is going on: [w] may start an attempt. *)
Definition at_rest w : Prop :=
  state_ (connector w) = kDisconnected /\ channel_ (connector w) = None
  /\ timers w = 0 /\ count StartInLoop (mine w) = 0.

Lemma connect_inv ans w :
  cinv w -> at_rest w -> fresh_answer ans w -> safe (connect ans w) cinv.
Proof.
  intros Hw (Hst & Hch & Ht & Hs) Hf. destruct Hw as [_ _ (live & Hok & Hp)].
  unfold channel_ok in Hok. rewrite Hch, Hst in Hok. destruct Hok as [Hr ->].
  assert (Hclose : forall act n, n <= 1 -> opened act = [] -> released act = [ans_fd ans] ->
    handed act = [] -> forall w', connector w' = connector w -> mine w' = mine w ->
    timers w' = n -> ctrace w' = ctrace w ++ OpenSocket (ans_fd ans) :: act -> cinv w').
  { intros act n Hn Ho Hre Hha w' Hc Hm Ht' Htr. split.
    - rewrite Hc, Hm, Hst, Ht', Hs. simpl. lia.
    - by rewrite Hc.
    - exists []. unfold channel_ok. rewrite Hc, Hm, Hch, Hst. split; [done|].
      change (OpenSocket (ans_fd ans) :: act) with ([OpenSocket (ans_fd ans)] ++ act) in Htr.
      rewrite Htr, !opened_app, !released_app, !handed_app, Ho, Hre, Hha, Hp. simpl. solve_Permutation. }
  assert (Hretry : cinv (retry (ans_fd ans) (cemit (OpenSocket (ans_fd ans)) w))).
  { assert (Hsame : setState kDisconnected (connector w) = connector w)
      by (unfold setState; rewrite <- Hst; by destruct (connector w)).
    apply (Hclose (CloseSocket (ans_fd ans) :: if connect_ (connector w)
             then [RunAfter (retryDelayMs_ (connector w))] else [])
             (if connect_ (connector w) then 1 else 0));
      unfold retry; simpl; destruct (connect_ (connector w)); simpl;
      rewrite <- ?app_assoc, ?Hsame; try done; try lia. }
  assert (Hconn : safe (connecting (ans_fd ans) (ans_chan ans) (cemit (OpenSocket (ans_fd ans)) w)) cinv).
  { unfold connecting. simpl. rewrite Hch. run_res. simpl.
    destruct (request_law _ _ _ _ EnableWriting (new_law _ _ _ Hf)) as (l & E & Hh & _); [done|].
    rewrite E. run_res. simpl. simpl in Hh.
    destruct (request_fd _ _ _ _ _ E (new_channel _ _ _)) as (c' & Hc' & Hfd').
    split; simpl.
    - change (mine _) with (mine w). rewrite Ht, Hs. lia.
    - change (mine _) with (mine w). lia.
    - exists [ans_fd ans]. split.
      + unfold channel_ok. simpl. change (mine _) with (mine w). split; [done|]. split; [done|].
        exists (ans_fd ans). split; [|done]. by exists c'.
      + rewrite opened_app, released_app, handed_app, Hp. simpl. solve_Permutation. }
  unfold connect. destruct (ans_errno ans); try done; simpl;
    apply (Hclose [CloseSocket (ans_fd ans)] 0); simpl; try done; try lia; by rewrite <- app_assoc.
Qed.

Lemma startInLoop_inv ans w :
  cinv w -> at_rest w -> fresh_answer ans w -> safe (startInLoop true ans w) cinv.
Proof.
  intros Hw Hr Hf. unfold startInLoop. run_res. pose proof Hr as (Hst & _).
  rewrite bool_decide_true by done. run_res. destruct (connect_ _); [|done]. by apply connect_inv.
Qed.

(** ** All that can happen to a connector *)

Inductive connector_op :=
  | COpStart (in_loop : bool) (ans : connect_answer)
  | COpStop
  | COpRestart (ans : connect_answer)
  | COpEvent (ans : write_answer) (revents : Z)
  | COpRun (ans : connect_answer)     (* the loop runs its next functor *)
  | COpTimer (ans : connect_answer)   (* a retry timer expires *)
  | COpOthers (q : list G)            (* the functors of others come and go *)
  | COpLoop (l : L).                  (* the loop does something else *)

(** The user starts a connector that rests, and restarts one that handed its
    socket over. A retry timer runs at least [kInitRetryDelayMs], so it
    expires in a later turn of the loop than the one it was started in. *)
Definition connector_enabled (op : connector_op) w : Prop :=
  match op with
  | COpStart _ ans => at_rest w /\ fresh_answer ans w
  | COpStop => True
  | COpRestart ans => state_ (connector w) = kConnected /\ channel_ (connector w) = None
      /\ fresh_answer ans w
  | COpEvent _ _ => state_ (connector w) = kConnecting
      /\ forall id, channel_ (connector w) = Some id -> host_handling id (cloop w)
  | COpRun ans => fresh_answer ans w /\ host_idle (cloop w)
      /\ forall id, channel_ (connector w) = Some id -> host_resting id (cloop w)
  | COpTimer ans => 0 < timers w /\ ResetChannel ∉ mine w /\ fresh_answer ans w
  | COpOthers q => omap proj q = mine w
  | COpLoop l => forall id, channel_ (connector w) = Some id ->
      (forall st e, ch_holds w id st e -> host_holds l id st e)
      /\ (forall fd, ch_fd w id fd -> ch_fd (set_cloop l w) id fd)
  end.

Definition connector_exec (op : connector_op) w : res (cworld L G) :=
  match op with
  | COpStart in_loop ans => start embed in_loop ans w
  | COpStop => Ok (stop embed w)
  | COpRestart ans => restart true ans w
  | COpEvent ans r => connector_event embed ans r w
  | COpRun ans =>
      match cpending w with
      | g :: q => match proj g with
                  | Some f => run_cfun embed ans f (set_cpending q w)
                  | None => Ok (set_cpending q w)
                  end
      | [] => Ok w
      end
  | COpTimer ans => retry_timer ans w
  | COpOthers q => Ok (set_cpending q w)
  | COpLoop l => Ok (set_cloop l w)
  end.

Inductive connector_reach (w0 : cworld L G) : cworld L G -> Prop :=
  | connector_init : connector_reach w0 w0
  | connector_next w op w' : connector_reach w0 w -> connector_enabled op w ->
      connector_exec op w = Ok w' -> connector_reach w0 w'.

(** The queue changes by functors that say nothing of the channel. *)
Lemma cinv_ext w w' :
  cinv w -> state_ (connector w') = state_ (connector w) ->
  channel_ (connector w') = channel_ (connector w) -> cloop w' = cloop w ->
  ctrace w' = ctrace w -> timers w' <= timers w ->
  count ResetChannel (mine w') = count ResetChannel (mine w) ->
  timers w' + count StartInLoop (mine w') <= timers w + count StartInLoop (mine w) ->
  count StartInLoop (mine w') <= count StartInLoop (mine w) -> cinv w'.
Proof.
  intros [Ha Hs (live & Hok & Hp)] Es Ec El Et Hti Hr Hst Hle. split.
  - rewrite Es. lia.
  - rewrite Ec. intros. apply Hs. lia.
  - exists live. rewrite Et. split; [|done]. unfold channel_ok, ch_holds, ch_fd in *.
    by rewrite Es, Ec, El, Hr.
Qed.

Lemma cn_start_inv in_loop ans w :
  cinv w -> at_rest w -> fresh_answer ans w -> safe (start embed in_loop ans w) cinv.
Proof.
  intros Hw Hr Hf. unfold start. set (w1 := upd_connector (set_connect true) w).
  assert (H1 : cinv w1) by (by apply (cinv_ext w)). destruct in_loop.
  - by apply startInLoop_inv.
  - simpl. pose proof Hr as (Hst & Hch & Ht & Hc). destruct H1 as [_ _ (live & Hok & Hp)].
    pose proof (mine_queue StartInLoop w1) as Hm. change (mine w1) with (mine w) in Hm.
    split.
    + rewrite Hm, count_app, count_one. simpl. rewrite Hst, Ht, Hc. simpl. lia.
    + done.
    + exists live. split; [|done]. unfold channel_ok, ch_holds, ch_fd in *. simpl in *.
      rewrite Hch, Hst in *. rewrite Hm, count_app, count_one. simpl.
      by rewrite Nat.add_0_r.
Qed.

Lemma count_none f q : f ∉ q -> count f q = 0.
Proof.
  unfold count. induction q as [|g q IH]; intros Hn; [done|].
  rewrite filter_cons_False by set_solver. apply IH. set_solver.
Qed.

Lemma mine_pop w g q :
  cpending w = g :: q ->
  mine w = (match proj g with Some f => [f] | None => [] end) ++ mine (set_cpending q w).
Proof. unfold mine. intros ->. simpl. by destruct (proj g). Qed.

(** Without the reset pending there is no channel left over. *)
Lemma no_channel w :
  cinv w -> state_ (connector w) <> kConnecting -> ResetChannel ∉ mine w ->
  channel_ (connector w) = None.
Proof.
  intros [_ _ (live & Hok & _)] Hst Hn. unfold channel_ok in Hok.
  destruct (channel_ (connector w)); [|done]. rewrite (count_none _ _ Hn) in Hok.
  destruct (state_ (connector w)); by destruct Hok as [? _].
Qed.

Lemma run_cfun_inv ans f q g w :
  cinv w -> cpending w = g :: q -> proj g = Some f -> fresh_answer ans w ->
  host_idle (cloop w) -> (forall id, channel_ (connector w) = Some id -> host_resting id (cloop w)) ->
  safe (run_cfun embed ans f (set_cpending q w)) cinv.
Proof.
  intros Hw Hq Hg Hf Hi Hrest. pose proof (mine_pop w g q Hq) as Hm. rewrite Hg in Hm.
  set (w1 := set_cpending q w) in *. pose proof Hw as [Ha Hs (live & Hok & Hp)].
  assert (Hcount : forall f', count f' (mine w) = (if decide (f' = f) then 1 else 0) + count f' (mine w1))
    by (intros f'; by rewrite Hm, count_app, count_one).
  pose proof (Hcount StartInLoop) as CS. pose proof (Hcount ResetChannel) as CR. destruct f; simpl in CS, CR.
  - assert (Hst : state_ (connector w) = kDisconnected).
    { destruct (decide (state_ (connector w) = kDisconnected)); [done | lia]. }
    rewrite decide_True in Ha by done.
    apply startInLoop_inv; [by apply (cinv_ext w); simpl; try lia | | done].
    split; [done|]. split; [apply Hs; lia|]. split; simpl; lia.
  - apply stopInLoop_inv; [|done]. by apply (cinv_ext w); simpl; try lia.
  - simpl. unfold resetChannel. simpl. unfold channel_ok in Hok.
    destruct (channel_ (connector w)) as [id|] eqn:Hc.
    + assert (Hnc : state_ (connector w) <> kConnecting).
      { intros E. rewrite E in Hok. destruct Hok as [Hz _]. lia. }
      assert (Hok' : count ResetChannel (mine w) = 1 /\ ch_holds w id Gone kNoneEvent /\ live = [])
        by (by destruct (state_ (connector w))). destruct Hok' as (Hone & Hgone & ->).
      destruct (delete_law _ _ _ Hgone (Hrest id eq_refl)) as [l El]. rewrite El. run_res. simpl.
      split; simpl.
      * change (mine _) with (mine w1). lia.
      * done.
      * exists []. split; [|done]. unfold channel_ok. simpl. change (mine _) with (mine w1).
        assert (count ResetChannel (mine w1) = 0) as -> by lia. by destruct (state_ (connector w)).
    + exfalso. destruct (state_ (connector w)); destruct_and?; try done; lia.
Qed.

Lemma connector_exec_inv op w :
  cinv w -> connector_enabled op w -> safe (connector_exec op w) cinv.
Proof.
  intros Hw He. destruct op as [il ans| |ans|ans r|ans|ans|q|l]; simpl in *.
  - destruct He. by apply cn_start_inv.
  - pose proof (mine_queue StopInLoop (upd_connector (set_connect false) w)) as Hm.
    change (mine (upd_connector _ w)) with (mine w) in Hm.
    apply (cinv_ext w); try done; unfold stop; rewrite Hm, !count_app, !count_one; simpl; lia.
  - destruct He as (Hst & Hch & Hf). unfold restart. run_res. set (w1 := upd_connector _ w).
    pose proof Hw as [Ha Hs (live & Hok & Hp)]. rewrite Hst in Ha. simpl in Ha.
    unfold channel_ok in Hok. rewrite Hch, Hst in Hok.
    apply startInLoop_inv; [|split_and!; simpl; try done; change (mine w1) with (mine w); lia | done].
    split; simpl; change (mine w1) with (mine w).
    + lia.
    + done.
    + exists live. split; [|done]. unfold channel_ok. simpl. by rewrite Hch.
  - destruct He. by apply event_inv.
  - destruct He as (Hf & Hi & Hr). destruct (cpending w) as [|g q] eqn:Hq; [done|].
    destruct (proj g) as [f|] eqn:Hg; [by eapply run_cfun_inv|]. simpl.
    pose proof (mine_pop w g q Hq) as Hm. rewrite Hg in Hm. simpl in Hm.
    apply (cinv_ext w); try done; by rewrite Hm.
  - destruct He as (Ht & Hn & Hf). unfold retry_timer. pose proof Hw as [Ha Hs _].
    assert (Hst : state_ (connector w) = kDisconnected)
      by (destruct (decide (state_ (connector w) = kDisconnected)); [done | lia]).
    rewrite decide_True in Ha by done.
    apply startInLoop_inv; [|split_and!; simpl; try done|done].
    + apply (cinv_ext w); simpl; try done; change (mine (set_timers _ w)) with (mine w); lia.
    + apply (no_channel w); [done | congruence | done].
    + lia.
    + change (mine (set_timers _ w)) with (mine w). lia.
  - assert (Hm : mine (set_cpending q w) = mine w) by done. apply (cinv_ext w); try done; by rewrite Hm.
  - destruct Hw as [Ha Hs (live & Hok & Hp)]. split; [done|done|]. exists live. split; [|done].
    unfold channel_ok in *. simpl. change (mine (set_cloop l w)) with (mine w).
    destruct (channel_ (connector w)) as [id|]; [|done]. destruct (He id eq_refl) as [Hh Hfd].
    unfold ch_holds in *. simpl.
    destruct (state_ (connector w)); [naive_solver| |naive_solver].
    destruct Hok as (? & ? & fd & ? & ?). split; [done|]. split; [by apply Hh|].
    exists fd. split; [by apply Hfd | done].
Qed.

Definition connector_fresh w : Prop :=
  state_ (connector w) = kDisconnected /\ channel_ (connector w) = None /\ timers w = 0
  /\ mine w = [] /\ ctrace w = [].

Lemma connector_reach_inv w0 w : connector_fresh w0 -> connector_reach w0 w -> cinv w.
Proof.
  intros (Hs & Hc & Ht & Hm & Htr) Hr. induction Hr as [|w op w' _ IH He Hx].
  - split.
    + rewrite Ht, Hm. unfold count. simpl. lia.
    + done.
    + exists []. unfold channel_ok. rewrite Hc, Hs, Hm, Htr. done.
  - exact (wp_ok _ _ _ _ (connector_exec_inv op w IH He) Hx).
Qed.


(** C15: sockets are neither leaked nor closed twice: those opened are those
    closed, those handed over and the one a connecting connector waits on; and
    at most one attempt to connect is under way or planned. *)
Theorem connector_sockets w0 w :
  connector_fresh w0 -> connector_reach w0 w ->
  (exists live, opened (ctrace w) ≡ₚ released (ctrace w) ++ handed (ctrace w) ++ live
     /\ if decide (state_ (connector w) = kConnecting)
        then exists id fd, channel_ (connector w) = Some id /\ ch_fd w id fd /\ live = [fd]
        else live = [])
  /\ timers w + count StartInLoop (mine w)
     + (if decide (state_ (connector w) = kDisconnected) then 0 else 1) <= 1.
Proof.
  intros Hf Hr. destruct (connector_reach_inv w0 w Hf Hr) as [Ha _ (live & Hok & Hp)]. split.
  - exists live. split; [done|]. unfold channel_ok in Hok.
    destruct (channel_ (connector w)) as [id|], (state_ (connector w)); simpl;
      [by destruct_and? | destruct Hok as (_ & _ & fd & ? & ?); by exists id, fd
      | by destruct_and? ..].
  - destruct (decide _); lia.
Qed.
End ConnectorFacts.

(** ** A connector of an [EventLoop] *)

Definition demo_connector : cworld (EventLoop cfun) cfun :=
  mkCworld (mkEventLoop 1 false false false false 0 7 (new_PollPoller ∅) 0 1 [] None [])
    (new_Connector 1) [] 0 [].

Definition refused (id : chan) (fd : Z) : connect_answer := mkAnswer fd ECONNREFUSED id.
Definition in_progress (id : chan) (fd : Z) : connect_answer := mkAnswer fd EINPROGRESS id.

Lemma demo_connector_fresh : connector_fresh Some demo_connector.
Proof. done. Qed.

Module OnWindows.
#[local] Instance platform : Platform := windows.

Abbreviation conn_run := (connector_exec id Some).

Definition after_start : cworld (EventLoop cfun) cfun :=
  match conn_run (COpStart true (in_progress 5 9)) demo_connector with
  | Ok w => w | Fault _ => demo_connector
  end.

Lemma free_answer (ans : connect_answer) :
  (0 <= ans_fd ans)%Z -> fresh_answer ans demo_connector.
Proof. intros Hf. split; [apply poll_inv_new|]. by split_and!. Qed.

Lemma after_start_reach : connector_reach id Some demo_connector after_start.
Proof.
  apply (connector_next id Some demo_connector demo_connector (COpStart true (in_progress 5 9)));
    [constructor | | vm_compute; reflexivity].
  split; [by split_and! | by apply free_answer].
Qed.


Lemma connector_sockets_witness :
  opened (ctrace after_start) = [9%Z]
  /\ exists live, opened (ctrace after_start) ≡ₚ released (ctrace after_start)
       ++ handed (ctrace after_start) ++ live.
Proof.
  split; [vm_compute; reflexivity|].
  destruct (connector_sockets id Some (fun f => eq_refl) demo_connector after_start)
    as [(live & Hp & _) _]; [apply demo_connector_fresh | apply after_start_reach |].
  exists live. exact Hp.
Defined.

(** A refused attempt, [stop], the functor of [stop], and a second [start]. *)
Definition stop_start : res (cworld (EventLoop cfun) cfun) :=
  w ← conn_run (COpStart true (refused 5 9)) demo_connector;
  w ← conn_run COpStop w;
  w ← conn_run (COpRun (in_progress 6 10)) w;
  conn_run (COpStart true (in_progress 6 10)) w.

(** [stop] does not cancel the retry timer: after a refused attempt,
    [stop] and [start] again, the old timer expires during the second attempt
    and fails the assertion of [startInLoop]; and [start] fails it whenever the
    connector is connecting or has handed a socket over. *)
Theorem stale_retry :
  (exists w, stop_start = Ok w /\ state_ (connector w) = kConnecting /\ timers w = 1
     /\ retry_timer (refused 7 11) w = Fault AssertFailed)
  /\ forall ans (w : cworld (EventLoop cfun) cfun), state_ (connector w) <> kDisconnected ->
       start id true ans w = Fault AssertFailed.
Proof.
  split.
  - eexists. split; [vm_compute; reflexivity|]. split_and!; vm_compute; reflexivity.
  - intros ans w Hs. unfold start, startInLoop. simpl. by rewrite bool_decide_false.
Qed.
End OnWindows.
