(* ===== verification/TcpClient.v ===== *)
(** * Clients: [src/msmuduo/net/TcpClient.h], [TcpClient.cpp]

    A client, its connector and the connections it made, each in the stage
    of its life cycle ([ConnLife]). All of it runs in one loop, whose pending
    functors are those of the connector and the [connectDestroyed] of
    connections. The destructor gives up the connections ([orphans]): their
    close callback no longer needs the client. *)
From S2P Require Import Prelude.
From S2P Require Import Endian.
From S2P Require Import Format.
From S2P Require Import Channel.
From S2P Require Import Poller.
From S2P Require Import EventLoop.
From S2P Require Import ChannelHost.
From S2P Require Import ConnLife.
From S2P Require Import Connector.

Record TcpClient := mkTcpClient {
  name_ : bytes;
  retry_ : bool;
  client_connect_ : bool;
  nextConnId_ : Z;
  connection_ : option positive
}.

Definition new_TcpClient (nameArg : bytes) : TcpClient := mkTcpClient nameArg false true 1 None.

Definition enableRetry (k : TcpClient) : TcpClient :=
  mkTcpClient (name_ k) true (client_connect_ k) (nextConnId_ k) (connection_ k).
Definition set_client_connect (b : bool) (k : TcpClient) : TcpClient :=
  mkTcpClient (name_ k) (retry_ k) b (nextConnId_ k) (connection_ k).
Definition set_connection (id : Z) (c : option positive) (k : TcpClient) : TcpClient :=
  mkTcpClient (name_ k) (retry_ k) (client_connect_ k) id c.

(** [char buf[32]; snprintf(buf, sizeof buf, ":%s#%d", ...)]; [peer] is
    [peerAddr.toIpPort()]. *)
Definition client_connection_name `{Platform} (name peer : bytes) (id : Z) : res bytes :=
  suffix ← snprintf_z 32 (str ":" ++ peer ++ str "#" ++ fmt_d id);
  Ok (name ++ suffix).

(** The functors of the loop; [SetCloseCallback] is queued by the destructor
    only. *)
Inductive kfun := OfConnector (f : cfun) | ConnectDestroyed (c : positive) | SetCloseCallback (c : positive).

#[export] Instance kfun_eq_dec : EqDecision kfun.
Proof. solve_decision. Defined.

Definition connector_fun (g : kfun) : option cfun :=
  match g with OfConnector f => Some f | ConnectDestroyed _ | SetCloseCallback _ => None end.

Record kconn := mkKconn { kc_name : bytes; kc_stage : stage }.

Section TcpClient.
Context `{Platform} {L F : Type} `{!ChannelHost L F} `{!ChannelOwner L}.

Record knet := mkKnet {
  client : TcpClient;
  connector_ : cworld L kfun;
  kconns : gmap positive kconn
}.

Definition set_client (k : TcpClient) (w : knet) : knet := mkKnet k (connector_ w) (kconns w).
Definition set_cworld (c : cworld L kfun) (w : knet) : knet := mkKnet (client w) c (kconns w).
Definition set_kconns (cs : gmap positive kconn) (w : knet) : knet :=
  mkKnet (client w) (connector_ w) cs.

(** ** The user's calls *)

Definition client_connect (in_loop : bool) (ans : connect_answer) (w : knet) : res knet :=
  let w := set_client (set_client_connect true (client w)) w in
  cw ← start OfConnector in_loop ans (connector_ w);
  Ok (set_cworld cw w).

(** [shutdown] of an open connection: it does nothing in other stages. *)
Definition disconnect (w : knet) : res knet :=
  let w := set_client (set_client_connect false (client w)) w in
  match connection_ (client w) with
  | None => Ok w
  | Some c =>
      k ← get_ NullDeref (kconns w !! c);
      Ok (if decide (kc_stage k = Up)
          then set_kconns (<[c := mkKconn (kc_name k) Shutting]> (kconns w)) w else w)
  end.

Definition client_stop (w : knet) : knet :=
  let w := set_client (set_client_connect false (client w)) w in
  set_cworld (stop OfConnector (connector_ w)) w.

(** ** Connections *)

(** [newConnection] with a new connection at [c], which the user's callback
    leaves in stage [s']. *)
Definition newConnection (in_loop : bool) (peer : bytes) (c : positive) (s' : stage) (w : knet) :
    res knet :=
  assert_in_loop in_loop;;
  let k := client w in
  connName ← client_connection_name (name_ k) peer (nextConnId_ k);
  if (nextConnId_ k + 1 <? 2 ^ 31)%Z then
    let w := set_client (set_connection (nextConnId_ k + 1) (Some c) k) w in
    (* conn->connectEstablished() of a connection just made *)
    Ok (set_kconns (<[c := mkKconn connName s']> (kconns w)) w)
  else Fault Overflow.

Definition removeConnection (in_loop : bool) (c : positive) (ans : connect_answer) (w : knet) :
    res knet :=
  assert_in_loop in_loop;;
  let k := client w in
  assert_ (bool_decide (connection_ k = Some c));;
  let w := set_client (set_connection (nextConnId_ k) None k) w in
  let cw := connector_ w in
  let w := set_cworld (set_cpending (cpending cw ++ [ConnectDestroyed c]) cw) w in
  if retry_ k && client_connect_ k
  then cw ← restart true ans (connector_ w); Ok (set_cworld cw w)
  else Ok w.

Definition connectDestroyed (c : positive) (w : knet) : res knet :=
  k ← get_ NullDeref (kconns w !! c);
  assert_ (bool_decide (kc_stage k = Up) || bool_decide (kc_stage k = Down));;
  Ok (set_kconns (<[c := mkKconn (kc_name k) Dead]> (kconns w)) w).

(** ** All that can happen *)

(** The socket the connector handed over since the trace [t]. *)
Definition handed_since (t : list caction) (w : cworld L kfun) : option Z :=
  match last (drop (length t) (ctrace w)) with
  | Some (NewConnection fd) => Some fd
  | _ => None
  end.

Inductive client_op :=
  | KConnect (in_loop : bool) (ans : connect_answer)
  | KDisconnect
  | KStop
  | KEvent (ans : write_answer) (revents : Z) (peer : bytes) (c : positive) (s' : stage)
  | KWork (c : positive) (tell : bool) (s' : stage) (ans : connect_answer)
  | KRun (ans : connect_answer)    (* the loop runs its next functor *)
  | KTimer (ans : connect_answer)
  | KLoop (l : L).                 (* the loop does something else *)

Definition client_exec (op : client_op) (w : knet) : res knet :=
  let cw := connector_ w in
  match op with
  | KConnect in_loop ans => client_connect in_loop ans w
  | KDisconnect => disconnect w
  | KStop => Ok (client_stop w)
  | KEvent ans r peer c s' =>
      cw' ← connector_event OfConnector ans r cw;
      let w := set_cworld cw' w in
      match handed_since (ctrace cw) cw' with
      | Some _ => newConnection true peer c s' w
      | None => Ok w
      end
  | KWork c tell s' ans =>
      k ← get_ NullDeref (kconns w !! c);
      let w := set_kconns (<[c := mkKconn (kc_name k) s']> (kconns w)) w in
      if tell then removeConnection true c ans w else Ok w
  | KRun ans =>
      match cpending cw with
      | [] => Ok w
      | OfConnector f :: q =>
          cw' ← run_cfun OfConnector ans f (set_cpending q cw);
          Ok (set_cworld cw' w)
      | ConnectDestroyed c :: q => connectDestroyed c (set_cworld (set_cpending q cw) w)
      | SetCloseCallback c :: q => Ok (set_cworld (set_cpending q cw) w)
      end
  | KTimer ans => cw' ← retry_timer ans cw; Ok (set_cworld cw' w)
  | KLoop l => Ok (set_cworld (set_cloop l cw) w)
  end.

(** ** The destructor *)

(** What a deleted client leaves behind: its connector, if the timer of the
    destructor still holds it ([kept]), its connections, and those of them whose
    close callback is [detail::removeConnection]. *)
Record orphans := mkOrphans { o_net : knet; detached : gset positive; kept : bool }.

Definition queue_kfun (f : kfun) (w : knet) : knet :=
  set_cworld (set_cpending (cpending (connector_ w) ++ [f]) (connector_ w)) w.

(** [forceClose]: the close itself is done by a functor of the connection. *)
Definition forceClose (c : positive) (w : knet) : res knet :=
  k ← get_ NullDeref (kconns w !! c);
  Ok (if open (kc_stage k) then set_kconns (<[c := mkKconn (kc_name k) Shutting]> (kconns w)) w else w).

(** [~TcpClient]; [unique]: nobody else holds the connection. After the body
    the member [connector_] is released: the connector is destroyed then, unless
    the timer that does nothing but hold it for a second was started. *)
Definition delete_TcpClient (in_loop unique : bool) (w : knet) : res orphans :=
  match connection_ (client w) with
  | Some c =>
      (* loop_->runInLoop of setCloseCallback *)
      let '(w, d) := if in_loop then (w, {[c]}) else (queue_kfun (SetCloseCallback c) w, ∅) in
      w ← (if unique then forceClose c w else Ok w);
      delete_Connector (connector (connector_ w));;
      Ok (mkOrphans w d false)
  | None => Ok (mkOrphans (set_cworld (stop OfConnector (connector_ w)) w) ∅ true)
  end.

(** The timer of the destructor goes off and releases the connector. *)
Definition release_connector (o : orphans) : res orphans :=
  if kept o then
    delete_Connector (connector (connector_ (o_net o)));;
    Ok (mkOrphans (o_net o) (detached o) false)
  else Ok o.

(** What goes on afterwards. The callbacks that are bound to the client are
    calls of a destroyed object, and so are the user's calls; events, functors
    and timers of the connector are, once it is destroyed. *)
Definition orphan_exec (op : client_op) (o : orphans) : res orphans :=
  let w := o_net o in
  let cw := connector_ w in
  let keep (w : knet) : orphans := mkOrphans w (detached o) (kept o) in
  let alive : res unit := if kept o then Ok tt else Fault NullDeref in
  match op with
  | KConnect _ _ | KDisconnect | KStop => Fault NullDeref
  | KEvent ans r _ _ _ =>
      alive;;
      cw' ← connector_event OfConnector ans r cw;
      match handed_since (ctrace cw) cw' with
      | Some _ => Fault NullDeref
      | None => Ok (keep (set_cworld cw' w))
      end
  | KWork c tell s' _ =>
      k ← get_ NullDeref (kconns w !! c);
      let w := set_kconns (<[c := mkKconn (kc_name k) s']> (kconns w)) w in
      if tell then
        if decide (c ∈ detached o) then Ok (keep (queue_kfun (ConnectDestroyed c) w)) else Fault NullDeref
      else Ok (keep w)
  | KRun ans =>
      match cpending cw with
      | [] => Ok o
      | OfConnector f :: q =>
          alive;;
          cw' ← run_cfun OfConnector ans f (set_cpending q cw);
          Ok (keep (set_cworld cw' w))
      | ConnectDestroyed c :: q => w ← connectDestroyed c (set_cworld (set_cpending q cw) w); Ok (keep w)
      | SetCloseCallback c :: q => Ok (mkOrphans (set_cworld (set_cpending q cw) w) ({[c]} ∪ detached o) (kept o))
      end
  | KTimer ans => alive;; cw' ← retry_timer ans cw; Ok (keep (set_cworld cw' w))
  | KLoop l => Ok (keep (set_cworld (set_cloop l cw) w))
  end.

Inductive orphan_op := OClient (op : client_op) | ORelease.

Definition orphan_do (op : orphan_op) (o : orphans) : res orphans :=
  match op with OClient op => orphan_exec op o | ORelease => release_connector o end.
End TcpClient.

Arguments knet : clear implicits.
Arguments orphans : clear implicits.
