(* ===== verification/TcpClientFacts.v ===== *)
(** * Correctness of clients

    The invariant of a client: its connector is consistent, and it has at most
    one open connection, the one it knows. *)
From S2P Require Import Prelude.
From S2P Require Import Endian.
From S2P Require Import Channel.
From S2P Require Import Poller.
From S2P Require Import PollerFacts.
From S2P Require Import EventLoop.
From S2P Require Import ChannelHost.
From S2P Require Import ConnLife.
From S2P Require Import Connector.
From S2P Require Import ConnectorFacts.
From S2P Require Import TcpClient.

(** The connections a queue will destroy. *)
Definition doomed (q : list kfun) : list positive :=
  omap (fun g => match g with ConnectDestroyed c => Some c | _ => None end) q.

Lemma doomed_app q q' : doomed (q ++ q') = doomed q ++ doomed q'.
Proof. apply omap_app. Qed.

Section ClientFacts.
Context `{Platform} {L F : Type} `{!ChannelHost L F} `{!ChannelHostLaws L F}
  `{!ChannelOwner L} `{!ChannelOwnerLaws L F}.
Implicit Types (w : knet L) (cw : cworld L kfun).

Abbreviation safe := (wp (fun _ => False)).
Abbreviation connector_inv := (cinv connector_fun).

(** What a handler of the connector leaves alone: the connections to be
    destroyed; and when the last thing it does is to hand a socket over, it
    enters [kConnected]. *)
Definition quiet cw cw' : Prop :=
  doomed (cpending cw') = doomed (cpending cw)
  /\ exists u, ctrace cw' = ctrace cw ++ u
     /\ forall fd, last u = Some (NewConnection fd) -> state_ (connector cw') = kConnected.

Lemma quiet_refl cw : quiet cw cw.
Proof. split; [done|]. exists []. by rewrite app_nil_r. Qed.

Lemma quiet_handed cw cw' fd :
  quiet cw cw' -> handed_since (ctrace cw) cw' = Some fd -> state_ (connector cw') = kConnected.
Proof.
  intros (_ & u & E & Hu). unfold handed_since. rewrite E, drop_app_length.
  destruct (last u) as [[| |fd'|]|]; try done. intros [= ->]. by apply (Hu fd).
Qed.

Lemma removeAndReset_quiet cw fd cw' :
  removeAndResetChannel OfConnector cw = Ok (fd, cw') ->
  doomed (cpending cw') = doomed (cpending cw) /\ ctrace cw' = ctrace cw
  /\ connector cw' = connector cw.
Proof.
  unfold removeAndResetChannel. intros E. inv_res. simpl. rewrite doomed_app. simpl.
  by rewrite app_nil_r.
Qed.

Lemma retry_quiet cw cw1 fd :
  doomed (cpending cw1) = doomed (cpending cw) -> ctrace cw1 = ctrace cw -> quiet cw (retry fd cw1).
Proof.
  intros Hd Ht. unfold quiet, retry. simpl.
  destruct (connect_ _); simpl; rewrite Ht; (split; [done|]); [rewrite <- app_assoc|]; by eexists.
Qed.

Lemma handleError_quiet cw cw' :
  handleError OfConnector cw = Ok cw' ->
  quiet cw cw' /\ (state_ (connector cw) = kConnecting -> state_ (connector cw') = kDisconnected).
Proof.
  unfold handleError. case_decide as Hs.
  - intros E. inv_res. destruct a as [fd cw1]. inv_res.
    destruct (removeAndReset_quiet _ _ _ Ha) as (Hd & Ht & _). split; [by apply retry_quiet|].
    intros _. unfold retry. simpl. by destruct (connect_ _).
  - intros [= <-]. split; [apply quiet_refl | done].
Qed.

Lemma handleWrite_quiet ans cw cw' : handleWrite OfConnector ans cw = Ok cw' -> quiet cw cw'.
Proof.
  unfold handleWrite. case_decide as Hs; intros E; inv_res; [|apply quiet_refl].
  destruct a as [fd cw1]. destruct (removeAndReset_quiet _ _ _ Ha) as (Hd & Ht & _).
  destruct (negb _); inv_res; [by apply retry_quiet|].
  destruct (ans_self ans); inv_res; [by apply retry_quiet|].
  split; [done|]. simpl. rewrite Ht. by eexists.
Qed.

Lemma event_quiet ans r cw cw' :
  connector_event OfConnector ans r cw = Ok cw' -> state_ (connector cw) = kConnecting -> quiet cw cw'.
Proof.
  unfold connector_event. intros E Hs. inv_res.
  unfold callbacks_for, calls_close, calls_error, calls_read, calls_write in E. simpl in E.
  rewrite !andb_false_r, !andb_true_r in E. simpl in E.
  destruct (has_flag r (Z.lor POLLERR POLLNVAL)); simpl in E; inv_res.
  - destruct (handleError_quiet _ _ Ha1) as [Hq Hd]. specialize (Hd Hs).
    destruct (has_flag r POLLOUT); simpl in E; inv_res; [|done].
    unfold handleWrite in Ha2. rewrite decide_False in Ha2 by congruence. by inv_res.
  - destruct (has_flag r POLLOUT); simpl in E; inv_res; [|apply quiet_refl].
    by eapply handleWrite_quiet.
Qed.

(** The other calls queue no [ConnectDestroyed]. *)
Lemma startInLoop_doomed ans cw cw' :
  startInLoop true ans cw = Ok cw' -> cpending cw' = cpending cw.
Proof.
  unfold startInLoop, connect, connecting, retry. intros E. inv_res.
  destruct (connect_ _); inv_res; [|done].
  destruct (ans_errno ans); inv_res; simpl; try done; by destruct (connect_ _).
Qed.

Lemma start_doomed il ans cw cw' :
  start OfConnector il ans cw = Ok cw' -> doomed (cpending cw') = doomed (cpending cw).
Proof.
  unfold start. destruct il.
  - by intros ->%startInLoop_doomed.
  - intros [= <-]. simpl. rewrite doomed_app. simpl. by rewrite app_nil_r.
Qed.

Lemma run_doomed ans f cw cw' :
  run_cfun OfConnector ans f cw = Ok cw' -> doomed (cpending cw') = doomed (cpending cw).
Proof.
  destruct f; simpl.
  - by intros ->%startInLoop_doomed.
  - unfold stopInLoop. intros E. inv_res. case_decide; inv_res; [|done]. destruct a0 as [fd cw1].
    inv_res. destruct (removeAndReset_quiet _ _ _ Ha0) as (Hd & _ & _).
    unfold retry. simpl. by destruct (connect_ _).
  - unfold resetChannel. intros E. destruct (channel_ _); inv_res; done.
Qed.

(** A functor leaves a connector that handed its socket over alone. *)
Lemma run_connected ans f q cw cw' :
  connector_inv cw -> cpending cw = OfConnector f :: q ->
  run_cfun OfConnector ans f (set_cpending q cw) = Ok cw' ->
  state_ (connector cw) = kConnected -> state_ (connector cw') = kConnected.
Proof.
  intros [Ha _ _] Hq E Hs. destruct f; simpl in E.
  - exfalso. rewrite Hs in Ha. simpl in Ha. unfold mine in Ha. rewrite Hq in Ha. simpl in Ha.
    unfold count in Ha. rewrite filter_cons_True in Ha by done. simpl in Ha. lia.
  - unfold stopInLoop in E. simpl in E. rewrite decide_False in E by congruence. by injection E as <-.
  - unfold resetChannel in E. simpl in E. destruct (channel_ _); inv_res; done.
Qed.

(** ** The invariant *)

Definition kconn_ok (c : positive) (k : kconn) w : Prop :=
  let d := filter (c =.) (doomed (cpending (connector_ w))) in
  match kc_stage k with
  | Born => False
  | Up | Shutting => d = [] /\ connection_ (client w) = Some c
  | Down => d = [c] /\ connection_ (client w) <> Some c
  | Dead => d = [] /\ connection_ (client w) <> Some c
  end.

Record client_inv w : Prop := {
  ki_connector : connector_inv (connector_ w);
  ki_current c : connection_ (client w) = Some c ->
    state_ (connector (connector_ w)) = kConnected
    /\ exists k, kconns w !! c = Some k /\ open (kc_stage k) = true;
  ki_conns c k : kconns w !! c = Some k -> kconn_ok c k w;
  ki_none c : kconns w !! c = None -> c ∉ doomed (cpending (connector_ w))
}.

(** A call of the connector that dooms no connection. *)
Lemma connector_step w cw' :
  client_inv w -> connector_inv cw' ->
  doomed (cpending cw') = doomed (cpending (connector_ w)) ->
  connection_ (client w) = None \/
    (state_ (connector (connector_ w)) = kConnected -> state_ (connector cw') = kConnected) ->
  client_inv (set_cworld cw' w).
Proof.
  intros [Hc Hcur Hk Hn] Hc' Hd Hs. split; simpl; [done| | |].
  - intros c Hcc. destruct (Hcur c Hcc) as [? ?], Hs; [congruence | auto].
  - intros c k Hkk. specialize (Hk c k Hkk). unfold kconn_ok in *. simpl. by rewrite Hd.
  - intros c. rewrite Hd. apply Hn.
Qed.

(** The client's own flags. *)
Lemma flags_step k w :
  client_inv w -> connection_ k = connection_ (client w) -> client_inv (set_client k w).
Proof.
  intros [Hc Hcur Hk Hn] E. split; simpl; try done.
  - intros c. rewrite E. apply Hcur.
  - intros c x Hx. specialize (Hk c x Hx). unfold kconn_ok in *. simpl. by rewrite E.
Qed.

(** A connector at rest, or one with attempts to make, has no connection. *)
Lemma no_connection w :
  client_inv w -> state_ (connector (connector_ w)) <> kConnected -> connection_ (client w) = None.
Proof.
  intros Hw Hs. destruct (connection_ (client w)) as [c|] eqn:E; [|done].
  by destruct (ki_current w Hw c E).
Qed.

(** The user connects a client whose connector rests. *)
Definition client_enabled (op : client_op (L:=L)) w : Prop :=
  let cw := connector_ w in
  match op with
  | KConnect _ ans => at_rest connector_fun cw /\ fresh_answer ans cw
  | KDisconnect | KStop => True
  | KEvent ans r peer c s' => connector_enabled connector_fun (COpEvent ans r) cw
      /\ kconns w !! c = None /\ open s' = true /\ length peer <= max_hostport
      /\ (0 <= nextConnId_ (client w) < max_ids)%Z
  | KWork c tell s' ans => exists k, kconns w !! c = Some k /\ life_step Work (kc_stage k) tell s'
      (* the connector's channel was reset before the connection's first event *)
      /\ (tell = true -> ResetChannel ∉ mine connector_fun cw /\ fresh_answer ans cw)
  | KRun ans => connector_enabled connector_fun (COpRun ans) cw
  | KTimer ans => connector_enabled connector_fun (COpTimer ans) cw
  | KLoop l => connector_enabled connector_fun (COpLoop l) cw
  end.

(** The connection at [c] changes. *)
Lemma set_stage_step c k k' w :
  client_inv w -> kconns w !! c = Some k -> kconn_ok c k' (set_kconns (<[c := k']> (kconns w)) w) ->
  (open (kc_stage k) = true -> open (kc_stage k') = true) ->
  client_inv (set_kconns (<[c := k']> (kconns w)) w).
Proof.
  intros [Hc Hcur Hk Hn] Hkc Hk' Ho. split; simpl; [done| | |].
  - intros c' Hc'. destruct (Hcur c' Hc') as (Hs & x & Hx & Hox). split; [done|].
    destruct (decide (c = c')) as [<-|Hne].
    + exists k'. rewrite lookup_insert_eq. split; [done|]. apply Ho. congruence.
    + exists x. by rewrite lookup_insert_ne.
  - intros c' x [[<- <-]|[Hne Hx]]%lookup_insert_Some; [done|]. by apply (Hk c' x).
  - intros c' [Hx _]%lookup_insert_None. by apply Hn.
Qed.

Lemma open_ok c n s s' w w' :
  kconn_ok c (mkKconn n s) w -> open s = true -> open s' = true ->
  connector_ w' = connector_ w -> client w' = client w -> kconn_ok c (mkKconn n s') w'.
Proof. unfold kconn_ok. intros Hk Ho Ho' -> ->. by destruct s, s'. Qed.

Lemma disconnect_inv w : client_inv w -> safe (disconnect w) client_inv.
Proof.
  intros Hw. unfold disconnect. set (w1 := set_client _ w).
  assert (H1 : client_inv w1) by (by apply flags_step). simpl.
  destruct (connection_ (client w)) as [c|] eqn:E; [|done].
  destruct (ki_current w Hw c E) as (_ & [n s] & Hk & Ho). rewrite Hk. run_res. simpl.
  case_decide as Hs; [|done]. simpl in Hs. subst s. apply (set_stage_step c (mkKconn n Up) _ w1); try done.
  apply (open_ok c n Up Shutting w1); try done. by apply (ki_conns w1 H1).
Qed.

Lemma client_newConnection_inv peer c s' w :
  client_inv w -> connection_ (client w) = None -> state_ (connector (connector_ w)) = kConnected ->
  kconns w !! c = None -> open s' = true -> length peer <= max_hostport ->
  (0 <= nextConnId_ (client w) < max_ids)%Z ->
  safe (newConnection true peer c s' w) client_inv.
Proof.
  intros Hw Hnone Hs Hc Ho Hp Hid. unfold newConnection, client_connection_name. run_res.
  rewrite suffix_fits by done. run_res. rewrite (proj2 (Z.ltb_lt _ _)) by (unfold max_ids in Hid; lia). simpl. pose proof Hw as [Hcw Hcur Hk Hn].
  assert (Hd : filter (c =.) (doomed (cpending (connector_ w))) = []).
  { specialize (Hn c Hc). induction (doomed _) as [|x l IH]; [done|].
    rewrite filter_cons_False by set_solver. apply IH. set_solver. }
  split; simpl; [done| | |].
  - intros c' [= <-]. split; [done|]. eexists. by rewrite lookup_insert_eq.
  - intros c' k [[<- <-]|[Hne Hx]]%lookup_insert_Some.
    + unfold kconn_ok. simpl. rewrite Hd. by destruct s'.
    + specialize (Hk c' k Hx). unfold kconn_ok in *. simpl. rewrite Hnone in Hk.
      destruct (kc_stage k); destruct_and?; try done; (split; [done|]); by intros [= ->].
  - intros c' [Hx _]%lookup_insert_None. by apply Hn.
Qed.

Lemma event_step ans r peer c s' w :
  client_inv w -> client_enabled (KEvent ans r peer c s') w ->
  safe (client_exec (KEvent ans r peer c s') w) client_inv.
Proof.
  intros Hw ([Hst Hhd] & Hc & Ho & Hp & Hid). simpl.
  pose proof (event_inv OfConnector connector_fun (fun f => eq_refl) ans r (connector_ w)
    (ki_connector w Hw) Hst Hhd) as Hev.
  destruct (connector_event OfConnector ans r (connector_ w)) as [cw'|] eqn:E; [|done]. simpl in Hev.
  run_res. pose proof (event_quiet _ _ _ _ E Hst) as Hq.
  assert (H1 : client_inv (set_cworld cw' w))
    by (apply connector_step; [done..|apply Hq|right; congruence]).
  destruct (handed_since (ctrace (connector_ w)) cw') as [fd|] eqn:Hh; [|done].
  apply client_newConnection_inv; try done; [apply (no_connection w Hw); congruence|].
  simpl. by eapply quiet_handed.
Qed.

Lemma remove_step c k ans w :
  client_inv w -> kconns w !! c = Some k -> open (kc_stage k) = true ->
  ResetChannel ∉ mine connector_fun (connector_ w) -> fresh_answer ans (connector_ w) ->
  safe (removeConnection true c ans (set_kconns (<[c := mkKconn (kc_name k) Down]> (kconns w)) w))
    client_inv.
Proof.
  intros Hw Hk Ho Hr Hf. pose proof Hw as [Hcw Hcur Hok Hn].
  assert (Hcc : connection_ (client w) = Some c
    /\ filter (c =.) (doomed (cpending (connector_ w))) = []).
  { specialize (Hok c k Hk). unfold kconn_ok in Hok. destruct (kc_stage k); try done; naive_solver. }
  destruct Hcc as [Hcc Hd]. destruct (Hcur c Hcc) as [Hst _].
  unfold removeConnection. run_res. simpl. rewrite Hcc, bool_decide_true by done. run_res.
  set (cw2 := set_cpending (cpending (connector_ w) ++ [ConnectDestroyed c]) (connector_ w)).
  assert (Hm : mine connector_fun cw2 = mine connector_fun (connector_ w))
    by (unfold mine, cw2; simpl; rewrite omap_app; simpl; by rewrite app_nil_r).
  assert (Hcw2 : connector_inv cw2).
  { apply (connector_exec_inv OfConnector connector_fun (fun f => eq_refl)
      (COpOthers (cpending (connector_ w) ++ [ConnectDestroyed c])) (connector_ w)); [done|].
    simpl. unfold mine. rewrite omap_app. simpl. by rewrite app_nil_r. }
  set (w2 := set_cworld cw2 _).
  assert (H2 : client_inv w2).
  { split; simpl; [done|done| |].
    - intros c' x [[<- <-]|[Hne Hx]]%lookup_insert_Some; unfold kconn_ok; simpl.
      + rewrite doomed_app, filter_app, Hd. simpl. by rewrite filter_cons_True.
      + specialize (Hok c' x Hx). unfold kconn_ok in Hok. rewrite doomed_app, filter_app.
        simpl. rewrite filter_cons_False, app_nil_r by done. rewrite Hcc in Hok.
        destruct (kc_stage x); destruct_and?; try done; congruence.
    - intros c' [Hx Hne]%lookup_insert_None. rewrite doomed_app. simpl.
      specialize (Hn c' Hx). set_solver. }
  destruct (retry_ _ && client_connect_ _); [|done].
  assert (Hen : connector_enabled connector_fun (COpRestart ans) cw2).
  { split; [done|]. split; [|done]. simpl. apply (no_channel OfConnector connector_fun (fun f => eq_refl) (connector_ w)); try done.
    congruence. }
  pose proof (connector_exec_inv OfConnector connector_fun (fun f => eq_refl) (COpRestart ans) cw2
    Hcw2 Hen) as Hre. simpl in Hre. simpl.
  change (set_cpending _ (connector_ w)) with cw2.
  destruct (restart true ans cw2) as [cw3|] eqn:E; [|done]. simpl in *.
  apply (connector_step w2); [done|done| |by left].
  unfold restart in E. simpl in E. by apply startInLoop_doomed in E as ->.
Qed.

Lemma destroyed_step c q w :
  client_inv w -> cpending (connector_ w) = ConnectDestroyed c :: q ->
  safe (connectDestroyed c (set_cworld (set_cpending q (connector_ w)) w)) client_inv.
Proof.
  intros Hw Hq. pose proof Hw as [Hcw Hcur Hok Hn].
  assert (Hd : doomed (cpending (connector_ w)) = c :: doomed q) by (by rewrite Hq).
  destruct (kconns w !! c) as [k|] eqn:Hk; [|exfalso; apply (Hn c Hk); rewrite Hd; set_solver].
  pose proof (Hok c k Hk) as Hkc. unfold kconn_ok in Hkc. rewrite Hd, filter_cons_True in Hkc by done.
  unfold connectDestroyed. simpl. rewrite Hk. run_res.
  destruct (kc_stage k) eqn:Hst; destruct_and?; try done.
  run_res. rewrite orb_true_r. simpl. match goal with HH : c :: _ = [c] |- _ => injection HH as Hfq end.
  split; simpl.
  - apply (connector_exec_inv OfConnector connector_fun (fun f => eq_refl) (COpOthers q) (connector_ w));
      [done|]. simpl. unfold mine. by rewrite Hq.
  - intros c' Hc'. destruct (Hcur c' Hc') as (Hs & x & Hx & Hox). split; [done|]. exists x.
    rewrite lookup_insert_ne; [done|]. intros <-. congruence.
  - intros c' x [[<- <-]|[Hne Hx]]%lookup_insert_Some; unfold kconn_ok; simpl; [done|].
    specialize (Hok c' x Hx). unfold kconn_ok in Hok. by rewrite Hd, filter_cons_False in Hok by done.
  - intros c' [Hx Hne]%lookup_insert_None. specialize (Hn c' Hx). rewrite Hd in Hn. set_solver.
Qed.

Lemma work_step c tell s' ans w :
  client_inv w -> client_enabled (KWork c tell s' ans) w ->
  safe (client_exec (KWork c tell s' ans) w) client_inv.
Proof.
  intros Hw (k & Hk & Hl & Ht). simpl. rewrite Hk. run_res.
  pose proof (ki_conns w Hw c k Hk) as Hok. destruct k as [n s]. simpl in *.
  remember Work as op. destruct Hl as [|s|s s'' Ho Ho'|s Ho|]; try done.
  - by apply (set_stage_step c (mkKconn n s)).
  - apply (set_stage_step c (mkKconn n s)); try done. by apply (open_ok c n s s'' w).
  - destruct (Ht eq_refl) as [Hr Hf]. by apply (remove_step c (mkKconn n s)).
Qed.

Lemma client_exec_inv op w :
  client_inv w -> client_enabled op w -> safe (client_exec op w) client_inv.
Proof.
  intros Hw He. pose proof (ki_connector w Hw) as Hcw.
  assert (Hexec : forall cop, connector_enabled connector_fun cop (connector_ w) ->
    safe (connector_exec OfConnector connector_fun cop (connector_ w)) connector_inv)
    by (intros cop; by apply (connector_exec_inv OfConnector connector_fun (fun f => eq_refl))).
  destruct op as [il ans| | |ans r peer c s'|c tell s' ans|ans|ans|l].
  - pose proof (Hexec (COpStart il ans) He) as Hs. simpl in Hs. simpl. unfold client_connect. simpl.
    destruct (start OfConnector il ans (connector_ w)) as [cw'|] eqn:E; [|done].
    apply (connector_step (set_client _ w)); [by apply flags_step | done | by eapply start_doomed |].
    right. simpl. destruct He as [(Hst & _) _]. congruence.
  - by apply disconnect_inv.
  - pose proof (Hexec COpStop I) as Hs. simpl in *.
    apply (connector_step (set_client _ w)); [by apply flags_step | done | | by right].
    simpl. rewrite doomed_app. simpl. by rewrite app_nil_r.
  - by apply event_step.
  - by apply work_step.
  - pose proof (Hexec (COpRun ans) He) as Hs. simpl in *.
    destruct (cpending (connector_ w)) as [|[f|c|c] q] eqn:Hq; [done| |by apply destroyed_step|].
    simpl in Hs. destruct (run_cfun OfConnector ans f _) as [cw'|] eqn:E; [|done].
    apply connector_step; [done|done| |].
    + apply run_doomed in E as ->. by rewrite Hq.
    + right. by eapply run_connected.
    + simpl in *. apply connector_step; [done|done|by rewrite Hq|by right].
  - pose proof (Hexec (COpTimer ans) He) as Hs. simpl in *. destruct He as (Ht & _).
    destruct (retry_timer ans (connector_ w)) as [cw'|] eqn:E; [|done].
    apply connector_step; [done|done| |].
    + unfold retry_timer in E. by apply startInLoop_doomed in E as ->.
    + left. apply (no_connection w Hw). intros Hst. destruct Hcw as [Ha _ _].
      rewrite Hst in Ha. simpl in Ha. lia.
  - pose proof (Hexec (COpLoop l) He) as Hs. simpl in *.
    apply connector_step; [done|done|done|by right].
Qed.

Inductive client_reach (w0 : knet L) : knet L -> Prop :=
  | client_init : client_reach w0 w0
  | client_next w op w' : client_reach w0 w -> client_enabled op w -> client_exec op w = Ok w' ->
      client_reach w0 w'.

Definition client_fresh w : Prop :=
  connector_fresh connector_fun (connector_ w) /\ cpending (connector_ w) = []
  /\ connection_ (client w) = None /\ kconns w = ∅.

Lemma client_reach_inv w0 w : client_fresh w0 -> client_reach w0 w -> client_inv w.
Proof.
  intros (Hf & Hq & Hn & Hc) Hr. induction Hr as [|w op w' _ IH He Hx].
  - split.
    + apply (connector_reach_inv OfConnector connector_fun (fun f => eq_refl) (connector_ w0));
        [done | constructor].
    + by rewrite Hn.
    + by rewrite Hc.
    + rewrite Hq. set_solver.
  - exact (wp_ok _ _ _ _ (client_exec_inv op w IH He) Hx).
Qed.

(** nothing a client does fails, whatever its connector, its connections
    and its user do, reconnecting included, if the user connects it only
    while the connector rests. *)
Theorem client_safe w0 w op :
  client_fresh w0 -> client_reach w0 w -> client_enabled op w -> exists w', client_exec op w = Ok w'.
Proof.
  intros Hf Hr He. pose proof (client_exec_inv op w (client_reach_inv w0 w Hf Hr) He) as Hs.
  destruct (client_exec op w) as [w'|]; [by exists w' | done].
Qed.

(** C25: a client has at most one open connection, the one it returns; every
    other one it made is dead, or down with exactly one [connectDestroyed]
    pending. *)
Theorem client_single w0 w c k :
  client_fresh w0 -> client_reach w0 w -> kconns w !! c = Some k ->
  let pending := filter (c =.) (doomed (cpending (connector_ w))) in
  (connection_ (client w) = Some c <-> open (kc_stage k) = true)
  /\ (open (kc_stage k) = true -> pending = [])
  /\ (open (kc_stage k) = false -> kc_stage k = Down /\ pending = [c] \/ kc_stage k = Dead /\ pending = []).
Proof.
  intros Hf Hr Hk. pose proof (client_reach_inv w0 w Hf Hr) as Hw.
  pose proof (ki_conns w Hw c k Hk) as Hok. unfold kconn_ok in Hok. simpl.
  destruct (kc_stage k); destruct_and?; try done; split_and!; auto; done.
Qed.

(** A client whose connection is gone, and that did not reconnect by itself,
    cannot be connected again: the connector still is [kConnected]. *)
Lemma reconnect_fails ans w :
  state_ (connector (connector_ w)) = kConnected -> client_connect true ans w = Fault AssertFailed.
Proof.
  intros Hs. unfold client_connect, start, startInLoop. simpl. by rewrite bool_decide_false by congruence.
Qed.
End ClientFacts.

(** ** A client of an [EventLoop] that connects *)

Definition demo_client : knet (EventLoop unit) :=
  mkKnet (new_TcpClient (str "cli"))
    (mkCworld (mkEventLoop 1 false false false false 0 7 (new_PollPoller ∅) 0 1 [] None [])
       (new_Connector 1) [] 0 []) ∅.

Module OnWindows.
#[local] Instance platform : Platform := windows.

Definition demo_step (op : client_op) (w : knet (EventLoop unit)) : knet (EventLoop unit) :=
  match client_exec op w with Ok w' => w' | Fault _ => w end.

(** The connect is in progress; the loop turns to its channel, which became
    writable. *)
Definition demo1 := demo_step (KConnect true (mkAnswer 9 EINPROGRESS 5)) demo_client.
Definition turn : EventLoop unit := set_active 1 [5%positive] (Some 5%positive) (cloop (connector_ demo1)).
Definition demo2 := demo_step (KLoop turn) demo1.
Definition writable : client_op (L:=EventLoop unit) :=
  KEvent (mkWriteAnswer 0 false) (@POLLOUT windows) (str "10.0.0.1:80") 8 Up.
Definition demo3 := demo_step writable demo2.

Lemma demo_client_fresh : client_fresh demo_client.
Proof. by split_and!. Qed.

Lemma writable_enabled : client_enabled writable demo2.
Proof.
  split; [split; [vm_compute; reflexivity|]|].
  - intros id. vm_compute. by intros [= <-].
  - split_and!; vm_compute; try done; repeat constructor.
Qed.

Lemma demo2_reach : client_reach demo_client demo2.
Proof.
  apply (client_next demo_client demo1 (KLoop turn)); [| |vm_compute; reflexivity].
  - apply (client_next demo_client demo_client (KConnect true (mkAnswer 9 EINPROGRESS 5)));
      [constructor | | vm_compute; reflexivity].
    split; [by split_and!|]. split; [apply poll_inv_new | by split_and!].
  - intros id _. split; [done|]. intros fd. done.
Qed.

Lemma demo3_reach : client_reach demo_client demo3.
Proof.
  apply (client_next demo_client demo2 writable);
    [apply demo2_reach | apply writable_enabled | vm_compute; reflexivity].
Qed.

Lemma client_safe_witness : exists w', client_exec writable demo2 = Ok w'.
Proof.
  apply (client_safe demo_client);
    [apply demo_client_fresh | apply demo2_reach | apply writable_enabled].
Defined.

Lemma client_single_witness : connection_ (client demo3) = Some 8%positive.
Proof.
  apply (client_single demo_client demo3 8 (mkKconn (str "cli:10.0.0.1:80#1") Up));
    [apply demo_client_fresh | apply demo3_reach | vm_compute; reflexivity | reflexivity].
Defined.
End OnWindows.
