(* ===== verification/ClientDelete.v ===== *)
(** * Deleting a client: the destructor of [src/msmuduo/net/TcpClient.cpp]

    A client that is deleted in the thread of its loop is not called any more:
    its connector hands no socket over, and its open connection has got
    another close callback. The connector is destroyed with a client that has a
    connection, and a second later otherwise; its destructor asserts that it
    has no channel. *)
From S2P Require Import Prelude.
From S2P Require Import Endian.
From S2P Require Import Channel.
From S2P Require Import Poller.
From S2P Require Import PollerFacts.
From S2P Require Import EventLoop.
From S2P Require Import ChannelHost.
From S2P Require Import ConnLife.
From S2P Require Import Connector.
From S2P Require Import ConnectorFacts.
From S2P Require Import TcpClient.
From S2P Require Import TcpClientFacts.

Section ClientDelete.
Context `{Platform} {L F : Type} `{!ChannelHost L F} `{!ChannelHostLaws L F}
  `{!ChannelOwner L} `{!ChannelOwnerLaws L F}.
Implicit Types (w : knet L) (cw : cworld L kfun) (o : orphans L).

Abbreviation safe := (wp (fun _ => False)).
Abbreviation connector_inv := (cinv connector_fun).

(** ** A stopped connector hands nothing over *)

Definition mute cw cw' : Prop :=
  connect_ (connector cw') = connect_ (connector cw)
  /\ exists u, ctrace cw' = ctrace cw ++ u
     /\ (connect_ (connector cw) = false -> forall fd, NewConnection fd ∉ u).

Lemma mute_refl cw : mute cw cw.
Proof. split; [done|]. exists []. rewrite app_nil_r. split; [done|]. intros _ fd. apply not_elem_of_nil. Qed.

Lemma mute_trans cw1 cw2 cw3 : mute cw1 cw2 -> mute cw2 cw3 -> mute cw1 cw3.
Proof.
  intros (E1 & u1 & T1 & N1) (E2 & u2 & T2 & N2). split; [congruence|]. exists (u1 ++ u2).
  rewrite T2, T1, app_assoc. split; [done|]. intros Hc fd. rewrite not_elem_of_app. split; [by apply N1|].
  apply N2. congruence.
Qed.

Lemma retry_mute fd cw cw1 :
  connect_ (connector cw1) = connect_ (connector cw) -> ctrace cw1 = ctrace cw -> mute cw (retry fd cw1).
Proof.
  intros Hc Ht. unfold mute, retry. simpl.
  destruct (connect_ (connector cw1)) eqn:E; simpl; rewrite Ht, E; (split; [congruence|]).
  - exists [CloseSocket fd; RunAfter (retryDelayMs_ (connector cw1))]. rewrite <- app_assoc. split; [done|]. congruence.
  - eexists. split; [done|]. intros _ fd'. by rewrite list_elem_of_singleton.
Qed.

Lemma removeAndReset_mute cw fd cw' :
  removeAndResetChannel OfConnector cw = Ok (fd, cw') -> connector cw' = connector cw /\ ctrace cw' = ctrace cw.
Proof. unfold removeAndResetChannel. intros E. inv_res. done. Qed.

Lemma handleWrite_mute ans cw cw' : handleWrite OfConnector ans cw = Ok cw' -> mute cw cw'.
Proof.
  unfold handleWrite. case_decide as Hs; intros E; inv_res; [|apply mute_refl].
  destruct a as [fd cw1]. destruct (removeAndReset_mute _ _ _ Ha) as [Ec Et].
  destruct (negb _); inv_res; [apply retry_mute; congruence|].
  destruct (ans_self ans); inv_res; [apply retry_mute; congruence|].
  split; [simpl; by rewrite Ec|]. simpl. rewrite Et, Ec. eexists. split; [done|]. intros -> fd'.
  by rewrite list_elem_of_singleton.
Qed.

Lemma handleError_mute cw cw' : handleError OfConnector cw = Ok cw' -> mute cw cw'.
Proof.
  unfold handleError. case_decide as Hs; intros E; inv_res; [|apply mute_refl].
  destruct a as [fd cw1]. inv_res. destruct (removeAndReset_mute _ _ _ Ha) as [Ec Et]. apply retry_mute; congruence.
Qed.

Lemma event_mute ans r cw cw' : connector_event OfConnector ans r cw = Ok cw' -> mute cw cw'.
Proof.
  unfold connector_event. intros E. inv_res. revert cw Ha Ha0 E. generalize (callbacks_for (set_revents r
    (setErrorCallback (setWriteCallback (new_Channel (loop_ a0) (fd_ a0)))))). intros cbs cw _ _. revert cw.
  induction cbs as [|cb cbs IH]; intros cw; cbn [run_all]; [intros [= <-]; apply mute_refl|].
  intros E. inv_res. apply (mute_trans _ a1); [|by apply IH].
  destruct cb; simpl in Ha; inv_res; first [by eapply handleWrite_mute|by eapply handleError_mute|apply mute_refl].
Qed.

Lemma mute_handed cw cw' : mute cw cw' -> connect_ (connector cw) = false -> handed_since (ctrace cw) cw' = None.
Proof.
  intros (_ & u & E & Hn) Hc. unfold handed_since. rewrite E, drop_app_length.
  destruct (last u) as [[| |fd|]|] eqn:El; try done. exfalso.
  apply (Hn Hc fd). apply last_Some_elem_of in El. done.
Qed.

(** With [connect_] reset no attempt starts. *)
Lemma startInLoop_off ans cw cw' :
  startInLoop true ans cw = Ok cw' -> connect_ (connector cw) = false -> cw' = cw.
Proof. unfold startInLoop. intros E Hc. inv_res. rewrite Hc in E. by injection E. Qed.

Lemma run_off ans f cw cw' :
  run_cfun OfConnector ans f cw = Ok cw' -> connect_ (connector cw) = false -> connect_ (connector cw') = false.
Proof.
  destruct f; simpl; intros E Hc.
  - by rewrite (startInLoop_off _ _ _ E Hc).
  - unfold stopInLoop in E. inv_res. case_decide; inv_res; [|done]. destruct a0 as [fd cw1]. inv_res.
    destruct (removeAndReset_mute _ _ _ Ha0) as [Ec _]. simpl in Ec.
    assert (Hc1 : connect_ (connector cw1) = false) by (by rewrite Ec).
    unfold retry. simpl. rewrite Hc1. exact Hc1.
  - unfold resetChannel in E. destruct (channel_ _); inv_res; done.
Qed.

(** The connecting state is left, never entered. *)
Definition leaving cw cw' : Prop := state_ (connector cw') = kConnecting -> cw' = cw.

Lemma retry_left fd cw : state_ (connector (retry fd cw)) = kDisconnected.
Proof. unfold retry. simpl. by destruct (connect_ _). Qed.

Lemma handleWrite_leaving ans cw cw' : handleWrite OfConnector ans cw = Ok cw' -> leaving cw cw'.
Proof.
  unfold handleWrite, leaving. case_decide as Hs; intros E; inv_res; [|done]. destruct a as [fd cw1].
  destruct (negb _); inv_res; [by rewrite retry_left|]. destruct (ans_self ans); inv_res; [by rewrite retry_left|]. done.
Qed.

Lemma handleError_leaving cw cw' : handleError OfConnector cw = Ok cw' -> leaving cw cw'.
Proof.
  unfold handleError, leaving. case_decide as Hs; intros E; inv_res; [|done]. destruct a as [fd cw1]. inv_res.
  by rewrite retry_left.
Qed.

Lemma event_leaving ans r cw cw' : connector_event OfConnector ans r cw = Ok cw' -> leaving cw cw'.
Proof.
  unfold connector_event. intros E. inv_res. revert cw Ha Ha0 E. generalize (callbacks_for (set_revents r
    (setErrorCallback (setWriteCallback (new_Channel (loop_ a0) (fd_ a0)))))). intros cbs cw _ _. revert cw.
  induction cbs as [|cb cbs IH]; intros cw; cbn [run_all]; [by intros [= <-]|].
  intros E. inv_res. intros Hs. pose proof (IH _ E Hs) as Ea. subst.
  destruct cb; simpl in Ha;
    [by injection Ha|exact (handleError_leaving _ _ Ha Hs)|by injection Ha|exact (handleWrite_leaving _ _ _ Ha Hs)].
Qed.

(** A functor that runs: a stop is not forgotten. *)
Definition will_stop cw : Prop := state_ (connector cw) = kConnecting -> StopInLoop ∈ mine connector_fun cw.

Lemma run_will_stop ans f q cw cw' :
  cpending cw = OfConnector f :: q -> connect_ (connector cw) = false -> will_stop cw ->
  run_cfun OfConnector ans f (set_cpending q cw) = Ok cw' -> will_stop cw'.
Proof.
  intros Hq Hc Hw E. assert (Hm : mine connector_fun cw = f :: mine connector_fun (set_cpending q cw))
    by (unfold mine; by rewrite Hq). unfold will_stop in *. rewrite Hm in Hw. destruct f; simpl in E.
  - rewrite (startInLoop_off _ _ _ E Hc). intros Hs. specialize (Hw Hs). set_solver.
  - unfold stopInLoop in E. inv_res. case_decide as Hs; inv_res; [|done]. destruct a0 as [fd cw1]. inv_res. by rewrite retry_left.
  - unfold resetChannel in E. destruct (channel_ _); inv_res; intros Hs; specialize (Hw Hs); set_solver.
Qed.

(** ** The invariant *)

Definition orphan_ok (c : positive) (k : kconn) o : Prop :=
  let d := filter (c =.) (doomed (cpending (connector_ (o_net o)))) in
  match kc_stage k with
  | Born => False
  | Up | Shutting => d = [] /\ c ∈ detached o
  | Down => d = [c]
  | Dead => d = []
  end.

(** A connector with nothing to do. *)
Definition settled cw : Prop := channel_ (connector cw) = None /\ mine connector_fun cw = [].

Record orphan_inv o : Prop := {
  oi_connector : connector_inv (connector_ (o_net o));
  oi_kept : kept o = true -> connect_ (connector (connector_ (o_net o))) = false /\ will_stop (connector_ (o_net o));
  oi_gone : kept o = false -> settled (connector_ (o_net o)) /\ timers (connector_ (o_net o)) = 0;
  oi_conns c k : kconns (o_net o) !! c = Some k -> orphan_ok c k o;
  oi_none c : kconns (o_net o) !! c = None -> c ∉ doomed (cpending (connector_ (o_net o)))
}.

(** What can happen when the client is gone. The timer of the destructor goes
    off when the functors that were queued and the retry timers that were
    started before it have run: its second is longer than a retry delay, and the
    loop does not stand still for so long. *)
Definition orphan_enabled (op : orphan_op (L:=L)) o : Prop :=
  let cw := connector_ (o_net o) in
  match op with
  | OClient (KConnect _ _) | OClient KDisconnect | OClient KStop => False
  | OClient (KEvent ans r _ _ _) => connector_enabled connector_fun (COpEvent ans r) cw
  | OClient (KWork c tell s' _) => exists k, kconns (o_net o) !! c = Some k /\ life_step Work (kc_stage k) tell s'
  | OClient (KRun ans) => connector_enabled connector_fun (COpRun ans) cw
  | OClient (KTimer ans) => connector_enabled connector_fun (COpTimer ans) cw
  | OClient (KLoop l) => connector_enabled connector_fun (COpLoop l) cw
  | ORelease => mine connector_fun cw = [] /\ timers cw = 0
  end.

(** The connector of a client with a connection is at rest. *)
Definition may_delete w : Prop := connection_ (client w) = None \/ settled (connector_ w).

(** Functors of others come and go. *)
Lemma others_inv q cw : connector_inv cw -> omap connector_fun q = mine connector_fun cw ->
  connector_inv (set_cpending q cw).
Proof.
  intros Hc Hq. apply (connector_exec_inv OfConnector connector_fun (fun f => eq_refl) (COpOthers q) cw Hc Hq).
Qed.

Lemma others_app f cw : connector_inv cw -> connector_fun f = None ->
  connector_inv (set_cpending (cpending cw ++ [f]) cw).
Proof.
  intros Hc Hf. apply others_inv; [done|]. unfold mine. rewrite omap_app. simpl. by rewrite Hf, app_nil_r.
Qed.

Lemma deleted_inv unique w :
  client_inv w -> may_delete w -> exists o, delete_TcpClient true unique w = Ok o /\ orphan_inv o.
Proof.
  intros Hw Hdel. pose proof Hw as [Hc Hcur Hk Hn]. unfold delete_TcpClient.
  destruct (connection_ (client w)) as [c|] eqn:E.
  - destruct (Hcur c eq_refl) as (Hs & [n s] & Hkc & Ho). cbn [kc_stage] in Ho.
    destruct Hdel as [Hdel|Hset]; [congruence|].
    assert (Hall : forall c' k, kconns w !! c' = Some k -> orphan_ok c' k (mkOrphans w {[c]} false)).
    { intros c' k Hx. specialize (Hk c' k Hx). unfold kconn_ok in Hk. unfold orphan_ok. cbn [o_net detached].
      rewrite E in Hk. destruct (kc_stage k); destruct_and?; try done; (split; [done|]); set_solver. }
    assert (Htm : timers (connector_ w) = 0) by (pose proof (ci_attempts _ _ Hc) as Ha; rewrite Hs in Ha; simpl in Ha; lia).
    assert (Hdc : delete_Connector (connector (connector_ w)) = Ok tt)
      by (unfold delete_Connector; by rewrite bool_decide_true by apply Hset).
    destruct unique; [|run_res; rewrite Hdc; run_res; eexists; split; [done|]; by split].
    unfold forceClose. rewrite Hkc. run_res. cbn [kc_stage kc_name]. rewrite Ho. run_res.
    change (connector_ (set_kconns _ w)) with (connector_ w). rewrite Hdc. run_res.
    eexists. split; [done|]. split; cbn [o_net set_kconns kconns connector_ detached kept]; [done|done|done| |].
    + intros c' k [[<- <-]|[_ Hx]]%lookup_insert_Some; [|by apply (Hall c' k)].
      specialize (Hall c (mkKconn n s) Hkc). unfold orphan_ok in *. cbn in *. by destruct s.
    + intros c' [Hx _]%lookup_insert_None. by apply Hn.
  - eexists. split; [done|]. split; cbn [o_net set_cworld connector_ kconns detached kept].
    + apply (connector_exec_inv OfConnector connector_fun (fun f => eq_refl) COpStop (connector_ w) Hc I).
    + intros _. split; [done|]. intros _. unfold stop. rewrite (mine_queue OfConnector connector_fun (fun f => eq_refl)). set_solver.
    + done.
    + intros c k Hx. specialize (Hk c k Hx). unfold kconn_ok in Hk. unfold orphan_ok. cbn.
      rewrite doomed_app, app_nil_r. rewrite E in Hk. destruct (kc_stage k); destruct_and?; try done.
    + intros c Hx. cbn. rewrite doomed_app, app_nil_r. by apply Hn.
Qed.

(** A step of the connector. *)
Lemma orphan_connector o cw' :
  orphan_inv o -> kept o = true -> connector_inv cw' -> doomed (cpending cw') = doomed (cpending (connector_ (o_net o))) ->
  connect_ (connector cw') = false -> will_stop cw' ->
  orphan_inv (mkOrphans (set_cworld cw' (o_net o)) (detached o) (kept o)).
Proof.
  intros [Hc Hm Hg Hk Hn] Hkept Hc' Hd Hm' Hw. split; cbn [o_net set_cworld connector_ kconns detached kept]; [done|done|congruence| |].
  - intros c k Hx. specialize (Hk c k Hx). unfold orphan_ok in *. cbn. by rewrite Hd.
  - intros c Hx. rewrite Hd. by apply Hn.
Qed.

(** The queue of the loop changes, but not the connector's part of it. *)
Lemma kept_others q o :
  orphan_inv o -> omap connector_fun q = mine connector_fun (connector_ (o_net o)) ->
  let cw := set_cpending q (connector_ (o_net o)) in
  (kept o = true -> connect_ (connector cw) = false /\ will_stop cw)
  /\ (kept o = false -> settled cw /\ timers cw = 0).
Proof.
  intros [_ Hm Hg _ _] Hq cw. assert (Hmine : mine connector_fun cw = mine connector_fun (connector_ (o_net o))) by exact Hq.
  unfold will_stop, settled. rewrite Hmine. done.
Qed.

(** While the connector can have an event, a functor or a timer, it exists. *)
Lemma connector_kept o :
  orphan_inv o ->
  state_ (connector (connector_ (o_net o))) = kConnecting \/ mine connector_fun (connector_ (o_net o)) <> []
    \/ 0 < timers (connector_ (o_net o)) ->
  kept o = true.
Proof.
  intros [Hc _ Hg _ _] Hany. destruct (kept o) eqn:E; [done|]. destruct (Hg eq_refl) as [[Hch Hmi] Ht]. exfalso.
  destruct Hany as [Hs|[Hs|Hs]]; [|done|lia]. destruct (ci_channel _ _ Hc) as (live & Hok & _).
  unfold channel_ok in Hok. by rewrite Hch, Hs in Hok.
Qed.

Ltac orphan_cbn :=
  unfold orphan_ok; cbn [kc_stage o_net connector_ cpending set_cworld set_cpending set_kconns queue_kfun detached].

Lemma orphan_work c tell s' ans o :
  orphan_inv o -> orphan_enabled (OClient (KWork c tell s' ans)) o -> safe (orphan_exec (KWork c tell s' ans) o) orphan_inv.
Proof.
  intros Ho (k & Hk & Hl). pose proof Ho as [Hc Hm Hg Hok Hn]. cbn [orphan_exec]. rewrite Hk. run_res.
  pose proof (Hok c k Hk) as Hck. destruct k as [n s]. cbn [kc_stage kc_name] in *.
  assert (Hset : forall s1, orphan_ok c (mkKconn n s1) o ->
    orphan_inv (mkOrphans (set_kconns (<[c := mkKconn n s1]> (kconns (o_net o))) (o_net o)) (detached o) (kept o))).
  { intros s1 Hs1. split; cbn [o_net set_kconns kconns connector_ detached]; [done|done|done| |].
    - intros c' k' [[<- <-]|[_ Hx]]%lookup_insert_Some; [done|by apply (Hok c' k')].
    - intros c' [Hx _]%lookup_insert_None. by apply Hn. }
  remember Work as op. destruct Hl as [|s|s s2 Ho1 Ho2|s Ho1|]; try done.
  - by apply Hset.
  - apply Hset. unfold orphan_ok in *. cbn in *. by destruct s, s2.
  - assert (Hd : filter (c =.) (doomed (cpending (connector_ (o_net o)))) = [] /\ c ∈ detached o)
      by (unfold orphan_ok in Hck; cbn in Hck; by destruct s).
    destruct Hd as [Hd Hdet]. rewrite decide_True by done.
    destruct (kept_others (cpending (connector_ (o_net o)) ++ [ConnectDestroyed c]) o Ho) as [Hm' Hg'].
    { unfold mine. rewrite omap_app. simpl. by rewrite app_nil_r. }
    split; cbn [wp o_net queue_kfun set_cworld set_kconns set_cpending kconns connector_ detached cpending kept].
    + by apply others_app.
    + exact Hm'.
    + exact Hg'.
    + intros c' k' [[<- <-]|[Hne Hx]]%lookup_insert_Some; orphan_cbn;
        rewrite doomed_app, filter_app; change (doomed [ConnectDestroyed c]) with [c].
      * rewrite Hd. by rewrite filter_cons_True.
      * specialize (Hok c' k' Hx). unfold orphan_ok in Hok. by rewrite filter_cons_False, app_nil_r.
    + intros c' [Hx Hne]%lookup_insert_None. rewrite doomed_app. cbn. specialize (Hn c' Hx). set_solver.
Qed.

Lemma orphan_run ans o :
  orphan_inv o -> orphan_enabled (OClient (KRun ans)) o -> safe (orphan_exec (KRun ans) o) orphan_inv.
Proof.
  intros Ho He. pose proof Ho as [Hc Hm Hg Hok Hn].
  pose proof (connector_exec_inv OfConnector connector_fun (fun f => eq_refl) (COpRun ans) _ Hc He) as Hs.
  cbn [orphan_exec connector_exec] in *. destruct (cpending (connector_ (o_net o))) as [|[f|c|c] q] eqn:Hq; [done| | |].
  - assert (Hkept : kept o = true) by (apply connector_kept; [done|]; right; left; unfold mine; by rewrite Hq).
    rewrite Hkept. run_res. destruct (Hm Hkept) as [Hoff Hw].
    cbn [connector_fun] in Hs. destruct (run_cfun OfConnector ans f _) as [cw'|] eqn:E; [|done]. run_res. rewrite <- Hkept.
    apply orphan_connector; [done|done|done| | |].
    + apply run_doomed in E as ->. by rewrite Hq.
    + exact (run_off ans f _ _ E Hoff).
    + exact (run_will_stop ans f q _ _ Hq Hoff Hw E).
  - destruct (kept_others q o Ho) as [Hm' Hg']; [unfold mine; by rewrite Hq|].
    assert (Hd : doomed (cpending (connector_ (o_net o))) = c :: doomed q) by (by rewrite Hq).
    destruct (kconns (o_net o) !! c) as [k|] eqn:Hk; [|exfalso; apply (Hn c Hk); cbn; set_solver].
    pose proof (Hok c k Hk) as Hck. unfold orphan_ok in Hck. rewrite Hd, filter_cons_True in Hck by done.
    unfold connectDestroyed. cbn [kconns set_cworld]. rewrite Hk. run_res.
    destruct (kc_stage k) eqn:Hst; try done; try (by destruct Hck). run_res. cbn [orb bool_decide].
    rewrite bool_decide_false, bool_decide_true by done. run_res. injection Hck as Hfq.
    split; cbn [wp o_net set_cworld set_kconns set_cpending kconns connector_ detached cpending kept].
    + apply others_inv; [done|]. unfold mine. by rewrite Hq.
    + exact Hm'.
    + exact Hg'.
    + intros c' k' [[<- <-]|[Hne Hx]]%lookup_insert_Some; unfold orphan_ok; cbn; [done|].
      specialize (Hok c' k' Hx). unfold orphan_ok in Hok. by rewrite Hd, filter_cons_False in Hok by done.
    + intros c' [Hx Hne]%lookup_insert_None. specialize (Hn c' Hx). cbn in Hn. set_solver.
  - destruct (kept_others q o Ho) as [Hm' Hg']; [unfold mine; by rewrite Hq|].
    split; cbn [wp o_net set_cworld set_cpending kconns connector_ detached cpending kept].
    + apply others_inv; [done|]. unfold mine. by rewrite Hq.
    + exact Hm'.
    + exact Hg'.
    + intros c' k' Hx. specialize (Hok c' k' Hx). unfold orphan_ok in *. cbn in *. rewrite Hq in Hok. cbn in Hok.
      destruct (kc_stage k'); destruct_and?; try done. all: split; [done|set_solver].
    + exact Hn.
Qed.

(** The timer of the destructor finds a connector without a channel. *)
Lemma orphan_release o : orphan_inv o -> orphan_enabled ORelease o -> safe (release_connector o) orphan_inv.
Proof.
  intros Ho [Hmi Ht]. pose proof Ho as [Hc Hm Hg Hok Hn]. unfold release_connector. destruct (kept o) eqn:E; [|done].
  destruct (Hm eq_refl) as [Hoff Hw]. destruct (ci_channel _ _ Hc) as (live & Hch & _).
  assert (Hnone : channel_ (connector (connector_ (o_net o))) = None).
  { unfold channel_ok in Hch. unfold will_stop in Hw. rewrite Hmi in *. destruct (channel_ _); [|done].
    destruct (state_ _); [by destruct Hch|by destruct (not_elem_of_nil StopInLoop); apply Hw|by destruct Hch]. }
  unfold delete_Connector. rewrite bool_decide_true by done. run_res. by split.
Qed.

Lemma orphan_do_inv op o : orphan_inv o -> orphan_enabled op o -> safe (orphan_do op o) orphan_inv.
Proof.
  intros Ho He. pose proof Ho as [Hc Hm Hg Hok Hn]. destruct op as [[| | |ans r p c s'|c tell s' ans|ans|ans|l]|]; try done; cbn [orphan_do].
  - cbn [orphan_exec]. destruct He as [Hst Hhd]. assert (Hkept : kept o = true) by (apply connector_kept; auto).
    rewrite Hkept. run_res. destruct (Hm Hkept) as [Hoff Hw].
    pose proof (ConnectorFacts.event_inv OfConnector connector_fun (fun f => eq_refl) ans r _ Hc Hst Hhd) as Hev.
    destruct (connector_event OfConnector ans r _) as [cw'|] eqn:E; [|done]. run_res.
    pose proof (event_mute _ _ _ _ E) as Hmute. rewrite (mute_handed _ _ Hmute Hoff), <- Hkept.
    apply orphan_connector; [done|done|done|apply (event_quiet _ _ _ _ E Hst)| |].
    + by destruct Hmute as [-> _].
    + intros Hs'. pose proof (event_leaving _ _ _ _ E Hs') as ->. by apply Hw.
  - by apply orphan_work.
  - by apply orphan_run.
  - pose proof (connector_exec_inv OfConnector connector_fun (fun f => eq_refl) (COpTimer ans) _ Hc He) as Hs.
    assert (Hkept : kept o = true) by (apply connector_kept; [done|]; right; right; apply He).
    cbn [orphan_exec connector_exec] in *. rewrite Hkept. run_res. destruct (Hm Hkept) as [Hoff Hw].
    destruct (retry_timer ans _) as [cw'|] eqn:E; [|done]. run_res. rewrite <- Hkept.
    unfold retry_timer in E. rewrite (startInLoop_off _ _ _ E Hoff) in *. by apply orphan_connector.
  - destruct (kept o) eqn:Hkept.
    + cbn [orphan_exec]. destruct (Hm eq_refl) as [Hoff Hw].
      apply orphan_connector; [done|done| |done|done|done].
      apply (connector_exec_inv OfConnector connector_fun (fun f => eq_refl) (COpLoop l) _ Hc He).
    + cbn [orphan_exec]. split; cbn [o_net set_cworld connector_ kconns detached kept]; try done.
      * apply (connector_exec_inv OfConnector connector_fun (fun f => eq_refl) (COpLoop l) _ Hc He).
      * intros Hk1. congruence.
      * intros _. by apply Hg.
  - by apply orphan_release.
Qed.

Inductive orphan_reach (o0 : orphans L) : orphans L -> Prop :=
  | orphan_init : orphan_reach o0 o0
  | orphan_next o op o' : orphan_reach o0 o -> orphan_enabled op o -> orphan_do op o = Ok o' -> orphan_reach o0 o'.

Lemma orphan_reach_inv o0 o : orphan_inv o0 -> orphan_reach o0 o -> orphan_inv o.
Proof.
  intros H0 Hr. induction Hr as [|o op o' _ IH He Hx]; [done|].
  exact (wp_ok _ _ _ _ (orphan_do_inv op o IH He) Hx).
Qed.


(** Deleted in the very round of the loop in which its connection was made, the
    connector still has its channel and fails the assertion of its
    destructor. *)
Theorem deleted_too_soon w in_loop c k ch unique :
  connection_ (client w) = Some c -> kconns w !! c = Some k -> channel_ (connector (connector_ w)) = Some ch ->
  delete_TcpClient in_loop unique w = Fault AssertFailed.
Proof.
  intros Hc Hk Hch. unfold delete_TcpClient, delete_Connector, forceClose. rewrite Hc.
  destruct in_loop, unique; cbn [queue_kfun set_cworld kconns connector_ set_kconns connector set_cpending]; rewrite ?Hk; run_res;
    try (destruct (open (kc_stage k))); cbn; by rewrite Hch.
Qed.

(** a client deleted from another thread is still called: until the
    functor with [setCloseCallback] has run, the close of its connection uses
    the destroyed client. *)
Theorem deleted_elsewhere_called w c k ans s' :
  connection_ (client w) = Some c -> kconns w !! c = Some k -> settled (connector_ w) ->
  exists o, delete_TcpClient false false w = Ok o
    /\ orphan_exec (KWork c true s' ans) o = Fault NullDeref.
Proof.
  intros Hc Hk [Hs _]. unfold delete_TcpClient, delete_Connector. rewrite Hc.
  run_res. cbn [queue_kfun set_cworld connector_ connector set_cpending]. rewrite bool_decide_true by done. run_res. eexists. split; [done|].
  cbn [orphan_exec o_net queue_kfun set_cworld kconns detached]. rewrite Hk. run_res.
  by rewrite decide_False by set_solver.
Qed.
End ClientDelete.

(** ** The connected client is deleted, then its connection closes *)
Module DeleteOnWindows.
Import TcpClientFacts.OnWindows.
#[local] Existing Instance TcpClientFacts.OnWindows.platform.

(** The loop runs a functor; the connection closes. *)
Definition run_op : client_op (L:=EventLoop unit) := KRun (mkAnswer 9 EINPROGRESS 6).
Definition close_op : client_op (L:=EventLoop unit) := KWork 8 true Down (mkAnswer 9 EINPROGRESS 5).

(** The connector's last functor has run. *)
Definition demo4 : knet (EventLoop unit) := demo_step run_op demo3.

Definition orphaned : orphans (EventLoop unit) :=
  match @delete_TcpClient (EventLoop unit) true false demo4 with Ok o => o | Fault _ => mkOrphans demo4 ∅ false end.
Definition orphan_step (op : client_op) (o : orphans (EventLoop unit)) : orphans (EventLoop unit) :=
  match orphan_exec op o with Ok o' => o' | Fault _ => o end.

(** The connection closes and is destroyed. *)
Definition closed : orphans (EventLoop unit) := orphan_step close_op orphaned.
Definition destroyed : orphans (EventLoop unit) := orphan_step run_op closed.

Lemma run_op_enabled (w : knet (EventLoop unit)) :
  let l := cloop (connector_ w) in
  channels_ (poller_ l) = ∅ -> pollfds_ (poller_ l) = [] -> objs (poller_ l) !! 6%positive = None ->
  loop_addr (connector (connector_ w)) = this_ l -> ev_handling_ l = false ->
  (forall id, channel_ (connector (connector_ w)) = Some id -> host_resting id l) ->
  connector_enabled connector_fun (COpRun (mkAnswer 9 EINPROGRESS 6)) (connector_ w).
Proof.
  intros l Hc Hp Ho Ha He Hr. split; [|by split]. split.
  - split; [intros fd id; fold l; by rewrite Hc, lookup_empty|fold l; rewrite Hp; simpl; lia].
  - fold l. rewrite Hc, lookup_empty. by split_and!.
Qed.

Ltac run_enabled :=
  apply run_op_enabled; try (vm_compute; reflexivity);
  intros id Hid c Hc; vm_compute in Hid; first [discriminate Hid|injection Hid as <-];
  vm_compute in Hc; by injection Hc as <-.

Lemma demo4_reach : client_reach demo_client demo4.
Proof. apply (client_next demo_client demo3 run_op); [apply demo3_reach|run_enabled|vm_compute; reflexivity]. Qed.

Lemma demo4_may_delete : may_delete demo4.
Proof. right. split; vm_compute; reflexivity. Qed.

Lemma destroyed_reach : orphan_reach orphaned destroyed.
Proof.
  apply (orphan_next orphaned closed (OClient run_op)); [|run_enabled|vm_compute; reflexivity].
  apply (orphan_next orphaned orphaned (OClient close_op)); [constructor| |vm_compute; reflexivity].
  exists (mkKconn (str "cli:10.0.0.1:80#1") Up). split; [vm_compute; reflexivity|by constructor].
Qed.


Lemma deleted_too_soon_witness : delete_TcpClient true false demo3 = Fault AssertFailed.
Proof.
  apply (deleted_too_soon demo3 true 8 (mkKconn (str "cli:10.0.0.1:80#1") Up) 5); vm_compute; reflexivity.
Defined.

Lemma deleted_elsewhere_called_witness :
  exists o, delete_TcpClient false false demo4 = Ok o /\ orphan_exec close_op o = Fault NullDeref.
Proof.
  apply (deleted_elsewhere_called demo4 8 (mkKconn (str "cli:10.0.0.1:80#1") Up)); [vm_compute; reflexivity..|].
  split; vm_compute; reflexivity.
Defined.
End DeleteOnWindows.
