(* ===== verification/Lifetime.v ===== *)
(** * Who keeps a connection alive: the [shared_ptr]s to a [TcpConnection]

    A connection of a [TcpServer] (src/msmuduo/net/TcpServer.cpp and
    TcpConnection.cpp) is deleted when the last [shared_ptr] to it goes. Such
    pointers are in the server's map, in functors that were bound to
    [shared_from_this()] or to the connection, in variables of user threads and
    in [handleClose] while it runs; the functors of [send] and [shutdown] are
    bound to a bare [this]. The model counts the pointers, runs the loop of the
    connection, the loop of the server and user threads in any interleaving, and
    faults when a connection is used that was deleted. What a connection does
    with its bytes is in TcpConnection. *)
From S2P Require Import Prelude.
From S2P Require Import TcpConnection.

(** ** State *)

(** A functor in the loop of the connection. [connectEstablished] is bound by
    [TcpServer::newConnection], the others by [functor]. *)
Inductive task := ConnectEstablished | Own (f : functor).

(** Is the functor bound to a [shared_ptr]? Otherwise it is bound to [this]. *)
Definition binds_ptr (t : task) : bool :=
  match t with
  | Own (SendInLoop _) | Own ShutdownInLoop => false
  | _ => true
  end.

(** The channel in its poller: not there, there with events, there without. *)
Inductive presence := Absent | Watched | Ignored.

#[export] Instance presence_eq_dec : EqDecision presence.
Proof. solve_decision. Defined.

(** What a user thread calls. *)
Inductive ucall := CSend (message : bytes) | CShutdown | CForceClose.

(** A user thread with a [shared_ptr] to the connection: between calls, or in a
    call that has found the state it asks for. *)
Inductive user := Idle | Passed (c : ucall).

Record life := mkLife {
  own_state : StateE;
  presence_ : presence;
  entry : bool;
  server : bool;
  pending : list task;
  batch : list task;
  ran : list task;
  base_pending : nat;
  base_batch : nat;
  base_ran : nat;
  guardThis : bool;
  users : gmap nat user
}.

(** [entry]: the server's map has the connection; [server]: the server exists.
    [pending] are the functors of the connection's loop; [batch] and [ran] are
    the rest and the beginning of the vector that [doPendingFunctors] works
    through: it is destroyed as a whole. The functors of the server's loop are
    all [removeConnectionInLoop] and are counted. [guardThis]: [handleClose] is
    running. *)

Definition holders (ts : list task) : nat := length (filter (fun t => binds_ptr t = true) ts).

(** [use_count()]. *)
Definition use_count (l : life) : nat :=
  Nat.b2n (entry l) + holders (pending l ++ batch l ++ ran l)
  + (base_pending l + base_batch l + base_ran l) + Nat.b2n (guardThis l) + size (users l).

Definition alive (l : life) : bool := 0 <? use_count l.

(** Using the connection: a member is read or written. *)
Definition use (l : life) : res unit := if alive l then Ok tt else Fault NullDeref.

Definition set_own (s : StateE) (l : life) : life :=
  mkLife s (presence_ l) (entry l) (server l) (pending l) (batch l) (ran l)
    (base_pending l) (base_batch l) (base_ran l) (guardThis l) (users l).
Definition set_presence (p : presence) (l : life) : life :=
  mkLife (own_state l) p (entry l) (server l) (pending l) (batch l) (ran l)
    (base_pending l) (base_batch l) (base_ran l) (guardThis l) (users l).
Definition set_server (e s : bool) (l : life) : life :=
  mkLife (own_state l) (presence_ l) e s (pending l) (batch l) (ran l)
    (base_pending l) (base_batch l) (base_ran l) (guardThis l) (users l).
Definition set_tasks (p b r : list task) (l : life) : life :=
  mkLife (own_state l) (presence_ l) (entry l) (server l) p b r
    (base_pending l) (base_batch l) (base_ran l) (guardThis l) (users l).
Definition set_base (p b r : nat) (l : life) : life :=
  mkLife (own_state l) (presence_ l) (entry l) (server l) (pending l) (batch l) (ran l)
    p b r (guardThis l) (users l).
Definition set_guard (g : bool) (l : life) : life :=
  mkLife (own_state l) (presence_ l) (entry l) (server l) (pending l) (batch l) (ran l)
    (base_pending l) (base_batch l) (base_ran l) g (users l).
Definition set_users (u : gmap nat user) (l : life) : life :=
  mkLife (own_state l) (presence_ l) (entry l) (server l) (pending l) (batch l) (ran l)
    (base_pending l) (base_batch l) (base_ran l) (guardThis l) u.

Definition queue (t : task) (l : life) : life := set_tasks (pending l ++ [t]) (batch l) (ran l) l.

Definition open_state (s : StateE) : bool :=
  bool_decide (s = kConnected) || bool_decide (s = kDisconnecting).

(** ** Calls of user threads

    [send], [shutdown] and [forceClose] called outside the loop: the test of
    the state, and what follows it. *)
Definition call_test (c : ucall) (l : life) : bool :=
  match c with
  | CForceClose => open_state (own_state l)
  | _ => bool_decide (own_state l = kConnected)
  end.

Definition call_act (c : ucall) (l : life) : life :=
  match c with
  | CSend message => queue (Own (SendInLoop message)) l
  | CShutdown => queue (Own ShutdownInLoop) (set_own kDisconnecting l)
  | CForceClose => queue (Own ForceCloseInLoop) (set_own kDisconnecting l)
  end.

(** ** Calls of callbacks, in the loop

    [LSend]: the direct send may complete or pass the high-water mark, and may
    enable writing. [LCopy]: the callback gives its [TcpConnectionPtr] to a
    thread. *)
Record send_effect := mkSendEffect { completes : bool; passes : bool; enables : bool }.

Inductive lcall := LSend (e : send_effect) | LShutdown | LForceClose | LCopy (j : nat).

Definition sendInLoop (message : bytes) (e : send_effect) (l : life) : life :=
  if decide (own_state l = kDisconnected) then l else
  let l := if completes e then queue (Own WriteCompleteCallback) l else l in
  let l := if passes e then queue (Own (HighWaterMarkCallback (length message))) l else l in
  if enables e then set_presence Watched l else l.

Definition lcall_step (l : life) (c : lcall) : life :=
  match c with
  | LSend e => if bool_decide (own_state l = kConnected) then sendInLoop [] e l else l
  | LShutdown => if call_test CShutdown l then set_own kDisconnecting l else l
  | LForceClose => if call_test CForceClose l then call_act CForceClose l else l
  | LCopy j => match users l !! j with
               | None => set_users (<[j := Idle]> (users l)) l
               | Some _ => l
               end
  end.

Definition callback (calls : list lcall) (l : life) : life := foldl lcall_step l calls.

(** ** The handlers of the connection *)

(** [handleClose] up to the close callback. [disableAll] leaves the channel in
    the poller. *)
Definition handleClose (calls : list lcall) (l : life) : res life :=
  assert_ (open_state (own_state l));;
  let l := set_presence Ignored (set_own kDisconnected l) in
  Ok (callback calls (set_guard true l)).

Definition connectEstablished (calls : list lcall) (l : life) : res life :=
  assert_ (bool_decide (own_state l = kConnecting));;
  let l := set_own kConnected l in
  Ok (callback calls (set_presence Watched l)).

(** [remove] asserts that the channel has no events; so does the poller, which
    also asserts that it is there. *)
Definition connectDestroyed (calls : list lcall) (l : life) : res life :=
  let l := if decide (own_state l = kConnected)
           then callback calls (set_presence Ignored (set_own kDisconnected l)) else l in
  assert_ (bool_decide (presence_ l = Ignored));;
  Ok (set_presence Absent l).

(** Running a functor: its use of the connection, then its work. *)
Definition run_task (t : task) (e : send_effect) (calls : list lcall) (l : life) : res life :=
  use l;;
  match t with
  | ConnectEstablished => connectEstablished calls l
  | Own (SendInLoop message) => Ok (sendInLoop message e l)
  | Own ShutdownInLoop => Ok l
  | Own ForceCloseInLoop => if open_state (own_state l) then handleClose calls l else Ok l
  | Own WriteCompleteCallback | Own (HighWaterMarkCallback _) => Ok (callback calls l)
  | Own ConnectDestroyed => connectDestroyed calls l
  end.

(** ** The server *)

(** [newConnection], in the loop of the server. With [same] the connection has
    the same loop, and [runInLoop] calls at once. *)
Definition newConnection (same : bool) (calls : list lcall) : res life :=
  let l := mkLife kConnecting Absent true true [] [] [] 0 0 0 false ∅ in
  if same then connectEstablished calls l else Ok (queue ConnectEstablished l).

(** The callbacks into the server are bound to its bare [this]. *)
Definition removeConnectionInLoop (l : life) : res life :=
  get_ NullDeref (if server l then Some tt else None);;
  assert_ (entry l);;
  Ok (queue (Own ConnectDestroyed) (set_server false (server l) l)).

Definition removeConnection (same : bool) (l : life) : res life :=
  get_ NullDeref (if server l then Some tt else None);;
  if same then removeConnectionInLoop l
  else Ok (set_base (S (base_pending l)) (base_batch l) (base_ran l) l).

(** [~TcpServer]. *)
Definition delete_TcpServer (same : bool) (calls : list lcall) (l : life) : res life :=
  if entry l then
    let l := set_server false false l in
    if same then connectDestroyed calls l else Ok (queue (Own ConnectDestroyed) l)
  else Ok (set_server false false l).

(** [~TcpConnection] and the destructor of its channel. *)
Definition delete_TcpConnection (in_loop : bool) (l : life) : res unit :=
  assert_ (bool_decide (own_state l = kDisconnected));;
  assert_ (negb in_loop || bool_decide (presence_ l = Absent)).

(** ** Steps

    Io: the loop of the connection, Base: the loop of the server, U: a user
    thread. *)
Inductive life_op :=
  | IoRead (calls : list lcall)
  | IoWrite (complete : bool)
  | IoClose (calls : list lcall)
  | IoCloseReturn
  | IoSwap
  | IoRun (e : send_effect) (calls : list lcall)
  | IoEnd
  | BaseSwap
  | BaseRun
  | BaseEnd
  | BaseDelete (calls : list lcall)
  | UCopy (i j : nat)
  | UDrop (j : nat)
  | UCall (j : nat) (c : ucall)
  | UTest (j : nat) (c : ucall)
  | UAct (j : nat).

(** The loop is between two functors or two events. *)
Definition idle (l : life) : bool :=
  bool_decide (length (batch l ++ ran l) = 0) && negb (guardThis l).

Definition is_idle (o : option user) : bool := match o with Some Idle => true | _ => false end.
Definition is_passed (o : option user) : bool := match o with Some (Passed _) => true | _ => false end.

(** An event comes only to a channel that [poll] watches. [UCall] is a call
    that nothing interrupts, [UTest] and [UAct] its two halves. *)
Definition enabled (same : bool) (op : life_op) (l : life) : bool :=
  match op with
  | IoRead _ | IoWrite _ | IoClose _ => bool_decide (presence_ l = Watched) && idle l
  | IoCloseReturn => guardThis l
  | IoSwap => idle l
  | IoRun _ _ => (0 <? length (batch l)) && negb (guardThis l)
  | IoEnd => (length (batch l) =? 0) && negb (guardThis l)
  | BaseSwap => (base_batch l =? 0) && (base_ran l =? 0)
  | BaseRun => 0 <? base_batch l
  | BaseEnd => base_batch l =? 0
  | BaseDelete _ => server l && (negb same || idle l)
  | UCopy i j => is_idle (users l !! i) && bool_decide (users l !! j = None)
  | UDrop j | UCall j _ | UTest j _ => is_idle (users l !! j)
  | UAct j => is_passed (users l !! j)
  end.

Definition run_op (same : bool) (op : life_op) (l : life) : res life :=
  match op with
  | IoRead calls => use l;; Ok (callback calls l)
  | IoWrite complete =>
      use l;;
      Ok (if complete then queue (Own WriteCompleteCallback) l else l)
  | IoClose calls => use l;; handleClose calls l
  | IoCloseReturn => l ← removeConnection same l; Ok (set_guard false l)
  | IoSwap => Ok (set_tasks [] (pending l) [] l)
  | IoRun e calls =>
      match batch l with
      | [] => Ok l
      | t :: ts => run_task t e calls (set_tasks (pending l) ts (ran l ++ [t]) l)
      end
  | IoEnd => Ok (set_tasks (pending l) [] [] l)
  | BaseSwap => Ok (set_base 0 (base_pending l) 0 l)
  | BaseRun => removeConnectionInLoop (set_base (base_pending l) (pred (base_batch l)) (S (base_ran l)) l)
  | BaseEnd => Ok (set_base (base_pending l) (base_batch l) 0 l)
  | BaseDelete calls => delete_TcpServer same calls l
  | UCopy _ j => Ok (set_users (<[j := Idle]> (users l)) l)
  | UDrop j => Ok (set_users (delete j (users l)) l)
  | UCall _ c => use l;; Ok (if call_test c l then call_act c l else l)
  | UTest j c => use l;; Ok (if call_test c l then set_users (<[j := Passed c]> (users l)) l else l)
  | UAct j =>
      match users l !! j with
      | Some (Passed c) => use l;; Ok (call_act c (set_users (<[j := Idle]> (users l)) l))
      | _ => Ok l
      end
  end.

(** Whose thread takes the step: that of the connection's loop? *)
Definition in_loop (same : bool) (op : life_op) : bool :=
  match op with
  | IoRead _ | IoWrite _ | IoClose _ | IoCloseReturn | IoSwap | IoRun _ _ | IoEnd => true
  | BaseSwap | BaseRun | BaseEnd | BaseDelete _ => same
  | UCopy _ _ | UDrop _ | UCall _ _ | UTest _ _ | UAct _ => false
  end.

(** A step, and the destructor when the last pointer went in it. *)
Definition exec (same : bool) (op : life_op) (l : life) : res life :=
  l' ← run_op same op l;
  (if alive l && negb (alive l') then delete_TcpConnection (in_loop same op) l' else Ok tt);;
  Ok l'.

(** Steps that keep to what the code needs: the server stays, and between the
    test of the state and what follows it nothing else happens. *)
Definition careful (op : life_op) : bool :=
  match op with
  | BaseDelete _ | UTest _ _ | UAct _ => false
  | _ => true
  end.

Inductive life_reach (same : bool) : life -> Prop :=
  | life_start calls l : newConnection same calls = Ok l -> life_reach same l
  | life_more op l l' :
      life_reach same l -> careful op = true -> enabled same op l = true ->
      exec same op l = Ok l' -> life_reach same l'.

(** Nothing is left to do for the loops. *)
Definition quiet (l : life) : bool :=
  (length (pending l ++ batch l ++ ran l) =? 0)
  && (base_pending l + base_batch l + base_ran l =? 0) && negb (guardThis l).

(** ** The phases of a connection *)

Inductive phase := PBorn | POpen | PClosing | PRemoving | PDestroying | PGone.

#[export] Instance phase_eq_dec : EqDecision phase.
Proof. solve_decision. Defined.

(** Functors that neither start nor end the connection; those of them that
    have a pointer. *)
Definition mild (t : task) : Prop := t <> ConnectEstablished /\ t <> Own ConnectDestroyed.
Definition plain (t : task) : Prop := mild t /\ binds_ptr t = true.

Definition todo (l : life) : list task := batch l ++ pending l.

Definition todo_ok (p : phase) (ts : list task) : Prop :=
  match p with
  | PBorn => ts = [ConnectEstablished]
  | POpen | PClosing | PRemoving => Forall mild ts
  | PDestroying => exists pre post, ts = pre ++ Own ConnectDestroyed :: post /\ Forall mild pre /\ Forall plain post
  | PGone => Forall plain ts
  end.

Definition own_ok (p : phase) (s : StateE) (c : presence) : Prop :=
  match p with
  | PBorn => s = kConnecting /\ c = Absent
  | POpen => open_state s = true /\ c = Watched
  | PClosing | PRemoving | PDestroying => s = kDisconnected /\ c = Ignored
  | PGone => s = kDisconnected /\ c = Absent
  end.

Record in_phase (p : phase) (l : life) : Prop := {
  ph_own : own_ok p (own_state l) (presence_ l);
  ph_todo : todo_ok p (todo l);
  ph_entry : entry l = negb (bool_decide (p = PDestroying) || bool_decide (p = PGone));
  ph_server : server l = true;
  ph_base : base_pending l + base_batch l = Nat.b2n (bool_decide (p = PRemoving));
  ph_guard : guardThis l = bool_decide (p = PClosing);
  ph_users : map_Forall (fun _ u => u = Idle) (users l)
}.

(** *** Pointers *)

Lemma holders_app ts us : holders (ts ++ us) = holders ts + holders us.
Proof. unfold holders. by rewrite filter_app, length_app. Qed.

Lemma holders_in t ts : t ∈ ts -> binds_ptr t = true -> 0 < holders ts.
Proof.
  intros Hin Hb. unfold holders. destruct (filter _ ts) eqn:E; [|simpl; lia].
  exfalso. apply (not_elem_of_nil t). rewrite <- E. apply list_elem_of_filter. done.
Qed.

Lemma holders_plain ts : Forall plain ts -> holders ts = 0 -> ts = [].
Proof.
  destruct ts as [|t ts]; [done|]. intros [[_ Hb] _]%Forall_cons H.
  pose proof (holders_in t (t :: ts) ltac:(left) Hb). lia.
Qed.

Lemma alive_spec l : alive l = true <-> 0 < use_count l.
Proof. unfold alive. by rewrite Nat.ltb_lt. Qed.

Lemma use_ok l : alive l = true -> use l = Ok tt.
Proof. unfold use. by intros ->. Qed.

(** A functor that has a pointer keeps the connection. *)
Lemma task_alive t l : t ∈ pending l ++ batch l ++ ran l -> binds_ptr t = true -> alive l = true.
Proof. intros Hin Hb. apply alive_spec. unfold use_count. pose proof (holders_in t _ Hin Hb). lia. Qed.

Lemma user_alive l j u : users l !! j = Some u -> alive l = true.
Proof.
  intros Hj. apply alive_spec. unfold use_count.
  assert (size (users l) <> 0) by (intros E%map_size_empty_inv; rewrite E in Hj; done). lia.
Qed.

(** Before it is gone, something holds the connection. *)
Lemma phase_alive p l : in_phase p l -> p <> PGone -> alive l = true.
Proof.
  intros H Hp. pose proof (ph_todo _ _ H) as Ht. pose proof (ph_entry _ _ H) as He.
  destruct p; simpl in *; try done;
    try (apply alive_spec; unfold use_count; rewrite He; simpl; lia).
  destruct Ht as (pre & post & E & _). apply (task_alive (Own ConnectDestroyed)); [|done].
  assert (Own ConnectDestroyed ∈ todo l) by (rewrite E; set_solver). unfold todo in *. set_solver.
Qed.

(** *** Callbacks stay in the phase *)

Lemma plain_mild ts : Forall plain ts -> Forall mild ts.
Proof. intros H. apply (Forall_impl _ _ _ H). by intros t [? _]. Qed.

Lemma todo_queue t l : todo (queue t l) = todo l ++ [t].
Proof. unfold todo, queue. simpl. by rewrite app_assoc. Qed.

Lemma todo_ok_plain p t ts : p <> PBorn -> plain t -> todo_ok p ts -> todo_ok p (ts ++ [t]).
Proof.
  intros Hp [Hm Hb] H. destruct p; simpl in *; try done;
    try (apply Forall_app; rewrite Forall_singleton; done).
  destruct H as (pre & post & -> & H1 & H2). exists pre, (post ++ [t]).
  rewrite <- app_assoc. split_and!; try done. apply Forall_app. by rewrite Forall_singleton.
Qed.

Lemma queue_plain p t l : p <> PBorn -> plain t -> in_phase p l -> in_phase p (queue t l).
Proof.
  intros Hp Ht []. split; try done. rewrite todo_queue. by apply todo_ok_plain.
Qed.

Lemma queue_mild t l : mild t -> in_phase POpen l -> in_phase POpen (queue t l).
Proof.
  intros Ht []. split; try done. rewrite todo_queue. simpl in *. apply Forall_app. by rewrite Forall_singleton.
Qed.

Lemma open_phase p l : in_phase p l -> open_state (own_state l) = true -> p = POpen.
Proof.
  intros [Ho _ _ _ _ _ _] Hs. destruct p; simpl in Ho; destruct Ho as [Ho _]; try done;
    rewrite Ho in Hs; done.
Qed.

Lemma connected_open s : bool_decide (s = kConnected) = true -> open_state s = true.
Proof. unfold open_state. by intros ->. Qed.

Lemma open_disconnecting l : in_phase POpen l -> in_phase POpen (set_own kDisconnecting l).
Proof. intros []. split; try done. simpl in *. by destruct ph_own0. Qed.

(** A call that passes its test is made to an open connection. *)
Lemma call_phase c l : in_phase POpen l -> in_phase POpen (call_act c l).
Proof.
  intros H. destruct c; simpl; (apply queue_mild; [by split|]); [done|by apply open_disconnecting..].
Qed.

Lemma call_test_open c l : call_test c l = true -> open_state (own_state l) = true.
Proof. destruct c; simpl; [apply connected_open..|done]. Qed.

Lemma tested_call p c l : in_phase p l -> in_phase p (if call_test c l then call_act c l else l).
Proof.
  intros H. destruct (call_test c l) eqn:E; [|done].
  assert (p = POpen) as -> by (by apply (open_phase p l), (call_test_open c)). by apply call_phase.
Qed.

Lemma sendInLoop_phase p m e l : in_phase p l -> p <> PBorn -> in_phase p (sendInLoop m e l).
Proof.
  intros H Hp. unfold sendInLoop. case_decide as Hs; [done|].
  assert (p = POpen) as ->.
  { pose proof (ph_own _ _ H). destruct p; simpl in *; naive_solver. }
  assert (Hq : forall b t l, plain t -> in_phase POpen l -> in_phase POpen (if b : bool then queue t l else l))
    by (intros [] t l' Ht H'; [by apply queue_plain|done]).
  assert (H1 := Hq (completes e) (Own WriteCompleteCallback) l ltac:(done) H).
  assert (H2 := Hq (passes e) (Own (HighWaterMarkCallback (length m))) _ ltac:(done) H1).
  destruct (enables e); [|done]. destruct H2. split; try done. simpl in *. by destruct ph_own0.
Qed.

Lemma add_user_phase p j u l : in_phase p l -> u = Idle -> in_phase p (set_users (<[j := u]> (users l)) l).
Proof. intros [] ->. split; try done. simpl. by apply map_Forall_insert_2. Qed.

Lemma callback_phase p calls l : in_phase p l -> in_phase p (callback calls l).
Proof.
  unfold callback. revert l. induction calls as [|c calls IH]; intros l H; [done|]. simpl. apply IH.
  destruct c; simpl.
  - case_bool_decide as Hc; [|done]. apply sendInLoop_phase; [done|]. intros ->.
    destruct (ph_own _ _ H). congruence.
  - case_bool_decide as Hc; [|done].
    assert (p = POpen) as -> by (apply (open_phase p l H); by rewrite Hc). by apply open_disconnecting.
  - exact (tested_call p CForceClose l H).
  - destruct (users l !! j); [done|]. by apply add_user_phase.
Qed.

(** *** Steps move between phases *)

Definition moves (r : res life) : Prop := exists l' p, r = Ok l' /\ in_phase p l'.

Lemma moves_to p l : in_phase p l -> moves (Ok l).
Proof. intros H. by exists l, p. Qed.

Lemma todo_ok_cons p t ts :
  todo_ok p (t :: ts) ->
  (t = ConnectEstablished /\ p = PBorn /\ ts = [])
  \/ (t = Own ConnectDestroyed /\ p = PDestroying /\ Forall plain ts)
  \/ (mild t /\ p <> PBorn /\ todo_ok p ts /\ (binds_ptr t = false -> p <> PGone)).
Proof.
  destruct p; simpl.
  - intros [= -> ->]. by left.
  - intros [H1 H2]%Forall_cons. by right; right.
  - intros [H1 H2]%Forall_cons. by right; right.
  - intros [H1 H2]%Forall_cons. by right; right.
  - intros (pre & post & E & H1 & H2). right. destruct pre as [|t' pre]; simplify_eq/=; [by left|right].
    apply Forall_cons in H1 as [H0 H1]. split_and!; try done. by exists pre, post.
  - intros [[H1 Hb] H2]%Forall_cons. right; right. split_and!; try done. congruence.
Qed.

Lemma handleClose_moves calls l : in_phase POpen l -> moves (handleClose calls l).
Proof.
  intros H. destruct (ph_own _ _ H) as [Ho _]. unfold handleClose. rewrite Ho. simpl.
  apply (moves_to PClosing). apply callback_phase. by destruct H.
Qed.

(** [removeConnectionInLoop] is called in [handleClose], or as a functor of the
    server's loop. *)
Lemma removeConnectionInLoop_phase p l :
  in_phase p l -> p = PClosing \/ p = PRemoving ->
  exists l', (forall b r, base_pending l + b = 0 -> removeConnectionInLoop (set_base (base_pending l) b r l)
                 = Ok (set_base (base_pending l) b r l'))
    /\ forall b r, base_pending l + b = 0 -> in_phase PDestroying (set_guard false (set_base (base_pending l) b r l')).
Proof.
  intros [H1 H2 H3 H4 H5 H6 H7] Hp. exists (queue (Own ConnectDestroyed) (set_server false (server l) l)).
  unfold removeConnectionInLoop. simpl. rewrite H4, H3. split.
  - intros b r _. by destruct Hp as [->| ->].
  - intros b r Hb. assert (Hm : Forall mild (todo l)) by (by destruct Hp as [->| ->]).
    split; simpl; try done.
    + by destruct Hp as [->| ->].
    + exists (todo l), []. unfold todo. simpl. by rewrite app_assoc.
Qed.

Lemma set_base_id l : set_base (base_pending l) (base_batch l) (base_ran l) l = l.
Proof. by destruct l. Qed.

Lemma close_return_moves same l :
  in_phase PClosing l -> moves (l' ← removeConnection same l; Ok (set_guard false l')).
Proof.
  intros H. unfold removeConnection. rewrite (ph_server _ _ H). simpl. pose proof (ph_base _ _ H) as Hb. simpl in Hb.
  destruct same; simpl.
  - destruct (removeConnectionInLoop_phase _ l H ltac:(by left)) as (l' & E & Hl).
    specialize (E (base_batch l) (base_ran l) Hb). rewrite set_base_id in E. rewrite E. simpl.
    by eapply moves_to, Hl.
  - apply (moves_to PRemoving). destruct H. split; simpl; try done. lia.
Qed.

Lemma base_run_moves l :
  in_phase PRemoving l -> 0 < base_batch l ->
  moves (removeConnectionInLoop (set_base (base_pending l) (pred (base_batch l)) (S (base_ran l)) l)).
Proof.
  intros H Hb. pose proof (ph_base _ _ H) as Hs. simpl in Hs.
  destruct (removeConnectionInLoop_phase _ l H ltac:(by right)) as (l' & E & Hl).
  rewrite E by lia. eapply moves_to. specialize (Hl (pred (base_batch l)) (S (base_ran l)) ltac:(lia)).
  assert (Hg : guardThis l' = false).
  { unfold removeConnectionInLoop in E. simpl in E. rewrite (ph_server _ _ H), (ph_entry _ _ H) in E.
    specialize (E (pred (base_batch l)) 0 ltac:(lia)). injection E as _ _ _ _ _ _ _ Eg _.
    rewrite <- Eg. apply (ph_guard _ _ H). }
  replace (set_base _ _ _ l') with (set_guard false (set_base (base_pending l) (pred (base_batch l)) (S (base_ran l)) l'))
    by (destruct l'; simpl in *; by subst).
  exact Hl.
Qed.

Lemma connectEstablished_moves calls l :
  in_phase PBorn l -> forall ts us, ts ++ us = [] ->
  forall r, moves (connectEstablished calls (set_tasks us ts r l)).
Proof.
  intros [[Hs Hc] _ H3 H4 H5 H6 H7] ts us [-> ->]%app_eq_nil r. unfold connectEstablished. simpl. rewrite Hs. simpl.
  apply (moves_to POpen), callback_phase. split; try done. by constructor.
Qed.

Lemma connectDestroyed_moves calls l :
  in_phase PDestroying l -> forall ts us, Forall plain (ts ++ us) ->
  forall r, moves (connectDestroyed calls (set_tasks us ts r l)).
Proof.
  intros [[Hs Hc] _ H3 H4 H5 H6 H7] ts us Ht r. unfold connectDestroyed. simpl. rewrite Hs. simpl.
  rewrite Hc. simpl. apply (moves_to PGone). by split.
Qed.

(** The functor that runs is still in the vector. *)
Lemma run_task_moves e calls p t ts l :
  in_phase p l -> batch l = t :: ts ->
  moves (run_task t e calls (set_tasks (pending l) ts (ran l ++ [t]) l)).
Proof.
  intros H Hb. unfold run_task.
  set (l1 := set_tasks (pending l) ts (ran l ++ [t]) l).
  assert (Hin : binds_ptr t = true -> alive l1 = true)
    by (apply task_alive; simpl; set_solver).
  pose proof (ph_todo _ _ H) as Ht. unfold todo in Ht. rewrite Hb in Ht. simpl in Ht.
  apply todo_ok_cons in Ht as [(-> & -> & Hn)|[(-> & -> & Hn)|((Hm & Hm') & Hp & Hn & Hg)]].
  - rewrite use_ok by auto. by apply connectEstablished_moves.
  - rewrite use_ok by auto. by apply connectDestroyed_moves.
  - assert (H1 : in_phase p l1) by (destruct H; by split).
    rewrite use_ok; [|destruct (binds_ptr t); [auto|by apply (phase_alive p), Hg]].
    clearbody l1. destruct t as [|[]]; try done; simpl.
    + by eapply moves_to, sendInLoop_phase.
    + by eapply moves_to.
    + destruct (open_state (own_state l1)) eqn:Ho; [|by eapply moves_to].
      pose proof (open_phase p l1 H1 Ho) as ->. by apply handleClose_moves.
    + by eapply moves_to, callback_phase.
    + by eapply moves_to, callback_phase.
Qed.

Lemma watched_open p l : in_phase p l -> presence_ l = Watched -> p = POpen.
Proof. intros [Ho _ _ _ _ _ _] Hw. destruct p; simpl in Ho; destruct Ho; congruence. Qed.

Lemma event_moves p l (r : res life) (k : bool) :
  in_phase p l -> bool_decide (presence_ l = Watched) && k = true ->
  (in_phase POpen l -> moves r) -> moves (use l;; r).
Proof.
  intros H [Hw _]%andb_true_iff Hr. apply bool_decide_eq_true in Hw. pose proof (watched_open p l H Hw) as ->.
  rewrite use_ok by (by apply (phase_alive POpen)). auto.
Qed.

Lemma tasks_phase p l p1 b1 r1 :
  in_phase p l -> b1 ++ p1 = todo l -> in_phase p (set_tasks p1 b1 r1 l).
Proof. intros [] E. split; try done. unfold todo. simpl. by rewrite E. Qed.

Lemma base_phase p l p1 b1 r1 :
  in_phase p l -> p1 + b1 = base_pending l + base_batch l -> in_phase p (set_base p1 b1 r1 l).
Proof. intros [] E. split; try done. simpl. by rewrite E. Qed.

Lemma run_op_moves same op p l :
  in_phase p l -> careful op = true -> enabled same op l = true -> moves (run_op same op l).
Proof.
  intros H Hc He. destruct op; try done; simpl in He |- *.
  - eapply event_moves; [done..|]. intros H'. by eapply moves_to, callback_phase.
  - eapply event_moves; [done..|]. intros H'. destruct complete; apply (moves_to POpen); [|done]. by apply queue_plain.
  - eapply event_moves; [done..|]. apply handleClose_moves.
  - apply close_return_moves. pose proof (ph_guard _ _ H) as Hg. rewrite He in Hg.
    symmetry in Hg. by apply bool_decide_eq_true in Hg as ->.
  - apply andb_true_iff in He as [He _]. apply bool_decide_eq_true, nil_length_inv, app_eq_nil in He as [Hb _].
    eapply moves_to, tasks_phase; [done|]. unfold todo. by rewrite Hb, app_nil_r.
  - destruct (batch l) as [|t ts] eqn:Hb; [done|]. by eapply run_task_moves.
  - apply andb_true_iff in He as [He _]. apply Nat.eqb_eq, nil_length_inv in He.
    eapply moves_to, tasks_phase; [done|]. unfold todo. by rewrite He.
  - apply andb_true_iff in He as [He%Nat.eqb_eq _]. eapply moves_to, base_phase; [done|lia].
  - apply Nat.ltb_lt in He. assert (p = PRemoving) as ->; [|by apply base_run_moves].
    pose proof (ph_base _ _ H) as Hb. case_bool_decide; [done|]. simpl in Hb. lia.
  - eapply moves_to, base_phase; done.
  - by eapply moves_to, add_user_phase.
  - eapply moves_to. destruct H. split; try done. by apply map_Forall_delete.
  - destruct (users l !! j) as [u|] eqn:Hj; [|done].
    rewrite use_ok by (by eapply user_alive). by eapply moves_to, tested_call.
Qed.

(** The destructor finds what it asserts. *)
Lemma exec_moves same op p l :
  in_phase p l -> careful op = true -> enabled same op l = true ->
  exists l' p', exec same op l = Ok l' /\ in_phase p' l'.
Proof.
  intros H Hc He. destruct (run_op_moves same op p l H Hc He) as (l' & p' & E & H').
  exists l', p'. split; [|done]. unfold exec. rewrite E. simpl.
  destruct (alive l && negb (alive l')) eqn:Ed; [|done].
  apply andb_true_iff in Ed as [_ Ed%negb_true_iff].
  destruct (decide (p' = PGone)) as [->|Hp]; [|by rewrite (phase_alive p' l' H' Hp) in Ed].
  destruct (ph_own _ _ H') as [Hs Ha]. unfold delete_TcpConnection. rewrite Hs, Ha. simpl. by rewrite orb_true_r.
Qed.

Lemma newConnection_phase same calls : moves (newConnection same calls).
Proof.
  destruct same; unfold newConnection.
  - unfold connectEstablished. simpl. apply (moves_to POpen), callback_phase.
    split; try done. by constructor.
  - apply (moves_to PBorn). by split.
Qed.

Lemma reach_phase same l : life_reach same l -> exists p, in_phase p l.
Proof.
  induction 1 as [calls l E|op l l' _ [p IH] Hc He E].
  - destruct (newConnection_phase same calls) as (l' & p & E' & H). exists p. congruence.
  - destruct (exec_moves same op p l IH Hc He) as (l2 & p' & E' & H). exists p'. congruence.
Qed.

(** *** The end *)

Lemma holders_app_nil ts us vs :
  holders (ts ++ us ++ vs) = 0 -> Forall plain (us ++ ts) -> ts = [] /\ us = [] /\ holders vs = 0.
Proof.
  rewrite !holders_app. intros E [Hu Ht]%Forall_app.
  split_and!; [apply holders_plain; [done|lia]|apply holders_plain; [done|lia]|lia].
Qed.

(** Nothing refers to a connection that was deleted. *)
Definition forgotten (l : life) : Prop :=
  own_state l = kDisconnected /\ presence_ l = Absent /\ entry l = false
  /\ pending l = [] /\ batch l = [] /\ base_pending l = 0 /\ base_batch l = 0
  /\ guardThis l = false /\ users l = ∅.

Lemma dead_forgotten p l : in_phase p l -> alive l = false -> forgotten l.
Proof.
  intros H Ha. destruct (decide (p = PGone)) as [->|Hp]; [|by rewrite (phase_alive p l H Hp) in Ha].
  apply Nat.ltb_ge in Ha. unfold use_count in Ha. destruct H as [[Hs Hc] Ht He _ Hb Hg _]. simpl in *.
  destruct (holders_app_nil (pending l) (batch l) (ran l)) as (Hp & Hba & _); [lia|done|].
  unfold forgotten. split_and!; try done; [lia|lia|]. apply map_size_empty_inv. lia.
Qed.

(** It stays so: it is deleted once. *)
Lemma dead_stays same op l l' :
  forgotten l -> alive l = false -> enabled same op l = true -> careful op = true ->
  run_op same op l = Ok l' -> alive l' = false.
Proof.
  intros (Hs & Hc & He & Hp & Hb & Hbp & Hbb & Hg & Hu) Ha Hen Hop E.
  apply Nat.ltb_ge in Ha. unfold use_count in Ha.
  rewrite He, Hp, Hb, Hbp, Hbb, Hg, Hu in Ha. unfold alive. apply Nat.ltb_ge.
  destruct op; try done; simpl in Hen, E;
    rewrite ?Hc, ?Hg, ?Hb, ?Hbb, ?Hu, ?lookup_empty in Hen; simpl in Hen; try done;
    injection E as <-; unfold use_count; simpl; rewrite ?He, ?Hp, ?Hb, ?Hbp, ?Hbb, ?Hg, ?Hu; simpl in *;
    rewrite ?Nat.add_0_r in *; lia.
Qed.

Lemma dead_remains same op p l l' :
  in_phase p l -> careful op = true -> alive l = false -> enabled same op l = true ->
  exec same op l = Ok l' -> alive l' = false.
Proof.
  intros H Hc Ha He E. unfold exec in E. inv_res. simplify_eq.
  eapply dead_stays; [by eapply dead_forgotten|done..].
Qed.

Lemma quiet_dead p l :
  in_phase p l -> quiet l = true -> users l = ∅ -> own_state l = kDisconnected -> alive l = false.
Proof.
  intros [Ho Ht He Hs Hb Hg Hm] Hq Hu Hd. unfold quiet in Hq.
  apply andb_true_iff in Hq as [[Hl%Nat.eqb_eq Hn%Nat.eqb_eq]%andb_true_iff Hgq%negb_true_iff].
  apply nil_length_inv in Hl. pose proof Hl as [Hp [Hba Hr]%app_eq_nil]%app_eq_nil.
  apply Nat.ltb_ge. unfold use_count. rewrite Hl, Hn, Hu, Hgq.
  assert (entry l = false) as ->; [|done].
  unfold todo in Ht. rewrite Hba, Hp in Ht. rewrite He.
  destruct p; simpl in *; try done; try lia.
  - destruct Ho as [Ho _]. by rewrite Hd in Ho.
  - congruence.
Qed.

(** Running a list of steps, each of which must be enabled. *)
Fixpoint run_life (same : bool) (ops : list life_op) (l : life) : option (res life) :=
  match ops with
  | [] => Some (Ok l)
  | op :: ops =>
      if enabled same op l then
        match exec same op l with
        | Ok l' => run_life same ops l'
        | Fault e => match ops with [] => Some (Fault e) | _ => None end
        end
      else None
  end.

Lemma run_life_reach same ops l l' :
  life_reach same l -> forallb careful ops = true -> run_life same ops l = Some (Ok l') -> life_reach same l'.
Proof.
  revert l. induction ops as [|op ops IH]; intros l Hl Hc E; simpl in *; [by simplify_eq|].
  apply andb_true_iff in Hc as [Hc Hcs]. destruct (enabled same op l) eqn:He; [|done].
  destruct (exec same op l) as [l1|e] eqn:Ex; [|by destruct ops].
  apply (IH l1); [|done..]. by eapply life_more.
Qed.

(** ** Theorems *)

(** C4: the pointers are enough when the server stays and nothing comes between
    a call's test of the state and what follows: however the two loops, events,
    callbacks and user threads interleave, no step uses a deleted connection or
    fails an assertion, the destructor included; when the connection is deleted
    it is closed and out of its poller, no map, queue or thread refers to it,
    and it is deleted once; and once it is closed, the loops have nothing left
    to do and the threads have dropped their pointers, it has been deleted. *)
Theorem connection_lifetime same l :
  life_reach same l ->
  (forall op, careful op = true -> enabled same op l = true -> exists l', exec same op l = Ok l')
  /\ (alive l = false ->
      forgotten l
      /\ forall op l', careful op = true -> enabled same op l = true -> exec same op l = Ok l' ->
           alive l' = false)
  /\ (quiet l = true -> users l = ∅ -> own_state l = kDisconnected -> alive l = false).
Proof.
  intros [p H]%reach_phase. split_and!.
  - intros op Hc He. destruct (exec_moves same op p l H Hc He) as (l' & _ & E & _). by exists l'.
  - intros Ha. split; [by eapply dead_forgotten|]. intros op l' Hc He. by eapply dead_remains.
  - by eapply quiet_dead.
Qed.

Definition no_effect : send_effect := mkSendEffect false false false.

(** A connection from its first event to its end: a message is handed to a
    thread, which sends, while the peer closes. *)
Definition whole_life : list life_op :=
  [IoSwap; IoRun no_effect []; IoEnd; IoRead [LCopy 1; LSend (mkSendEffect true false false)];
   UCall 1 (CSend (str "hello")); IoClose []; UCall 1 CForceClose; IoCloseReturn; UCopy 1 2; UDrop 1;
   BaseSwap; BaseRun; IoSwap; IoRun no_effect []; IoRun no_effect []; BaseEnd;
   IoRun no_effect []; IoEnd].

Definition born : life := mkLife kConnecting Absent true true [ConnectEstablished] [] [] 0 0 0 false ∅.

Lemma born_new : newConnection false [] = Ok born.
Proof. reflexivity. Qed.

Definition end_of (o : option (res life)) : life := match o with Some (Ok l) => l | _ => born end.

(** One pointer is left, in thread 2; when it is dropped the connection is
    deleted. *)
Lemma connection_lifetime_witness :
  let l := end_of (run_life false whole_life born) in
  let l' := end_of (run_life false (whole_life ++ [UDrop 2]) born) in
  alive l = true /\ use_count l = 1
  /\ (forall op, careful op = true -> enabled false op l = true -> exists l1, exec false op l = Ok l1)
  /\ forgotten l' /\ alive l' = false.
Proof.
  assert (H : life_reach false (end_of (run_life false whole_life born))).
  { apply (run_life_reach false whole_life born); [by eapply life_start, born_new|vm_compute; reflexivity..]. }
  assert (H' : life_reach false (end_of (run_life false (whole_life ++ [UDrop 2]) born))).
  { apply (run_life_reach false (whole_life ++ [UDrop 2]) born);
      [by eapply life_start, born_new|vm_compute; reflexivity..]. }
  cbv zeta. split_and!.
  - vm_compute. reflexivity.
  - vm_compute. reflexivity.
  - apply (connection_lifetime false _ H).
  - apply (connection_lifetime false _ H'). vm_compute. reflexivity.
  - vm_compute. reflexivity.
Defined.

(** *** Calls that are interrupted *)

Definition opened : list life_op := [IoSwap; IoRun no_effect []; IoEnd; IoRead [LCopy 1]].

Definition closed : list life_op :=
  [IoClose []; IoCloseReturn; BaseSwap; BaseRun; BaseEnd; IoSwap; IoRun no_effect []; IoEnd].

(** The connection is closed between the two halves of a call. *)
Definition late_call (c : ucall) : list life_op := opened ++ [UTest 1 c] ++ closed ++ [UAct 1].

(** The server is deleted, and the connection is still open while its loop
    works on the functor that ends it. *)
Definition delete_and_send : list life_op :=
  opened ++ [BaseDelete []; IoSwap; UCall 1 (CSend []); IoRun no_effect []; IoEnd; UDrop 1; IoSwap; IoRun no_effect []].

(** what [careful] leaves out goes wrong. When the connection is closed
    between the test and the rest of a call from another thread, the functor of
    [send] runs on a deleted connection; [shutdown] leaves a state that the
    destructor's assertion rejects; [forceClose], which holds a pointer, closes
    the connection a second time, and the server fails to erase it. When the
    server is deleted, a [send] from another thread that nothing interrupts
    runs on a deleted connection as well. *)
Theorem lifetime_races :
  run_life false (late_call (CSend []) ++ [UDrop 1; IoSwap; IoRun no_effect []]) born = Some (Fault NullDeref)
  /\ run_life false (late_call CShutdown ++ [UDrop 1]) born = Some (Fault AssertFailed)
  /\ run_life false (late_call CForceClose ++ [UDrop 1; IoSwap; IoRun no_effect []; IoCloseReturn; BaseSwap; BaseRun]) born
     = Some (Fault AssertFailed)
  /\ run_life false delete_and_send born = Some (Fault NullDeref).
Proof. split_and!; vm_compute; reflexivity. Qed.
