(* ===== verification/TimerService.v ===== *)
(** * Timers in time: [src/msmuduo/net/TimerQueue.cpp] with its surroundings

    The timer queue together with what wakes it: the clock, the one timer of
    the operating system that the queue arms, the messages that timer sends
    ([TimerRoutine], or the expirations of the Linux timer descriptor), and the
    loop that reads them. The queue's own functions are those of TimerQueue. *)
From S2P Require Import Prelude.
From S2P Require Import Endian.
From S2P Require Import StdContainers.
From S2P Require Import Format.
From S2P Require Import Timestamp.
From S2P Require Import Atomic.
From S2P Require Import TimerQueue.
From S2P Require Import TimerQueueFacts.
From Stdlib Require Import SpecFloat.

Section TimerService.
Context `{Platform} {Cb : Type}.
Implicit Types (q : TimerQueue Cb).

(** The allocator; what a callback does, which may depend on the time. *)
Context (alloc : gmap Z (Timer Cb) -> option Z).
Context (user : Timestamp -> Cb -> TimerQueue Cb -> list (timer_cmd Cb)).

(** [addTimer] and [cancel] in another thread: [new Timer], and a functor with
    the bare pointer. *)
Inductive timer_functor := AddTimer (timer : Z) | CancelTimer (id : TimerId).

Definition run_functor (f : timer_functor) (os : os_answer) (q : TimerQueue Cb) : res (TimerQueue Cb) :=
  match f with
  | AddTimer timer => addTimerInLoop timer os q
  | CancelTimer id => cancelInLoop id q
  end.

(** The timers that wait for insertion. *)
Definition waiting (fs : list timer_functor) : list Z :=
  omap (fun f => match f with AddTimer a => Some a | CancelTimer _ => None end) fs.

(** [s_armed]: the time at which the timer that was armed last goes off, if it
    has not. [s_messages]: what waits at the channel of the queue.
    [s_functors]: what other threads queued in the loop. [s_runs]: the timers
    run so far, and when. *)
Record service := mkService {
  s_queue : TimerQueue Cb;
  s_now : Timestamp;
  s_armed : option Z;
  s_messages : nat;
  s_functors : list timer_functor;
  s_runs : list (Z * Timestamp)
}.

Definition new_service (now : Timestamp) : service := mkService new_TimerQueue now None 0 [] [].

(** An operation starts with no armed timers on record, so that those on record
    afterwards are its own; the last one counts, [hTimer_] or the descriptor. *)
Definition forget_os q : TimerQueue Cb := set_os (hTimer_ q) ∅ None q.

Definition armed_by (now : Timestamp) q : option Z :=
  if win then (fun due => (now + due * 1000)%Z) <$> os_timers q !! hTimer_ q
  else (fun '(s, ns) => (now + s * kMicroSecondsPerSecond + ns / 1000)%Z) <$> timerfd_ q.

(** Setting the Linux descriptor clears its expirations. *)
Definition settle q (s : service) : service :=
  match armed_by (s_now s) q with
  | Some t => mkService q (s_now s) (Some t) (if win then s_messages s else 0) (s_functors s) (s_runs s)
  | None => mkService q (s_now s) (s_armed s) (s_messages s) (s_functors s) (s_runs s)
  end.

Definition set_functors (fs : list timer_functor) (s : service) : service :=
  mkService (s_queue s) (s_now s) (s_armed s) (s_messages s) fs (s_runs s).


(** [TimerRoutine] writes a message; the descriptor just becomes readable. *)
Definition TimerRoutine (s : service) : service :=
  mkService (s_queue s) (s_now s) None (if win then S (s_messages s) else 1) (s_functors s) (s_runs s).

(** [readTimerfd] takes one message, or all expirations. *)
Definition readTimerfd (s : service) : service :=
  mkService (s_queue s) (s_now s) (s_armed s) (if win then pred (s_messages s) else 0) (s_functors s) (s_runs s).

Inductive service_op :=
  | Elapse (microseconds : Z)
  | GoOff                              (* the armed timer, early or late *)
  | StaleMessage                       (* of a timer that was to be deleted *)
  | Command (c : timer_cmd Cb)         (* addTimer or cancel in the loop *)
  | QueueAdd (cb : Cb) (when : Timestamp) (interval : double) (* addTimer in another thread *)
  | QueueCancel (id : TimerId)         (* cancel in another thread *)
  | RunFunctor (os : os_answer)        (* the loop runs the next functor *)
  | Read (os : os_answer).             (* the loop calls handleRead *)

Definition service_step (op : service_op) (s : service) : res service :=
  match op with
  | Elapse d => Ok (mkService (s_queue s) (s_now s + d) (s_armed s) (s_messages s) (s_functors s) (s_runs s))
  | GoOff => Ok (match s_armed s with Some _ => TimerRoutine s | None => s end)
  | StaleMessage => Ok (mkService (s_queue s) (s_now s) (s_armed s) (S (s_messages s)) (s_functors s) (s_runs s))
  | Command c => q ← exec_cmd alloc c (forget_os (s_queue s)); Ok (settle q s)
  | QueueAdd cb when interval =>
      '(id, q) ← alloc_timer (alloc (heap (s_queue s))) cb when interval (s_queue s);
      Ok (mkService q (s_now s) (s_armed s) (s_messages s) (s_functors s ++ [AddTimer (timer_ id)]) (s_runs s))
  | QueueCancel id => Ok (set_functors (s_functors s ++ [CancelTimer id]) s)
  | RunFunctor os =>
      match s_functors s with
      | [] => Ok s
      | f :: fs => q ← run_functor f os (forget_os (s_queue s)); Ok (settle q (set_functors fs s))
      end
  | Read os =>
      let s := readTimerfd s in
      '(q, log) ← handleRead alloc (user (s_now s)) (s_now s) os (forget_os (s_queue s));
      let s := settle q s in
      Ok (mkService (s_queue s) (s_now s) (s_armed s) (s_messages s) (s_functors s)
            (s_runs s ++ ((fun n => (n, s_now s)) <$> log)))
  end.

(** The clock is read at the time of the operation, and the system can arm a
    timer. *)
Definition os_ok (now : Timestamp) (os : os_answer) : Prop := os_now os = now /\ is_Some (os_create os).

Definition cmd_ok (now : Timestamp) (c : timer_cmd Cb) : Prop :=
  match c with CmdAdd _ when _ os => valid when = true /\ os_ok now os | CmdCancel _ => True end.

Definition service_enabled (op : service_op) (s : service) : Prop :=
  match op with
  | Elapse d => (0 <= d)%Z
  | GoOff => True
  | StaleMessage => win = true
  | Command c => cmd_ok (s_now s) c
  | QueueAdd _ when _ => valid when = true
  | QueueCancel _ => True
  | RunFunctor os | Read os => os_ok (s_now s) os
  end.

#[export] Instance os_ok_dec now os : Decision (os_ok now os).
Proof. unfold os_ok. apply _. Defined.

#[export] Instance cmd_ok_dec now c : Decision (cmd_ok now c).
Proof. destruct c; simpl; apply _. Defined.

#[export] Instance service_enabled_dec op s : Decision (service_enabled op s).
Proof. destruct op; simpl; apply _. Defined.

Inductive service_reach (s0 : service) : service -> Prop :=
  | service_init : service_reach s0 s0
  | service_next s op s' : service_reach s0 s -> service_enabled op s -> service_step op s = Ok s' ->
      service_reach s0 s'.
End TimerService.
Arguments service : clear implicits.
Arguments service_op : clear implicits.

(** ** Time does not run backwards *)

Lemma trunc_positive m e l z : trunc (binary_round_aux 53 1024 false m e l) = Some z -> (0 <= z)%Z.
Proof.
  unfold binary_round_aux. repeat (case_match; try discriminate); cbn [trunc]; intros [= <-]; try done.
  case_match; [apply Z.mul_nonneg_nonneg; [done|apply Z.pow_nonneg; lia]|].
  apply Z.div_pos; [done|]. apply Z.pow_pos_nonneg; bool_props; lia.
Qed.

Lemma double_mul_positive x z :
  double_gt x double_zero = true -> trunc (double_mul x (double_of_Z kMicroSecondsPerSecond)) = Some z -> (0 <= z)%Z.
Proof.
  destruct x as [[]|[]| |[] m e]; intros Hx; try discriminate Hx; try (by intros [=]).
  unfold double_mul. change (double_of_Z kMicroSecondsPerSecond) with (S754_finite false 8589934592000000 (-33)).
  apply trunc_positive.
Qed.

(** A positive interval does not lead back. *)
Lemma addTime_later t s r : double_gt s double_zero = true -> addTime t s = Ok r -> (t <= r)%Z.
Proof.
  intros Hs (d & Hd & ->)%addTime_ok. unfold int64_of_double in Hd. inv_res.
  apply checked64_ok in Hd as [-> _]. pose proof (double_mul_positive _ _ Hs Ha). lia.
Qed.

Section Facts.
Context `{Platform} {Cb : Type}.
Implicit Types (q : TimerQueue Cb).
Context (alloc : gmap Z (Timer Cb) -> option Z) (Halloc : alloc_ok alloc).
Context (user : Timestamp -> Cb -> TimerQueue Cb -> list (timer_cmd Cb)).
Context (Huser : forall now cb q c, c ∈ user now cb q -> cmd_ok now c).

(** ** What an operation arms *)

(** [t] is early enough for what [q] holds. *)
Definition in_time (now : Timestamp) (t : Z) q : Prop :=
  forall w a, (w, a) ∈ timers_ q -> (t <= Z.max w (now + 100))%Z.

(** From [q] to [q'] either nothing was armed and no timer came before those
    that were there, or what was armed last is in time. *)
Definition covers (now : Timestamp) q q' : Prop :=
  (armed_by now q' = armed_by now q
     /\ forall w' a', (w', a') ∈ timers_ q' -> exists w a, (w, a) ∈ timers_ q /\ (w <= w')%Z)
  \/ exists t, armed_by now q' = Some t /\ in_time now t q'.

Lemma covers_refl now q : covers now q q.
Proof. left. split; [done|]. intros w a Hin. by exists w, a. Qed.

Lemma covers_trans now q1 q2 q3 : covers now q1 q2 -> covers now q2 q3 -> covers now q1 q3.
Proof.
  intros H12 [[E3 H3]|H3]; [|by right]. destruct H12 as [[E2 H2]|(t & E2 & H2)].
  - left. split; [congruence|]. intros w a (w1 & a1 & Hin & Hle)%H3.
    destruct (H2 w1 a1 Hin) as (w2 & a2 & ? & ?). exists w2, a2. split; [done|lia].
  - right. exists t. split; [congruence|]. intros w a (w1 & a1 & Hin & Hle)%H3.
    specialize (H2 w1 a1 Hin). lia.
Qed.

Lemma covers_frame now q q' :
  timers_ q' = timers_ q -> hTimer_ q' = hTimer_ q -> os_timers q' = os_timers q -> timerfd_ q' = timerfd_ q ->
  covers now q q'.
Proof. intros E1 E2 E3 E4. left. unfold armed_by. rewrite E1, E2, E3, E4. split; [done|]. intros w a Hin. by exists w, a. Qed.

Lemma resetTimer_arms e os q :
  is_Some (os_create os) -> exists t, armed_by (os_now os) (resetTimer e os q) = Some t
    /\ (t <= Z.max e (os_now os + 100))%Z.
Proof.
  intros [h Hc]. unfold armed_by, resetTimer, resetTimerWin, resetTimerfd. destruct win.
  - rewrite Hc. destruct (if (hTimer_ q =? 0)%Z then _ else _) as [h' o]. cbn [hTimer_ os_timers set_os].
    rewrite lookup_insert_eq. eexists. split; [done|]. unfold dueTime.
    assert (Hd : (wrapU 32 (delay e (os_now os)) <= delay e (os_now os))%Z)
      by (apply Z.mod_le; [unfold delay; case_match; bool_props; lia|done]).
    pose proof (Z.mul_div_le (wrapU 32 (delay e (os_now os))) 1000). revert Hd H0. unfold delay. case_match; bool_props; lia.
  - cbn [timerfd_ set_os]. eexists. split; [done|]. unfold howMuchTimeFromNow.
    set (d := delay e (os_now os)). assert (Hd : (0 <= d)%Z) by (unfold d, delay; case_match; bool_props; lia).
    rewrite Z.div_mul by done. pose proof (Z.quot_rem' d kMicroSecondsPerSecond).
    assert ((d = e - os_now os \/ d = 100)%Z) by (unfold d, delay; case_match; bool_props; lia). lia.
Qed.

(** ** Timers that are scheduled *)

Definition timer_fine (t : Timer Cb) : Prop :=
  (0 < expiration_ t)%Z /\ (repeat_ t = true -> double_gt (interval_ t) double_zero = true).

Definition heap_fine q : Prop := forall a t, heap q !! a = Some t -> timer_fine t.

Lemma first_least D q w a l w' a' :
  tq_inv D q -> timers_ q = (w, a) :: l -> (w', a') ∈ timers_ q -> (w <= w')%Z.
Proof.
  intros Hi E. pose proof (ti_sorted _ _ Hi) as Hs. rewrite E in *.
  intros [[= -> ->]|Hin]%elem_of_cons; [done|].
  apply sorted_cons in Hs as [_ Hf]. specialize (Hf _ Hin). simpl in Hf.
  destruct (Z.ltb_spec w w'); [lia|]. simpl in Hf. bool_props.
  destruct (Z.ltb_spec w' w); simpl in *; [done | lia].
Qed.

Lemma addTimerInLoop_covers a t os D q q' :
  tq_inv (a :: D) q -> heap q !! a = Some t -> is_Some (os_create os) ->
  addTimerInLoop a os q = Ok q' -> covers (os_now os) q q' /\ heap q' = heap q.
Proof.
  intros Hi Ht Hos. unfold addTimerInLoop, insert_timer. intros E. inv_res.
  destruct a0 as [b q1]. inv_res. rewrite Ht in Ha1. injection Ha1 as <-.
  destruct (set_insert (expiration_ t, a) (timers_ q)) as [l ins] eqn:Hins. inv_res.
  assert (Hl : forall x, x ∈ l <-> x = (expiration_ t, a) \/ x ∈ timers_ q)
    by (intros x; by rewrite <- elem_of_set_insert, Hins).
  set (q1 := set_timers _ _ q) in *.
  destruct (match timers_ q with [] => true | (first, _) :: _ => Timestamp_lt (expiration_ t) first end) eqn:Hb.
  - change (heap q1 !! a) with (heap q !! a) in E. rewrite Ht in E. cbn [mbind res_bind get_] in E. injection E as <-.
    destruct (resetTimer_frame (expiration_ t) os q1) as (E1 & E2 & _). split; [|by rewrite E1].
    right. destruct (resetTimer_arms (expiration_ t) os q1 Hos) as (d & Hd & Hle). exists d. split; [done|].
    intros w b. rewrite E2. intros [[= -> ->]|Hin]%Hl; [done|].
    destruct (timers_ q) as [|[first b0] l0] eqn:Eq; [by apply elem_of_nil in Hin|].
    rewrite <- Eq in Hin. pose proof (first_least _ _ _ _ _ _ _ Hi Eq Hin). unfold Timestamp_lt in Hb. bool_props. lia.
  - inv_res. split; [|done]. left. split; [done|]. intros w b [[= -> ->]|Hin]%Hl; [|by exists w, b].
    destruct (timers_ q) as [|[first b0] l0]; [done|]. exists first, b0. unfold Timestamp_lt in Hb. bool_props.
    split; [set_solver|lia].
Qed.

Lemma cancelInLoop_covers now id q q' :
  cancelInLoop id q = Ok q' -> covers now q q' /\ (heap_fine q -> heap_fine q').
Proof.
  unfold cancelInLoop. intros E. inv_res. destruct (bool_decide (_ ∈ activeTimers_ q)).
  - inv_res. destruct (set_erase _ _) as [l n] eqn:Es. inv_res. split.
    + left. split; [done|]. intros w a' Hin. cbn [timers_ set_timers set_heap] in Hin. exists w, a'. split; [|done].
      apply (set_erase_subset (expiration_ a0, timer_ id)). by rewrite Es.
    + intros Hf a' t' Ht. cbn [heap set_timers set_heap] in Ht. apply lookup_delete_Some in Ht as [_ Ht]. by apply (Hf a').
  - destruct (callingExpiredTimers_ q); inv_res; (split; [by apply covers_frame|done]).
Qed.

(** A new timer is fine, and is not scheduled yet. *)
Lemma alloc_timer_fine o cb when i q id q' :
  valid when = true -> heap_fine q -> alloc_timer o cb when i q = Ok (id, q') ->
  heap_fine q' /\ timers_ q' = timers_ q /\ is_Some (heap q' !! timer_ id)
  /\ forall now, covers now q q'.
Proof.
  intros Hv Hf E. unfold alloc_timer, new_Timer in E. destruct (incrementAndGet (s_numCreated_ q)) as [n c].
  destruct o as [a|]; [|done]. cbn [mbind res_bind get_] in E. injection E as <- <-. split_and!; [|done| |].
  - intros b u Hu. cbn [heap set_numCreated set_heap] in Hu. apply lookup_insert_Some in Hu as [[_ <-]|[_ Hu]]; [|by apply (Hf b)].
    split; [|done]. unfold valid in Hv. by apply Z.ltb_lt in Hv.
  - exists (mkTimer cb when i (double_gt i double_zero) n). apply lookup_insert_eq.
  - intros now. by apply covers_frame.
Qed.

Lemma exec_cmd_covers now c D q q' :
  tq_inv D q -> heap_fine q -> cmd_ok now c -> exec_cmd alloc c q = Ok q' -> covers now q q' /\ heap_fine q'.
Proof.
  intros Hi Hf Hc. destruct c as [cb when i os|id]; cbn [exec_cmd cmd_ok] in *.
  - destruct Hc as [Hv [Hn Hos]]. intros E. inv_res. destruct a as [id q1].
    destruct (alloc (heap q)) as [a|] eqn:Ea; [|done]. destruct (Halloc _ _ Ea) as [Hfree Hr].
    destruct (wp_ok _ _ _ _ (alloc_timer_inv (fun _ => True) a cb when i D q Hi Hfree Hr) Ha)
      as (Hid & Hi1 & _). cbn [fst snd] in *. subst a.
    destruct (alloc_timer_fine _ _ _ _ _ _ _ Hv Hf Ha) as (Hf1 & _ & [t Ht] & Hcov1).
    destruct (addTimerInLoop_covers _ _ os D _ _ Hi1 Ht Hos E) as [Hcov Eh]. rewrite Hn in Hcov. split.
    + by apply (covers_trans _ _ q1).
    + intros b u. rewrite Eh. apply Hf1.
  - intros E. destruct (cancelInLoop_covers now _ _ _ E) as [? Hf']. auto.
Qed.

Lemma exec_cmds_covers now cs D q q' :
  tq_inv D q -> heap_fine q -> (forall c, c ∈ cs -> cmd_ok now c) -> exec_cmds alloc cs q = Ok q' ->
  covers now q q' /\ heap_fine q'.
Proof.
  revert q; induction cs as [|c cs IH]; intros q Hi Hf Hc; cbn [exec_cmds]; intros E; inv_res; [by split; [apply covers_refl|]|].
  destruct (exec_cmd_covers now c D q a Hi Hf (Hc c (list_elem_of_here _ _)) Ha) as [Hcov Hf'].
  pose proof (wp_ok _ _ _ _ (exec_cmd_inv alloc Halloc c D q Hi) Ha) as (Hi' & _).
  destruct (IH a Hi' Hf') as [Hcov' Hf'']; [by intros c' Hin; apply Hc; right|done|].
  split; [|done]. by apply (covers_trans _ _ a).
Qed.

(** Callbacks leave only timers that are fine. *)
Lemma run_expired_fine now E D q log q' log' :
  tq_inv D q -> heap_fine q -> run_expired alloc (user now) E q log = Ok (q', log') -> heap_fine q'.
Proof.
  revert q log; induction E as [|[w a] E IH]; intros q log Hi Hf; cbn [run_expired]; intros Er; inv_res; [done|].
  destruct (exec_cmds_covers now _ D q _ Hi Hf (fun c => Huser now _ q c) Ha0) as [_ Hf'].
  pose proof (wp_ok _ _ _ _ (exec_cmds_inv alloc Halloc _ D q Hi) Ha0) as (Hi1 & _). by apply (IH _ _ Hi1 Hf' Er).
Qed.

Lemma reset_fine now E os D q q' :
  tq_inv (E.*2 ++ D) q -> heap_fine q -> (0 < now)%Z -> reset E now os q = Ok q' -> heap_fine q'.
Proof.
  intros Hi Hf Hnow Er. destruct (wp_ok _ _ _ _ (reset_inv E now os D q Hi) Er) as (_ & _ & _ & Hout & Hin & _).
  intros a t Ht. destruct (decide (a ∈ E.*2)) as [HE|HE]; [|rewrite Hout in Ht by done; by apply (Hf a)].
  apply list_elem_of_fmap in HE as ([w b] & -> & HE). simpl in Ht.
  destruct (ti_live _ _ Hi b) as [u Hu]; [apply elem_of_app; left; apply list_elem_of_fmap; by exists (w, b)|].
  specialize (Hin w b u HE Hu). unfold after_expiry in Hin. rewrite Ht in Hin.
  destruct (repeat_ u && _) eqn:Hrep; [|done]. destruct Hin as (e & He & [= ->]). apply andb_true_iff in Hrep as [Hrep _].
  destruct (Hf b u Hu) as [_ Hpos]. specialize (Hpos Hrep). split; [|done]. cbn [expiration_].
  pose proof (addTime_later _ _ _ Hpos He). lia.
Qed.

(** The end of an expiry arms the timer unless none is left. *)
Lemma reset_arms now E os D q q' :
  tq_inv (E.*2 ++ D) q -> heap_fine q' -> is_Some (os_create os) -> reset E now os q = Ok q' ->
  timers_ q' = [] \/ exists t, armed_by (os_now os) q' = Some t /\ in_time (os_now os) t q'.
Proof.
  intros Hi Hf Hos Er. pose proof (wp_ok _ _ _ _ (reset_inv E now os D q Hi) Er) as (Hi' & _).
  unfold reset in Er. inv_res. rename a into q1.
  destruct (timers_ q1) as [|[w b] l] eqn:Et; inv_res; cbn in Er; [by inv_res; left|].
  right. assert (Hw : heap q' = heap q1 /\ timers_ q' = timers_ q1).
  { destruct (valid _); inv_res; [|done]. by destruct (resetTimer_frame (expiration_ a) os q1) as (? & ? & _). }
  destruct Hw as [Eh Etq]. destruct (proj1 (ti_timers _ _ Hi' w b)) as (t & Ht & Hexp & _); [rewrite Etq, Et; left|].
  rewrite Eh, Ha1 in Ht. injection Ht as ->. rewrite Hexp in *.
  assert (Hpos : (0 < w)%Z) by (rewrite <- Hexp; apply (Hf b); by rewrite Eh).
  unfold valid in Er. rewrite (proj2 (Z.ltb_lt _ _) Hpos) in Er. injection Er as <-.
  destruct (resetTimer_arms w os q1 Hos) as (t' & Ht' & Hle). exists t'. split; [done|].
  intros w' a' Hin. assert (timers_ (resetTimer w os q1) = (w, b) :: l) as Hfirst by congruence.
  pose proof (first_least _ _ _ _ _ _ _ Hi' Hfirst Hin). lia.
Qed.

(** Processing an expiry. *)
Lemma handleRead_arms now os D q q' log :
  tq_inv D q -> heap_fine q -> (0 < now)%Z -> os_ok now os -> handleRead alloc (user now) now os q = Ok (q', log) ->
  heap_fine q' /\ (timers_ q' = [] \/ exists t, armed_by now q' = Some t /\ in_time now t q').
Proof.
  intros Hi Hf Hnow [<- Hcr] E. unfold handleRead in E. inv_res. destruct a as [ex q1]. inv_res.
  destruct a as [q2 log2]. inv_res. pose proof (wp_ok _ _ _ _ (getExpired_inv (fun _ => False) _ D q Hi) Ha) as (Hi1 & Hh1 & _).
  cbn [fst snd] in *. set (q1' := set_canceling ∅ (set_calling true q1)) in *.
  assert (Hi1' : tq_inv (ex.*2 ++ D) q1') by (by eapply tq_inv_frame; [..|exact Hi1]).
  assert (Hf1 : heap_fine q1') by (intros b t; change (heap q1') with (heap q1); rewrite Hh1; apply Hf).
  pose proof (run_expired_fine _ _ _ _ _ _ _ Hi1' Hf1 Ha0) as Hf2.
  pose proof (wp_ok _ _ _ _ (run_expired_inv alloc (user (os_now os)) Halloc ex (ex.*2 ++ D) q1' [] Hi1' ltac:(set_solver)) Ha0) as (Hi2 & _).
  assert (Hi2' : tq_inv (ex.*2 ++ D) (set_calling false q2)) by (by eapply tq_inv_frame; [..|exact Hi2]).
  assert (Hf3 : heap_fine q') by (by eapply (reset_fine _ ex os D (set_calling false q2))).
  split; [done|]. by eapply (reset_arms _ ex os D (set_calling false q2)).
Qed.

(** ** The invariant *)

Definition guarded (s : service Cb) : Prop :=
  forall w a, (w, a) ∈ timers_ (s_queue s) ->
    0 < s_messages s \/ exists t, s_armed s = Some t /\ (t <= Z.max w (s_now s + 100))%Z.

Record service_inv (s : service Cb) : Prop := {
  si_queue : tq_inv (waiting (s_functors s)) (s_queue s);
  si_fine : heap_fine (s_queue s);
  si_now : (0 < s_now s)%Z;
  si_guarded : guarded s
}.

Lemma settle_queue q s :
  s_queue (settle q s) = q /\ s_now (settle q s) = s_now s /\ s_runs (settle q s) = s_runs s
  /\ s_functors (settle q s) = s_functors s.
Proof. unfold settle. by destruct (armed_by (s_now s) q). Qed.

(** What is armed in time guards. *)
Lemma settle_armed q s t : armed_by (s_now s) q = Some t -> in_time (s_now s) t q -> guarded (settle q s).
Proof. intros E Ht w a. unfold settle. rewrite E. cbn [s_queue s_armed s_now]. intros Hin. right. exists t. split; [done|by apply (Ht w a)]. Qed.

Lemma settle_guarded q s :
  guarded s -> covers (s_now s) (forget_os (s_queue s)) q -> guarded (settle q s).
Proof.
  intros Hg [[E Hl]|(t & E & Ht)]; [|by eapply settle_armed].
  assert (Hn : armed_by (s_now s) q = None).
  { rewrite E. unfold armed_by, forget_os. cbn [os_timers timerfd_ hTimer_ set_os]. by destruct win. }
  intros w a. unfold settle. rewrite Hn. cbn [s_queue s_armed s_now s_messages]. intros (w0 & a0 & Hin & Hle)%Hl.
  destruct (Hg w0 a0 Hin) as [Hm|(t & Ht & Hw)]; [by left|]. right. exists t. split; [done|lia].
Qed.

Lemma forget_inv D q : tq_inv D q -> tq_inv D (forget_os q).
Proof. by apply tq_inv_frame. Qed.

(** An operation on the queue that keeps to the time. *)
Lemma settle_inv q s :
  tq_inv (waiting (s_functors s)) q -> heap_fine q -> (0 < s_now s)%Z -> guarded s ->
  covers (s_now s) (forget_os (s_queue s)) q -> service_inv (settle q s).
Proof.
  intros Hi Hf Hn Hg Hc. destruct (settle_queue q s) as (E1 & E2 & _ & E4).
  split; rewrite ?E1, ?E2, ?E4; [done..|]. by apply settle_guarded.
Qed.

Lemma service_command_inv c s :
  service_inv s -> cmd_ok (s_now s) c -> wp env_fault (service_step alloc user (Command c) s) service_inv.
Proof.
  intros [Hq Hf Hn Hg] He. cbn [service_step]. apply wp_bind.
  pose proof (exec_cmd_inv alloc Halloc c _ _ (forget_inv _ _ Hq)) as Hw.
  destruct (exec_cmd alloc c (forget_os (s_queue s))) as [q|e] eqn:E; [|exact Hw]. cbn [wp] in *.
  destruct (exec_cmd_covers _ c _ _ _ (forget_inv _ _ Hq) Hf He E) as [Hc Hf'].
  by apply settle_inv; [apply Hw|..].
Qed.

(** The functors: the timer that another thread made is inserted late. *)
Lemma queue_add_inv cb when i s :
  service_inv s -> valid when = true ->
  wp env_fault (service_step alloc user (QueueAdd cb when i) s) service_inv.
Proof.
  intros [Hq Hf Hn Hg] Hv. cbn [service_step]. apply wp_bind.
  destruct (alloc (heap (s_queue s))) as [a|] eqn:Ea; [|by left]. destruct (Halloc _ _ Ea) as [Hfree Hr].
  destruct (alloc_timer (Some a) cb when i (s_queue s)) as [[id q]|e] eqn:E; [|done]. cbn [wp].
  destruct (wp_ok _ _ _ _ (alloc_timer_inv (fun _ => True) a cb when i _ _ Hq Hfree Hr) E) as (Hid & Hi & _).
  destruct (alloc_timer_fine _ _ _ _ _ _ _ Hv Hf E) as (Hf' & Ht & _). cbn [fst snd] in *.
  split; cbn [s_queue s_now s_functors]; [|done..|].
  - unfold waiting. rewrite omap_app, Hid. simpl. eapply tq_inv_perm; [|exact Hi].
    by rewrite (Permutation_app_comm _ [a]).
  - intros w b. cbn [s_queue s_messages s_armed s_now]. rewrite Ht. apply Hg.
Qed.

Lemma run_functor_inv os s :
  service_inv s -> os_ok (s_now s) os -> wp env_fault (service_step alloc user (RunFunctor os) s) service_inv.
Proof.
  intros [Hq Hf Hn Hg] [Ho Hos]. cbn [service_step].
  destruct (s_functors s) as [|[a|id] fs] eqn:Efs; cbn [run_functor waiting omap] in *;
    [by split; rewrite ?Efs|..]; apply wp_bind.
  - pose proof (addTimerInLoop_inv env_fault a os _ _ (forget_inv _ _ Hq)) as Hw.
    destruct (addTimerInLoop a os (forget_os (s_queue s))) as [q|e] eqn:E; [|exact Hw]. cbn [wp] in *.
    destruct (ti_live _ _ Hq a ltac:(left)) as [t Ht].
    destruct (addTimerInLoop_covers _ _ os _ _ _ (forget_inv _ _ Hq) Ht Hos E) as [Hc Eh]. rewrite Ho in Hc.
    apply settle_inv; [apply Hw|by intros b u; rewrite Eh; apply Hf|done..].
  - pose proof (cancelInLoop_inv env_fault id _ _ (forget_inv _ _ Hq)) as Hw.
    destruct (cancelInLoop id (forget_os (s_queue s))) as [q|e] eqn:E; [|exact Hw]. cbn [wp] in *.
    destruct (cancelInLoop_covers (s_now s) _ _ _ E) as [Hc Hf'].
    by apply settle_inv; [apply Hw|apply Hf'|..].
Qed.

Lemma read_inv os s :
  service_inv s -> os_ok (s_now s) os -> wp env_fault (service_step alloc user (Read os) s) service_inv.
Proof.
  intros [Hq Hf Hn Hg] He. cbn [service_step]. apply wp_bind. cbn [s_now s_queue readTimerfd].
  pose proof (handleRead_inv alloc (user (s_now s)) Halloc (s_now s) os _ _ (forget_inv _ _ Hq)) as Hw.
  destruct (handleRead alloc (user (s_now s)) (s_now s) os (forget_os (s_queue s))) as [[q log]|e] eqn:E; [|exact Hw].
  destruct Hw as [Hi _]. destruct (handleRead_arms _ _ _ _ _ _ (forget_inv _ _ Hq) Hf Hn He E) as [Hf' Ha].
  cbn [wp fst] in *. destruct (settle_queue q (readTimerfd s)) as (E1 & E2 & _ & E4).
  split; cbn [s_queue s_now s_functors]; rewrite ?E1, ?E2, ?E4; [done|done|done|].
  intros w a. cbn [s_queue s_messages s_armed s_now].
  destruct Ha as [Hnil|(t & Ht & Hin)]; [rewrite Hnil; by intros ?%elem_of_nil|].
  pose proof (settle_armed q (readTimerfd s) t Ht Hin w a) as Hg'. by rewrite E1, E2 in Hg'.
Qed.

Lemma service_step_inv op s :
  service_inv s -> service_enabled op s -> wp env_fault (service_step alloc user op s) service_inv.
Proof.
  intros Hs He. pose proof Hs as [Hq Hf Hn Hg].
  destruct op as [d| | |c|cb when i|id|os|os]; cbn [service_enabled] in He;
    [..|by apply run_functor_inv|by apply read_inv].
  - split; cbn [s_queue s_now s_functors]; [done|done|lia|]. intros w a Hin.
    destruct (Hg w a Hin) as [Hm|(t & Ht & Hw)]; [by left|]. right. exists t. split; [done|]. cbn [s_now]. lia.
  - cbn [service_step]. destruct (s_armed s); cbn [wp]; [|done]. split; try done. intros w a _. left. simpl. destruct win; lia.
  - split; try done. intros w a _. left. simpl. lia.
  - by apply service_command_inv.
  - by apply queue_add_inv.
  - split; try done. cbn [s_functors s_queue set_functors]. unfold waiting. rewrite omap_app. simpl. by rewrite app_nil_r.
Qed.

Lemma service_reach_inv now s :
  (0 < now)%Z -> service_reach alloc user (new_service now) s -> service_inv s.
Proof.
  intros Hn Hr. induction Hr as [|s op s' _ IH He Hx].
  - split; cbn; [apply new_TimerQueue_inv|by intros a t|done|]. intros w a Hin. by apply elem_of_nil in Hin.
  - exact (wp_ok _ _ _ _ (service_step_inv op s IH He) Hx).
Qed.

Lemma elem_of_waiting a fs : a ∈ waiting fs <-> AddTimer a ∈ fs.
Proof.
  unfold waiting. rewrite list_elem_of_omap. split.
  - intros ([b|id] & Hin & [= ->]). done.
  - intros Hin. by exists (AddTimer a).
Qed.

(** What a reading runs. *)
Lemma read_runs D q0 q q' now os log (runs runs' : list (Z * Timestamp)) :
  tq_inv D q0 -> handleRead alloc (user now) now os q0 = Ok (q', log) ->
  timers_ q0 = timers_ q -> heap q0 = heap q ->
  runs' = runs ++ ((fun n => (n, now)) <$> log) ->
  exists expired, sorted expired
    /\ (forall w a, (w, a) ∈ expired <-> (w, a) ∈ timers_ q /\ (w <= now)%Z)
    /\ runs' = runs ++ ((fun e => (seq_at (heap q) e, now)) <$> expired).
Proof.
  intros Hi E Et Eh ->.
  destruct (expired_exact alloc (user now) Halloc _ os D _ q' log Hi E) as (expired & rest & Happ & Hex & Hs & -> & _).
  rewrite Et, Eh in *. exists expired. split; [done|]. split; [|by rewrite <- list_fmap_compose].
  intros w a. specialize (Hex w a).
  assert (Hsub : (w, a) ∈ expired -> (w, a) ∈ timers_ q) by (rewrite Happ; set_solver). tauto.
Qed.

(** C2: a timer is never forgotten and never early. Whatever threads add and
    cancel timers, every [Timer] object is scheduled or waits in a functor of
    the loop to be inserted. While a timer is scheduled, a message waits for
    the loop or the timer of the operating system is armed and goes off when
    the timer expires, or within 100 microseconds of now if that is past,
    whatever timers come, go and repeat meanwhile and however often the queue
    is woken for nothing; and when the loop reads the message, exactly the
    timers that have expired run, in the order of their expirations. Nothing
    fails except for lack of memory or an overflow of the time. *)
Theorem timers_served now s :
  (0 < now)%Z -> service_reach alloc user (new_service now) s ->
  (forall a t, heap (s_queue s) !! a = Some t ->
     (expiration_ t, a) ∈ timers_ (s_queue s) \/ AddTimer a ∈ s_functors s)
  /\ (forall w a, (w, a) ∈ timers_ (s_queue s) ->
     0 < s_messages s \/ exists t, s_armed s = Some t /\ (t <= Z.max w (s_now s + 100))%Z)
  /\ (forall op, service_enabled op s -> wp env_fault (service_step alloc user op s) (fun _ => True))
  /\ forall os s', os_ok (s_now s) os -> service_step alloc user (Read os) s = Ok s' ->
       exists expired, sorted expired
         /\ (forall w a, (w, a) ∈ expired <-> (w, a) ∈ timers_ (s_queue s) /\ (w <= s_now s)%Z)
         /\ s_runs s' = s_runs s ++ ((fun e => (seq_at (heap (s_queue s)) e, s_now s)) <$> expired).
Proof.
  intros Hn Hr. pose proof (service_reach_inv now s Hn Hr) as Hs. pose proof Hs as [Hq Hf Hn' Hg]. split_and!.
  - intros a t Ht. destruct (decide (a ∈ waiting (s_functors s))) as [Hw|Hw].
    + right. by apply elem_of_waiting.
    + left. apply (ti_timers _ _ Hq). by exists t.
  - exact Hg.
  - intros op He. eapply wp_mono; [by apply service_step_inv|done].
  - intros os s' Hos E. cbn [service_step] in E. cbn [s_now s_queue readTimerfd] in E. inv_res.
    destruct a as [q log]. inv_res. eapply (read_runs _ (forget_os (s_queue s))); [by apply forget_inv|done..|].
    cbn [s_runs]. by destruct (settle_queue q (readTimerfd s)) as (_ & -> & -> & _).
Qed.
End Facts.

(** ** A timer whose callback adds another *)

Definition service_user (now : Timestamp) (cb : nat) (q : TimerQueue nat) : list (timer_cmd nat) :=
  if cb =? 1 then [CmdAdd 4 7000%Z (double_of_Z 0) (mkOs now true (Some 4%Z))] else [].

Lemma service_user_ok now cb q c : c ∈ service_user now cb q -> cmd_ok now c.
Proof. unfold service_user. destruct (cb =? 1); [|by intros ?%elem_of_nil]. intros ->%list_elem_of_singleton. by split_and!. Qed.

Definition service_os (now : Timestamp) : os_answer := mkOs now true (Some 9%Z).

Definition service_ops : list (service_op nat) :=
  [Command (CmdAdd 1 5000%Z (double_of_Z 0) (service_os 1000)); GoOff; Read (service_os 1000);
   QueueAdd 5 8000%Z (double_of_Z 0); QueueCancel (mkTimerId 8 3); Elapse 5000; RunFunctor (service_os 6000); GoOff].

(** The operations, one after the other. *)
Fixpoint service_run (ops : list (service_op nat)) (s : service nat) : service nat :=
  match ops with
  | [] => s
  | op :: ops =>
      service_run ops (match @service_step demo_platform nat small_alloc service_user op s with Ok s' => s' | Fault _ => s end)
  end.

Definition service_demo : service nat := service_run service_ops (new_service 1000).

Fixpoint service_allows (ops : list (service_op nat)) (s : service nat) : Prop :=
  match ops with
  | [] => True
  | op :: ops => @service_enabled demo_platform nat op s
      /\ (exists s', @service_step demo_platform nat small_alloc service_user op s = Ok s')
      /\ service_allows ops (service_run [op] s)
  end.

Lemma service_run_reach s0 ops s :
  @service_reach demo_platform nat small_alloc service_user s0 s -> service_allows ops s ->
  @service_reach demo_platform nat small_alloc service_user s0 (service_run ops s).
Proof.
  revert s; induction ops as [|op ops IH]; intros s Hr Ha; [done|]. destruct Ha as (He & (s' & Hs) & Hrest).
  cbn [service_run] in *. rewrite Hs in *. apply IH; [|done]. by apply (service_next _ _ _ s op).
Qed.

Lemma service_demo_reach : @service_reach demo_platform nat small_alloc service_user (new_service 1000) service_demo.
Proof.
  apply service_run_reach; [constructor|]. unfold service_ops. cbn [service_allows].
  split_and!; first [by split_and!|by vm_compute|by eexists; vm_compute; reflexivity].
Qed.

Lemma timers_served_witness :
  (forall w a, (w, a) ∈ timers_ (s_queue service_demo) ->
     0 < s_messages service_demo \/ exists t, s_armed service_demo = Some t /\ (t <= Z.max w (s_now service_demo + 100))%Z)
  /\ s_functors service_demo = [CancelTimer (mkTimerId 8 3)]
  /\ exists s', @service_step demo_platform nat small_alloc service_user (Read (service_os 6000)) service_demo = Ok s'
     /\ s_runs s' = [(1, 6000)]%Z /\ s_armed s' = Some 7000%Z.
Proof.
  split_and!; [|vm_compute; reflexivity|eexists; split; [vm_compute; reflexivity|vm_compute; by split]].
  destruct (timers_served (H := demo_platform) small_alloc small_alloc_ok service_user service_user_ok 1000 service_demo)
    as (_ & Hg & _); [done|exact service_demo_reach|exact Hg].
Defined.
