(* ===== verification/TimerApi.v ===== *)
(** * The timers of a loop: [EventLoop::runAt] and its relatives, threads that
    call them, and the end of the queue

    src/msmuduo/net/EventLoop.cpp ([runAt], [runAfter], [runEvery], [cancel])
    and TimerQueue.cpp ([addTimer], [cancel], the destructor) around
    TimerService. A call from another thread allocates the [Timer], queues a
    functor with the bare pointer, and then reads the sequence number through
    the pointer; between the two the loop may do anything. *)
From S2P Require Import Prelude.
From S2P Require Import Endian.
From S2P Require Import StdContainers.
From S2P Require Import Format.
From S2P Require Import Timestamp.
From S2P Require Import Atomic.
From S2P Require Import TimerQueue.
From S2P Require Import TimerQueueFacts.
From S2P Require Import TimerService.

Section TimerApi.
Context `{Platform} {Cb : Type}.
Context (alloc : gmap Z (Timer Cb) -> option Z).
Context (user : Timestamp -> Cb -> TimerQueue Cb -> list (timer_cmd Cb)).

(** ** The calls of [EventLoop] *)

Inductive timer_call :=
  | RunAt (time : Timestamp) (cb : Cb)
  | RunAfter (delay : double) (cb : Cb)
  | RunEvery (interval : double) (cb : Cb)
  | Cancel (id : TimerId).

(** What they ask of the queue: callback, time and interval of a timer, or the
    id to cancel. [now] is [Timestamp::now()]. *)
Definition addTimer_args : Type := Cb * Timestamp * double.

Definition runAt (time : Timestamp) (cb : Cb) : addTimer_args := (cb, time, double_of_Z 0).

Definition runAfter (now : Timestamp) (delay : double) (cb : Cb) : res addTimer_args :=
  time ← addTime now delay;
  Ok (runAt time cb).

Definition runEvery (now : Timestamp) (interval : double) (cb : Cb) : res addTimer_args :=
  time ← addTime now interval;
  Ok (cb, time, interval).

Definition call_args (now : Timestamp) (c : timer_call) : res (addTimer_args + TimerId) :=
  match c with
  | RunAt time cb => Ok (inl (runAt time cb))
  | RunAfter delay cb => inl <$> runAfter now delay cb
  | RunEvery interval cb => inl <$> runEvery now interval cb
  | Cancel id => Ok (inr id)
  end.

(** ** The destructor of the queue *)

(** [delete it->second] for each entry of [timers_]. *)
Fixpoint delete_timers (l : list (Timestamp * Z)) (h : gmap Z (Timer Cb)) : res (gmap Z (Timer Cb)) :=
  match l with
  | [] => Ok h
  | (_, a) :: l => get_ NullDeref (h !! a);; delete_timers l (delete a h)
  end.

(** [~TimerQueue]: what is left of the heap. The timer of the operating system
    is not deleted. *)
Definition delete_TimerQueue (q : TimerQueue Cb) : res (gmap Z (Timer Cb)) :=
  delete_timers (timers_ q) (heap q).

(** ** Threads *)

(** [t_adding]: the threads in the middle of [addTimer], with the pointer
    [timer]. [t_gone]: the queue was destroyed. *)
Record threads := mkThreads {
  t_service : service Cb;
  t_adding : gmap nat Z;
  t_gone : bool
}.

Definition new_threads (now : Timestamp) : threads := mkThreads (new_service now) ∅ false.

Definition set_service (s : service Cb) (t : threads) : threads := mkThreads s (t_adding t) (t_gone t).

Inductive threads_op :=
  | LoopCall (c : timer_call) (os : os_answer)  (* in the thread of the loop *)
  | ThreadCall (c : timer_call)                 (* in another, uninterrupted *)
  | BeginCall (j : nat) (c : timer_call)        (* [addTimer] up to [runInLoop] *)
  | EndCall (j : nat)                           (* its [timer->sequence()] *)
  | Serve (op : service_op Cb)                  (* the loop, the clock and the system *)
  | Destroy.

(** The operation of the service that a call comes to. *)
Definition call_op (in_loop : bool) (now : Timestamp) (os : os_answer) (c : timer_call) : res (service_op Cb) :=
  args ← call_args now c;
  Ok (match args with
      | inl (cb, when, interval) =>
          if in_loop then Command (CmdAdd cb when interval os) else QueueAdd cb when interval
      | inr id => if in_loop then Command (CmdCancel id) else QueueCancel id
      end).

(** The timer that the last functor holds. *)
Definition last_added (s : service Cb) : option Z :=
  match last (s_functors s) with Some (AddTimer a) => Some a | _ => None end.

(** [TimerRoutine] reads the socket through a pointer into the queue. *)
Definition threads_step (op : threads_op) (t : threads) : res threads :=
  let s := t_service t in
  match op with
  | LoopCall c os =>
      op ← call_op true (s_now s) os c;
      s ← service_step alloc user op s;
      Ok (set_service s t)
  | ThreadCall c =>
      op ← call_op false (s_now s) (mkOs (s_now s) false None) c;
      s ← service_step alloc user op s;
      Ok (set_service s t)
  | BeginCall j c =>
      op ← call_op false (s_now s) (mkOs (s_now s) false None) c;
      s ← service_step alloc user op s;
      Ok (mkThreads s (match last_added s with Some a => <[j := a]> (t_adding t) | None => t_adding t end) (t_gone t))
  | EndCall j =>
      match t_adding t !! j with
      | Some a => get_ NullDeref (heap (s_queue s) !! a);; Ok (mkThreads s (delete j (t_adding t)) (t_gone t))
      | None => Ok t
      end
  | Serve op =>
      (match op with
       | GoOff => if t_gone t && win && bool_decide (is_Some (s_armed s)) then Fault NullDeref else Ok tt
       | _ => Ok tt
       end);;
      s ← service_step alloc user op s;
      Ok (set_service s t)
  | Destroy =>
      h ← delete_TimerQueue (s_queue s);
      Ok (mkThreads (mkService (set_heap h (set_timers [] ∅ (s_queue s))) (s_now s) (s_armed s)
                       (s_messages s) (s_functors s) (s_runs s)) (t_adding t) true)
  end.

(** Calls that are not interrupted, while the queue is there. *)
Definition whole_op (op : threads_op) : bool :=
  match op with BeginCall _ _ | EndCall _ | Destroy => false | _ => true end.

Definition call_enabled (op : res (service_op Cb)) (s : service Cb) : Prop :=
  match op with Ok op => service_enabled op s | Fault _ => True end.

#[export] Instance call_enabled_dec op s : Decision (call_enabled op s).
Proof. destruct op; simpl; apply _. Defined.

(** After the queue is gone only time passes. *)
Definition outlives (op : service_op Cb) : bool :=
  match op with GoOff | Elapse _ => true | _ => false end.

Definition threads_enabled (op : threads_op) (t : threads) : Prop :=
  let s := t_service t in
  match op with
  | LoopCall c os => call_enabled (call_op true (s_now s) os c) s
  | ThreadCall c | BeginCall _ c => call_enabled (call_op false (s_now s) (mkOs (s_now s) false None) c) s
  | EndCall j => is_Some (t_adding t !! j)
  | Serve op => service_enabled op s /\ negb (t_gone t) || outlives op = true
  | Destroy => t_gone t = false
  end.

#[export] Instance threads_enabled_dec op t : Decision (threads_enabled op t).
Proof. destruct op; simpl; apply _. Defined.

Inductive threads_reach (t0 : threads) : threads -> Prop :=
  | threads_init : threads_reach t0 t0
  | threads_next t op t' :
      threads_reach t0 t -> threads_enabled op t -> whole_op op = true -> threads_step op t = Ok t' ->
      threads_reach t0 t'.
End TimerApi.
Arguments timer_call : clear implicits.
Arguments threads : clear implicits.
Arguments threads_op : clear implicits.

Section Facts.
Context `{Platform} {Cb : Type}.
Context (alloc : gmap Z (Timer Cb) -> option Z) (Halloc : alloc_ok alloc).
Context (user : Timestamp -> Cb -> TimerQueue Cb -> list (timer_cmd Cb)).
Context (Huser : forall now cb q c, c ∈ user now cb q -> cmd_ok now c).
Implicit Types (t : threads Cb).

(** ** The destructor frees what is scheduled *)

Lemma delete_timers_spec (l : list (Timestamp * Z)) (h : gmap Z (Timer Cb)) :
  NoDup (l.*2) -> (forall a, a ∈ l.*2 -> is_Some (h !! a)) ->
  exists h', delete_timers l h = Ok h' /\ forall a, is_Some (h' !! a) <-> is_Some (h !! a) /\ a ∉ l.*2.
Proof.
  revert h. induction l as [|[w a] l IH]; intros h Hnd Hl; cbn [delete_timers fmap list_fmap fst snd] in *.
  { exists h. split; [done|]. intros a. set_solver. }
  apply NoDup_cons in Hnd as [Ha Hnd]. destruct (Hl a ltac:(left)) as [t Ht].
  destruct (IH (delete a h) Hnd) as (h' & E & Hh').
  { intros b Hb. rewrite lookup_delete_ne by (by intros ->). apply Hl. by right. }
  exists h'. split; [by rewrite Ht|]. intros b. rewrite Hh', not_elem_of_cons.
  destruct (decide (b = a)) as [->|Hb]; [rewrite lookup_delete_eq; split; [by intros [[? [=]] _]|tauto]|].
  rewrite lookup_delete_ne by done. tauto.
Qed.

Lemma delete_TimerQueue_spec D (q : TimerQueue Cb) :
  tq_inv D q ->
  exists h, delete_TimerQueue q = Ok h /\ forall a, is_Some (h !! a) <-> a ∈ D.
Proof.
  intros Hi. assert (Hin : forall a, a ∈ (timers_ q).*2 <-> is_Some (heap q !! a) /\ a ∉ D).
  { intros a. rewrite list_elem_of_fmap. split.
    - intros ([w b] & -> & Hb). apply (ti_timers _ _ Hi) in Hb as (t & Ht & _ & HD). simpl. by rewrite Ht.
    - intros [[t Ht] HD]. exists (expiration_ t, a). split; [done|]. apply (ti_timers _ _ Hi). by exists t. }
  destruct (delete_timers_spec (timers_ q) (heap q)) as (h & E & Hh).
  - apply NoDup_addresses; [apply sorted_NoDup, (ti_sorted _ _ Hi)|]. intros w w' a. by apply (timers_addr_unique D q).
  - intros a Ha. by apply Hin.
  - exists h. split; [done|]. intros a. rewrite Hh, Hin. split.
    + intros [Ha Hn]. destruct (decide (a ∈ D)); [done|]. by destruct Hn.
    + intros HD. split; [by apply (ti_live _ _ Hi)|]. by intros [_ ?].
Qed.

(** ** The calls *)

Lemma addTime_faults now d : wp env_fault (addTime now d) (fun _ => True).
Proof.
  unfold addTime, int64_of_double, checked64. apply wp_bind.
  destruct (trunc _) as [z|]; simpl; [|by right]. destruct (int64_fits z); simpl; [|by right].
  destruct (int64_fits _); simpl; [done|by right].
Qed.

Lemma call_op_faults in_loop now os (c : timer_call Cb) : wp env_fault (call_op in_loop now os c) (fun _ => True).
Proof.
  unfold call_op. apply wp_bind. assert (Ha := addTime_faults now).
  destruct c as [w cb|d cb|i cb|id]; simpl; [done| | |done]; unfold runAfter, runEvery.
  - specialize (Ha d). by destruct (addTime now d).
  - specialize (Ha i). by destruct (addTime now i).
Qed.

Definition threads_inv t : Prop := service_inv (t_service t) /\ t_gone t = false.

Lemma call_inv in_loop os (c : timer_call Cb) t :
  threads_inv t ->
  call_enabled (call_op in_loop (s_now (t_service t)) os c) (t_service t) ->
  wp env_fault (op ← call_op in_loop (s_now (t_service t)) os c;
                s ← service_step alloc user op (t_service t);
                Ok (set_service s t)) threads_inv.
Proof.
  intros [Hs Hg] He. pose proof (call_op_faults in_loop (s_now (t_service t)) os c) as Hc.
  destruct (call_op _ _ _ c) as [op|e]; [|exact Hc]. cbn [mbind res_bind]. apply wp_bind.
  eapply wp_mono; [apply (service_step_inv alloc Halloc user Huser op _ Hs), He|]. intros s Hs'. by split.
Qed.

Lemma threads_step_inv (op : threads_op Cb) t :
  threads_inv t -> threads_enabled op t -> whole_op op = true -> wp env_fault (threads_step alloc user op t) threads_inv.
Proof.
  intros Hi He Hw. destruct op as [c os|c| | |op|]; try done; cbn [threads_step threads_enabled] in *.
  - by apply call_inv.
  - by apply call_inv.
  - destruct Hi as [Hs Hg]. rewrite Hg. destruct He as [He _].
    assert (Hgo : (match op with GoOff => if false && win && bool_decide (is_Some (s_armed (t_service t)))
      then Fault NullDeref else Ok tt | _ => Ok tt end) = Ok tt) by (by destruct op).
    rewrite Hgo. cbn [mbind res_bind]. apply wp_bind.
    eapply wp_mono; [by apply (service_step_inv alloc Halloc user Huser op)|]. intros s Hs'. by split.
Qed.

Lemma threads_reach_inv now t :
  (0 < now)%Z -> threads_reach alloc user (new_threads now) t -> threads_inv t.
Proof.
  intros Hn Hr. induction Hr as [|t op t' _ IH He Hw E].
  - split; [|done]. apply (service_reach_inv alloc Halloc user Huser now); [done|constructor].
  - exact (wp_ok _ _ _ _ (threads_step_inv op t IH He Hw) E).
Qed.

(** C9: [runAt], [runAfter], [runEvery] and [cancel] of any threads, when none
    is interrupted: nothing fails but for lack of memory or an overflow of the
    time, and if the queue is destroyed at any moment it deletes every
    scheduled timer once and touches no other; what is left are exactly the
    timers whose insertion other threads had queued, which nobody deletes. *)
Theorem timers_freed now t :
  (0 < now)%Z -> threads_reach alloc user (new_threads now) t ->
  (forall op, threads_enabled op t -> whole_op op = true ->
     wp env_fault (threads_step alloc user op t) (fun _ => True))
  /\ exists h, delete_TimerQueue (s_queue (t_service t)) = Ok h
     /\ forall a, is_Some (h !! a) <-> AddTimer a ∈ s_functors (t_service t).
Proof.
  intros Hn Hr. pose proof (threads_reach_inv now t Hn Hr) as Hi. split.
  - intros op He Hw. eapply wp_mono; [by apply threads_step_inv|done].
  - destruct Hi as [[Hq _ _ _] _]. destruct (delete_TimerQueue_spec _ _ Hq) as (h & E & Hh).
    exists h. split; [done|]. intros a. by rewrite Hh, elem_of_waiting.
Qed.
End Facts.

(** ** Concrete runs *)

Fixpoint threads_run (ops : list (threads_op nat)) (t : threads nat) : res (threads nat) :=
  match ops with
  | [] => Ok t
  | op :: ops =>
      t ← @threads_step demo_platform nat small_alloc service_user op t;
      threads_run ops t
  end.

Fixpoint threads_allowed (ops : list (threads_op nat)) (t : threads nat) : bool :=
  match ops with
  | [] => true
  | op :: ops =>
      bool_decide (@threads_enabled demo_platform nat op t)
      && match @threads_step demo_platform nat small_alloc service_user op t with
         | Ok t' => threads_allowed ops t'
         | Fault _ => match ops with [] => true | _ => false end
         end
  end.

Lemma threads_run_reach t0 ops t t' :
  @threads_reach demo_platform nat small_alloc service_user t0 t -> forallb whole_op ops = true ->
  threads_allowed ops t = true -> threads_run ops t = Ok t' ->
  @threads_reach demo_platform nat small_alloc service_user t0 t'.
Proof.
  revert t; induction ops as [|op ops IH]; intros t Hr Hw Ha E; cbn [threads_run threads_allowed forallb] in *;
    [by injection E as <-|].
  apply andb_true_iff in Hw as [Hw Hws]. apply andb_true_iff in Ha as [He%bool_decide_eq_true Ha].
  destruct (threads_step _ _ op t) as [t1|e] eqn:Es; [|done]. cbn [mbind res_bind] in E.
  apply (IH t1); [|done..]. by eapply threads_next.
Qed.

(** A loop with a timer every second, and two more from other threads, one of
    which is not inserted yet. *)
Definition api_ops : list (threads_op nat) :=
  [LoopCall (RunEvery (double_of_Z 1) 2) (service_os 1000); ThreadCall (RunAfter (double_of_Z 2) 3);
   Serve (RunFunctor (service_os 1000)); ThreadCall (RunAt 5000 1)].

Definition api_demo : threads nat :=
  match threads_run api_ops (new_threads 1000) with Ok t => t | Fault _ => new_threads 1000 end.

Lemma api_demo_reach : @threads_reach demo_platform nat small_alloc service_user (new_threads 1000) api_demo.
Proof.
  assert (E : threads_run api_ops (new_threads 1000) = Ok api_demo) by (vm_compute; reflexivity).
  eapply (threads_run_reach _ api_ops); [constructor|done|vm_compute; reflexivity|exact E].
Qed.

Lemma timers_freed_witness :
  (timers_ (s_queue (t_service api_demo))).*1 = [1001000; 2001000]%Z
  /\ exists h, delete_TimerQueue (s_queue (t_service api_demo)) = Ok h
     /\ is_Some (h !! 24%Z) /\ h !! 8%Z = None /\ h !! 16%Z = None.
Proof.
  split; [vm_compute; reflexivity|].
  destruct (timers_freed (H := demo_platform) small_alloc small_alloc_ok service_user service_user_ok 1000 api_demo)
    as (_ & h & E & Hh); [done|exact api_demo_reach|]. exists h. split; [exact E|]. split; [|split].
  - apply Hh. vm_compute. left.
  - apply eq_None_not_Some. intros Ha%Hh. vm_compute in Ha. by apply list_elem_of_singleton in Ha.
  - apply eq_None_not_Some. intros Ha%Hh. vm_compute in Ha. by apply list_elem_of_singleton in Ha.
Defined.

(** A thread adds a timer that is due; before it reads the sequence number the
    loop inserts the timer, the system's timer goes off, and the loop runs the
    timer and deletes it. *)
Definition add_due_timer : list (threads_op nat) :=
  [BeginCall 1 (RunAt 1000 3); Serve (RunFunctor (service_os 1000)); Serve GoOff; Serve (Elapse 100);
   Serve (Read (service_os 1100)); EndCall 1].

(** The queue is destroyed while a timer is scheduled. *)
Definition destroy_armed : list (threads_op nat) :=
  [LoopCall (RunAfter (double_of_Z 2) 3) (service_os 1000); Destroy; Serve (Elapse 2000000); Serve GoOff].

(** two uses of freed memory. [addTimer] reads [timer->sequence()] after it
    has given the timer to the loop: when the timer is due, the loop can run and
    delete it before. Under Windows the destructor of the queue does not delete
    the timer of the operating system, whose routine reads the socket out of
    the destroyed queue when it goes off. *)
Theorem timer_races :
  (threads_allowed add_due_timer (new_threads 1000) = true
   /\ threads_run add_due_timer (new_threads 1000) = Fault NullDeref)
  /\ (threads_allowed destroy_armed (new_threads 1000) = true
   /\ threads_run destroy_armed (new_threads 1000) = Fault NullDeref).
Proof. split_and!; vm_compute; reflexivity. Qed.
