(* ===== verification/ConnUse.v ===== *)
(** * What the calls of a user do to a connection

    The messages given to [send] in the order of the calls, and what every
    handler of src/msmuduo/net/TcpConnection.cpp does to them, to the bytes of
    the input buffer and to the state: the users of [TcpConnection] (HTTP, echo)
    build on these. *)
From S2P Require Import Prelude.
From S2P Require Import Endian.
From S2P Require Import StringPiece.
From S2P Require Import Buffer.
From S2P Require Import BufferFacts.
From S2P Require Import Channel.
From S2P Require Import Poller.
From S2P Require Import EventLoop.
From S2P Require Import ChannelHost.
From S2P Require Import TcpConnection.
From S2P Require Import TcpConnectionFacts.

(** The messages given to [send], whether or not the connection was broken. *)
Definition handed (t : list action) : list bytes :=
  omap (fun a => match a with Accepted m | Dropped m => Some m | _ => None end) t.

Lemma handed_more t u : handed (t ++ u) = handed t ++ handed u.
Proof. apply omap_app. Qed.

Section ConnUse.
Context `{Platform} {L F : Type} `{!ChannelHost L F} `{!ChannelHostLaws L F} (embed : functor -> F).
Implicit Types (w : world L).

Lemma request_only r w w' : request_ r w = Ok w' -> conn w' = conn w /\ trace w' = trace w.
Proof. unfold request_. intros E. by inv_res. Qed.

(** ** Effects on the connection *)

(** Nothing is sent or taken from the input; the connection may go down. *)
Definition idle w w' : Prop :=
  handed (trace w') = handed (trace w)
  /\ content (inputBuffer_ (conn w')) = content (inputBuffer_ (conn w))
  /\ (state_ (conn w') = state_ (conn w) \/ state_ (conn w') = kDisconnected).

Lemma idle_refl w : idle w w.
Proof. split_and!; auto. Qed.

Lemma idle_trans w1 w2 w3 : idle w1 w2 -> idle w2 w3 -> idle w1 w3.
Proof. unfold idle. intros (H1 & H2 & H3) (H4 & H5 & H6). split_and!; [congruence..|]. intuition congruence. Qed.

Lemma idle_same w w' :
  trace w' = trace w -> inputBuffer_ (conn w') = inputBuffer_ (conn w) -> state_ (conn w') = state_ (conn w) -> idle w w'.
Proof. unfold idle. intros -> -> ->. auto. Qed.

Lemma idle_emit u w w' :
  trace w' = trace w ++ u -> handed u = [] -> conn w' = conn w -> idle w w'.
Proof. unfold idle. intros -> Hu ->. rewrite handed_more, Hu, app_nil_r. auto. Qed.

Lemma request_idle r w w' : request_ r w = Ok w' -> idle w w'.
Proof. intros E. destruct (request_only _ _ _ E) as [Ec Et]. apply idle_same; by rewrite ?Ec. Qed.

Lemma shutdownInLoop_idle w w' : shutdownInLoop true w = Ok w' -> idle w w' /\ state_ (conn w') = state_ (conn w).
Proof.
  unfold shutdownInLoop. intros E. inv_res. destruct (negb _); [|split; [apply idle_refl|done]].
  split; [by apply (idle_emit [ShutdownWrite])|done].
Qed.

Lemma handleWrite_idle ans w w' : handleWrite embed true ans w = Ok w' -> idle w w'.
Proof.
  unfold handleWrite. intros E. inv_res. destruct (isWriting a0); [|injection E as <-; apply idle_refl].
  destruct (kernel_send ans _) as [[|n]|]; [injection E as <-; apply idle_refl| |injection E as <-; apply idle_refl].
  inv_res. set (w1 := set_conn (set_output a1 _) _) in *.
  assert (H1 : idle w w1).
  { unfold idle. cbn [w1 set_conn conn trace emit set_output inputBuffer_ state_]. rewrite handed_more, app_nil_r. auto. }
  cbn [conn set_conn outputBuffer_ set_output] in E. destruct (readableBytes a1 =? 0); [|by injection E as <-].
  inv_res. apply request_idle in Ha2. set (w2 := if writeCompleteCallback_ (conn a2) then _ else a2) in *.
  assert (H2 : idle a2 w2) by (unfold w2; destruct (writeCompleteCallback_ _); by apply idle_same).
  apply (idle_trans _ w1); [done|]. apply (idle_trans _ a2); [done|]. apply (idle_trans _ w2); [done|].
  case_decide; [by apply shutdownInLoop_idle|]. injection E as <-. apply idle_refl.
Qed.

Lemma handleClose_idle w w' :
  handleClose embed true [] w = Ok w' -> idle w w' /\ state_ (conn w') = kDisconnected.
Proof.
  unfold handleClose, connectionCallback_. intros E. inv_res. destruct (request_only _ _ _ Ha1) as [Ec Et].
  cbn [exec_uops] in Ha2. injection Ha2 as <-.
  assert (Hs : state_ (conn (emit [CloseCallback] (emit [ConnectionCallback (connected (conn a1))] a1))) = kDisconnected)
    by (cbn [emit conn]; by rewrite Ec).
  split; [|exact Hs]. unfold idle. split; [|split; [|by right]].
  - cbn [emit trace]. rewrite Et, !handed_more. cbn. by rewrite !app_nil_r.
  - cbn [emit conn]. by rewrite Ec.
Qed.

(** A message is handed over while the connection is not down. *)
Lemma sendInLoop_handed ans data w w' :
  sendInLoop embed true ans data w = Ok w' -> state_ (conn w) <> kDisconnected ->
  handed (trace w') = handed (trace w) ++ [data] /\ state_ (conn w') = state_ (conn w)
  /\ inputBuffer_ (conn w') = inputBuffer_ (conn w).
Proof.
  unfold sendInLoop. intros E Hs. rewrite decide_False in E by done. inv_res.
  destruct (if negb (isWriting a0) && _ then _ else _) as [[w1 n] fault] eqn:Ht.
  assert (H1 : conn w1 = conn w /\ trace w1 = trace w).
  { destruct (_ && _) in Ht; [|by injection Ht as <- _ _]. unfold try_send in Ht.
    destruct (kernel_send _ _); [|by injection Ht as <- _ _]. injection Ht as <- _ _. clear. case_if; by split. }
  destruct H1 as [Ec1 Et1]. inv_res.
  set (w2 := emit [if fault then Dropped data else Accepted data; Wire (take n data)] w1) in *.
  assert (H2 : handed (trace w2) = handed (trace w) ++ [data] /\ conn w2 = conn w).
  { split; [|exact Ec1]. cbn [w2 emit trace]. rewrite Et1, handed_more. by destruct fault. }
  clearbody w2. clear -E H2. destruct H2 as [Hh Ec]. destruct (negb fault && _); [|injection E as <-; by rewrite Ec].
  set (hw := (_ && _ && _)%bool) in E. set (f := HighWaterMarkCallback _) in E.
  assert (H3 : trace (if hw then queueInLoop embed f w2 else w2) = trace w2
    /\ conn (if hw then queueInLoop embed f w2 else w2) = conn w2) by (by destruct hw).
  set (w3 := if hw then _ else w2) in *. clearbody w3. destruct H3 as [Et3 Ec3]. inv_res.
  assert (H4 : forall w4, trace w4 = trace w3 -> conn w4 = set_output a (conn w3) ->
    handed (trace w4) = handed (trace w) ++ [data] /\ state_ (conn w4) = state_ (conn w)
    /\ inputBuffer_ (conn w4) = inputBuffer_ (conn w)).
  { intros w4 -> ->. rewrite Et3. cbn [set_output state_ inputBuffer_]. by rewrite Ec3, Ec. }
  destruct (negb _); [|injection E as <-; by apply H4].
  destruct (request_only _ _ _ E) as [Ec4 Et4]. apply H4; by rewrite ?Et4, ?Ec4.
Qed.

(** Receiving: [take n] of the input, then perhaps a reply. *)
Lemma exec_retrieve n us w w' :
  buf_inv (inputBuffer_ (conn w)) -> exec_uops embed (URetrieve n :: us) w = Ok w' ->
  exists w1, exec_uops embed us w1 = Ok w' /\ trace w1 = trace w /\ state_ (conn w1) = state_ (conn w)
    /\ content (inputBuffer_ (conn w1)) = drop (n `min` readableBytes (inputBuffer_ (conn w))) (content (inputBuffer_ (conn w))).
Proof.
  intros Hb. cbn [exec_uops exec_uop]. intros E. inv_res. eexists. split; [exact E|]. split_and!; [done..|].
  cbn [set_conn conn set_input inputBuffer_].
  destruct (retrieve_spec (n `min` readableBytes (inputBuffer_ (conn w))) (inputBuffer_ (conn w)) Hb) as (b & Eb & _ & Hc); [lia|].
  rewrite Ha0 in Eb. injection Eb as ->. exact Hc.
Qed.

Lemma rest_idle inp (we ww : bool) w w' :
  run_all (conn_callback embed inp) ((if we then [CbError] else []) ++ (if ww then [CbWrite] else [])) w = Ok w' ->
  idle w w'.
Proof.
  destruct we, ww; simpl; unfold handleError; intros E; inv_res; try apply idle_refl; by eapply handleWrite_idle.
Qed.

Lemma destroyed_idle w w' :
  state_ (conn w) <> kConnecting -> connectDestroyed embed true [] w = Ok w' -> idle w w'.
Proof.
  unfold connectDestroyed, connectionCallback_. intros Hs E. inv_res. apply (idle_trans _ a0); [|by apply idle_same].
  case_decide; [|injection Ha0 as <-; apply idle_refl]. inv_res. destruct (request_only _ _ _ Ha2) as [Ec Et].
  cbn [exec_uops] in Ha0. injection Ha0 as <-. unfold idle. cbn [emit trace conn]. rewrite Et, Ec, handed_more, app_nil_r.
  split_and!; [done..|by right].
Qed.

Lemma accepted_length t : length (accepted t) <= length (concat (handed t)).
Proof.
  induction t as [|a t IH]; [done|]. change (a :: t) with ([a] ++ t).
  rewrite accepted_app, handed_more, concat_app, !length_app.
  assert (Ha : length (accepted [a]) <= length (concat (handed [a])))
    by (destruct a; unfold accepted, handed; simpl; lia). lia.
Qed.

Lemma accepted_handed t : (forall m, Dropped m ∉ t) -> accepted t = concat (handed t).
Proof.
  induction t as [|a t IH]; [done|]. intros Hn. unfold accepted, handed in *. cbn [fmap list_fmap concat omap].
  rewrite IH by (intros m Hm; apply (Hn m); by right). destruct a; try done. exfalso. apply (Hn message). by left.
Qed.

(** ** A trace only grows *)

Definition grows w w' : Prop := trace w `prefix_of` trace w'.

Lemma grows_refl w : grows w w.
Proof. by unfold grows. Qed.
Lemma grows_trans w1 w2 w3 : grows w1 w2 -> grows w2 w3 -> grows w1 w3.
Proof. unfold grows. intros. by etrans. Qed.
Lemma grows_emit u w w' : trace w' = trace w ++ u -> grows w w'.
Proof. unfold grows. intros ->. by apply prefix_app_r. Qed.
Lemma grows_same w w' : trace w' = trace w -> grows w w'.
Proof. unfold grows. by intros ->. Qed.

Lemma request_grows r w w' : request_ r w = Ok w' -> grows w w'.
Proof. intros [_ E]%request_only. by apply grows_same. Qed.

Lemma sendInLoop_grows ans data w w' : sendInLoop embed true ans data w = Ok w' -> grows w w'.
Proof.
  unfold sendInLoop. intros E. inv_res. case_decide; [injection E as <-; apply grows_refl|]. inv_res.
  destruct (if negb (isWriting a0) && _ then _ else _) as [[w1 n] fault] eqn:Ht.
  assert (H1 : trace w1 = trace w).
  { destruct (_ && _) in Ht; [|by injection Ht as <- _ _]. unfold try_send in Ht.
    destruct (kernel_send _ _); [|by injection Ht as <- _ _]. injection Ht as <- _ _. clear. by case_if. }
  inv_res. set (u := [if fault then Dropped data else Accepted data; Wire (take n data)]) in *.
  apply (grows_trans _ (emit u w1)); [apply (grows_emit u); cbn [emit trace]; by rewrite H1|].
  destruct (negb fault && _); [|injection E as <-; apply grows_refl].
  set (hw := (_ && _ && _)%bool) in E. set (f := HighWaterMarkCallback _) in E.
  assert (H3 : trace (if hw then queueInLoop embed f (emit u w1) else emit u w1) = trace (emit u w1)) by (by destruct hw).
  set (w3 := if hw then _ else emit u w1) in *. clearbody w3. inv_res. apply (grows_trans _ w3); [by apply grows_same|].
  destruct (negb _); [|injection E as <-; by apply grows_same]. exact (request_grows _ _ _ E).
Qed.

Lemma shutdownInLoop_grows w w' : shutdownInLoop true w = Ok w' -> grows w w'.
Proof.
  unfold shutdownInLoop. intros E. inv_res. destruct (negb _); [by apply (grows_emit [ShutdownWrite])|apply grows_refl].
Qed.

Lemma exec_uop_grows u w w' : exec_uop embed u w = Ok w' -> grows w w'.
Proof.
  destruct u as [m ans|m ans|ans|n| | |]; cbn [exec_uop]; intros E.
  - unfold send, sendInLoop_piece in E. rewrite sp_of_piece_text in E. case_decide; [by eapply sendInLoop_grows|]. injection E as <-. apply grows_refl.
  - case_decide; [by eapply sendInLoop_grows|]. injection E as <-. apply grows_refl.
  - unfold send_buffer in E. case_decide; [|cbn [mbind res_bind] in E; injection E as <-; by apply grows_same].
    destruct (sendInLoop embed true ans _ w) as [w1|] eqn:E1; [|done]. injection E as <-.
    apply (grows_trans _ w1); [by eapply sendInLoop_grows|by apply grows_same].
  - inv_res. by apply grows_same.
  - unfold shutdown in E. case_decide; [|injection E as <-; apply grows_refl].
    apply shutdownInLoop_grows in E. exact E.
  - injection E as <-. unfold forceClose. destruct (is_open w); by apply grows_same.
  - injection E as <-. unfold forceCloseWithDelay. destruct (is_open w); by apply grows_same.
Qed.

Lemma exec_uops_grows us w w' : exec_uops embed us w = Ok w' -> grows w w'.
Proof.
  revert w; induction us as [|u us IH]; intros w; cbn [exec_uops]; intros E; [injection E as <-; apply grows_refl|].
  destruct (exec_uop embed u w) as [w1|] eqn:E1; [|done]. cbn [mbind res_bind] in E.
  apply (grows_trans _ w1); [by eapply exec_uop_grows|by apply IH].
Qed.

Lemma connectionCallback_grows calls w w' : connectionCallback_ embed calls w = Ok w' -> grows w w'.
Proof.
  unfold connectionCallback_. intros E. apply exec_uops_grows in E.
  apply (grows_trans _ (emit [ConnectionCallback (connected (conn w))] w)); [by eapply grows_emit|done].
Qed.

Lemma handleClose_grows calls w w' : handleClose embed true calls w = Ok w' -> grows w w'.
Proof.
  unfold handleClose. intros E. inv_res. apply request_grows in Ha1. apply connectionCallback_grows in Ha2.
  apply (grows_trans _ a1); [exact Ha1|]. apply (grows_trans _ a2); [exact Ha2|]. by eapply grows_emit.
Qed.

Lemma handleWrite_grows ans w w' : handleWrite embed true ans w = Ok w' -> grows w w'.
Proof.
  unfold handleWrite. intros E. inv_res. destruct (isWriting a0); [|injection E as <-; apply grows_refl].
  destruct (kernel_send ans _) as [[|n]|]; [injection E as <-; apply grows_refl| |injection E as <-; apply grows_refl].
  inv_res. set (w1 := set_conn (set_output a1 _) _) in *.
  apply (grows_trans _ w1); [by eapply grows_emit|].
  cbn [conn set_conn outputBuffer_ set_output] in E. destruct (readableBytes a1 =? 0); [|injection E as <-; apply grows_refl].
  inv_res. apply request_grows in Ha2. apply (grows_trans _ a2); [exact Ha2|].
  set (w2 := if writeCompleteCallback_ (conn a2) then _ else a2) in *.
  apply (grows_trans _ w2); [unfold w2; destruct (writeCompleteCallback_ _); by apply grows_same|].
  case_decide; [by apply shutdownInLoop_grows|]. injection E as <-. apply grows_refl.
Qed.

Lemma handleRead_grows r calls w w' : handleRead embed true r calls w = Ok w' -> grows w w'.
Proof.
  unfold handleRead. intros E. inv_res. destruct a0 as [[n err] b].
  apply (grows_trans _ (set_conn (set_input b (conn w)) w)); [by apply grows_same|].
  destruct (0 <? n)%Z; [|destruct (n =? 0)%Z; [exact (handleClose_grows _ _ _ E)|injection E as <-; by apply grows_same]].
  apply exec_uops_grows in E.
  apply (grows_trans _ (emit [MessageCallback] (set_conn (set_input b (conn w)) w))); [by apply (grows_emit [MessageCallback])|exact E].
Qed.

Lemma run_all_grows inp cbs w w' : run_all (conn_callback embed inp) cbs w = Ok w' -> grows w w'.
Proof.
  revert w; induction cbs as [|cb cbs IH]; intros w; cbn [run_all]; intros E; [injection E as <-; apply grows_refl|].
  destruct (conn_callback embed inp cb w) as [w1|] eqn:E1; [|done]. cbn [mbind res_bind] in E.
  apply (grows_trans _ w1); [|by apply IH].
  destruct cb; cbn [conn_callback] in E1; [by eapply handleClose_grows|injection E1 as <-; apply grows_refl|
    by eapply handleRead_grows|by eapply handleWrite_grows].
Qed.

Lemma connectDestroyed_grows calls w w' : connectDestroyed embed true calls w = Ok w' -> grows w w'.
Proof.
  unfold connectDestroyed. intros E. inv_res. apply (grows_trans _ a0); [|by apply grows_same].
  case_decide; [|injection Ha0 as <-; apply grows_refl]. inv_res. apply request_grows in Ha2. apply connectionCallback_grows in Ha0.
  apply (grows_trans _ a2); [exact Ha2|exact Ha0].
Qed.

(** Whatever the loop does with the connection. *)
Lemma conn_exec_grows op w w' : conn_exec embed op w = Ok w' -> grows w w'.
Proof.
  destruct op as [inp r|inp f|calls|calls|m| | |l]; cbn [conn_exec]; intros E.
  - unfold conn_event in E. inv_res. by eapply run_all_grows.
  - destruct f; cbn [run_functor] in E.
    + unfold sendInLoop_piece in E. inv_res. by eapply sendInLoop_grows.
    + by apply shutdownInLoop_grows.
    + unfold forceCloseInLoop in E. inv_res. destruct (is_open w); [by eapply handleClose_grows|injection E as <-; apply grows_refl].
    + by eapply exec_uops_grows.
    + by eapply exec_uops_grows.
    + by eapply connectDestroyed_grows.
  - unfold connectEstablished in E. inv_res. apply request_grows in Ha1. apply connectionCallback_grows in E.
    apply (grows_trans _ a1); [exact Ha1|exact E].
  - by eapply connectDestroyed_grows.
  - unfold send in E. rewrite sp_of_piece_text in E. case_decide; injection E as <-; by apply grows_same.
  - unfold shutdown in E. case_decide; injection E as <-; by apply grows_same.
  - injection E as <-. unfold forceClose. destruct (is_open w); by apply grows_same.
  - injection E as <-. by apply grows_same.
Qed.

Lemma wired_grows w w' : grows w w' -> wired (trace w) `prefix_of` wired (trace w').
Proof. intros [u E]. rewrite E, wired_app. by apply prefix_app_r. Qed.
End ConnUse.
