(* ===== verification/FileTransfer.v ===== *)
(** * File transfer: [src/msexamples/filetransfer]

    The server reads a file into a string when a connection comes up, sends it
    and shuts the connection down ([download.cpp]); the client counts what it
    receives ([client_test.cpp]). The server's connection is the
    [TcpConnection] of the library with these callbacks; the string becomes a
    [StringPiece], whose length is an [int]. *)
From S2P Require Import Prelude.
From S2P Require Import Endian.
From S2P Require Import StringPiece.
From S2P Require Import Buffer.
From S2P Require Import BufferFacts.
From S2P Require Import Channel.
From S2P Require Import Poller.
From S2P Require Import EventLoop.
From S2P Require Import ChannelHost.
From S2P Require Import TcpConnection.
From S2P Require Import TcpConnectionFacts.
From S2P Require Import ConnUse.

(** ** [readFile] *)

Definition kBufSize : nat := 1024.

(** [fread] gives all that fits unless the file ends there, or stops at a read
    error, if there is one behind the first [good] bytes. *)
Definition fread (size good : nat) (rest : bytes) : bytes * bytes :=
  let n := size `min` length rest `min` good in (take n rest, drop n rest).

Fixpoint read_loop (fuel good : nat) (rest content : bytes) : res bytes :=
  match fuel with
  | O => Fault OutOfFuel
  | S fuel =>
      let '(buf, rest) := fread kBufSize good rest in
      if 0 <? length buf then read_loop fuel (good - length buf) rest (content ++ buf) else Ok content
  end.

(** [fp] is NULL when the file cannot be opened. *)
Definition readFile (fp : option (bytes * nat)) : res bytes :=
  match fp with
  | Some (file, good) => read_loop (S (length file)) good file []
  | None => Ok []
  end.

(** ** The server *)

Definition file_highWaterMark : N := (64 * 1024)%N.

(** [onConnection]: what it calls on the connection. [send] takes the string
    as a piece, whose length is an [int]. *)
Definition file_onConnection (connected : bool) (fileContent : bytes) (ans : send_result) : res (list uop) :=
  if connected then message ← piece_of_string fileContent; Ok [USend message ans; UShutdown]
  else Ok [].

(** ** The client *)

(** [messageCallback]: [globalCnt] and what is left of the buffer. *)
Definition file_messageCallback (buf : Buffer) (globalCnt : Z) : res (Z * bytes * Buffer) :=
  '(text, buf) ← retrieveAllAsString buf;
  Ok (wrapS 32 (globalCnt + Z.of_nat (length text)), text, buf).

(** The client receives [reads]. *)
Fixpoint file_reads (buf : Buffer) (globalCnt : Z) (text : bytes) (reads : list bytes) : res (Z * bytes) :=
  match reads with
  | [] => Ok (globalCnt, text)
  | r :: reads =>
      buf ← append_str r buf;
      '(globalCnt, t, buf) ← file_messageCallback buf globalCnt;
      file_reads buf globalCnt (text ++ t) reads
  end.

(** ** The file is read *)

Lemma read_loop_spec fuel good rest content :
  length rest < fuel -> read_loop fuel good rest content = Ok (content ++ take good rest).
Proof.
  revert good rest content; induction fuel as [|fuel IH]; intros good rest content Hf; [lia|]. cbn [read_loop].
  unfold fread. set (n := kBufSize `min` length rest `min` good).
  assert (Hn : length (take n rest) = n) by (rewrite length_take; lia). rewrite Hn.
  destruct (Nat.ltb_spec 0 n) as [Hpos|Hzero].
  - rewrite IH by (rewrite length_drop; lia). f_equal. rewrite <- app_assoc. f_equal.
    rewrite take_take_drop. f_equal. lia.
  - unfold kBufSize in *. assert (rest = [] \/ good = 0) as [-> | ->] by (destruct rest, good; simpl in *; auto; lia).
    + by rewrite take_nil, app_nil_r.
    + by rewrite take_0, app_nil_r.
Qed.

Lemma readFile_spec file good : readFile (Some (file, good)) = Ok (take good file).
Proof. apply read_loop_spec. lia. Qed.

Section FileServer.
Context `{Platform} {L F : Type} `{!ChannelHost L F} `{!ChannelHostLaws L F} (embed : functor -> F).
Context (fileContent : bytes) (Hfits : fits_int fileContent).
Implicit Types (w : world L).

(** The callbacks of the server: [file_onConnection], the default message
    callback, and callbacks that only log. *)
Definition retrieves (calls : list uop) : Prop := forall u, u ∈ calls -> exists n, u = URetrieve n.

Definition file_enabled (op : conn_op (L:=L)) w : Prop :=
  enabled op w
  /\ match op with
     | OpEstablished calls => exists ans, file_onConnection true fileContent ans = Ok calls
     | OpEvent inp _ | OpFunctor inp (HighWaterMarkCallback _) => retrieves (in_calls inp)
     | OpDestroyed calls => file_onConnection false fileContent (Sent 0) = Ok calls
     | OpLoop _ => True
     | _ => False
     end.

Inductive file_reach (w0 : world L) : world L -> Prop :=
  | file_start : file_reach w0 w0
  | file_next w op w' : file_reach w0 w -> file_enabled op w -> conn_exec embed op w = Ok w' -> file_reach w0 w'.

Lemma file_conn_reach w0 w : file_reach w0 w -> conn_reach embed w0 w.
Proof. induction 1 as [|w op w' _ IH [He _] Hx]; [constructor|by eapply conn_next]. Qed.

(** ** The invariant *)

Abbreviation waiting w := (content (outputBuffer_ (conn w))).

(** The write side was shut down only with nothing waiting, and is when
    nothing waits any more. *)
Definition shutting w : Prop :=
  (ShutdownWrite ∈ trace w -> waiting w = [])
  /\ (state_ (conn w) = kDisconnecting -> waiting w = [] -> ShutdownWrite ∈ trace w).

Definition handed_over (t : list action) : Prop :=
  accepted t = fileContent \/ accepted t = [] /\ Dropped fileContent ∈ t.

Definition file_inv w : Prop :=
  conn_inv w /\
  match state_ (conn w) with
  | kConnecting => trace w = []
  | kConnected => False
  | kDisconnecting | kDisconnected => handed_over (trace w) /\ shutting w
  end.

(** ** Calls that keep it *)

(** Nothing is sent: the stream goes on from [w] to [w'] without accepting a
    message. *)
Definition goes_on w w' : Prop :=
  exists u, trace w' = trace w ++ u /\ accepted u = [] /\ (ShutdownWrite ∈ u -> waiting w' = [])
    /\ (waiting w = [] -> waiting w' = []).

Lemma goes_on_still w w' u :
  trace w' = trace w ++ u -> accepted u = [] -> ShutdownWrite ∉ u -> outputBuffer_ (conn w') = outputBuffer_ (conn w) ->
  goes_on w w'.
Proof. intros Et Ha Hu Eo. exists u. rewrite Eo. split_and!; try done. Qed.

Lemma goes_on_same w w' : trace w' = trace w -> outputBuffer_ (conn w') = outputBuffer_ (conn w) -> goes_on w w'.
Proof. intros Et. apply (goes_on_still w w' []); [by rewrite app_nil_r|done|apply not_elem_of_nil]. Qed.

Lemma goes_on_trans w1 w2 w3 : goes_on w1 w2 -> goes_on w2 w3 -> goes_on w1 w3.
Proof.
  intros (u & E & Hu & Hs & Hw) (v & E' & Hv & Hs' & Hw'). exists (u ++ v). rewrite E', E, app_assoc.
  split; [done|]. split; [by rewrite accepted_app, Hu, Hv|]. split; [|auto].
  intros [Hin|Hin]%elem_of_app; auto.
Qed.

Lemma handed_goes_on w w' : goes_on w w' -> handed_over (trace w) -> handed_over (trace w').
Proof.
  intros (u & E & Hu & _) Hh. unfold handed_over. rewrite E, accepted_app, Hu, app_nil_r.
  destruct Hh as [->|[-> Hd]]; [by left|]. right. set_solver.
Qed.

Lemma shut_goes_on w w' :
  goes_on w w' -> (ShutdownWrite ∈ trace w -> waiting w = []) -> ShutdownWrite ∈ trace w' -> waiting w' = [].
Proof. intros (u & -> & _ & Hs & Hw) Hj [Hin|Hin]%elem_of_app; auto. Qed.

(** Taking from the input buffer. *)
Definition only_input w w' : Prop :=
  exists b, conn w' = set_input b (conn w) /\ trace w' = trace w.

Lemma retrieves_only calls w w' :
  retrieves calls -> exec_uops embed calls w = Ok w' -> only_input w w'.
Proof.
  revert w; induction calls as [|u calls IH]; intros w Hr; cbn [exec_uops]; intros E; inv_res.
  - exists (inputBuffer_ (conn w')). split; [by destruct (conn w')|done].
  - destruct (Hr u) as [n ->]; [by left|]. cbn [exec_uop] in Ha. inv_res.
    destruct (IH _ (fun u Hu => Hr u (list_elem_of_further _ _ _ Hu)) E) as (b & E1 & E2). exists b. by rewrite E1, E2.
Qed.

Lemma connectionCallback_only calls w w' :
  retrieves calls -> connectionCallback_ embed calls w = Ok w' ->
  goes_on w w' /\ state_ (conn w') = state_ (conn w).
Proof.
  unfold connectionCallback_. intros Hr E. destruct (retrieves_only _ _ _ Hr E) as (b & E1 & E2).
  split; [|by rewrite E1].
  apply (goes_on_still _ _ [ConnectionCallback (connected (conn w))]); rewrite ?E1; try done. set_solver.
Qed.

Lemma handleClose_goes_on calls w w' :
  retrieves calls -> handleClose embed true calls w = Ok w' -> goes_on w w' /\ state_ (conn w') = kDisconnected.
Proof.
  intros Hr E. unfold handleClose in E. inv_res. destruct (request_only _ _ _ Ha1) as [Ec Et].
  destruct (connectionCallback_only _ _ _ Hr Ha2) as [Hg Hs]. split; [|simpl; rewrite Hs, Ec; done].
  apply (goes_on_trans _ a1); [apply goes_on_same; by rewrite ?Et, ?Ec|]. apply (goes_on_trans _ a2); [done|].
  apply (goes_on_still _ _ [CloseCallback]); try done. set_solver.
Qed.

(** A shutdown happens or has bytes to wait for. *)
Lemma shutdownInLoop_waits w w' :
  shutdownInLoop true w = Ok w' -> conn_inv w' -> is_open w' = true ->
  goes_on w w' /\ conn w' = conn w /\ (ShutdownWrite ∈ trace w' \/ waiting w' <> []).
Proof.
  unfold shutdownInLoop. intros E Hi Ho. inv_res. apply is_open_true in Ho.
  assert (Hch : forall v, conn_inv v -> state_ (conn v) = kConnected \/ state_ (conn v) = kDisconnecting ->
    channel v = channel w -> isWriting a0 = true <-> waiting v <> []).
  { intros v [_ _ _ _ (st & e & Hh & Hst)] Hv Ev.
    destruct (up_state v st e) as (_ & _ & Hwr & _); [destruct Hv; congruence..|done|].
    destruct (holds_channel _ _ _ _ Hh) as (c & Hc & He). unfold channel in Ev at 1. rewrite Hc, Ha0 in Ev. injection Ev as ->.
    by rewrite (isWriting_flag a0 e He). }
  destruct (isWriting a0) eqn:Hw; cbn [negb] in *.
  - split; [by apply goes_on_same|]. split; [done|]. right. by apply (Hch w).
  - split; [|split; [done|left; simpl; set_solver]]. exists [ShutdownWrite]. split_and!; try done.
    intros _. destruct (waiting w) eqn:Hn; [done|]. exfalso.
    assert (false = true) by (apply (Hch (emit [ShutdownWrite] w)); try done; cbn [conn emit]; by rewrite Hn). done.
Qed.

Lemma handleWrite_goes_on ans w w' :
  handleWrite embed true ans w = Ok w' -> conn_inv w -> conn_inv w' -> state_ (conn w) = kDisconnecting -> shutting w ->
  goes_on w w' /\ state_ (conn w') = kDisconnecting /\ (waiting w' = [] -> ShutdownWrite ∈ trace w').
Proof.
  intros E Hi0 Hi Hs [_ Hj]. unfold handleWrite in E. inv_res.
  assert (Hsame : goes_on w w /\ state_ (conn w) = kDisconnecting /\ (waiting w = [] -> ShutdownWrite ∈ trace w))
    by (split; [by apply goes_on_same|auto]).
  destruct (isWriting a0); [|by injection E as <-].
  unfold kernel_send in E. destruct ans as [k|]; [|by injection E as <-].
  destruct (k `min` readableBytes (outputBuffer_ (conn w))) as [|n] eqn:Hk; [by injection E as <-|].
  inv_res. set (w1 := set_conn (set_output a1 _) _) in *.
  assert (Hg1 : goes_on w w1).
  { eexists. split; [reflexivity|]. split; [done|]. split; [set_solver|]. intros Hn. exfalso.
    apply content_nil_iff in Hn; [|apply (ci_out _ Hi0)]. apply Nat.eqb_eq in Hn. lia. }
  cbn [conn set_conn outputBuffer_ set_output] in E. destruct (readableBytes a1 =? 0) eqn:Hz.
  - inv_res. destruct (request_only _ _ _ Ha2) as [Ec Et].
    set (w2 := if writeCompleteCallback_ (conn a2) then _ else a2) in *.
    assert (H2 : conn w2 = conn w1 /\ trace w2 = trace w1)
      by (unfold w2; destruct (writeCompleteCallback_ _); simpl; by rewrite ?Ec, ?Et). destruct H2 as [Ec2 Et2].
    rewrite decide_True in E by (rewrite Ec2; done).
    assert (Hop : is_open w' = true).
    { apply is_open_true. right. unfold shutdownInLoop in E. inv_res. destruct (negb _); simpl; by rewrite Ec2. }
    destruct (shutdownInLoop_waits _ _ E Hi Hop) as (Hg & Ec3 & Hor). split; [|split; [by rewrite Ec3, Ec2|tauto]].
    apply (goes_on_trans _ w1); [done|]. apply (goes_on_trans _ w2); [|done]. apply goes_on_same; by rewrite ?Et2, ?Ec2.
  - injection E as <-. split; [apply Hg1|]. split; [done|]. intros Hnil. exfalso.
    cbn [w1 conn set_conn outputBuffer_ set_output] in Hnil. apply content_nil_iff in Hnil; [congruence|apply (ci_out _ Hi)].
Qed.

(** ** Sending the file *)

Lemma sendInLoop_hands ans w w' :
  sendInLoop embed true ans fileContent w = Ok w' -> state_ (conn w) <> kDisconnected -> accepted (trace w) = [] ->
  ShutdownWrite ∉ trace w ->
  handed_over (trace w') /\ ShutdownWrite ∉ trace w' /\ state_ (conn w') = state_ (conn w).
Proof.
  unfold sendInLoop. intros E Hs Ha Hn. rewrite decide_False in E by done. inv_res.
  destruct (if negb (isWriting a0) && _ then _ else _) as [[w1 n] fault] eqn:Ht.
  assert (H1 : conn w1 = conn w /\ trace w1 = trace w).
  { destruct (_ && _) in Ht; [|by injection Ht as <- _ _]. unfold try_send in Ht.
    destruct (kernel_send _ _); [|by injection Ht as <- _ _]. injection Ht as <- _ _. clear. case_if; by split. }
  destruct H1 as [Ec1 Et1]. inv_res.
  set (w2 := emit [if fault then Dropped fileContent else Accepted fileContent; Wire (take n fileContent)] w1) in *.
  assert (H2 : handed_over (trace w2) /\ ShutdownWrite ∉ trace w2 /\ state_ (conn w2) = state_ (conn w)).
  { split; [|split; [simpl; rewrite Et1; destruct fault; set_solver|simpl; by rewrite Ec1]]. unfold handed_over. simpl. rewrite Et1, accepted_app, Ha. destruct fault.
    - right. split; [done|set_solver].
    - left. unfold accepted. simpl. by rewrite app_nil_r. }
  clearbody w2. clear -E H2. destruct (negb fault && _); [|by injection E as <-].
  set (hw := (_ && _ && _)%bool) in E. set (f := HighWaterMarkCallback _) in E.
  assert (H3 : handed_over (trace (if hw then queueInLoop embed f w2 else w2))
    /\ ShutdownWrite ∉ trace (if hw then queueInLoop embed f w2 else w2)
    /\ state_ (conn (if hw then queueInLoop embed f w2 else w2)) = state_ (conn w)) by (by destruct hw).
  set (w3 := if hw then _ else w2) in *. clearbody w3. inv_res.
  destruct (negb _); [|by injection E as <-]. destruct (request_only _ _ _ E) as [-> ->]. done.
Qed.

(** The connection comes up. *)
Lemma established_inv ans calls w w' :
  conn_inv w -> state_ (conn w) = kConnecting -> trace w = [] -> file_onConnection true fileContent ans = Ok calls ->
  connectEstablished embed true calls w = Ok w' -> file_inv w'.
Proof.
  intros Hi Hs Ht Ec0 E. destruct (piece_of_string_text fileContent Hfits) as (p & Ep & Hp).
  unfold file_onConnection in Ec0. rewrite Ep in Ec0. injection Ec0 as <-. pose proof (wp_ok _ _ _ _ (connectEstablished_inv embed _ w Hi Hs) E) as (Hi' & Hl & Hop).
  split; [done|]. unfold connectEstablished, connectionCallback_ in E. inv_res.
  destruct (request_only _ _ _ Ha1) as [Ec Et]. cbn [exec_uops exec_uop] in E. inv_res.
  set (w1 := emit _ a1) in *. assert (H1 : state_ (conn w1) = kConnected) by (simpl; by rewrite Ec).
  unfold send, sendInLoop_piece in Ha2. rewrite sp_of_piece_text, Hp, decide_True in Ha2 by exact H1.
  assert (Et1 : trace w1 = [ConnectionCallback (connected (conn a1))])
    by (unfold w1; cbn [emit trace]; rewrite Et; cbn [set_conn trace]; by rewrite Ht).
  destruct (sendInLoop_hands _ _ _ Ha2) as (Hh & Hns & Hs2); [congruence|by rewrite Et1|rewrite Et1; set_solver|].
  unfold shutdown in Ha3. rewrite decide_True in Ha3 by congruence.
  destruct (shutdownInLoop_waits _ _ Ha3 Hi' Hop) as (Hg & Ec3 & Hor). rewrite Ec3. cbn [conn set_conn setState state_].
  split; [by apply (handed_goes_on _ _ Hg)|]. split; [|intros _ Hnil; by destruct Hor].
  by apply (shut_goes_on _ _ Hg).
Qed.

(** ** One step *)

(** A connection that is going down or is down. *)
Definition sent w : Prop :=
  conn_inv w /\ (state_ (conn w) = kDisconnecting \/ state_ (conn w) = kDisconnected)
  /\ handed_over (trace w) /\ shutting w.

Lemma sent_file_inv w : sent w -> file_inv w.
Proof. intros (Hi & Hs & Hh & Hj). split; [done|]. by destruct Hs as [-> | ->]. Qed.

Lemma sent_only_input w w' : sent w -> conn_inv w' -> only_input w w' -> sent w'.
Proof.
  intros (Hi & Hs & Hh & Hj) Hi' (b & Ec & Et). split; [done|]. unfold shutting. rewrite Ec, Et. done.
Qed.

Lemma sent_closed w w' : sent w -> conn_inv w' -> goes_on w w' -> state_ (conn w') = kDisconnected -> sent w'.
Proof.
  intros (Hi & Hs & Hh & Hj) Hi' Hg Hd. split; [done|]. split; [by right|].
  split; [by apply (handed_goes_on w)|]. split; [by apply (shut_goes_on w), Hj|congruence].
Qed.

Lemma sent_not_connecting w : sent w -> state_ (conn w) <> kConnecting.
Proof. intros (_ & [-> | ->] & _); done. Qed.

Lemma sent_write ans w w' : sent w -> handleWrite embed true ans w = Ok w' -> sent w'.
Proof.
  intros Hsent E. pose proof Hsent as (Hi & Hs & Hh & Hj).
  destruct (wp_ok _ _ _ _ (handleWrite_inv embed ans w Hi (sent_not_connecting w Hsent)) E) as [Hi' _].
  destruct Hs as [Hs|Hs].
  - destruct (handleWrite_goes_on ans w w' E Hi Hi' Hs Hj) as (Hg & Hs' & Hj').
    split; [done|]. split; [by left|]. split; [by apply (handed_goes_on w)|]. split; [by apply (shut_goes_on w), Hj|done].
  - unfold handleWrite in E. inv_res. destruct Hi as [_ _ _ _ (st & e & Hc & Hst)]. unfold state_ok in Hst. rewrite Hs in Hst.
    destruct Hst as (_ & -> & _). destruct (holds_channel _ _ _ _ Hc) as (c & Hc' & He).
    unfold channel in Ha0. rewrite Hc' in Ha0. injection Ha0 as <-. rewrite (isWriting_flag c _ He) in E. by injection E as <-.
Qed.

Lemma sent_read r calls w w' :
  sent w -> is_open w = true -> recv_fits r (inputBuffer_ (conn w)) -> retrieves calls ->
  handleRead embed true r calls w = Ok w' -> sent w'.
Proof.
  intros Hsent Ho Hf Hr E. pose proof Hsent as (Hi & Hs & Hh & Hj).
  destruct (wp_ok _ _ _ _ (conn_handleRead_inv embed r calls w Hi Ho Hf) E) as [Hi' _].
  unfold handleRead in E. inv_res. destruct a0 as [[n err] b]. set (w1 := set_conn (set_input b (conn w)) w) in *.
  assert (H1 : only_input w w1) by (by exists b). destruct (0 <? n)%Z.
  - destruct (retrieves_only _ _ _ Hr E) as (b' & Ec & Et). unfold sent, shutting. rewrite Ec, Et.
    assert (Hg : goes_on w (emit [MessageCallback] w1)) by (apply (goes_on_still _ _ [MessageCallback]); [done..|set_solver|done]).
    split; [done|]. split; [done|]. split; [by apply (handed_goes_on w)|]. split; [by apply (shut_goes_on w _ Hg), Hj|].
    intros Hd Hn. cbn [trace emit set_conn w1]. apply elem_of_app. left. by apply Hj.
  - destruct (n =? 0)%Z; [|by injection E as <-; apply (sent_only_input w)].
    destruct (handleClose_goes_on _ _ _ Hr E) as [Hg Hd]. by apply (sent_closed w).
Qed.

Lemma sent_close calls w w' :
  sent w -> is_open w = true -> retrieves calls -> handleClose embed true calls w = Ok w' -> sent w'.
Proof.
  intros Hsent Ho Hr E. pose proof Hsent as (Hi & _). destruct (handleClose_goes_on _ _ _ Hr E) as [Hg Hd].
  destruct (wp_ok _ _ _ _ (handleClose_inv embed calls w Hi Ho) E) as [[Hi' _] _]. by apply (sent_closed w).
Qed.

Lemma sent_rest inp (we ww : bool) w w' :
  sent w -> run_all (conn_callback embed inp) ((if we then [CbError] else []) ++ (if ww then [CbWrite] else [])) w = Ok w' ->
  sent w'.
Proof.
  intros Hsent. destruct we, ww; simpl; unfold handleError; intros E; inv_res; try done; by eapply sent_write.
Qed.

Lemma sent_event inp r w w' :
  sent w -> enabled (OpEvent inp r) w -> retrieves (in_calls inp) -> conn_event embed inp r w = Ok w' -> sent w'.
Proof.
  intros Hsent (Ho & Hfit & Hhup) Hr. unfold conn_event, callbacks_for, calls_close, calls_error, calls_read, calls_write.
  intros E. inv_res. simpl in E. rewrite !andb_true_r in E.
  destruct (has_flag r POLLHUP && negb (has_flag r POLLIN)) eqn:Hc.
  - apply andb_true_iff in Hc as [H1 H2%negb_true_iff]. rewrite (Hhup H1 H2) in E. simpl in E. inv_res.
    apply (sent_rest inp _ _ _ _ (sent_close _ _ _ Hsent Ho Hr Ha0) E).
  - simpl in E. destruct (has_flag r (Z.lor POLLIN POLLPRI)); [|by apply (sent_rest _ _ _ _ _ Hsent E)].
    rewrite run_all_app in E. inv_res.
    assert (a0 = w) as -> by (destruct (has_flag r (Z.lor POLLERR POLLNVAL)); simpl in Ha0; unfold handleError in Ha0; by inv_res).
    simpl in E. inv_res. pose proof (sent_read _ _ _ _ Hsent Ho Hfit Hr Ha1) as H1.
    by apply (sent_rest inp false _ _ _ H1 E).
Qed.

Lemma file_step op w w' : file_inv w -> file_enabled op w -> conn_exec embed op w = Ok w' -> file_inv w'.
Proof.
  intros [Hi Hs] [He Hc] E. pose proof (wp_ok _ _ _ _ (conn_exec_inv embed op w Hi He) E) as Hi'.
  assert (Hsent : state_ (conn w) <> kConnecting -> sent w).
  { intros Hn. split; [done|]. destruct (state_ (conn w)); try done; destruct Hs; auto. }
  destruct op as [inp r|inp f|calls|calls|m| | |l]; cbn [conn_exec] in E; try done.
  - destruct He as (Ho & Hrest). apply sent_file_inv, (sent_event inp r w); try done.
    apply Hsent. intros Hx. apply is_open_true in Ho. rewrite Hx in Ho. by destruct Ho.
  - destruct f; try done. destruct He as [Hn _]. cbn [run_functor] in E.
    apply sent_file_inv, (sent_only_input w); [by apply Hsent|done|by eapply retrieves_only].
  - destruct Hc as [ans Hc]. cbn in He. rewrite He in Hs. by apply (established_inv ans calls w).
  - destruct He as (_ & [Hx|[Hx _]]); [by rewrite Hx in Hs|]. unfold connectDestroyed in E. rewrite decide_False in E by congruence.
    inv_res. split; [done|]. cbn [conn set_loop trace] in *. by rewrite Hx in *.
  - injection E as <-. split; [done|]. exact Hs.
Qed.

Lemma file_reach_inv w0 w : fresh w0 -> file_reach w0 w -> file_inv w.
Proof.
  intros Hf Hr. induction Hr as [|w op w' Hr IH He Hx]; [|by eapply file_step].
  split; [by apply fresh_inv|]. destruct Hf as (-> & _ & _ & _ & Ht & _). exact Ht.
Qed.

Lemma wired_prefix w : conn_inv w -> accepted (trace w) = fileContent \/ accepted (trace w) = [] ->
  wired (trace w) `prefix_of` fileContent.
Proof.
  intros Hi [Ha|Ha]; rewrite (ci_stream _ Hi) in Ha; [by eexists|].
  apply app_nil in Ha as [-> _]. by exists fileContent.
Qed.
End FileServer.

(** ** The client counts what arrives *)

Lemma file_reads_spec buf cnt text reads :
  buf_inv buf -> content buf = [] ->
  file_reads buf cnt text reads
  = Ok (fold_left (fun n r => wrapS 32 (n + Z.of_nat (length r))) reads cnt, text ++ concat reads).
Proof.
  revert buf cnt text; induction reads as [|r reads IH]; intros buf cnt text Hb Hc; cbn [file_reads fold_left concat];
    [by rewrite app_nil_r|].
  destruct (append_str_spec r buf Hb) as (b1 & -> & Hb1 & Hc1 & _). rewrite Hc in Hc1. run_res.
  unfold file_messageCallback, retrieveAllAsString.
  destruct (retrieveAsString_spec (readableBytes b1) b1 Hb1 (le_n _)) as (b2 & -> & Hb2 & Hc2). run_res.
  rewrite <- (length_content b1 Hb1), Hc1 in *. cbn [app] in *. rewrite take_ge, drop_ge in * by done.
  rewrite IH by done. by rewrite <- app_assoc.
Qed.

Lemma count_wraps reads n :
  fold_left (fun n r => wrapS 32 (n + Z.of_nat (length r))) reads (wrapS 32 n)
  = wrapS 32 (n + Z.of_nat (length (concat reads : bytes))).
Proof.
  revert n; induction reads as [|r reads IH]; intros n; cbn [fold_left concat]; [by rewrite Z.add_0_r|].
  rewrite wrapS_add, IH, length_app by done. f_equal. lia.
Qed.

Section Transfer.
Context `{Platform} {L F : Type} `{!ChannelHost L F} `{!ChannelHostLaws L F} (embed : functor -> F).

(** C30: a file of less than 2 GiB that can be read is transferred whole and in
    order: its text becomes a piece that [send] takes whole. Whatever portions the
    kernel takes, what it has taken of a connection is a beginning of the file; the
    write side is shut down when, and only when, the kernel has the whole file,
    unless the send failed because the connection was broken; and a client
    that reads what the network delivered, in whatever pieces, has a beginning
    of the file and has counted its bytes modulo 2^32. *)
Theorem file_transferred file good fileContent w0 w reads :
  length file <= good -> fits_int file -> readFile (Some (file, good)) = Ok fileContent ->
  fresh w0 -> file_reach embed fileContent w0 w -> concat reads `prefix_of` wired (trace w) ->
  (forall connected ans, exists calls, file_onConnection connected fileContent ans = Ok calls)
  /\ (ShutdownWrite ∈ trace w -> wired (trace w) = file \/ Dropped file ∈ trace w)
  /\ (is_open w = true -> wired (trace w) = file -> ShutdownWrite ∈ trace w)
  /\ file_reads (new_Buffer kInitialSize) 0 [] reads
     = Ok (wrapS 32 (Z.of_nat (length (concat reads))), concat reads)
  /\ concat reads `prefix_of` file.
Proof.
  intros Hg Hsz Hread Hf Hr Hp. rewrite readFile_spec, take_ge in Hread by done. injection Hread as <-.
  destruct (file_reach_inv embed file Hsz w0 w Hf Hr) as [Hi Hs]. split_and!.
  - intros [|] ans; [|by eexists]. destruct (piece_of_string_text file Hsz) as (p & Ep & _).
    unfold file_onConnection. rewrite Ep. by eexists.
  - intros Hin. destruct (state_ (conn w)) eqn:E; try done; [|by rewrite Hs in Hin; apply elem_of_nil in Hin|].
    all: destruct Hs as [[Ha|[_ Hd]] [Hj _]]; [left|by right]; rewrite (ci_stream _ Hi), (Hj Hin), app_nil_r in Ha; done.
  - intros [Ho|Ho]%is_open_true Hw; rewrite Ho in Hs; [done|]. destruct Hs as [[Ha|[Ha Hd]] [_ Hj]].
    + apply Hj; [done|]. rewrite (ci_stream _ Hi), Hw in Ha. rewrite <- (app_nil_r file) in Ha at 2. by apply app_inv_head in Ha.
    + apply Hj; [done|]. rewrite (ci_stream _ Hi) in Ha. by apply app_nil in Ha as [_ ->].
  - rewrite file_reads_spec by (apply new_Buffer_inv || done). cbn [app]. f_equal. f_equal. apply (count_wraps reads 0).
  - etrans; [exact Hp|]. apply (wired_prefix file w Hi). destruct (state_ (conn w)); try done.
    + by destruct Hs as [[Ha|[Ha _]] _]; auto.
    + rewrite Hs. by right.
    + by destruct Hs as [[Ha|[Ha _]] _]; auto.
Qed.
End Transfer.

(** ** A file of five bytes in three portions *)
Module FileOnWindows.
#[local] Instance platform : Platform := windows.

Definition file_world : world (EventLoop functor) :=
  set_conn (setHighWaterMarkCallback file_highWaterMark (conn demo_world)) demo_world.
Definition file_calls (ans : send_result) : list uop :=
  match file_onConnection true (str "hello") ans with Ok calls => calls | Fault _ => [] end.
Definition file_up : world (EventLoop functor) :=
  the (connectEstablished id true (file_calls (Sent 2)) file_world).
Definition writable_event : conn_op (L:=EventLoop functor) := OpEvent demo_input (@POLLOUT windows).
Definition file_middle : world (EventLoop functor) := the (conn_exec id writable_event file_up).
Definition file_done : world (EventLoop functor) := the (conn_exec id writable_event file_middle).

Lemma file_done_reach : file_reach id (str "hello") file_world file_done.
Proof.
  apply (file_next id _ file_world file_middle writable_event); [|split|vm_compute; reflexivity].
  - apply (file_next id _ file_world file_up writable_event); [|split|vm_compute; reflexivity].
    + apply (file_next id _ file_world file_world (OpEstablished (file_calls (Sent 2))));
        [constructor| |vm_compute; reflexivity]. split; [done|by exists (Sent 2)].
    + split; [reflexivity|]. split; [left; vm_compute; discriminate|discriminate].
    + by intros u ?%elem_of_nil.
  - split; [reflexivity|]. split; [left; vm_compute; discriminate|discriminate].
  - by intros u ?%elem_of_nil.
Qed.

Lemma file_world_fresh : fresh file_world.
Proof. exact (demo_fresh windows). Qed.

Lemma file_transferred_witness :
  readFile (Some (str "hello", 5)) = Ok (str "hello") /\ ShutdownWrite ∈ trace file_done
  /\ file_reads (new_Buffer kInitialSize) 0 [] [str "h"; str "ello"] = Ok (5%Z, str "hello").
Proof.
  destruct (file_transferred id (str "hello") 5 (str "hello") file_world file_done [str "h"; str "ello"])
    as (_ & _ & Hs & Hr & _);
    [done|by vm_compute|vm_compute; reflexivity|apply file_world_fresh|apply file_done_reach|by exists []|].
  split; [vm_compute; reflexivity|]. split; [apply Hs; vm_compute; reflexivity|exact Hr].
Defined.
End FileOnWindows.
