(* ===== verification/EchoConn.v ===== *)
(** * A message that circles between an echo client and an echo server

    src/msexamples/netty/echo: the client sends its message when the connection
    is up ([echo_client.cpp]), and both sides send back what they receive
    ([echo_server.cpp]). Each side is a [TcpConnection] with these callbacks; the
    network between them loses and reorders nothing, and delays and cuts what
    it likes. The counters of the server are in PingPong. *)
From S2P Require Import Prelude.
From S2P Require Import Endian.
From S2P Require Import StringPiece.
From S2P Require Import Buffer.
From S2P Require Import BufferFacts.
From S2P Require Import Channel.
From S2P Require Import Poller.
From S2P Require Import EventLoop.
From S2P Require Import ChannelHost.
From S2P Require Import TcpConnection.
From S2P Require Import TcpConnectionFacts.
From S2P Require Import ConnUse.

(** The two programs. *)
Inductive role := TheClient (message_ : piece) | TheServer.

(** [onConnection]: what it calls on the connection when it comes up; when it
    goes down the client quits its loop. *)
Definition echo_up (r : role) (ans : send_result) : list uop :=
  match r with TheClient message_ => [USend message_ ans] | TheServer => [] end.

(** [onMessage]: what was received and the calls on the connection. *)
Definition echo_message (r : role) (ans : send_result) (buf : Buffer) : res (bytes * list uop) :=
  match r with
  | TheClient _ =>
      '(message, _) ← retrieveAllAsString buf;
      reply ← piece_of_string message;
      Ok (message, [URetrieve (length message); USend reply ans])
  | TheServer => Ok (content buf, [USendInput ans])
  end.

Section EchoConn.
Context `{Platform} {L F : Type} `{!ChannelHost L F} `{!ChannelHostLaws L F} (embed : functor -> F).
Implicit Types (w : world L).

(** ** One side *)

(** [e_reads]: the messages its callback was given. *)
Record side := mkSide { e_world : world L; e_reads : list bytes }.

Definition echo_read (r : role) (recv : recv_result) (reply : send_result) (e : side) : res (list uop * list bytes) :=
  '(n, _, buf) ← readFd recv (inputBuffer_ (conn (e_world e)));
  if (0 <? n)%Z then
    '(message, calls) ← echo_message r reply buf;
    Ok (calls, e_reads e ++ [message])
  else Ok ([], e_reads e).

Inductive side_op :=
  | SideUp (ans : send_result)
  | SideEvent (recv : recv_result) (reply write : send_result) (revents : Z)
  | SideDestroyed
  | SideLoop (l : L).

Definition side_exec (r : role) (op : side_op) (e : side) : res side :=
  match op with
  | SideUp ans => w ← conn_exec embed (OpEstablished (echo_up r ans)) (e_world e); Ok (mkSide w (e_reads e))
  | SideEvent recv reply write revents =>
      '(calls, reads) ← (if has_flag revents (Z.lor POLLIN POLLPRI) then echo_read r recv reply e else Ok ([], e_reads e));
      w ← conn_exec embed (OpEvent (mkInputs recv write calls) revents) (e_world e);
      Ok (mkSide w reads)
  | SideDestroyed => w ← conn_exec embed (OpDestroyed []) (e_world e); Ok (mkSide w (e_reads e))
  | SideLoop l => w ← conn_exec embed (OpLoop l) (e_world e); Ok (mkSide w (e_reads e))
  end.

Definition side_enabled (op : side_op) (e : side) : Prop :=
  match op with
  | SideUp _ => enabled (OpEstablished []) (e_world e)
  | SideEvent recv _ write revents => enabled (OpEvent (mkInputs recv write []) revents) (e_world e)
  | SideDestroyed => enabled (OpDestroyed []) (e_world e)
  | SideLoop l => enabled (OpLoop l) (e_world e)
  end.

(** What a side has received and what it has given to the kernel. *)
Definition received (e : side) : bytes := concat (e_reads e).
Definition given (e : side) : bytes := wired (trace (e_world e)).
Definition waiting (e : side) : bytes := content (outputBuffer_ (conn (e_world e))).
Definition unbroken (e : side) : Prop := forall m, Dropped m ∉ trace (e_world e).

Definition op_data (op : side_op) : bytes :=
  match op with SideEvent (RecvData d) _ _ _ => d | _ => [] end.

(** ** Both *)

Record circle := mkCircle { the_client : side; the_server : side }.

Inductive circle_op := ClientDoes (op : side_op) | ServerDoes (op : side_op).

Context (message_ : piece).
Abbreviation the_text := (piece_text message_).

Definition circle_exec (op : circle_op) (k : circle) : res circle :=
  match op with
  | ClientDoes op => e ← side_exec (TheClient message_) op (the_client k); Ok (mkCircle e (the_server k))
  | ServerDoes op => e ← side_exec TheServer op (the_server k); Ok (mkCircle (the_client k) e)
  end.

Definition circle_enabled (op : circle_op) (k : circle) : Prop :=
  match op with
  | ClientDoes op => side_enabled op (the_client k) /\ (received (the_client k) ++ op_data op) `prefix_of` given (the_server k)
  | ServerDoes op => side_enabled op (the_server k) /\ (received (the_server k) ++ op_data op) `prefix_of` given (the_client k)
  end.

Inductive circle_reach (k0 : circle) : circle -> Prop :=
  | circle_start : circle_reach k0 k0
  | circle_next k op k' : circle_reach k0 k -> circle_enabled op k -> circle_exec op k = Ok k' -> circle_reach k0 k'.

(** ** A side sends back what it gets *)

Definition opening (r : role) : list bytes := match r with TheClient m => [piece_text m] | TheServer => [] end.

Definition side_inv (r : role) (e : side) : Prop :=
  conn_inv (e_world e) /\ content (inputBuffer_ (conn (e_world e))) = []
  /\ match state_ (conn (e_world e)) with
     | kConnecting => e_reads e = [] /\ trace (e_world e) = []
     | kConnected | kDisconnected => handed (trace (e_world e)) = opening r ++ e_reads e
     | kDisconnecting => False
     end.

Definition running (r : role) (e : side) : Prop :=
  content (inputBuffer_ (conn (e_world e))) = []
  /\ handed (trace (e_world e)) = opening r ++ e_reads e
  /\ (state_ (conn (e_world e)) = kConnected \/ state_ (conn (e_world e)) = kDisconnected).

Lemma running_idle r e w' : running r e -> idle (e_world e) w' -> running r (mkSide w' (e_reads e)).
Proof.
  intros (Hi & Hh & Hs) (Eh & Ei & Es). split; [by rewrite <- Hi, <- Ei|]. split; [cbn [e_world e_reads]; by rewrite Eh|].
  cbn [e_world]. destruct Es as [-> | ->]; auto.
Qed.

Lemma running_inv r e : conn_inv (e_world e) -> running r e -> side_inv r e.
Proof. intros Hc (Hi & Hh & Hs). split; [done|]. split; [done|]. by destruct Hs as [-> | ->]. Qed.

Lemma inv_running r e : side_inv r e -> state_ (conn (e_world e)) <> kConnecting -> running r e.
Proof.
  intros (Hc & Hi & Hs) Hn. split; [done|]. destruct (state_ (conn (e_world e))); try done; auto.
Qed.

Lemma inv_running_open r e : side_inv r e -> is_open (e_world e) = true -> running r e /\ state_ (conn (e_world e)) = kConnected.
Proof.
  intros Hinv Ho%is_open_true. pose proof Hinv as (_ & _ & Hs). split; [apply inv_running; [done|destruct Ho; congruence]|].
  destruct Ho as [Ho|Ho]; [done|by rewrite Ho in Hs].
Qed.

(** Sending back on a connection that is up. *)
Lemma send_up message ans w w' :
  send embed true ans (sp_of_piece message) w = Ok w' -> state_ (conn w) = kConnected ->
  handed (trace w') = handed (trace w) ++ [piece_text message] /\ state_ (conn w') = kConnected
  /\ inputBuffer_ (conn w') = inputBuffer_ (conn w).
Proof.
  unfold send, sendInLoop_piece. rewrite sp_of_piece_text. intros E Hs. rewrite decide_True in E by done.
  destruct (sendInLoop_handed embed _ _ _ _ E) as (Hh & Hs' & Hi); [congruence|]. by rewrite Hs', Hs.
Qed.

(** The calls of [onMessage] when the input buffer holds [d]. *)
Lemma echo_calls r reply buf d calls w w' :
  echo_message r reply buf = Ok (d, calls) -> content (inputBuffer_ (conn w)) = d -> buf_inv (inputBuffer_ (conn w)) ->
  fits_int d -> state_ (conn w) = kConnected -> exec_uops embed calls w = Ok w' ->
  handed (trace w') = handed (trace w) ++ [d] /\ content (inputBuffer_ (conn w')) = [] /\ state_ (conn w') = kConnected.
Proof.
  intros Em Hc Hb Hfit Hs E. destruct r as [m|]; cbn [echo_message] in Em.
  - destruct (retrieveAllAsString buf) as [[message b]|]; [|done]. cbn [mbind res_bind] in Em.
    destruct (piece_of_string message) as [p|] eqn:Ep; [|done]. cbn [mbind res_bind] in Em. injection Em as <- <-.
    destruct (piece_of_string_text message Hfit) as (p' & Ep' & Hp). rewrite Ep in Ep'. injection Ep' as <-.
    destruct (exec_retrieve embed _ _ _ _ Hb E) as (w1 & E1 & Et & Es & Ec). cbn [exec_uops exec_uop] in E1.
    destruct (send embed true reply (sp_of_piece p) w1) as [w2|] eqn:Esend; [|done]. injection E1 as <-.
    destruct (send_up _ _ _ _ Esend) as (Hh & Hs1 & Hi); [congruence|]. rewrite Hh, Hs1, Hi, Et, Ec, Hc, Hp. split; [done|]. split; [|done].
    apply drop_ge. rewrite <- length_content, Hc by done. lia.
  - injection Em as <- <-. cbn [exec_uops exec_uop] in E. unfold send_buffer in E.
    rewrite decide_True in E by done. destruct (sendInLoop embed true reply _ w) as [w1|] eqn:Esend; [|done]. injection E as <-.
    destruct (sendInLoop_handed embed _ _ _ _ Esend) as (Hh & Hs1 & Hi); [congruence|]. cbn [set_conn trace conn set_input inputBuffer_ state_].
    rewrite Hh, Hs1, Hs, Hc. split; [done|]. split; [apply retrieveAll_content|done].
Qed.

Lemma echo_message_ok r reply buf :
  buf_inv buf -> fits_int (content buf) -> exists calls, echo_message r reply buf = Ok (content buf, calls).
Proof.
  intros Hb Hfit. destruct r; cbn [echo_message]; [|by eexists]. unfold retrieveAllAsString.
  destruct (retrieveAsString_spec (readableBytes buf) buf Hb (le_n _)) as (b & -> & _ & _). run_res.
  rewrite take_ge by (by rewrite length_content).
  destruct (piece_of_string_text _ Hfit) as (p & -> & _). by eexists.
Qed.

(** A read. *)
Lemma echo_read_ok r recv reply e :
  conn_inv (e_world e) -> content (inputBuffer_ (conn (e_world e))) = [] ->
  recv_fits recv (inputBuffer_ (conn (e_world e))) -> fits_int (op_data (SideEvent recv reply reply 0)) ->
  exists n err buf calls,
    readFd recv (inputBuffer_ (conn (e_world e))) = Ok (n, err, buf) /\ buf_inv buf
    /\ content buf = op_data (SideEvent recv reply reply 0)
    /\ echo_read r recv reply e
      = Ok (if (0 <? n)%Z then (calls, e_reads e ++ [content buf]) else ([], e_reads e))
    /\ ((0 <? n)%Z = true -> echo_message r reply buf = Ok (content buf, calls))
    /\ ((0 <? n)%Z = false -> content buf = []).
Proof.
  intros Hi Hin Hfit Hint. destruct (readFd_ok recv _ (ci_in _ Hi) Hfit) as (n & err & buf & E & Hb & Hc & Hn).
  rewrite Hin in Hc. cbn [app] in Hc. assert (Hcb : content buf = op_data (SideEvent recv reply reply 0)) by (by destruct recv).
  destruct (echo_message_ok r reply buf Hb) as [calls Em]; [by rewrite Hcb|]. exists n, err, buf, calls.
  split; [done|]. split; [done|]. split; [by destruct recv|]. unfold echo_read. rewrite E. run_res. split.
  - destruct (0 <? n)%Z; [rewrite Em|]; done.
  - split; [done|]. intros Hlt. destruct recv as [d|]; [|done]. rewrite Hc. subst n. apply Z.ltb_ge in Hlt. destruct d; [done|simpl in Hlt; lia].
Qed.

Lemma event_running r recv reply write revents e calls reads w' :
  conn_inv (e_world e) -> running r e -> state_ (conn (e_world e)) = kConnected ->
  side_enabled (SideEvent recv reply write revents) e -> fits_int (op_data (SideEvent recv reply write revents)) ->
  (if has_flag revents (Z.lor POLLIN POLLPRI) then echo_read r recv reply e else Ok ([], e_reads e)) = Ok (calls, reads) ->
  conn_event embed (mkInputs recv write calls) revents (e_world e) = Ok w' ->
  running r (mkSide w' reads)
  /\ concat reads `prefix_of` received e ++ op_data (SideEvent recv reply write revents).
Proof.
  intros Hi Hrun Hup (Hop & Hfit & Hhup) Hint Er. unfold conn_event, callbacks_for, calls_close, calls_error, calls_read, calls_write.
  intros E. inv_res. simpl in E. rewrite !andb_true_r in E.
  destruct (has_flag revents POLLHUP && negb (has_flag revents POLLIN)) eqn:Hc.
  - apply andb_true_iff in Hc as [H1 H2%negb_true_iff]. rewrite (Hhup H1 H2) in *. injection Er as <- <-. simpl in E. inv_res.
    apply handleClose_idle in Ha0 as [Hid _]. apply rest_idle in E. split; [|by apply prefix_app_r].
    apply running_idle; [done|by eapply idle_trans].
  - simpl in E. destruct (has_flag revents (Z.lor POLLIN POLLPRI)).
    2:{ injection Er as <- <-. apply rest_idle in E. split; [by apply running_idle|by apply prefix_app_r]. }
    rewrite run_all_app in E. inv_res.
    assert (a0 = e_world e) as -> by (destruct (has_flag revents (Z.lor POLLERR POLLNVAL)); simpl in Ha0; unfold handleError in Ha0; by inv_res).
    simpl in E. inv_res. apply (rest_idle embed _ false) in E. destruct Hrun as (Hin & Hh & Hst).
    destruct (echo_read_ok r recv reply e Hi Hin Hfit Hint) as (n & err & buf & calls1 & E1 & Hb & Hcb & Er1 & Hm & Hz).
    rewrite Er in Er1. unfold handleRead in Ha1. cbn [assert_in_loop in_recv in_calls] in Ha1. rewrite E1 in Ha1. inv_res.
    set (w1 := set_conn (set_input buf (conn (e_world e))) (e_world e)) in *.
    destruct (0 <? n)%Z eqn:Hlt.
    + injection Er1 as -> ->. specialize (Hm eq_refl).
      destruct (echo_calls r reply buf (content buf) calls1 (emit [MessageCallback] w1) a0 Hm) as (Hh1 & Hin1 & Hs1); try done; [by rewrite Hcb|].
      assert (Hrun1 : running r (mkSide a0 (e_reads e ++ [content buf]))).
      { split; [exact Hin1|]. cbn [e_world e_reads]. split; [|by left]. rewrite Hh1. cbn [emit trace w1 set_conn].
        rewrite handed_more, app_nil_r, Hh, app_assoc. done. }
      split; [by apply (running_idle r _ w' Hrun1)|]. rewrite concat_app. simpl. rewrite app_nil_r, Hcb.
      unfold received. by destruct recv.
    + injection Er1 as -> ->. split; [|by apply prefix_app_r]. apply (running_idle r e w'); [by split|].
      apply (idle_trans _ a0); [|done]. apply (idle_trans _ w1).
      { split; [done|]. split; [|by left]. cbn [w1 set_conn conn set_input inputBuffer_]. by rewrite Hz, Hin. }
      destruct (n =? 0)%Z; [exact (proj1 (handleClose_idle embed _ _ Ha1))|]. injection Ha1 as <-. apply idle_refl.
Qed.

(** ** One step of a side *)

Lemma conn_runs o w :
  conn_inv w -> enabled o w -> exists w', conn_exec embed o w = Ok w' /\ conn_inv w' /\ grows w w'.
Proof.
  intros Hi Ho. pose proof (conn_exec_inv embed o w Hi Ho) as Hs.
  destruct (conn_exec embed o w) as [w'|] eqn:E; [|done]. exists w'. split; [done|]. split; [done|]. by eapply conn_exec_grows.
Qed.

Lemma established_running r ans e w' :
  side_inv r e -> state_ (conn (e_world e)) = kConnecting ->
  connectEstablished embed true (echo_up r ans) (e_world e) = Ok w' -> running r (mkSide w' (e_reads e)).
Proof.
  intros (Hi & Hin & Hs) Hc E. rewrite Hc in Hs. destruct Hs as [Hr Ht].
  unfold connectEstablished, connectionCallback_ in E. inv_res. destruct (request_only _ _ _ Ha1) as [Ec Et].
  set (w1 := emit _ a1) in E.
  assert (H1 : handed (trace w1) = [] /\ state_ (conn w1) = kConnected /\ inputBuffer_ (conn w1) = inputBuffer_ (conn (e_world e))).
  { cbn [w1 emit trace conn]. rewrite Et, Ec. cbn [set_conn trace conn setState state_ inputBuffer_]. by rewrite Ht. }
  clearbody w1. destruct H1 as (Hh1 & Hs1 & Hi1). unfold running. cbn [e_world e_reads]. rewrite Hr.
  destruct r as [m|]; cbn [echo_up exec_uops exec_uop] in E.
  - destruct (send embed true ans (sp_of_piece m) w1) as [w2|] eqn:Es; [|done]. injection E as <-.
    destruct (send_up _ _ _ _ Es Hs1) as (Hh & Hs2 & Hi2). rewrite Hh, Hs2, Hi2, Hi1, Hh1. by auto.
  - injection E as <-. rewrite Hi1, Hh1, Hs1. by auto.
Qed.

Lemma side_step r op e :
  side_inv r e -> side_enabled op e -> fits_int (op_data op) ->
  exists e', side_exec r op e = Ok e' /\ side_inv r e' /\ grows (e_world e) (e_world e')
    /\ received e' `prefix_of` received e ++ op_data op.
Proof.
  intros Hinv He Hint. pose proof Hinv as (Hi & Hin & Hs).
  assert (Hsame : forall e', e_reads e' = e_reads e -> received e' `prefix_of` received e ++ op_data op)
    by (intros e' E; unfold received; rewrite E; by apply prefix_app_r).
  destruct op as [ans|recv reply write revents| |l]; cbn [side_exec side_enabled] in *.
  - destruct (conn_runs (OpEstablished (echo_up r ans)) _ Hi He) as (w' & E & Hi' & Hg). rewrite E. eexists. split; [done|].
    split; [|split; [done|by apply Hsame]]. apply running_inv; [done|]. by apply (established_running r ans e).
  - destruct (inv_running_open r e Hinv (proj1 He)) as [Hrun Hup]. destruct He as (Hop & Hfit & Hhup). cbn [in_recv] in Hfit.
    assert (Er : exists calls reads, (if has_flag revents (Z.lor POLLIN POLLPRI) then echo_read r recv reply e else Ok ([], e_reads e)) = Ok (calls, reads)).
    { destruct (has_flag revents _); [|by eexists _, _].
      destruct (echo_read_ok r recv reply e Hi Hin Hfit Hint) as (n & err & buf & calls & _ & _ & _ & -> & _).
      destruct (0 <? n)%Z; by eexists _, _. }
    destruct Er as (calls & reads & Er). rewrite Er. run_res.
    destruct (conn_runs (OpEvent (mkInputs recv write calls) revents) _ Hi) as (w' & E & Hi' & Hg); [by split_and!|].
    rewrite E. eexists. split; [done|].
    destruct (event_running r recv reply write revents e calls reads w' Hi Hrun Hup) as [Hrun' Hp]; [by split_and!|done..|].
    split; [by apply running_inv|]. split; [done|exact Hp].
  - destruct (conn_runs (OpDestroyed []) _ Hi He) as (w' & E & Hi' & Hg). rewrite E. eexists. split; [done|].
    split; [|split; [done|by apply Hsame]].
    assert (Hn : state_ (conn (e_world e)) <> kConnecting) by (destruct He as (_ & [Hx|[Hx _]]); congruence).
    apply running_inv; [done|]. apply (running_idle r e w'); [by apply inv_running|]. by apply (destroyed_idle embed).
  - destruct (conn_runs (OpLoop l) _ Hi He) as (w' & E & Hi' & Hg). rewrite E. eexists. split; [done|].
    split; [|split; [done|by apply Hsame]]. injection E as <-. split; [done|]. exact (conj Hin Hs).
Qed.

(** ** The circle *)

Definition circle_inv (k : circle) : Prop :=
  side_inv (TheClient message_) (the_client k) /\ side_inv TheServer (the_server k)
  /\ received (the_client k) `prefix_of` given (the_server k) /\ received (the_server k) `prefix_of` given (the_client k).

(** A side has given no more than it received, and the client its message
    besides; so nothing on the way is longer than the message. *)
Lemma given_length r e : side_inv r e -> length (given e) <= length (concat (opening r)) + length (received e).
Proof.
  intros (Hi & _ & Hs). unfold given, received.
  pose proof (f_equal length (ci_stream _ Hi)) as Hl. rewrite length_app in Hl.
  pose proof (accepted_length (trace (e_world e))) as Ha.
  destruct (state_ (conn (e_world e))); [|destruct Hs as [_ Hs]; rewrite Hs; simpl; lia| |done];
    rewrite Hs, concat_app, length_app in Ha; lia.
Qed.

Lemma read_fits op k :
  circle_inv k -> circle_enabled op k ->
  fits_int (match op with ClientDoes op | ServerDoes op => op_data op end).
Proof.
  intros (Hc & Hs & Hcs & Hsc) He. pose proof (given_length _ _ Hc) as Gc. pose proof (given_length _ _ Hs) as Gs.
  pose proof (piece_fits message_) as Hm. apply Z.ltb_lt in Hm. cbn [opening concat] in Gc, Gs.
  rewrite app_nil_r in Gc. apply prefix_length in Hcs, Hsc. simpl in Gs. unfold fits_int.
  destruct op as [op|op]; destruct He as [_ Hp]; apply prefix_length in Hp; rewrite length_app in Hp; lia.
Qed.

Lemma circle_step op k :
  circle_inv k -> circle_enabled op k -> exists k', circle_exec op k = Ok k' /\ circle_inv k'.
Proof.
  intros Hinv He0. pose proof (read_fits op k Hinv He0) as Hint. revert Hinv He0.
  intros (Hc & Hs & Hcs & Hsc). destruct op as [op|op]; intros [He Hp]; cbn [circle_exec].
  - destruct (side_step _ _ _ Hc He Hint) as (e & E & Hi & Hg & Hr). rewrite E. eexists. split; [done|]. split_and!; cbn; try done.
    + by etrans.
    + etrans; [exact Hsc|]. by apply wired_grows.
  - destruct (side_step _ _ _ Hs He Hint) as (e & E & Hi & Hg & Hr). rewrite E. eexists. split; [done|]. split_and!; cbn; try done.
    + etrans; [exact Hcs|]. by apply wired_grows.
    + by etrans.
Qed.

(** A new connection. *)
Definition side_fresh (e : side) : Prop :=
  fresh (e_world e) /\ content (inputBuffer_ (conn (e_world e))) = [] /\ e_reads e = [].

Lemma fresh_side r e : side_fresh e -> side_inv r e /\ received e = [].
Proof.
  intros (Hf & Hin & Hr). unfold received. rewrite Hr. split; [|done]. split; [by apply fresh_inv|]. split; [done|].
  destruct Hf as (-> & _ & _ & _ & Ht & _). done.
Qed.

Lemma circle_reach_inv k0 k :
  side_fresh (the_client k0) -> side_fresh (the_server k0) -> circle_reach k0 k -> circle_inv k.
Proof.
  intros Hc Hs Hr. induction Hr as [|k op k' _ IH He E].
  - destruct (fresh_side (TheClient message_) _ Hc) as [Hic Hrc], (fresh_side TheServer _ Hs) as [His Hrs].
    unfold circle_inv. rewrite Hrc, Hrs. split_and!; try done; apply prefix_nil.
  - destruct (circle_step op k IH He) as (k2 & E2 & Hi). rewrite E in E2. by injection E2 as ->.
Qed.

(** What a side has given and still holds. *)
Lemma side_stream r e :
  side_inv r e -> unbroken e ->
  given e ++ waiting e = if decide (state_ (conn (e_world e)) = kConnecting) then [] else concat (opening r) ++ received e.
Proof.
  intros (Hi & _ & Hs) Hu. unfold given, waiting, received. rewrite <- (ci_stream _ Hi), accepted_handed by done.
  case_decide as Hc.
  - rewrite Hc in Hs. by destruct Hs as [_ ->].
  - rewrite <- concat_app. by destruct (state_ (conn (e_world e))); try done; rewrite Hs.
Qed.

(** The message over and over. *)
Definition repeated (n : nat) : bytes := concat (replicate n the_text).

Lemma repeats (n : nat) (l : bytes) : l `prefix_of` the_text ++ l -> length l <= n -> the_text <> [] -> l `prefix_of` repeated n.
Proof.
  intros Hp Hn Hm. revert l Hp Hn; induction n as [|n IH]; intros l Hp Hn.
  - destruct l; [done|simpl in Hn; lia].
  - unfold repeated. cbn [replicate concat]. fold (repeated n). destruct Hp as [z Hz].
    destruct (decide (length l <= length the_text)) as [Hle|Hgt].
    + apply (f_equal (take (length l))) in Hz. rewrite take_app_le, take_app_length in Hz by done.
      rewrite <- Hz. etrans; [apply prefix_take|]. by apply prefix_app_r.
    + assert (Hl : exists l2, l = the_text ++ l2).
      { exists (drop (length the_text) l). pose proof (take_drop (length the_text) l) as Ht.
        apply (f_equal (take (length the_text))) in Hz. rewrite take_app_length, take_app_le in Hz by lia. by rewrite <- Hz in Ht. }
      destruct Hl as [l2 E]. rewrite E. apply prefix_app. apply IH.
      * rewrite <- E. rewrite E, <- app_assoc in Hz. apply app_inv_head in Hz. rewrite <- E in Hz. by exists z.
      * rewrite E, length_app in Hn. destruct the_text; [done|simpl in Hn; lia].
Qed.

(** C31: the echo client and the echo server over two connections: no event
    makes either fail; as long as no send met a broken connection, both sides have received nothing but the message,
    whole copies one after another and a beginning of the next; and once the
    client is up, exactly one message is on its way: what waits in the
    two output buffers and in the network, in both directions, is as long as it. *)
Theorem echo_circle k0 k :
  the_text <> [] -> side_fresh (the_client k0) -> side_fresh (the_server k0) -> circle_reach k0 k ->
  (forall op, circle_enabled op k -> exists k', circle_exec op k = Ok k')
  /\ (unbroken (the_client k) -> unbroken (the_server k) ->
     (exists n, received (the_client k) `prefix_of` repeated n /\ received (the_server k) `prefix_of` repeated n)
     /\ (state_ (conn (e_world (the_client k))) <> kConnecting ->
        length (waiting (the_client k)) + (length (given (the_client k)) - length (received (the_server k)))
        + length (waiting (the_server k)) + (length (given (the_server k)) - length (received (the_client k)))
        = length the_text)).
Proof.
  intros Hm Hc0 Hs0 Hr. pose proof (circle_reach_inv k0 k Hc0 Hs0 Hr) as Hinv. split.
  { intros op He. destruct (circle_step op k Hinv He) as (k' & E & _). by exists k'. }
  destruct Hinv as (Hc & Hs & Hcs & Hsc). intros Huc Hus.
  pose proof (side_stream _ _ Hc Huc) as Sc. pose proof (side_stream _ _ Hs Hus) as Ss. cbn [opening concat app] in Sc, Ss.
  rewrite app_nil_r in Sc.
  assert (Hgs : given (the_server k) `prefix_of` received (the_server k)).
  { destruct (decide (state_ (conn (e_world (the_server k))) = _)); [apply app_nil in Ss as [-> _]; apply prefix_nil|rewrite <- Ss; by apply prefix_app_r]. }
  assert (Hgc : given (the_client k) `prefix_of` the_text ++ received (the_client k)).
  { destruct (decide (state_ (conn (e_world (the_client k))) = _)); [apply app_nil in Sc as [-> _]; apply prefix_nil|rewrite <- Sc; by apply prefix_app_r]. }
  assert (Hle : received (the_client k) `prefix_of` received (the_server k)) by (by etrans). split.
  - exists (length (received (the_server k))).
    assert (Hrep : received (the_server k) `prefix_of` repeated (length (received (the_server k)))).
    { apply repeats; [|done|done]. etrans; [exact Hsc|]. etrans; [exact Hgc|]. by apply prefix_app. }
    split; [by etrans|done].
  - intros Hup. rewrite decide_False in Sc by done. apply (f_equal length) in Sc, Ss. rewrite !length_app in Sc, Ss.
    rewrite length_app in Sc. apply prefix_length in Hcs, Hsc.
    destruct (decide (state_ (conn (e_world (the_server k))) = _)) as [Hn|Hn]; simpl in Ss; [|lia].
    pose proof (prefix_length _ _ Hgs). pose proof (prefix_length _ _ Hle).
    destruct Hs as (_ & _ & Hs). rewrite Hn in Hs. destruct Hs as [Hrs _]. unfold received in *. rewrite Hrs in *. simpl in *. lia.
Qed.
End EchoConn.

(** ** Three bytes on their way *)
Module EchoOnWindows.
#[local] Instance platform : Platform := windows.

Definition demo_message : piece := mkPiece (str "abc") eq_refl.
Definition demo_side : side (L := EventLoop functor) := mkSide demo_world [].
Definition circle0 : circle := mkCircle demo_side demo_side.
Definition circle_do (op : circle_op) (k : circle) : circle (L := EventLoop functor) :=
  match circle_exec id demo_message op k with Ok k => k | Fault _ => k end.

Definition circle1 : circle := circle_do (ClientDoes (SideUp (Sent 2))) circle0.
Definition circle2 : circle := circle_do (ServerDoes (SideUp (Sent 0))) circle1.
Definition server_reads : circle_op (L := EventLoop functor) :=
  ServerDoes (SideEvent (RecvData (str "a")) (Sent 0) (Sent 0) (@POLLIN windows)).
Definition circle3 : circle := circle_do server_reads circle2.

Lemma circle3_reach : circle_reach id demo_message circle0 circle3.
Proof.
  apply (circle_next id demo_message _ circle2 server_reads);
    [|split; [split_and!; [reflexivity|left; vm_compute; discriminate|discriminate]|by exists (str "b")]|vm_compute; reflexivity].
  apply (circle_next id demo_message _ circle1 (ServerDoes (SideUp (Sent 0))));
    [|split; [reflexivity|apply prefix_nil]|vm_compute; reflexivity].
  apply (circle_next id demo_message _ circle0 (ClientDoes (SideUp (Sent 2))));
    [constructor|split; [reflexivity|apply prefix_nil]|vm_compute; reflexivity].
Qed.

Lemma demo_side_fresh : side_fresh demo_side.
Proof. split; [exact (demo_fresh windows)|done]. Qed.

(** "c" waits in the client, "b" is in the network, "a" waits in the server. *)
Lemma echo_circle_witness :
  waiting (the_client circle3) = str "c" /\ given (the_client circle3) = str "ab" /\ received (the_server circle3) = str "a"
  /\ waiting (the_server circle3) = str "a"
  /\ length (waiting (the_client circle3)) + (length (given (the_client circle3)) - length (received (the_server circle3)))
     + length (waiting (the_server circle3)) + (length (given (the_server circle3)) - length (received (the_client circle3))) = 3
  /\ exists k, circle_exec id demo_message (ClientDoes (SideLoop (loop (e_world (the_client circle3))))) circle3 = Ok k.
Proof.
  destruct (echo_circle id demo_message circle0 circle3) as [Hop Hs];
    [discriminate|exact demo_side_fresh|exact demo_side_fresh|exact circle3_reach|].
  split; [vm_compute; reflexivity|]. split; [vm_compute; reflexivity|]. split; [vm_compute; reflexivity|].
  split; [vm_compute; reflexivity|]. split.
  - destruct Hs as [_ Hlen].
    + intros m Hin. vm_compute in Hin. set_solver.
    + intros m Hin. vm_compute in Hin. set_solver.
    + apply Hlen. vm_compute. discriminate.
  - apply (Hop (ClientDoes (SideLoop (loop (e_world (the_client circle3)))))). split; [exact (fun st e H => H)|].
    by exists [].
Defined.
End EchoOnWindows.
