(* ===== verification/Http.v ===== *)
(** * HTTP: [src/msmuduo/net/http/HttpRequest.h], [HttpContext.h],
    [HttpContext.cpp], [HttpResponse.h], [HttpResponse.cpp], [HttpServer.cpp]

    The request, the incremental parser over a [Buffer], the response and the
    message handler of the server. A pointer range into the buffer is the list
    of its characters. What the handler does to the connection is a list of
    [uop]s of [TcpConnection]. *)
From S2P Require Import Prelude.
From S2P Require Import Endian.
From S2P Require Import StringPiece.
From S2P Require Import Buffer.
From S2P Require Import StdContainers.
From S2P Require Import Format.
From S2P Require Import Timestamp.
From S2P Require Import TcpConnection.

(** ** Requests *)

Inductive Method := kInvalid | kGet | kPost | kHead | kPut | kDelete.
Inductive Version := kUnkown | kHttp10 | kHttp11.

#[export] Instance Method_eq_dec : EqDecision Method.
Proof. solve_decision. Defined.
#[export] Instance Version_eq_dec : EqDecision Version.
Proof. solve_decision. Defined.

Record HttpRequest := mkRequest {
  method_ : Method;
  version_ : Version;
  path_ : bytes;
  query_ : bytes;
  receiveTime_ : Timestamp;
  headers_ : list (bytes * bytes)
}.

Definition new_HttpRequest : HttpRequest := mkRequest kInvalid kUnkown [] [] invalid [].

Definition setVersion (v : Version) (r : HttpRequest) : HttpRequest :=
  mkRequest (method_ r) v (path_ r) (query_ r) (receiveTime_ r) (headers_ r).
Definition setPath (p : bytes) (r : HttpRequest) : HttpRequest :=
  mkRequest (method_ r) (version_ r) p (query_ r) (receiveTime_ r) (headers_ r).
Definition setQuery (q : bytes) (r : HttpRequest) : HttpRequest :=
  mkRequest (method_ r) (version_ r) (path_ r) q (receiveTime_ r) (headers_ r).
Definition setReceiveTime (t : Timestamp) (r : HttpRequest) : HttpRequest :=
  mkRequest (method_ r) (version_ r) (path_ r) (query_ r) t (headers_ r).

Definition method_of (m : bytes) : Method :=
  if decide (m = str "GET") then kGet
  else if decide (m = str "POST") then kPost
  else if decide (m = str "HEAD") then kHead
  else if decide (m = str "PUT") then kPut
  else if decide (m = str "DELETE") then kDelete
  else kInvalid.

Definition setMethod (m : bytes) (r : HttpRequest) : res (bool * HttpRequest) :=
  assert_ (bool_decide (method_ r = kInvalid));;
  Ok (negb (bool_decide (method_of m = kInvalid)),
      mkRequest (method_of m) (version_ r) (path_ r) (query_ r) (receiveTime_ r) (headers_ r)).

Definition methodString (r : HttpRequest) : bytes :=
  match method_ r with
  | kGet => str "GET"
  | kPost => str "POST"
  | kHead => str "HEAD"
  | kPut => str "PUT"
  | kDelete => str "DELETE"
  | kInvalid => str "UNKNOWN"
  end.

(** [isspace] in the C locale. *)
Definition isspace (c : char) : bool :=
  let n := Z_of_char c in ((9 <=? n) && (n <=? 13) || (n =? 32))%Z.

Fixpoint skip_spaces (l : bytes) : bytes :=
  match l with
  | c :: l' => if isspace c then skip_spaces l' else l
  | [] => []
  end.

(** Removes the trailing spaces. *)
Definition trim_right (l : bytes) : bytes := reverse (skip_spaces (reverse l)).

(** [addHeader(start, colon, end)]: the name and what follows the colon. *)
Definition addHeader (field rest : bytes) (r : HttpRequest) : HttpRequest :=
  mkRequest (method_ r) (version_ r) (path_ r) (query_ r) (receiveTime_ r)
    (map_set field (trim_right (skip_spaces rest)) (headers_ r)).

Definition getHeader (field : bytes) (r : HttpRequest) : bytes :=
  default [] (map_find field (headers_ r)).

(** [swap]: the version stays where it is. *)
Definition swap_HttpRequest (r that : HttpRequest) : HttpRequest * HttpRequest :=
  (mkRequest (method_ that) (version_ r) (path_ that) (query_ that) (receiveTime_ that) (headers_ that),
   mkRequest (method_ r) (version_ that) (path_ r) (query_ r) (receiveTime_ r) (headers_ r)).

(** ** The parser *)

Inductive HttpRequestParseState := kExpectRequestLine | kExpectHeaders | kExpectBody | kGotAll.

#[export] Instance HttpRequestParseState_eq_dec : EqDecision HttpRequestParseState.
Proof. solve_decision. Defined.

Record HttpContext := mkContext { parse_state_ : HttpRequestParseState; request_ : HttpRequest }.

Definition new_HttpContext : HttpContext := mkContext kExpectRequestLine new_HttpRequest.

Definition gotAll (c : HttpContext) : bool := bool_decide (parse_state_ c = kGotAll).

Definition reset_context (c : HttpContext) : HttpContext :=
  mkContext kExpectRequestLine (swap_HttpRequest (request_ c) new_HttpRequest).1.

Definition space : char := " "%char.
Definition question_mark : char := "?"%char.
Definition colon_char : char := ":"%char.

(** [HTTP/1.x]: the version of the last field of a request line. *)
Definition parse_version (v : bytes) : option Version :=
  if (length v =? 8) && starts (str "HTTP/1.") v
  then match last v with
       | Some c => if Ascii.eqb c "1" then Some kHttp11
                   else if Ascii.eqb c "0" then Some kHttp10 else None
       | None => None
       end
  else None.

Definition processRequestLine (line : bytes) (r : HttpRequest) : res (bool * HttpRequest) :=
  match find_char space line with
  | None => Ok (false, r)
  | Some i =>
      '(ok, r) ← setMethod (take i line) r;
      if ok : bool then
        let start := drop (S i) line in
        match find_char space start with
        | None => Ok (false, r)
        | Some j =>
            let target := take j start in
            let r := match find_char question_mark target with
                     | Some q => setQuery (drop q target) (setPath (take q target) r)
                     | None => setPath target r
                     end in
            match parse_version (drop (S j) start) with
            | Some v => Ok (true, setVersion v r)
            | None => Ok (false, r)
            end
        end
      else Ok (false, r)
  end.

(** One round of the loop of [parseRequest]: [ok], [hasMore], the context
    and the buffer. In the states [kExpectBody] and [kGotAll] a round does
    nothing. *)
Definition parse_round (receiveTime : Timestamp) (c : HttpContext) (buf : Buffer) :
    res (bool * bool * HttpContext * Buffer) :=
  match parse_state_ c with
  | kExpectRequestLine =>
      match findCRLF buf with
      | Some crlf =>
          '(ok, r) ← processRequestLine (range buf (peek buf) crlf) (request_ c);
          if ok : bool then
            buf ← retrieveUntil (crlf + 2) buf;
            Ok (true, true, mkContext kExpectHeaders (setReceiveTime receiveTime r), buf)
          else Ok (false, false, mkContext kExpectRequestLine r, buf)
      | None => Ok (true, false, c, buf)
      end
  | kExpectHeaders =>
      match findCRLF buf with
      | Some crlf =>
          let line := range buf (peek buf) crlf in
          let '(more, c) :=
            match find_char colon_char line with
            | Some k => (true, mkContext kExpectHeaders
                                 (addHeader (take k line) (drop (S k) line) (request_ c)))
            | None => (false, mkContext kGotAll (request_ c))
            end in
          buf ← retrieveUntil (crlf + 2) buf;
          Ok (true, more, c, buf)
      | None => Ok (true, false, c, buf)
      end
  | kExpectBody | kGotAll => Ok (true, true, c, buf)
  end.

(** [parseRequest]: its result, the context and the buffer. *)
Fixpoint parse_loop (fuel : nat) (receiveTime : Timestamp) (c : HttpContext) (buf : Buffer) :
    res (bool * HttpContext * Buffer) :=
  match fuel with
  | O => Fault OutOfFuel
  | S fuel =>
      '(ok, hasMore, c, buf) ← parse_round receiveTime c buf;
      if hasMore : bool then parse_loop fuel receiveTime c buf else Ok (ok, c, buf)
  end.

(** A round that goes on consumes at least two bytes. *)
Definition parseRequest (receiveTime : Timestamp) (c : HttpContext) (buf : Buffer) :
    res (bool * HttpContext * Buffer) :=
  parse_loop (S (readableBytes buf)) receiveTime c buf.

(** ** Responses *)

Record HttpResponse := mkResponse {
  resp_headers_ : list (bytes * bytes);
  statusCode_ : Z;
  statusMessage_ : bytes;
  closeConnection_ : bool;
  body_ : bytes
}.

Definition kUnknown : Z := 0.
Definition k200Ok : Z := 200.
Definition k301MovedPermanently : Z := 301.
Definition k400BadRequest : Z := 400.
Definition k404NotFound : Z := 404.

Definition new_HttpResponse (close : bool) : HttpResponse := mkResponse [] kUnknown [] close [].

Definition setStatusCode (code : Z) (r : HttpResponse) : HttpResponse :=
  mkResponse (resp_headers_ r) code (statusMessage_ r) (closeConnection_ r) (body_ r).
Definition setStatusMessage (message : bytes) (r : HttpResponse) : HttpResponse :=
  mkResponse (resp_headers_ r) (statusCode_ r) message (closeConnection_ r) (body_ r).
Definition setCloseConnection (on : bool) (r : HttpResponse) : HttpResponse :=
  mkResponse (resp_headers_ r) (statusCode_ r) (statusMessage_ r) on (body_ r).
Definition resp_addHeader (key value : bytes) (r : HttpResponse) : HttpResponse :=
  mkResponse (map_set key value (resp_headers_ r)) (statusCode_ r) (statusMessage_ r)
    (closeConnection_ r) (body_ r).
Definition setContentType (contentType : bytes) (r : HttpResponse) : HttpResponse :=
  resp_addHeader (str "Content-Type") contentType r.
Definition setBody (body : bytes) (r : HttpResponse) : HttpResponse :=
  mkResponse (resp_headers_ r) (statusCode_ r) (statusMessage_ r) (closeConnection_ r) body.

(** [append] of a [std::string]. *)
Definition append_string (s : bytes) (b : Buffer) : res Buffer := append_piece (sp_of_string s) b.

Fixpoint append_headers (hs : list (bytes * bytes)) (b : Buffer) : res Buffer :=
  match hs with
  | [] => Ok b
  | (key, value) :: hs =>
      b ← append_string key b;
      b ← append_str (str ": ") b;
      b ← append_string value b;
      b ← append_str kCRLF b;
      append_headers hs b
  end.

Definition appendToBuffer (r : HttpResponse) (output : Buffer) : res Buffer :=
  b ← append_str (snprintf 32 (str "HTTP/1.1 " ++ fmt_d (statusCode_ r))) output;
  b ← append_string (statusMessage_ r) b;
  b ← append_str kCRLF b;
  b ← (if closeConnection_ r then append_str (str "Connection: close" ++ kCRLF) b
       else
         b ← append_str (snprintf 32 (str "Content-Length: "
               ++ fmt_d (wrapS 32 (Z.of_nat (length (body_ r)))) ++ kCRLF)) b;
         append_str (str "Connection: Keep-Alive" ++ kCRLF) b);
  b ← append_headers (resp_headers_ r) b;
  b ← append_str kCRLF b;
  append_string (body_ r) b.

(** ** The server's message handler *)

Definition defaultHttpCallback (req : HttpRequest) (resp : HttpResponse) : HttpResponse :=
  setCloseConnection true (setStatusMessage (str "Not Found") (setStatusCode k404NotFound resp)).

(** [onConnection]: the context of a connection that came up. *)
Definition onConnection (connected : bool) (context : option HttpContext) : option HttpContext :=
  if connected then Some new_HttpContext else context.

Section HttpServer.
Context (httpCallback_ : HttpRequest -> HttpResponse -> HttpResponse).
(** The kernel's answer to the [send]. *)
Context (ans : send_result).

Definition wants_close (req : HttpRequest) : bool :=
  let connection := getHeader (str "Connection") req in
  bool_decide (connection = str "close")
  || bool_decide (version_ req = kHttp10) && negb (bool_decide (connection = str "Keep-Alive")).

Definition onRequest (req : HttpRequest) : res (list uop) :=
  let response := httpCallback_ req (new_HttpResponse (wants_close req)) in
  buf ← appendToBuffer response (new_Buffer kInitialSize);
  Ok (USendBuffer (content buf) ans :: if closeConnection_ response then [UShutdown] else []).

(** [onMessage]: the calls on the connection, the context and the input
    buffer. *)
Definition onMessage (receiveTime : Timestamp) (context : HttpContext) (buf : Buffer) :
    res (list uop * HttpContext * Buffer) :=
  '(ok, context, buf) ← parseRequest receiveTime context buf;
  let bad := if ok : bool then []
             else [USend (mkPiece (str "HTTP/1.1 400 Bad Request" ++ kCRLF ++ kCRLF) eq_refl) ans; UShutdown] in
  if gotAll context then
    reply ← onRequest (request_ context);
    Ok (bad ++ reply, reset_context context, buf)
  else Ok (bad, context, buf).

End HttpServer.
