(* ===== verification/HttpFacts.v ===== *)
(** * Correctness of the HTTP parser and server

    The parser over a [Buffer] is a function of the readable bytes; that
    function does not depend on how the bytes were split into reads, and it
    inverts the formatting of well-formed requests. *)
From S2P Require Import Prelude.
From S2P Require Import Endian.
From S2P Require Import StringPiece.
From S2P Require Import Buffer.
From S2P Require Import BufferFacts.
From S2P Require Import StdContainers.
From S2P Require Import Format.
From S2P Require Import Timestamp.
From S2P Require Import TcpConnection.
From S2P Require Import Http.

(** ** The parser as a function of the bytes *)

Definition spec_round (t : Timestamp) (c : HttpContext) (l : bytes) : res (bool * bool * HttpContext * bytes) :=
  match parse_state_ c with
  | kExpectRequestLine =>
      match find_sub kCRLF l with
      | Some n =>
          '(ok, r) ← processRequestLine (take n l) (request_ c);
          if ok : bool then Ok (true, true, mkContext kExpectHeaders (setReceiveTime t r), drop (n + 2) l)
          else Ok (false, false, mkContext kExpectRequestLine r, l)
      | None => Ok (true, false, c, l)
      end
  | kExpectHeaders =>
      match find_sub kCRLF l with
      | Some n =>
          let line := take n l in
          match find_char colon_char line with
          | Some k => Ok (true, true, mkContext kExpectHeaders
                             (addHeader (take k line) (drop (S k) line) (request_ c)), drop (n + 2) l)
          | None => Ok (true, false, mkContext kGotAll (request_ c), drop (n + 2) l)
          end
      | None => Ok (true, false, c, l)
      end
  | kExpectBody | kGotAll => Ok (true, true, c, l)
  end.

Fixpoint spec_loop (fuel : nat) (t : Timestamp) (c : HttpContext) (l : bytes) :
    res (bool * HttpContext * bytes) :=
  match fuel with
  | O => Fault OutOfFuel
  | S fuel =>
      '(ok, hasMore, c, l) ← spec_round t c l;
      if hasMore : bool then spec_loop fuel t c l else Ok (ok, c, l)
  end.

(** A result over buffers with the bytes left in place of the buffer. *)
Definition bytes_left (r : res (bool * HttpContext * Buffer)) : res (bool * HttpContext * bytes) :=
  (fun '(ok, c, b) => (ok, c, content b)) <$> r.

Lemma parse_round_spec t c b :
  buf_inv b ->
  match spec_round t c (content b) with
  | Fault f => parse_round t c b = Fault f
  | Ok (ok, more, c', l) => exists b', parse_round t c b = Ok (ok, more, c', b') /\ buf_inv b' /\ content b' = l
  end.
Proof.
  intros Hi. unfold spec_round, parse_round, findCRLF. fold (content b).
  destruct (parse_state_ c); [| |by exists b..];
    (destruct (find_sub kCRLF (content b)) as [n|] eqn:Hn; simpl; [|by exists b]);
    destruct (retrieve_line b n Hi Hn) as (-> & b' & E & Hi' & Hc).
  - destruct (processRequestLine (take n (content b)) (request_ c)) as [[ok r]|]; simpl; [|done].
    destruct ok; [|by exists b]. rewrite E. simpl. by exists b'.
  - destruct (find_char colon_char (take n (content b))); simpl; rewrite E; simpl; by exists b'.
Qed.

Lemma parse_loop_spec fuel t c b :
  buf_inv b -> bytes_left (parse_loop fuel t c b) = spec_loop fuel t c (content b)
  /\ forall ok c' b', parse_loop fuel t c b = Ok (ok, c', b') -> buf_inv b'.
Proof.
  revert c b; induction fuel as [|fuel IH]; intros c b Hi; [done|]. simpl.
  pose proof (parse_round_spec t c b Hi) as Hr.
  destruct (spec_round t c (content b)) as [[[[ok more] c'] l]|f]; [|by rewrite Hr].
  destruct Hr as (b' & -> & Hi' & <-). simpl. destruct more; [by apply IH|].
  split; [done|]. by intros ? ? ? [= <- <- <-].
Qed.

(** ** Termination *)

(** The states in which a round makes progress or stops. *)
Definition parsing (c : HttpContext) : Prop :=
  parse_state_ c = kExpectRequestLine \/ parse_state_ c = kExpectHeaders.

Lemma spec_round_more t c l ok c' l' :
  parsing c -> spec_round t c l = Ok (ok, true, c', l') -> parsing c' /\ length l' < length l.
Proof.
  unfold spec_round. intros [Hs|Hs]; rewrite Hs;
    (destruct (find_sub kCRLF l) as [n|] eqn:Hn; [|done]); pose proof (find_crlf_bound _ _ Hn).
  - destruct (processRequestLine _ _) as [[[] r]|]; simpl; try done.
    intros [= <- <- <-]. split; [by right|]. rewrite length_drop. lia.
  - destruct (find_char colon_char _); [|done].
    intros [= <- <- <-]. split; [by right|]. rewrite length_drop. lia.
Qed.

(** With enough fuel the loop's result does not depend on it. *)
Lemma spec_loop_fuel f1 f2 t c l :
  parsing c -> length l < f1 -> length l < f2 -> spec_loop f1 t c l = spec_loop f2 t c l.
Proof.
  revert f2 c l; induction f1 as [|f1 IH]; intros [|f2] c l Hc H1 H2; try lia. simpl.
  destruct (spec_round t c l) as [[[[ok more] c'] l']|] eqn:E; simpl; [|done].
  destruct more; [|done]. destruct (spec_round_more _ _ _ _ _ _ Hc E) as [Hc' Hl].
  apply IH; [done | lia..].
Qed.

Lemma spec_loop_total t c l f :
  parsing c -> length l < f -> spec_loop f t c l <> Fault OutOfFuel.
Proof.
  revert c l; induction f as [|f IH]; intros c l Hc Hf; [lia|]. simpl.
  destruct (spec_round t c l) as [[[[ok more] c'] l']|e] eqn:E; simpl.
  - destruct more; [|done]. destruct (spec_round_more _ _ _ _ _ _ Hc E) as [Hc' Hl].
    apply IH; [done | lia].
  - unfold spec_round in E. destruct Hc as [Hs|Hs]; rewrite Hs in E;
      (destruct (find_sub kCRLF l) as [n|]; [|done]); [|by destruct (find_char _ _)].
    unfold processRequestLine, setMethod, assert_ in E.
    destruct (find_char space (take n l)); [|done].
    destruct (bool_decide (method_ _ = kInvalid)); simpl in E; [|congruence].
    destruct (negb _); [|done]. destruct (find_char space _); [|done].
    by destruct (parse_version _).
Qed.

(** ** Reads may split the bytes anywhere *)

Lemma spec_round_app t c l d ok more c' l' :
  parsing c -> spec_round t c l = Ok (ok, more, c', l') ->
  (l' = l /\ c' = c /\ ok = true /\ more = false)
  \/ (ok = false \/ gotAll c' = true \/ more = true) /\ spec_round t c (l ++ d) = Ok (ok, more, c', l' ++ d).
Proof.
  unfold spec_round. intros [Hs|Hs]; rewrite Hs;
    (destruct (find_sub kCRLF l) as [n|] eqn:Hn; [|by intros [= <- <- <- <-]; left]);
    pose proof (find_crlf_bound _ _ Hn); rewrite (find_sub_app kCRLF l d n ltac:(done) Hn);
    rewrite take_app_le, drop_app_le by lia; intros E; right.
  - destruct (processRequestLine _ _) as [[[] r]|]; simpl in *; [..|done]; injection E as <- <- <- <-; auto.
  - destruct (find_char colon_char _); injection E as <- <- <- <-; auto.
Qed.

Lemma spec_loop_app t c l d f c1 l1 :
  parsing c -> length l < f -> spec_loop f t c l = Ok (true, c1, l1) -> gotAll c1 = false ->
  parsing c1 /\ spec_loop (S (length (l ++ d))) t c (l ++ d) = spec_loop (S (length (l1 ++ d))) t c1 (l1 ++ d).
Proof.
  revert c l; induction f as [|f IH]; intros c l Hc Hf E Hg; [lia|]. simpl in E.
  destruct (spec_round t c l) as [[[[ok more] c'] l']|] eqn:Er; [|done]. simpl in E.
  destruct (spec_round_app t c l d _ _ _ _ Hc Er) as [(-> & -> & -> & ->)|[Hcase Ea]].
  - injection E as <- <-. done.
  - destruct more.
    + destruct (spec_round_more _ _ _ _ _ _ Hc Er) as [Hc' Hl].
      destruct (IH c' l' Hc' ltac:(lia) E Hg) as [Hc1 Heq]. split; [done|]. rewrite <- Heq.
      transitivity (spec_loop (length (l ++ d)) t c' (l' ++ d)); [cbn [spec_loop]; by rewrite Ea|].
      apply spec_loop_fuel; [done | rewrite !length_app; lia..].
    + injection E as -> -> ->. destruct Hcase as [?|[?|?]]; congruence.
Qed.

(** C24: parsing does not depend on where packets end: if a parse found
    nothing wrong and is not finished, and [d] arrives, parsing again with the same
    time of receipt gives the same result as parsing all the bytes at once; and
    the loop always ends. (After a request line that was refused the two differ,
    [bad_request_aborts].) *)
Theorem parse_incremental t c b d c1 b1 whole :
  buf_inv b -> buf_inv whole -> parsing c -> content whole = content b ++ d ->
  parseRequest t c b = Ok (true, c1, b1) -> gotAll c1 = false ->
  exists b2, append_str d b1 = Ok b2
    /\ bytes_left (parseRequest t c1 b2) = bytes_left (parseRequest t c whole)
    /\ parseRequest t c whole <> Fault OutOfFuel.
Proof.
  intros Hb Hw Hc Hwc E Hg. unfold parseRequest in *. rewrite <- length_content in E by done.
  destruct (parse_loop_spec (S (length (content b))) t c b Hb) as [Hs Hinv]. rewrite E in Hs.
  specialize (Hinv _ _ _ E).
  destruct (append_str_spec d b1 Hinv) as (b2 & E2 & Hb2 & Hc2 & _). exists b2. split; [done|].
  rewrite <- !length_content by done.
  destruct (parse_loop_spec (S (length (content b2))) t c1 b2 Hb2) as [-> _].
  destruct (parse_loop_spec (S (length (content whole))) t c whole Hw) as [Hs' _].
  split; [|intros Hf; rewrite Hf in Hs'; simpl in Hs';
           by apply (spec_loop_total t c (content whole) _ Hc (Nat.lt_succ_diag_r _))].
  rewrite Hs', Hc2, Hwc.
  by destruct (spec_loop_app t c (content b) d _ c1 (content b1) Hc (Nat.lt_succ_diag_r _) (eq_sym Hs) Hg)
    as [_ ->].
Qed.

(** ** Well-formed requests *)

(** A closed text without a character. *)
Ltac closed_not_in := apply (bool_decide_unpack _); vm_compute; exact I.

Record target := mkTarget {
  t_method : Method;
  t_path : bytes;
  t_query : bytes;       (* empty, or a question mark and the query *)
  t_version : Version;
  t_fields : list (bytes * bytes)
}.

Definition version_text (v : Version) : bytes :=
  match v with kHttp11 => str "HTTP/1.1" | _ => str "HTTP/1.0" end.

Definition request_line (r : target) : bytes :=
  methodString (mkRequest (t_method r) kUnkown [] [] invalid [])
  ++ str " " ++ t_path r ++ t_query r ++ str " " ++ version_text (t_version r).

Definition field_line (f : bytes * bytes) : bytes := f.1 ++ str ": " ++ f.2.

(** The text of a request. *)
Definition request_text (r : target) : bytes :=
  request_line r ++ kCRLF ++ concat ((fun f => field_line f ++ kCRLF) <$> t_fields r) ++ kCRLF.

Definition trimmed (v : bytes) : Prop := skip_spaces v = v /\ trim_right v = v.

Record target_ok (r : target) : Prop := {
  ok_method : t_method r <> kInvalid;
  ok_version : t_version r <> kUnkown;
  ok_path : CR ∉ t_path r /\ space ∉ t_path r /\ question_mark ∉ t_path r;
  ok_query : CR ∉ t_query r /\ space ∉ t_query r /\ (t_query r = [] \/ head (t_query r) = Some question_mark);
  ok_fields : Forall (fun f => CR ∉ f.1 /\ colon_char ∉ f.1 /\ CR ∉ f.2 /\ trimmed f.2) (t_fields r)
}.

Definition add_fields (fs : list (bytes * bytes)) (r : HttpRequest) : HttpRequest :=
  foldl (fun r f => mkRequest (method_ r) (version_ r) (path_ r) (query_ r) (receiveTime_ r)
                      (map_set f.1 f.2 (headers_ r))) r fs.

(** The request a text denotes, received at [t]. *)
Definition request_of (r : target) (t : Timestamp) : HttpRequest :=
  add_fields (t_fields r) (mkRequest (t_method r) (t_version r) (t_path r) (t_query r) t []).

Lemma parse_version_text v : v <> kUnkown -> parse_version (version_text v) = Some v.
Proof. by destruct v. Qed.

Lemma method_text m : m <> kInvalid ->
  method_of (methodString (mkRequest m kUnkown [] [] invalid [])) = m
  /\ space ∉ methodString (mkRequest m kUnkown [] [] invalid [])
  /\ CR ∉ methodString (mkRequest m kUnkown [] [] invalid []).
Proof. intros Hm. destruct m; split_and!; try done; closed_not_in. Qed.

Lemma drop_succ_app {A} (a : list A) x b : drop (S (length a)) (a ++ x :: b) = b.
Proof. replace (S (length a)) with (length (a ++ [x])) by (rewrite length_app; simpl; lia).
  rewrite <- (drop_app_length (a ++ [x]) b) at 2. by rewrite <- app_assoc. Qed.

Lemma process_request_line r v0 :
  target_ok r ->
  processRequestLine (request_line r) (mkRequest kInvalid v0 [] [] invalid [])
  = Ok (true, mkRequest (t_method r) (t_version r) (t_path r) (t_query r) invalid []).
Proof.
  intros [Hm Hv (_ & Hps & Hpq) (_ & Hqs & Hq) _]. unfold processRequestLine, request_line.
  destruct (method_text (t_method r) Hm) as (Hmo & Hsp & _).
  set (mt := methodString _) in *. change (str " ") with [space]. simpl app.
  rewrite (find_char_app space mt), take_app_length, drop_succ_app by done.
  unfold setMethod. cbn [method_]. rewrite (bool_decide_true (kInvalid = kInvalid)) by done.
  run_res. rewrite Hmo.
  rewrite bool_decide_false by done. simpl.
  assert (Hns : space ∉ t_path r ++ t_query r) by set_solver.
  rewrite app_assoc, (find_char_app space (t_path r ++ t_query r)) by done.
  rewrite take_app_length, drop_succ_app, parse_version_text by done.
  destruct Hq as [Hq|Hq].
  - rewrite Hq, app_nil_r. rewrite (proj2 (find_char_None _ _)) by done. done.
  - destruct (t_query r) as [|c q] eqn:Et; [done|]. simpl in Hq. injection Hq as ->.
    rewrite find_char_app by done. by rewrite take_app_length, drop_app_length.
Qed.

Lemma field_parts f : colon_char ∉ f.1 -> trimmed f.2 ->
  find_char colon_char (field_line f) = Some (length f.1)
  /\ take (length f.1) (field_line f) = f.1
  /\ trim_right (skip_spaces (drop (S (length f.1)) (field_line f))) = f.2.
Proof.
  intros Hc [H1 H2]. unfold field_line. change (str ": ") with [colon_char; space]. simpl app.
  rewrite find_char_app, take_app_length, drop_succ_app by done.
  split; [done|]. split; [done|]. change (skip_spaces (space :: f.2)) with (skip_spaces f.2).
  by rewrite H1.
Qed.

(** The header lines, the empty line, and what follows. *)
Lemma parse_fields fs t r rest f :
  Forall (fun f => CR ∉ f.1 /\ colon_char ∉ f.1 /\ CR ∉ f.2 /\ trimmed f.2) fs ->
  length fs < f ->
  spec_loop f t (mkContext kExpectHeaders r)
    (concat ((fun f => field_line f ++ kCRLF) <$> fs) ++ kCRLF ++ rest)
  = Ok (true, mkContext kGotAll (add_fields fs r), rest).
Proof.
  revert r f; induction fs as [|fl fs IH]; intros r [|f] Hfs Hf; simpl in Hf; try lia.
  - simpl. unfold spec_round. simpl. by rewrite drop_0.
  - apply Forall_cons in Hfs as [(H1 & H2 & H3 & H4) Hfs].
    destruct (field_parts fl H2 H4) as (E1 & E2 & E3).
    rewrite fmap_cons. simpl concat. rewrite <- !app_assoc. cbn [spec_loop].
    unfold spec_round. cbn [parse_state_ request_].
    assert (CR ∉ field_line fl).
    { unfold field_line. rewrite !not_elem_of_app. by split_and!; [|closed_not_in|]. }
    rewrite find_crlf_line by done. rewrite take_app_length, E1. run_res.
    unfold addHeader at 1. rewrite E2, E3.
    replace (length (field_line fl) + 2) with (length (field_line fl ++ kCRLF))
      by (rewrite length_app; done).
    rewrite (app_assoc (field_line fl) kCRLF), drop_app_length. by apply IH; [|lia].
Qed.

Lemma concat_length_bound {A} (g : A -> bytes) (l : list A) :
  (forall a, 0 < length (g a)) -> length l <= length (concat (g <$> l)).
Proof.
  intros Hg. induction l as [|a l IH]; [done|]. rewrite fmap_cons. simpl. rewrite length_app.
  specialize (Hg a). lia.
Qed.

(** The context in which a request is expected; the version of the last one
    stays. *)
Definition expecting (v0 : Version) : HttpContext :=
  mkContext kExpectRequestLine (mkRequest kInvalid v0 [] [] invalid []).

(** Parsing the text of a request yields the request. *)
Lemma spec_request_text r v0 t rest :
  target_ok r ->
  spec_loop (S (length (request_text r ++ rest))) t (expecting v0) (request_text r ++ rest)
  = Ok (true, mkContext kGotAll (request_of r t), rest).
Proof.
  intros Hr. unfold request_text at 2. rewrite <- !app_assoc. cbn [spec_loop]. unfold spec_round, expecting.
  cbn [parse_state_ request_]. pose proof Hr as [Hm Hv (Hp1 & Hp2 & Hp3) (Hq1 & Hq2 & _) Hf].
  destruct (method_text (t_method r) Hm) as (_ & _ & Hmc).
  assert (Hcr : CR ∉ request_line r).
  { unfold request_line. rewrite !not_elem_of_app. split_and!; try done; try closed_not_in.
    destruct (t_version r); closed_not_in. }
  rewrite find_crlf_line by done. rewrite take_app_length, process_request_line by done. run_res.
  replace (length (request_line r) + 2) with (length (request_line r ++ kCRLF))
    by (rewrite length_app; done).
  rewrite (app_assoc (request_line r) kCRLF), drop_app_length. apply parse_fields; [done|].
  unfold request_text. rewrite !length_app.
  pose proof (concat_length_bound (fun f => field_line f ++ kCRLF) (t_fields r)) as Hb2.
  assert (forall a, 0 < length (field_line a ++ kCRLF)) by (intros a; rewrite length_app; simpl; lia).
  specialize (Hb2 ltac:(done)). simpl. lia.
Qed.

(** The parser on a buffer does what it does on the bytes. *)
Lemma parseRequest_spec t c b ok c' l' :
  buf_inv b -> spec_loop (S (length (content b))) t c (content b) = Ok (ok, c', l') ->
  exists b', parseRequest t c b = Ok (ok, c', b') /\ buf_inv b' /\ content b' = l'.
Proof.
  intros Hb E. unfold parseRequest. rewrite <- length_content by done.
  destruct (parse_loop_spec (S (length (content b))) t c b Hb) as [Hs Hinv]. rewrite E in Hs.
  destruct (parse_loop _ t c b) as [[[ok1 c1] b1]|]; [|done].
  injection Hs as -> -> <-. exists b1. split; [done|]. split; [by eapply Hinv | done].
Qed.

Lemma parse_request_text r v0 t rest b :
  target_ok r -> buf_inv b -> content b = request_text r ++ rest ->
  exists b', parseRequest t (expecting v0) b = Ok (true, mkContext kGotAll (request_of r t), b')
    /\ buf_inv b' /\ content b' = rest.
Proof.
  intros Hr Hb Hc. apply parseRequest_spec; [done|]. rewrite Hc. by apply spec_request_text.
Qed.

(** ** Bad requests *)

(** a request line with a known method that is otherwise malformed is
    answered once, but its bytes stay in the buffer and the method stays set:
    the next bytes the client sends make [setMethod] fail its assertion. *)
Theorem bad_request_aborts t t' line rest b b2 d i r :
  buf_inv b -> buf_inv b2 -> CR ∉ line ->
  content b = line ++ kCRLF ++ rest -> content b2 = content b ++ d ->
  find_char space line = Some i -> method_of (take i line) <> kInvalid ->
  processRequestLine line new_HttpRequest = Ok (false, r) ->
  parseRequest t new_HttpContext b = Ok (false, mkContext kExpectRequestLine r, b)
  /\ parseRequest t' (mkContext kExpectRequestLine r) b2 = Fault AssertFailed.
Proof.
  intros Hb Hb2 Hcr Hc Hc2 Hi Hm Hp.
  assert (Hmeth : method_ r = method_of (take i line)).
  { unfold processRequestLine in Hp. rewrite Hi in Hp. unfold setMethod in Hp. simpl in Hp.
    rewrite bool_decide_false in Hp by done. simpl in Hp.
    destruct (find_char space (drop (S i) line)); [|by injection Hp as <-].
    destruct (parse_version _); [done|]. injection Hp as <-.
    by destruct (find_char question_mark _). }
  split.
  - assert (Hn : find_sub kCRLF (content b) = Some (length line))
      by (rewrite Hc; by apply find_crlf_line).
    destruct (retrieve_line b _ Hb Hn) as [Hrg _]. rewrite Hc, take_app_length in Hrg.
    unfold parseRequest. cbn [parse_loop]. unfold parse_round, findCRLF. simpl parse_state_. cbv iota.
    fold (content b). rewrite Hn. simpl. rewrite Hrg, Hp. done.
  - unfold parseRequest. cbn [parse_loop].
    pose proof (parse_round_spec t' (mkContext kExpectRequestLine r) b2 Hb2) as Hr.
    unfold spec_round in Hr. simpl in Hr.
    rewrite Hc2, Hc, <- !app_assoc, find_crlf_line, take_app_length in Hr by done.
    unfold processRequestLine in Hr. rewrite Hi in Hr. unfold setMethod in Hr.
    assert (Hne : method_ r <> kInvalid) by (by rewrite Hmeth).
    rewrite (bool_decide_false (method_ r = kInvalid)) in Hr by done. simpl in Hr. by rewrite Hr.
Qed.

(** ** Responses *)

(** The text [appendToBuffer] writes. *)
Definition response_text (r : HttpResponse) : bytes :=
  str "HTTP/1.1 " ++ fmt_d (statusCode_ r) ++ statusMessage_ r ++ kCRLF
  ++ (if closeConnection_ r then str "Connection: close" ++ kCRLF
      else str "Content-Length: " ++ fmt_d (Z.of_nat (length (body_ r))) ++ kCRLF
           ++ str "Connection: Keep-Alive" ++ kCRLF)
  ++ concat ((fun f => f.1 ++ str ": " ++ f.2 ++ kCRLF) <$> resp_headers_ r)
  ++ kCRLF ++ body_ r.

(** Sizes an [int] can hold. *)
Definition int_sized (s : bytes) : Prop := (Z.of_nat (length s) < 2 ^ 31)%Z.

Definition response_ok (r : HttpResponse) : Prop :=
  (0 <= statusCode_ r < 1000)%Z /\ int_sized (statusMessage_ r) /\ int_sized (body_ r)
  /\ Forall (fun f => int_sized f.1 /\ int_sized f.2) (resp_headers_ r).

Lemma append_string_spec s b :
  buf_inv b -> int_sized s ->
  exists b', append_string s b = Ok b' /\ buf_inv b' /\ content b' = content b ++ s.
Proof.
  intros Hb Hs. unfold append_string, append_piece, sp_of_string, sp_size, sp_data. simpl.
  unfold int_sized in Hs. rewrite wrapS_small by lia.
  replace (0 <=? Z.of_nat (length s))%Z with true by (symmetry; apply Z.leb_le; lia).
  rewrite Nat2Z.id. destruct (append_str_spec s b Hb) as (b' & E & Hi & Hc & _). by exists b'.
Qed.

Lemma append_str_ok s b :
  buf_inv b -> exists b', append_str s b = Ok b' /\ buf_inv b' /\ content b' = content b ++ s.
Proof. intros Hb. destruct (append_str_spec s b Hb) as (b' & E & Hi & Hc & _). by exists b'. Qed.

(** Runs one append. *)
Ltac step_append H :=
  let b := fresh "b" in let E := fresh "E" in let Hi := fresh "Hi" in let Hc := fresh "Hc" in
  destruct H as (b & E & Hi & Hc); [done..|]; rewrite E; run_res.

Lemma append_headers_spec hs b :
  buf_inv b -> Forall (fun f => int_sized f.1 /\ int_sized f.2) hs ->
  exists b', append_headers hs b = Ok b' /\ buf_inv b'
    /\ content b' = content b ++ concat ((fun f => f.1 ++ str ": " ++ f.2 ++ kCRLF) <$> hs).
Proof.
  revert b; induction hs as [|[k v] hs IH]; intros b Hb Hs.
  { exists b. by rewrite app_nil_r. }
  apply Forall_cons in Hs as [[Hk Hv] Hs]. cbn [append_headers].
  step_append (append_string_spec k b). step_append (append_str_ok (str ": ") b0).
  step_append (append_string_spec v b1). step_append (append_str_ok kCRLF b2).
  destruct (IH b3) as (b' & E' & Hi' & Hc'); [done..|]. exists b'. split; [done|]. split; [done|].
  rewrite Hc', Hc2, Hc1, Hc0, Hc. cbn [fmap list_fmap concat fst snd]. by rewrite <- !app_assoc.
Qed.

(** A decimal of at most ten digits and a sign. *)
Lemma appendToBuffer_spec r b :
  buf_inv b -> response_ok r ->
  exists b', appendToBuffer r b = Ok b' /\ buf_inv b' /\ content b' = content b ++ response_text r.
Proof.
  intros Hb (Hcode & Hmsg & Hbody & Hhs). unfold appendToBuffer, response_text, snprintf.
  pose proof (fmt_d_length 10 (statusCode_ r) ltac:(lia) ltac:(lia)) as Hl1.
  unfold int_sized in Hbody. rewrite wrapS_small by lia.
  pose proof (fmt_d_length 10 (Z.of_nat (length (body_ r))) ltac:(lia) ltac:(lia)) as Hl2.
  rewrite (take_ge (str "HTTP/1.1 " ++ _)) by (rewrite length_app; simpl; lia).
  step_append (append_str_ok (str "HTTP/1.1 " ++ fmt_d (statusCode_ r)) b).
  step_append (append_string_spec (statusMessage_ r) b0). step_append (append_str_ok kCRLF b1).
  set (conn_text := if closeConnection_ r then str "Connection: close" ++ kCRLF else _).
  assert (Hconn : exists b3, (if closeConnection_ r then append_str (str "Connection: close" ++ kCRLF) b2
    else b ← append_str (take (32 - 1) (str "Content-Length: "
               ++ fmt_d (Z.of_nat (length (body_ r))) ++ kCRLF)) b2;
         append_str (str "Connection: Keep-Alive" ++ kCRLF) b) = Ok b3
    /\ buf_inv b3 /\ content b3 = content b2 ++ conn_text).
  { unfold conn_text. destruct (closeConnection_ r); [by apply append_str_ok|].
    rewrite take_ge by (rewrite !length_app; simpl; lia).
    step_append (append_str_ok (str "Content-Length: " ++ fmt_d (Z.of_nat (length (body_ r))) ++ kCRLF) b2).
    destruct (append_str_ok (str "Connection: Keep-Alive" ++ kCRLF) b3) as (b' & E3 & Hi3 & Hc3); [done|].
    exists b'. split; [done|]. split; [done|]. rewrite Hc3, Hc2. by rewrite <- !app_assoc. }
  destruct Hconn as (b3 & -> & Hi2 & Hc2). run_res.
  step_append (append_headers_spec (resp_headers_ r) b3). step_append (append_str_ok kCRLF b4).
  destruct (append_string_spec (body_ r) b5) as (b' & E' & Hi' & Hc'); [done..|].
  exists b'. split; [done|]. split; [done|].
  rewrite Hc', Hc4, Hc3, Hc2, Hc1, Hc0, Hc. by rewrite <- !app_assoc.
Qed.

(** What the server does when a request is complete. *)
Lemma reply_request cb ans t t1 r c b b' :
  parseRequest t c b = Ok (true, mkContext kGotAll (request_of r t1), b') ->
  let req := request_of r t1 in
  let resp := cb req (new_HttpResponse (wants_close req)) in
  response_ok resp ->
  onMessage cb ans t c b
  = Ok (USendBuffer (response_text resp) ans :: (if closeConnection_ resp then [UShutdown] else []),
        expecting (t_version r), b').
Proof.
  intros E req resp Hok.
  unfold onMessage. rewrite E. run_res. unfold gotAll. cbn [parse_state_]. rewrite bool_decide_true by done.
  unfold onRequest. cbn [request_]. fold req resp.
  destruct (appendToBuffer_spec resp (new_Buffer kInitialSize)) as (b2 & E2 & _ & Hc2);
    [apply new_Buffer_inv | done |].
  assert (Hv : forall fs q, version_ (add_fields fs q) = version_ q)
    by (induction fs as [|f fs IH]; intros q; [done|]; apply (IH (mkRequest _ _ _ _ _ _))).
  rewrite E2. run_res. rewrite Hc2.
  unfold reset_context, swap_HttpRequest. cbn [request_ fst new_HttpRequest method_ path_ query_ receiveTime_ headers_].
  assert (version_ req = t_version r) as -> by (unfold req, request_of; by rewrite Hv). done.
Qed.

(** The answer to a well-formed request. *)
Lemma answers_request cb ans v0 t r rest b :
  target_ok r -> buf_inv b -> content b = request_text r ++ rest ->
  let req := request_of r t in
  let resp := cb req (new_HttpResponse (wants_close req)) in
  response_ok resp ->
  exists b', onMessage cb ans t (expecting v0) b
    = Ok (USendBuffer (response_text resp) ans :: (if closeConnection_ resp then [UShutdown] else []),
          expecting (t_version r), b')
    /\ buf_inv b' /\ content b' = rest.
Proof.
  intros Hr Hb Hc req resp Hok. destruct (parse_request_text r v0 t rest b Hr Hb Hc) as (b' & E & Hb' & Hc').
  exists b'. split; [by apply (reply_request cb ans t t r)|done].
Qed.

(** The server answers a well-formed request once: it sends exactly the
    text of the response its callback built, shuts the connection down
    exactly when the response says so, leaves the bytes after the request in
    the buffer and is ready for the next request. The default of the response is to close for
    [Connection: close] and for HTTP/1.0 without [Keep-Alive]. *)
Theorem onMessage_answers cb ans v0 t r rest b :
  target_ok r -> buf_inv b -> content b = request_text r ++ rest ->
  let req := request_of r t in
  let resp := cb req (new_HttpResponse (wants_close req)) in
  response_ok resp ->
  exists b', onMessage cb ans t (expecting v0) b
    = Ok (USendBuffer (response_text resp) ans :: (if closeConnection_ resp then [UShutdown] else []),
          expecting (t_version r), b')
    /\ buf_inv b' /\ content b' = rest.
Proof. apply answers_request. Qed.

(** ** Examples *)

Definition demo_target : target :=
  mkTarget kGet (str "/hello") (str "?x=1") kHttp11
    [(str "Host", str "a.b"); (str "Connection", str "close")].

Lemma demo_target_ok : target_ok demo_target.
Proof.
  split; try done; simpl.
  - split_and!; closed_not_in.
  - split_and!; [closed_not_in | closed_not_in | by right].
  - repeat (apply Forall_cons; split; [split_and!; simpl; first [closed_not_in | by split]|]). constructor.
Qed.

Definition filled (s : bytes) : Buffer :=
  match append_str s (new_Buffer 64) with Ok b => b | Fault _ => new_Buffer 64 end.

Lemma filled_spec s : buf_inv (filled s) /\ content (filled s) = s.
Proof.
  unfold filled. destruct (append_str_spec s (new_Buffer 64)) as (b & -> & Hi & Hc & _);
    [apply new_Buffer_inv|]. done.
Qed.

Lemma parse_incremental_witness :
  exists b1 b2, parseRequest 7 new_HttpContext (filled (str "GET / HT")) = Ok (true, new_HttpContext, b1)
    /\ append_str (str "TP/1.1") b1 = Ok b2
    /\ bytes_left (parseRequest 7 new_HttpContext b2)
       = bytes_left (parseRequest 7 new_HttpContext (filled (str "GET / HTTP/1.1"))).
Proof.
  assert (E : parseRequest 7 new_HttpContext (filled (str "GET / HT"))
              = Ok (true, new_HttpContext, filled (str "GET / HT"))) by (vm_compute; reflexivity).
  destruct (parse_incremental 7 new_HttpContext (filled (str "GET / HT")) (str "TP/1.1")
    new_HttpContext (filled (str "GET / HT")) (filled (str "GET / HTTP/1.1")))
    as (b2 & E2 & H & _); [apply filled_spec | apply filled_spec | by left | | exact E | reflexivity |].
  - rewrite !(proj2 (filled_spec _)). reflexivity.
  - exists (filled (str "GET / HT")), b2. done.
Defined.

Lemma bad_request_aborts_witness :
  parseRequest 8 (mkContext kExpectRequestLine
      (mkRequest kGet kUnkown [] [] invalid [])) (filled (str "GET x" ++ kCRLF ++ str "more"))
  = Fault AssertFailed.
Proof.
  refine (proj2 (bad_request_aborts 7 8 (str "GET x") [] (filled (str "GET x" ++ kCRLF))
    (filled (str "GET x" ++ kCRLF ++ str "more")) (str "more") 3 _ _ _ _ _ _ _ _ _));
    try apply filled_spec; try reflexivity.
  - closed_not_in.
  - vm_compute. discriminate.
Defined.

Lemma onMessage_answers_witness :
  exists b', onMessage defaultHttpCallback (Sent 1000) 9 new_HttpContext
      (filled (request_text demo_target ++ str "GET"))
    = Ok ([USendBuffer (str "HTTP/1.1 404Not Found" ++ kCRLF ++ str "Connection: close" ++ kCRLF ++ kCRLF) (Sent 1000);
           UShutdown], mkContext kExpectRequestLine (mkRequest kInvalid kHttp11 [] [] invalid []), b')
    /\ content b' = str "GET".
Proof.
  destruct (onMessage_answers defaultHttpCallback (Sent 1000) kUnkown 9 demo_target (str "GET")
    (filled (request_text demo_target ++ str "GET"))) as (b' & E & _ & Hc).
  - apply demo_target_ok.
  - apply filled_spec.
  - apply filled_spec.
  - split; [vm_compute; split; [discriminate | reflexivity]|]. split; [vm_compute; reflexivity|]. split; [vm_compute; reflexivity|]. constructor.
  - exists b'. split; [exact E | exact Hc].
Defined.
