(* ===== verification/HttpStream.v ===== *)
(** * HTTP requests that arrive in pieces

    A connection delivers the texts of requests cut anywhere. [receiving] says
    what the context and the unread bytes are in the middle of a request;
    [HttpServer::onMessage] of src/msmuduo/net/http/HttpServer.cpp goes on
    from there, at another time and with more bytes, as if the request had
    come at once. *)
From S2P Require Import Prelude.
From S2P Require Import Endian.
From S2P Require Import Buffer.
From S2P Require Import BufferFacts.
From S2P Require Import Timestamp.
From S2P Require Import TcpConnection.
From S2P Require Import Http.
From S2P Require Import HttpFacts.

(** The parser on bytes, with enough fuel. *)
Definition parse_bytes (t : Timestamp) (c : HttpContext) (l : bytes) : res (bool * HttpContext * bytes) :=
  spec_loop (S (length l)) t c l.

(** ** A parse that is over stays so when more bytes follow *)

Definition over (r : res (bool * HttpContext * bytes)) (d : bytes) : res (bool * HttpContext * bytes) :=
  '(ok, c, l) ← r; Ok (ok, c, l ++ d).

Definition unfinished (r : res (bool * HttpContext * bytes)) : bool :=
  match r with Ok (ok, c, _) => ok && negb (gotAll c) | Fault _ => false end.

Lemma spec_round_fault t c l d e :
  parsing c -> spec_round t c l = Fault e -> spec_round t c (l ++ d) = Fault e.
Proof.
  unfold spec_round. intros [Hs|Hs]; rewrite Hs;
    (destruct (find_sub kCRLF l) as [n|] eqn:Hn; [|done]);
    pose proof (find_crlf_bound _ _ Hn); rewrite (find_sub_app kCRLF l d n ltac:(done) Hn);
    rewrite take_app_le by lia.
  - destruct (processRequestLine _ _) as [[[] r]|]; simpl; [done..|]. by intros [= ->].
  - by destruct (find_char colon_char _).
Qed.

Lemma spec_loop_over t c l d f :
  parsing c -> length l < f -> unfinished (spec_loop f t c l) = false ->
  parse_bytes t c (l ++ d) = over (spec_loop f t c l) d.
Proof.
  unfold parse_bytes. revert c l; induction f as [|f IH]; intros c l Hc Hf Hu; [lia|]. cbn [spec_loop] in *.
  destruct (spec_round t c l) as [[[[ok more] c'] l']|e] eqn:Er; cbn [mbind res_bind] in *.
  - destruct (spec_round_app t c l d _ _ _ _ Hc Er) as [(-> & -> & -> & ->)|[_ Ea]].
    + simpl in Hu. destruct Hc as [Hs|Hs]; unfold gotAll in Hu; rewrite Hs in Hu; done.
    + rewrite Ea. cbn [mbind res_bind]. destruct more; [|done].
      destruct (spec_round_more _ _ _ _ _ _ Hc Er) as [Hc' Hl]. 
      transitivity (spec_loop (S (length (l' ++ d))) t c' (l' ++ d)); [|exact (IH c' l' Hc' ltac:(lia) Hu)].
      apply spec_loop_fuel; [done | rewrite !length_app; lia..].
  - rewrite (spec_round_fault _ _ _ d _ Hc Er). done.
Qed.

(** ** The time matters only for the first line *)

Lemma headers_time t t' f c l :
  parse_state_ c = kExpectHeaders -> spec_loop f t c l = spec_loop f t' c l.
Proof.
  revert c l; induction f as [|f IH]; intros c l Hs; [done|]. cbn [spec_loop].
  assert (Hr : spec_round t c l = spec_round t' c l) by (unfold spec_round; by rewrite Hs). rewrite <- Hr.
  destruct (spec_round t c l) as [[[[ok []] c'] l']|] eqn:Er; cbn [mbind res_bind]; [|done..].
  apply IH. unfold spec_round in Er. rewrite Hs in Er. destruct (find_sub _ _); [|done].
  destruct (find_char _ _); [|done]. by injection Er as _ <- _.
Qed.

Lemma headers_stay t f c l ok c1 l1 :
  parse_state_ c = kExpectHeaders -> spec_loop f t c l = Ok (ok, c1, l1) -> gotAll c1 = false ->
  parse_state_ c1 = kExpectHeaders.
Proof.
  revert c l; induction f as [|f IH]; intros c l Hs; [done|]. cbn [spec_loop]. unfold spec_round. rewrite Hs.
  destruct (find_sub _ _) as [n|]; [|intros [= <- <- <-]; done].
  destruct (find_char _ _); cbn [mbind res_bind]; [|by intros [= <- <- <-]]. by apply IH.
Qed.

(** Nothing was taken yet, or the first line is behind. *)
Lemma unfinished_state t c l c1 l1 :
  parse_state_ c = kExpectRequestLine -> parse_bytes t c l = Ok (true, c1, l1) -> gotAll c1 = false ->
  c1 = c /\ l1 = l \/ parse_state_ c1 = kExpectHeaders.
Proof.
  unfold parse_bytes. cbn [spec_loop]. unfold spec_round. intros Hs. rewrite Hs.
  destruct (find_sub _ _) as [n|]; [|intros [= <- <-] _; by left].
  destruct (processRequestLine _ _) as [[[] r]|]; cbn [mbind res_bind]; [|done..].
  intros E Hg. right. by eapply headers_stay; [|exact E|].
Qed.

(** Parsing takes bytes from the front. *)
Lemma spec_loop_suffix t f c l ok c1 l1 :
  spec_loop f t c l = Ok (ok, c1, l1) -> exists u, l = u ++ l1.
Proof.
  revert c l; induction f as [|f IH]; intros c l; [done|]. cbn [spec_loop].
  destruct (spec_round t c l) as [[[[ok' more] c'] l']|] eqn:Er; cbn [mbind res_bind]; [|done].
  assert (Hl : exists u, l = u ++ l').
  { assert (Hd : forall n, exists u, l = u ++ drop n l) by (intros n; exists (take n l); by rewrite take_drop).
    unfold spec_round in Er. destruct (parse_state_ c); try (injection Er as _ _ _ <-; by exists []);
      (destruct (find_sub _ _) as [n|]; [|injection Er as _ _ _ <-; by exists []]).
    - destruct (processRequestLine _ _) as [[[] r]|]; [..|done]; injection Er as _ _ _ <-; [done|by exists []].
    - destruct (find_char _ _); by injection Er as _ _ _ <-. }
  destruct Hl as [u ->]. destruct more; [|intros [= _ _ <-]; by exists u].
  intros (v & ->)%IH. exists (u ++ v). by rewrite app_assoc.
Qed.

(** ** In the middle of a request *)

(** The context [c] and the unread bytes [l] are what is made of [p], the bytes
    of the request so far. *)
Definition receiving (v0 : Version) (c : HttpContext) (l p : bytes) : Prop :=
  parsing c /\ forall d t, exists t1, parse_bytes t c (l ++ d) = parse_bytes t1 (expecting v0) (p ++ d).

Lemma receiving_start v0 p : receiving v0 (expecting v0) p p.
Proof. split; [by left|]. intros d t. by exists t. Qed.

(** The rest of the request is missing. *)
Lemma receiving_more v0 c l p d t r e :
  target_ok r -> receiving v0 c l p -> request_text r = (p ++ d) ++ e -> e <> [] ->
  exists c1 l1, parse_bytes t c (l ++ d) = Ok (true, c1, l1) /\ gotAll c1 = false
    /\ receiving v0 c1 l1 (p ++ d).
Proof.
  intros Hr [Hc Heq] Ht He. destruct (Heq d t) as [t1 E]. rewrite E.
  pose proof (spec_request_text r v0 t1 [] Hr) as Hw. rewrite app_nil_r, Ht in Hw.
  assert (Hp : parsing (expecting v0)) by (by left).
  destruct (unfinished (parse_bytes t1 (expecting v0) (p ++ d))) eqn:Hu.
  2:{ exfalso. pose proof (spec_loop_over t1 (expecting v0) (p ++ d) e _ Hp (Nat.lt_succ_diag_r _) Hu) as Ho.
      unfold parse_bytes in Ho at 1. rewrite Hw in Ho. destruct (spec_loop (S (length (p ++ d))) t1 _ _) as [[[ok c1] l1]|]; [|done].
      cbn [over mbind res_bind] in Ho. injection Ho as _ _ Hnil. symmetry in Hnil. apply app_nil in Hnil as [_ ?]. done. }
  destruct (parse_bytes t1 (expecting v0) (p ++ d)) as [[[ok c1] l1]|] eqn:E1; [|done].
  simpl in Hu. apply andb_true_iff in Hu as [-> Hg%negb_true_iff]. exists c1, l1. split; [done|]. split; [done|].
  assert (Happ := fun d' => spec_loop_app t1 (expecting v0) (p ++ d) d' _ c1 l1 Hp (Nat.lt_succ_diag_r _) E1 Hg).
  split; [by apply (Happ [])|]. intros d' t'.
  destruct (unfinished_state t1 (expecting v0) _ _ _ eq_refl E1 Hg) as [[-> ->]|Hh]; [by exists t'|].
  exists t1. unfold parse_bytes. rewrite (proj2 (Happ d')). by apply headers_time.
Qed.

(** The request is complete, and more may follow. *)
Lemma receiving_whole v0 c l p d t r rest :
  target_ok r -> receiving v0 c l p -> p ++ d = request_text r ++ rest ->
  exists t1, parse_bytes t c (l ++ d) = Ok (true, mkContext kGotAll (request_of r t1), rest).
Proof.
  intros Hr [_ Heq] Ht. destruct (Heq d t) as [t1 E]. exists t1. rewrite E, Ht. by apply spec_request_text.
Qed.

(** ** The server *)

Section Server.
Context (cb : HttpRequest -> HttpResponse -> HttpResponse).

Definition response_to (r : target) (t : Timestamp) : HttpResponse :=
  let req := request_of r t in cb req (new_HttpResponse (wants_close req)).

(** More of the request: nothing is answered. *)
Lemma onMessage_waits ans t v0 c l p d r e b :
  target_ok r -> receiving v0 c l p -> request_text r = (p ++ d) ++ e -> e <> [] ->
  buf_inv b -> content b = l ++ d ->
  exists c1 b1, onMessage cb ans t c b = Ok ([], c1, b1) /\ buf_inv b1
    /\ (exists u, content b = u ++ content b1) /\ receiving v0 c1 (content b1) (p ++ d).
Proof.
  intros Hr Hc Ht He Hb Hl. destruct (receiving_more v0 c l p d t r e Hr Hc Ht He) as (c1 & l1 & E & Hg & Hc1).
  rewrite <- Hl in E. destruct (parseRequest_spec t c b _ _ _ Hb E) as (b1 & E1 & Hb1 & <-). exists c1, b1.
  split; [|split_and!; [done|exact (spec_loop_suffix _ _ _ _ _ _ _ E)|done]].
  unfold onMessage. rewrite E1. run_res. by rewrite Hg.
Qed.

(** The end of the request: it is answered, and the rest is left. *)
Lemma onMessage_replies ans t v0 c l p d r rest b :
  target_ok r -> (forall t1, response_ok (response_to r t1)) ->
  receiving v0 c l p -> p ++ d = request_text r ++ rest -> buf_inv b -> content b = l ++ d ->
  exists t1 b1, onMessage cb ans t c b
      = Ok (USendBuffer (response_text (response_to r t1)) ans
              :: (if closeConnection_ (response_to r t1) then [UShutdown] else []),
            expecting (t_version r), b1)
    /\ buf_inv b1 /\ (exists u, content b = u ++ content b1) /\ content b1 = rest.
Proof.
  intros Hr Hok Hc Ht Hb Hl. destruct (receiving_whole v0 c l p d t r rest Hr Hc Ht) as (t1 & E).
  rewrite <- Hl in E. pose proof (spec_loop_suffix _ _ _ _ _ _ _ E) as Hsuf.
  destruct (parseRequest_spec t c b _ _ _ Hb E) as (b1 & E1 & Hb1 & <-). exists t1, b1.
  split; [|done]. exact (reply_request cb ans t t1 r c b b1 E1 (Hok t1)).
Qed.
End Server.
