(* ===== verification/HttpConn.v ===== *)
(** * The HTTP server on its connections

    src/msmuduo/net/http/HttpServer.cpp with the [TcpConnection] it is the
    user of: [onConnection] and [onMessage] are the callbacks, the responses go
    through [send] and [shutdown]. The client is any that sends well-formed
    requests, cut into reads anywhere and pipelined or not; the kernel takes
    what it likes of the responses. *)
From S2P Require Import Prelude.
From S2P Require Import Endian.
From S2P Require Import StringPiece.
From S2P Require Import Buffer.
From S2P Require Import BufferFacts.
From S2P Require Import Timestamp.
From S2P Require Import Channel.
From S2P Require Import Poller.
From S2P Require Import EventLoop.
From S2P Require Import ChannelHost.
From S2P Require Import TcpConnection.
From S2P Require Import TcpConnectionFacts.
From S2P Require Import ConnUse.
From S2P Require Import Http.
From S2P Require Import HttpFacts.
From S2P Require Import HttpStream.

Section HttpConn.
Context `{Platform} {L F : Type} `{!ChannelHost L F} `{!ChannelHostLaws L F} (embed : functor -> F).
Context (cb : HttpRequest -> HttpResponse -> HttpResponse).

(** ** The system *)

(** [h_context]: what [setContext] stored in the connection. [h_reads]: what
    was read so far. *)
Record hworld := mkHworld { h_world : world L; h_context : option HttpContext; h_reads : list bytes }.

(** What [handleRead] makes [onMessage] do: the calls on the connection, one
    [retrieve] for all that the parser takes. *)
Definition http_read (recv : recv_result) (reply : send_result) (t : Timestamp) (h : hworld) :
    res (list uop * option HttpContext * list bytes) :=
  let input := inputBuffer_ (conn (h_world h)) in
  '(n, _, buf) ← readFd recv input;
  if (0 <? n)%Z then
    context ← get_ NullDeref (h_context h);
    '(calls, context, rest) ← onMessage cb reply t context buf;
    Ok (URetrieve (readableBytes buf - readableBytes rest) :: calls, Some context,
        h_reads h ++ [drop (readableBytes input) (content buf)])
  else Ok ([], h_context h, h_reads h).

Inductive http_op :=
  | HEstablished
  | HEvent (recv : recv_result) (reply write : send_result) (t : Timestamp) (revents : Z)
  | HDestroyed
  | HLoop (l : L).

Definition reads_event (revents : Z) : bool := has_flag revents (Z.lor POLLIN POLLPRI).

Definition http_exec (op : http_op) (h : hworld) : res hworld :=
  match op with
  | HEstablished =>
      w ← conn_exec embed (OpEstablished []) (h_world h);
      Ok (mkHworld w (onConnection true (h_context h)) (h_reads h))
  | HEvent recv reply write t revents =>
      '(calls, context, reads) ← (if reads_event revents then http_read recv reply t h
                                  else Ok ([], h_context h, h_reads h));
      w ← conn_exec embed (OpEvent (mkInputs recv write calls) revents) (h_world h);
      Ok (mkHworld w context reads)
  | HDestroyed =>
      w ← conn_exec embed (OpDestroyed []) (h_world h);
      Ok (mkHworld w (onConnection false (h_context h)) (h_reads h))
  | HLoop l => w ← conn_exec embed (OpLoop l) (h_world h); Ok (mkHworld w (h_context h) (h_reads h))
  end.

(** The client sends the requests [rs]. *)
Context (rs : list target).

Definition recv_data (recv : recv_result) : bytes := match recv with RecvData d => d | RecvError _ => [] end.

(** When the connection may do it; what is read goes on with the requests. *)
Definition http_enabled (op : http_op) (h : hworld) : Prop :=
  match op with
  | HEstablished => enabled (OpEstablished []) (h_world h)
  | HEvent recv _ write _ revents =>
      enabled (OpEvent (mkInputs recv write []) revents) (h_world h)
      /\ (concat (h_reads h) ++ recv_data recv) `prefix_of` concat (request_text <$> rs)
  | HDestroyed => enabled (OpDestroyed []) (h_world h)
  | HLoop l => enabled (OpLoop l) (h_world h)
  end.

Inductive http_reach (h0 : hworld) : hworld -> Prop :=
  | http_start : http_reach h0 h0
  | http_next h op h' : http_reach h0 h -> http_enabled op h -> http_exec op h = Ok h' -> http_reach h0 h'.

(** ** What an abstract server does

    It knows the requests that come, answers at most one per read, and stops
    sending after the first response that closes. *)

(** Requests answered, and bytes that came since. *)
Definition serve_read (s : nat * nat) (d : bytes) : nat * nat :=
  let '(k, pending) := s in
  let pending := pending + length d in
  match rs !! k with
  | Some r => if length (request_text r) <=? pending then (S k, pending - length (request_text r)) else (k, pending)
  | None => (k, pending)
  end.

Definition served (reads : list bytes) : nat * nat := foldl serve_read (0, 0) reads.

Fixpoint until_close (l : list HttpResponse) : list HttpResponse :=
  match l with
  | [] => []
  | x :: l => x :: (if closeConnection_ x then [] else until_close l)
  end.

(** The responses to the requests answered so far, made at the times [ts]. *)
Definition responses (ts : list Timestamp) : list HttpResponse := zip_with (response_to cb) rs ts.

(** ** Effects on the connection *)

Implicit Types (w : world L).

(** The reply is handed over while the connection is fully up, and the
    shutdown takes it to [kDisconnecting]. *)
Lemma exec_reply (x : bytes) ans (close : bool) w w' :
  exec_uops embed (USendBuffer x ans :: (if close then [UShutdown] else [])) w = Ok w' ->
  handed (trace w') = (if decide (state_ (conn w) = kConnected) then handed (trace w) ++ [x] else handed (trace w))
  /\ content (inputBuffer_ (conn w')) = content (inputBuffer_ (conn w))
  /\ state_ (conn w') = (if decide (state_ (conn w) = kConnected)
                         then if close then kDisconnecting else kConnected else state_ (conn w)).
Proof.
  cbn [exec_uops exec_uop]. unfold send. intros E. inv_res. case_decide as Hs.
  - destruct (sendInLoop_handed embed _ _ _ _ Ha) as (Hh & Hs1 & Hi1); [congruence|]. rewrite Hs in Hs1.
    destruct close; cbn [exec_uops exec_uop] in E; [|injection E as <-; by rewrite Hh, Hi1, Hs1].
    unfold shutdown in E. inv_res. rewrite decide_True in Ha0 by done.
    apply shutdownInLoop_idle in Ha0 as [(Hh2 & Hi2 & _) Hs2]. by rewrite Hh2, Hi2, Hs2, <- Hh, <- Hi1.
  - injection Ha as <-. destruct close; cbn [exec_uops exec_uop] in E; [|by injection E as <-].
    unfold shutdown in E. rewrite decide_False in E by done. inv_res. done.
Qed.

(** ** The invariant *)

Definition all_stay (l : list HttpResponse) : Prop := Forall (fun x => closeConnection_ x = false) l.
Definition one_closes (l : list HttpResponse) : Prop := Exists (fun x => closeConnection_ x = true) l.

(** What was handed over in state [st] when [l] are the responses made. *)
Definition answered (st : StateE) (l : list HttpResponse) (sent : list bytes) : Prop :=
  sent = response_text <$> until_close l
  /\ match st with
     | kConnecting => False
     | kConnected => all_stay l
     | kDisconnecting => one_closes l
     | kDisconnected => True
     end.

(** [k] requests are answered, and [p] came of what follows. *)
Definition serving (h : hworld) : Prop :=
  exists c v0 p k ts,
    h_context h = Some c /\ receiving v0 c (content (inputBuffer_ (conn (h_world h)))) p
    /\ concat (h_reads h) = concat (request_text <$> take k rs) ++ p
    /\ served (h_reads h) = (k, length p) /\ k <= length rs /\ length ts = k
    /\ answered (state_ (conn (h_world h))) (responses ts) (handed (trace (h_world h))).

Definition http_inv (h : hworld) : Prop :=
  conn_inv (h_world h) /\
  if decide (state_ (conn (h_world h)) = kConnecting)
  then h_reads h = [] /\ trace (h_world h) = [] /\ content (inputBuffer_ (conn (h_world h))) = []
  else serving h.

Lemma serving_idle h w' :
  serving h -> idle (h_world h) w' -> serving (mkHworld w' (h_context h) (h_reads h)).
Proof.
  intros (c & v0 & p & k & ts & Hc & Hrec & Hcat & Hsv & Hk & Hts & Hh & Hst) (Eh & Ei & Es).
  exists c, v0, p, k, ts. cbn [h_world h_context h_reads]. unfold answered. rewrite Eh, Ei. split_and!; try done.
  by destruct Es as [-> | ->].
Qed.

Lemma serving_not_connecting h : serving h -> state_ (conn (h_world h)) <> kConnecting.
Proof. intros (c & v0 & p & k & ts & _ & _ & _ & _ & _ & _ & _ & Hst) E. unfold answered in Hst. by rewrite E in Hst. Qed.

Lemma until_close_stay l x : all_stay l -> until_close (l ++ [x]) = until_close l ++ [x].
Proof.
  unfold all_stay. induction 1 as [|y l Hy Hl IH]; simpl; [by destruct (closeConnection_ x)|]. by rewrite Hy, IH.
Qed.

Lemma until_close_closed l x : one_closes l -> until_close (l ++ [x]) = until_close l.
Proof.
  unfold one_closes. induction 1 as [y l Hy|y l Hl IH]; simpl; [by rewrite Hy|]. by rewrite IH.
Qed.

(** One more response, given to [send] as in [exec_reply]. *)
Lemma answered_snoc st l sent x :
  answered st l sent -> st <> kDisconnected ->
  answered (if decide (st = kConnected) then if closeConnection_ x then kDisconnecting else kConnected else st)
    (l ++ [x]) (if decide (st = kConnected) then sent ++ [response_text x] else sent).
Proof.
  intros [-> Hst] Hd. case_decide as Hc.
  - subst st. split; [by rewrite until_close_stay, fmap_app|]. unfold all_stay, one_closes in *.
    destruct (closeConnection_ x) eqn:Hx; [rewrite Exists_app; right; by left|]. apply Forall_app. split; [done|]. by constructor.
  - destruct st; try done. split; [by rewrite until_close_closed|]. apply Exists_app. by left.
Qed.

Lemma responses_snoc ts r t :
  rs !! length ts = Some r -> responses (ts ++ [t]) = responses ts ++ [response_to cb r t].
Proof.
  unfold responses. generalize rs. induction ts as [|t0 ts IH]; intros [|r0 l]; simpl; try done.
  - intros [= ->]. by destruct l.
  - intros E. f_equal. by apply IH.
Qed.

Lemma served_snoc reads d : served (reads ++ [d]) = serve_read (served reads) d.
Proof. unfold served. by rewrite foldl_snoc. Qed.

(** ** A read *)

(** [w1]: [handleRead] has the bytes [d] in the input buffer. *)
Definition got (h : hworld) (d : bytes) (w1 : world L) : Prop :=
  handed (trace w1) = handed (trace (h_world h)) /\ state_ (conn w1) = state_ (conn (h_world h))
  /\ buf_inv (inputBuffer_ (conn w1)) /\ content (inputBuffer_ (conn w1)) = content (inputBuffer_ (conn (h_world h))) ++ d.

(** What [onMessage] leaves of the buffer is what the connection has. *)
Lemma http_read_spec d reply t h c e b calls c1 b1 :
  conn_inv (h_world h) -> d <> [] -> h_context h = Some c ->
  readFd (RecvData d) (inputBuffer_ (conn (h_world h))) = Ok (Z.of_nat (length d), e, b) -> buf_inv b ->
  content b = content (inputBuffer_ (conn (h_world h))) ++ d ->
  onMessage cb reply t c b = Ok (calls, c1, b1) -> buf_inv b1 -> (exists u, content b = u ++ content b1) ->
  exists n, http_read (RecvData d) reply t h = Ok (URetrieve n :: calls, Some c1, h_reads h ++ [d])
    /\ forall w1 w', got h d w1 -> exec_uops embed (URetrieve n :: calls) w1 = Ok w' ->
         exists w2, exec_uops embed calls w2 = Ok w' /\ handed (trace w2) = handed (trace (h_world h))
           /\ state_ (conn w2) = state_ (conn (h_world h)) /\ content (inputBuffer_ (conn w2)) = content b1.
Proof.
  intros Hi Hd Hc E Hb Hcb Em Hb1 [u Hu]. exists (readableBytes b - readableBytes b1). split.
  - unfold http_read. rewrite E. run_res. rewrite (proj2 (Z.ltb_lt _ _)) by (destruct d; [done|simpl; lia]).
    rewrite Hc. run_res. rewrite Em. run_res.
    rewrite Hcb, drop_app_length' by (by rewrite length_content by apply Hi). done.
  - intros w1 w' (Hh & Hs & Hbw & Hcw) Ex. destruct (exec_retrieve embed _ _ _ _ Hbw Ex) as (w2 & Ex2 & Et & Es & Ec).
    exists w2. split_and!; [done|congruence..|]. rewrite Ec, Hcw, <- Hcb, Hu. apply drop_app_length'.
    rewrite <- !length_content, Hcw, <- Hcb, Hu, length_app by done. lia.
Qed.

Hypothesis rs_ok : Forall target_ok rs.
Hypothesis cb_ok : forall r t, r ∈ rs -> response_ok (response_to cb r t).

Lemma rs_at k r : rs !! k = Some r -> target_ok r /\ forall t, response_ok (response_to cb r t).
Proof.
  intros Hk. split; [by eapply Forall_lookup_1|]. intros t. apply cb_ok. by eapply list_elem_of_lookup_2.
Qed.

(** Where the bytes so far stand in the requests. *)
Lemma rest_of_requests (k : nat) (p d : bytes) :
  k <= length rs -> (concat (request_text <$> take k rs) ++ p ++ d) `prefix_of` concat (request_text <$> rs) -> d <> [] ->
  exists r, rs !! k = Some r
    /\ ((exists e, request_text r = (p ++ d) ++ e /\ e <> [] /\ length (p ++ d) < length (request_text r))
        \/ exists rest, p ++ d = request_text r ++ rest).
Proof.
  intros Hk Hp Hd. rewrite <- (take_drop k rs) in Hp at 2. rewrite fmap_app, concat_app in Hp. apply prefix_app_inv in Hp.
  destruct (rs !! k) as [r|] eqn:Hr.
  2:{ apply lookup_ge_None in Hr. rewrite drop_ge in Hp by lia. apply prefix_nil_inv, app_nil in Hp as [_ ->]. done. }
  rewrite (drop_S _ _ _ Hr) in Hp. cbn [fmap list_fmap concat] in Hp. exists r. split; [done|].
  destruct (decide (length (request_text r) <= length (p ++ d))) as [Hle|Hlt].
  - right. destruct Hp as [z Hz]. exists (drop (length (request_text r)) (p ++ d)).
    rewrite <- (take_drop (length (request_text r)) (p ++ d)) at 1. f_equal.
    apply (f_equal (take (length (request_text r)))) in Hz. rewrite take_app_length, take_app_le in Hz by done. done.
  - left. destruct Hp as [z Hz]. exists (drop (length (p ++ d)) (request_text r)).
    assert (E : request_text r = (p ++ d) ++ drop (length (p ++ d)) (request_text r)).
    { rewrite <- (take_drop (length (p ++ d)) (request_text r)) at 1. f_equal.
      apply (f_equal (take (length (p ++ d)))) in Hz. rewrite take_app_length, take_app_le in Hz by lia. done. }
    split; [done|]. split; [|lia]. intros Hnil. rewrite Hnil, app_nil_r in E. rewrite E in Hlt. lia.
Qed.

(** What a read of [d] does. *)
Definition read_serves (d : bytes) reply t (h : hworld) : Prop :=
  exists calls context, http_read (RecvData d) reply t h = Ok (calls, context, h_reads h ++ [d])
    /\ forall w1 w', got h d w1 -> exec_uops embed calls w1 = Ok w' ->
         serving (mkHworld w' context (h_reads h ++ [d])).

Lemma read_ok d reply t h :
  conn_inv (h_world h) -> is_open (h_world h) = true -> serving h -> recv_fits (RecvData d) (inputBuffer_ (conn (h_world h))) -> d <> [] ->
  (concat (h_reads h) ++ d) `prefix_of` concat (request_text <$> rs) -> read_serves d reply t h.
Proof.
  intros Hi Hop (c & v0 & p & k & ts & Hc & Hrec & Hcat & Hsv & Hk & Hts & Hans) Hfit Hd Hp.
  rewrite Hcat, <- app_assoc in Hp. destruct (rest_of_requests k p d Hk Hp Hd) as (r & Hr & Hcase).
  destruct (rs_at k r Hr) as [Hrok Hresp].
  destruct (readFd_ok (RecvData d) _ (ci_in _ Hi) Hfit) as (n & e & b & E & Hb & Hcb & ->).
  assert (Hserve : served (h_reads h ++ [d])
    = if length (request_text r) <=? length (p ++ d) then (S k, length (p ++ d) - length (request_text r)) else (k, length (p ++ d)))
    by (rewrite served_snoc, Hsv; cbn [serve_read]; by rewrite Hr, <- length_app).
  destruct Hcase as [(e1 & He & Hne & Hlt)|[rest Hrest]].
  - destruct (onMessage_waits cb reply t v0 c _ p d r e1 b Hrok Hrec He Hne Hb Hcb) as (c1 & b1 & Em & Hb1 & Hu & Hrec1).
    destruct (http_read_spec d reply t h c e b [] c1 b1 Hi Hd Hc E Hb Hcb Em Hb1 Hu) as (m & Eh & Hx).
    eexists _, _. split; [exact Eh|]. intros w1 w' Hg Ex. destruct (Hx w1 w' Hg Ex) as (w2 & Ex2 & Hh2 & Hs2 & Hc2).
    injection Ex2 as <-. exists c1, v0, (p ++ d), k, ts. cbn [h_world h_context h_reads].
    rewrite Hh2, Hs2, Hc2, concat_app, Hcat, Hserve, (proj2 (Nat.leb_gt _ _)) by lia. simpl. rewrite app_nil_r, <- app_assoc. done.
  - destruct (onMessage_replies cb reply t v0 c _ p d r rest b Hrok Hresp Hrec Hrest Hb Hcb) as (t1 & b1 & Em & Hb1 & Hu & Hc1).
    destruct (http_read_spec d reply t h c e b _ _ b1 Hi Hd Hc E Hb Hcb Em Hb1 Hu) as (m & Eh & Hx).
    eexists _, _. split; [exact Eh|]. intros w1 w' Hg Ex. destruct (Hx w1 w' Hg Ex) as (w2 & Ex2 & Hh2 & Hs2 & Hc2).
    destruct (exec_reply _ _ _ _ _ Ex2) as (Hh3 & Hc3 & Hs3). rewrite Hh2, Hs2 in *. rewrite Hc2 in *.
    exists (expecting (t_version r)), (t_version r), rest, (S k), (ts ++ [t1]). cbn [h_world h_context h_reads].
    assert (Hresps : responses (ts ++ [t1]) = responses ts ++ [response_to cb r t1]) by (apply responses_snoc; by rewrite Hts).
    rewrite Hc3, Hc1, Hresps. split; [done|]. split; [apply receiving_start|]. split.
    { rewrite concat_app, Hcat, (take_S_r _ _ _ Hr), fmap_app, concat_app. simpl. rewrite !app_nil_r, <- !app_assoc. by rewrite Hrest. }
    rewrite Hserve, Hrest, length_app, (proj2 (Nat.leb_le _ _)) by lia. split; [f_equal; lia|].
    split; [by apply lookup_lt_Some in Hr|]. split; [rewrite length_app; simpl; lia|].
    rewrite Hh3, Hs3. apply answered_snoc; [done|]. apply is_open_true in Hop. destruct Hop; congruence.
Qed.

(** Nothing came: the end of the stream, or an error. *)
Definition no_data (recv : recv_result) : Prop := match recv with RecvData d => d = [] | RecvError _ => True end.

Lemma no_data_read recv reply t h n e b :
  no_data recv -> buf_inv (inputBuffer_ (conn (h_world h))) -> readFd recv (inputBuffer_ (conn (h_world h))) = Ok (n, e, b) ->
  http_read recv reply t h = Ok ([], h_context h, h_reads h) /\ (0 <? n)%Z = false
  /\ content b = content (inputBuffer_ (conn (h_world h))).
Proof.
  intros Hn Hb E. assert (Hfit : recv_fits recv (inputBuffer_ (conn (h_world h)))).
  { destruct recv as [d|]; [|done]. simpl in Hn. subst d. left. simpl. lia. }
  destruct (readFd_ok recv _ Hb Hfit) as (n1 & e1 & b1 & E1 & _ & Hc1 & Hn1). rewrite E in E1. injection E1 as <- <- <-.
  assert (Hlt : (0 <? n)%Z = false) by (rewrite Hn1; destruct recv as [d|]; [by rewrite Hn|by destruct win]).
  split; [|split; [done|]].
  - unfold http_read. rewrite E. run_res. by rewrite Hlt.
  - rewrite Hc1. destruct recv as [d|]; [simpl in Hn; subst d|]; by rewrite app_nil_r.
Qed.

Lemma handleRead_serves recv reply t h calls context reads w' :
  conn_inv (h_world h) -> is_open (h_world h) = true -> serving h ->
  recv_fits recv (inputBuffer_ (conn (h_world h))) ->
  (concat (h_reads h) ++ recv_data recv) `prefix_of` concat (request_text <$> rs) ->
  http_read recv reply t h = Ok (calls, context, reads) ->
  handleRead embed true recv calls (h_world h) = Ok w' -> serving (mkHworld w' context reads).
Proof.
  intros Hi Hop Hsv Hfit Hp Er E. unfold handleRead in E. inv_res. destruct a0 as [[n err] b]. cbn [fst snd] in *.
  assert (Hcase : (exists d, recv = RecvData d /\ d <> []) \/ no_data recv).
  { destruct recv as [[|x d]|]; [by right| |by right]. left. by exists (x :: d). }
  destruct Hcase as [(d & -> & Hd)|Hn].
  - destruct (read_ok d reply t h Hi Hop Hsv Hfit Hd Hp) as (calls1 & context1 & Er1 & Hx).
    rewrite Er in Er1. injection Er1 as <- <- ->.
    destruct (readFd_ok (RecvData d) _ (ci_in _ Hi) Hfit) as (n1 & e1 & b1 & E1 & Hb1 & Hc1 & ->).
    rewrite Ha0 in E1. injection E1 as -> -> ->. rewrite (proj2 (Z.ltb_lt _ _)) in E by (destruct d; [done|simpl; lia]).
    apply (Hx _ _) in E; [done|]. split; [cbn [emit set_conn trace]; by rewrite handed_more, app_nil_r|]. split_and!; done.
  - destruct (no_data_read recv reply t h n err b Hn (ci_in _ Hi) Ha0) as (Er1 & Hlt & Hc).
    rewrite Er in Er1. injection Er1 as -> -> ->. rewrite Hlt in E. apply serving_idle; [done|].
    apply (idle_trans _ (set_conn (set_input b (conn (h_world h))) (h_world h)));
      [split_and!; [done|exact Hc|by left]|]. destruct (n =? 0)%Z; [exact (proj1 (handleClose_idle embed _ _ E))|].
    injection E as <-. apply idle_refl.
Qed.

Lemma event_serves recv reply write t revents h calls context reads w' :
  conn_inv (h_world h) -> serving h -> http_enabled (HEvent recv reply write t revents) h ->
  (if reads_event revents then http_read recv reply t h else Ok ([], h_context h, h_reads h)) = Ok (calls, context, reads) ->
  conn_event embed (mkInputs recv write calls) revents (h_world h) = Ok w' -> serving (mkHworld w' context reads).
Proof.
  intros Hi Hsv [(Hop & Hfit & Hhup) Hp] Er.
  unfold conn_event, callbacks_for, calls_close, calls_error, calls_read, calls_write, reads_event in *.
  intros E. inv_res. simpl in E. rewrite !andb_true_r in E.
  destruct (has_flag revents POLLHUP && negb (has_flag revents POLLIN)) eqn:Hc.
  - apply andb_true_iff in Hc as [H1 H2%negb_true_iff]. rewrite (Hhup H1 H2) in *. injection Er as <- <- <-.
    simpl in E. inv_res. apply handleClose_idle in Ha0 as [Hid _]. apply rest_idle in E. apply serving_idle; [done|].
    by eapply idle_trans.
  - simpl in E. destruct (has_flag revents (Z.lor POLLIN POLLPRI)).
    + rewrite run_all_app in E. inv_res.
      assert (a0 = h_world h) as -> by (destruct (has_flag revents (Z.lor POLLERR POLLNVAL)); simpl in Ha0; unfold handleError in Ha0; by inv_res).
      simpl in E. inv_res. apply (rest_idle embed _ false) in E.
      exact (serving_idle (mkHworld a0 context reads) _ (handleRead_serves _ _ _ _ _ _ _ _ Hi Hop Hsv Hfit Hp Er Ha1) E).
    + injection Er as <- <- <-. apply rest_idle in E. by apply serving_idle.
Qed.

(** ** One step *)

Lemma http_fits (op : http_op) h calls :
  http_enabled op h -> conn_inv (h_world h) ->
  match op with
  | HEvent recv _ write _ revents => exists w', conn_exec embed (OpEvent (mkInputs recv write calls) revents) (h_world h) = Ok w' /\ conn_inv w'
  | HEstablished => exists w', conn_exec embed (OpEstablished []) (h_world h) = Ok w' /\ conn_inv w'
  | HDestroyed => exists w', conn_exec embed (OpDestroyed []) (h_world h) = Ok w' /\ conn_inv w'
  | HLoop l => exists w', conn_exec embed (OpLoop l) (h_world h) = Ok w' /\ conn_inv w'
  end.
Proof.
  intros He Hi. assert (Hw : forall o, enabled o (h_world h) -> exists w', conn_exec embed o (h_world h) = Ok w' /\ conn_inv w').
  { intros o Ho. pose proof (conn_exec_inv embed o _ Hi Ho) as Hs. destruct (conn_exec embed o (h_world h)) as [w'|]; [by exists w'|done]. }
  destruct op as [|recv reply write t revents| |l]; cbn [http_enabled] in He; apply Hw; try done. apply He.
Qed.

Lemma established_serving h w' :
  http_inv h -> state_ (conn (h_world h)) = kConnecting -> connectEstablished embed true [] (h_world h) = Ok w' ->
  serving (mkHworld w' (onConnection true (h_context h)) (h_reads h)).
Proof.
  intros [Hi Hs] Hc E. rewrite decide_True in Hs by done. destruct Hs as (Hr & Ht & Hin).
  unfold connectEstablished, connectionCallback_ in E. inv_res. destruct (request_only _ _ _ Ha1) as [Ec Et].
  cbn [exec_uops] in E. injection E as <-.
  exists (expecting (version_ (request_ new_HttpContext))), (version_ (request_ new_HttpContext)), [], 0, [].
  cbn [h_world h_context h_reads emit trace conn]. rewrite Ec, Et, Hr. cbn [set_conn conn trace setState inputBuffer_ state_].
  rewrite Ht, Hin. split_and!; try done; [apply receiving_start|lia|].
  unfold answered, responses, all_stay. destruct rs; by split.
Qed.

Lemma http_step h op :
  http_inv h -> http_enabled op h -> exists h', http_exec op h = Ok h' /\ http_inv h'.
Proof.
  intros Hinv He. pose proof Hinv as [Hi Hs].
  assert (Hsv : state_ (conn (h_world h)) <> kConnecting -> serving h) by (intros Hn; by rewrite decide_False in Hs).
  assert (Hdone : forall h', conn_inv (h_world h') -> serving h' -> http_inv h').
  { intros h' Hi' Hs'. split; [done|]. rewrite decide_False by (by apply serving_not_connecting). done. }
  pose proof (http_fits op h [] He Hi) as Hok.
  destruct op as [|recv reply write t revents| |l]; cbn [http_exec] in *.
  - destruct Hok as (w' & E & Hi'). rewrite E. eexists. split; [done|]. apply Hdone; [done|]. by apply established_serving.
  - pose proof He as [(Hop & Hfit & _) Hp].
    assert (Hn : serving h) by (apply Hsv; intros Hx; apply is_open_true in Hop; rewrite Hx in Hop; by destruct Hop).
    assert (Er : exists r, (if reads_event revents then http_read recv reply t h else Ok ([], h_context h, h_reads h)) = Ok r).
    { destruct (reads_event revents); [|by eexists]. cbn [in_recv] in Hfit.
      destruct (readFd_ok recv _ (ci_in _ Hi) Hfit) as (n & e & b & E & _).
      destruct recv as [[|x d]|err]; [| |].
      - rewrite (proj1 (no_data_read (RecvData []) reply t h _ _ _ (@eq_refl bytes []) (ci_in _ Hi) E)). by eexists.
      - destruct (read_ok (x :: d) reply t h Hi Hop Hn Hfit) as (calls & context & -> & _); [done..|by eexists].
      - rewrite (proj1 (no_data_read (RecvError err) reply t h _ _ _ I (ci_in _ Hi) E)). by eexists. }
    destruct Er as [[[calls context] reads] Er]. rewrite Er. run_res.
    destruct (http_fits _ h calls He Hi) as (w' & E & Hi'). rewrite E. eexists. split; [done|]. apply Hdone; [done|].
    by eapply event_serves.
  - destruct Hok as (w' & E & Hi'). rewrite E. eexists. split; [done|].
    assert (Hn : state_ (conn (h_world h)) <> kConnecting) by (destruct He as (_ & [Hx|[Hx _]]); congruence).
    apply Hdone; [done|]. apply (serving_idle h w'); [by apply Hsv|]. by apply (destroyed_idle embed).
  - destruct Hok as (w' & E & Hi'). rewrite E. eexists. split; [done|]. injection E as <-.
    split; [done|]. cbn [h_world h_reads set_loop conn trace]. case_decide; [done|]. apply (serving_idle h); [auto|by apply idle_same].
Qed.

Lemma http_reach_inv h0 h : http_inv h0 -> http_reach h0 h -> http_inv h.
Proof.
  intros H0 Hr. induction Hr as [|h op h' _ IH He E]; [done|].
  destruct (http_step h op IH He) as (h2 & E2 & Hi). rewrite E in E2. by injection E2 as ->.
Qed.

(** A new connection of the server. *)
Definition http_fresh (h : hworld) : Prop :=
  fresh (h_world h) /\ content (inputBuffer_ (conn (h_world h))) = [] /\ h_reads h = [].

Lemma http_fresh_inv h : http_fresh h -> http_inv h.
Proof.
  intros (Hf & Hin & Hr). split; [by apply fresh_inv|]. destruct Hf as (Hc & _ & _ & _ & Ht & _). by rewrite decide_True.
Qed.


Lemma http_answers h : http_inv h -> exists ts, length ts = (served (h_reads h)).1
  /\ handed (trace (h_world h)) = response_text <$> until_close (responses ts).
Proof.
  intros [_ Hs]. case_decide.
  - destruct Hs as (-> & -> & _). exists []. unfold responses. by destruct rs.
  - destruct Hs as (c & v0 & p & k & ts & _ & _ & _ & Hsv & _ & Hts & Hh & _). exists ts. by rewrite Hsv.
Qed.

(** Answers per read. *)
Lemma served_le reads : (served reads).1 <= length reads.
Proof.
  induction reads as [|d reads IH] using rev_ind; [done|]. rewrite served_snoc, length_app. cbn [length].
  destruct (served reads) as [k n]. cbn [fst serve_read] in *. destruct (rs !! k); [case_match|]; simpl; lia.
Qed.

Lemma until_close_le l : length (until_close l) <= length l.
Proof. induction l as [|x l IH]; simpl; [lia|]. destruct (closeConnection_ x); simpl; lia. Qed.

(** A read makes at most one response: requests that came together with
    another wait for bytes that follow them. *)
Lemma pipelined_waits h0 h :
  http_fresh h0 -> http_reach h0 h -> length (handed (trace (h_world h))) <= length (h_reads h).
Proof.
  intros Hf Hr. destruct (http_answers h (http_reach_inv h0 h (http_fresh_inv h0 Hf) Hr)) as (ts & Hts & ->).
  rewrite length_fmap. pose proof (until_close_le (responses ts)) as H1.
  unfold responses in *. rewrite length_zip_with in H1. pose proof (served_le (h_reads h)). lia.
Qed.

(** C10: an HTTP server on a connection is the abstract server that answers at
    most one request per read. A client sends well-formed requests, pipelined
    and cut into reads in any way; at every moment the messages given to
    [send] are the texts of the responses to the requests that server has
    answered, in their order, up to the first that closes the connection; as
    long as no send met a broken connection, what the kernel took and the
    output buffer together are those texts; and no event makes the server
    fail. *)
Theorem http_serves h0 h :
  http_fresh h0 -> http_reach h0 h ->
  (exists ts, length ts = (served (h_reads h)).1
    /\ handed (trace (h_world h)) = response_text <$> until_close (responses ts)
    /\ ((forall m, Dropped m ∉ trace (h_world h)) ->
        wired (trace (h_world h)) ++ content (outputBuffer_ (conn (h_world h)))
        = concat (response_text <$> until_close (responses ts))))
  /\ (forall op, http_enabled op h -> exists h', http_exec op h = Ok h').
Proof.
  intros Hf Hr. pose proof (http_reach_inv h0 h (http_fresh_inv h0 Hf) Hr) as Hi. split.
  - destruct (http_answers h Hi) as (ts & Hts & Hh). exists ts. split; [done|]. split; [done|]. intros Hd.
    rewrite <- (ci_stream _ (proj1 Hi)), <- Hh. by apply accepted_handed.
  - intros op He. destruct (http_step h op Hi He) as (h' & E & _). by exists h'.
Qed.
End HttpConn.

(** ** Two requests in three reads *)
Module HttpOnWindows.
#[local] Instance platform : Platform := windows.

Definition keep_target : target := mkTarget kGet (str "/a") [] kHttp11 [(str "Host", str "b")].
Definition demo_requests : list target := [keep_target; demo_target].
Definition found_callback (req : HttpRequest) (resp : HttpResponse) : HttpResponse :=
  setBody (path_ req) (setStatusMessage (str " OK") (setStatusCode k200Ok resp)).

(** The first read ends in the first request, the second has its end and the
    whole second request, which the third completes with nothing but the last
    byte. *)
Definition demo_bytes : bytes := concat (request_text <$> demo_requests).
Definition demo_cut (n : nat) : list bytes :=
  [take 10 demo_bytes; drop 10 (take n demo_bytes); drop n demo_bytes].
Definition demo_reads : list bytes := demo_cut (length demo_bytes - 1).

Definition http_world : hworld := mkHworld demo_world None [].
Definition read_op (d : bytes) : http_op (L:=EventLoop functor) :=
  HEvent (RecvData d) (Sent 5) (Sent 5) 9 (@POLLIN windows).
Definition do_ (op : http_op) (h : hworld) : hworld (L:=EventLoop functor) :=
  match http_exec id found_callback op h with Ok h => h | Fault _ => h end.
Definition http_up : hworld := do_ HEstablished http_world.
Definition http_done : hworld := fold_left (fun h d => do_ (read_op d) h) demo_reads http_up.

Lemma demo_requests_ok : Forall target_ok demo_requests.
Proof.
  repeat constructor; try apply demo_target_ok; try done; simpl; try closed_not_in; by right.
Qed.

Lemma found_ok r t : r ∈ demo_requests -> response_ok (response_to found_callback r t).
Proof.
  intros Hr. unfold demo_requests in Hr.
  assert (r = keep_target \/ r = demo_target) as [-> | ->] by set_solver;
    (split; [vm_compute; split; [discriminate | reflexivity]|]; split; [vm_compute; reflexivity|];
     split; [vm_compute; reflexivity|]; constructor).
Qed.

Lemma http_world_fresh : http_fresh http_world.
Proof. split; [exact (demo_fresh windows)|done]. Qed.

Definition http_mid : hworld := do_ (read_op (take 10 demo_bytes)) http_up.
Definition http_late : hworld := do_ (read_op (drop 10 (take (length demo_bytes - 1) demo_bytes))) http_mid.

Lemma http_done_reach : http_reach id found_callback demo_requests http_world http_done.
Proof.
  apply (http_next id found_callback demo_requests _ http_late (read_op (drop (length demo_bytes - 1) demo_bytes)));
    [|split; [split_and!; [reflexivity|left; vm_compute; discriminate|discriminate]|by exists []]|vm_compute; reflexivity].
  apply (http_next id found_callback demo_requests _ http_mid
    (read_op (drop 10 (take (length demo_bytes - 1) demo_bytes))));
    [|split; [split_and!; [reflexivity|left; vm_compute; discriminate|discriminate]|by exists [LF]]|vm_compute; reflexivity].
  apply (http_next id found_callback demo_requests _ http_up (read_op (take 10 demo_bytes)));
    [|split; [split_and!; [reflexivity|left; vm_compute; discriminate|discriminate]|]|vm_compute; reflexivity].
  - apply (http_next id found_callback demo_requests _ http_world HEstablished); [constructor|done|vm_compute; reflexivity].
  - exists (drop 10 demo_bytes). reflexivity.
Qed.

Lemma http_serves_witness :
  (exists ts, length ts = 2 /\ handed (trace (h_world http_done))
     = response_text <$> until_close (responses found_callback demo_requests ts))
  /\ length (wired (trace (h_world http_done))) = 5
  /\ exists h', http_exec id found_callback (HLoop (loop (h_world http_done))) http_done = Ok h'.
Proof.
  destruct (http_serves id found_callback demo_requests demo_requests_ok found_ok http_world http_done
    http_world_fresh http_done_reach) as [(ts & Hts & Hh & _) Hop].
  split; [exists ts; split; [exact Hts|exact Hh]|]. split; [vm_compute; reflexivity|].
  exact (Hop (HLoop (loop (h_world http_done))) (fun st e H => H)).
Defined.
End HttpOnWindows.
