(* ===== verification/LogStream.v ===== *)
(** * Log streams: [src/msmuduo/base/LogStream.h], [LogStream.cpp]

    A [FixedBuffer<SIZE>] is an array of [SIZE] characters and the offset of
    the first free one; writes outside the array are faults. *)
From S2P Require Import Prelude.
From S2P Require Import StringPiece.
From S2P Require Import Format.

Definition kSmallBuffer : nat := 4000.

Record FixedBuffer := mkFixed { data_ : bytes; cur_ : nat }.

Definition new_FixedBuffer (SIZE : nat) : FixedBuffer := mkFixed (replicate SIZE nul) 0.

Definition fb_length (b : FixedBuffer) : nat := cur_ b.
Definition avail (b : FixedBuffer) : nat := length (data_ b) - cur_ b.

(** [memcpy] to the free space. *)
Definition poke (d : bytes) (b : FixedBuffer) : res FixedBuffer :=
  a ← overwrite (cur_ b) d (data_ b); Ok (mkFixed a (cur_ b)).

Definition add (len : nat) (b : FixedBuffer) : FixedBuffer := mkFixed (data_ b) (cur_ b + len).
Definition fb_reset (b : FixedBuffer) : FixedBuffer := mkFixed (data_ b) 0.
Definition bzeroinit (b : FixedBuffer) : FixedBuffer :=
  mkFixed (replicate (length (data_ b)) nul) (cur_ b).

Definition fb_append (buf : bytes) (len : nat) (b : FixedBuffer) : res FixedBuffer :=
  if len <? avail b then
    if len <=? length buf then b ← poke (take len buf) b; Ok (add len b) else Fault OutOfBounds
  else Ok b.

Definition fb_toString (b : FixedBuffer) : bytes := take (cur_ b) (data_ b).
Definition fb_toStringPiece (b : FixedBuffer) : StringPiece :=
  sp_of_range (data_ b) (Z.of_nat (cur_ b)).

Definition debugString (b : FixedBuffer) : res (bytes * FixedBuffer) :=
  b ← poke [nul] b; n ← strlen (data_ b); Ok (take n (data_ b), b).

(** ** Integer conversions *)

Definition digits_table : bytes := str "9876543210123456789".
Definition digitsHex : bytes := str "0123456789ABCDEF".

(** [zero[lsd]]: [zero] points to the tenth character of the table. *)
Definition zero_at (lsd : Z) : res char :=
  if (lsd <? -9)%Z then Fault OutOfBounds
  else get_ OutOfBounds (digits_table !! Z.to_nat (9 + lsd)).

(** The loop of [convert]: the characters in the order they are written. *)
Fixpoint convert_loop (fuel : nat) (i : Z) : res bytes :=
  match fuel with
  | O => Fault OutOfFuel
  | S fuel =>
      c ← zero_at (Z.rem i 10);
      let i := Z.quot i 10 in
      if (i =? 0)%Z then Ok [c] else l ← convert_loop fuel i; Ok (c :: l)
  end.

(** Twenty decimal digits are enough for 64 bits. *)
Definition convert (value : Z) : res bytes :=
  l ← convert_loop 20 value;
  Ok (reverse (l ++ if (value <? 0)%Z then ["-"%char] else [])).

Fixpoint convertHex_loop (fuel : nat) (i : Z) : res bytes :=
  match fuel with
  | O => Fault OutOfFuel
  | S fuel =>
      c ← get_ OutOfBounds (digitsHex !! Z.to_nat (i mod 16));
      let i := (i / 16)%Z in
      if (i =? 0)%Z then Ok [c] else l ← convertHex_loop fuel i; Ok (c :: l)
  end.

(** Sixteen hexadecimal digits are enough for a pointer. *)
Definition convertHex (value : Z) : res bytes :=
  l ← convertHex_loop 16 value; Ok (reverse l).

(** ** Insertion *)

Definition kMaxNumericSize : nat := 32.

Definition formatInteger (v : Z) (b : FixedBuffer) : res FixedBuffer :=
  if kMaxNumericSize <=? avail b then
    text ← convert v;
    b ← poke (text ++ [nul]) b;
    Ok (add (length text) b)
  else Ok b.

Definition formatPointer (v : Z) (b : FixedBuffer) : res FixedBuffer :=
  if kMaxNumericSize <=? avail b then
    text ← convertHex v;
    b ← poke (str "0x" ++ text ++ [nul]) b;
    Ok (add (length text + 2) b)
  else Ok b.

(** [Fmt]: the text [snprintf] makes of the format and the value, cut at the
    array, and the length it reports. *)
Record Fmt := mkFmt { f_buf : bytes; f_length : nat }.

Definition new_Fmt (text : bytes) : res Fmt :=
  let fmt := mkFmt (take (32 - 1) text) (length text) in
  assert_ (f_length fmt <? 32);;
  Ok fmt.

Section Insert.
(** The text [snprintf] gives for [%.12g]. *)
Context {Double : Type} (fmt_g : Double -> bytes).

Definition formatDouble (v : Double) (b : FixedBuffer) : res FixedBuffer :=
  if kMaxNumericSize <=? avail b then
    b ← poke (take (kMaxNumericSize - 1) (fmt_g v) ++ [nul]) b;
    Ok (add (length (fmt_g v)) b)
  else Ok b.

(** The overloads of [operator<<]; [int16_t] and [uint16_t] values are
    promoted, [float] values converted to [double]. *)
Inductive item :=
  | IBool (v : bool)
  | IChar (v : char)
  | IInt (v : Z)
  | IPointer (v : Z)
  | IDouble (v : Double)
  | ICstr (s : option bytes)     (* NULL, or an array holding a C string *)
  | IString (s : bytes)
  | IPiece (p : StringPiece)
  | IFmt (text : bytes).         (* a Fmt, by what its format makes of its value *)

Definition insert (x : item) (b : FixedBuffer) : res FixedBuffer :=
  match x with
  | IBool v => fb_append (str (if v then "1" else "0")) 1 b
  | IChar v => fb_append [v] 1 b
  | IInt v => formatInteger v b
  | IPointer v => formatPointer v b
  | IDouble v => formatDouble v b
  | ICstr (Some s) => n ← strlen s; fb_append s n b
  | ICstr None => fb_append (str "(null)") 6 b
  | IString s => fb_append s (length s) b
  | IPiece p => fb_append (sp_data p) (Z.to_nat (sp_size p)) b
  | IFmt text => fmt ← new_Fmt text; fb_append (f_buf fmt) (f_length fmt) b
  end.

Fixpoint inserts (xs : list item) (b : FixedBuffer) : res FixedBuffer :=
  match xs with [] => Ok b | x :: xs => b ← insert x b; inserts xs b end.
End Insert.
Arguments item : clear implicits.

(** ** Correctness of the conversions *)

Lemma zero_at_digit d : (-10 < d < 10)%Z -> zero_at d = Ok (digit (Z.abs d)).
Proof.
  intros Hd. remember (Z.to_nat (d + 9)) as k eqn:Hk.
  assert (Hdk : d = (Z.of_nat k - 9)%Z) by lia. assert (k < 19) by lia. clear Hk Hd. subst d.
  do 19 (destruct k as [|k]; [reflexivity|]). lia.
Qed.

(** The characters come out from the last digit to the first. *)
Lemma convert_loop_digits f f' v acc :
  (Z.abs v < 10 ^ Z.of_nat f)%Z -> 0 < f -> (Z.abs v < 2 ^ Z.of_nat f')%Z -> 0 < f' ->
  exists l, convert_loop f v = Ok l /\ digits f' (Z.abs v) acc = reverse l ++ acc
    /\ 0 < length l <= f.
Proof.
  revert f' v acc; induction f as [|f IH]; intros [|f'] v acc Hf Hf0 Hf' Hf0'; try lia.
  assert (Hq : Z.abs (Z.quot v 10) = (Z.abs v / 10)%Z) by (rewrite <- Z.quot_abs by done; by rewrite Z.quot_div_nonneg by lia).
  assert (Hr : Z.abs (Z.rem v 10) = (Z.abs v mod 10)%Z) by (rewrite <- Z.rem_abs by done; by rewrite Z.rem_mod_nonneg by lia).
  pose proof (Z.mod_pos_bound (Z.abs v) 10 eq_refl). cbn [convert_loop digits].
  rewrite zero_at_digit, Hr by lia. run_res.
  destruct (Z.eqb_spec (Z.quot v 10) 0) as [H0|H0].
  - exists [digit (Z.abs v mod 10)]. split; [done|].
    replace (Z.abs v / 10)%Z with 0%Z by lia. simpl. split; [done | lia].
  - replace (Z.abs v / 10 =? 0)%Z with false by (symmetry; apply Z.eqb_neq; lia).
    rewrite Nat2Z.inj_succ, Z.pow_succ_r in Hf by lia. rewrite Nat2Z.inj_succ, Z.pow_succ_r in Hf' by lia.
    assert (Hd1 : (Z.abs v / 10 < 10 ^ Z.of_nat f)%Z) by (apply Z.div_lt_upper_bound; lia).
    assert (Hd2 : (Z.abs v / 10 < 2 ^ Z.of_nat f')%Z) by (apply Z.div_lt_upper_bound; lia).
    assert (Hpos : (0 < Z.abs v / 10)%Z) by lia.
    assert (0 < f) by (destruct f; [simpl in Hd1; lia | lia]).
    assert (0 < f') by (destruct f'; [simpl in Hd2; lia | lia]).
    destruct (IH f' (Z.quot v 10) (digit (Z.abs v mod 10) :: acc)) as (l & E & Hl & Hlen); try lia.
    exists (digit (Z.abs v mod 10) :: l). rewrite E. split; [done|].
    rewrite <- Hq, Hl, reverse_cons, <- app_assoc. split; [done | simpl; lia].
Qed.

Lemma convert_spec v : (Z.abs v < 10 ^ 20)%Z -> convert v = Ok (fmt_d v) /\ length (fmt_d v) <= 21.
Proof.
  intros Hv. unfold convert, fmt_d, dec.
  assert (Hlog : (Z.abs v < 2 ^ Z.of_nat (dec_fuel (Z.abs v)))%Z).
  { unfold dec_fuel. rewrite Nat2Z.inj_succ, Z2Nat.id by apply Z.log2_nonneg.
    destruct (decide (v = 0%Z)) as [->|]; [done|]. apply Z.log2_spec. lia. }
  destruct (convert_loop_digits 20 (dec_fuel (Z.abs v)) v [] Hv ltac:(lia) Hlog) as (l & E & Hd & Hlen);
    [unfold dec_fuel; lia|].
  rewrite E. run_res. rewrite app_nil_r in Hd. destruct (Z.ltb_spec v 0) as [H0|H0].
  - rewrite reverse_app. rewrite (Z.abs_neq v) in Hd by lia. rewrite Hd. split; [done|].
    change (str "-" ++ reverse l) with ("-"%char :: reverse l). simpl. rewrite length_reverse. lia.
  - rewrite app_nil_r. rewrite (Z.abs_eq v) in Hd by lia. rewrite Hd. split; [done|].
    rewrite length_reverse. lia.
Qed.

(** Hexadecimal digits and the number they denote. *)
Definition unhexdigit (c : char) : Z :=
  let n := Z_of_char c in if (n <=? 57)%Z then (n - 48)%Z else (n - 55)%Z.
Definition unhex (l : bytes) : Z := fold_left (fun n c => (16 * n + unhexdigit c)%Z) l 0%Z.

Lemma hexdigit d : (0 <= d < 16)%Z -> exists c, digitsHex !! Z.to_nat d = Some c /\ unhexdigit c = d.
Proof.
  intros Hd. remember (Z.to_nat d) as k eqn:Hk. assert (Hdk : d = Z.of_nat k) by lia.
  assert (k < 16) by lia. clear Hk Hd. subst d.
  do 16 (destruct k as [|k]; [by eexists|]). lia.
Qed.

Lemma convertHex_loop_spec f v :
  (0 <= v < 16 ^ Z.of_nat f)%Z -> 0 < f ->
  exists l, convertHex_loop f v = Ok l /\ unhex (reverse l) = v /\ 0 < length l <= f.
Proof.
  revert v; induction f as [|f IH]; intros v Hv Hf; [lia|]. cbn [convertHex_loop].
  pose proof (Z.mod_pos_bound v 16 eq_refl) as Hm. pose proof (Z.div_mod v 16 ltac:(done)) as Hdm.
  destruct (hexdigit (v mod 16)) as (c & -> & Hc); [lia|]. run_res.
  destruct (Z.eqb_spec (v / 16) 0) as [H0|H0].
  - exists [c]. split; [done|]. split; [|simpl; lia].
    change (unhex (reverse [c])) with (16 * 0 + unhexdigit c)%Z. lia.
  - rewrite Nat2Z.inj_succ, Z.pow_succ_r in Hv by lia.
    assert (0 <= v / 16 < 16 ^ Z.of_nat f)%Z
      by (split; [apply Z.div_pos; lia | apply Z.div_lt_upper_bound; lia]).
    destruct (IH (v / 16)%Z) as (l & E & Hl & Hlen); [done | destruct f; [simpl in *; lia | lia] |].
    exists (c :: l). rewrite E. split; [done|]. split; [|simpl; lia].
    rewrite reverse_cons. unfold unhex in *. rewrite fold_left_app, Hl. cbn [fold_left]. lia.
Qed.

(** the table-driven [convert] prints every 64 bit integer, signed or
    unsigned and the least one included, exactly as [printf] would, in at most 21
    characters; [convertHex] prints pointers so that they read back. *)
Theorem convert_prints v :
  (- 2 ^ 63 <= v < 2 ^ 64)%Z ->
  convert v = Ok (fmt_d v) /\ length (fmt_d v) <= 21
  /\ ((0 <= v)%Z -> exists l, convertHex v = Ok l /\ unhex l = v /\ length l <= 16).
Proof.
  intros Hv. destruct (convert_spec v) as [H1 H2]; [lia|]. split; [done|]. split; [done|].
  intros H0. unfold convertHex. destruct (convertHex_loop_spec 16 v) as (l & E & Hl & Hlen); [lia..|].
  rewrite E. run_res. exists (reverse l). rewrite length_reverse. split; [done|]. split; [done | lia].
Qed.

Lemma convert_prints_witness :
  convert (- 2 ^ 63) = Ok (str "-9223372036854775808").
Proof. apply (convert_prints (- 2 ^ 63)). split; [discriminate | reflexivity]. Defined.

(** ** The stream stays within its array *)

Record fb_inv (b : FixedBuffer) : Prop := { fb_room : cur_ b < length (data_ b) }.

(** The text an item prints, and the space it asks for. *)
Section Texts.
Context {Double : Type} (fmt_g : Double -> bytes).

Definition item_text (x : item Double) : bytes :=
  match x with
  | IBool v => str (if v then "1" else "0")
  | IChar v => [v]
  | IInt v => fmt_d v
  | IPointer v => match convertHex v with Ok l => str "0x" ++ l | Fault _ => [] end
  | IDouble v => fmt_g v
  | ICstr (Some s) => match strlen s with Ok n => take n s | Fault _ => [] end
  | ICstr None => str "(null)"
  | IString s => s
  | IPiece p => sp_view p
  | IFmt text => text
  end.

Definition item_fits (x : item Double) (room : nat) : bool :=
  match x with
  | IInt _ | IPointer _ | IDouble _ => kMaxNumericSize <=? room
  | _ => length (item_text x) <? room
  end.

(** What a sequence of insertions prints: an item that does not fit the
    [room] is left out. *)
Fixpoint printed (xs : list (item Double)) (room : nat) : bytes :=
  match xs with
  | [] => []
  | x :: xs => if item_fits x room then item_text x ++ printed xs (room - length (item_text x))
               else printed xs room
  end.

(** Values in range, C strings with their NUL, pieces within their array,
    and [%.12g] and [Fmt] texts that fit the 32 characters. *)
Definition item_ok (x : item Double) : Prop :=
  match x with
  | IInt v => (- 2 ^ 63 <= v < 2 ^ 64)%Z
  | IPointer v => (0 <= v < 2 ^ 64)%Z
  | IDouble v => length (fmt_g v) < kMaxNumericSize
  | ICstr (Some s) => nul ∈ s
  | IPiece p => sp_ok p
  | IFmt text => length text < 32
  | _ => True
  end.

(** Writing a text and possibly a NUL after it, and advancing over the
    text. *)
Lemma write_text d z b :
  fb_inv b -> length d + length z <= avail b -> length d < avail b ->
  exists b', poke (d ++ z) b = Ok b' /\ fb_inv (add (length d) b')
    /\ length (data_ b') = length (data_ b)
    /\ cur_ b' = cur_ b
    /\ fb_toString (add (length d) b') = fb_toString b ++ d.
Proof.
  intros [Hi] Hz Hd. unfold avail in *. unfold poke.
  rewrite overwrite_in_range by (rewrite length_app; lia). run_res. eexists. split; [done|].
  set (a := take _ _ ++ _ ++ _).
  assert (Hl : length a = length (data_ b)).
  { unfold a. rewrite !length_app, length_take, length_drop, ?length_app. lia. }
  split; [split; simpl; lia|]. split; [done|]. split; [done|].
  unfold fb_toString. simpl. unfold a. rewrite <- app_assoc.
  rewrite take_app_ge by (rewrite length_take; lia). f_equal.
  rewrite length_take, Nat.min_l by lia.
  replace (cur_ b + length d - cur_ b) with (length d) by lia.
  by rewrite take_app_length.
Qed.

(** The outcome of an insertion with text [d] that fits or not. *)
Definition wrote (b : FixedBuffer) (d : bytes) (r : res FixedBuffer) : Prop :=
  exists b', r = Ok b' /\ fb_inv b' /\ length (data_ b') = length (data_ b)
    /\ cur_ b' = cur_ b + length d /\ fb_toString b' = fb_toString b ++ d.

Lemma wrote_nothing b : fb_inv b -> wrote b [] (Ok b).
Proof. intros Hi. exists b. rewrite app_nil_r. simpl. auto with lia. Qed.

Lemma fb_append_spec d n b :
  fb_inv b -> n <= length d -> wrote b (if n <? avail b then take n d else []) (fb_append d n b).
Proof.
  intros Hi Hn. unfold fb_append. destruct (Nat.ltb_spec n (avail b)); [|by apply wrote_nothing].
  rewrite (proj2 (Nat.leb_le _ _) Hn).
  assert (Hl : length (take n d) = n) by (rewrite length_take; lia).
  destruct (write_text (take n d) [] b Hi) as (b' & E & H1 & H2 & H3 & H4); [simpl; lia.. |].
  rewrite app_nil_r in E. rewrite E. run_res. rewrite Hl in *. eexists. split; [done|].
  split; [done|]. split; [done|]. rewrite Hl. split; [simpl; lia | done].
Qed.

Lemma fb_append_whole d b :
  fb_inv b -> wrote b (if length d <? avail b then d else []) (fb_append d (length d) b).
Proof.
  intros Hi. pose proof (fb_append_spec d (length d) b Hi (le_n _)) as H. by rewrite firstn_all in H.
Qed.

Lemma numeric_spec text b (r : res FixedBuffer) :
  fb_inv b -> length text < kMaxNumericSize ->
  r = (b ← poke (text ++ [nul]) b; Ok (add (length text) b)) ->
  kMaxNumericSize <= avail b -> wrote b text r.
Proof.
  intros Hi Ht -> Ha. destruct (write_text text [nul] b Hi) as (b' & E & H1 & H2 & H3 & H4);
    [simpl; lia | lia |]. rewrite E. run_res. eexists. split; [done|].
  split; [done|]. split; [done|]. split; [simpl; lia | done].
Qed.

Lemma insert_spec x b :
  fb_inv b -> item_ok x ->
  wrote b (if item_fits x (avail b) then item_text x else []) (insert fmt_g x b).
Proof.
  intros Hi Hx. destruct x as [v|v|v|v|v|[s|]|s|p|t]; cbn [insert item_text item_fits item_ok] in *.
  - destruct v; [by apply (fb_append_whole (str "1")) | by apply (fb_append_whole (str "0"))].
  - by apply (fb_append_whole [v]).
  - unfold formatInteger. destruct (convert_spec v) as [E Hl]; [lia|]. rewrite E.
    destruct (Nat.leb_spec kMaxNumericSize (avail b)); [|by apply wrote_nothing]. run_res.
    apply (numeric_spec (fmt_d v)); try done. unfold kMaxNumericSize. lia.
  - unfold formatPointer, convertHex.
    destruct (convertHex_loop_spec 16 v) as (l & E & _ & Hl); [lia..|]. rewrite E. run_res.
    destruct (Nat.leb_spec kMaxNumericSize (avail b)); [|by apply wrote_nothing].
    apply (numeric_spec (str "0x" ++ reverse l)); try done.
    + unfold kMaxNumericSize. simpl. rewrite length_reverse. lia.
    + by replace (length (reverse l) + 2) with (length (str "0x" ++ reverse l)) by (simpl; lia).
  - unfold formatDouble. destruct (Nat.leb_spec kMaxNumericSize (avail b)); [|by apply wrote_nothing].
    apply (numeric_spec (fmt_g v)); try done. by rewrite take_ge by lia.
  - unfold strlen. destruct (find_char nul s) as [n|] eqn:Hn; [|by apply find_char_None in Hn].
    run_res. destruct (find_char_Some _ _ _ Hn) as (a & z & -> & <- & _).
    rewrite length_take, Nat.min_l by (rewrite length_app; lia).
    apply fb_append_spec; [done|]. rewrite length_app. lia.
  - by apply (fb_append_whole (str "(null)")).
  - by apply fb_append_whole.
  - destruct Hx as [H0 H1]. unfold sp_view, sp_data, sp_size.
    rewrite length_take, Nat.min_l by lia. apply fb_append_spec; [done | lia].
  - unfold new_Fmt. cbn [f_length]. rewrite (proj2 (Nat.ltb_lt _ _) Hx). run_res. cbn [f_buf f_length].
    rewrite take_ge by lia. by apply fb_append_whole.
Qed.

Lemma inserts_spec xs b :
  fb_inv b -> Forall item_ok xs ->
  exists b', inserts fmt_g xs b = Ok b' /\ fb_inv b' /\ length (data_ b') = length (data_ b)
    /\ fb_toString b' = fb_toString b ++ printed xs (avail b).
Proof.
  revert b; induction xs as [|x xs IH]; intros b Hi Hx.
  { exists b. simpl. by rewrite app_nil_r. }
  apply Forall_cons in Hx as [Hx Hxs]. simpl.
  destruct (insert_spec x b Hi Hx) as (b1 & E & H1 & H2 & H3 & H4). rewrite E. run_res.
  destruct (IH b1 H1 Hxs) as (b' & E' & H1' & H2' & H4'). exists b'. split; [done|].
  split; [done|]. split; [congruence|]. rewrite H4', H4.
  set (d := if item_fits x (avail b) then item_text x else []) in *.
  assert (Ha : avail b1 = avail b - length d) by (clearbody d; unfold avail; lia).
  rewrite Ha. unfold d.
  destruct (item_fits x (avail b)); simpl; [by rewrite <- app_assoc | by rewrite app_nil_r, Nat.sub_0_r].
Qed.
(** C40: whatever is inserted into a log stream, no write leaves its array:
    the stream holds exactly the texts of the items that fitted the room
    left, in order, and always keeps a character free. *)
Theorem inserts_fit xs b :
  fb_inv b -> Forall item_ok xs ->
  exists b', inserts fmt_g xs b = Ok b' /\ fb_inv b' /\ length (data_ b') = length (data_ b)
    /\ fb_toString b' = fb_toString b ++ printed xs (avail b).
Proof. apply inserts_spec. Qed.
End Texts.

Lemma inserts_fit_witness :
  exists b', inserts (fun s : bytes => s) [IString (str "n="); IInt (-42); ICstr None; IBool true]
               (new_FixedBuffer 40) = Ok b'
    /\ fb_toString b' = str "n=-42(null)1".
Proof.
  destruct (inserts_fit (fun s : bytes => s) [IString (str "n="); IInt (-42); ICstr None; IBool true]
    (new_FixedBuffer 40)) as (b' & E & _ & _ & H).
  - split. simpl. lia.
  - repeat (apply Forall_cons; split; [simpl; first [exact I | lia]|]). constructor.
  - exists b'. split; [exact E|]. rewrite H. vm_compute. reflexivity.
Defined.
