(* ===== verification/LogFile.v ===== *)
(** * Log files: [src/msmuduo/base/FileUtil.h], [FileUtil.cpp],
    [LogFile.h], [LogFile.cpp]

    A file is the sequence of characters written to it; a log keeps the file it
    writes and those it closed. What [fwrite] returns, the clock and the text
    of [strftime] are inputs. *)
From S2P Require Import Prelude.

(** ** [FileUtil::AppendFile] *)
Record AppendFile := mkFile { filename : bytes; text : bytes; writtenBytes_ : Z }.

(** The constructor; [fopen] in append mode, [contents] is what the file
    held. *)
Definition new_AppendFile (name contents : bytes) (opened : bool) : res AppendFile :=
  assert_ opened;; Ok (mkFile name contents 0).

(** [write]: [fwrite] takes no more than it is given. *)
Definition file_write (answer : nat) (logline : bytes) (f : AppendFile) : nat * AppendFile :=
  let x := answer `min` length logline in
  (x, mkFile (filename f) (text f ++ take x logline) (writtenBytes_ f)).

(** The loop of [append]: it ends when all is written or nothing more goes. *)
Fixpoint append_loop (fuel : nat) (answers : nat -> nat) (logline : bytes) (f : AppendFile) :
    res AppendFile :=
  match logline with
  | [] => Ok f
  | _ =>
      match fuel with
      | O => Fault OutOfFuel
      | S fuel =>
          let '(x, f) := file_write (answers fuel) logline f in
          if x =? 0 then Ok f else append_loop fuel answers (drop x logline) f
      end
  end.

(** Each round but the last writes a character, so the rounds are at most
    one more than the characters left. *)
Definition file_append (first : nat) (answers : nat -> nat) (logline : bytes) (f : AppendFile) :
    res AppendFile :=
  let '(n, f) := file_write first logline f in
  f ← append_loop (S (length logline)) answers (drop n logline) f;
  Ok (mkFile (filename f) (text f) (writtenBytes_ f + Z.of_nat (length logline))).

(** ** [LogFile] *)
Definition kRollPerSeconds_ : Z := 60 * 60 * 24.

Record LogFile := mkLogFile {
  basename_ : bytes;
  rollSize_ : Z;
  flushInterval_ : Z;
  checkEveryN_ : Z;
  count_ : Z;
  startOfPeriod_ : Z;
  lastRoll_ : Z;
  lastFlush_ : Z;
  file_ : AppendFile;
  closed : list AppendFile;     (* the files before it, oldest first *)
  flushed : nat                 (* the calls of fflush *)
}.

Section LogFile.
(** The local time as [strftime] prints it with [".%Y%m%d-%H%M%S."]. *)
Context (timebuf : Z -> bytes).

Definition getLogFileName (basename : bytes) (now : Z) : bytes :=
  basename ++ timebuf now ++ str ".log".

(** Midnight of the day of [now]. *)
Definition period (now : Z) : Z := Z.quot now kRollPerSeconds_ * kRollPerSeconds_.

(** [rollFile] at time [now]; a file of the name of that second is taken not to
    exist yet, so that it is empty. *)
Definition rollFile (now : Z) (opened : bool) (l : LogFile) : res (bool * LogFile) :=
  if (lastRoll_ l <? now)%Z then
    f ← new_AppendFile (getLogFileName (basename_ l) now) [] opened;
    Ok (true, mkLogFile (basename_ l) (rollSize_ l) (flushInterval_ l) (checkEveryN_ l) (count_ l)
                (period now) now now f (closed l ++ [file_ l]) (flushed l))
  else Ok (false, l).

(** The constructor. With a clock at 0 or before, [file_] would stay null and
    the first [append] use it. *)
Definition new_LogFile (basename : bytes) (rollSize flushInterval checkEveryN now : Z) (opened : bool) :
    res LogFile :=
  assert_ (bool_decide ("/"%char ∉ basename));;
  if (0 <? now)%Z then
    f ← new_AppendFile (getLogFileName basename now) [] opened;
    Ok (mkLogFile basename rollSize flushInterval checkEveryN 0 (period now) now now f [] 0)
  else Fault NullDeref.

Definition set_file (f : AppendFile) (l : LogFile) : LogFile :=
  mkLogFile (basename_ l) (rollSize_ l) (flushInterval_ l) (checkEveryN_ l) (count_ l)
    (startOfPeriod_ l) (lastRoll_ l) (lastFlush_ l) f (closed l) (flushed l).
Definition set_count (n : Z) (l : LogFile) : LogFile :=
  mkLogFile (basename_ l) (rollSize_ l) (flushInterval_ l) (checkEveryN_ l) n
    (startOfPeriod_ l) (lastRoll_ l) (lastFlush_ l) (file_ l) (closed l) (flushed l).
Definition log_flush (l : LogFile) : LogFile :=
  mkLogFile (basename_ l) (rollSize_ l) (flushInterval_ l) (checkEveryN_ l) (count_ l)
    (startOfPeriod_ l) (lastRoll_ l) (lastFlush_ l) (file_ l) (closed l) (S (flushed l)).
Definition set_lastFlush (now : Z) (l : LogFile) : LogFile :=
  mkLogFile (basename_ l) (rollSize_ l) (flushInterval_ l) (checkEveryN_ l) (count_ l)
    (startOfPeriod_ l) (lastRoll_ l) now (file_ l) (closed l) (flushed l).

(** The answers of the system during one [append]. *)
Record append_answer := mkAppendAnswer {
  ans_first : nat; ans_more : nat -> nat; ans_now : Z; ans_opened : bool
}.

Definition append_unlocked (ans : append_answer) (logline : bytes) (l : LogFile) : res LogFile :=
  f ← file_append (ans_first ans) (ans_more ans) logline (file_ l);
  let l := set_file f l in
  if (rollSize_ l <? writtenBytes_ f)%Z then
    '(_, l) ← rollFile (ans_now ans) (ans_opened ans) l; Ok l
  else
    let l := set_count (count_ l + 1) l in
    if (checkEveryN_ l <=? count_ l)%Z then
      let l := set_count 0 l in
      if negb (period (ans_now ans) =? startOfPeriod_ l)%Z then
        '(_, l) ← rollFile (ans_now ans) (ans_opened ans) l; Ok l
      else if (flushInterval_ l <? ans_now ans - lastFlush_ l)%Z
      then Ok (log_flush (set_lastFlush (ans_now ans) l))
      else Ok l
    else Ok l.

(** Everything that was logged. *)
Definition log_text (l : LogFile) : bytes := concat (text <$> closed l) ++ text (file_ l).

(** ** What is written *)

(** [fwrite] does not fail: it always takes something. *)
Definition writes (ans : append_answer) : Prop :=
  0 < ans_first ans /\ forall i, 0 < ans_more ans i.

Lemma append_loop_spec fuel answers logline f :
  (forall i, 0 < answers i) -> length logline <= fuel ->
  exists f', append_loop fuel answers logline f = Ok f' /\ text f' = text f ++ logline
    /\ writtenBytes_ f' = writtenBytes_ f.
Proof.
  intros Ha. revert logline f; induction fuel as [|fuel IH]; intros [|c logline] f Hl; simpl in Hl.
  - exists f. by rewrite app_nil_r.
  - lia.
  - exists f. by rewrite app_nil_r.
  - cbn [append_loop]. unfold file_write. specialize (Ha fuel) as Hx.
    set (x := answers fuel `min` length (c :: logline)).
    assert (Hx0 : 0 < x) by (unfold x; simpl; lia).
    destruct (Nat.eqb_spec x 0); [lia|].
    destruct (IH (drop x (c :: logline)) (mkFile (filename f) (text f ++ take x (c :: logline)) (writtenBytes_ f)))
      as (f' & E & Ht & Hw); [rewrite length_drop; simpl; lia|].
    exists f'. split; [done|]. simpl in Ht, Hw. split; [|done].
    by rewrite Ht, <- app_assoc, take_drop.
Qed.

Lemma file_append_spec ans logline f :
  writes ans ->
  exists f', file_append (ans_first ans) (ans_more ans) logline f = Ok f' /\ text f' = text f ++ logline
    /\ writtenBytes_ f' = (writtenBytes_ f + Z.of_nat (length logline))%Z.
Proof.
  intros [_ Hm]. unfold file_append, file_write. set (n := _ `min` _).
  destruct (append_loop_spec (S (length logline)) (ans_more ans) (drop n logline)
    (mkFile (filename f) (text f ++ take n logline) (writtenBytes_ f))) as (f' & E & Ht & Hw);
    [done | rewrite length_drop; lia |].
  rewrite E. run_res. eexists. split; [done|]. simpl in *.
  by rewrite Ht, Hw, <- app_assoc, take_drop.
Qed.

Lemma rollFile_spec now l :
  exists b l', rollFile now true l = Ok (b, l') /\ log_text l' = log_text l
    /\ (writtenBytes_ (file_ l') = 0%Z \/ l' = l /\ (now <= lastRoll_ l)%Z)
    /\ rollSize_ l' = rollSize_ l /\ checkEveryN_ l' = checkEveryN_ l /\ count_ l' = count_ l.
Proof.
  unfold rollFile. case_if; run_res.
  - eexists _, _. split; [done|]. unfold log_text. simpl.
    rewrite fmap_app, concat_app. simpl. rewrite !app_nil_r. by split_and!; [|left|..].
  - eexists _, _. split; [done|]. by split_and!; [|right|..].
Qed.

(** The counter of appends since the last check is in range. *)
Definition log_inv (l : LogFile) : Prop :=
  (0 <= rollSize_ l)%Z /\ (0 < checkEveryN_ l)%Z /\ (0 <= count_ l < checkEveryN_ l)%Z.

Lemma append_unlocked_spec ans logline l :
  log_inv l -> writes ans -> ans_opened ans = true ->
  exists l', append_unlocked ans logline l = Ok l' /\ log_inv l'
    /\ log_text l' = log_text l ++ logline
    /\ (writtenBytes_ (file_ l') <= rollSize_ l \/ ans_now ans <= lastRoll_ l)%Z.
Proof.
  intros (Hr & Hn & Hc) Hw Ho. unfold append_unlocked. rewrite Ho.
  destruct (file_append_spec ans logline (file_ l) Hw) as (f & E & Ht & Hb). rewrite E. run_res.
  cbn [rollSize_ set_file].
  assert (Hset : forall n, log_text (set_count n (set_file f l)) = log_text l ++ logline)
    by (intros n; unfold log_text; simpl; by rewrite Ht, app_assoc).
  destruct (Z.ltb_spec (rollSize_ l) (writtenBytes_ f)).
  - destruct (rollFile_spec (ans_now ans) (set_file f l)) as (b & l' & E' & Htx & Hcase & Hrs & Hce & Hco).
    rewrite E'. run_res. exists l'. split; [done|]. split; [|split].
    + unfold log_inv. rewrite Hrs, Hce, Hco. done.
    + rewrite Htx. apply (Hset (count_ l)).
    + destruct Hcase as [-> | [-> Hle]]; [left; done | right; done].
  - cbn [count_ set_count set_file checkEveryN_].
    destruct (Z.leb_spec (checkEveryN_ l) (count_ l + 1)).
    + cbn [startOfPeriod_ set_count set_file lastFlush_ flushInterval_].
      destruct (negb _).
      * destruct (rollFile_spec (ans_now ans) (set_count 0 (set_count (count_ l + 1) (set_file f l))))
          as (b & l' & E' & Htx & Hcase & Hrs & Hce & Hco).
        rewrite E'. run_res. exists l'. split; [done|]. split; [|split].
        -- unfold log_inv. rewrite Hrs, Hce, Hco. simpl. lia.
        -- rewrite Htx. apply (Hset 0%Z).
        -- destruct Hcase as [-> | [-> Hle]]; [left; lia | right; done].
      * destruct (flushInterval_ l <? _)%Z; (eexists; split; [done|]); split_and!;
          [unfold log_inv; simpl; lia | apply (Hset 0%Z) | left; simpl; lia
          |unfold log_inv; simpl; lia | apply (Hset 0%Z) | left; simpl; lia].
    + eexists. split; [done|]. split; [unfold log_inv; simpl; lia|].
      split; [apply Hset | left; simpl; lia].
Qed.

Fixpoint appends (ls : list (append_answer * bytes)) (l : LogFile) : res LogFile :=
  match ls with
  | [] => Ok l
  | (ans, line) :: ls => l ← append_unlocked ans line l; appends ls l
  end.

(** When writing and opening files works, a log loses nothing: its files, in
    order, hold exactly the lines appended, whatever portions [fwrite] takes
    and whenever it rolls. *)
Theorem log_complete ls l :
  log_inv l -> Forall (fun e => writes e.1 /\ ans_opened e.1 = true) ls ->
  exists l', appends ls l = Ok l' /\ log_inv l' /\ log_text l' = log_text l ++ concat (snd <$> ls).
Proof.
  intros Hl Hls. revert l Hl; induction Hls as [|[ans line] ls [Hw Ho] _ IH]; intros l Hl.
  - exists l. by rewrite app_nil_r.
  - destruct (append_unlocked_spec ans line l Hl Hw Ho) as (l1 & E & Hl1 & Ht & _).
    destruct (IH l1 Hl1) as (l2 & E2 & Hl2 & Ht2). exists l2.
    cbn [appends]. rewrite E. run_res. split; [done|]. split; [done|].
    rewrite Ht2, Ht, <- app_assoc. done.
Qed.
End LogFile.

(** A log that rolls after each file of ten characters, with a system that
    takes three characters at a time. *)
Definition slow (now : Z) : append_answer := mkAppendAnswer 3 (fun _ => 3) now true.

Lemma log_complete_witness :
  exists l, new_LogFile (fun _ => str ".t.") (str "app") 10 3 1024 100 true = Ok l
    /\ exists l', appends (fun _ => str ".t.")
           [(slow 101, str "0123456789"); (slow 102, str "abc"); (slow 103, str "def")] l = Ok l'
         /\ log_text l' = str "0123456789abcdef" /\ length (closed l') = 1.
Proof.
  eexists. split; [reflexivity|].
  destruct (log_complete (fun _ => str ".t.")
    [(slow 101, str "0123456789"); (slow 102, str "abc"); (slow 103, str "def")]
    (mkLogFile (str "app") 10 3 1024 0 0 100 100 (mkFile (str "app.t..log") [] 0) [] 0)) as (l' & E & _ & H).
  - unfold log_inv. simpl. lia.
  - unfold writes. repeat constructor; simpl; lia.
  - exists l'. split; [exact E|]. split; [rewrite H; reflexivity|].
    revert E. vm_compute. by intros [= <-].
Defined.
