(* ===== verification/AsyncLogging.v ===== *)
(** * Asynchronous logging: [src/msmuduo/base/AsyncLogging.h],
    [AsyncLogging.cpp]

    Any thread appends lines to a buffer under the mutex; the logging thread
    exchanges full buffers for empty ones under the mutex and writes them to a
    [LogFile] outside of it, the one of LogFile.v with the answers of the system to
    each of its calls. Critical sections are atomic steps; what the logging
    thread does between two of them only touches its own variables and is one
    step. A line that does not fit an empty buffer is dropped. *)
From S2P Require Import Prelude.
From S2P Require Import StringPiece.
From S2P Require Import Format.
From S2P Require Import LogStream.
From S2P Require Import LogFile.

Definition kLargeBuffer : nat := 4000 * 1000.

(** Where the logging thread is; [AtWait] is inside [cond_.wait], which has
    released the mutex and returns when notified or after a time. *)
Inductive log_pc := AtWhile | AtLock | AtWait | AtWrite | AtEnd.

#[export] Instance log_pc_eq_dec : EqDecision log_pc.
Proof. solve_decision. Defined.

(** The last six fields belong to [threadFunc]. [output] is its [LogFile], once
    it was constructed, and [passed] the history of what went to
    [LogFile::append]; a notice of dropped buffers is not part of the log. *)
Inductive out := Data (d : bytes) | Notice (d : bytes).
Definition out_text (o : out) : bytes := match o with Data d | Notice d => d end.

Record AsyncLogging := mkAsync {
  running_ : bool;
  currentBuffer_ : option FixedBuffer;
  nextBuffer_ : option FixedBuffer;
  buffers_ : list FixedBuffer;
  newBuffer1 : option FixedBuffer;
  newBuffer2 : option FixedBuffer;
  buffersToWrite : list FixedBuffer;
  passed : list out;
  output : option LogFile;
  log_at : log_pc
}.

Section AsyncLogging.
(** The size of a buffer, [kLargeBuffer] in the code, and the local time as
    the names of log files have it. *)
Context (SIZE : nat) (timebuf : Z -> bytes).

Definition new_AsyncLogging : AsyncLogging :=
  mkAsync false (Some (bzeroinit (new_FixedBuffer SIZE))) (Some (bzeroinit (new_FixedBuffer SIZE)))
    [] None None [] [] None AtWhile.

(** [start], and [threadFunc] up to its loop: the thread constructs its log
    file at the time [now]. *)
Definition log_running (l : LogFile) (a : AsyncLogging) : AsyncLogging :=
  mkAsync true (currentBuffer_ a) (nextBuffer_ a) (buffers_ a)
    (Some (bzeroinit (new_FixedBuffer SIZE))) (Some (bzeroinit (new_FixedBuffer SIZE)))
    (buffersToWrite a) (passed a) (Some l) AtWhile.

Definition log_start (basename : bytes) (rollSize now : Z) (opened : bool) (a : AsyncLogging) : res AsyncLogging :=
  l ← new_LogFile timebuf basename rollSize 3 1024 now opened;
  Ok (log_running l a).

Definition log_stop (a : AsyncLogging) : AsyncLogging :=
  mkAsync false (currentBuffer_ a) (nextBuffer_ a) (buffers_ a) (newBuffer1 a) (newBuffer2 a)
    (buffersToWrite a) (passed a) (output a) (log_at a).

Definition set_front (cur next : option FixedBuffer) (bs : list FixedBuffer) (a : AsyncLogging) :
    AsyncLogging :=
  mkAsync (running_ a) cur next bs (newBuffer1 a) (newBuffer2 a) (buffersToWrite a) (passed a) (output a) (log_at a).

Definition log_goto (p : log_pc) (a : AsyncLogging) : AsyncLogging :=
  mkAsync (running_ a) (currentBuffer_ a) (nextBuffer_ a) (buffers_ a) (newBuffer1 a) (newBuffer2 a)
    (buffersToWrite a) (passed a) (output a) p.

Definition log_append (logline : bytes) (a : AsyncLogging) : res AsyncLogging :=
  cur ← get_ NullDeref (currentBuffer_ a);
  if length logline <? avail cur then
    cur ← fb_append logline (length logline) cur;
    Ok (set_front (Some cur) (nextBuffer_ a) (buffers_ a) a)
  else
    let bs := buffers_ a ++ [cur] in
    let '(cur, next) :=
      match nextBuffer_ a with
      | Some b => (b, None)
      | None => (new_FixedBuffer SIZE, None)
      end in
    cur ← fb_append logline (length logline) cur;
    Ok (set_front (Some cur) next bs a).

(** The rest of the critical section of [threadFunc]: the current buffer
    joins the full ones, these are taken over, and the thread's spare
    buffers take their places. *)
Definition log_swap (a : AsyncLogging) : res AsyncLogging :=
  cur ← get_ NullDeref (currentBuffer_ a);
  let full := buffers_ a ++ [cur] in
  let '(next, new2) := match nextBuffer_ a with
                       | Some b => (Some b, newBuffer2 a)
                       | None => (newBuffer2 a, None)
                       end in
  Ok (mkAsync (running_ a) (newBuffer1 a) next (buffersToWrite a) None new2 full (passed a) (output a) AtWrite).

(** [buffersToWrite.pop_back()] with [reset()] when a spare is missing. *)
Definition refill (spare : option FixedBuffer) (bs : list FixedBuffer) :
    res (option FixedBuffer * list FixedBuffer) :=
  match spare with
  | Some b => Ok (Some b, bs)
  | None =>
      assert_ (negb (length bs =? 0));;
      b ← get_ OutOfBounds (last bs);
      Ok (Some (fb_reset b), take (length bs - 1) bs)
  end.

(** The text of the notice, which fits its array; [time] is the formatted time,
    at most 31 characters. *)
Definition drop_notice (time : bytes) (n : nat) : bytes :=
  snprintf 256 (str "Dropped log messages at " ++ time ++ str ", " ++ fmt_d (Z.of_nat (n - 2))
                ++ str " larger buffers" ++ ["010"%char]).

(** The calls of [output.append] of one round; [ans i] are the answers of the
    system during the [i]-th. *)
Fixpoint append_all (ans : nat -> append_answer) (i : nat) (os : list out) (l : LogFile) : res LogFile :=
  match os with
  | [] => Ok l
  | o :: os => l ← append_unlocked timebuf (ans i) (out_text o) l; append_all ans (S i) os l
  end.

(** The part of [threadFunc] outside the critical section. *)
Definition log_write (time : bytes) (ans : nat -> append_answer) (a : AsyncLogging) : res AsyncLogging :=
  let full := buffersToWrite a in
  assert_ (negb (length full =? 0));;
  let '(notice, full) :=
    if 25 <? length full then ([Notice (drop_notice time (length full))], take 2 full) else ([], full) in
  let os := notice ++ ((fun b => Data (fb_toString b)) <$> full) in
  l ← get_ NullDeref (output a);
  l ← append_all ans 0 os l;
  let full := if 2 <? length full then take 2 full else full in
  '(new1, full) ← refill (newBuffer1 a) full;
  '(new2, full) ← refill (newBuffer2 a) full;
  Ok (mkAsync (running_ a) (currentBuffer_ a) (nextBuffer_ a) (buffers_ a) new1 new2 []
        (passed a ++ os) (Some (log_flush l)) AtWhile).

(** After the loop the thread flushes its file once more. *)
Definition log_end (a : AsyncLogging) : AsyncLogging :=
  mkAsync (running_ a) (currentBuffer_ a) (nextBuffer_ a) (buffers_ a) (newBuffer1 a) (newBuffer2 a)
    (buffersToWrite a) (passed a) (log_flush <$> output a) AtEnd.

(** A step of the logging thread. *)
Definition log_step (time : bytes) (ans : nat -> append_answer) (a : AsyncLogging) : res AsyncLogging :=
  match log_at a with
  | AtWhile => Ok (if running_ a then log_goto AtLock a else log_end a)
  | AtLock => if length (buffers_ a) =? 0 then Ok (log_goto AtWait a) else log_swap a
  | AtWait => log_swap a
  | AtWrite => log_write time ans a
  | AtEnd => Ok a
  end.

(** ** All that can happen *)
Inductive log_op :=
  | LogAppend (logline : bytes)
  | LogStop
  | LogThread (time : bytes) (ans : nat -> append_answer).

Definition log_exec (op : log_op) (a : AsyncLogging) : res AsyncLogging :=
  match op with
  | LogAppend logline => log_append logline a
  | LogStop => Ok (log_stop a)
  | LogThread time ans => log_step time ans a
  end.

Fixpoint log_run (ops : list log_op) (a : AsyncLogging) : res AsyncLogging :=
  match ops with
  | [] => Ok a
  | op :: ops => a ← log_exec op a; log_run ops a
  end.

(** The lines appended that fit a buffer; a longer one is dropped by
    [FixedBuffer::append]. *)
Definition appended (ops : list log_op) : bytes :=
  concat ((fun op => match op with
                     | LogAppend l => if length l <? SIZE then l else []
                     | _ => []
                     end) <$> ops).

(** What was written, and what still waits in buffers. *)
Definition written (a : AsyncLogging) : bytes :=
  concat ((fun o => match o with Data d => d | Notice _ => [] end) <$> passed a).
Definition no_notice (a : AsyncLogging) : bool :=
  forallb (fun o => match o with Data _ => true | Notice _ => false end) (passed a).
Definition waiting (a : AsyncLogging) : bytes :=
  concat (fb_toString <$> buffersToWrite a) ++ concat (fb_toString <$> buffers_ a)
  ++ match currentBuffer_ a with Some b => fb_toString b | None => [] end.

(** Files can be opened and written to. *)
Definition op_works (op : log_op) : Prop :=
  match op with LogThread _ ans => forall i, writes (ans i) /\ ans_opened (ans i) = true | _ => True end.

(** ** The invariant *)

(** The log file holds what was passed to it. *)
Definition file_ok (a : AsyncLogging) : Prop :=
  exists l, output a = Some l /\ LogFile.log_inv l /\ log_text l = concat (out_text <$> passed a).

Definition buf_ok (b : FixedBuffer) : Prop := length (data_ b) = SIZE /\ fb_inv b.
Definition spare_ok (o : option FixedBuffer) : Prop :=
  match o with Some b => buf_ok b /\ cur_ b = 0 | None => True end.

Record log_inv (a : AsyncLogging) : Prop := {
  li_current : exists b, currentBuffer_ a = Some b /\ buf_ok b;
  li_next : spare_ok (nextBuffer_ a);
  li_empty : nextBuffer_ a = None -> buffers_ a <> [];
  li_buffers : Forall buf_ok (buffers_ a);
  li_write : Forall buf_ok (buffersToWrite a);
  li_new1 : spare_ok (newBuffer1 a);
  li_new2 : spare_ok (newBuffer2 a);
  li_file : file_ok a;
  li_thread : if decide (log_at a = AtWrite)
              then newBuffer1 a = None /\ 1 <= length (buffersToWrite a)
                   /\ (newBuffer2 a = None -> 2 <= length (buffersToWrite a))
              else is_Some (newBuffer1 a) /\ is_Some (newBuffer2 a) /\ buffersToWrite a = []
}.

Abbreviation safe := (wp (fun _ => False)).

Context (Hsize : 0 < SIZE).

Lemma new_buf_ok : buf_ok (new_FixedBuffer SIZE).
Proof.
  split; [apply length_replicate|]. split. simpl. by rewrite length_replicate.
Qed.

Lemma bzero_ok : buf_ok (bzeroinit (new_FixedBuffer SIZE)).
Proof.
  split; [|split]; simpl; rewrite !length_replicate; done.
Qed.

Lemma reset_ok b : buf_ok b -> buf_ok (fb_reset b) /\ cur_ (fb_reset b) = 0.
Proof. intros [Hl _]. split; [|done]. split; [done|]. split. simpl. lia. Qed.

Lemma empty_text b : cur_ b = 0 -> fb_toString b = [].
Proof. unfold fb_toString. by intros ->. Qed.

(** Appending to a buffer that has room, or to an empty one. *)
Lemma append_buf d b :
  buf_ok b -> exists b', fb_append d (length d) b = Ok b' /\ buf_ok b'
    /\ fb_toString b' = fb_toString b ++ (if length d <? avail b then d else []).
Proof.
  intros [Hl Hi]. destruct (fb_append_whole d b Hi) as (b' & E & Hi' & Hl' & _ & Ht).
  exists b'. split; [done|]. split; [|done]. split; [congruence | done].
Qed.

(** ** Every operation keeps it, and loses nothing *)

(** The text written and waiting grows by [d]. *)
Definition keeps (d : bytes) (a a' : AsyncLogging) : Prop :=
  log_inv a' /\ (no_notice a' = true -> no_notice a = true
                 /\ written a' ++ waiting a' = (written a ++ waiting a) ++ d).

Lemma append_keeps l a :
  log_inv a -> safe (log_append l a) (keeps (if length l <? SIZE then l else []) a).
Proof.
  intros [(cur & Hc & Hok) Hn He Hb Hw H1 H2 Hfile Ht]. unfold log_append. rewrite Hc. run_res.
  destruct (Nat.ltb_spec (length l) (avail cur)) as [Hlt|Hge].
  - destruct (append_buf l cur Hok) as (b & E & Hb' & Htx). rewrite E. run_res. simpl.
    assert (Hs : length l < SIZE) by (destruct Hok as [<- _]; unfold avail in Hlt; lia).
    rewrite (proj2 (Nat.ltb_lt _ _) Hs). split.
    + split; simpl; try done. by exists b.
    + intros Hno. split; [done|]. unfold waiting, written. simpl. rewrite Hc.
      apply Nat.ltb_lt in Hlt. rewrite Htx, Hlt, <- !app_assoc. done.
  - set (fresh := match nextBuffer_ a with Some b => b | None => new_FixedBuffer SIZE end).
    assert (Hf : buf_ok fresh /\ cur_ fresh = 0).
    { unfold fresh. destruct (nextBuffer_ a); [done|]. split; [apply new_buf_ok | done]. }
    destruct Hf as [Hf H0]. destruct (append_buf l fresh Hf) as (b & E & Hb' & Htx).
    assert (Hav : avail fresh = SIZE) by (unfold avail; destruct Hf as [-> _]; lia).
    rewrite Hav, (empty_text fresh H0) in Htx. simpl in Htx.
    assert (Hm : match nextBuffer_ a with Some b => (b, None) | None => (new_FixedBuffer SIZE, None) end
                 = (fresh, @None FixedBuffer)) by (unfold fresh; by destruct (nextBuffer_ a)).
    rewrite Hm, E. run_res. simpl. split.
    + split; simpl; try done; [by exists b | by intros _ [? ?]%app_eq_nil |].
      apply Forall_app. split; [done|]. by constructor.
    + intros Hno. split; [done|]. unfold waiting, written. simpl.
      rewrite Hc, Htx, fmap_app, concat_app. simpl. by rewrite app_nil_r, <- !app_assoc.
Qed.

Lemma swap_keeps a :
  log_inv a -> log_at a <> AtWrite ->
  safe (log_swap a) (fun a' => keeps [] a a' /\ log_at a' = AtWrite /\ running_ a' = running_ a
    /\ buffers_ a' = [] /\ written a' = written a
    /\ match currentBuffer_ a' with Some b => fb_toString b = [] | None => False end
    /\ concat (fb_toString <$> buffersToWrite a') = waiting a).
Proof.
  intros [(cur & Hc & Hok) Hn He Hb Hw H1 H2 Hfile Ht] Hat. rewrite decide_False in Ht by done.
  destruct Ht as ([b1 E1] & [b2 E2] & Hnil).
  rewrite E1 in H1. rewrite E2 in H2. destruct H1 as [Hb1 Hz1], H2 as [Hb2 Hz2].
  assert (Hfull : Forall buf_ok (buffers_ a ++ [cur])) by (apply Forall_app; by split; [|constructor]).
  assert (Htxt : concat (fb_toString <$> (buffers_ a ++ [cur])) = waiting a).
  { unfold waiting. rewrite Hnil, Hc, fmap_app, concat_app. simpl. by rewrite app_nil_r. }
  assert (Hall : forall n new2, spare_ok n -> spare_ok new2 -> is_Some n ->
    (new2 = None -> 2 <= length (buffers_ a ++ [cur])) ->
    let a' := mkAsync (running_ a) (Some b1) n [] None new2 (buffers_ a ++ [cur]) (passed a) (output a) AtWrite in
    keeps [] a a' /\ concat (fb_toString <$> buffersToWrite a') = waiting a).
  { intros n new2 Hsn Hs2 [bn ->] H2'. split; [split|done].
    - split; simpl; try done; [by exists b1|]. split; [done|]. split; [rewrite length_app; simpl; lia | done].
    - intros Hno. split; [done|]. unfold written at 1, waiting at 1. cbn [output buffersToWrite buffers_ currentBuffer_].
      rewrite Htxt, (empty_text b1 Hz1). simpl. by rewrite !app_nil_r. }
  unfold log_swap. rewrite Hc, E1, E2, Hnil. run_res.
  destruct (nextBuffer_ a) as [bn|] eqn:Enx; simpl.
  - destruct (Hall (Some bn) (Some b2)) as [Hk Ht]; [done..|]. by split_and!; [..|apply empty_text|].
  - destruct (Hall (Some b2) None) as [Hk Ht]; [done..| |by split_and!; [..|apply empty_text|]].
    intros _. specialize (He eq_refl). destruct (buffers_ a); [done|]. rewrite length_app. simpl. lia.
Qed.

Lemma refill_ok spare bs :
  spare_ok spare -> Forall buf_ok bs -> (spare = None -> bs <> []) ->
  exists b bs', refill spare bs = Ok (Some b, bs') /\ spare_ok (Some b) /\ Forall buf_ok bs'
    /\ length bs' = length bs - (if spare then 0 else 1).
Proof.
  intros Hs Hb Hne. unfold refill. destruct spare as [b|].
  - exists b, bs. split_and!; try done; apply Hs || lia.
  - specialize (Hne eq_refl). destruct (length bs =? 0) eqn:El.
    { apply Nat.eqb_eq, nil_length_inv in El. done. }
    run_res. destruct (last bs) as [b|] eqn:Eb; [|by apply last_None in Eb]. run_res.
    assert (Hbb : buf_ok b) by (apply last_Some_elem_of in Eb; by eapply Forall_forall in Hb).
    exists (fb_reset b), (take (length bs - 1) bs). split; [done|]. split; [by apply reset_ok|].
    split; [by apply Forall_take | rewrite length_take; lia].
Qed.

Lemma written_app o1 o2 :
  concat ((fun o => match o with Data d => d | Notice _ => [] end) <$> (o1 ++ o2))
  = concat ((fun o => match o with Data d => d | Notice _ => [] end) <$> o1)
    ++ concat ((fun o => match o with Data d => d | Notice _ => [] end) <$> o2).
Proof. by rewrite fmap_app, concat_app. Qed.

Lemma append_all_spec ans i os l :
  LogFile.log_inv l -> (forall i, writes (ans i) /\ ans_opened (ans i) = true) ->
  exists l', append_all ans i os l = Ok l' /\ LogFile.log_inv l' /\ log_text l' = log_text l ++ concat (out_text <$> os).
Proof.
  intros Hl Hans. revert i l Hl; induction os as [|o os IH]; intros i l Hl; cbn [append_all].
  - exists l. by rewrite app_nil_r.
  - destruct (Hans i) as [Hw Ho]. destruct (append_unlocked_spec timebuf (ans i) (out_text o) l Hl Hw Ho) as (l1 & -> & Hl1 & Ht & _).
    run_res. destruct (IH (S i) l1 Hl1) as (l2 & E2 & Hl2 & Ht2). exists l2. split; [done|]. split; [done|].
    by rewrite Ht2, Ht, <- app_assoc.
Qed.

Lemma write_keeps time ans a :
  log_inv a -> log_at a = AtWrite -> (forall i, writes (ans i) /\ ans_opened (ans i) = true) ->
  safe (log_write time ans a) (fun a' => keeps [] a a' /\ log_at a' = AtWhile /\ running_ a' = running_ a
    /\ waiting a' = concat (fb_toString <$> buffers_ a)
         ++ match currentBuffer_ a with Some b => fb_toString b | None => [] end).
Proof.
  intros [Hc Hn He Hb Hw H1 H2 (l0 & El & Hl0 & Htx) Ht] Hat Hans. rewrite decide_True in Ht by done.
  destruct Ht as (E1 & Hlen & Hlen2). unfold log_write.
  destruct (length (buffersToWrite a) =? 0) eqn:E0; [apply Nat.eqb_eq in E0; lia|]. run_res.
  set (full := buffersToWrite a) in *.
  set (noted := if 25 <? length full
    then ([Notice (drop_notice time (length full))], take 2 full) else ([], full)).
  assert (Hnoted : Forall buf_ok noted.2 /\ 1 <= length noted.2 /\ (newBuffer2 a = None -> 2 <= length noted.2)
     /\ (noted.1 = [] -> noted.2 = full) /\ forallb (fun o => match o with Data _ => true | Notice _ => false end)
           noted.1 = match noted.1 with [] => true | _ => false end).
  { unfold noted. destruct (Nat.ltb_spec 25 (length full)); simpl; [|by split_and!].
    split; [by apply Forall_take|]. rewrite length_take. split_and!; [lia | lia | done | done]. }
  destruct noted as [notice rest]. simpl in Hnoted. destruct Hnoted as (Hrest & Hr1 & Hr2 & Hsame & Hno).
  set (kept := if 2 <? length rest then take 2 rest else rest).
  assert (Hkept : Forall buf_ok kept /\ 1 <= length kept /\ (newBuffer2 a = None -> 2 <= length kept)).
  { unfold kept. destruct (Nat.ltb_spec 2 (length rest)); [|done].
    split; [by apply Forall_take|]. rewrite length_take. split; lia. }
  destruct Hkept as (Hk & Hk1 & Hk2). rewrite E1, El. run_res.
  destruct (append_all_spec ans 0 (notice ++ ((fun b => Data (fb_toString b)) <$> rest)) l0 Hl0 Hans) as (lf & -> & Hlf & Htx1). run_res.
  destruct (refill_ok None kept) as (b1 & bs1 & -> & Hb1 & Hbs1 & Hl1); [done..| |].
  { intros _ E. rewrite E in Hk1. simpl in Hk1. lia. }
  run_res. destruct (refill_ok (newBuffer2 a) bs1) as (b2 & bs2 & -> & Hb2 & _ & _); [done..| |].
  { intros E. specialize (Hk2 E). intros ->. simpl in Hl1. lia. }
  run_res. simpl. split; [split|done].
  - split; simpl; try done. exists (log_flush lf). split; [done|]. split; [done|].
    cbn [passed]. rewrite fmap_app, concat_app, <- Htx, <- Htx1. done.
  - unfold no_notice. simpl. rewrite !forallb_app, Hno. intros Hall.
    apply andb_true_iff in Hall as [Ho Hall]. split; [done|].
    apply andb_true_iff in Hall as [Hnn _]. destruct notice; [|done]. rewrite (Hsame eq_refl) in *.
    unfold written, waiting. simpl. rewrite written_app, app_nil_r, <- app_assoc. f_equal.
    rewrite <- list_fmap_compose. done.
Qed.

Lemma step_keeps time ans a :
  log_inv a -> op_works (LogThread time ans) -> safe (log_step time ans a) (keeps [] a).
Proof.
  intros Ha Hans. assert (Hgo : forall p, (p = AtWrite <-> log_at a = AtWrite) -> keeps [] a (log_goto p a)).
  { intros p Hp. split; [|by rewrite app_nil_r]. destruct Ha as [Hc Hn He Hb Hw H1 H2 Hfile Ht].
    split; simpl; try done. destruct (decide (p = AtWrite)), (decide (log_at a = AtWrite)); tauto. }
  assert (Hsw : log_at a <> AtWrite -> safe (log_swap a) (keeps [] a)).
  { intros Hat. eapply wp_mono; [by apply swap_keeps|]. by intros a' [? _]. }
  unfold log_step. destruct (log_at a) eqn:Hat.
  - destruct (running_ a); [by apply Hgo|]. split; [|by rewrite app_nil_r]. destruct Ha as [Hc Hn He Hb Hw H1 H2 (l & El & Hl & Htx) Ht].
    rewrite Hat in Ht. split; simpl; try done. exists (log_flush l). simpl. by rewrite El.
  - destruct (length (buffers_ a) =? 0); [by apply Hgo | by apply Hsw].
  - by apply Hsw.
  - eapply wp_mono; [by apply write_keeps|]. by intros a' [? _].
  - split; [done|]. by rewrite app_nil_r.
Qed.

Lemma exec_keeps op a : log_inv a -> op_works op -> safe (log_exec op a) (keeps (appended [op]) a).
Proof.
  intros Ha Hop. unfold appended. simpl. rewrite app_nil_r.
  destruct op as [l| |time ans]; [by apply append_keeps | | by apply step_keeps].
  split; [|by rewrite app_nil_r]. destruct Ha. by split.
Qed.

Lemma run_keeps ops a : log_inv a -> Forall op_works ops -> safe (log_run ops a) (keeps (appended ops) a).
Proof.
  intros Ha Hops. revert a Ha; induction Hops as [|op ops Hop Hops IH]; intros a Ha; cbn [log_run].
  - split; [done|]. by rewrite app_nil_r.
  - apply wp_bind. eapply wp_mono; [by apply exec_keeps|]. intros a1 [H1 Hk1].
    eapply wp_mono; [by apply IH|]. intros a2 [H2 Hk2]. split; [done|]. intros Hno.
    destruct (Hk2 Hno) as [Hno1 E2]. destruct (Hk1 Hno1) as [Hno0 E1]. split; [done|].
    rewrite E2, E1, <- app_assoc. f_equal. unfold appended. simpl. by rewrite app_nil_r.
Qed.

Lemma log_running_inv l : LogFile.log_inv l -> log_text l = [] -> log_inv (log_running l new_AsyncLogging).
Proof.
  pose proof bzero_ok. intros Hl Ht. split; simpl; try done; by eexists.
Qed.

(** A file that can be opened, under a name without a slash. *)
Lemma log_start_ok basename rollSize now :
  "/"%char ∉ basename -> (0 < now)%Z -> (0 <= rollSize)%Z ->
  exists l, log_start basename rollSize now true new_AsyncLogging = Ok (log_running l new_AsyncLogging)
    /\ LogFile.log_inv l /\ log_text l = [].
Proof.
  intros Hb Hn Hr. unfold log_start, new_LogFile. rewrite bool_decide_true by done. run_res.
  rewrite (proj2 (Z.ltb_lt _ _) Hn). run_res. eexists. split; [done|]. split; [|done]. unfold LogFile.log_inv. simpl. lia.
Qed.

(** ** How soon a line is written *)

(** Steps of the thread, at most, before [n] characters are written. *)
Definition due_at (n wrote taken : nat) (p : log_pc) : nat :=
  if n <=? wrote then 0
  else match p with
       | AtWrite => if n <=? wrote + taken then 1 else 5
       | AtWait => 2
       | AtLock => 3
       | AtWhile => 4
       | AtEnd => 6
       end.
Definition due (n : nat) (a : AsyncLogging) : nat :=
  due_at n (length (written a)) (length (concat (fb_toString <$> buffersToWrite a))) (log_at a).

Definition live (a : AsyncLogging) : Prop := running_ a = true /\ log_at a <> AtEnd.

(** [k] of the thread's steps were made from [a] to [a']. *)
Definition advances (n k : nat) (a a' : AsyncLogging) : Prop :=
  live a' /\ (no_notice a' = true -> n <= length (written a ++ waiting a) -> due n a' <= due n a - k).

(** An append changes nothing of the thread's. *)
Lemma append_unchanged l a a' :
  log_append l a = Ok a' -> exists c n bs, a' = set_front c n bs a.
Proof.
  unfold log_append. destruct (currentBuffer_ a) as [cur|]; run_res; [|done].
  case_if; [|destruct (nextBuffer_ a)];
    (destruct (fb_append _ _ _); run_res; [|done]; intros [= <-]; by eexists _, _, _).
Qed.

Lemma step_due time ans n a :
  log_inv a -> live a -> op_works (LogThread time ans) -> safe (log_step time ans a) (advances n 1 a).
Proof.
  intros Ha [Hrun Hend] Hans.
  assert (Hgo : forall p, p <> AtEnd ->
    (forall w t, due_at n w t p <= due_at n w t (log_at a) - 1) -> advances n 1 a (log_goto p a)).
  { intros p Hp Hd. split; [done|]. intros _ _. apply Hd. }
  assert (Hsw : log_at a <> AtWrite -> safe (log_swap a) (advances n 1 a)).
  { intros Hat. eapply wp_mono; [by apply swap_keeps|].
    intros a' (_ & Eat & Er & _ & Ew & _ & Et). split; [by unfold live; rewrite Er, Eat|]. intros _ Hn.
    rewrite length_app in Hn. unfold due. rewrite Eat, Et, Ew. unfold due_at.
    destruct (Nat.leb_spec n (length (written a))); [lia|].
    rewrite (proj2 (Nat.leb_le n (length (written a) + length (waiting a)))) by lia.
    destruct (log_at a); try done; lia. }
  unfold log_step. destruct (log_at a) eqn:Hat; [..|done].
  - rewrite Hrun. apply Hgo; [done|]. intros w t. unfold due_at. case_if; lia.
  - case_if; [|by apply Hsw]. apply Hgo; [done|]. intros w t. unfold due_at. case_if; lia.
  - by apply Hsw.
  - eapply wp_mono; [by apply write_keeps|]. intros a' ([_ Hk] & Eat & Er & Ew).
    split; [by unfold live; rewrite Er, Eat|]. intros Hno _. destruct (Hk Hno) as [_ E].
    rewrite app_nil_r, Ew in E. unfold waiting in E. rewrite (app_assoc (written a)) in E.
    apply app_inv_tail in E. unfold due, due_at. rewrite Eat, E, Hat, length_app.
    repeat case_if; lia.
Qed.

(** Operations of a program that never stops its log. *)
Definition no_stop (ops : list log_op) : bool :=
  forallb (fun op => match op with LogStop => false | _ => true end) ops.
Fixpoint thread_steps (ops : list log_op) : nat :=
  match ops with
  | [] => 0
  | LogThread _ _ :: ops => S (thread_steps ops)
  | _ :: ops => thread_steps ops
  end.

Lemma exec_due op n a :
  log_inv a -> live a -> op_works op -> no_stop [op] = true -> safe (log_exec op a) (advances n (thread_steps [op]) a).
Proof.
  intros Ha Hlive Hw Hop. destruct op as [l| |time ans]; [|done|by apply step_due].
  pose proof (append_keeps l a Ha) as Hk. simpl. destruct (log_append l a) as [a'|] eqn:E; [|done].
  apply append_unchanged in E as (c & nx & bs & ->). split; [done|]. intros _ _.
  change (due n a <= due n a - 0). lia.
Qed.

Lemma run_due ops n a :
  log_inv a -> live a -> Forall op_works ops -> no_stop ops = true -> safe (log_run ops a) (advances n (thread_steps ops) a).
Proof.
  intros Ha Hlive Hws. revert a Ha Hlive; induction Hws as [|op ops Hw Hws IH]; intros a Ha Hlive Hops; cbn [log_run].
  - split; [done|]. intros _ _. simpl. lia.
  - apply andb_true_iff in Hops as [Hop Hops].
    pose proof (exec_keeps op a Ha Hw) as Hk. pose proof (exec_due op n a Ha Hlive Hw ltac:(simpl; by rewrite Hop)) as Hd.
    destruct (log_exec op a) as [a1|] eqn:E1; [|done]. destruct Hk as [H1 K1], Hd as [L1 D1]. run_res.
    pose proof (run_keeps ops a1 H1 Hws) as Hk. pose proof (IH a1 H1 L1 Hops) as Hd.
    destruct (log_run ops a1) as [a2|]; [|done]. destruct Hk as [_ K2], Hd as [L2 D2].
    split; [done|]. intros Hno Hn. destruct (K2 Hno) as [Hno1 _]. destruct (K1 Hno1) as [_ E].
    specialize (D1 Hno1 Hn). specialize (D2 Hno ltac:(rewrite E, length_app; lia)).
    destruct op; simpl in *; lia.
Qed.

Lemma log_run_app ops ops' a : log_run (ops ++ ops') a = (a ← log_run ops a; log_run ops' a).
Proof.
  revert a; induction ops as [|op ops IH]; intros a; simpl; [done|]. by destruct (log_exec op a); run_res.
Qed.

Lemma due_bound n a : live a -> due n a <= 5.
Proof. intros [_ H]. unfold due, due_at. destruct (log_at a); repeat case_if; try done; lia. Qed.

Lemma written_prefix (w r x y : bytes) : w ++ r = x ++ y -> length x <= length w -> exists more, w = x ++ more.
Proof.
  intros E Hl. exists (drop (length x) w).
  assert (Hx : take (length x) w = x).
  { rewrite <- (take_app_le w r) by done. rewrite E. by rewrite take_app_length. }
  rewrite <- Hx at 1. by rewrite take_drop.
Qed.

(** Once stopped between two rounds, the thread writes nothing more. *)
Definition stopped (a : AsyncLogging) : Prop :=
  running_ a = false /\ (log_at a = AtWhile \/ log_at a = AtEnd).

Lemma exec_stopped op a :
  log_inv a -> stopped a -> op_works op -> safe (log_exec op a) (fun a' => stopped a' /\ written a' = written a).
Proof.
  intros Ha [Hr Hat] Hw. pose proof (exec_keeps op a Ha Hw) as Hk. destruct op as [l| |time ans]; simpl in *; [|done|].
  - destruct (log_append l a) as [a'|] eqn:E; [|done].
    by apply append_unchanged in E as (c & nx & bs & ->).
  - unfold log_step. rewrite Hr. destruct Hat as [Hat|Hat]; rewrite Hat; split; try done; split; auto.
Qed.

(** Without a notice the files hold the data. *)
Lemma no_notice_text a : no_notice a = true -> concat (out_text <$> passed a) = written a.
Proof.
  unfold no_notice, written. induction (passed a) as [|[d|d] os IH]; simpl; [done| |done].
  intros Hno. f_equal. exact (IH Hno).
Qed.

(** ** What the log promises *)

(** C37: Whatever is appended by any thread, and whenever the logging thread
    runs, as long as its files can be opened and written to, the logging never
    faults; unless it was so far behind that it wrote a notice of dropped
    buffers, what the log files hold followed by what waits in its buffers is
    exactly the sequence of the appended lines that are shorter than a buffer: a
    longer one is dropped. *)
Theorem log_order basename rollSize now ops :
  "/"%char ∉ basename -> (0 < now)%Z -> (0 <= rollSize)%Z -> Forall op_works ops ->
  exists a0 a l, log_start basename rollSize now true new_AsyncLogging = Ok a0 /\ log_run ops a0 = Ok a
    /\ output a = Some l
    /\ (no_notice a = true -> log_text l ++ waiting a = appended ops).
Proof.
  intros Hb Hn Hr Hops. destruct (log_start_ok basename rollSize now Hb Hn Hr) as (l0 & E0 & Hl0 & Ht0).
  pose proof (run_keeps ops _ (log_running_inv l0 Hl0 Ht0) Hops) as H. exists (log_running l0 new_AsyncLogging).
  destruct (log_run _ _) as [a|]; [|done]. exists a. destruct H as [Ha H].
  destruct (li_file _ Ha) as (l & El & _ & Htx). exists l. split_and!; [done..|]. intros Hno.
  destruct (H Hno) as [_ E]. rewrite Htx, (no_notice_text a Hno), E. done.
Qed.

(** As long as the log is not stopped, a line is written after at most
    five steps of the logging thread, whatever is appended in between, unless
    buffers were dropped. *)
Theorem log_delivered l0 ops ops' :
  LogFile.log_inv l0 -> log_text l0 = [] -> Forall op_works ops -> Forall op_works ops' ->
  no_stop (ops ++ ops') = true -> 5 <= thread_steps ops' ->
  exists a, log_run (ops ++ ops') (log_running l0 new_AsyncLogging) = Ok a
    /\ (no_notice a = true -> exists more, written a = appended ops ++ more).
Proof.
  intros Hl0 Ht0 Hops Hops' Hns Hk. rewrite log_run_app. unfold no_stop in Hns. rewrite forallb_app in Hns.
  apply andb_true_iff in Hns as [Hns Hns']. set (n := length (appended ops)).
  pose proof (log_running_inv l0 Hl0 Ht0) as H0.
  pose proof (run_keeps ops _ H0 Hops) as H1. pose proof (run_due ops n _ H0 ltac:(done) Hops Hns) as L1.
  destruct (log_run ops _) as [a1|]; [|done]. destruct H1 as [I1 K1], L1 as [L1 _]. run_res.
  pose proof (run_keeps ops' a1 I1 Hops') as H2. pose proof (run_due ops' n a1 I1 L1 Hops' Hns') as L2.
  destruct (log_run ops' a1) as [a2|]; [|done]. destruct H2 as [_ K2], L2 as [_ D2].
  exists a2. split; [done|]. intros Hno. destruct (K2 Hno) as [Hno1 E2]. destruct (K1 Hno1) as [_ E1].
  change (written (log_running l0 new_AsyncLogging) ++ waiting (log_running l0 new_AsyncLogging)) with (@nil ascii) in E1.
  simpl in E1. rewrite E1 in E2, D2. specialize (D2 Hno (le_n _)). pose proof (due_bound n a1 L1) as Hb.
  assert (Hd : due n a2 = 0) by lia. apply (written_prefix _ _ _ _ E2). unfold due, due_at in Hd.
  destruct (Nat.leb_spec n (length (written a2))) as [Hn|Hn]; [exact Hn|].
  destruct (log_at a2); try done. by destruct (_ <=? _) in Hd.
Qed.

(** A log that is stopped between two rounds of its thread writes
    nothing more: what waits in the buffers at that time, and what is appended
    later, is lost. *)
Theorem log_lost l0 ops ops' a :
  LogFile.log_inv l0 -> log_text l0 = [] -> Forall op_works ops -> Forall op_works ops' ->
  log_run ops (log_running l0 new_AsyncLogging) = Ok a -> log_at a = AtWhile ->
  exists a', log_run (LogStop :: ops') a = Ok a' /\ written a' = written a.
Proof.
  intros Hl0 Ht0 Hops Hops' E Hat. pose proof (run_keeps ops _ (log_running_inv l0 Hl0 Ht0) Hops) as H.
  rewrite E in H. destruct H as [Ha _]. clear E.
  simpl. assert (Hs : stopped (log_stop a)) by (split; simpl; auto).
  assert (Hi : log_inv (log_stop a)) by (destruct Ha; by split).
  change (written a) with (written (log_stop a)). revert Hs Hi. generalize (log_stop a). clear a Ha Hat.
  induction Hops' as [|op ops' Hop Hops' IH]; intros a Hs Hi; [by exists a|]. cbn [log_run].
  pose proof (exec_keeps op a Hi Hop) as H1. pose proof (exec_stopped op a Hi Hs Hop) as H2.
  destruct (log_exec op a) as [a1|]; [|done]. destruct H1 as [I1 _], H2 as [S1 W1]. run_res.
  destruct (IH a1 S1 I1) as (a' & E & Ew). exists a'. by rewrite Ew.
Qed.
End AsyncLogging.

(** Two lines in buffers of eight characters; the second does not fit with
    the first. The system takes three characters at a time. *)
Definition tick : log_op := LogThread [] (fun _ => slow 200).
Definition demo_time (now : Z) : bytes := str ".t.".
Definition two_lines : list log_op := [tick; LogAppend (str "first"); LogAppend (str "second"); tick; tick].

Lemma tick_works : op_works tick.
Proof. intros i. split; [|done]. split; [simpl; lia|]. intros j. simpl. lia. Qed.

Lemma two_lines_work : Forall op_works two_lines.
Proof. pose proof tick_works. by repeat constructor. Qed.

Lemma log_order_witness :
  exists a l, (a0 ← log_start 8 demo_time (str "app") 5 100 true (new_AsyncLogging 8); log_run 8 demo_time two_lines a0) = Ok a
    /\ output a = Some l /\ log_text l ++ waiting a = str "firstsecond" /\ text (file_ l) = [] /\ length (closed l) = 1.
Proof.
  destruct (log_order 8 demo_time ltac:(lia) (str "app") 5 100 two_lines) as (a0 & a & l & E0 & E & El & H);
    [by apply (bool_decide_unpack _)|lia|lia|apply two_lines_work|].
  exists a, l. rewrite E0. split; [exact E|]. split; [exact El|]. split; [rewrite H|]; revert E0 E El; clear H; vm_compute;
    by intros [= <-] [= <-] [= <-].
Defined.

Definition demo_log : LogFile := mkLogFile (str "app") 5 3 1024 0 0 100 100 (mkFile (str "app.t..log") [] 0) [] 0.

Lemma demo_log_ok : LogFile.log_inv demo_log /\ log_text demo_log = [].
Proof. split; [unfold LogFile.log_inv; simpl; lia|done]. Qed.

Lemma log_delivered_witness :
  no_stop (two_lines ++ replicate 5 tick) = true /\ 5 <= thread_steps (replicate 5 tick)
  /\ exists a, log_run 8 demo_time (two_lines ++ replicate 5 tick) (log_running 8 demo_log (new_AsyncLogging 8)) = Ok a
       /\ exists more, written a = str "firstsecond" ++ more.
Proof.
  split; [reflexivity|]. split; [simpl; lia|].
  destruct (log_delivered 8 demo_time ltac:(lia) demo_log two_lines (replicate 5 tick))
    as (a & E & H); [apply demo_log_ok..|apply two_lines_work|apply Forall_replicate, tick_works|reflexivity|simpl; lia|].
  exists a. split; [exact E|]. apply H. revert E. vm_compute. by intros [= <-].
Defined.

Lemma log_lost_witness :
  exists a, log_run 8 demo_time [LogAppend (str "first")] (log_running 8 demo_log (new_AsyncLogging 8)) = Ok a
    /\ log_at a = AtWhile /\ waiting a = str "first"
    /\ exists a', log_run 8 demo_time [LogStop; tick; tick] a = Ok a' /\ written a' = [].
Proof.
  eexists. split; [reflexivity|]. split; [reflexivity|]. split; [reflexivity|].
  destruct (log_lost 8 demo_time ltac:(lia) demo_log [LogAppend (str "first")] [tick; tick] _
    (proj1 demo_log_ok) (proj2 demo_log_ok) ltac:(by repeat constructor) ltac:(pose proof tick_works; by repeat constructor)
    eq_refl eq_refl) as (a' & E & H). exists a'. split; [exact E | rewrite H; reflexivity].
Defined.
