(* ===== verification/CondVar.v ===== *)
(** * Condition variables: [src/msmuduo/base/lock.h], [lock.cpp]

    Threads are entries of a list with where they are; [notify] lets one of
    those that wait go on, the system chooses which, [notifyAll] all of them.
    Also sums over such lists, with which invariants count threads. *)
From S2P Require Import Prelude.

(** ** Sums over a list *)
Definition total {A} (f : A -> nat) (l : list A) : nat := fold_right (fun x n => f x + n) 0 l.

(** ** What a thread that waits looks like *)
Class Waiter (A : Type) := { waits : A -> bool; woken : A -> A }.

Section CondVar.
Context {A : Type} `{Waiter A}.

Fixpoint wake_first (l : list A) : list A :=
  match l with
  | [] => []
  | x :: l => if waits x then woken x :: l else x :: wake_first l
  end.

(** [notify]; the system wakes thread [k] if that waits. *)
Definition notify (k : nat) (l : list A) : list A :=
  match l !! k with
  | Some x => if waits x then <[k := woken x]> l else wake_first l
  | None => wake_first l
  end.

Definition notifyAll (l : list A) : list A := (fun x => if waits x then woken x else x) <$> l.

(** How many wait. *)
Definition sleepers (l : list A) : nat := total (fun x => if waits x then 1 else 0) l.

Lemma wake_first_spec l :
  (sleepers l = 0 /\ wake_first l = l)
  \/ exists i x, l !! i = Some x /\ waits x = true /\ wake_first l = <[i := woken x]> l.
Proof.
  induction l as [|x l IH]; [by left|]. simpl. destruct (waits x) eqn:Ex.
  - right. by exists 0, x.
  - destruct IH as [[Hs ->] | (i & y & Hi & Hy & ->)]; [|right; by exists (S i), y].
    by left.
Qed.

(** One waiting thread goes on, or nobody waits. *)
Lemma notify_spec k l :
  (sleepers l = 0 /\ notify k l = l)
  \/ exists i x, l !! i = Some x /\ waits x = true /\ notify k l = <[i := woken x]> l.
Proof.
  unfold notify. destruct (l !! k) as [x|] eqn:Ek; [|apply wake_first_spec].
  destruct (waits x) eqn:Ex; [|apply wake_first_spec]. right. by exists k, x.
Qed.
End CondVar.

Section Total.
Context {A : Type} (f : A -> nat).

Lemma total_insert (l : list A) i x y :
  l !! i = Some x -> total f (<[i := y]> l) + f x = total f l + f y.
Proof.
  revert i; induction l as [|z l IH]; intros [|i] Hi; simplify_eq/=; [lia|].
  specialize (IH i Hi). lia.
Qed.

Lemma total_app (l l' : list A) : total f (l ++ l') = total f l + total f l'.
Proof. induction l; simpl; lia. Qed.

Lemma total_lookup (l : list A) i x : l !! i = Some x -> f x <= total f l.
Proof. intros Hi. pose proof (total_insert l i x x Hi). revert i Hi H. induction l; intros [|i]; naive_solver lia. Qed.

Lemma total_zero (l : list A) : total f l = 0 <-> Forall (fun x => f x = 0) l.
Proof.
  induction l as [|x l IH]; simpl; [by split; constructor|]. rewrite Forall_cons, <- IH. lia.
Qed.

Lemma total_ext (g : A -> nat) (l : list A) : (forall x, f x = g x) -> total f l = total g l.
Proof. intros E. induction l; simpl; congruence. Qed.
End Total.

(** The effect of waking on a sum. *)
Lemma total_notify `{Waiter A} (f : A -> nat) k (l : list A) d :
  (forall x, waits x = true -> f (woken x) = f x + d) ->
  (sleepers l = 0 /\ total f (notify k l) = total f l)
  \/ (0 < sleepers l /\ total f (notify k l) = total f l + d).
Proof.
  intros Hd. destruct (notify_spec k l) as [[Hs ->] | (i & x & Hi & Hx & ->)]; [by left|]. right. split.
  - pose proof (total_lookup (fun x => if waits x then 1 else 0) l i x Hi) as Hl. simpl in Hl.
    rewrite Hx in Hl. exact Hl.
  - pose proof (total_insert f l i x (woken x) Hi). rewrite (Hd x Hx) in *. lia.
Qed.

Lemma sleepers_pos `{Waiter A} (l : list A) i x : l !! i = Some x -> waits x = true -> 0 < sleepers l.
Proof.
  intros Hi Hx. pose proof (total_lookup (fun x => if waits x then 1 else 0) l i x Hi) as Hs.
  simpl in Hs. rewrite Hx in Hs. exact Hs.
Qed.

Lemma notify_sleepers `{Waiter A} k (l : list A) :
  (forall x, waits x = true -> waits (woken x) = false) -> sleepers (notify k l) = sleepers l - 1.
Proof.
  intros Hw. destruct (notify_spec k l) as [[E ->] | (i & x & Hi & Hx & ->)]; [by rewrite E|].
  pose proof (total_insert (fun x => if waits x then 1 else 0) l i x (woken x) Hi) as Ht.
  simpl in Ht. rewrite Hx, (Hw x Hx) in Ht. unfold sleepers. lia.
Qed.

(** ** The items that the entries of a list hold *)
Section Bag.
Context {A B : Type} (f : A -> list B).

Lemma bag_insert (l : list A) i x y :
  l !! i = Some x -> flat_map f (<[i := y]> l) ++ f x ≡ₚ flat_map f l ++ f y.
Proof.
  revert i; induction l as [|z l IH]; intros [|i] Hi; simplify_eq/=.
  - rewrite <- app_assoc, (Permutation_app_comm (flat_map f l)), app_assoc.
    rewrite (Permutation_app_comm (f y)), <- !app_assoc. apply Permutation_app_head, Permutation_app_comm.
  - by rewrite <- !app_assoc, (IH i Hi).
Qed.

(** Where [x] held [d] before what [y] holds. *)
Lemma bag_drop (l : list A) i x y d :
  l !! i = Some x -> f x = d ++ f y -> flat_map f l ≡ₚ d ++ flat_map f (<[i := y]> l).
Proof.
  intros Hi E. pose proof (bag_insert l i x y Hi) as H. rewrite E in H.
  apply (Permutation_app_inv_r (f y)). rewrite <- H.
  rewrite (Permutation_app_comm d (f y)), app_assoc, Permutation_app_comm, <- !app_assoc. done.
Qed.

Lemma bag_notify `{Waiter A} k (l : list A) :
  (forall x, waits x = true -> f (woken x) = f x) -> flat_map f (notify k l) ≡ₚ flat_map f l.
Proof.
  intros Hf. destruct (notify_spec k l) as [[_ ->] | (i & x & Hi & Hx & ->)]; [done|].
  symmetry. apply (bag_drop l i x (woken x) []); [done | by rewrite (Hf x Hx)].
Qed.

Lemma bag_notifyAll `{Waiter A} (l : list A) :
  (forall x, waits x = true -> f (woken x) = f x) -> flat_map f (notifyAll l) = flat_map f l.
Proof.
  intros Hf. unfold notifyAll. induction l as [|x l IH]; [done|].
  rewrite fmap_cons. cbn [flat_map]. rewrite IH.
  destruct (waits x) eqn:Ex; [by rewrite (Hf x Ex) | done].
Qed.
End Bag.

Lemma notifyAll_sleepers `{Waiter A} (l : list A) :
  (forall x, waits x = true -> waits (woken x) = false) -> sleepers (notifyAll l) = 0.
Proof.
  intros Hw. apply total_zero, Forall_fmap, Forall_true. intros x. simpl.
  destruct (waits x) eqn:Ex; [by rewrite (Hw x Ex) | by rewrite Ex].
Qed.

Lemma Forall_notify `{Waiter A} (P : A -> Prop) k (l : list A) :
  (forall x, waits x = true -> P x -> P (woken x)) -> Forall P l -> Forall P (notify k l).
Proof.
  intros Hw Hl. destruct (notify_spec k l) as [[_ ->] | (i & x & Hi & Hx & ->)]; [done|].
  apply Forall_insert; [done|]. apply Hw; [done|]. by eapply Forall_lookup in Hl.
Qed.

Lemma length_notify `{Waiter A} k (l : list A) : length (notify k l) = length l.
Proof.
  destruct (notify_spec k l) as [[_ ->] | (i & x & _ & _ & ->)]; [done | apply length_insert].
Qed.
