(* ===== verification/CountDownLatch.v ===== *)
(** * Latches: [src/msmuduo/base/CountDownLatch.h]

    A latch with the threads that are in [wait] or come there; every critical
    section is one step. *)
From S2P Require Import Prelude.
From S2P Require Import CondVar.

(** A thread at the start of [wait], inside [condition_.wait], woken, or out. *)
Inductive latch_thread := LatchEnter | LatchWait | LatchWoken | LatchDone.

#[export] Instance latch_waiter : Waiter latch_thread := {|
  waits t := match t with LatchWait => true | _ => false end;
  woken _ := LatchWoken
|}.

Record CountDownLatch := mkLatch { count_ : Z; latch_threads : list latch_thread }.

Definition new_CountDownLatch (count : Z) : CountDownLatch := mkLatch count [].

(** The test of the loop of [wait], made with the mutex held. *)
Definition wait_test (l : CountDownLatch) : latch_thread :=
  if (0 <? count_ l)%Z then LatchWait else LatchDone.

Definition countDown (l : CountDownLatch) : CountDownLatch :=
  let count := (count_ l - 1)%Z in
  mkLatch count (if (count =? 0)%Z then notifyAll (latch_threads l) else latch_threads l).

Definition getCount (l : CountDownLatch) : Z := count_ l.

(** A thread calls [wait]; thread [i] goes on, or is woken for no reason;
    some thread counts down. *)
Inductive latch_op := CallWait | WaitStep (i : nat) | WakeUp (i : nat) | CountDown.

Definition latch_exec (op : latch_op) (l : CountDownLatch) : CountDownLatch :=
  match op with
  | CallWait => mkLatch (count_ l) (latch_threads l ++ [LatchEnter])
  | WaitStep i =>
      match latch_threads l !! i with
      | Some LatchEnter | Some LatchWoken => mkLatch (count_ l) (<[i := wait_test l]> (latch_threads l))
      | _ => l
      end
  | WakeUp i =>
      match latch_threads l !! i with
      | Some LatchWait => mkLatch (count_ l) (<[i := LatchWoken]> (latch_threads l))
      | _ => l
      end
  | CountDown => countDown l
  end.

Definition latch_run (ops : list latch_op) (l : CountDownLatch) : CountDownLatch :=
  fold_left (fun l op => latch_exec op l) ops l.

Definition downs (ops : list latch_op) : nat :=
  total (fun op => match op with CountDown => 1 | _ => 0 end) ops.

(** Who waits has reason to, and so had who left. *)
Definition latch_inv (l : CountDownLatch) : Prop :=
  Forall (fun t => match t with
                   | LatchWait => (0 < count_ l)%Z
                   | LatchDone => (count_ l <= 0)%Z
                   | _ => True
                   end) (latch_threads l).

Lemma latch_step op l :
  latch_inv l -> latch_inv (latch_exec op l)
    /\ count_ (latch_exec op l) = (count_ l - Z.of_nat (downs [op]))%Z.
Proof.
  unfold latch_inv. intros Hl. destruct op as [|i|i|]; simpl.
  - split; [|lia]. apply Forall_app. split; [done|]. by constructor.
  - destruct (latch_threads l !! i) as [[]|] eqn:Ei; simpl; (split; [|lia]); try done;
      (apply Forall_insert; [done|]); unfold wait_test; case_if; (done || lia).
  - destruct (latch_threads l !! i) as [[]|] eqn:Ei; simpl; (split; [|lia]); try done.
    by apply Forall_insert.
  - split; [|lia]. unfold notifyAll. destruct (Z.eqb_spec (count_ l - 1) 0).
    + apply Forall_fmap. eapply Forall_impl; [exact Hl|]. intros [] Ht; simpl in *; (done || lia).
    + eapply Forall_impl; [exact Hl|]. intros [] Ht; simpl in *; (done || lia).
Qed.

Lemma latch_run_inv ops l :
  latch_inv l -> latch_inv (latch_run ops l)
    /\ count_ (latch_run ops l) = (count_ l - Z.of_nat (downs ops))%Z.
Proof.
  revert l; induction ops as [|op ops IH]; intros l Hl; simpl; [split; [done | lia]|].
  destruct (latch_step op l Hl) as [Hl' E]. destruct (IH _ Hl') as [H1 H2]. split; [done|].
  rewrite H2, E. unfold downs. simpl. lia.
Qed.

(** Whatever the interleaving: no call of [wait] returns before the latch was
    counted down [n] times, and after that none of them sleeps: it is out or
    leaves with its next step. *)
Theorem latch_opens n ops i t :
  let l := latch_run ops (new_CountDownLatch (Z.of_nat n)) in
  latch_threads l !! i = Some t ->
  (t = LatchDone -> n <= downs ops)
  /\ (n <= downs ops -> latch_threads (latch_exec (WaitStep i) l) !! i = Some LatchDone).
Proof.
  intros l Hi. destruct (latch_run_inv ops (new_CountDownLatch (Z.of_nat n))) as [Hl E]; [by constructor|].
  fold l in Hl, E. simpl in E. pose proof (proj1 (Forall_lookup _ _) Hl i t Hi) as Ht. split.
  - intros ->. simpl in Ht. lia.
  - intros Hn. simpl. rewrite Hi. assert (Hi' : i < length (latch_threads l)) by by eapply lookup_lt_Some.
    assert (Hw : wait_test l = LatchDone) by (unfold wait_test; case_if; [lia | done]).
    destruct t; simpl in *; [by rewrite list_lookup_insert_eq, Hw | lia | by rewrite list_lookup_insert_eq, Hw | done].
Qed.

Lemma latch_opens_witness :
  latch_threads (latch_run [CallWait; WaitStep 0; CountDown; WakeUp 0; WaitStep 0; CountDown]
                   (new_CountDownLatch 2)) !! 0 = Some LatchWoken
  /\ latch_threads (latch_exec (WaitStep 0)
       (latch_run [CallWait; WaitStep 0; CountDown; WakeUp 0; WaitStep 0; CountDown] (new_CountDownLatch 2)))
       !! 0 = Some LatchDone.
Proof.
  split; [reflexivity|].
  apply (latch_opens 2 [CallWait; WaitStep 0; CountDown; WakeUp 0; WaitStep 0; CountDown] 0 LatchWoken);
    [reflexivity | vm_compute; lia].
Defined.
