(* ===== verification/ThreadPool.v ===== *)
(** * Thread pools: [src/msmuduo/base/ThreadPool.h], [ThreadPool.cpp]

    A bounded queue of tasks between the threads that call [run] and the
    threads of the pool, with the condition variables [notEmpty_] and
    [notFull_]. A critical section, from taking the mutex to releasing or
    waiting with it, is one step of its thread. *)
From S2P Require Import Prelude.
From S2P Require Import CondVar.

(** A thread of the pool: before [threadInitCallback_], at the test of
    [running_], about to take the mutex in [take], inside [notEmpty_.wait],
    woken there, holding a task, or out of [runInThread]. *)
Inductive worker :=
  | WInit | WTest | WTake | WWait | WWoken | WHolds (task : nat) | WEnded.

(** A call of [run]: at its start, inside [notFull_.wait], woken there, or
    returned. *)
Inductive caller :=
  | RunEnter (task : nat) | RunWait (task : nat) | RunWoken (task : nat) | RunDone.

#[export] Instance worker_waiter : Waiter worker := {|
  waits w := match w with WWait => true | _ => false end;
  woken _ := WWoken
|}.
#[export] Instance caller_waiter : Waiter caller := {|
  waits c := match c with RunWait _ => true | _ => false end;
  woken c := match c with RunWait t => RunWoken t | _ => c end
|}.

(** The last four fields are history: the tasks that were queued, taken and
    finished, and the calls of [threadInitCallback_]. *)
Record ThreadPool := mkPool {
  maxQueueSize_ : nat;
  running_ : bool;
  queue_ : list nat;
  threads_ : list worker;
  callers : list caller;
  queued : list nat;
  taken : list nat;
  finished : list nat;
  inits : nat
}.

Definition new_ThreadPool (maxSize : nat) : ThreadPool := mkPool maxSize false [] [] [] [] [] [] 0.

Definition isFull (p : ThreadPool) : bool :=
  (0 <? maxQueueSize_ p) && (maxQueueSize_ p <=? length (queue_ p)).

Definition queueSize (p : ThreadPool) : nat := length (queue_ p).

Definition start (numThreads : nat) (p : ThreadPool) : res ThreadPool :=
  assert_ (length (threads_ p) =? 0);;
  Ok (mkPool (maxQueueSize_ p) true (queue_ p) (replicate numThreads WInit) (callers p)
        (queued p) (taken p) (finished p) (inits p + if numThreads =? 0 then 1 else 0)).

(** The critical section of [stop]; it then joins the threads. *)
Definition stop (p : ThreadPool) : ThreadPool :=
  mkPool (maxQueueSize_ p) false (queue_ p) (notifyAll (threads_ p)) (callers p)
    (queued p) (taken p) (finished p) (inits p).

Definition set_worker (i : nat) (w : worker) (p : ThreadPool) : ThreadPool :=
  mkPool (maxQueueSize_ p) (running_ p) (queue_ p) (<[i := w]> (threads_ p)) (callers p)
    (queued p) (taken p) (finished p) (inits p).
Definition set_caller (j : nat) (c : caller) (p : ThreadPool) : ThreadPool :=
  mkPool (maxQueueSize_ p) (running_ p) (queue_ p) (threads_ p) (<[j := c]> (callers p))
    (queued p) (taken p) (finished p) (inits p).
Definition set_finished (ts : list nat) (p : ThreadPool) : ThreadPool :=
  mkPool (maxQueueSize_ p) (running_ p) (queue_ p) (threads_ p) (callers p)
    (queued p) (taken p) ts (inits p).
Definition set_inits (n : nat) (p : ThreadPool) : ThreadPool :=
  mkPool (maxQueueSize_ p) (running_ p) (queue_ p) (threads_ p) (callers p)
    (queued p) (taken p) (finished p) n.

(** [take] by thread [i] with the mutex: it waits, or leaves with the front
    of the queue, or with an empty task when the pool was stopped. *)
Definition take_ (i k : nat) (p : ThreadPool) : ThreadPool :=
  if (length (queue_ p) =? 0) && running_ p then set_worker i WWait p
  else
    match queue_ p with
    | [] => set_worker i WTest p
    | task :: queue =>
        let cs := if 0 <? maxQueueSize_ p then notify k (callers p) else callers p in
        set_worker i (WHolds task)
          (mkPool (maxQueueSize_ p) (running_ p) queue (threads_ p) cs
             (queued p) (taken p ++ [task]) (finished p) (inits p))
    end.

(** A step of thread [i] in [runInThread]. *)
Definition runInThread (i k : nat) (p : ThreadPool) : ThreadPool :=
  match threads_ p !! i with
  | Some WInit => set_worker i WTest (set_inits (S (inits p)) p)
  | Some WTest => set_worker i (if running_ p then WTake else WEnded) p
  | Some WTake | Some WWoken => take_ i k p
  | Some (WHolds task) => set_worker i WTest (set_finished (finished p ++ [task]) p)
  | Some WWait | Some WEnded | None => p
  end.

(** [run] by caller [j], from its start or from [notFull_.wait]. *)
Definition run_task (j k task : nat) (p : ThreadPool) : res ThreadPool :=
  if length (threads_ p) =? 0 then Ok (set_caller j RunDone (set_finished (finished p ++ [task]) p))
  else if isFull p then Ok (set_caller j (RunWait task) p)
  else
    assert_ (negb (isFull p));;
    Ok (set_caller j RunDone
          (mkPool (maxQueueSize_ p) (running_ p) (queue_ p ++ [task]) (notify k (threads_ p)) (callers p)
             (queued p ++ [task]) (taken p) (finished p) (inits p))).

(** A step of caller [j]. *)
Definition run (j k : nat) (p : ThreadPool) : res ThreadPool :=
  match callers p !! j with
  | Some (RunEnter task) | Some (RunWoken task) => run_task j k task p
  | Some (RunWait _) | Some RunDone | None => Ok p
  end.

(** ** All that can happen

    Some thread calls [run], a thread goes on (a [notify] in its step wakes
    thread [k] if that waits), is woken for no reason, or calls [stop]. *)
Inductive pool_op :=
  | CallRun (task : nat)
  | CallerStep (j k : nat)
  | WorkerStep (i k : nat)
  | CallerWake (j : nat)
  | WorkerWake (i : nat)
  | CallStop.

Definition add_caller (task : nat) (p : ThreadPool) : ThreadPool :=
  mkPool (maxQueueSize_ p) (running_ p) (queue_ p) (threads_ p) (callers p ++ [RunEnter task])
    (queued p) (taken p) (finished p) (inits p).

Definition pool_exec (op : pool_op) (p : ThreadPool) : res ThreadPool :=
  match op with
  | CallRun task => Ok (add_caller task p)
  | CallerStep j k => run j k p
  | WorkerStep i k => Ok (runInThread i k p)
  | CallerWake j => match callers p !! j with
                    | Some (RunWait task) => Ok (set_caller j (RunWoken task) p)
                    | _ => Ok p
                    end
  | WorkerWake i => match threads_ p !! i with
                    | Some WWait => Ok (set_worker i WWoken p)
                    | _ => Ok p
                    end
  | CallStop => Ok (stop p)
  end.

Fixpoint pool_run (ops : list pool_op) (p : ThreadPool) : res ThreadPool :=
  match ops with
  | [] => Ok p
  | op :: ops => p ← pool_exec op p; pool_run ops p
  end.

(** The tasks given to [run], those still with their callers, and those in
    the hands of threads. *)
Definition calls (ops : list pool_op) : list nat :=
  flat_map (fun op => match op with CallRun t => [t] | _ => [] end) ops.
Definition holds (w : worker) : list nat := match w with WHolds t => [t] | _ => [] end.
Definition offers (c : caller) : list nat :=
  match c with RunEnter t | RunWait t | RunWoken t => [t] | RunDone => [] end.
Definition offered (p : ThreadPool) : list nat := flat_map offers (callers p).
Definition held (p : ThreadPool) : list nat := flat_map holds (threads_ p).

(** ** The invariant *)
Definition woke (w : worker) : nat := match w with WWoken => 1 | _ => 0 end.
Definition caller_woke (c : caller) : nat := match c with RunWoken _ => 1 | _ => 0 end.
Definition woken_workers (p : ThreadPool) : nat := total woke (threads_ p).
Definition woken_callers (p : ThreadPool) : nat := total caller_woke (callers p).

(** No wake-up is lost: threads sleep only while others, already woken, will
    take all that is queued, and callers only while others will fill the
    room. *)
Record pool_inv (p : ThreadPool) : Prop := {
  pi_threads : threads_ p <> [];
  pi_workers : 0 < sleepers (threads_ p) -> running_ p = true /\ length (queue_ p) <= woken_workers p;
  pi_callers : 0 < sleepers (callers p) ->
    0 < maxQueueSize_ p /\ maxQueueSize_ p <= length (queue_ p) + woken_callers p;
  pi_bound : 0 < maxQueueSize_ p -> length (queue_ p) <= maxQueueSize_ p;
  pi_ended : running_ p = true -> Forall (fun w => w <> WEnded) (threads_ p);
  pi_fifo : queued p = taken p ++ queue_ p;
  pi_tasks : taken p ≡ₚ finished p ++ held p
}.

Abbreviation safe := (wp (fun _ => False)).

Definition sleeps (w : worker) : nat := if waits w then 1 else 0.
Definition caller_sleeps (c : caller) : nat := if waits c then 1 else 0.

(** What the step of thread [i] does to the counts. *)
Lemma worker_counts ws i (w0 w : worker) :
  ws !! i = Some w0 ->
  sleepers (<[i := w]> ws) + sleeps w0 = sleepers ws + sleeps w
  /\ total woke (<[i := w]> ws) + woke w0 = total woke ws + woke w.
Proof. intros Hi. split; by apply total_insert. Qed.

Lemma caller_counts cs j (c0 c : caller) :
  cs !! j = Some c0 ->
  sleepers (<[j := c]> cs) + caller_sleeps c0 = sleepers cs + caller_sleeps c
  /\ total caller_woke (<[j := c]> cs) + caller_woke c0 = total caller_woke cs + caller_woke c.
Proof. intros Hj. split; by apply total_insert. Qed.

Lemma notify_workers k ws :
  sleepers (notify k ws) = sleepers ws - 1
  /\ total woke (notify k ws) = total woke ws + sleepers ws `min` 1.
Proof.
  split; [by apply notify_sleepers|].
  destruct (total_notify woke k ws 1) as [[E ->]|[E ->]]; [by intros [] | lia | lia].
Qed.

Lemma notify_callers k cs :
  sleepers (notify k cs) = sleepers cs - 1
  /\ total caller_woke (notify k cs) = total caller_woke cs + sleepers cs `min` 1.
Proof.
  split; [by apply notify_sleepers; intros []|].
  destruct (total_notify caller_woke k cs 1) as [[E ->]|[E ->]]; [by intros [] | lia | lia].
Qed.

Lemma no_threads_set i w (ws : list worker) : ws <> [] -> <[i := w]> ws <> [].
Proof. intros Hn E. apply Hn, nil_length_inv. by rewrite <- (length_insert ws i w), E. Qed.

(** Moving what thread [i] holds to or from a list beside. *)
Lemma held_move ws i w0 w (d d' : list nat) :
  ws !! i = Some w0 -> d ++ holds w0 ≡ₚ d' ++ holds w ->
  d ++ flat_map holds ws ≡ₚ d' ++ flat_map holds (<[i := w]> ws).
Proof.
  intros Hi E. apply (Permutation_app_inv_r (holds w)). rewrite <- !app_assoc.
  rewrite <- (bag_insert holds ws i w0 w Hi), (Permutation_app_comm (flat_map holds _)), !app_assoc, E.
  rewrite <- !app_assoc. apply Permutation_app_head, Permutation_app_comm.
Qed.

(** A thread that neither comes from nor goes to a wait. *)
Lemma move_inv i w0 w ts n p :
  pool_inv p -> threads_ p !! i = Some w0 -> sleeps w0 + woke w0 = 0 -> sleeps w + woke w = 0 ->
  (running_ p = true -> w <> WEnded) -> finished p ++ holds w0 ≡ₚ ts ++ holds w ->
  pool_inv (set_worker i w (set_inits n (set_finished ts p))).
Proof.
  intros [Hn Hw Hc Hb He Hf Ht] Hi H0 H1 Hend Hts. destruct (worker_counts _ i w0 w Hi) as [Es Ew].
  split; simpl; try done.
  - by apply no_threads_set.
  - intros Hs. destruct Hw as [? Hq]; [lia|]. split; [done|]. unfold woken_workers in *. simpl. lia.
  - intros Hr. apply Forall_insert; auto.
  - rewrite Ht. unfold held. simpl. by apply (held_move _ _ w0).
Qed.

(** Thread [i] is about to test the queue. *)
Definition in_take (p : ThreadPool) (i : nat) : Prop :=
  threads_ p !! i = Some WTake \/ threads_ p !! i = Some WWoken.

Lemma in_take_counts p i w :
  in_take p i ->
  sleepers (<[i := w]> (threads_ p)) = sleepers (threads_ p) + sleeps w
  /\ woken_workers p + woke w <= total woke (<[i := w]> (threads_ p)) + 1.
Proof.
  unfold woken_workers. intros [Hi|Hi]; destruct (worker_counts _ i _ w Hi) as [Es Ew];
    change (sleeps _) with 0 in Es at 1; simpl in Ew; lia.
Qed.

Lemma in_take_held p i w ts :
  in_take p i -> taken p ≡ₚ finished p ++ held p ->
  ts ≡ₚ holds w -> taken p ++ ts ≡ₚ finished p ++ flat_map holds (<[i := w]> (threads_ p)).
Proof.
  intros Hi Ht Hts. rewrite Ht, Hts. unfold held.
  assert (H : exists w0, threads_ p !! i = Some w0 /\ holds w0 = []) by (destruct Hi; eauto).
  destruct H as (w0 & Hi' & H0).
  rewrite <- app_assoc. apply Permutation_app_head.
  pose proof (bag_insert holds (threads_ p) i w0 w Hi') as H. rewrite H0, app_nil_r in H. by rewrite H.
Qed.

Lemma take_inv i k p : pool_inv p -> in_take p i -> pool_inv (take_ i k p).
Proof.
  intros [Hn Hw Hc Hb He Hf Ht] Hi. unfold take_. destruct (queue_ p) as [|t q] eqn:Eq; simpl.
  - destruct (running_ p) eqn:Er; split; simpl; rewrite ?Eq, ?Er; try done; try by apply no_threads_set.
    + intros _. simpl. split; [done | lia].
    + intros _. apply Forall_insert; [by apply He | done].
    + apply (in_take_held p i WWait []) in Ht; [by rewrite app_nil_r in Ht | done..].
    + intros Hs. destruct (in_take_counts p i WTest Hi) as [Es _]. simpl in Es.
      destruct Hw as [Hr _]; [|done]. change (sleeps WTest) with 0 in Es. lia.
    + apply (in_take_held p i WTest []) in Ht; [by rewrite app_nil_r in Ht | done..].
  - destruct (in_take_counts p i (WHolds t) Hi) as [Es Ew].
    change (sleeps (WHolds t)) with 0 in Es. change (woke (WHolds t)) with 0 in Ew.
    split; simpl; try done; try by apply no_threads_set.
    + intros Hs. destruct Hw as [Hr Hq]; [lia|]. split; [done|].
      unfold woken_workers in *. simpl in *. lia.
    + destruct (Nat.ltb_spec 0 (maxQueueSize_ p)) as [Hm|Hm]; [|intros Hs; apply Hc in Hs; lia].
      destruct (notify_callers k (callers p)) as [E1 E2]. intros Hs. unfold woken_callers in *. simpl in *.
      destruct Hc; lia.
    + intros Hm. specialize (Hb Hm). simpl in Hb. lia.
    + intros Hr. apply Forall_insert; [by apply He | done].
    + by rewrite <- app_assoc.
    + by apply (in_take_held p i (WHolds t)).
Qed.

(** The caller is about to test [isFull]. *)
Definition in_run (p : ThreadPool) (j task : nat) : Prop :=
  callers p !! j = Some (RunEnter task) \/ callers p !! j = Some (RunWoken task).

Lemma in_run_counts p j t c :
  in_run p j t ->
  sleepers (<[j := c]> (callers p)) = sleepers (callers p) + caller_sleeps c
  /\ woken_callers p + caller_woke c <= total caller_woke (<[j := c]> (callers p)) + 1.
Proof.
  unfold woken_callers. intros [Hi|Hi]; destruct (caller_counts _ j _ c Hi) as [Es Ew];
    change (caller_sleeps _) with 0 in Es at 1; simpl in Ew; lia.
Qed.

(** The tasks still with their callers and those queued. *)
Definition known (p : ThreadPool) : list nat := queued p ++ offered p.

Lemma in_run_offers p j t c d :
  in_run p j t -> d ++ offers c ≡ₚ [t] ->
  d ++ flat_map offers (<[j := c]> (callers p)) ≡ₚ offered p.
Proof.
  intros Hj Hd. assert (H : exists c0, callers p !! j = Some c0 /\ offers c0 = [t]) by (destruct Hj; eauto).
  destruct H as (c0 & Hj' & H0). pose proof (bag_insert offers (callers p) j c0 c Hj') as H.
  rewrite H0 in H. apply (Permutation_app_inv_r [t]). rewrite <- app_assoc, H. unfold offered.
  rewrite (Permutation_app_comm (flat_map offers _) (offers c)), app_assoc, Hd. apply Permutation_app_comm.
Qed.

Lemma run_task_inv j k t p :
  pool_inv p -> in_run p j t -> safe (run_task j k t p) (fun p' => pool_inv p' /\ known p' ≡ₚ known p
    /\ running_ p' = running_ p /\ length (callers p') = length (callers p)).
Proof.
  intros [Hn Hw Hc Hb He Hf Ht] Hj. unfold run_task.
  destruct (length (threads_ p) =? 0) eqn:El; [by apply Nat.eqb_eq, nil_length_inv in El|].
  destruct (isFull p) eqn:Ef.
  - apply andb_true_iff in Ef as [Hm Hq]. apply Nat.ltb_lt in Hm. apply Nat.leb_le in Hq.
    split; [|split; [|by split; [|apply length_insert]]].
    + destruct (in_run_counts p j t (RunWait t) Hj) as [Es Ew]. split; simpl; try done.
      intros _. split; [done|]. lia.
    + apply Permutation_app_head. by apply (in_run_offers p j t (RunWait t) []).
  - run_res. destruct (in_run_counts p j t RunDone Hj) as [Es Ew].
    change (caller_sleeps RunDone) with 0 in Es. change (caller_woke RunDone) with 0 in Ew.
    destruct (notify_workers k (threads_ p)) as [E1 E2].
    split; [split|split; [|by split; [|apply length_insert]]]; simpl; try done.
    + intros E. apply Hn, nil_length_inv. by rewrite <- (length_notify k), E.
    + rewrite E1, length_app. intros Hs. destruct Hw as [Hr Hq]; [lia|]. split; [done|].
      unfold woken_workers in *. simpl. lia.
    + rewrite Es. intros Hs. destruct Hc as [Hm Hq]; [lia|]. split; [done|].
      rewrite length_app. unfold woken_callers. simpl. lia.
    + intros Hm. unfold isFull in Ef. rewrite (proj2 (Nat.ltb_lt _ _) Hm) in Ef. simpl in Ef.
      apply Nat.leb_gt in Ef. rewrite length_app. simpl. lia.
    + intros Hr. apply Forall_notify; [done | by apply He].
    + by rewrite Hf, <- app_assoc.
    + unfold held. simpl. rewrite Ht. apply Permutation_app_head. symmetry. by apply bag_notify; intros [].
    + unfold known, offered. simpl. rewrite <- app_assoc. apply Permutation_app_head.
      by apply (in_run_offers p j t RunDone [t]).
Qed.

Lemma known_set_worker i w p : known (set_worker i w p) = known p.
Proof. done. Qed.

Lemma take_known i k p : known (take_ i k p) ≡ₚ known p.
Proof.
  unfold take_. case_if; [done|]. destruct (queue_ p); [done|]. rewrite known_set_worker.
  unfold known, offered. simpl. case_if; [|done]. apply Permutation_app_head, bag_notify. by intros [].
Qed.

Lemma runInThread_inv i k p :
  pool_inv p -> pool_inv (runInThread i k p) /\ known (runInThread i k p) ≡ₚ known p.
Proof.
  intros Hp. assert (Hmove : forall w0 w, threads_ p !! i = Some w0 -> holds w0 = holds w ->
    sleeps w0 + woke w0 = 0 -> sleeps w + woke w = 0 -> (running_ p = true -> w <> WEnded) ->
    forall n, pool_inv (set_worker i w (set_inits n p))).
  { intros w0 w Ei Eh H0 H1 He n.
    replace (set_inits n p) with (set_inits n (set_finished (finished p) p)) by (by destruct p).
    eapply move_inv; try done. by rewrite Eh. }
  unfold runInThread. destruct (threads_ p !! i) as [[]|] eqn:Ei; try done.
  - split; [|done]. by eapply Hmove.
  - split; [|done]. replace p with (set_inits (inits p) p) at 2 by (by destruct p).
    eapply Hmove; [done | by destruct (running_ p)..].
  - split; [apply take_inv; [done | by left] | apply take_known].
  - split; [apply take_inv; [done | by right] | apply take_known].
  - split; [|done]. replace (set_finished (finished p ++ [task]) p)
      with (set_inits (inits p) (set_finished (finished p ++ [task]) p)) by (by destruct p).
    eapply move_inv; try done.
    by rewrite app_nil_r.
Qed.

Lemma stop_inv p : pool_inv p -> pool_inv (stop p) /\ known (stop p) = known p.
Proof.
  intros [Hn Hw Hc Hb He Hf Ht]. split; [|done]. split; simpl; try done.
  - intros E. apply Hn. by apply fmap_nil_inv in E.
  - rewrite notifyAll_sleepers by done. lia.
  - unfold held. simpl. rewrite bag_notifyAll by (by intros []). done.
Qed.

Lemma caller_move_inv j c0 c p :
  pool_inv p -> callers p !! j = Some c0 -> offers c = offers c0 ->
  caller_woke c0 + caller_sleeps c0 = caller_woke c + caller_sleeps c -> caller_woke c0 <= caller_woke c ->
  pool_inv (set_caller j c p) /\ known (set_caller j c p) ≡ₚ known p.
Proof.
  intros [Hn Hw Hc Hb He Hf Ht] Hj Ho Es Hs. destruct (caller_counts _ j c0 c Hj) as [E1 E2]. split.
  - split; simpl; try done. intros H. destruct Hc as [Hm Hq]; [lia|]. split; [done|].
    unfold woken_callers in *. simpl. lia.
  - apply Permutation_app_head. unfold offered. simpl. symmetry.
    by apply (bag_drop offers _ j c0 c []).
Qed.

Lemma worker_wake_inv i p :
  pool_inv p -> threads_ p !! i = Some WWait -> pool_inv (set_worker i WWoken p).
Proof.
  intros [Hn Hw Hc Hb He Hf Ht] Hi. destruct (worker_counts _ i _ WWoken Hi) as [E1 E2].
  change (sleeps WWait) with 1 in E1. change (sleeps WWoken) with 0 in E1. simpl in E2.
  split; simpl; try done.
  - by apply no_threads_set.
  - intros Hs. destruct Hw as [Hr Hq]; [lia|]. split; [done|]. unfold woken_workers in *. simpl. lia.
  - intros Hr. apply Forall_insert; [by apply He | done].
  - rewrite Ht. by apply (held_move _ i WWait WWoken).
Qed.

Lemma pool_exec_inv op p :
  pool_inv p -> safe (pool_exec op p) (fun p' => pool_inv p' /\ known p' ≡ₚ known p ++ calls [op]).
Proof.
  intros Hp. destruct op as [t|j k|i k|j|i|]; simpl; rewrite ?app_nil_r.
  - split.
    + destruct Hp as [Hn Hw Hc Hb He Hf Ht]. split; simpl; try done.
      assert (Es : sleepers (callers p ++ [RunEnter t]) = sleepers (callers p) + 0) by apply total_app.
      rewrite Es, Nat.add_0_r. intros Hs. destruct Hc as [Hm Hq]; [done|]. split; [done|].
      unfold woken_callers in *. simpl. rewrite total_app. simpl. lia.
    + unfold known, offered. simpl. rewrite flat_map_app, app_assoc. done.
  - unfold run. destruct (callers p !! j) as [[]|] eqn:Ej; try done;
      (eapply wp_mono; [apply run_task_inv; [done | by (left + right)]|]); by intros p' (? & ? & _).
  - by apply runInThread_inv.
  - destruct (callers p !! j) as [[]|] eqn:Ej; try done. eapply caller_move_inv; [done | done | done | done | simpl; lia].
  - destruct (threads_ p !! i) as [[]|] eqn:Ei; try done. split; [by apply worker_wake_inv | done].
  - destruct (stop_inv p Hp) as [? ->]. done.
Qed.

Lemma pool_run_inv ops p :
  pool_inv p -> safe (pool_run ops p) (fun p' => pool_inv p' /\ known p' ≡ₚ known p ++ calls ops).
Proof.
  revert p; induction ops as [|op ops IH]; intros p Hp; cbn [pool_run].
  - split; [done|]. by rewrite app_nil_r.
  - apply wp_bind. eapply wp_mono; [by apply pool_exec_inv|]. intros p1 [H1 K1].
    eapply wp_mono; [by apply IH|]. intros p2 [H2 K2]. split; [done|].
    rewrite K2, K1, <- app_assoc. apply Permutation_app_head.
    unfold calls. simpl. by rewrite app_nil_r.
Qed.

(** A pool that was just started. *)
Definition started (maxSize n : nat) : ThreadPool :=
  mkPool maxSize true [] (replicate n WInit) [] [] [] [] 0.

Lemma start_started maxSize n :
  0 < n -> start n (new_ThreadPool maxSize) = Ok (started maxSize n).
Proof. intros Hn. unfold start. simpl. by destruct n; [lia|]. Qed.

Lemma started_inv maxSize n : 0 < n -> pool_inv (started maxSize n).
Proof.
  intros Hn. split; simpl; try done; try lia.
  - destruct n; [lia | done].
  - intros _. by apply Forall_replicate.
  - unfold held. simpl. clear Hn. by induction n.
Qed.

(** ** The pool makes progress *)

(** A step that its thread can make. *)
Definition moves (op : pool_op) (p : ThreadPool) : bool :=
  match op with
  | CallerStep j _ => match callers p !! j with Some (RunEnter _) | Some (RunWoken _) => true | _ => false end
  | WorkerStep i _ => match threads_ p !! i with Some WWait | Some WEnded | None => false | _ => true end
  | _ => false
  end.

(** What is left to do at most. *)
Definition worker_work (running : bool) (w : worker) : nat :=
  match w with
  | WInit | WHolds _ => 4
  | WTest => if running then 3 else 1
  | WTake | WWoken => 2
  | WWait | WEnded => 0
  end.
Definition caller_work (c : caller) : nat :=
  match c with RunEnter _ | RunWoken _ => 7 | RunWait _ => 6 | RunDone => 0 end.
Definition work (p : ThreadPool) : nat :=
  total (worker_work (running_ p)) (threads_ p) + total caller_work (callers p) + 4 * length (queue_ p).

Lemma worker_work_set i w0 w p :
  threads_ p !! i = Some w0 -> worker_work (running_ p) w < worker_work (running_ p) w0 ->
  forall n ts, work (set_worker i w (set_inits n (set_finished ts p))) < work p.
Proof.
  intros Hi Hw n ts. unfold work. simpl. pose proof (total_insert (worker_work (running_ p)) _ i w0 w Hi). lia.
Qed.

Lemma take_work i k p :
  in_take p i -> work (take_ i k p) < work p.
Proof.
  intros Hi. assert (H : exists w0, threads_ p !! i = Some w0 /\ worker_work (running_ p) w0 = 2)
    by (destruct Hi; eauto).
  destruct H as (w0 & Hi' & H0). unfold take_, work.
  destruct (queue_ p) as [|t q] eqn:Eq; simpl.
  - pose proof (fun w => total_insert (worker_work (running_ p)) _ i w0 w Hi') as H. rewrite H0 in H.
    destruct (running_ p) eqn:Er; simpl; rewrite Eq, Er; [specialize (H WWait) | specialize (H WTest)];
      simpl in *; lia.
  - pose proof (total_insert (worker_work (running_ p)) _ i w0 (WHolds t) Hi') as H.
    rewrite H0 in H. simpl in *. case_if; [|lia].
    destruct (total_notify caller_work k (callers p) 1) as [[_ E]|[_ E]]; [by intros [] | rewrite E; lia..].
Qed.

Lemma run_task_work j k t p p' :
  threads_ p <> [] -> in_run p j t -> run_task j k t p = Ok p' -> work p' < work p.
Proof.
  intros Hn Hj. assert (H : exists c0, callers p !! j = Some c0 /\ caller_work c0 = 7) by (destruct Hj; eauto).
  destruct H as (c0 & Hj' & H0). unfold run_task, work.
  destruct (length (threads_ p) =? 0) eqn:El; [by apply Nat.eqb_eq, nil_length_inv in El|].
  destruct (isFull p).
  - intros [= <-]. pose proof (total_insert caller_work _ j c0 (RunWait t) Hj') as H. simpl in *. lia.
  - run_res. intros [= <-]. simpl. rewrite length_app. simpl.
    pose proof (total_insert caller_work _ j c0 RunDone Hj') as H. simpl in H.
    destruct (total_notify (worker_work (running_ p)) k (threads_ p) 2) as [[_ E]|[_ E]]; [by intros []|..];
      rewrite E; lia.
Qed.

Lemma moves_work op p p' :
  threads_ p <> [] -> moves op p = true -> pool_exec op p = Ok p' -> work p' < work p.
Proof.
  intros Hn Hm E. destruct op as [t|j k|i k|j|i|]; simpl in Hm, E; try done.
  - unfold run in E. destruct (callers p !! j) as [[]|] eqn:Ej; try done;
      eapply (run_task_work j k); try done; by (left + right).
  - injection E as <-. unfold runInThread. destruct (threads_ p !! i) as [[]|] eqn:Ei; try done.
    + replace (set_inits (S (inits p)) p) with (set_inits (S (inits p)) (set_finished (finished p) p))
        by (by destruct p). eapply worker_work_set; [done|]. simpl. destruct (running_ p); lia.
    + replace p with (set_inits (inits p) (set_finished (finished p) p)) at 2 by (by destruct p).
      eapply worker_work_set; [done|]. destruct (running_ p); simpl; lia.
    + apply take_work. by left.
    + apply take_work. by right.
    + replace (set_finished (finished p ++ [task]) p)
        with (set_inits (inits p) (set_finished (finished p ++ [task]) p)) by (by destruct p).
      eapply worker_work_set; [done|]. simpl. destruct (running_ p); lia.
Qed.

(** Nobody can move. *)
Definition at_rest (p : ThreadPool) : Prop :=
  Forall (fun w => w = WWait \/ w = WEnded) (threads_ p)
  /\ Forall (fun c => c = RunDone \/ exists t, c = RunWait t) (callers p).

Lemma no_moves_rest p : (forall op, moves op p = false) -> at_rest p.
Proof.
  intros Hm. split; apply Forall_lookup.
  - intros i w Hi. specialize (Hm (WorkerStep i 0)). simpl in Hm. rewrite Hi in Hm. destruct w; auto; done.
  - intros j c Hj. specialize (Hm (CallerStep j 0)). simpl in Hm. rewrite Hj in Hm. destruct c; eauto; done.
Qed.

Lemma rest_workers p :
  pool_inv p -> at_rest p -> woken_workers p = 0 /\ held p = []
    /\ Forall (fun w => w = if running_ p then WWait else WEnded) (threads_ p).
Proof.
  intros [Hn Hw Hc Hb He Hf Ht] [Hr _]. split; [|split].
  - apply total_zero. eapply Forall_impl; [exact Hr|]. by intros w [-> | ->].
  - unfold held. clear -Hr. induction Hr as [|w l [-> | ->] _ IH]; done.
  - destruct (running_ p) eqn:Er.
    + specialize (He eq_refl). apply Forall_lookup. intros i w Hi.
      pose proof (proj1 (Forall_lookup _ _) Hr i w Hi) as [H|H]; [done|].
      by pose proof (proj1 (Forall_lookup _ _) He i w Hi).
    + apply Forall_lookup. intros i w Hi. pose proof (proj1 (Forall_lookup _ _) Hr i w Hi) as [-> | H]; [|done].
      destruct Hw; [by eapply sleepers_pos | done].
Qed.

Lemma rest_callers p :
  pool_inv p -> at_rest p -> running_ p = true -> queue_ p = [] /\ offered p = [].
Proof.
  intros Hp Hrest Hr. destruct (rest_workers p Hp Hrest) as (Hz & _ & Hall).
  destruct Hp as [Hn Hw Hc Hb He Hf Ht], Hrest as [_ Hcall].
  assert (Hq : queue_ p = []).
  { destruct (threads_ p) as [|w ws] eqn:Ets; [done|]. rewrite Hr in Hall. inversion Hall as [|? ? -> Hws]; subst.
    destruct Hw as [_ Hq]; [by apply (sleepers_pos _ 0 WWait)|]. rewrite Hz in Hq. apply nil_length_inv. lia. }
  split; [done|]. assert (H0 : woken_callers p = 0).
  { apply total_zero. eapply Forall_impl; [exact Hcall|]. by intros c [-> | [t ->]]. }
  assert (Hs : sleepers (callers p) = 0).
  { destruct (Nat.eq_dec (sleepers (callers p)) 0) as [|Hs]; [done|]. destruct Hc; [lia|].
    rewrite Hq in *. simpl in *. lia. }
  apply total_zero in Hs. unfold offered. clear -Hs Hcall.
  induction Hcall as [|c l [-> | [t ->]] _ IH]; [done | |]; inversion Hs; subst; [by apply IH | done].
Qed.

Lemma take_max i k p : maxQueueSize_ (take_ i k p) = maxQueueSize_ p.
Proof. unfold take_. case_if; [done|]. by destruct (queue_ p). Qed.

Lemma exec_max op p p' : pool_exec op p = Ok p' -> maxQueueSize_ p' = maxQueueSize_ p.
Proof.
  destruct op as [t|j k|i k|j|i|]; simpl; try (by intros [= <-]).
  - unfold run, run_task. destruct (callers p !! j) as [[]|]; try (by intros [= <-]);
      (case_if; [by intros [= <-]|]; destruct (isFull p); run_res; by intros [= <-]).
  - intros [= <-]. unfold runInThread. destruct (threads_ p !! i) as [[]|]; try done; apply take_max.
  - destruct (callers p !! j) as [[]|]; by intros [= <-].
  - destruct (threads_ p !! i) as [[]|]; by intros [= <-].
Qed.

Lemma run_max ops p p' : pool_run ops p = Ok p' -> maxQueueSize_ p' = maxQueueSize_ p.
Proof.
  revert p; induction ops as [|op ops IH]; intros p; cbn [pool_run]; [by intros [= <-]|].
  destruct (pool_exec op p) as [p1|] eqn:E; run_res; [|done]. intros H.
  by rewrite (IH _ H), (exec_max _ _ _ E).
Qed.

(** A pool of [n] threads after [ops]. *)
Definition pool_after (maxSize n : nat) (ops : list pool_op) : res ThreadPool :=
  p ← start n (new_ThreadPool maxSize); pool_run ops p.

Lemma pool_after_inv maxSize n ops :
  0 < n -> safe (pool_after maxSize n ops)
    (fun p => pool_inv p /\ known p ≡ₚ calls ops /\ maxQueueSize_ p = maxSize).
Proof.
  intros Hn. unfold pool_after. rewrite (start_started maxSize n Hn). run_res.
  pose proof (pool_run_inv ops (started maxSize n) (started_inv maxSize n Hn)) as H.
  destruct (pool_run ops (started maxSize n)) as [p|] eqn:E; [|done]. destruct H as [Hp Hk].
  split; [done|]. split; [exact Hk | exact (run_max _ _ _ E)].
Qed.

(** ** What the pool promises *)

(** C17: Whatever threads call [run] and [stop] and however the steps interleave,
    no assertion fails; the tasks are taken in the order in which they were
    queued, each once; every task that [run] was given is with its caller, in
    the queue, in the hands of one thread, or finished; and the queue never
    exceeds its bound. *)
Theorem pool_fifo maxSize n ops :
  0 < n ->
  exists p, pool_after maxSize n ops = Ok p
    /\ queued p = taken p ++ queue_ p
    /\ finished p ++ held p ++ queue_ p ++ offered p ≡ₚ calls ops
    /\ (0 < maxSize -> length (queue_ p) <= maxSize).
Proof.
  intros Hn. pose proof (pool_after_inv maxSize n ops Hn) as H.
  destruct (pool_after maxSize n ops) as [p|]; [|done]. destruct H as (Hp & Hk & Hm).
  exists p. split; [done|]. destruct Hp as [_ _ _ Hb _ Hf Ht]. split; [done|]. split.
  - rewrite <- Hk. unfold known. rewrite Hf, Ht, <- !app_assoc. done.
  - rewrite <- Hm. exact Hb.
Qed.

(** C28: No wake-up is lost: every step of a thread brings the pool closer to
    rest, and a pool at rest that is running has finished every task it was
    given, with its threads waiting for more; one that was stopped has ended
    its threads, so that [stop] returns. *)
Theorem pool_drains maxSize n ops p :
  0 < n -> pool_after maxSize n ops = Ok p ->
  (forall op p', moves op p = true -> pool_exec op p = Ok p' -> work p' < work p)
  /\ ((forall op, moves op p = false) ->
      if running_ p then queue_ p = [] /\ finished p ≡ₚ calls ops /\ Forall (eq WWait) (threads_ p)
      else Forall (eq WEnded) (threads_ p)).
Proof.
  intros Hn E. destruct (wp_ok _ _ _ _ (pool_after_inv maxSize n ops Hn) E) as (Hp & Hk & _). split.
  - intros op p' Hm. apply moves_work; [apply Hp | done].
  - intros Hm. apply no_moves_rest in Hm. destruct (rest_workers p Hp Hm) as (_ & Hh & Hall).
    destruct (running_ p) eqn:Er; [|by eapply Forall_impl; [exact Hall|]].
    destruct (rest_callers p Hp Hm Er) as [Hq Ho]. split; [done|].
    split; [|by eapply Forall_impl; [exact Hall|]].
    rewrite <- Hk. destruct Hp as [_ _ _ _ _ Hf Ht]. unfold known.
    by rewrite Hf, Ht, Hh, Hq, Ho, !app_nil_r.
Qed.

(** One thread, a queue of one task, and three tasks. *)
Definition demo_ops : list pool_op :=
  [CallRun 1; CallRun 2; CallRun 3; CallerStep 0 0; CallerStep 1 0; WorkerStep 0 0; WorkerStep 0 0; WorkerStep 0 1;
   CallerStep 1 0; CallerStep 2 0].
Definition demo_rest : list pool_op :=
  [WorkerStep 0 0; WorkerStep 0 0; WorkerStep 0 2; CallerStep 2 0; WorkerStep 0 0; WorkerStep 0 0;
   WorkerStep 0 0; WorkerStep 0 0; WorkerStep 0 0; WorkerStep 0 0].

Lemma pool_fifo_witness :
  exists p, pool_after 1 1 demo_ops = Ok p /\ queued p = [1; 2] /\ queue_ p = [2] /\ held p = [1]
    /\ queued p = taken p ++ queue_ p.
Proof.
  destruct (pool_fifo 1 1 demo_ops ltac:(lia)) as (p & E & H & _). exists p. split; [exact E|].
  revert H. revert E. vm_compute. intros [= <-] H. repeat split.
Defined.

Definition demo_end : ThreadPool :=
  match pool_after 1 1 (demo_ops ++ demo_rest) with Ok p => p | Fault _ => new_ThreadPool 1 end.

Lemma pool_drains_witness :
  pool_after 1 1 (demo_ops ++ demo_rest) = Ok demo_end /\ running_ demo_end = true
  /\ finished demo_end ≡ₚ [1; 2; 3].
Proof.
  split; [vm_compute; reflexivity|]. split; [vm_compute; reflexivity|].
  destruct (pool_drains 1 1 (demo_ops ++ demo_rest) demo_end ltac:(lia) ltac:(vm_compute; reflexivity)) as [_ H].
  assert (Hm : forall op, moves op demo_end = false) by (intros [|[|[|[|]]]|[|]| | |]; reflexivity).
  exact (proj1 (proj2 (H Hm))).
Defined.

(** [stop] leaves the queued tasks unfinished, and a caller that waits for
    room there waits for ever: nobody can move. *)
Theorem stop_strands :
  exists p, pool_after 1 1 (demo_ops ++ [CallStop; WorkerStep 0 0; WorkerStep 0 0]) = Ok p
    /\ finished p = [1] /\ queue_ p = [2] /\ callers p !! 2 = Some (RunWait 3)
    /\ forall op, moves op p = false.
Proof.
  eexists. split; [vm_compute; reflexivity|]. repeat (split; [reflexivity|]).
  intros [|[|[|[|]]]|[|]| | |]; reflexivity.
Qed.
