(* ===== verification/Decoder.v ===== *)
(** * Incremental decoders

    What the message handlers of the protocols have in common: a loop takes
    units off the front of the input buffer until there is no whole one, or
    until it gives up. The interface [Decoder] is one round of such a loop as a
    function of the readable bytes, [DecoderLaws] what makes the loop end and
    its result independent of how the bytes were split into reads. *)
From S2P Require Import Prelude.
From S2P Require Import Endian.
From S2P Require Import Buffer.
From S2P Require Import BufferFacts.

(** ** Rounds *)

(** There is no whole unit; a unit of [n] bytes was taken; the loop breaks
    after [n] bytes; a call failed. [S] is the state of the decoder and [O]
    what a round does to the outside. *)
Inductive round (S O : Type) :=
  | Wait
  | Take (s : S) (n : nat) (out : list O)
  | Break (s : S) (n : nat) (out : list O)
  | Fail (f : fault).
Arguments Wait {S O}.
Arguments Take {S O} _ _ _.
Arguments Break {S O} _ _ _.
Arguments Fail {S O} _.

Class Decoder (S O : Type) := decode : S -> bytes -> round S O.

(** How a loop ended. *)
Inductive ending := Waiting | Broken.

#[export] Instance ending_eq_dec : EqDecision ending.
Proof. solve_decision. Defined.

Section Decoder.
Context {S O : Type} `{!Decoder S O}.

(** The loop: the state, the bytes left, what was done, and how it ended. *)
Fixpoint run (fuel : nat) (s : S) (l : bytes) : res (S * bytes * list O * ending) :=
  match fuel with
  | 0 => Fault OutOfFuel
  | Datatypes.S fuel =>
      match decode s l with
      | Wait => Ok (s, l, [], Waiting)
      | Take s n out =>
          '(s, l, out', e) ← run fuel s (drop n l);
          Ok (s, l, out ++ out', e)
      | Break s n out => Ok (s, drop n l, out, Broken)
      | Fail f => Fault f
      end
  end.

(** A round takes at least a byte. *)
Definition run_all (s : S) (l : bytes) : res (S * bytes * list O * ending) :=
  run (Datatypes.S (length l)) s l.

(** [valid] states are those the decoder is in between rounds. [stable]: a
    round does the same when more bytes follow, or it took all there was and
    goes on with what follows as if it had come at once. *)
Class DecoderLaws (valid : S -> Prop) := {
  law_take s l s' n out :
    valid s -> decode s l = Take s' n out -> valid s' /\ 0 < n <= length l;
  law_break s l s' n out :
    valid s -> decode s l = Break s' n out -> valid s' /\ n <= length l;
  law_empty s : valid s -> decode s [] = Wait;
  law_fail s l f : valid s -> decode s l = Fail f -> f <> OutOfFuel;
  law_stable s l d s' n out :
    valid s -> decode s l = Take s' n out ->
    decode s (l ++ d) = Take s' n out
    \/ n = length l
       /\ (decode s' d = Wait -> d = [])
       /\ (forall s2 m out2, decode s' d = Take s2 m out2 -> decode s (l ++ d) = Take s2 (n + m) (out ++ out2))
       /\ (forall s2 m out2, decode s' d = Break s2 m out2 -> decode s (l ++ d) = Break s2 (n + m) (out ++ out2))
       /\ (forall f, decode s' d = Fail f -> decode s (l ++ d) = Fail f)
}.

Context (valid : S -> Prop) `{!DecoderLaws valid}.

(** With enough fuel the result does not depend on it. *)
Lemma run_fuel f1 f2 s l :
  valid s -> length l < f1 -> length l < f2 -> run f1 s l = run f2 s l.
Proof.
  revert f2 s l; induction f1 as [|f1 IH]; intros [|f2] s l Hs H1 H2; try lia. simpl.
  destruct (decode s l) as [|s' n out| |] eqn:E; try done.
  destruct (law_take _ _ _ _ _ Hs E) as [Hs' Hn]. rewrite (IH f2); [done..| |]; rewrite length_drop; lia.
Qed.

Lemma run_take s l s' n out :
  valid s -> decode s l = Take s' n out ->
  run_all s l = ('(s, l, out', e) ← run_all s' (drop n l); Ok (s, l, out ++ out', e)).
Proof.
  intros Hs E. unfold run_all at 1. cbn [run]. rewrite E. destruct (law_take _ _ _ _ _ Hs E) as [Hs' Hn].
  by rewrite (run_fuel _ (Datatypes.S (length (drop n l)))) by (rewrite ?length_drop; done || lia).
Qed.

(** Induction on the rounds of a loop. *)
Lemma run_ind (P : S -> bytes -> Prop) :
  (forall s l, valid s -> (forall s' n out, decode s l = Take s' n out -> P s' (drop n l)) -> P s l) ->
  forall s l, valid s -> P s l.
Proof.
  intros H s l. remember (length l) as m eqn:Hm. revert s l Hm.
  induction m as [m IH] using lt_wf_ind; intros s l -> Hs. apply H; [done|].
  intros s' n out E. destruct (law_take _ _ _ _ _ Hs E) as [Hs' Hn].
  apply (IH (length (drop n l))); [rewrite length_drop; lia | done | done].
Qed.

Lemma run_valid s l s' l' out e : valid s -> run_all s l = Ok (s', l', out, e) -> valid s'.
Proof.
  intros Hs. revert s l Hs s' l' out e.
  apply (run_ind (fun s l => forall s' l' out e, run_all s l = Ok (s', l', out, e) -> valid s')).
  intros s l Hs IH s' l' out e. destruct (decode s l) as [|s1 n o|s1 n o|f] eqn:E.
  - unfold run_all. cbn [run]. rewrite E. by intros [= <- _ _ _].
  - rewrite (run_take s l s1 n o) by done. specialize (IH _ _ _ eq_refl).
    destruct (run_all s1 (drop n l)) as [[[[s2 l2] o2] e2]|]; run_res; [|done].
    intros [= <- _ _ _]. by eapply IH.
  - unfold run_all. cbn [run]. rewrite E. intros [= <- _ _ _]. by eapply law_break in E as [? _].
  - unfold run_all. cbn [run]. by rewrite E.
Qed.

(** What is left has no whole unit. *)
Lemma run_rest s l s' l' out : valid s -> run_all s l = Ok (s', l', out, Waiting) -> decode s' l' = Wait.
Proof.
  intros Hs. revert s l Hs s' l' out.
  apply (run_ind (fun s l => forall s' l' out, run_all s l = Ok (s', l', out, Waiting) -> decode s' l' = Wait)).
  intros s l Hs IH s' l' out. destruct (decode s l) as [|s1 n o|s1 n o|f] eqn:E.
  - unfold run_all. cbn [run]. rewrite E. by intros [= <- <- _].
  - rewrite (run_take s l s1 n o) by done. specialize (IH _ _ _ eq_refl).
    destruct (run_all s1 (drop n l)) as [[[[s2 l2] o2] e2]|]; run_res; [|done].
    intros [= <- <- _ ->]. by eapply IH.
  - unfold run_all. cbn [run]. by rewrite E.
  - unfold run_all. cbn [run]. by rewrite E.
Qed.

(** The loop ends. *)
Lemma run_total s l : valid s -> run_all s l <> Fault OutOfFuel.
Proof.
  revert s l. apply run_ind. intros s l Hs IH. destruct (decode s l) as [|s1 n o|s1 n o|f] eqn:E.
  - unfold run_all. cbn [run]. by rewrite E.
  - rewrite (run_take s l s1 n o) by done. specialize (IH _ _ _ eq_refl).
    destruct (run_all s1 (drop n l)) as [[[[s2 l2] o2] e2]|f]; run_res; congruence.
  - unfold run_all. cbn [run]. by rewrite E.
  - unfold run_all. cbn [run]. rewrite E. intros [= ->]. by eapply law_fail in E.
Qed.

(** The loop on [l] that waits for more, continued when [d] arrives. *)
Definition run_more (s : S) (l : bytes) (out : list O) (d : bytes) : res (S * bytes * list O * ending) :=
  '(s, l, out', e) ← run_all s (l ++ d); Ok (s, l, out ++ out', e).

(** Reads may split the bytes anywhere. *)
Lemma run_app s l d s1 l1 out1 :
  valid s -> run_all s l = Ok (s1, l1, out1, Waiting) -> run_all s (l ++ d) = run_more s1 l1 out1 d.
Proof.
  intros Hs. revert s l Hs s1 l1 out1.
  apply (run_ind (fun s l => forall s1 l1 out1, run_all s l = Ok (s1, l1, out1, Waiting) ->
                               run_all s (l ++ d) = run_more s1 l1 out1 d)).
  intros s l Hs IH s1 l1 out1. destruct (decode s l) as [|s2 n o|s2 n o|f] eqn:E.
  - unfold run_all at 1. cbn [run]. rewrite E. intros [= <- <- <-]. unfold run_more.
    destruct (run_all s (l ++ d)) as [[[[? ?] ?] ?]|]; done.
  - rewrite (run_take s l s2 n o) by done. specialize (IH _ _ _ eq_refl).
    destruct (law_take _ _ _ _ _ Hs E) as [Hs2 Hn].
    destruct (run_all s2 (drop n l)) as [[[[s3 l3] o3] e3]|] eqn:E2; run_res; [|done].
    intros [= <- <- <- ->]. specialize (IH _ _ _ eq_refl).
    destruct (law_stable _ _ d _ _ _ Hs E) as [Ed | (-> & Hw & Ht & Hb & Hf)].
    + rewrite (run_take s (l ++ d) s2 n o) by done. rewrite drop_app_le, IH by lia. unfold run_more.
      destruct (run_all s3 (l3 ++ d)) as [[[[? ?] ?] ?]|]; run_res; [|done]. by rewrite app_assoc.
    + rewrite drop_all in *. simpl in IH.
      assert (Ho : run_all s (l ++ d) = ('(s, l, out', e) ← run_all s2 d; Ok (s, l, o ++ out', e))).
      { destruct (decode s2 d) as [|s4 m o4|s4 m o4|f] eqn:E4.
        - rewrite (Hw eq_refl), app_nil_r. rewrite (run_take s l s2 (length l) o) by done. by rewrite drop_all.
        - rewrite (run_take s (l ++ d) s4 (length l + m) (o ++ o4)) by auto.
          rewrite (run_take s2 d s4 m o4) by done.
          rewrite <- drop_drop, drop_app_length.
          destruct (run_all s4 (drop m d)) as [[[[? ?] ?] ?]|]; run_res; [|done]. by rewrite app_assoc.
        - unfold run_all. cbn [run]. rewrite (Hb _ _ _ eq_refl), E4. run_res.
          by rewrite <- drop_drop, drop_app_length.
        - unfold run_all. cbn [run]. by rewrite (Hf _ eq_refl), E4. }
      rewrite Ho, IH. unfold run_more.
      destruct (run_all s3 (l3 ++ d)) as [[[[? ?] ?] ?]|]; run_res; [|done]. by rewrite app_assoc.
  - unfold run_all at 1. cbn [run]. by rewrite E.
  - unfold run_all at 1. cbn [run]. by rewrite E.
Qed.

(** Several reads, each followed by the loop; whether it always waited for
    more. *)
Fixpoint run_reads (s : S) (l : bytes) (reads : list bytes) : res (S * bytes * list O * bool) :=
  match reads with
  | [] => Ok (s, l, [], true)
  | d :: reads =>
      '(s, l, out, e) ← run_all s (l ++ d);
      '(s, l, out', w) ← run_reads s l reads;
      Ok (s, l, out ++ out', bool_decide (e = Waiting) && w)
  end.

(** Reads that never break do together what the loop does on all the bytes. *)
Lemma run_reads_whole reads s l s' l' out :
  valid s -> decode s l = Wait ->
  run_reads s l reads = Ok (s', l', out, true) ->
  run_all s (l ++ concat reads) = Ok (s', l', out, Waiting).
Proof.
  assert (H : forall reads s l s1 l1 o1, valid s -> run_all s l = Ok (s1, l1, o1, Waiting) ->
    run_reads s1 l1 reads = Ok (s', l', out, true) ->
    run_all s (l ++ concat reads) = Ok (s', l', o1 ++ out, Waiting)).
  { clear reads s l. intros reads. revert out. induction reads as [|d reads IH]; intros out s l s1 l1 o1 Hs E.
    - cbn [run_reads concat]. intros [= -> -> <-]. by rewrite !app_nil_r.
    - cbn [run_reads concat]. destruct (run_all s1 (l1 ++ d)) as [[[[s2 l2] o2] e2]|] eqn:E2; run_res; [|done].
      destruct (run_reads s2 l2 reads) as [[[[s3 l3] o3] w]|] eqn:E3; run_res; [|done].
      intros [= -> -> <- Hw]. apply andb_true_iff in Hw as [He ->]. apply bool_decide_eq_true in He as ->.
      rewrite app_assoc, (app_assoc o1). apply (IH o3 s (l ++ d) s2 l2 (o1 ++ o2)); [done | | done].
      rewrite (run_app s l d s1 l1 o1) by done. unfold run_more. by rewrite E2. }
  intros Hs Hw E. apply (H reads s l s l []); [done | | done]. unfold run_all. cbn [run]. by rewrite Hw.
Qed.

(** ** Decoders that give up for good *)
Class DecoderFinal := {
  final_break s l d s' n out : valid s -> decode s l = Break s' n out -> decode s (l ++ d) = Break s' n out;
  final_fail s l d f : valid s -> decode s l = Fail f -> decode s (l ++ d) = Fail f
}.

Context `{!DecoderFinal}.

Lemma run_final s l d :
  valid s ->
  match run_all s l with
  | Ok (s1, l1, o1, Broken) => run_all s (l ++ d) = Ok (s1, l1 ++ d, o1, Broken)
  | Ok (_, _, _, Waiting) => True
  | Fault f => run_all s (l ++ d) = Fault f
  end.
Proof.
  revert s l. apply run_ind. intros s l Hs IH. destruct (decode s l) as [|s2 n o|s2 n o|f] eqn:E.
  - unfold run_all at 1. cbn [run]. by rewrite E.
  - rewrite (run_take s l s2 n o) by done. destruct (law_take _ _ _ _ _ Hs E) as [Hs2 Hn].
    destruct (law_stable _ _ d _ _ _ Hs E) as [Ed | (-> & _)].
    + rewrite (run_take s (l ++ d) s2 n o) by done. rewrite drop_app_le by lia.
      specialize (IH _ _ _ eq_refl). destruct (run_all s2 (drop n l)) as [[[[s3 l3] o3] []]|]; run_res; [done|..];
        by rewrite IH.
    + rewrite drop_all. unfold run_all at 1. cbn [run length]. by rewrite law_empty.
  - unfold run_all. cbn [run]. rewrite E, (final_break _ _ d _ _ _ Hs E).
    destruct (law_break _ _ _ _ _ Hs E) as [_ Hn]. by rewrite drop_app_le.
  - unfold run_all. cbn [run]. by rewrite E, (final_fail _ _ d _ Hs E).
Qed.

(** What the loop does on all the bytes is what it does over any reads. *)
Lemma run_whole_reads reads s l s' l' out :
  valid s -> decode s l = Wait ->
  run_all s (l ++ concat reads) = Ok (s', l', out, Waiting) ->
  run_reads s l reads = Ok (s', l', out, true).
Proof.
  revert s l out; induction reads as [|d reads IH]; intros s l out Hs Hw; cbn [concat run_reads].
  - rewrite app_nil_r. unfold run_all. cbn [run]. rewrite Hw. by intros [= <- <- <-].
  - rewrite app_assoc. intros E. pose proof (run_final s (l ++ d) (concat reads) Hs) as Hf.
    destruct (run_all s (l ++ d)) as [[[[s1 l1] o1] []]|f] eqn:E1; run_res; [|congruence..].
    rewrite (run_app s (l ++ d) (concat reads) s1 l1 o1) in E by done. unfold run_more in E.
    destruct (run_all s1 (l1 ++ concat reads)) as [[[[s2 l2] o2] []]|] eqn:E2; run_res; [|done..].
    injection E as -> -> <-. rewrite (IH s1 l1 o2); [done | by eapply run_valid | | done].
    by eapply run_rest.
Qed.
End Decoder.

(** ** Message handlers

    A handler is a loop whose body works on the input buffer: whether it goes
    round again, the state, what it did, and the buffer. *)
Section Handler.
Context {S O : Type} (body : S -> Buffer -> res (bool * S * list O * Buffer)).

Fixpoint handler_loop (fuel : nat) (s : S) (b : Buffer) : res (S * list O * Buffer) :=
  match fuel with
  | 0 => Fault OutOfFuel
  | Datatypes.S fuel =>
      '(again, s, out, b) ← body s b;
      if again : bool then '(s, out', b) ← handler_loop fuel s b; Ok (s, out ++ out', b)
      else Ok (s, out, b)
  end.

(** Every round that goes on takes a byte. *)
Definition handler (s : S) (b : Buffer) : res (S * list O * Buffer) :=
  handler_loop (Datatypes.S (readableBytes b)) s b.

(** Reads arrive, each followed by the handler. *)
Fixpoint handle_reads (s : S) (b : Buffer) (reads : list bytes) : res (S * list O * Buffer) :=
  match reads with
  | [] => Ok (s, [], b)
  | d :: reads =>
      b ← append_str d b;
      '(s, out, b) ← handler s b;
      '(s, out', b) ← handle_reads s b reads;
      Ok (s, out ++ out', b)
  end.

Context `{!Decoder S O}.

(** The body does what the decoder says. *)
Definition implements (valid : S -> Prop) : Prop :=
  forall s b, valid s -> buf_inv b ->
  match decode s (content b) with
  | Wait => body s b = Ok (false, s, [], b)
  | Take s' n out => exists b', body s b = Ok (true, s', out, b') /\ buf_inv b' /\ content b' = drop n (content b)
  | Break s' n out => exists b', body s b = Ok (false, s', out, b') /\ buf_inv b' /\ content b' = drop n (content b)
  | Fail f => body s b = Fault f
  end.

(** The same, but where the decoder waits only if [calm] holds. *)
Definition implements_calm (calm : S -> bytes -> Prop) (valid : S -> Prop) : Prop :=
  forall s b, valid s -> buf_inv b ->
  match decode s (content b) with
  | Wait => calm s (content b) -> body s b = Ok (false, s, [], b)
  | Take s' n out => exists b', body s b = Ok (true, s', out, b') /\ buf_inv b' /\ content b' = drop n (content b)
  | Break s' n out => exists b', body s b = Ok (false, s', out, b') /\ buf_inv b' /\ content b' = drop n (content b)
  | Fail f => body s b = Fault f
  end.

(** The handler's result is the decoder's on the readable bytes. *)
Definition agrees (r : res (S * bytes * list O * ending)) (h : res (S * list O * Buffer)) : Prop :=
  match r with
  | Ok (s, l, out, _) => exists b, h = Ok (s, out, b) /\ buf_inv b /\ content b = l
  | Fault f => h = Fault f
  end.

Context (valid : S -> Prop) `{!DecoderLaws valid}.

Lemma handler_loop_calm calm fuel s b s' l out e :
  implements_calm calm valid -> valid s -> buf_inv b ->
  run fuel s (content b) = Ok (s', l, out, e) -> (e = Waiting -> calm s' l) ->
  exists b', handler_loop fuel s b = Ok (s', out, b') /\ buf_inv b' /\ content b' = l.
Proof.
  intros Hbody. revert s b out; induction fuel as [|fuel IH]; intros s b out Hs Hb; [done|]. cbn [run handler_loop].
  pose proof (Hbody s b Hs Hb) as H. destruct (decode s (content b)) as [|s1 n o|s1 n o|f] eqn:E.
  - intros [= <- <- <- <-] Hc. rewrite (H (Hc eq_refl)). run_res. by exists b.
  - destruct H as (b1 & -> & Hb1 & Hc). run_res. destruct (law_take _ _ _ _ _ Hs E) as [Hs1 _].
    rewrite <- Hc. destruct (run fuel s1 (content b1)) as [[[[s2 l2] o2] e2]|f] eqn:E2; run_res; [|done].
    intros [= <- <- <- <-] Hw. destruct (IH s1 b1 o2 Hs1 Hb1 E2 Hw) as (b2 & -> & Hb2 & Hc2). run_res. by exists b2.
  - destruct H as (b1 & -> & Hb1 & Hc). run_res. intros [= <- <- <- <-] _. by exists b1.
  - done.
Qed.

Lemma handler_calm calm s b s' l out e :
  implements_calm calm valid -> valid s -> buf_inv b ->
  run_all s (content b) = Ok (s', l, out, e) -> (e = Waiting -> calm s' l) ->
  exists b', handler s b = Ok (s', out, b') /\ buf_inv b' /\ content b' = l.
Proof. intros Hbody Hs Hb. unfold run_all, handler. rewrite length_content by done. by apply (handler_loop_calm calm). Qed.

Context (Hbody : implements valid).

Lemma handler_loop_runs fuel s b :
  valid s -> buf_inv b -> agrees (run fuel s (content b)) (handler_loop fuel s b).
Proof.
  revert s b; induction fuel as [|fuel IH]; intros s b Hs Hb; [done|]. cbn [run handler_loop].
  pose proof (Hbody s b Hs Hb) as H. destruct (decode s (content b)) as [|s1 n o|s1 n o|f] eqn:E.
  - rewrite H. run_res. by exists b.
  - destruct H as (b1 & -> & Hb1 & Hc). run_res. destruct (law_take _ _ _ _ _ Hs E) as [Hs1 _].
    specialize (IH s1 b1 Hs1 Hb1). rewrite Hc in IH.
    destruct (run fuel s1 (drop n (content b))) as [[[[s2 l2] o2] e2]|f]; run_res.
    + destruct IH as (b2 & -> & Hb2 & Hc2). run_res. by exists b2.
    + simpl in IH. by rewrite IH.
  - destruct H as (b1 & -> & Hb1 & Hc). run_res. by exists b1.
  - by rewrite H.
Qed.

Lemma handler_runs s b : valid s -> buf_inv b -> agrees (run_all s (content b)) (handler s b).
Proof. intros Hs Hb. unfold run_all, handler. rewrite length_content by done. by apply handler_loop_runs. Qed.

Lemma handle_reads_runs s b reads s' l' out w :
  valid s -> buf_inv b -> run_reads s (content b) reads = Ok (s', l', out, w) ->
  exists b', handle_reads s b reads = Ok (s', out, b') /\ buf_inv b' /\ content b' = l'.
Proof.
  revert s b out w; induction reads as [|d reads IH]; intros s b out w Hs Hb; cbn [run_reads handle_reads].
  - intros [= <- <- <- _]. by exists b.
  - destruct (append_str_spec d b Hb) as (b1 & -> & Hb1 & Hc1 & _). run_res.
    pose proof (handler_runs s b1 Hs Hb1) as H. rewrite Hc1 in H.
    destruct (run_all s (content b ++ d)) as [[[[s1 l1] o1] e1]|] eqn:E1; run_res; [|done].
    destruct H as (b2 & -> & Hb2 & <-). run_res.
    destruct (run_reads s1 (content b2) reads) as [[[[s3 l3] o3] w3]|] eqn:E3; run_res; [|done].
    intros [= <- <- <- _]. apply IH in E3 as (b3 & -> & Hb3 & Hc3); [|by eapply run_valid|done].
    run_res. by exists b3.
Qed.

(** Over any reads, the handler does what the decoder does on all the
    bytes. *)
Lemma handle_reads_whole `{!DecoderFinal valid} s b reads s' l' out :
  valid s -> buf_inv b -> decode s (content b) = Wait ->
  run_all s (content b ++ concat reads) = Ok (s', l', out, Waiting) ->
  exists b', handle_reads s b reads = Ok (s', out, b') /\ buf_inv b' /\ content b' = l'.
Proof.
  intros Hs Hb Hw E. eapply handle_reads_runs; [done..|]. by eapply run_whole_reads.
Qed.
End Handler.
