(* ===== verification/LengthCodec.v ===== *)
(** * Length-prefixed messages: [src/msexamples/asio/chat/codec.h],
    [server.cpp]

    [LengthHeaderCodec] cuts the input into messages by a 32 bit length in
    network order; [ChatServer] passes every message on to all its
    connections. *)
From S2P Require Import Prelude.
From S2P Require Import Endian.
From S2P Require Import StringPiece.
From S2P Require Import Buffer.
From S2P Require Import BufferFacts.
From S2P Require Import Decoder.

Definition kHeaderLen : nat := 4.

(** What [onMessage] does: it calls [messageCallback_], or it shuts the
    connection down. *)
Inductive codec_event := StringMessage (message : bytes) | CodecShutdown.

Section LengthCodec.
Context `{Platform}.

(** A round of the loop of [onMessage]; the callback is not given the
    buffer. *)
Definition onMessage_body (u : unit) (buf : Buffer) : res (bool * unit * list codec_event * Buffer) :=
  if kHeaderLen <=? readableBytes buf then
    let be32 := wrapS 32 (of_mem (range buf (peek buf) (peek buf + 4))) in
    let len := wrapS 32 (networkToHost32 (wrapU 32 be32)) in
    if (65536 <? len)%Z || (len <? 0)%Z then Ok (false, u, [CodecShutdown], buf)
    else if (len + 4 <=? Z.of_nat (readableBytes buf))%Z then
      buf ← retrieve kHeaderLen buf;
      let message := range buf (peek buf) (peek buf + Z.to_nat len) in
      buf ← retrieve (Z.to_nat len) buf;
      Ok (true, u, [StringMessage message], buf)
    else Ok (false, u, [], buf)
  else Ok (false, u, [], buf).

Definition codec_onMessage (buf : Buffer) : res (list codec_event * Buffer) :=
  '(_, events, buf) ← handler onMessage_body tt buf; Ok (events, buf).

(** [send]: the buffer handed to [conn->send]. *)
Definition codec_send (message : StringPiece) : res Buffer :=
  buf ← append_piece message (new_Buffer kInitialSize);
  let len := sp_size message in
  let be32 := wrapS 32 (hostToNetwork32 (wrapU 32 len)) in
  prepend (to_mem 4 be32) 4 buf.

(** ** The chat server *)

(** [connections_] is a set of pointers; [ChatSend c b] is a [send] of the
    buffer to connection [c]. *)
Inductive chat_event := ChatSend (c : positive) (b : bytes).

Definition chat_onConnection (c : positive) (connected : bool) (connections_ : list positive) : list positive :=
  if connected then if decide (c ∈ connections_) then connections_ else c :: connections_
  else filter (fun d => d <> c) connections_.

Fixpoint onStringMessage (message : bytes) (connections_ : list positive) : res (list chat_event) :=
  match connections_ with
  | [] => Ok []
  | c :: cs =>
      buf ← codec_send (sp_of_string message);
      events ← onStringMessage message cs;
      Ok (ChatSend c (content buf) :: events)
  end.

(** ** The codec as a decoder *)

#[export] Instance length_decoder : Decoder unit codec_event := fun u l =>
  if length l <? 4 then Wait
  else
    let len := wrapS 32 (of_be (take 4 l)) in
    if (65536 <? len)%Z || (len <? 0)%Z then Break u 0 [CodecShutdown]
    else if (len + 4 <=? Z.of_nat (length l))%Z
    then Take u (4 + Z.to_nat len) [StringMessage (take (Z.to_nat len) (drop 4 l))]
    else Wait.

(** Four bytes as they are read from memory. *)
Lemma net32 (l : bytes) :
  length l = 4 -> wrapS 32 (networkToHost32 (wrapU 32 (wrapS 32 (of_mem l)))) = wrapS 32 (of_be l).
Proof.
  intros Hl. assert (E : l = be_bytes 4 (wrapS 32 (of_be l))).
  { rewrite <- (be_bytes_wrapU 4), wrapU_wrapS by lia. rewrite (be_bytes_wrapU 4).
    rewrite <- Hl at 1. unfold of_be, be_bytes. by rewrite <- (length_reverse l), le_bytes_of_le, reverse_involutive. }
  rewrite E at 1. apply (decode_hton 4 32); [done | lia|].
  pose proof (wrapU_bound 32 (of_be l) ltac:(lia)). unfold wrapS. case_if; simpl in *; lia.
Qed.

Lemma length_codec_implements : implements onMessage_body (fun _ => True).
Proof.
  intros [] b _ Hb. unfold onMessage_body, decode, length_decoder. rewrite length_content by done.
  unfold kHeaderLen. rewrite Nat.ltb_antisym. destruct (4 <=? readableBytes b) eqn:Hr; run_res; [|done].
  apply Nat.leb_le in Hr. rewrite range_prefix by done.
  rewrite net32 by (rewrite length_take, length_content by done; lia).
  set (len := wrapS 32 _). destruct ((65536 <? len)%Z || (len <? 0)%Z) eqn:Hl.
  - exists b. split; [done|]. by rewrite drop_0.
  - bool_props. destruct (len + 4 <=? Z.of_nat (readableBytes b))%Z eqn:Hle; [|done]. bool_props.
    destruct (retrieve_spec 4 b Hb Hr) as (b1 & -> & Hb1 & Hc1). run_res.
    assert (Hr1 : Z.to_nat len <= readableBytes b1).
    { rewrite <- length_content by done. rewrite Hc1, length_drop, length_content by done. lia. }
    destruct (retrieve_spec _ b1 Hb1 Hr1) as (b2 & -> & Hb2 & Hc2). run_res.
    exists b2. rewrite range_prefix, Hc1 by done. split; [done|]. split; [done|].
    by rewrite Hc2, Hc1, drop_drop.
Qed.

#[export] Instance length_decoder_laws : DecoderLaws (fun _ : unit => True).
Proof.
  split.
  - intros u l s' n out _. unfold decode, length_decoder. repeat case_if; try done.
    intros [= <- <-]. by split; [|lia].
  - intros u l s' n out _. unfold decode, length_decoder. repeat case_if; try done.
    intros [= <- <-]. by split; [|lia].
  - done.
  - intros u l f _. unfold decode, length_decoder. by repeat case_if.
  - intros u l d s' n out _ E. left. revert E. unfold decode, length_decoder. rewrite length_app.
    case_if; [done|]. replace (length l + length d <? 4) with false by (symmetry; apply Nat.ltb_ge; lia).
    rewrite take_app_le by lia. set (len := wrapS 32 _). case_if; [done|].
    destruct (len + 4 <=? Z.of_nat (length l))%Z eqn:Hle; [|done]. bool_props.
    replace (len + 4 <=? Z.of_nat (length l + length d))%Z with true by (symmetry; apply Z.leb_le; lia).
    intros [= <- <- <-]. do 2 f_equal. rewrite drop_app_le by lia. f_equal.
    apply take_app_le. rewrite length_drop. lia.
Qed.

#[export] Instance length_decoder_final : DecoderFinal (fun _ : unit => True).
Proof.
  split.
  - intros u l d s' n out _. unfold decode, length_decoder. rewrite length_app.
    case_if; [done|]. replace (length l + length d <? 4) with false by (symmetry; apply Nat.ltb_ge; lia).
    rewrite take_app_le by lia. set (len := wrapS 32 _). case_if; [done|]. by case_if.
  - intros u l d f _. unfold decode, length_decoder. by repeat case_if.
Qed.

(** ** Messages come back *)

(** A message as it is sent. *)
Definition framed (message : bytes) : bytes := be_bytes 4 (Z.of_nat (length message)) ++ message.

Definition message_ok (message : bytes) : Prop := (Z.of_nat (length message) <= 65536)%Z.

Lemma send_framed message :
  message_ok message -> exists b, codec_send (sp_of_string message) = Ok b /\ buf_inv b /\ content b = framed message.
Proof.
  unfold message_ok. intros Hm. unfold codec_send, append_piece, sp_of_string, sp_size, sp_data.
  cbn [length_ ptr_]. rewrite (wrapS_small 32 (Z.of_nat (length message))) by lia.
  replace (0 <=? Z.of_nat (length message))%Z with true by (symmetry; apply Z.leb_le; lia). rewrite Nat2Z.id.
  destruct (append_str_spec message (new_Buffer kInitialSize) (new_Buffer_inv _)) as (b & E & Hb & Hc & Hr).
  unfold append_str in E. rewrite E. run_res. rewrite image32.
  assert (Hp : length (be_bytes 4 (Z.of_nat (length message))) <= prependableBytes b).
  { rewrite length_be_bytes. unfold prependableBytes. destruct Hr as [-> | ->]; simpl;
      rewrite kCheapPrepend_eq; lia. }
  destruct (prepend_spec _ b Hb Hp) as (b' & E' & Hb' & Hc' & _). rewrite length_be_bytes in E'.
  exists b'. split; [done|]. split; [done|]. by rewrite Hc', Hc.
Qed.

Lemma decode_framed message rest :
  message_ok message ->
  decode tt (framed message ++ rest) = Take tt (length (framed message)) [StringMessage message].
Proof.
  unfold message_ok. intros Hm. unfold decode, length_decoder, framed.
  rewrite !length_app, length_be_bytes. simpl Nat.ltb. rewrite <- app_assoc.
  rewrite take_app_length', drop_app_length' by (by rewrite length_be_bytes).
  rewrite of_be_be_bytes, Z.mod_small, wrapS_small by lia.
  replace ((65536 <? Z.of_nat (length message))%Z || (Z.of_nat (length message) <? 0)%Z) with false
    by (symmetry; apply orb_false_iff; split; apply Z.ltb_ge; lia).
  replace (Z.of_nat (length message) + 4 <=? Z.of_nat (4 + length message + length rest))%Z with true
    by (symmetry; apply Z.leb_le; lia).
  rewrite Nat2Z.id. by rewrite take_app_length.
Qed.

Lemma run_framed messages :
  Forall message_ok messages ->
  run_all tt (concat (framed <$> messages)) = Ok (tt, [], StringMessage <$> messages, Waiting).
Proof.
  intros Hm. induction Hm as [|m ms Hm _ IH]; [done|]. cbn [fmap list_fmap concat].
  rewrite (run_take (fun _ => True) tt _ tt (length (framed m)) [StringMessage m]);
    [|done | by apply decode_framed].
  rewrite drop_app_length, IH. done.
Qed.

(** C26: Messages of at most 64 KiB survive the codec: [send] frames each, and
    [onMessage], however the stream is cut into reads, calls back with exactly
    these messages in order and leaves nothing behind. *)
Theorem codec_roundtrip messages frames reads b :
  Forall message_ok messages ->
  Forall2 (fun m f => exists buf, codec_send (sp_of_string m) = Ok buf /\ content buf = f) messages frames ->
  concat reads = concat frames ->
  buf_inv b -> content b = [] ->
  exists b', handle_reads onMessage_body tt b reads = Ok (tt, StringMessage <$> messages, b') /\ content b' = [].
Proof.
  intros Hm Hf Hc Hb Hb0. assert (E : frames = framed <$> messages).
  { revert Hm. clear Hc. induction Hf as [|m f ms fs (buf & E & <-) _ IH]; [done|]. intros Hm.
    inversion Hm as [|? ? Hm1 Hm2]; subst. destruct (send_framed m Hm1) as (b1 & E1 & _ & Hc1).
    cbn [fmap list_fmap]. f_equal; [congruence | by apply IH]. }
  destruct (handle_reads_whole onMessage_body (fun _ => True) length_codec_implements tt b reads tt []
    (StringMessage <$> messages)) as (b' & E' & _ & Hc'); [done | done | by rewrite Hb0 | | by exists b'].
  rewrite Hb0, Hc, E. simpl. by apply run_framed.
Qed.
End LengthCodec.

Lemma codec_roundtrip_witness :
  exists b', handle_reads (@onMessage_body linux) tt (new_Buffer 1024)
      [take 3 (framed (str "hello")); drop 3 (framed (str "hello")) ++ framed (str "x")]
    = Ok (tt, [StringMessage (str "hello"); StringMessage (str "x")], b') /\ content b' = [].
Proof.
  apply (@codec_roundtrip linux [str "hello"; str "x"] [framed (str "hello"); framed (str "x")]).
  - unfold message_ok. repeat constructor; vm_compute; discriminate.
  - constructor; [|constructor; [|constructor]]; eexists; (split; [reflexivity | vm_compute; reflexivity]).
  - reflexivity.
  - apply new_Buffer_inv.
  - reflexivity.
Defined.
