(* ===== verification/FastCgi.v ===== *)
(** * FastCGI: [src/msexamples/fastcgi/FastCgiCodec.h], [FastCgiCodec.cpp]

    The responder's side of a connection to a web server: records are cut off
    the input, the parameters and the standard input of a request collected,
    and the callback called when the request is complete. *)
From S2P Require Import Prelude.
From S2P Require Import Endian.
From S2P Require Import Buffer.
From S2P Require Import StdContainers.
From S2P Require Import Decoder.

(** [RecordHeader] after the conversions of [parseRequest]; the request id
    and the reserved byte are not used. *)
Record RecordHeader := mkHeader { h_version : Z; h_type : Z; h_id : Z; h_length : nat; h_padding : nat }.

Definition kRecordHeader : nat := 8.
Definition kFcgiBeginRequest : Z := 1.
Definition kFcgiEndRequest : Z := 3.
Definition kFcgiParams : Z := 4.
Definition kFcgiStdin : Z := 5.
Definition kFcgiStdout : Z := 6.
Definition kFcgiResponder : Z := 1.
Definition kFcgiKeepConn : Z := 1.

Record FastCgiCodec := mkCodec {
  gotRequest_ : bool;
  keepConn_ : bool;
  stdin_ : Buffer;
  paramsStream_ : Buffer;
  params_ : list (bytes * bytes)
}.

Definition new_FastCgiCodec : FastCgiCodec :=
  mkCodec false false (new_Buffer kInitialSize) (new_Buffer kInitialSize) [].

Definition set_got (g : bool) (c : FastCgiCodec) : FastCgiCodec :=
  mkCodec g (keepConn_ c) (stdin_ c) (paramsStream_ c) (params_ c).
Definition set_keep (k : bool) (c : FastCgiCodec) : FastCgiCodec :=
  mkCodec (gotRequest_ c) k (stdin_ c) (paramsStream_ c) (params_ c).
Definition set_stdin (b : Buffer) (c : FastCgiCodec) : FastCgiCodec :=
  mkCodec (gotRequest_ c) (keepConn_ c) b (paramsStream_ c) (params_ c).
Definition set_params (b : Buffer) (ps : list (bytes * bytes)) (c : FastCgiCodec) : FastCgiCodec :=
  mkCodec (gotRequest_ c) (keepConn_ c) (stdin_ c) b ps.

Section FastCgi.
Context `{Platform}.

(** [memcpy] of the header and the conversion of its 16 bit fields. *)
Definition header_of (l : bytes) : RecordHeader :=
  let byte i := match l !! i with Some c => Z_of_char c | None => 0%Z end in
  mkHeader (byte 0) (byte 1) (networkToHost16 (of_mem (take 2 (drop 2 l))))
    (Z.to_nat (hostToNetwork16 (of_mem (take 2 (drop 4 l))))) (Z.to_nat (byte 6)).

(** [readLen]: the length and the stream; [2 ^ 32 - 1] is the [-1] returned
    for a stream that is too short. *)
Definition readLen (s : Buffer) : res (Z * Buffer) :=
  if 1 <=? readableBytes s then
    byte ← peekInt8 s;
    if negb (Z.land (wrapU 8 byte) 128 =? 0)%Z then
      if 4 <=? readableBytes s then
        '(n, s) ← readInt32 s; Ok (Z.land (wrapU 32 n) (2 ^ 31 - 1), s)
      else Ok ((2 ^ 32 - 1)%Z, s)
    else '(n, s) ← readInt8 s; Ok (wrapU 32 n, s)
  else Ok ((2 ^ 32 - 1)%Z, s).

(** [parseAllParams]; a round that goes on takes at least two bytes. *)
Fixpoint params_loop (fuel : nat) (s : Buffer) (ps : list (bytes * bytes)) :
    res (bool * Buffer * list (bytes * bytes)) :=
  match fuel with
  | 0 => Fault OutOfFuel
  | S fuel =>
      if 0 <? readableBytes s then
        '(nameLen, s) ← readLen s;
        if (nameLen =? 2 ^ 32 - 1)%Z then Ok (false, s, ps)
        else
          '(valueLen, s) ← readLen s;
          if (valueLen =? 2 ^ 32 - 1)%Z then Ok (false, s, ps)
          else if (wrapU 32 (nameLen + valueLen) <=? Z.of_nat (readableBytes s))%Z then
            '(name, s) ← retrieveAsString (Z.to_nat nameLen) s;
            '(value, s) ← retrieveAsString (Z.to_nat valueLen) s;
            params_loop fuel s (map_set name value ps)
          else Ok (false, s, ps)
      else Ok (true, s, ps)
  end.

Definition parseAllParams (c : FastCgiCodec) : res (bool * FastCgiCodec) :=
  '(ok, s, ps) ← params_loop (S (readableBytes (paramsStream_ c))) (paramsStream_ c) (params_ c);
  Ok (ok, set_params s ps c).

(** [onBeginRequest] and its siblings; the caller ignores their results.
    [readable] is the size of the input buffer and [content] the memory behind
    the header. *)
Definition onBeginRequest (header : RecordHeader) (readable : nat) (content : bytes) (c : FastCgiCodec) :
    res FastCgiCodec :=
  assert_ (h_length header <=? readable);;
  assert_ (h_type header =? kFcgiBeginRequest)%Z;;
  if kRecordHeader <=? h_length header then
    let role := hostToNetwork16 (of_mem (take 2 content)) in
    flags ← get_ OutOfBounds (content !! 2);
    if (role =? kFcgiResponder)%Z then Ok (set_keep (Z_of_char flags =? kFcgiKeepConn)%Z c) else Ok c
  else Ok c.

Definition onParams (content : bytes) (length : nat) (c : FastCgiCodec) : res FastCgiCodec :=
  if 0 <? length then
    s ← append content length (paramsStream_ c); Ok (set_params s (params_ c) c)
  else '(_, c) ← parseAllParams c; Ok c.

Definition onStdin (content : bytes) (length : nat) (c : FastCgiCodec) : res FastCgiCodec :=
  if 0 <? length then
    s ← append content length (stdin_ c); Ok (set_stdin s c)
  else Ok (set_got true c).

(** The [switch] of [parseRequest]. *)
Definition on_record (header : RecordHeader) (readable : nat) (content : bytes) (c : FastCgiCodec) :
    res FastCgiCodec :=
  if (h_type header =? kFcgiBeginRequest)%Z then onBeginRequest header readable content c
  else if (h_type header =? kFcgiParams)%Z then onParams content (h_length header) c
  else if (h_type header =? kFcgiStdin)%Z then onStdin content (h_length header) c
  else Ok c.

(** A round of [parseRequest]. *)
Definition parseRequest_body (c : FastCgiCodec) (buf : Buffer) : res (bool * FastCgiCodec * list unit * Buffer) :=
  if kRecordHeader <=? readableBytes buf then
    let header := header_of (range buf (peek buf) (peek buf + kRecordHeader)) in
    let total := kRecordHeader + h_length header + h_padding header in
    if total <=? readableBytes buf then
      c ← on_record header (readableBytes buf) (range buf (peek buf + kRecordHeader) (beginWrite buf)) c;
      buf ← retrieve total buf;
      Ok (true, c, [], buf)
    else Ok (false, c, [], buf)
  else Ok (false, c, [], buf).

Definition parseRequest (c : FastCgiCodec) (buf : Buffer) : res (FastCgiCodec * Buffer) :=
  '(c, _, buf) ← handler parseRequest_body c buf; Ok (c, buf).

(** [onMessage]: it calls the callback with the parameters and the input, and
    may shut the connection down. *)
Inductive fcgi_event := FcgiRequest (params : list (bytes * bytes)) (input : bytes) | FcgiShutdown.

Definition fcgi_onMessage (c : FastCgiCodec) (buf : Buffer) : res (FastCgiCodec * list fcgi_event * Buffer) :=
  '(c, buf) ← parseRequest c buf;
  if gotRequest_ c then
    Ok (mkCodec false (keepConn_ c) (retrieveAll (stdin_ c)) (retrieveAll (paramsStream_ c)) [],
        FcgiRequest (params_ c) (content (stdin_ c)) :: (if keepConn_ c then [] else [FcgiShutdown]), buf)
  else Ok (c, [], buf).

(** ** Responses *)

(** A header in memory. *)
Definition header_image (type : Z) (length padding : Z) : bytes :=
  [char_of_Z 1; char_of_Z type] ++ to_mem 2 (hostToNetwork16 1) ++ to_mem 2 length
  ++ [char_of_Z padding; char_of_Z 0].

Definition endStdout (b : Buffer) : res Buffer := append (header_image kFcgiStdout 0 0) kRecordHeader b.

(** The header it builds is not appended. *)
Definition endRequest (b : Buffer) : res Buffer := b ← appendInt32 0 b; appendInt32 0 b.

Definition respond (response : Buffer) : res Buffer :=
  response ←
    (if (Z.of_nat (readableBytes response) <? 65536)%Z && (kRecordHeader <=? prependableBytes response) then
       let length := hostToNetwork16 (wrapU 16 (Z.of_nat (readableBytes response))) in
       let padding := Z.land (- Z.of_nat (readableBytes response)) 7 in
       response ← prepend (header_image kFcgiStdout length padding) kRecordHeader response;
       append (replicate 8 nul) (Z.to_nat padding) response
     else Ok response);
  response ← endStdout response;
  endRequest response.
End FastCgi.
