(* ===== verification/FastCgiFacts.v ===== *)
(** * Correctness of the FastCGI responder

    No input makes the codec fail; parameters are decoded as the protocol
    encodes them; a request, however its records are cut into reads, reaches
    the callback once; and what a response lacks. *)
From S2P Require Import Prelude.
From S2P Require Import Endian.
From S2P Require Import Buffer.
From S2P Require Import BufferFacts.
From S2P Require Import StdContainers.
From S2P Require Import Decoder.
From S2P Require Import FastCgi.

Section FastCgiFacts.
Context `{Platform}.

(** ** Lengths *)

(** [readLen] on the bytes of the stream. *)
Definition read_len (l : bytes) : Z * bytes :=
  match l with
  | [] => ((2 ^ 32 - 1)%Z, [])
  | c :: l' =>
      if (Z_of_char c <? 128)%Z then (Z_of_char c, l')
      else if 4 <=? length l then ((of_be (take 4 l) mod 2 ^ 31)%Z, drop 4 l) else ((2 ^ 32 - 1)%Z, l)
  end.

Lemma high_bit c : (Z.land (wrapU 8 (wrapS 8 (Z_of_char c))) 128 =? 0)%Z = (Z_of_char c <? 128)%Z.
Proof. destruct c as [[] [] [] [] [] [] [] []]; reflexivity. Qed.

Lemma low_byte c : (Z_of_char c < 128)%Z -> wrapU 32 (wrapS 8 (Z_of_char c)) = Z_of_char c.
Proof. destruct c as [[] [] [] [] [] [] [] []]; (reflexivity || (vm_compute; discriminate)). Qed.

Lemma peekInt8_content b c l : buf_inv b -> content b = c :: l -> peekInt8 b = Ok (wrapS 8 (Z_of_char c)).
Proof.
  intros Hb Hc. unfold peekInt8. destruct (content_prefix_range b 1 [c] l Hb Hc eq_refl) as [Hn Hr].
  rewrite (proj2 (Nat.leb_le _ _) Hn). run_res. unfold range in Hr.
  replace (peek b + 1 - peek b) with 1 in Hr by lia.
  destruct (drop (peek b) (buffer_ b)) as [|c' l'] eqn:Ed; [done|]. injection Hr as ->.
  rewrite <- (Nat.add_0_r (peek b)), <- lookup_drop, Ed. done.
Qed.

(** A 32 bit integer read from any four bytes. *)
Lemma readInt32_content b l :
  buf_inv b -> content b = l -> 4 <= length l ->
  exists b', readInt32 b = Ok (wrapS 32 (of_be (take 4 l)), b') /\ buf_inv b' /\ content b' = drop 4 l.
Proof.
  intros Hb Hc Hl. apply readInt32_image; [|done|].
  - pose proof (wrapU_bound 32 (of_be (take 4 l)) ltac:(lia)). unfold wrapS. case_if; simpl in *; lia.
  - rewrite Hc. rewrite <- (take_drop 4 l) at 1. f_equal.
    rewrite <- (be_bytes_wrapU 4), wrapU_wrapS by lia. rewrite (be_bytes_wrapU 4).
    unfold of_be, be_bytes. rewrite <- (reverse_involutive (take 4 l)) at 1. f_equal.
    rewrite <- (le_bytes_of_le (reverse (take 4 l))) at 1. f_equal. rewrite length_reverse, length_take. lia.
Qed.

Lemma readLen_spec b :
  buf_inv b -> exists b', readLen b = Ok ((read_len (content b)).1, b') /\ buf_inv b'
    /\ content b' = (read_len (content b)).2.
Proof.
  intros Hb. unfold readLen. rewrite <- length_content by done.
  destruct (content b) as [|c l] eqn:Ec; [by exists b|].
  change (1 <=? length (c :: l)) with true. cbn match.
  rewrite (peekInt8_content b c l) by done. run_res. rewrite high_bit. cbn [read_len].
  destruct (Z.ltb_spec (Z_of_char c) 128) as [Hlt|Hge]; run_res.
  - unfold readInt8. rewrite (peekInt8_content b c l) by done. run_res. unfold retrieveInt8.
    destruct (read_spec 1 [c] l b Hb Ec eq_refl) as (b' & -> & Hb' & Hc'). run_res.
    exists b'. by rewrite low_byte.
  - destruct (4 <=? length (c :: l)) eqn:E4; [|by exists b]. apply Nat.leb_le in E4.
    destruct (readInt32_content b (c :: l) Hb Ec E4) as (b' & -> & Hb' & Hc'). run_res.
    exists b'. split; [|done]. do 2 f_equal. rewrite wrapU_wrapS by lia.
    rewrite (land_ones_mod 31) by lia. unfold wrapU. simpl fst.
    rewrite <- Znumtheory.Zmod_div_mod; [done | lia | lia |]. by exists 2%Z.
Qed.

Lemma read_len_bound l : (0 <= (read_len l).1 < 2 ^ 32)%Z /\ length (read_len l).2 <= length l.
Proof.
  unfold read_len. destruct l as [|c l]; [simpl; lia|]. pose proof (Z_of_char_bound c).
  case_if; [simpl; lia|]. case_if; [|simpl; lia]. cbn [fst snd]. rewrite length_drop.
  pose proof (Z.mod_pos_bound (of_be (take 4 (c :: l))) (2 ^ 31)). lia.
Qed.

Lemma read_len_short l : (read_len l).1 <> (2 ^ 32 - 1)%Z ->
  (0 <= (read_len l).1 < 2 ^ 31)%Z /\ length (read_len l).2 < length l.
Proof.
  unfold read_len. destruct l as [|c l]; [done|]. pose proof (Z_of_char_bound c).
  case_if; [simpl; lia|]. case_if; [|done]. cbn [fst snd]. rewrite length_drop.
  pose proof (Z.mod_pos_bound (of_be (take 4 (c :: l))) (2 ^ 31)). lia.
Qed.

(** ** Parameters *)

(** [parseAllParams] on the bytes of the stream. *)
Fixpoint parse_params (fuel : nat) (l : bytes) (ps : list (bytes * bytes)) : res (bool * bytes * list (bytes * bytes)) :=
  match fuel with
  | 0 => Fault OutOfFuel
  | S fuel =>
      match l with
      | [] => Ok (true, [], ps)
      | _ =>
          let (n, l) := read_len l in
          if (n =? 2 ^ 32 - 1)%Z then Ok (false, l, ps)
          else
            let (v, l) := read_len l in
            if (v =? 2 ^ 32 - 1)%Z then Ok (false, l, ps)
            else if (n + v <=? Z.of_nat (length l))%Z then
              parse_params fuel (drop (Z.to_nat n + Z.to_nat v) l)
                (map_set (take (Z.to_nat n) l) (take (Z.to_nat v) (drop (Z.to_nat n) l)) ps)
            else Ok (false, l, ps)
      end
  end.

Lemma params_loop_spec fuel b ps :
  buf_inv b -> length (content b) < fuel ->
  exists ok l ps' b', parse_params fuel (content b) ps = Ok (ok, l, ps')
    /\ params_loop fuel b ps = Ok (ok, b', ps') /\ buf_inv b' /\ content b' = l.
Proof.
  revert b ps; induction fuel as [|fuel IH]; intros b ps Hb Hf; [lia|]. cbn [parse_params params_loop].
  rewrite <- length_content by done. destruct (content b) as [|c l0] eqn:Ec; [by eexists _, _, _, b|].
  rewrite <- Ec in Hf |- *. replace (0 <? length (content b)) with true by (rewrite Ec; done).
  destruct (readLen_spec b Hb) as (b1 & -> & Hb1 & Hc1). run_res.
  pose proof (read_len_short (content b)) as Hs1.
  destruct (read_len (content b)) as [n l1]. simpl in Hc1, Hs1. simpl fst.
  destruct (Z.eqb_spec n (2 ^ 32 - 1)) as [_|Hn]; [by eexists _, _, _, b1|]. specialize (Hs1 Hn).
  destruct (readLen_spec b1 Hb1) as (b2 & -> & Hb2 & Hc2). run_res. rewrite Hc1 in *.
  pose proof (read_len_short l1) as Hs2.
  destruct (read_len l1) as [v l2]. simpl in Hc2, Hs2. simpl fst.
  destruct (Z.eqb_spec v (2 ^ 32 - 1)) as [_|Hv]; [by eexists _, _, _, b2|]. specialize (Hs2 Hv).
  rewrite wrapU_small by lia. rewrite <- length_content by done. rewrite Hc2.
  destruct (Z.leb_spec (n + v) (Z.of_nat (length l2))) as [Hle|Hgt]; [|by eexists _, _, _, b2].
  destruct (retrieveAsString_spec (Z.to_nat n) b2 Hb2) as (b3 & -> & Hb3 & Hc3);
    [rewrite <- length_content, Hc2 by done; lia|]. run_res.
  destruct (retrieveAsString_spec (Z.to_nat v) b3 Hb3) as (b4 & -> & Hb4 & Hc4);
    [rewrite <- length_content, Hc3, Hc2, length_drop by done; lia|]. run_res.
  rewrite Hc3, Hc2. rewrite Hc3, Hc2, drop_drop in Hc4. rewrite <- Hc4. apply IH; [done|].
  rewrite Hc4, length_drop. lia.
Qed.

(** The protocol's encoding of a name or value length and of a pair. *)
Definition len_text (n : nat) : bytes :=
  if n <? 128 then [char_of_Z (Z.of_nat n)] else be_bytes 4 (Z.of_nat n + 2 ^ 31).
Definition pair_text (p : bytes * bytes) : bytes :=
  len_text (length p.1) ++ len_text (length p.2) ++ p.1 ++ p.2.
Definition params_text (ps : list (bytes * bytes)) : bytes := concat (pair_text <$> ps).

Definition len_ok (n : nat) : Prop := (Z.of_nat n < 2 ^ 31)%Z.

Lemma head_be4 z : exists l, be_bytes 4 z = char_of_Z (z / 2 ^ 24) :: l /\ length l = 3.
Proof.
  unfold be_bytes. eexists. split; [|shelve]. simpl. rewrite !Z.div_div by lia. reflexivity.
  Unshelve. reflexivity.
Qed.

Lemma read_len_text n rest : len_ok n -> read_len (len_text n ++ rest) = (Z.of_nat n, rest).
Proof.
  unfold len_ok, len_text. intros Hn. destruct (Nat.ltb_spec n 128) as [Hlt|Hge].
  - simpl. rewrite Z_of_char_of_Z, Z.mod_small by lia.
    by replace (Z.of_nat n <? 128)%Z with true by (symmetry; apply Z.ltb_lt; lia).
  - destruct (head_be4 (Z.of_nat n + 2 ^ 31)) as (l & E & Hl). rewrite E. cbn [app read_len].
    rewrite Z_of_char_of_Z, Z.mod_small by (split; [apply Z.div_pos; lia | apply Z.div_lt_upper_bound; lia]).
    replace (_ <? 128)%Z with false by (symmetry; apply Z.ltb_ge; apply Z.div_le_lower_bound; lia).
    change (char_of_Z ((Z.of_nat n + 2 ^ 31) / 2 ^ 24) :: l ++ rest)
      with ((char_of_Z ((Z.of_nat n + 2 ^ 31) / 2 ^ 24) :: l) ++ rest). rewrite <- E.
    rewrite length_app, length_be_bytes. simpl Nat.leb. 
    rewrite take_app_length', drop_app_length' by (by rewrite length_be_bytes).
    rewrite of_be_be_bytes. f_equal. rewrite (Z.mod_small _ (256 ^ Z.of_nat 4)) by lia.
    rewrite <- (Z.mul_1_l (2 ^ 31)) at 1. rewrite Z.mod_add by lia. apply Z.mod_small. lia.
Qed.

Lemma len_text_pos n : len_text n <> [].
Proof. unfold len_text. case_if; [done|]. by destruct (head_be4 (Z.of_nat n + 2 ^ 31)) as (l & -> & _). Qed.

(** The parameters come out as they were encoded. *)
Lemma parse_params_text ps m fuel :
  Forall (fun p => len_ok (length p.1) /\ len_ok (length p.2)) ps -> length ps < fuel ->
  parse_params fuel (params_text ps) m = Ok (true, [], foldl (fun m p => map_set p.1 p.2 m) m ps).
Proof.
  intros Hps. revert m fuel; induction Hps as [|[k v] ps [Hk Hv] _ IH]; intros m [|fuel] Hf; simpl in Hf; try lia.
  { done. }
  unfold params_text. cbn [fmap list_fmap concat]. fold (params_text ps). unfold pair_text. cbn [fst snd].
  rewrite <- !app_assoc. cbn [parse_params].
  destruct (len_text (length k) ++ _) as [|c l] eqn:E; [by apply app_eq_nil in E as [?%len_text_pos _]|].
  rewrite <- E. rewrite read_len_text by done. simpl in Hk, Hv.
  replace (Z.of_nat (length k) =? 2 ^ 32 - 1)%Z with false by (symmetry; apply Z.eqb_neq; unfold len_ok in *; lia).
  rewrite read_len_text by done.
  replace (Z.of_nat (length v) =? 2 ^ 32 - 1)%Z with false by (symmetry; apply Z.eqb_neq; unfold len_ok in *; lia).
  rewrite !length_app. replace (_ <=? _)%Z with true by (symmetry; apply Z.leb_le; lia).
  rewrite !Nat2Z.id, <- drop_drop, drop_app_length, take_app_length, drop_app_length, take_app_length.
  by rewrite IH by lia.
Qed.

(** ** Records *)

(** The state without the layout of the buffers. *)
Record view := mkView {
  v_got : bool; v_keep : bool; v_input : bytes; v_stream : bytes; v_params : list (bytes * bytes)
}.
Definition view_of (c : FastCgiCodec) : view :=
  mkView (gotRequest_ c) (keepConn_ c) (content (stdin_ c)) (content (paramsStream_ c)) (params_ c).
Definition valid (c : FastCgiCodec) : Prop := buf_inv (stdin_ c) /\ buf_inv (paramsStream_ c).

(** What a record with these contents does. *)
Definition begin_effect (data : bytes) (v : view) : view :=
  if (8 <=? length data) && (of_be (take 2 data) =? kFcgiResponder)%Z
  then mkView (v_got v) (match data !! 2 with Some f => (Z_of_char f =? kFcgiKeepConn)%Z | None => false end)
         (v_input v) (v_stream v) (v_params v)
  else v.
Definition params_effect (data : bytes) (v : view) : view :=
  match data with
  | [] => match parse_params (S (length (v_stream v))) (v_stream v) (v_params v) with
          | Ok (_, l, ps) => mkView (v_got v) (v_keep v) (v_input v) l ps
          | Fault _ => v
          end
  | _ => mkView (v_got v) (v_keep v) (v_input v) (v_stream v ++ data) (v_params v)
  end.
Definition stdin_effect (data : bytes) (v : view) : view :=
  match data with
  | [] => mkView true (v_keep v) (v_input v) (v_stream v) (v_params v)
  | _ => mkView (v_got v) (v_keep v) (v_input v ++ data) (v_stream v) (v_params v)
  end.
Definition effect (type : Z) (data : bytes) (v : view) : view :=
  if (type =? kFcgiBeginRequest)%Z then begin_effect data v
  else if (type =? kFcgiParams)%Z then params_effect data v
  else if (type =? kFcgiStdin)%Z then stdin_effect data v
  else v.

Lemma be_of_be l : be_bytes (length l) (of_be l) = l.
Proof. unfold be_bytes, of_be. by rewrite <- (length_reverse l), le_bytes_of_le, reverse_involutive. Qed.

Lemma of_be_bound l : (0 <= of_be l < 256 ^ Z.of_nat (length l))%Z.
Proof. unfold of_be. rewrite <- (length_reverse l). apply of_le_bound. Qed.

(** A 16 bit field as it is read from memory. *)
Lemma net16 l : length l = 2 -> hton 2 (of_mem l) = of_be l.
Proof.
  intros Hl. rewrite <- (be_of_be l) at 1. rewrite Hl. apply of_mem_be_bytes.
  pose proof (of_be_bound l) as Hb. by rewrite Hl in Hb.
Qed.

Lemma data_cons (content : bytes) n :
  0 < n <= length content -> exists c l, take n content = c :: l.
Proof. intros Hn. destruct content as [|c l]; simpl in *; [lia|]. destruct n; [lia|]. by eexists _, _. Qed.

Lemma on_record_spec h readable content c :
  valid c -> h_length h <= readable -> h_length h <= length content ->
  exists c', on_record h readable content c = Ok c' /\ valid c'
    /\ view_of c' = effect (h_type h) (take (h_length h) content) (view_of c).
Proof.
  intros [Hi Hp] Hr Hl. unfold on_record, effect.
  destruct (Z.eqb_spec (h_type h) kFcgiBeginRequest) as [Ht|_];
    [|destruct (h_type h =? kFcgiParams)%Z; [|destruct (h_type h =? kFcgiStdin)%Z; [|by exists c]]].
  - unfold onBeginRequest, begin_effect. rewrite (proj2 (Nat.leb_le _ _) Hr), Ht. run_res. simpl Z.eqb. run_res.
    rewrite length_take, Nat.min_l by done. unfold kRecordHeader.
    destruct (8 <=? h_length h) eqn:E8; [|by exists c]. apply Nat.leb_le in E8.
    destruct (lookup_lt_is_Some_2 content 2 ltac:(lia)) as [f Hf]. rewrite Hf. run_res.
    unfold hostToNetwork16. rewrite net16 by (rewrite length_take; lia).
    rewrite take_take, Nat.min_l by lia. rewrite (lookup_take_lt content) by lia. rewrite Hf.
    case_if; by eexists.
  - unfold onParams, params_effect. destruct (Nat.ltb_spec 0 (h_length h)) as [Hn|Hn].
    + destruct (append_spec content (h_length h) (paramsStream_ c) Hp Hl) as (s & -> & Hs & Hc & _). run_res.
      eexists. split; [done|]. split; [by split|].
      destruct (data_cons content (h_length h) ltac:(lia)) as (x & y & E). rewrite E in *.
      unfold view_of. simpl. by rewrite Hc.
    + replace (h_length h) with 0 by lia. rewrite take_0. unfold parseAllParams.
      rewrite <- length_content by done.
      destruct (params_loop_spec (S (length (Buffer.content (paramsStream_ c)))) (paramsStream_ c) (params_ c) Hp)
        as (ok & l & ps & b' & E1 & -> & Hb' & Hc'); [lia|]. run_res.
      eexists. split; [done|]. split; [by split|]. unfold view_of. cbn [v_got v_keep v_input v_stream v_params]. rewrite E1. simpl. by rewrite Hc'.
  - unfold onStdin, stdin_effect. destruct (Nat.ltb_spec 0 (h_length h)) as [Hn|Hn].
    + destruct (append_spec content (h_length h) (stdin_ c) Hi Hl) as (s & -> & Hs & Hc & _). run_res.
      eexists. split; [done|]. split; [by split|].
      destruct (data_cons content (h_length h) ltac:(lia)) as (x & y & E). rewrite E in *.
      unfold view_of. simpl. by rewrite Hc.
    + replace (h_length h) with 0 by lia. rewrite take_0. by eexists.
Qed.

(** ** The codec as a decoder *)

#[export] Instance fcgi_decoder : Decoder FastCgiCodec unit := fun c l =>
  if 8 <=? length l then
    let h := header_of (take 8 l) in
    let total := 8 + h_length h + h_padding h in
    if total <=? length l then
      match on_record h (length l) (drop 8 l) c with
      | Ok c => Take c total []
      | Fault f => Fail f
      end
    else Wait
  else Wait.

Lemma fcgi_implements : implements parseRequest_body valid.
Proof.
  intros c b Hc Hb. unfold parseRequest_body, decode, fcgi_decoder. rewrite length_content by done.
  unfold kRecordHeader. destruct (8 <=? readableBytes b) eqn:E8; [|done]. apply Nat.leb_le in E8.
  rewrite range_prefix by done. set (h := header_of _).
  set (total := 8 + h_length h + h_padding h).
  destruct (total <=? readableBytes b) eqn:Et; [|done]. apply Nat.leb_le in Et.
  replace (range b (peek b + 8) (beginWrite b)) with (drop 8 (content b)).
  2: { unfold content. rewrite (range_app b (peek b) (peek b + 8) (beginWrite b)).
       - rewrite drop_app_length'; [done|]. rewrite range_prefix, length_take, length_content by done. lia.
       - unfold readableBytes, peek, beginWrite in *. lia. }
  destruct (on_record_spec h (readableBytes b) (drop 8 (content b)) c Hc) as (c' & -> & _);
    [lia | rewrite length_drop, length_content by done; lia |]. run_res.
  destruct (retrieve_spec total b Hb Et) as (b' & -> & Hb' & Hc'). run_res. by exists b'.
Qed.

Lemma decode_whole c l s' n out :
  valid c -> decode c l = Take s' n out ->
  8 <= length l /\ n = 8 + h_length (header_of (take 8 l)) + h_padding (header_of (take 8 l)) /\ n <= length l
  /\ out = [] /\ valid s'
  /\ on_record (header_of (take 8 l)) (length l) (drop 8 l) c = Ok s'.
Proof.
  intros Hc. unfold decode, fcgi_decoder. case_if; [|done]. case_if; [|done].
  destruct (on_record _ _ _ c) as [c'|] eqn:E; [|done]. intros [= <- <- <-].
  split_and!; try done. 
  destruct (on_record_spec (header_of (take 8 l)) (length l) (drop 8 l) c Hc) as (c2 & E2 & Hv & _);
    [lia | rewrite length_drop; lia |]. congruence.
Qed.

Lemma append_longer (d e : bytes) n b : n <= length d -> append (d ++ e) n b = append d n b.
Proof.
  intros Hn. unfold append. destruct (room_for n b) as [b'|]; [|done]. run_res.
  rewrite length_app, take_app_le by done.
  by rewrite !(proj2 (Nat.leb_le _ _)) by lia.
Qed.

(** What follows a record does not matter. *)
Lemma on_record_app h readable readable' content d c :
  h_length h <= readable -> h_length h <= readable' -> h_length h <= length content ->
  on_record h readable' (content ++ d) c = on_record h readable content c.
Proof.
  intros Hr Hr' Hl. unfold on_record.
  destruct (h_type h =? kFcgiBeginRequest)%Z; [|destruct (h_type h =? kFcgiParams)%Z;
    [|destruct (h_type h =? kFcgiStdin)%Z; [|done]]].
  - unfold onBeginRequest. rewrite !(proj2 (Nat.leb_le (h_length h) _)) by done. run_res.
    destruct (assert_ _); [|done]. run_res. unfold kRecordHeader.
    destruct (8 <=? h_length h) eqn:E8; [|done]. apply Nat.leb_le in E8.
    by rewrite take_app_le, lookup_app_l by lia.
  - unfold onParams. case_if; [|done]. by rewrite append_longer by done.
  - unfold onStdin. case_if; [|done]. by rewrite append_longer by done.
Qed.

#[export] Instance fcgi_laws : DecoderLaws valid.
Proof.
  split.
  - intros c l s' n out Hc E. apply decode_whole in E; [|done]. destruct E as (? & -> & ? & ? & ? & ?). split; [done | lia].
  - intros c l s' n out Hc. unfold decode, fcgi_decoder. repeat case_if; try done. by destruct (on_record _ _ _ c).
  - done.
  - intros c l f Hc. unfold decode, fcgi_decoder. case_if; [|done]. case_if; [|done].
    destruct (on_record_spec (header_of (take 8 l)) (length l) (drop 8 l) c Hc) as (c2 & -> & _);
      [lia | rewrite length_drop; lia | done].
  - intros c l d s' n out Hc E. left. apply decode_whole in E as (H8 & -> & Hn & -> & _ & E); [|done].
    unfold decode, fcgi_decoder. rewrite length_app, take_app_le, drop_app_le by lia.
    rewrite !(proj2 (Nat.leb_le _ _)) by lia.
    rewrite (on_record_app _ (length l)), E by (rewrite ?length_drop; lia). done.
Qed.

(** ** Every input is survived *)

Fixpoint fcgi_reads (c : FastCgiCodec) (b : Buffer) (reads : list bytes) :
    res (FastCgiCodec * list fcgi_event * Buffer) :=
  match reads with
  | [] => Ok (c, [], b)
  | d :: reads =>
      b ← append_str d b;
      '(c, events, b) ← fcgi_onMessage c b;
      '(c, events', b) ← fcgi_reads c b reads;
      Ok (c, events ++ events', b)
  end.

Lemma run_never_fails c l : valid c -> exists c' l', run_all c l = Ok (c', l', [], Waiting).
Proof.
  revert c l. apply (run_ind valid). intros c l Hc IH. destruct (decode c l) as [|s n o|s n o|f] eqn:E.
  - unfold run_all. cbn [run]. rewrite E. by eexists _, _.
  - rewrite (run_take valid c l s n o) by done. destruct (IH _ _ _ eq_refl) as (c' & l' & ->). run_res.
    apply decode_whole in E as (_ & _ & _ & -> & _); [|done]. by eexists _, _.
  - unfold decode, fcgi_decoder in E. revert E. repeat case_if; try done. by destruct (on_record _ _ _ c).
  - unfold decode, fcgi_decoder in E. revert E. case_if; [|done]. case_if; [|done].
    destruct (on_record_spec (header_of (take 8 l)) (length l) (drop 8 l) c Hc) as (c2 & -> & _);
      [lia | rewrite length_drop; lia | done].
Qed.

Lemma onMessage_runs c b :
  valid c -> buf_inv b -> exists c1 b1, run_all c (content b) = Ok (c1, content b1, [], Waiting)
    /\ valid c1 /\ buf_inv b1
    /\ fcgi_onMessage c b = if gotRequest_ c1 then
         Ok (mkCodec false (keepConn_ c1) (retrieveAll (stdin_ c1)) (retrieveAll (paramsStream_ c1)) [],
             FcgiRequest (params_ c1) (content (stdin_ c1)) :: (if keepConn_ c1 then [] else [FcgiShutdown]), b1)
       else Ok (c1, [], b1).
Proof.
  intros Hc Hb. destruct (run_never_fails c (content b) Hc) as (c1 & l1 & E).
  pose proof (handler_runs parseRequest_body valid fcgi_implements c b Hc Hb) as Hr. rewrite E in Hr.
  destruct Hr as (b1 & Eh & Hb1 & <-). exists c1, b1. split; [done|]. split; [by eapply (run_valid valid) in E|]. split; [done|].
  unfold fcgi_onMessage, parseRequest. rewrite Eh. run_res. by destruct (gotRequest_ c1).
Qed.

(** No input can make the FastCGI codec fail: whatever bytes arrive and
    however they are cut into reads, no assertion fails, nothing outside the
    buffers is read, and every loop ends. *)
Theorem fcgi_survives c b reads :
  valid c -> buf_inv b -> exists c' events b', fcgi_reads c b reads = Ok (c', events, b') /\ valid c' /\ buf_inv b'.
Proof.
  revert c b; induction reads as [|d reads IH]; intros c b Hc Hb; cbn [fcgi_reads]; [by eexists _, _, _|].
  destruct (append_str_spec d b Hb) as (b0 & -> & Hb0 & _). run_res.
  destruct (onMessage_runs c b0 Hc Hb0) as (c1 & b1 & _ & [Hi Hp] & Hb1 & ->).
  destruct (gotRequest_ c1); run_res.
  - destruct (IH (mkCodec false (keepConn_ c1) (retrieveAll (stdin_ c1)) (retrieveAll (paramsStream_ c1)) []) b1)
      as (c' & ev & b' & -> & ? & ?); [split; by apply retrieveAll_inv | done |]. run_res. by eexists _, _, _.
  - destruct (IH c1 b1) as (c' & ev & b' & -> & ? & ?); [done..|]. run_res. by eexists _, _, _.
Qed.

(** ** Requests *)

(** A record: its type, request id, contents and padding. *)
Record frecord := mkRecord { r_type : Z; r_id : Z; r_data : bytes; r_pad : bytes }.

Definition record_ok (r : frecord) : Prop :=
  (0 <= r_type r < 256)%Z /\ (Z.of_nat (length (r_data r)) < 2 ^ 16)%Z /\ (Z.of_nat (length (r_pad r)) < 256)%Z.

(** The record as it is sent. *)
Definition record_head (r : frecord) : bytes :=
  [char_of_Z 1; char_of_Z (r_type r)] ++ be_bytes 2 (r_id r) ++ be_bytes 2 (Z.of_nat (length (r_data r)))
  ++ [char_of_Z (Z.of_nat (length (r_pad r))); nul].
Definition record_text (r : frecord) : bytes := record_head r ++ r_data r ++ r_pad r.

Lemma length_record_head r : length (record_head r) = 8.
Proof. unfold record_head. rewrite !length_app, !length_be_bytes. done. Qed.

Lemma header_of_head r :
  record_ok r -> h_type (header_of (record_head r)) = r_type r
    /\ h_length (header_of (record_head r)) = length (r_data r)
    /\ h_padding (header_of (record_head r)) = length (r_pad r).
Proof.
  intros (Ht & Hl & Hp). unfold header_of, record_head.
  destruct (be_bytes 2 (r_id r)) as [|i1 [|i2 []]] eqn:Ei; try (by pose proof (length_be_bytes 2 (r_id r)); rewrite Ei in *).
  destruct (be_bytes 2 (Z.of_nat (length (r_data r)))) as [|l1 [|l2 []]] eqn:El;
    try (by pose proof (length_be_bytes 2 (Z.of_nat (length (r_data r)))); rewrite El in *).
  cbn [h_type h_length h_padding app lookup list_lookup drop take]. rewrite !Z_of_char_of_Z, !Z.mod_small by lia.
  split; [done|]. split; [|lia]. unfold hostToNetwork16. rewrite net16 by done.
  rewrite <- El, of_be_be_bytes, Z.mod_small by lia. lia.
Qed.

Lemma length_record r : length (record_text r) = 8 + length (r_data r) + length (r_pad r).
Proof. unfold record_text. rewrite !length_app, length_record_head. lia. Qed.

Lemma decode_record r rest c :
  valid c -> record_ok r ->
  exists c', decode c (record_text r ++ rest) = Take c' (length (record_text r)) [] /\ valid c'
    /\ view_of c' = effect (r_type r) (r_data r) (view_of c).
Proof.
  intros Hc Hr. destruct (header_of_head r Hr) as (Et & El & Ep). unfold decode, fcgi_decoder.
  assert (Hhead : take 8 (record_text r ++ rest) = record_head r).
  { unfold record_text. rewrite <- app_assoc. apply take_app_length'. by rewrite length_record_head. }
  assert (Hdrop : drop 8 (record_text r ++ rest) = (r_data r ++ r_pad r) ++ rest).
  { unfold record_text. rewrite <- !app_assoc. rewrite drop_app_length' by (by rewrite length_record_head). done. }
  rewrite Hhead, Hdrop, length_app, length_record, El, Ep.
  rewrite !(proj2 (Nat.leb_le _ _)) by lia.
  destruct (on_record_spec (header_of (record_head r)) (8 + length (r_data r) + length (r_pad r) + length rest)
    ((r_data r ++ r_pad r) ++ rest) c Hc) as (c' & -> & Hc' & Ev); [lia | rewrite El, !length_app; lia|].
  exists c'. split; [done|]. split; [done|]. rewrite Ev, El, Et. f_equal.
  rewrite <- app_assoc. apply take_app_length.
Qed.

(** A record that has not arrived completely. *)
Lemma decode_partial r rest l more c :
  record_ok r -> l ++ more = record_text r ++ rest -> length l < length (record_text r) -> decode c l = Wait.
Proof.
  intros Hr E Hl. unfold decode, fcgi_decoder. case_if; [|done].
  assert (Hhead : take 8 l = record_head r).
  { rewrite <- (take_app_le l more) by done. rewrite E. unfold record_text. rewrite <- app_assoc.
    apply take_app_length'. by rewrite length_record_head. }
  destruct (header_of_head r Hr) as (_ & El & Ep). rewrite Hhead, El, Ep.
  rewrite length_record in Hl. by rewrite (proj2 (Nat.leb_gt _ _)) by lia.
Qed.

Definition effects (rs : list frecord) (v : view) : view := foldl (fun v r => effect (r_type r) (r_data r) v) v rs.
Definition texts (rs : list frecord) : bytes := concat (record_text <$> rs).

(** The loop on the first part of some records takes those that are
    complete. *)
Lemma run_records rs c l rest :
  valid c -> Forall record_ok rs -> l ++ rest = texts rs ->
  exists rs1 rs2 c1 l1, rs = rs1 ++ rs2 /\ run_all c l = Ok (c1, l1, [], Waiting) /\ valid c1
    /\ view_of c1 = effects rs1 (view_of c) /\ l1 ++ rest = texts rs2 /\ (rest = [] -> rs2 = []).
Proof.
  intros Hc Hrs. revert c l Hc; induction Hrs as [|r rs Hr Hrs IH]; intros c l Hc E.
  - apply app_eq_nil in E as [-> ->]. by exists [], [], c, [].
  - unfold texts in E. cbn [fmap list_fmap concat] in E. fold (texts rs) in E.
    destruct (Nat.lt_ge_cases (length l) (length (record_text r))) as [Hlt|Hge].
    + exists [], (r :: rs), c, l. split; [done|]. split; [|split; [done|]; split; [done|]; split; [done|]].
      * unfold run_all. cbn [run]. by rewrite (decode_partial r (texts rs) l rest c Hr E Hlt).
      * intros ->. rewrite app_nil_r in E. rewrite E, length_app in Hlt. lia.
    + assert (Hl : l = record_text r ++ drop (length (record_text r)) l).
      { rewrite <- (take_drop (length (record_text r)) l) at 1. f_equal.
        rewrite <- (take_app_le l rest) by done. rewrite E. apply take_app_length. }
      destruct (decode_record r (drop (length (record_text r)) l) c Hc Hr) as (c1 & Ed & Hc1 & Ev).
      rewrite <- Hl in Ed.
      assert (E' : drop (length (record_text r)) l ++ rest = texts rs).
      { rewrite <- drop_app_le by done. by rewrite E, drop_app_length. }
      destruct (IH c1 _ Hc1 E') as (rs1 & rs2 & c2 & l2 & -> & Er & Hc2 & Ev2 & E2 & Hlast).
      exists (r :: rs1), rs2, c2, l2. split; [done|]. rewrite (run_take valid c l c1 _ [] Hc Ed), Er. run_res.
      split_and!; try done. by rewrite Ev2, Ev.
Qed.

Definition ends (r : frecord) : bool := (r_type r =? kFcgiStdin)%Z && (length (r_data r) =? 0).

Lemma effect_got r v : ends r = false -> v_got (effect (r_type r) (r_data r) v) = v_got v.
Proof.
  unfold ends, effect. intros He. destruct (r_type r =? kFcgiBeginRequest)%Z; [|destruct (r_type r =? kFcgiParams)%Z;
    [|destruct (r_type r =? kFcgiStdin)%Z; [|done]]].
  - unfold begin_effect. by case_if.
  - unfold params_effect. destruct (r_data r); [|done]. by destruct (parse_params _ _ _) as [[[? ?] ?]|].
  - unfold stdin_effect. by destruct (r_data r).
Qed.

Lemma effects_got rs v : Forall (fun r => ends r = false) rs -> v_got (effects rs v) = v_got v.
Proof.
  intros Hrs. revert v; induction Hrs as [|r rs Hr _ IH]; intros v; [done|].
  unfold effects. simpl. fold (effects rs (effect (r_type r) (r_data r) v)). by rewrite IH, effect_got.
Qed.

(** Between two requests. *)
Definition resting (c : FastCgiCodec) : Prop :=
  valid c /\ gotRequest_ c = false /\ content (stdin_ c) = [] /\ content (paramsStream_ c) = [] /\ params_ c = [].

(** Empty reads change nothing. *)
Lemma reads_empty reads c b :
  resting c -> buf_inv b -> content b = [] -> concat reads = [] ->
  exists b', fcgi_reads c b reads = Ok (c, [], b') /\ buf_inv b' /\ content b' = [].
Proof.
  intros Hrest. pose proof Hrest as (Hc & Hg & _). revert b; induction reads as [|d reads IH]; intros b Hb Hb0 Hr; cbn [fcgi_reads].
  - by exists b.
  - simpl in Hr. apply app_eq_nil in Hr as [-> Hr].
    destruct (append_str_spec [] b Hb) as (b1 & -> & Hb1 & Hc1 & _). run_res. rewrite Hb0 in Hc1. simpl in Hc1.
    destruct (onMessage_runs c b1 Hc Hb1) as (c2 & b2 & Er & Hc2 & Hb2 & ->). rewrite Hc1 in Er.
    unfold run_all in Er. cbn [run length] in Er. unfold decode, fcgi_decoder in Er. simpl in Er.
    injection Er as <- Hb20. rewrite Hg. run_res.
    destruct (IH b2) as (b' & -> & ? & ?); [done..|]. run_res. by eexists.
Qed.

(** Reads of a request whose last record ends it. *)
Lemma reads_request reads c b rs last :
  valid c -> buf_inv b -> Forall record_ok rs -> record_ok last ->
  Forall (fun r => ends r = false) rs -> ends last = true -> gotRequest_ c = false ->
  content b ++ concat reads = texts (rs ++ [last]) -> decode c (content b) = Wait ->
  let v := effects (rs ++ [last]) (view_of c) in
  exists c' b', fcgi_reads c b reads
    = Ok (c', FcgiRequest (v_params v) (v_input v) :: (if v_keep v then [] else [FcgiShutdown]), b')
    /\ buf_inv b' /\ content b' = [] /\ resting c'.
Proof.
  revert c b rs; induction reads as [|d reads IH]; intros c b rs Hc Hb Hrs Hlast Hn Hend Hg E Hw v.
  - exfalso. cbn [concat] in E. destruct rs as [|r rs].
    + destruct (decode_record last [] c Hc Hlast) as (c1 & Ed & _).
      rewrite app_nil_r in E. change (texts ([] ++ [last])) with (record_text last ++ []) in E.
      rewrite E in Hw. congruence.
    + inversion Hrs as [|? ? Hr _]; subst. destruct (decode_record r (texts (rs ++ [last])) c Hc Hr) as (c1 & Ed & _).
      rewrite app_nil_r in E. change (texts ((r :: rs) ++ [last])) with (record_text r ++ texts (rs ++ [last])) in E.
      rewrite E in Hw. congruence.
  - cbn [fcgi_reads]. destruct (append_str_spec d b Hb) as (b0 & -> & Hb0 & Hc0 & _). run_res.
    cbn [concat] in E. rewrite app_assoc, <- Hc0 in E.
    destruct (run_records (rs ++ [last]) c (content b0) (concat reads) Hc) as
      (rs1 & rs2 & c1 & l1 & Ers & Er & Hc1 & Ev & E1 & Hdone); [by apply Forall_app; split; [|constructor] | done|].
    destruct (onMessage_runs c b0 Hc Hb0) as (c2 & b2 & Er2 & _ & Hb2 & ->).
    rewrite Er in Er2. injection Er2 as <- ->.
    destruct (decide (rs2 = [])) as [->|Hne].
    + rewrite app_nil_r in Ers. subst rs1. apply app_eq_nil in E1 as [El1 Erest].
      assert (Hgot : gotRequest_ c1 = true /\ params_ c1 = v_params v /\ keepConn_ c1 = v_keep v
                     /\ content (stdin_ c1) = v_input v).
      { unfold v. rewrite <- Ev. split; [|done]. change (gotRequest_ c1) with (v_got (view_of c1)). rewrite Ev.
        unfold effects. rewrite foldl_app. simpl. unfold ends in Hend. apply andb_true_iff in Hend as [Ht Hd].
        apply Z.eqb_eq in Ht. apply Nat.eqb_eq, nil_length_inv in Hd. by rewrite Ht, Hd. }
      destruct Hgot as (-> & -> & -> & ->). run_res.
      set (c' := mkCodec false (v_keep v) (retrieveAll (stdin_ c1)) (retrieveAll (paramsStream_ c1)) []).
      assert (Hr : resting c') by (split; [split; by apply retrieveAll_inv, Hc1 | done]).
      destruct (reads_empty reads c' b2 Hr Hb2 El1 Erest) as (b' & -> & Hb' & Hb0'). run_res.
      exists c', b'. by rewrite app_nil_r.
    + destruct rs2 as [|r rs3 _] using rev_ind; [done|].
      rewrite app_assoc in Ers. apply app_inj_tail in Ers as [-> ->].
      apply Forall_app in Hrs as [Hrs1 Hrs3]. apply Forall_app in Hn as [Hn1 Hn3].
      assert (Hg1 : gotRequest_ c1 = false).
      { change (gotRequest_ c1) with (v_got (view_of c1)). rewrite Ev, effects_got by done. exact Hg. }
      rewrite Hg1. run_res.
      destruct (IH c1 b2 rs3) as (c' & b' & -> & Hb' & Hb0' & Hg'); try done; try (by eapply (run_rest valid) in Er).
      run_res. exists c', b'. split; [|done]. do 2 f_equal. unfold v. rewrite Ev. unfold effects.
      rewrite <- !foldl_app, app_assoc. done.
Qed.

(** A request of a web server to a responder: the flags, the parameters and
    the standard input in as many records as it likes. *)
Definition begin_data (flags : Z) : bytes := be_bytes 2 kFcgiResponder ++ [char_of_Z flags] ++ replicate 5 nul.
Definition request_head (begin : frecord) (pcs : list frecord) (pend : frecord) (ics : list frecord) : list frecord :=
  begin :: pcs ++ pend :: ics.

Lemma effects_params pcs v :
  Forall (fun r => r_type r = kFcgiParams /\ r_data r <> []) pcs ->
  effects pcs v = mkView (v_got v) (v_keep v) (v_input v) (v_stream v ++ concat (r_data <$> pcs)) (v_params v).
Proof.
  intros Hp. revert v; induction Hp as [|r pcs [Ht Hd] _ IH]; intros v; [simpl; rewrite app_nil_r; by destruct v|].
  change (effects (r :: pcs) v) with (effects pcs (effect (r_type r) (r_data r) v)). rewrite IH, Ht.
  unfold effect. simpl. unfold params_effect. destruct (r_data r); [done|]. simpl. by rewrite <- app_assoc.
Qed.

Lemma effects_stdin ics v :
  Forall (fun r => r_type r = kFcgiStdin /\ r_data r <> []) ics ->
  effects ics v = mkView (v_got v) (v_keep v) (v_input v ++ concat (r_data <$> ics)) (v_stream v) (v_params v).
Proof.
  intros Hp. revert v; induction Hp as [|r ics [Ht Hd] _ IH]; intros v; [simpl; rewrite app_nil_r; by destruct v|].
  change (effects (r :: ics) v) with (effects ics (effect (r_type r) (r_data r) v)). rewrite IH, Ht.
  unfold effect. simpl. unfold stdin_effect. destruct (r_data r); [done|]. simpl. by rewrite <- app_assoc.
Qed.

Lemma begin_flags flags v :
  (0 <= flags < 256)%Z ->
  begin_effect (begin_data flags) v = mkView (v_got v) (flags =? 1)%Z (v_input v) (v_stream v) (v_params v).
Proof.
  intros Hf. transitivity (mkView (v_got v) (Z_of_char (char_of_Z flags) =? kFcgiKeepConn)%Z
    (v_input v) (v_stream v) (v_params v)); [reflexivity|].
  by rewrite Z_of_char_of_Z, Z.mod_small.
Qed.

Lemma params_text_length ps : length ps <= length (params_text ps).
Proof.
  induction ps as [|p ps IH]; [done|]. unfold params_text in *. cbn [fmap list_fmap concat length].
  unfold pair_text at 1. rewrite !length_app. pose proof (len_text_pos (length p.1)).
  destruct (len_text (length p.1)); [done|]. simpl. lia.
Qed.

(** C27: A FastCGI request, however the server splits its parameters and its
    input into records, pads them, and however the stream is cut into reads,
    calls the callback once, with exactly the parameters and the input that
    were sent; the connection is shut down unless it is to be kept; and the
    codec is ready for the next request. *)
Theorem fcgi_request c b reads flags begin pcs pend ics last ps :
  resting c -> buf_inv b -> content b = [] ->
  Forall record_ok (request_head begin pcs pend ics ++ [last]) ->
  r_type begin = kFcgiBeginRequest -> r_data begin = begin_data flags -> (0 <= flags < 256)%Z ->
  Forall (fun r => r_type r = kFcgiParams /\ r_data r <> []) pcs ->
  r_type pend = kFcgiParams -> r_data pend = [] ->
  Forall (fun r => r_type r = kFcgiStdin /\ r_data r <> []) ics ->
  r_type last = kFcgiStdin -> r_data last = [] ->
  Forall (fun p => len_ok (length p.1) /\ len_ok (length p.2)) ps -> concat (r_data <$> pcs) = params_text ps ->
  concat reads = texts (request_head begin pcs pend ics ++ [last]) ->
  exists c' b', fcgi_reads c b reads
    = Ok (c', FcgiRequest (foldl (fun m p => map_set p.1 p.2 m) [] ps) (concat (r_data <$> ics))
              :: (if (flags =? 1)%Z then [] else [FcgiShutdown]), b')
    /\ buf_inv b' /\ content b' = [] /\ resting c'.
Proof.
  intros (Hc & Hg & Hi & Hs & Hp) Hb Hb0 Hok Ebt Ebd Hfl Hpcs Ept Epd Hics Elt Eld Hps Eps E.
  apply Forall_app in Hok as [Hok Hlast]. inversion Hlast as [|? ? Hlast' _]; subst.
  destruct (reads_request reads c b (request_head begin pcs pend ics) last) as (c' & b' & Er & Hrest); try done.
  - unfold request_head. apply Forall_cons. split; [unfold ends; by rewrite Ebt|].
    apply Forall_app. split; [|apply Forall_cons; split; [unfold ends; by rewrite Ept|]].
    + eapply Forall_impl; [exact Hpcs|]. intros r [Ht _]. unfold ends. by rewrite Ht.
    + eapply Forall_impl; [exact Hics|]. intros r [Ht Hd]. unfold ends. rewrite Ht. simpl. by destruct (r_data r).
  - unfold ends. by rewrite Elt, Eld.
  - by rewrite Hb0.
  - by rewrite Hb0.
  - exists c', b'. split; [|done]. rewrite Er. clear Er.
    assert (Ev : effects (request_head begin pcs pend ics ++ [last]) (view_of c)
      = mkView true (flags =? 1)%Z (concat (r_data <$> ics)) []
          (foldl (fun m p => map_set p.1 p.2 m) [] ps)); [|by rewrite Ev].
    unfold effects, request_head. cbn [app]. rewrite <- app_assoc. cbn [foldl app].
    rewrite foldl_app. fold (effects pcs (effect (r_type begin) (r_data begin) (view_of c))).
    rewrite effects_params by done. cbn [foldl app]. rewrite foldl_app.
    unfold view_of. rewrite Hg, Hi, Hs, Hp, Ebt, Ebd, Ept, Epd.
    change (effect kFcgiBeginRequest (begin_data flags) ?v) with (begin_effect (begin_data flags) v).
    rewrite begin_flags by done. cbn [v_got v_keep v_input v_stream v_params app]. rewrite Eps.
    change (effect kFcgiParams [] ?v) with (params_effect [] v). unfold params_effect.
    cbn [v_got v_keep v_input v_stream v_params].
    rewrite parse_params_text by (done || (pose proof (params_text_length ps); lia)).
    match goal with |- context [foldl ?f ?a ics] => change (foldl f a ics) with (effects ics a) end.
    rewrite effects_stdin by done. cbn [foldl v_got v_keep v_input v_stream v_params app]. by rewrite Elt, Eld.
Qed.

(** ** Responses *)

Definition stdout_record (data : bytes) : frecord :=
  mkRecord kFcgiStdout 1 data (replicate (Z.to_nat (Z.land (- Z.of_nat (length data)) 7)) nul).

Lemma header_image_text type data pad :
  (Z.of_nat (length data) < 2 ^ 16)%Z ->
  header_image type (hostToNetwork16 (wrapU 16 (Z.of_nat (length data)))) (Z.of_nat (length pad))
  = record_head (mkRecord type 1 data pad).
Proof.
  intros Hd. unfold header_image, record_head, hostToNetwork16. cbn [r_type r_id r_data r_pad].
  rewrite !to_mem_hton. by rewrite wrapU_small by lia.
Qed.

(** What [respond] leaves in the buffer: the output in a padded record and
    the record that ends it, as the protocol asks, but then eight zero bytes
    where an END_REQUEST record should be, since its header is never
    appended; a peer that decodes records finds one of type 0 there. *)
Theorem respond_unfinished b :
  buf_inv b -> (Z.of_nat (readableBytes b) < 65536)%Z -> 8 <= prependableBytes b ->
  exists b', respond b = Ok b' /\ buf_inv b'
    /\ content b' = texts [stdout_record (content b); stdout_record []] ++ replicate 8 nul
    /\ h_type (header_of (replicate 8 nul)) <> kFcgiEndRequest.
Proof.
  intros Hb Hn Hp. unfold respond, kRecordHeader.
  replace ((Z.of_nat (readableBytes b) <? 65536)%Z && (8 <=? prependableBytes b)) with true
    by (symmetry; apply andb_true_iff; split; [by apply Z.ltb_lt | by apply Nat.leb_le]).
  set (pad := Z.to_nat (Z.land (- Z.of_nat (length (content b))) 7)).
  assert (Hland : (0 <= Z.land (- Z.of_nat (readableBytes b)) 7 < 8)%Z).
  { change 7%Z with (2 ^ 3 - 1)%Z. rewrite land_ones_mod by lia. apply Z.mod_pos_bound. lia. }
  assert (Epad : Z.land (- Z.of_nat (readableBytes b)) 7 = Z.of_nat (length (replicate pad nul))).
  { rewrite length_replicate. unfold pad. rewrite length_content by done. lia. }
  assert (Eimg : header_image kFcgiStdout (hostToNetwork16 (wrapU 16 (Z.of_nat (readableBytes b))))
      (Z.land (- Z.of_nat (readableBytes b)) 7)
    = record_head (mkRecord kFcgiStdout 1 (content b) (replicate pad nul))).
  { rewrite Epad, <- (length_content b Hb). apply header_image_text. by rewrite length_content. }
  rewrite Eimg, Epad, length_replicate, Nat2Z.id.
  assert (Hpad : pad < 8) by (unfold pad; rewrite length_content by done; lia).
  assert (Hhead : length (record_head (mkRecord kFcgiStdout 1 (content b) (replicate pad nul))) = 8)
    by apply length_record_head.
  destruct (prepend_spec (record_head (mkRecord kFcgiStdout 1 (content b) (replicate pad nul))) b Hb)
    as (b1 & E1 & Hb1 & Hc1 & _); [by rewrite Hhead|]. rewrite Hhead in E1. rewrite E1. run_res.
  destruct (append_spec (replicate 8 nul) pad b1 Hb1) as (b2 & -> & Hb2 & Hc2 & _);
    [rewrite length_replicate; lia|]. run_res.
  unfold endStdout, endRequest, appendInt32, kRecordHeader. rewrite image32.
  destruct (append_image 8 (header_image kFcgiStdout 0 0) b2 Hb2) as (b3 & -> & Hb3 & Hc3);
    [unfold header_image; rewrite !length_app, !length_to_mem; done|]. run_res.
  destruct (append_image 4 (be_bytes 4 0) b3 Hb3 ltac:(by rewrite length_be_bytes)) as (b4 & -> & Hb4 & Hc4). run_res.
  destruct (append_image 4 (be_bytes 4 0) b4 Hb4 ltac:(by rewrite length_be_bytes)) as (b5 & -> & Hb5 & Hc5).
  exists b5. split; [done|]. split; [done|]. split; [|by vm_compute].
  assert (Ez : header_image kFcgiStdout 0 0 = record_text (stdout_record [])).
  { change (record_text (stdout_record [])) with (record_head (mkRecord kFcgiStdout 1 [] [])).
    rewrite <- header_image_text by (simpl; lia). f_equal.
    unfold hostToNetwork16, hton. by destruct bigendian. }
  rewrite Hc5, Hc4, Hc3, Hc2, Hc1, Ez. unfold texts. cbn [fmap list_fmap concat]. rewrite app_nil_r.
  change (record_text (stdout_record (content b))) with (record_head (mkRecord kFcgiStdout 1 (content b)
    (replicate pad nul)) ++ content b ++ replicate pad nul).
  replace (take pad (replicate 8 nul)) with (replicate pad nul)
    by (rewrite take_replicate; f_equal; lia).
  rewrite <- !app_assoc. done.
Qed.
End FastCgiFacts.

Lemma fcgi_survives_witness :
  valid new_FastCgiCodec /\ buf_inv (new_Buffer 16)
  /\ exists c' events b', @fcgi_reads linux new_FastCgiCodec (new_Buffer 16)
       [str "garbage"; replicate 20 (char_of_Z 4); [char_of_Z 255]] = Ok (c', events, b').
Proof.
  assert (Hc : valid new_FastCgiCodec) by (split; apply new_Buffer_inv).
  assert (Hb : buf_inv (new_Buffer 16)) by apply new_Buffer_inv.
  split; [exact Hc|]. split; [exact Hb|].
  destruct (@fcgi_survives linux new_FastCgiCodec (new_Buffer 16)
    [str "garbage"; replicate 20 (char_of_Z 4); [char_of_Z 255]] Hc Hb) as (c' & ev & b' & E & _).
  exists c', ev, b'. exact E.
Defined.

(** A request with one parameter and some input, read byte by pair. *)
Definition demo_begin : frecord := mkRecord kFcgiBeginRequest 1 (begin_data 0) [].
Definition demo_params : list frecord := [mkRecord kFcgiParams 1 (params_text [(str "k", str "v")]) (replicate 4 nul)].
Definition demo_input : list frecord := [mkRecord kFcgiStdin 1 (str "abc") [nul]].
Definition demo_last : frecord := mkRecord kFcgiStdin 1 [] [].
Definition demo_pend : frecord := mkRecord kFcgiParams 1 [] [].
Definition demo_bytes : bytes := texts (request_head demo_begin demo_params demo_pend demo_input ++ [demo_last]).

Lemma fcgi_request_witness :
  exists c' b', @fcgi_reads linux new_FastCgiCodec (new_Buffer 16) [take 11 demo_bytes; drop 11 demo_bytes]
    = Ok (c', [FcgiRequest [(str "k", str "v")] (str "abc"); FcgiShutdown], b').
Proof.
  destruct (@fcgi_request linux new_FastCgiCodec (new_Buffer 16) [take 11 demo_bytes; drop 11 demo_bytes] 0
    demo_begin demo_params demo_pend demo_input demo_last [(str "k", str "v")]) as (c' & b' & E & _).
  - split; [split; apply new_Buffer_inv | repeat split].
  - apply new_Buffer_inv.
  - reflexivity.
  - unfold record_ok. repeat constructor; vm_compute; (reflexivity || discriminate).
  - reflexivity.
  - reflexivity.
  - lia.
  - repeat constructor. vm_compute. discriminate.
  - reflexivity.
  - reflexivity.
  - repeat constructor. vm_compute. discriminate.
  - reflexivity.
  - reflexivity.
  - unfold len_ok. repeat constructor; vm_compute; reflexivity.
  - vm_compute. reflexivity.
  - vm_compute. reflexivity.
  - exists c', b'. exact E.
Defined.

Lemma respond_unfinished_witness :
  exists b', @respond linux (new_Buffer 16) = Ok b'
    /\ content b' = texts [stdout_record []; stdout_record []] ++ replicate 8 nul.
Proof.
  destruct (@respond_unfinished linux (new_Buffer 16)) as (b' & E & _ & H & _).
  - apply new_Buffer_inv.
  - vm_compute. reflexivity.
  - vm_compute. lia.
  - exists b'. split; [exact E | exact H].
Defined.
