(* ===== verification/PubSub.v ===== *)
(** * Publish and subscribe: [src/msexamples/hub/codec.h], [codec.cpp],
    [hub.cpp], [pubsub.h], [pubsub.cpp]

    The hub keeps topics with their audiences and, in the context of each
    connection, the topics it subscribed; clients format commands and parse
    what the hub sends. *)
From S2P Require Import Prelude.
From S2P Require Import Buffer.
From S2P Require Import Timestamp.
From S2P Require Import Decoder.

#[export] Instance ascii_countable : Countable Ascii.ascii :=
  inj_countable' N_of_ascii ascii_of_N ascii_N_embedding.

(** ** The codec *)
Inductive ParseResult := kError | kSuccess | kContinue.

Definition space : Ascii.ascii := " "%char.

(** [parseMessage]: the result, the command, the topic, the content, and the
    buffer. *)
Definition parseMessage (buf : Buffer) : res (ParseResult * bytes * bytes * bytes * Buffer) :=
  match findCRLF buf with
  | Some crlf =>
      let line := range buf (peek buf) crlf in
      match find_char space line with
      | Some i =>
          let cmd := take i line in
          let topic := drop (S i) line in
          if bool_decide (cmd = str "pub") then
            let start := crlf + 2 in
            found ← findCRLF_from start buf;
            match found with
            | Some crlf =>
                let content := range buf start crlf in
                buf ← retrieveUntil (crlf + 2) buf;
                Ok (kSuccess, cmd, topic, content, buf)
            | None => Ok (kContinue, cmd, topic, [], buf)
            end
          else
            buf ← retrieveUntil (crlf + 2) buf;
            Ok (kSuccess, cmd, topic, [], buf)
      | None => Ok (kError, [], [], [], buf)
      end
  | None => Ok (kContinue, [], [], [], buf)
  end.

(** ** The hub *)

(** Connections are their addresses; a set of them is walked in the order of
    [elements]. *)
Definition conn := positive.

Record Topic := mkTopic { topic_ : bytes; content_ : bytes; lastPubTime_ : Timestamp; audiences_ : gset conn }.

Definition new_Topic (topic : bytes) : Topic := mkTopic topic [] invalid ∅.

Definition makeMessage (t : Topic) : bytes := str "pub " ++ topic_ t ++ kCRLF ++ content_ t ++ kCRLF.

(** What the hub does to connections. *)
Inductive hub_event := HubSend (c : conn) (message : bytes) | HubShutdown (c : conn).

Definition topic_add (c : conn) (t : Topic) : Topic * list hub_event :=
  let t := mkTopic (topic_ t) (content_ t) (lastPubTime_ t) ({[c]} ∪ audiences_ t) in
  (t, if valid (lastPubTime_ t) then [HubSend c (makeMessage t)] else []).
Definition topic_remove (c : conn) (t : Topic) : Topic :=
  mkTopic (topic_ t) (content_ t) (lastPubTime_ t) (audiences_ t ∖ {[c]}).
Definition publish (content : bytes) (time : Timestamp) (t : Topic) : Topic * list hub_event :=
  let t := mkTopic (topic_ t) content time (audiences_ t) in
  (t, (fun c => HubSend c (makeMessage t)) <$> elements (audiences_ t)).

(** [topics_], and the [ConnectionSubscription] in the context of each
    connection. *)
Record PubSubServer := mkHub { topics_ : gmap bytes Topic; subscriptions : gmap conn (gset bytes) }.

Definition new_PubSubServer : PubSubServer := mkHub ∅ ∅.

(** [getTopic]: a topic that does not exist is made. *)
Definition getTopic (topic : bytes) (h : PubSubServer) : Topic :=
  default (new_Topic topic) (topics_ h !! topic).
Definition set_topic (topic : bytes) (t : Topic) (h : PubSubServer) : PubSubServer :=
  mkHub (<[topic := t]> (topics_ h)) (subscriptions h).
Definition set_subscription (c : conn) (ts : gset bytes) (h : PubSubServer) : PubSubServer :=
  mkHub (topics_ h) (<[c := ts]> (subscriptions h)).

Definition doPublish (topic content : bytes) (time : Timestamp) (h : PubSubServer) :
    PubSubServer * list hub_event :=
  let (t, events) := publish content time (getTopic topic h) in (set_topic topic t h, events).

(** [any_cast] of a context that holds no subscription gives a null
    pointer. *)
Definition doSubscribe (c : conn) (topic : bytes) (h : PubSubServer) : res (PubSubServer * list hub_event) :=
  connSub ← get_ NullDeref (subscriptions h !! c);
  let h := set_subscription c ({[topic]} ∪ connSub) h in
  let (t, events) := topic_add c (getTopic topic h) in
  Ok (set_topic topic t h, events).

Definition doUnsubscribe (c : conn) (topic : bytes) (h : PubSubServer) : res PubSubServer :=
  let h := set_topic topic (topic_remove c (getTopic topic h)) h in
  connSub ← get_ NullDeref (subscriptions h !! c);
  Ok (set_subscription c (connSub ∖ {[topic]}) h).

(** The loop of [onConnection] over the subscriptions; each round erases the
    element it is at, after having moved on. *)
Fixpoint unsubscribe_all (c : conn) (topics : list bytes) (h : PubSubServer) : res PubSubServer :=
  match topics with
  | [] => Ok h
  | topic :: topics => h ← doUnsubscribe c topic h; unsubscribe_all c topics h
  end.

Definition onConnection (c : conn) (connected : bool) (h : PubSubServer) : res PubSubServer :=
  if connected then Ok (set_subscription c ∅ h)
  else
    connSub ← get_ NullDeref (subscriptions h !! c);
    unsubscribe_all c (elements connSub) h.

(** What a command of connection [c] does; [None] for an unknown one. *)
Definition do_command (c : conn) (receiveTime : Timestamp) (cmd topic content : bytes) (h : PubSubServer) :
    res (option (PubSubServer * list hub_event)) :=
  if bool_decide (cmd = str "pub") then Ok (Some (doPublish topic content receiveTime h))
  else if bool_decide (cmd = str "sub") then r ← doSubscribe c topic h; Ok (Some r)
  else if bool_decide (cmd = str "unsub") then h ← doUnsubscribe c topic h; Ok (Some (h, []))
  else Ok None.

(** A round of the loop of [onMessage] for connection [c]. *)
Definition hub_body (c : conn) (receiveTime : Timestamp) (h : PubSubServer) (buf : Buffer) :
    res (bool * PubSubServer * list hub_event * Buffer) :=
  '(result, cmd, topic, content, buf) ← parseMessage buf;
  match result with
  | kSuccess =>
      r ← do_command c receiveTime cmd topic content h;
      match r with
      | Some (h, events) => Ok (true, h, events, buf)
      | None => Ok (false, h, [HubShutdown c], buf)
      end
  | kError => Ok (false, h, [HubShutdown c], buf)
  | kContinue => Ok (false, h, [], buf)
  end.

Definition hub_onMessage (c : conn) (receiveTime : Timestamp) (h : PubSubServer) (buf : Buffer) :
    res (PubSubServer * list hub_event * Buffer) := handler (hub_body c receiveTime) h buf.

(** ** Clients *)

(** The connection, when there is one, and whether it is up; and whether a
    subscription callback is set. *)
Record PubSubClient := mkClient { conn_ : option bool; subscribed : bool }.

Inductive client_event := ClientSend (message : bytes) | Delivered (topic content : bytes) | ClientShutdown.

Definition client_send (message : bytes) (k : PubSubClient) : bool * list client_event :=
  match conn_ k with Some true => (true, [ClientSend message]) | _ => (false, []) end.

Definition client_subscribe (topic : bytes) (k : PubSubClient) : bool * PubSubClient * list client_event :=
  let k := mkClient (conn_ k) true in
  let (ok, events) := client_send (str "sub " ++ topic ++ kCRLF) k in (ok, k, events).
Definition client_unsubscribe (topic : bytes) (k : PubSubClient) : list client_event :=
  (client_send (str "unsub " ++ topic ++ kCRLF) k).2.
Definition client_publish (topic content : bytes) (k : PubSubClient) : bool * list client_event :=
  client_send (str "pub " ++ topic ++ kCRLF ++ content ++ kCRLF) k.

Definition client_onConnection (connected : bool) (k : PubSubClient) : PubSubClient :=
  mkClient (if connected then Some true else None) (subscribed k).

Definition client_body (k : PubSubClient) (buf : Buffer) : res (bool * PubSubClient * list client_event * Buffer) :=
  '(result, cmd, topic, content, buf) ← parseMessage buf;
  match result with
  | kSuccess =>
      Ok (true, k, if bool_decide (cmd = str "pub") && subscribed k then [Delivered topic content] else [], buf)
  | kError => Ok (false, k, [ClientShutdown], buf)
  | kContinue => Ok (false, k, [], buf)
  end.
