(* ===== verification/PubSubFacts.v ===== *)
(** * Correctness of the hub

    The hub's bookkeeping is exact: a connection is in the audience of a topic
    exactly while it subscribes it, so that a publication reaches the
    subscribers and no connection that went down. Commands and publications
    survive the wire however they are cut into reads. *)
From S2P Require Import Prelude.
From S2P Require Import Buffer.
From S2P Require Import BufferFacts.
From S2P Require Import Timestamp.
From S2P Require Import Decoder.
From S2P Require Import PubSub.

(** ** Parsing *)

(** [parseMessage] on the readable bytes: more is needed, the line is bad, or
    a command of [n] bytes. *)
Inductive parsed := PNeed | PBad | PCommand (cmd topic content : bytes) (n : nat).

Definition parse_bytes (l : bytes) : parsed :=
  match find_sub kCRLF l with
  | Some n =>
      match find_char space (take n l) with
      | Some i =>
          let cmd := take i (take n l) in
          let topic := drop (S i) (take n l) in
          if bool_decide (cmd = str "pub") then
            match find_sub kCRLF (drop (n + 2) l) with
            | Some m => PCommand cmd topic (take m (drop (n + 2) l)) (n + 2 + m + 2)
            | None => PNeed
            end
          else PCommand cmd topic [] (n + 2)
      | None => PBad
      end
  | None => PNeed
  end.

Lemma parse_spec b :
  buf_inv b ->
  match parse_bytes (content b) with
  | PNeed => exists cmd topic content, parseMessage b = Ok (kContinue, cmd, topic, content, b)
  | PBad => parseMessage b = Ok (kError, [], [], [], b)
  | PCommand cmd topic ct n => exists b', parseMessage b = Ok (kSuccess, cmd, topic, ct, b')
      /\ buf_inv b' /\ content b' = drop n (content b)
  end.
Proof.
  intros Hb. unfold parse_bytes, parseMessage, findCRLF. fold (content b).
  destruct (find_sub kCRLF (content b)) as [n|] eqn:En; simpl; [|by eexists _, _, _].
  pose proof (find_crlf_bound _ _ En) as Hn. rewrite length_content in Hn by done.
  destruct (retrieve_line b n Hb En) as (Er & b1 & E1 & Hb1 & Hc1). rewrite Er.
  destruct (find_char space (take n (content b))) as [i|]; simpl; [|done].
  case_bool_decide as Ecmd; [|rewrite E1; run_res; by exists b1].
  unfold findCRLF_from. rewrite !(proj2 (Nat.leb_le _ _)) by (unfold readableBytes, peek, beginWrite in *; lia). run_res.
  rewrite range_from by (unfold readableBytes, peek, beginWrite in *; done || lia).
  replace (peek b + n + 2 - readerIndex_ b) with (n + 2) by (unfold peek; lia).
  destruct (find_sub kCRLF (drop (n + 2) (content b))) as [m|] eqn:Em; simpl; [|by eexists _, _, _].
  pose proof (find_crlf_bound _ _ Em) as Hm. rewrite length_drop, length_content in Hm by done.
  replace (peek b + n + 2 + m + 2) with (peek b + (n + 2 + m + 2)) by lia.
  rewrite retrieveUntil_spec by done. rewrite (proj2 (Nat.leb_le _ _)) by lia.
  destruct (retrieve_spec (n + 2 + m + 2) b Hb) as (b2 & -> & Hb2 & Hc2); [lia|]. run_res.
  exists b2. split; [|done]. do 3 f_equal.
  replace (range b (peek b + n + 2) (peek b + n + 2 + m)) with (take m (drop (n + 2) (content b))); [done|].
  unfold content, range, readableBytes, peek, beginWrite in *.
  rewrite skipn_firstn_comm, take_take, drop_drop. f_equal; [lia|]. f_equal. lia.
Qed.

Lemma parse_bound l cmd topic ct n : parse_bytes l = PCommand cmd topic ct n -> 0 < n <= length l.
Proof.
  unfold parse_bytes. destruct (find_sub kCRLF l) as [m|] eqn:Em; [|done]. pose proof (find_crlf_bound _ _ Em).
  destruct (find_char space _); [|done]. case_bool_decide; [|intros [= _ _ _ <-]; lia].
  destruct (find_sub kCRLF (drop _ l)) as [k|] eqn:Ek; [|done]. pose proof (find_crlf_bound _ _ Ek) as Hk.
  rewrite length_drop in Hk. intros [= _ _ _ <-]. lia.
Qed.

(** What follows a command, or a bad line, does not matter. *)
Lemma parse_app l d : parse_bytes l <> PNeed -> parse_bytes (l ++ d) = parse_bytes l.
Proof.
  unfold parse_bytes. destruct (find_sub kCRLF l) as [m|] eqn:Em; [|done]. intros H.
  pose proof (find_crlf_bound _ _ Em) as Hm. rewrite (find_sub_app kCRLF _ d _ ltac:(done) Em), take_app_le by lia.
  destruct (find_char space _) as [i|]; [|done]. case_bool_decide; [|done].
  rewrite drop_app_le by lia. destruct (find_sub kCRLF (drop _ l)) as [k|] eqn:Ek; [|done].
  pose proof (find_crlf_bound _ _ Ek) as Hk.
  rewrite (find_sub_app kCRLF _ d _ ltac:(done) Ek), take_app_le by lia. done.
Qed.

Lemma parse_empty : parse_bytes [] = PNeed.
Proof. done. Qed.

(** Texts of commands. *)
Definition line_text (cmd topic : bytes) : bytes := cmd ++ str " " ++ topic ++ kCRLF.

Lemma parse_line cmd topic rest :
  space ∉ cmd -> CR ∉ cmd -> CR ∉ topic -> cmd <> str "pub" ->
  parse_bytes (line_text cmd topic ++ rest) = PCommand cmd topic [] (length (line_text cmd topic)).
Proof.
  intros Hs Hc Ht Hp. unfold parse_bytes, line_text.
  replace ((cmd ++ str " " ++ topic ++ kCRLF) ++ rest) with ((cmd ++ space :: topic) ++ kCRLF ++ rest)
    by (rewrite <- !app_assoc; done).
  rewrite find_crlf_line by set_solver. rewrite take_app_length, find_char_app by done.
  rewrite take_app_length. rewrite bool_decide_false by done.
  f_equal; [|rewrite !length_app; simpl; lia].
  change (space :: topic) with ([space] ++ topic). rewrite app_assoc.
  replace (S (length cmd)) with (length (cmd ++ [space])) by (rewrite length_app; simpl; lia).
  apply drop_app_length.
Qed.

Definition pub_text (topic content : bytes) : bytes := str "pub " ++ topic ++ kCRLF ++ content ++ kCRLF.

Lemma parse_pub topic content rest :
  CR ∉ topic -> CR ∉ content ->
  parse_bytes (pub_text topic content ++ rest)
  = PCommand (str "pub") topic content (length (pub_text topic content)).
Proof.
  intros Ht Hc. unfold parse_bytes, pub_text.
  replace ((str "pub " ++ topic ++ kCRLF ++ content ++ kCRLF) ++ rest)
    with ((str "pub" ++ space :: topic) ++ kCRLF ++ content ++ kCRLF ++ rest)
    by (rewrite <- !app_assoc; done).
  assert (Hcr : CR ∉ str "pub" ++ space :: topic).
  { rewrite elem_of_app, elem_of_cons. intros [H | [H | H]]; [|done|done].
    revert H. apply (bool_decide_unpack _). vm_compute. exact I. }
  rewrite find_crlf_line by done. rewrite take_app_length.
  rewrite find_char_app by (apply (bool_decide_unpack _); vm_compute; exact I).
  rewrite take_app_length. rewrite bool_decide_true by done.
  rewrite (drop_app_ge (str "pub" ++ space :: topic)) by lia.
  replace (length (str "pub" ++ space :: topic) + 2 - length (str "pub" ++ space :: topic)) with 2 by lia.
  change (drop 2 (kCRLF ++ content ++ kCRLF ++ rest)) with (content ++ kCRLF ++ rest).
  rewrite find_crlf_line by done. rewrite take_app_length. f_equal. rewrite !length_app. simpl. lia.
Qed.

(** ** What the hub promises

    Who subscribes what, and the last publication of each topic. *)
Record hub_spec := mkSpec { subs : gset (conn * bytes); last : gmap bytes bytes }.

Definition subscribers (topic : bytes) (a : hub_spec) : gset conn :=
  set_map fst (filter (fun p => p.2 = topic) (subs a)).

Inductive command := Pub (topic content : bytes) | Sub (topic : bytes) | Unsub (topic : bytes).

Definition command_of (cmd topic content : bytes) : option command :=
  if bool_decide (cmd = str "pub") then Some (Pub topic content)
  else if bool_decide (cmd = str "sub") then Some (Sub topic)
  else if bool_decide (cmd = str "unsub") then Some (Unsub topic)
  else None.

Definition spec_command (c : conn) (k : command) (a : hub_spec) : hub_spec * list hub_event :=
  match k with
  | Pub topic content =>
      (mkSpec (subs a) (<[topic := content]> (last a)),
       (fun d => HubSend d (pub_text topic content)) <$> elements (subscribers topic a))
  | Sub topic =>
      (mkSpec ({[(c, topic)]} ∪ subs a) (last a),
       match last a !! topic with Some content => [HubSend c (pub_text topic content)] | None => [] end)
  | Unsub topic => (mkSpec (subs a ∖ {[(c, topic)]}) (last a), [])
  end.

(** Connection [c] goes down. *)
Definition spec_down (c : conn) (a : hub_spec) : hub_spec :=
  mkSpec (filter (fun p => p.1 <> c) (subs a)) (last a).

(** One round of [onMessage] for connection [c]. *)
Definition spec_decoder (c : conn) : Decoder hub_spec hub_event := fun a l =>
  match parse_bytes l with
  | PNeed => Wait
  | PBad => Break a 0 [HubShutdown c]
  | PCommand cmd topic content n =>
      match command_of cmd topic content with
      | Some k => let (a', out) := spec_command c k a in Take a' n out
      | None => Break a n [HubShutdown c]
      end
  end.

Section SpecDecoder.
Variable c : conn.
#[local] Existing Instance spec_decoder.

Lemma spec_decode_app a l d s n out :
  spec_decoder c a l = Take s n out \/ spec_decoder c a l = Break s n out ->
  spec_decoder c a (l ++ d) = spec_decoder c a l.
Proof.
  unfold spec_decoder. intros H. rewrite parse_app; [done|]. intros E. rewrite E in H. by destruct H.
Qed.

#[export] Instance spec_decoder_laws : @DecoderLaws _ _ (spec_decoder c) (fun _ => True).
Proof.
  split; unfold decode.
  - intros a l a' n out _ E. split; [done|]. revert E. unfold spec_decoder.
    destruct (parse_bytes l) as [| |cmd topic ct m] eqn:E; [done..|]. apply parse_bound in E.
    destruct (command_of _ _ _); [|done]. destruct (spec_command _ _ _). intros [= _ <- _]. lia.
  - intros a l a' n out _ E. split; [done|]. revert E. unfold spec_decoder.
    destruct (parse_bytes l) as [| |cmd topic ct m] eqn:E; [done|intros [= _ <- _]; lia|]. apply parse_bound in E.
    destruct (command_of _ _ _); [destruct (spec_command _ _ _); done|]. intros [= _ <- _]. lia.
  - done.
  - intros a l f _. unfold spec_decoder. destruct (parse_bytes l); [done..|].
    destruct (command_of _ _ _); [|done]. by destruct (spec_command _ _ _).
  - intros a l d a' n out _ E. left. erewrite spec_decode_app by (left; exact E). done.
Qed.

#[export] Instance spec_decoder_final : @DecoderFinal _ _ (spec_decoder c) (fun _ => True).
Proof.
  split; unfold decode.
  - intros a l d a' n out _ E. erewrite spec_decode_app by (right; exact E). done.
  - intros a l d f _ E. exfalso. revert E. unfold spec_decoder. destruct (parse_bytes l); [done..|].
    destruct (command_of _ _ _); [|done]. by destruct (spec_command _ _ _).
Qed.

(** It never fails. *)
Lemma spec_runs a l : exists a' l' out e, @run_all _ _ (spec_decoder c) a l = Ok (a', l', out, e).
Proof.
  revert a l. assert (H : forall a l, True -> exists a' l' out e, @run_all _ _ (spec_decoder c) a l = Ok (a', l', out, e));
    [|by intros a l; apply H].
  apply (@run_ind _ _ (spec_decoder c) (fun _ => True) _). intros a l _ IH.
  destruct (@decode _ _ (spec_decoder c) a l) as [|a1 n o|a1 n o|f] eqn:E.
  - unfold run_all. cbn [run]. rewrite E. by eexists _, _, _, _.
  - destruct (IH _ _ _ eq_refl) as (a' & l' & out & e & E').
    rewrite (@run_take _ _ (spec_decoder c) (fun _ => True) _ a l a1 n o), E' by done. run_res. by eexists _, _, _, _.
  - unfold run_all. cbn [run]. rewrite E. by eexists _, _, _, _.
  - exfalso. revert E. unfold decode, spec_decoder. destruct (parse_bytes l); [done..|].
    destruct (command_of _ _ _); [|done]. by destruct (spec_command _ _ _).
Qed.
End SpecDecoder.

(** ** The state of the hub *)

(** [up] are the connections that are up; [Hub up h a]: the hub's two records
    of who subscribes what agree with each other and with [a]. *)
Record Hub (up : gset conn) (h : PubSubServer) (a : hub_spec) : Prop := {
  hub_audience c t : c ∈ audiences_ (getTopic t h) <-> (c, t) ∈ subs a;
  hub_context c : c ∈ up -> exists ts, subscriptions h !! c = Some ts /\ forall t, t ∈ ts <-> (c, t) ∈ subs a;
  hub_up c t : (c, t) ∈ subs a -> c ∈ up;
  hub_name t : topic_ (getTopic t h) = t;
  hub_last t : last a !! t = if valid (lastPubTime_ (getTopic t h)) then Some (content_ (getTopic t h)) else None
}.

Lemma getTopic_set t t' T h : getTopic t (set_topic t' T h) = if decide (t = t') then T else getTopic t h.
Proof.
  unfold getTopic, set_topic. simpl. case_decide as E; [subst; by rewrite lookup_insert_eq|].
  by rewrite lookup_insert_ne.
Qed.

Lemma getTopic_subscription t c ts h : getTopic t (set_subscription c ts h) = getTopic t h.
Proof. done. Qed.

Lemma hub_subscribers up h a t : Hub up h a -> subscribers t a = audiences_ (getTopic t h).
Proof.
  intros HR. apply set_eq. intros c. rewrite (hub_audience _ _ _ HR). unfold subscribers.
  rewrite elem_of_map. setoid_rewrite elem_of_filter. split.
  - intros ([? ?] & -> & <- & ?). done.
  - intros ?. by exists (c, t).
Qed.

Lemma new_hub : Hub ∅ new_PubSubServer (mkSpec ∅ ∅).
Proof. split; intros; set_solver. Qed.

Lemma hub_publish up h a t ct time c :
  Hub up h a -> valid time = true ->
  exists h', doPublish t ct time h = (h', (spec_command c (Pub t ct) a).2) /\ Hub up h' (spec_command c (Pub t ct) a).1.
Proof.
  intros HR Ht. unfold doPublish, publish, makeMessage. cbn [topic_ content_ audiences_ spec_command fst snd].
  rewrite (hub_name _ _ _ HR), (hub_subscribers _ _ _ t HR). eexists. split; [done|].
  split; intros *; cbn [subs last]; try rewrite getTopic_set.
  - case_decide; subst; simpl; first [done | apply HR].
  - intros Hc. destruct (hub_context _ _ _ HR _ Hc) as (ts & ? & ?). by exists ts.
  - apply HR.
  - case_decide; subst; simpl; first [done | apply HR].
  - case_decide; subst; simpl; [by rewrite lookup_insert_eq, Ht|]. rewrite lookup_insert_ne by done. apply HR.
Qed.

Lemma hub_subscribe up h a t c :
  Hub up h a -> c ∈ up ->
  exists h', doSubscribe c t h = Ok (h', (spec_command c (Sub t) a).2) /\ Hub up h' (spec_command c (Sub t) a).1.
Proof.
  intros HR Hc. unfold doSubscribe. destruct (hub_context _ _ _ HR c Hc) as (ts & Ets & Hts).
  rewrite Ets. run_res. rewrite getTopic_subscription. unfold topic_add. cbn [spec_command fst snd lastPubTime_].
  rewrite (hub_last _ _ _ HR). unfold makeMessage. cbn [topic_ content_]. rewrite (hub_name _ _ _ HR).
  eexists. split; [by destruct (valid _)|].
  split; intros *; cbn [subs last]; try rewrite getTopic_set; try rewrite getTopic_subscription.
  - rewrite elem_of_union, elem_of_singleton. case_decide as Et; subst; simpl.
    + rewrite elem_of_union, elem_of_singleton, (hub_audience _ _ _ HR). intuition congruence.
    + rewrite (hub_audience _ _ _ HR). intuition congruence.
  - intros Hd. unfold set_topic, set_subscription. simpl. setoid_rewrite elem_of_union. setoid_rewrite elem_of_singleton.
    destruct (decide (c0 = c)) as [->|Hne].
    + rewrite lookup_insert_eq. eexists. split; [done|]. intros t'. rewrite elem_of_union, elem_of_singleton, Hts.
      intuition congruence.
    + rewrite lookup_insert_ne by done. destruct (hub_context _ _ _ HR _ Hd) as (ts' & ? & Hts').
      exists ts'. split; [done|]. intros t'. rewrite Hts'. intuition congruence.
  - rewrite elem_of_union, elem_of_singleton. intros [[= -> ->]|?]; [done|by eapply hub_up].
  - case_decide; subst; simpl; first [done | apply HR].
  - case_decide; subst; simpl; first [done | apply HR].
Qed.

Lemma hub_unsubscribe up h a t c :
  Hub up h a -> c ∈ up ->
  exists h', doUnsubscribe c t h = Ok h' /\ Hub up h' (spec_command c (Unsub t) a).1.
Proof.
  intros HR Hc. unfold doUnsubscribe, topic_remove. destruct (hub_context _ _ _ HR c Hc) as (ts & Ets & Hts).
  unfold set_topic at 2. cbn [subscriptions]. rewrite Ets. run_res. eexists. split; [done|].
  split; intros *; cbn [spec_command fst subs last];
    try rewrite getTopic_subscription; try rewrite getTopic_set.
  - rewrite elem_of_difference, elem_of_singleton. case_decide as Et; subst; simpl.
    + rewrite elem_of_difference, elem_of_singleton, (hub_audience _ _ _ HR). intuition congruence.
    + rewrite (hub_audience _ _ _ HR). intuition congruence.
  - intros Hd. unfold set_topic, set_subscription. simpl. setoid_rewrite elem_of_difference. setoid_rewrite elem_of_singleton.
    destruct (decide (c0 = c)) as [->|Hne].
    + rewrite lookup_insert_eq. eexists. split; [done|]. intros t'. rewrite elem_of_difference, elem_of_singleton, Hts.
      intuition congruence.
    + rewrite lookup_insert_ne by done. destruct (hub_context _ _ _ HR _ Hd) as (ts' & ? & Hts').
      exists ts'. split; [done|]. intros t'. rewrite Hts'. intuition congruence.
  - rewrite elem_of_difference. intros [? _]. by eapply hub_up.
  - case_decide; subst; simpl; first [done | apply HR].
  - case_decide; subst; simpl; first [done | apply HR].
Qed.

(** A connection that comes up finds an empty context, and one that goes down
    leaves no audience. *)
Lemma hub_connect up h a c :
  Hub up h a -> c ∉ up -> exists h', onConnection c true h = Ok h' /\ Hub ({[c]} ∪ up) h' a.
Proof.
  intros HR Hc. eexists. split; [done|]. split; intros *; try rewrite getTopic_subscription; try apply HR.
  - rewrite elem_of_union, elem_of_singleton. simpl. intros Hd. destruct (decide (c0 = c)) as [->|Hne].
    + rewrite lookup_insert_eq. exists ∅. split; [done|]. intros t. split; [set_solver|].
      intros Hs. by apply (hub_up _ _ _ HR) in Hs.
    + rewrite lookup_insert_ne by done. apply (hub_context _ _ _ HR). tauto.
  - intros Hs. apply (hub_up _ _ _ HR) in Hs. set_solver.
Qed.

Lemma hub_disconnect up h a c :
  Hub up h a -> c ∈ up -> exists h', onConnection c false h = Ok h' /\ Hub (up ∖ {[c]}) h' (spec_down c a).
Proof.
  intros HR Hc. unfold onConnection. destruct (hub_context _ _ _ HR c Hc) as (ts & Ets & Hts).
  rewrite Ets. run_res.
  assert (H : forall l h a, Hub up h a -> exists h', unsubscribe_all c l h = Ok h'
    /\ Hub up h' (mkSpec (filter (fun p => ~ (p.1 = c /\ p.2 ∈ l)) (subs a)) (last a))).
  { clear dependent h a. intros l. induction l as [|t l IH]; intros h a HR; cbn [unsubscribe_all].
    - exists h. split; [done|]. replace (filter _ (subs a)) with (subs a); [by destruct a|].
      apply set_eq. intros p. rewrite elem_of_filter. set_solver.
    - destruct (hub_unsubscribe _ _ _ t c HR Hc) as (h1 & -> & HR1). run_res.
      destruct (IH _ _ HR1) as (h2 & -> & HR2). exists h2. split; [done|]. cbn [spec_command fst subs last] in HR2.
      replace (filter _ (subs a)) with (filter (fun p => ~ (p.1 = c /\ p.2 ∈ l)) (subs a ∖ {[(c, t)]})); [done|].
      apply set_eq. intros [d t']. rewrite !elem_of_filter, elem_of_difference, elem_of_singleton, elem_of_cons.
      simpl. split; [intros (? & ? & ?); split; [|done]; intuition congruence | intros (? & ?)].
      split; [tauto|]. split; [done|]. intros [= -> ->]. tauto. }
  destruct (H (elements ts) h a HR) as (h' & -> & HR'). exists h'. split; [done|].
  assert (E : filter (fun p => ~ (p.1 = c /\ p.2 ∈ elements ts)) (subs a) = filter (fun p => p.1 <> c) (subs a)).
  { apply set_eq. intros [d t]. rewrite !elem_of_filter, elem_of_elements. simpl. split; intros [Hn Hs]; split; try done.
    - intros ->. apply Hn. split; [done|]. by apply Hts.
    - tauto. }
  rewrite E in HR'. fold (spec_down c a) in HR'.
  split; intros *; try apply HR'.
  - intros Hd. apply (hub_context _ _ _ HR'). set_solver.
  - intros Hs. pose proof (hub_up _ _ _ HR' _ _ Hs). unfold spec_down in Hs. simpl in Hs.
    apply elem_of_filter in Hs as [Hne _]. simpl in Hne. set_solver.
Qed.

(** ** The handler *)

Lemma do_command_spec up h a c time cmd t ct :
  Hub up h a -> c ∈ up -> valid time = true ->
  match command_of cmd t ct with
  | Some k => exists h', do_command c time cmd t ct h = Ok (Some (h', (spec_command c k a).2))
                         /\ Hub up h' (spec_command c k a).1
  | None => do_command c time cmd t ct h = Ok None
  end.
Proof.
  intros HR Hc Ht. unfold command_of, do_command.
  case_bool_decide.
  { destruct (hub_publish _ _ _ t ct time c HR Ht) as (h' & -> & HR'). by exists h'. }
  case_bool_decide.
  { destruct (hub_subscribe _ _ _ t c HR Hc) as (h' & -> & HR'). run_res. by exists h'. }
  case_bool_decide; [|done].
  destruct (hub_unsubscribe _ _ _ t c HR Hc) as (h' & -> & HR'). run_res. by exists h'.
Qed.

(** A round. *)
Lemma hub_round up h a c time b :
  Hub up h a -> c ∈ up -> valid time = true -> buf_inv b ->
  match spec_decoder c a (content b) with
  | Wait => hub_body c time h b = Ok (false, h, [], b)
  | Take a' n out => exists h' b', hub_body c time h b = Ok (true, h', out, b')
      /\ Hub up h' a' /\ buf_inv b' /\ content b' = drop n (content b)
  | Break a' n out => exists h' b', hub_body c time h b = Ok (false, h', out, b')
      /\ Hub up h' a' /\ buf_inv b' /\ content b' = drop n (content b)
  | Fail f => hub_body c time h b = Fault f
  end.
Proof.
  intros HR Hc Ht Hb. unfold spec_decoder, hub_body.
  pose proof (parse_spec b Hb) as Hp. destruct (parse_bytes (content b)) as [| |cmd t ct n].
  - by destruct Hp as (cmd & t & ct & ->).
  - rewrite Hp. run_res. exists h, b. by rewrite drop_0.
  - destruct Hp as (b1 & -> & Hb1 & Hc1). run_res.
    pose proof (do_command_spec up h a c time cmd t ct HR Hc Ht) as Hd.
    destruct (command_of cmd t ct) as [k|]; [destruct Hd as (h1 & -> & HR1) | rewrite Hd]; run_res.
    + destruct (spec_command c k a) as [a1 out1]. by exists h1, b1.
    + by exists h, b1.
Qed.

Lemma hub_loop up h a c time b fuel :
  Hub up h a -> c ∈ up -> valid time = true -> buf_inv b ->
  match @run _ _ (spec_decoder c) fuel a (content b) with
  | Ok (a', l', out, e) => exists h' b', handler_loop (hub_body c time) fuel h b = Ok (h', out, b')
      /\ Hub up h' a' /\ buf_inv b' /\ content b' = l'
  | Fault f => handler_loop (hub_body c time) fuel h b = Fault f
  end.
Proof.
  revert h a b; induction fuel as [|fuel IH]; intros h a b HR Hc Ht Hb; [done|]. cbn [run handler_loop].
  unfold decode. pose proof (hub_round up h a c time b HR Hc Ht Hb) as H.
  destruct (spec_decoder c a (content b)) as [|a1 n o|a1 n o|f].
  - rewrite H. run_res. by exists h, b.
  - destruct H as (h1 & b1 & -> & HR1 & Hb1 & Hc1). run_res.
    specialize (IH h1 a1 b1 HR1 Hc Ht Hb1). rewrite Hc1 in IH.
    destruct (@run _ _ (spec_decoder c) fuel a1 _) as [[[[a2 l2] o2] e2]|f]; run_res; [|by rewrite IH].
    destruct IH as (h2 & b2 & -> & HR2 & Hb2 & Hl2). run_res. by exists h2, b2.
  - destruct H as (h1 & b1 & -> & HR1 & Hb1 & Hc1). run_res. by exists h1, b1.
  - by rewrite H.
Qed.

Lemma hub_handler up h a c time b a' l' out e :
  Hub up h a -> c ∈ up -> valid time = true -> buf_inv b ->
  @run_all _ _ (spec_decoder c) a (content b) = Ok (a', l', out, e) ->
  exists h' b', hub_onMessage c time h b = Ok (h', out, b') /\ Hub up h' a' /\ buf_inv b' /\ content b' = l'.
Proof.
  intros HR Hc Ht Hb E. pose proof (hub_loop up h a c time b (S (readableBytes b)) HR Hc Ht Hb) as H.
  unfold run_all in E. rewrite length_content in E by done. by rewrite E in H.
Qed.

(** ** The hub with its connections *)

(** What happens to the server: a connection comes up, goes down, or bytes
    of it are read. *)
Inductive hub_act := Up (c : conn) | Down (c : conn) | Read (c : conn) (time : Timestamp) (d : bytes).

(** The server and the input buffers of the connections that are up. *)
Record hub_world := mkWorld { server : PubSubServer; inputs : gmap conn Buffer }.
Definition new_world : hub_world := mkWorld new_PubSubServer ∅.

(** An act of a connection that is not there does not happen. *)
Definition hub_step (x : hub_act) (w : hub_world) : res (hub_world * list hub_event) :=
  match x with
  | Up c =>
      match inputs w !! c with
      | Some _ => Ok (w, [])
      | None => h ← onConnection c true (server w); Ok (mkWorld h (<[c := new_Buffer kInitialSize]> (inputs w)), [])
      end
  | Down c =>
      match inputs w !! c with
      | Some _ => h ← onConnection c false (server w); Ok (mkWorld h (delete c (inputs w)), [])
      | None => Ok (w, [])
      end
  | Read c time d =>
      match inputs w !! c with
      | Some b =>
          b ← append_str d b;
          '(h, events, b) ← hub_onMessage c time (server w) b;
          Ok (mkWorld h (<[c := b]> (inputs w)), events)
      | None => Ok (w, [])
      end
  end.

Fixpoint hub_acts (xs : list hub_act) (w : hub_world) : res (hub_world * list hub_event) :=
  match xs with
  | [] => Ok (w, [])
  | x :: xs =>
      '(w, events) ← hub_step x w;
      '(w, events') ← hub_acts xs w;
      Ok (w, events ++ events')
  end.

(** The same, abstractly: bytes that wait instead of buffers. *)
Record spec_world := mkSpecWorld { service : hub_spec; pending : gmap conn bytes }.
Definition new_spec_world : spec_world := mkSpecWorld (mkSpec ∅ ∅) ∅.

Definition spec_step (x : hub_act) (w : spec_world) : res (spec_world * list hub_event) :=
  match x with
  | Up c =>
      match pending w !! c with
      | Some _ => Ok (w, [])
      | None => Ok (mkSpecWorld (service w) (<[c := []]> (pending w)), [])
      end
  | Down c =>
      match pending w !! c with
      | Some _ => Ok (mkSpecWorld (spec_down c (service w)) (delete c (pending w)), [])
      | None => Ok (w, [])
      end
  | Read c _ d =>
      match pending w !! c with
      | Some l =>
          '(a, l, events, _) ← @run_all _ _ (spec_decoder c) (service w) (l ++ d);
          Ok (mkSpecWorld a (<[c := l]> (pending w)), events)
      | None => Ok (w, [])
      end
  end.

Fixpoint spec_acts (xs : list hub_act) (w : spec_world) : res (spec_world * list hub_event) :=
  match xs with
  | [] => Ok (w, [])
  | x :: xs =>
      '(w, events) ← spec_step x w;
      '(w, events') ← spec_acts xs w;
      Ok (w, events ++ events')
  end.

Record World (w : hub_world) (v : spec_world) : Prop := {
  world_hub : Hub (dom (pending v)) (server w) (service v);
  world_inputs : content <$> inputs w = pending v;
  world_buffers : map_Forall (fun _ b => buf_inv b) (inputs w)
}.

Lemma new_World : World new_world new_spec_world.
Proof.
  split; [cbn [pending new_spec_world service]; rewrite dom_empty_L; apply new_hub | done | apply map_Forall_empty].
Qed.

(** The poller's times are valid. *)
Definition timed (x : hub_act) : Prop := match x with Read _ time _ => valid time = true | _ => True end.

Lemma hub_step_spec x w v :
  World w v -> timed x ->
  exists w' v' events, hub_step x w = Ok (w', events) /\ spec_step x v = Ok (v', events) /\ World w' v'.
Proof.
  intros [HR Hi Hb] Hx. assert (Hl : forall c, pending v !! c = content <$> inputs w !! c)
    by (intros; by rewrite <- Hi, lookup_fmap).
  assert (Hd : forall c b, inputs w !! c = Some b -> c ∈ dom (pending v))
    by (intros c b E; apply elem_of_dom; rewrite Hl, E; eauto).
  destruct x as [c|c|c time d]; cbn [hub_step spec_step]; rewrite Hl; destruct (inputs w !! c) as [b|] eqn:Eb;
    cbn [fmap option_fmap option_map];
    try (eexists w, v, []; split; [done|]; split; [done|]; by split).
  - destruct (hub_connect _ _ _ c HR) as (h' & -> & HR').
    { apply not_elem_of_dom. by rewrite Hl, Eb. }
    run_res. eexists _, _, _. split; [done|]. split; [done|]. split; simpl.
    + by rewrite dom_insert_L.
    + by rewrite fmap_insert, Hi.
    + apply map_Forall_insert_2; [apply new_Buffer_inv | done].
  - destruct (hub_disconnect _ _ _ c HR) as (h' & -> & HR'); [by eapply Hd|].
    run_res. eexists _, _, _. split; [done|]. split; [done|]. split; simpl.
    + by rewrite dom_delete_L.
    + by rewrite fmap_delete, Hi.
    + by apply map_Forall_delete.
  - destruct (append_str_spec d b (Hb _ _ Eb)) as (b1 & -> & Hb1 & Hc1 & _). run_res.
    destruct (spec_runs c (service v) (content b ++ d)) as (a' & l' & out & e & E). rewrite E. run_res.
    rewrite <- Hc1 in E. destruct (hub_handler _ _ _ c time b1 a' l' out e HR (Hd _ _ Eb) Hx Hb1 E)
      as (h' & b' & -> & HR' & Hb' & Hl'). run_res.
    eexists _, _, _. split; [done|]. split; [done|]. split; simpl.
    + rewrite dom_insert_lookup_L; [done|]. rewrite Hl, Eb. eauto.
    + by rewrite fmap_insert, Hi, Hl'.
    + by apply map_Forall_insert_2.
Qed.

Lemma hub_acts_spec xs w v :
  World w v -> Forall timed xs ->
  exists w' v' events, hub_acts xs w = Ok (w', events) /\ spec_acts xs v = Ok (v', events) /\ World w' v'.
Proof.
  intros Hw Hx. revert w v Hw; induction Hx as [|x xs Hx _ IH]; intros w v Hw; cbn [hub_acts spec_acts].
  - by eexists w, v, [].
  - destruct (hub_step_spec x w v Hw Hx) as (w1 & v1 & o1 & -> & -> & Hw1). run_res.
    destruct (IH w1 v1 Hw1) as (w2 & v2 & o2 & -> & -> & Hw2). run_res. by eexists _, _, _.
Qed.

(** ** The client *)

Definition client_decoder : Decoder PubSubClient client_event := fun k l =>
  match parse_bytes l with
  | PNeed => Wait
  | PBad => Break k 0 [ClientShutdown]
  | PCommand cmd topic ct n =>
      Take k n (if bool_decide (cmd = str "pub") && subscribed k then [Delivered topic ct] else [])
  end.

Section ClientDecoder.
#[local] Existing Instance client_decoder.

Lemma client_implements : implements client_body (fun _ => True).
Proof.
  intros k b _ Hb. unfold decode, client_decoder, client_body. pose proof (parse_spec b Hb) as Hp.
  destruct (parse_bytes (content b)) as [| |cmd t ct n].
  - by destruct Hp as (? & ? & ? & ->).
  - rewrite Hp. run_res. exists b. by rewrite drop_0.
  - destruct Hp as (b' & -> & ? & ?). run_res. by exists b'.
Qed.

#[export] Instance client_decoder_laws : @DecoderLaws _ _ client_decoder (fun _ => True).
Proof.
  split; unfold decode, client_decoder.
  - intros k l k' n out _. destruct (parse_bytes l) eqn:E; [done..|]. apply parse_bound in E.
    intros [= _ <- _]. by split; [|lia].
  - intros k l k' n out _. destruct (parse_bytes l) eqn:E; [done| |done]. intros [= _ <- _]. by split; [|lia].
  - done.
  - intros k l f _. by destruct (parse_bytes l).
  - intros k l d k' n out _ E. left. rewrite parse_app; [done|]. by destruct (parse_bytes l).
Qed.

#[export] Instance client_decoder_final : @DecoderFinal _ _ client_decoder (fun _ => True).
Proof.
  split; unfold decode, client_decoder.
  - intros k l d k' n out _ E. rewrite parse_app; [done|]. by destruct (parse_bytes l).
  - intros k l d f _. by destruct (parse_bytes l).
Qed.

(** Publications in a row. *)
Lemma client_pubs k t contents :
  subscribed k = true -> CR ∉ t -> Forall (fun ct => CR ∉ ct) contents ->
  run_all k (concat (pub_text t <$> contents)) = Ok (k, [], Delivered t <$> contents, Waiting).
Proof.
  intros Hk Ht Hct. induction Hct as [|ct contents Hct _ IH]; [done|]. cbn [fmap list_fmap concat].
  rewrite (run_take (fun _ => True) k _ k (length (pub_text t ct)) [Delivered t ct]);
    [|done | unfold decode, client_decoder; rewrite parse_pub by done; by rewrite Hk].
  rewrite drop_app_length, IH. done.
Qed.

Lemma client_receives k t contents reads b :
  subscribed k = true -> CR ∉ t -> Forall (fun ct => CR ∉ ct) contents ->
  buf_inv b -> content b = [] -> concat reads = concat (pub_text t <$> contents) ->
  exists b', handle_reads client_body k b reads = Ok (k, Delivered t <$> contents, b') /\ content b' = [].
Proof.
  intros Hk Ht Hct Hb Hb0 E.
  destruct (handle_reads_whole client_body (fun _ => True) client_implements k b reads k []
    (Delivered t <$> contents)) as (b' & E' & _ & Hc'); [done | done | by rewrite Hb0 | | by exists b'].
  rewrite Hb0, E. by apply client_pubs.
Qed.
End ClientDecoder.

(** ** From a publisher to a subscriber *)

Section Publications.
Variable p : conn.
#[local] Existing Instance spec_decoder.

Lemma spec_reads reads a l pend a' l' out w :
  pend !! p = Some l ->
  @run_reads _ _ (spec_decoder p) a l reads.*2 = Ok (a', l', out, w) ->
  spec_acts ((fun r => Read p r.1 r.2) <$> reads) (mkSpecWorld a pend) = Ok (mkSpecWorld a' (<[p := l']> pend), out).
Proof.
  revert a l pend out w; induction reads as [|[time d] reads IH]; intros a l pend out w Hp;
    cbn [fmap list_fmap run_reads spec_acts snd fst].
  - intros [= <- <- <- _]. by rewrite insert_id.
  - unfold spec_step. cbn [pending service]. rewrite Hp.
    destruct (@run_all _ _ (spec_decoder p) a (l ++ d)) as [[[[a1 l1] o1] e1]|]; run_res; [|done].
    destruct (@run_reads _ _ (spec_decoder p) a1 l1 reads.*2) as [[[[a2 l2] o2] w2]|] eqn:E; run_res; [|done].
    intros [= <- <- <- _]. rewrite (IH a1 l1 _ o2 w2); [|by rewrite lookup_insert_eq|done]. run_res.
    by rewrite insert_insert_eq.
Qed.

Definition publications (topic : bytes) (a : hub_spec) (contents : list bytes) : list hub_event :=
  concat ((fun ct => (fun d => HubSend d (pub_text topic ct)) <$> elements (subscribers topic a)) <$> contents).

Lemma spec_pubs a t contents :
  CR ∉ t -> Forall (fun ct => CR ∉ ct) contents ->
  exists a', @run_all _ _ (spec_decoder p) a (concat (pub_text t <$> contents))
    = Ok (a', [], publications t a contents, Waiting) /\ subs a' = subs a.
Proof.
  intros Ht Hct. revert a. induction Hct as [|ct contents Hct _ IH]; intros a; [by exists a|].
  cbn [fmap list_fmap concat].
  destruct (spec_command p (Pub t ct) a) as [a1 o1] eqn:E1.
  destruct (IH a1) as (a2 & E2 & Hs2). exists a2.
  rewrite (@run_take _ _ (spec_decoder p) (fun _ => True) _ a _ a1 (length (pub_text t ct)) o1);
    [|done | unfold decode, spec_decoder; rewrite parse_pub by done;
             change (command_of _ t ct) with (Some (Pub t ct)); cbv beta iota; by rewrite E1].
  rewrite drop_app_length, E2. run_res. injection E1 as <- <-. split; [done|exact Hs2].
Qed.
End Publications.

(** The messages sent to [d]. *)
Definition sent_to (d : conn) (events : list hub_event) : list bytes :=
  omap (fun e => match e with HubSend c m => if decide (c = d) then Some m else None | HubShutdown _ => None end) events.

Lemma sent_to_app d e1 e2 : sent_to d (e1 ++ e2) = sent_to d e1 ++ sent_to d e2.
Proof. apply omap_app. Qed.

Lemma sent_once d m (l : list conn) :
  NoDup l -> sent_to d ((fun c => HubSend c m) <$> l) = if decide (d ∈ l) then [m] else [].
Proof.
  induction 1 as [|c l Hc Hl IH]; [done|]. cbn [fmap list_fmap]. unfold sent_to in *. cbn [omap list_omap].
  rewrite IH. destruct (decide (c = d)) as [->|Hne].
  - rewrite decide_False by done. by rewrite decide_True by set_solver.
  - case_decide; [rewrite decide_True by set_solver | rewrite decide_False by set_solver]; done.
Qed.

Lemma sent_publications d t a contents :
  d ∈ subscribers t a -> sent_to d (publications t a contents) = pub_text t <$> contents.
Proof.
  intros Hd. unfold publications. induction contents as [|ct contents IH]; [done|].
  cbn [fmap list_fmap concat]. rewrite sent_to_app, sent_once by apply NoDup_elements.
  rewrite decide_True by set_solver. by rewrite IH.
Qed.

(** ** Theorems *)

(** C19: The hub keeps its promise: whatever happens to its connections and
    whatever bytes they send, the server never fails, does exactly what the
    abstract service does, its audiences are the service's subscriptions and
    its topics hold the last publications. *)
Theorem hub_refines xs :
  Forall timed xs ->
  exists w v events, hub_acts xs new_world = Ok (w, events) /\ spec_acts xs new_spec_world = Ok (v, events)
    /\ (forall c t, c ∈ audiences_ (getTopic t (server w)) <-> (c, t) ∈ subs (service v))
    /\ (forall t, last (service v) !! t
                  = if valid (lastPubTime_ (getTopic t (server w))) then Some (content_ (getTopic t (server w))) else None)
    /\ content <$> inputs w = pending v.
Proof.
  intros Hx. destruct (hub_acts_spec xs _ _ new_World Hx) as (w & v & events & E & E' & [HR Hi _]).
  exists w, v, events. do 2 (split; [done|]). split; [apply HR|]. split; [apply HR|done].
Qed.

(** The two records of who subscribes what never come apart: whatever the
    connections did, the context of a connection that is up names exactly the
    topics whose audience it is in, and a connection that is not up is in no
    audience, so that nothing is sent to it. *)
Theorem hub_exact xs w events :
  Forall timed xs -> hub_acts xs new_world = Ok (w, events) ->
  (forall c, is_Some (inputs w !! c) ->
     exists ts, subscriptions (server w) !! c = Some ts
                /\ forall t, t ∈ ts <-> c ∈ audiences_ (getTopic t (server w)))
  /\ (forall c t, inputs w !! c = None -> c ∉ audiences_ (getTopic t (server w)))
  /\ (forall c t content time, inputs w !! c = None -> sent_to c (doPublish t content time (server w)).2 = []).
Proof.
  intros Hx E. destruct (hub_acts_spec xs _ _ new_World Hx) as (w' & v & events' & E1 & _ & [HR Hi _]).
  assert (w' = w) as -> by congruence.
  assert (Hd : forall c, c ∈ dom (pending v) <-> is_Some (inputs w !! c)).
  { intros c. rewrite elem_of_dom, <- Hi, lookup_fmap. by destruct (inputs w !! c) as [b|]; split; intros [? ?]; eauto. }
  assert (Hn : forall c t, inputs w !! c = None -> c ∉ audiences_ (getTopic t (server w))).
  { intros c t Hc H. apply (hub_audience _ _ _ HR), (hub_up _ _ _ HR), Hd in H as [? H]. congruence. }
  split; [|split; [exact Hn|]].
  - intros c Hc. destruct (hub_context _ _ _ HR c) as (ts & Ets & Hts); [by apply Hd|]. exists ts. split; [done|].
    intros t. by rewrite Hts, (hub_audience _ _ _ HR).
  - intros c t ct time Hc. unfold doPublish, publish. cbn [snd audiences_].
    rewrite sent_once by apply NoDup_elements. rewrite decide_False; [done|]. rewrite elem_of_elements. by apply Hn.
Qed.

(** A publication reaches a subscriber: in whatever state the server got
    to, what a publisher publishes on a topic, cut into any reads at any times,
    makes the server send to each subscriber what its client, over any reads,
    hands to the callback: exactly these contents, in order. *)
Theorem pubsub_delivers xs w events p d topic contents messages reads bp k :
  Forall timed xs -> hub_acts xs new_world = Ok (w, events) ->
  inputs w !! p = Some bp -> content bp = [] ->
  d ∈ audiences_ (getTopic topic (server w)) ->
  CR ∉ topic -> Forall (fun ct => CR ∉ ct) contents ->
  Forall2 (fun ct m => client_publish topic ct k = (true, [ClientSend m])) contents messages ->
  Forall (fun r => valid r.1 = true) reads -> concat reads.*2 = concat messages ->
  exists w' sent, hub_acts ((fun r => Read p r.1 r.2) <$> reads) w = Ok (w', sent)
    /\ forall k' b cuts, subscribed k' = true -> buf_inv b -> content b = [] -> concat cuts = concat (sent_to d sent) ->
       exists b', handle_reads client_body k' b cuts = Ok (k', Delivered topic <$> contents, b') /\ content b' = [].
Proof.
  intros Hx E Hp Hp0 Hd Ht Hct Hm Hr Hc.
  destruct (hub_acts_spec xs _ _ new_World Hx) as (w0 & v & ? & E0 & _ & Hw). assert (w0 = w) as -> by congruence.
  assert (Em : messages = pub_text topic <$> contents).
  { clear Hc Hct. induction Hm as [|ct m cts ms E1 _ IH]; [done|]. cbn [fmap list_fmap]. f_equal; [|done].
    revert E1. unfold client_publish, client_send. by destruct (conn_ k) as [[]|]; intros [= <-]. }
  destruct (hub_acts_spec ((fun r => Read p r.1 r.2) <$> reads) w v Hw) as (w' & v' & sent & E' & Ev & _).
  { apply Forall_fmap. by eapply Forall_impl. }
  exists w', sent. split; [done|]. destruct Hw as [HR Hi _]. destruct v as [a pend]. simpl in HR, Hi.
  assert (Hpend : pend !! p = Some []) by (rewrite <- Hi, lookup_fmap, Hp; simpl; by rewrite Hp0).
  destruct (spec_pubs p a topic contents Ht Hct) as (a' & Ea & _).
  rewrite (spec_reads p reads a [] pend a' [] (publications topic a contents) true) in Ev; [|done|].
  - injection Ev as <- <-. intros k' b cuts Hk Hb Hb0 Hcuts. apply client_receives; try done.
    rewrite Hcuts, sent_publications; [done|]. by rewrite (hub_subscribers _ _ _ topic HR).
  - apply (@run_whole_reads _ _ (spec_decoder p) (fun _ => True) _ _); [done..|]. simpl. by rewrite Hc, Em.
Qed.

(** Two clients: one subscribes, one publishes. *)
Definition now_ : Timestamp := 1000%Z.
Definition session : list hub_act :=
  [Up 1; Up 2; Read 1 now_ (str "sub ne"); Read 1 now_ (str "ws" ++ kCRLF)]%positive.

Lemma hub_refines_witness :
  exists w v events, hub_acts session new_world = Ok (w, events) /\ spec_acts session new_spec_world = Ok (v, events)
    /\ (forall c t, c ∈ audiences_ (getTopic t (server w)) <-> (c, t) ∈ subs (service v))
    /\ (forall t, last (service v) !! t
                  = if valid (lastPubTime_ (getTopic t (server w))) then Some (content_ (getTopic t (server w))) else None)
    /\ content <$> inputs w = pending v.
Proof. apply hub_refines. repeat constructor. Defined.

Definition session_world : hub_world :=
  match hub_acts session new_world with Ok (w, _) => w | Fault _ => new_world end.

Lemma hub_exact_witness :
  hub_acts session new_world = Ok (session_world, [])
  /\ ((forall c, is_Some (inputs session_world !! c) ->
     exists ts, subscriptions (server session_world) !! c = Some ts
                /\ forall t, t ∈ ts <-> c ∈ audiences_ (getTopic t (server session_world)))
  /\ (forall c t, inputs session_world !! c = None -> c ∉ audiences_ (getTopic t (server session_world)))
  /\ (forall c t content time, inputs session_world !! c = None ->
        sent_to c (doPublish t content time (server session_world)).2 = [])).
Proof.
  split; [vm_compute; reflexivity|]. apply (hub_exact session session_world []).
  - repeat constructor.
  - vm_compute. reflexivity.
Defined.

Lemma pubsub_delivers_witness :
  exists w' sent, hub_acts [Read 2 now_ (str "pub news" ++ kCRLF ++ str "he"); Read 2 now_ (str "llo" ++ kCRLF)]%positive
                    session_world = Ok (w', sent)
    /\ forall k' b cuts, subscribed k' = true -> buf_inv b -> content b = [] -> concat cuts = concat (sent_to 1%positive sent) ->
       exists b', handle_reads client_body k' b cuts = Ok (k', Delivered (str "news") <$> [str "hello"], b') /\ content b' = [].
Proof.
  apply (pubsub_delivers session session_world [] 2%positive 1%positive (str "news") [str "hello"]
    [pub_text (str "news") (str "hello")]
    [(now_, str "pub news" ++ kCRLF ++ str "he"); (now_, str "llo" ++ kCRLF)]
    (new_Buffer kInitialSize) (mkClient (Some true) false)).
  - repeat constructor.
  - vm_compute. reflexivity.
  - vm_compute. reflexivity.
  - vm_compute. reflexivity.
  - apply (bool_decide_unpack _). vm_compute. exact I.
  - apply (bool_decide_unpack _). vm_compute. exact I.
  - apply (bool_decide_unpack _). vm_compute. exact I.
  - repeat constructor.
  - repeat constructor.
  - vm_compute. reflexivity.
Defined.
