(* ===== verification/RbTree.v ===== *)
(** * Red-black trees: [src/msmuduo/util/rbtree.h], [rbtree.cpp]

    The intrusive tree with parent pointers, as it lies in memory: nodes are
    addresses, every read and write goes through a pointer that may be null.
    The two branches of the rotations and of the rebalancing loops mirror each
    other; they are one definition that takes the side [d], which is [Left]
    where the code of the first branch says left. The client of
    [src/msexamples/0unittest/rbtree_test.cpp] keeps keys in the nodes. *)
From S2P Require Import Prelude.

(** ** Memory *)
Definition node_ptr := option positive.

Inductive color := RB_RED | RB_BLACK.

#[export] Instance color_eq_dec : EqDecision color.
Proof. solve_decision. Defined.

Record rb_node := mkNode { rb_parent : node_ptr; rb_right : node_ptr; rb_left : node_ptr; rb_color : color }.

(** [root->rb_node], and the nodes in memory. *)
Record rb_heap := mkHeap { rb_root : node_ptr; nodes : gmap positive rb_node }.

Definition deref (p : node_ptr) (h : rb_heap) : res rb_node := get_ NullDeref (p ≫= fun a => nodes h !! a).

(** An assignment to a field of the node at [p]. *)
Definition assign (p : node_ptr) (f : rb_node -> rb_node) (h : rb_heap) : res rb_heap :=
  match p with
  | Some a => n ← deref p h; Ok (mkHeap (rb_root h) (<[a := f n]> (nodes h)))
  | None => Fault NullDeref
  end.
Definition set_parent (p v : node_ptr) : rb_heap -> res rb_heap :=
  assign p (fun n => mkNode v (rb_right n) (rb_left n) (rb_color n)).
Definition set_color (p : node_ptr) (c : color) : rb_heap -> res rb_heap :=
  assign p (fun n => mkNode (rb_parent n) (rb_right n) (rb_left n) c).
Definition set_root (v : node_ptr) (h : rb_heap) : rb_heap := mkHeap v (nodes h).

Inductive side := Left | Right.
Definition opp (d : side) : side := match d with Left => Right | Right => Left end.
Definition child (d : side) (n : rb_node) : node_ptr := match d with Left => rb_left n | Right => rb_right n end.
Definition put_child (d : side) (v : node_ptr) (n : rb_node) : rb_node :=
  match d with
  | Left => mkNode (rb_parent n) (rb_right n) v (rb_color n)
  | Right => mkNode (rb_parent n) v (rb_left n) (rb_color n)
  end.
Definition set_child (d : side) (p v : node_ptr) : rb_heap -> res rb_heap := assign p (put_child d v).

(** [if (p) p->rb_parent = v] and [if (p) p->rb_color = c]. *)
Definition reparent (p v : node_ptr) (h : rb_heap) : res rb_heap :=
  match p with Some _ => set_parent p v h | None => Ok h end.
Definition recolor (p : node_ptr) (c : color) (h : rb_heap) : res rb_heap :=
  match p with Some _ => set_color p c h | None => Ok h end.

(** [p && p->rb_color == RB_RED] and [!p || p->rb_color == RB_BLACK]. *)
Definition is_red (p : node_ptr) (h : rb_heap) : res bool :=
  match p with Some _ => n ← deref p h; Ok (bool_decide (rb_color n = RB_RED)) | None => Ok false end.
Definition is_black (p : node_ptr) (h : rb_heap) : res bool :=
  match p with Some _ => n ← deref p h; Ok (bool_decide (rb_color n = RB_BLACK)) | None => Ok true end.

(** The link from [parent], or from the root, to [node] now leads to [v]; the
    child on side [d] is compared. *)
Definition relink (d : side) (parent node v : node_ptr) (h : rb_heap) : res rb_heap :=
  match parent with
  | Some _ =>
      p ← deref parent h;
      if decide (child d p = node) then set_child d parent v h else set_child (opp d) parent v h
  | None => Ok (set_root v h)
  end.

(** ** Rotations *)

(** [__rb_rotate_left] is [rotate Left], [__rb_rotate_right] is
    [rotate Right]. *)
Definition rotate (d : side) (node : node_ptr) (h : rb_heap) : res rb_heap :=
  n ← deref node h;
  let right := child (opp d) n in
  r ← deref right h;
  h ← set_child (opp d) node (child d r) h;
  h ← reparent (child d r) node h;
  h ← set_child d right node h;
  n ← deref node h;
  h ← set_parent right (rb_parent n) h;
  h ← relink d (rb_parent n) node right h;
  set_parent node right h.

(** ** Insertion *)

(** Where a new node is linked: at the root, or at a side of a node. *)
Definition rb_link_node (node parent : node_ptr) (link : option (positive * side)) (h : rb_heap) : res rb_heap :=
  h ← assign node (fun _ => mkNode parent None None RB_RED) h;
  match link with
  | Some (p, d) => set_child d (Some p) node h
  | None => Ok (set_root node h)
  end.

(** The body of the loop of [rb_insert_color] when [parent] is the child of
    [gparent] on side [d]: [node] after it. *)
Definition insert_case (d : side) (node parent gparent : node_ptr) (h : rb_heap) : res (node_ptr * rb_heap) :=
  g ← deref gparent h;
  let uncle := child (opp d) g in
  red ← is_red uncle h;
  if red : bool then
    h ← set_color uncle RB_BLACK h;
    h ← set_color parent RB_BLACK h;
    h ← set_color gparent RB_RED h;
    Ok (gparent, h)
  else
    p ← deref parent h;
    '(node, parent, h) ←
      (if decide (child (opp d) p = node) then h ← rotate d parent h; Ok (parent, node, h)
       else Ok (node, parent, h));
    h ← set_color parent RB_BLACK h;
    h ← set_color gparent RB_RED h;
    h ← rotate (opp d) gparent h;
    Ok (node, h).

Fixpoint insert_loop (fuel : nat) (node : node_ptr) (h : rb_heap) : res rb_heap :=
  match fuel with
  | 0 => Fault OutOfFuel
  | S fuel =>
      n ← deref node h;
      let parent := rb_parent n in
      red ← is_red parent h;
      if red : bool then
        p ← deref parent h;
        let gparent := rb_parent p in
        g ← deref gparent h;
        '(node, h) ← insert_case (if decide (parent = rb_left g) then Left else Right) node parent gparent h;
        insert_loop fuel node h
      else Ok h
  end.

(** A round goes up the tree. *)
Definition rb_insert_color (node : node_ptr) (h : rb_heap) : res rb_heap :=
  h ← insert_loop (S (size (nodes h))) node h;
  set_color (rb_root h) RB_BLACK h.

(** ** Removal *)

(** The parts of the loop of [__rb_erase_color] when [node] is the child of
    [parent] on side [d]. The sibling; a red one is rotated away. *)
Definition erase_sibling (d : side) (parent : node_ptr) (h : rb_heap) : res (node_ptr * rb_heap) :=
  p ← deref parent h;
  let other := child (opp d) p in
  o ← deref other h;
  if decide (rb_color o = RB_RED) then
    h ← set_color other RB_BLACK h;
    h ← set_color parent RB_RED h;
    h ← rotate d parent h;
    p ← deref parent h;
    Ok (child (opp d) p, h)
  else Ok (other, h).

(** A sibling whose outer child is not red is rotated. *)
Definition erase_outer (d : side) (other parent : node_ptr) (h : rb_heap) : res (node_ptr * rb_heap) :=
  o ← deref other h;
  outer ← is_black (child (opp d) o) h;
  if outer : bool then
    h ← recolor (child d o) RB_BLACK h;
    h ← set_color other RB_RED h;
    h ← rotate (opp d) other h;
    p ← deref parent h;
    Ok (child (opp d) p, h)
  else Ok (other, h).

(** The last rotation. *)
Definition erase_final (d : side) (other parent : node_ptr) (h : rb_heap) : res rb_heap :=
  p ← deref parent h;
  h ← set_color other (rb_color p) h;
  h ← set_color parent RB_BLACK h;
  o ← deref other h;
  h ← recolor (child (opp d) o) RB_BLACK h;
  rotate d parent h.

(** Whether no child of the sibling is red. *)
Definition both_black (other : node_ptr) (h : rb_heap) : res bool :=
  o ← deref other h;
  left ← is_black (rb_left o) h;
  if left : bool then is_black (rb_right o) h else Ok false.

(** The rest of the body, with the sibling [other]: whether it breaks, and
    [node] and [parent] after it. *)
Definition erase_rest (d : side) (other parent : node_ptr) (h : rb_heap) :
    res (bool * node_ptr * node_ptr * rb_heap) :=
  both ← both_black other h;
  if both : bool then
    h ← set_color other RB_RED h;
    p ← deref parent h;
    Ok (false, parent, rb_parent p, h)
  else
    '(other, h) ← erase_outer d other parent h;
    h ← erase_final d other parent h;
    Ok (true, rb_root h, parent, h).

Definition erase_case (d : side) (parent : node_ptr) (h : rb_heap) : res (bool * node_ptr * node_ptr * rb_heap) :=
  '(other, h) ← erase_sibling d parent h;
  erase_rest d other parent h.

Fixpoint erase_loop (fuel : nat) (node parent : node_ptr) (h : rb_heap) : res (node_ptr * rb_heap) :=
  match fuel with
  | 0 => Fault OutOfFuel
  | S fuel =>
      black ← is_black node h;
      if (black && bool_decide (node <> rb_root h) : bool) then
        p ← deref parent h;
        '(stop, node, parent, h) ← erase_case (if decide (rb_left p = node) then Left else Right) parent h;
        if stop : bool then Ok (node, h) else erase_loop fuel node parent h
      else Ok (node, h)
  end.

Definition __rb_erase_color (node parent : node_ptr) (h : rb_heap) : res rb_heap :=
  '(node, h) ← erase_loop (S (size (nodes h))) node parent h;
  recolor node RB_BLACK h.

(** [while (child) node = child], from [node] down side [d]. *)
Fixpoint walk_down (fuel : nat) (d : side) (node : node_ptr) (h : rb_heap) : res node_ptr :=
  match fuel with
  | 0 => Fault OutOfFuel
  | S fuel =>
      n ← deref node h;
      match child d n with
      | Some _ as next => walk_down fuel d next h
      | None => Ok node
      end
  end.
Definition walk (d : side) (node : node_ptr) (h : rb_heap) : res node_ptr := walk_down (S (size (nodes h))) d node h.

(** The branch of [rb_erase] for a node with two children: its successor takes
    its place. The child and the parent of the gap, its colour, and the
    heap. *)
Definition erase_two (old : node_ptr) (h : rb_heap) : res (node_ptr * node_ptr * color * rb_heap) :=
  o ← deref old h;
  node ← walk Left (rb_right o) h;
  n ← deref node h;
  let child := rb_right n in
  let parent := rb_parent n in
  h ← reparent child parent h;
  h ← relink Left parent node child h;
  let gap := if decide (rb_parent n = old) then node else parent in
  o ← deref old h;
  h ← assign node (fun _ => mkNode (rb_parent o) (rb_right o) (rb_left o) (rb_color o)) h;
  h ← relink Left (rb_parent o) old node h;
  h ← set_parent (rb_left o) node h;
  h ← reparent (rb_right o) node h;
  Ok (child, gap, rb_color n, h).

Definition rb_erase (node : node_ptr) (h : rb_heap) : res rb_heap :=
  n ← deref node h;
  '(child, parent, color, h) ←
    match rb_left n, rb_right n with
    | Some _, Some _ => erase_two node h
    | l, r =>
        let child := match l with None => r | Some _ => l end in
        h ← reparent child (rb_parent n) h;
        h ← relink Left (rb_parent n) node child h;
        Ok (child, rb_parent n, rb_color n, h)
    end;
  if decide (color = RB_BLACK) then __rb_erase_color child parent h else Ok h.

(** ** Walking and replacing *)

(** [rb_first] is [outermost Left], [rb_last] is [outermost Right]. *)
Definition outermost (d : side) (h : rb_heap) : res node_ptr :=
  match rb_root h with None => Ok None | Some _ => walk d (rb_root h) h end.

(** [while (node->rb_parent && node == node->rb_parent->rb_right)], on side
    [d]; then the parent. *)
Fixpoint walk_up (fuel : nat) (d : side) (node : node_ptr) (h : rb_heap) : res node_ptr :=
  match fuel with
  | 0 => Fault OutOfFuel
  | S fuel =>
      n ← deref node h;
      match rb_parent n with
      | Some _ as parent =>
          p ← deref parent h;
          if decide (node = child d p) then walk_up fuel d parent h else Ok parent
      | None => Ok None
      end
  end.

(** [rb_next] is [adjacent Right], [rb_prev] is [adjacent Left]. *)
Definition adjacent (d : side) (node : node_ptr) (h : rb_heap) : res node_ptr :=
  n ← deref node h;
  match child d n with
  | Some _ as next => walk (opp d) next h
  | None => walk_up (S (size (nodes h))) d node h
  end.

Definition rb_first : rb_heap -> res node_ptr := outermost Left.
Definition rb_last : rb_heap -> res node_ptr := outermost Right.
Definition rb_next : node_ptr -> rb_heap -> res node_ptr := adjacent Right.
Definition rb_prev : node_ptr -> rb_heap -> res node_ptr := adjacent Left.

Definition rb_replace_node (victim newnode : node_ptr) (h : rb_heap) : res rb_heap :=
  v ← deref victim h;
  h ← relink Left (rb_parent v) victim newnode h;
  h ← reparent (rb_left v) newnode h;
  h ← reparent (rb_right v) newnode h;
  v ← deref victim h;
  assign newnode (fun _ => v) h.

(** ** A client: [rbtree_test.cpp]

    [data] holds key and value of each [mynode]; the address of a node stands
    for that of the structure around it ([rb_entry]). *)
Record rb_map := mkMap { heap : rb_heap; data : gmap positive (Z * Z) }.

Definition key_of (p : node_ptr) (m : rb_map) : res Z := fst <$> get_ NullDeref (p ≫= fun a => data m !! a).

Definition compareKey (key1 key2 : Z) : Z := if (key1 <? key2)%Z then -1 else if (key1 =? key2)%Z then 0 else 1.

Fixpoint search_loop (fuel : nat) (key : Z) (node : node_ptr) (m : rb_map) : res node_ptr :=
  match fuel with
  | 0 => Fault OutOfFuel
  | S fuel =>
      match node with
      | None => Ok None
      | Some _ =>
          k ← key_of node m;
          n ← deref node (heap m);
          let ret := compareKey key k in
          if (ret <? 0)%Z then search_loop fuel key (rb_left n) m
          else if (0 <? ret)%Z then search_loop fuel key (rb_right n) m
          else Ok node
      end
  end.
Definition my_search (key : Z) (m : rb_map) : res node_ptr :=
  search_loop (S (size (nodes (heap m)))) key (rb_root (heap m)) m.

(** The loop of [my_insert]: the node the slot holds, the parent, and the
    slot; [None] when the key is found. *)
Fixpoint place_loop (fuel : nat) (key : Z) (node parent : node_ptr) (link : option (positive * side)) (m : rb_map) :
    res (option (node_ptr * option (positive * side))) :=
  match fuel with
  | 0 => Fault OutOfFuel
  | S fuel =>
      match node with
      | None => Ok (Some (parent, link))
      | Some a =>
          k ← key_of node m;
          n ← deref node (heap m);
          let ret := compareKey key k in
          if (ret <? 0)%Z then place_loop fuel key (rb_left n) node (Some (a, Left)) m
          else if (0 <? ret)%Z then place_loop fuel key (rb_right n) node (Some (a, Right)) m
          else Ok None
      end
  end.

Definition my_insert (node : node_ptr) (m : rb_map) : res (Z * rb_map) :=
  key ← key_of node m;
  place ← place_loop (S (size (nodes (heap m)))) key (rb_root (heap m)) None None m;
  match place with
  | Some (parent, link) =>
      h ← rb_link_node node parent link (heap m);
      h ← rb_insert_color node h;
      Ok (0%Z, mkMap h (data m))
  | None => Ok ((-1)%Z, m)
  end.

(** [free] of a node. *)
Definition free_node (p : node_ptr) (m : rb_map) : res rb_map :=
  match p with
  | Some a =>
      _ ← deref p (heap m);
      Ok (mkMap (mkHeap (rb_root (heap m)) (delete a (nodes (heap m)))) (delete a (data m)))
  | None => Ok m
  end.

Definition my_delete (key : Z) (m : rb_map) : res rb_map :=
  node ← my_search key m;
  match node with
  | Some _ =>
      h ← rb_erase node (heap m);
      free_node node (mkMap h (data m))
  | None => Ok m
  end.

(** What [traverse] prints. *)
Fixpoint traverse_loop (fuel : nat) (node : node_ptr) (m : rb_map) : res (list (Z * Z)) :=
  match fuel with
  | 0 => Fault OutOfFuel
  | S fuel =>
      match node with
      | None => Ok []
      | Some _ =>
          kv ← get_ NullDeref (node ≫= fun a => data m !! a);
          next ← rb_next node (heap m);
          rest ← traverse_loop fuel next m;
          Ok (kv :: rest)
      end
  end.
Definition traverse (m : rb_map) : res (list (Z * Z)) :=
  first ← rb_first (heap m);
  traverse_loop (S (size (nodes (heap m)))) first m.

(** [malloc] of a [mynode] at [a], with whatever the memory held, and the
    assignments of key and value. *)
Definition new_mynode (a : positive) (garbage : rb_node) (key val : Z) (m : rb_map) : rb_map :=
  mkMap (mkHeap (rb_root (heap m)) (<[a := garbage]> (nodes (heap m)))) (<[a := (key, val)]> (data m)).
