(* ===== verification/RbShape.v ===== *)
(** * The shape of red-black trees in memory

    Trees of addresses, places in them, when memory holds a tree, and what the
    pointer operations do to the tree it holds. *)
From S2P Require Import Prelude.
From S2P Require Import RbTree.

(** ** Trees and places *)
Inductive tree := E | T (c : color) (l : tree) (p : positive) (r : tree).

Definition root (t : tree) : node_ptr := match t with E => None | T _ _ p _ => Some p end.
Definition color_of (t : tree) : color := match t with E => RB_BLACK | T c _ _ _ => c end.
Definition blacken (t : tree) : tree := match t with E => E | T _ l p r => T RB_BLACK l p r end.
Fixpoint inorder (t : tree) : list positive :=
  match t with E => [] | T _ l p r => inorder l ++ p :: inorder r end.

(** The tree at [p] with [t] on side [d] and [s] on the other. *)
Definition join (d : side) (c : color) (t : tree) (p : positive) (s : tree) : tree :=
  match d with Left => T c t p s | Right => T c s p t end.

(** The way down to a place: at each node the side taken and the tree on the
    other; the innermost node first. *)
Record frame := mkFrame { fside : side; fcolor : color; fptr : positive; fother : tree }.
Definition fill (f : frame) (t : tree) : tree := join (fside f) (fcolor f) t (fptr f) (fother f).
Fixpoint plug (k : list frame) (t : tree) : tree :=
  match k with [] => t | f :: k => plug k (fill f t) end.
Definition above (k : list frame) : node_ptr := match k with [] => None | f :: _ => Some (fptr f) end.
Definition ctx_ptrs (k : list frame) : list positive := concat ((fun f => fptr f :: inorder (fother f)) <$> k).

Lemma ctx_ptrs_cons f k : ctx_ptrs (f :: k) = fptr f :: inorder (fother f) ++ ctx_ptrs k.
Proof. done. Qed.

Lemma plug_app k1 k2 t : plug (k1 ++ k2) t = plug k2 (plug k1 t).
Proof. revert t; induction k1; intros t; simpl; auto. Qed.

Lemma root_join d c t p s : root (join d c t p s) = Some p.
Proof. by destruct d. Qed.
Lemma root_plug k t t' : k <> [] -> root (plug k t) = root (plug k t').
Proof.
  revert t t'; induction k as [|f k IH]; intros t t' H; [done|]. simpl.
  destruct k as [|g k]; [simpl; unfold fill; by rewrite !root_join|]. by apply IH.
Qed.

(** The sequence of a tree around a place. *)
Fixpoint before (k : list frame) : list positive :=
  match k with
  | [] => []
  | f :: k => before k ++ match fside f with Left => [] | Right => inorder (fother f) ++ [fptr f] end
  end.
Fixpoint after (k : list frame) : list positive :=
  match k with
  | [] => []
  | f :: k => match fside f with Left => fptr f :: inorder (fother f) | Right => [] end ++ after k
  end.

Lemma inorder_plug k t : inorder (plug k t) = before k ++ inorder t ++ after k.
Proof.
  revert t; induction k as [|f k IH]; intros t; simpl; [by rewrite app_nil_r|]. rewrite IH.
  unfold fill, join. destruct (fside f); simpl; rewrite <- !app_assoc; simpl; by rewrite ?app_nil_l.
Qed.

Lemma ctx_ptrs_perm k : ctx_ptrs k ≡ₚ before k ++ after k.
Proof.
  induction k as [|f k IH]; [done|]. rewrite ctx_ptrs_cons, IH. simpl.
  destruct (fside f); simpl; solve_Permutation.
Qed.

Lemma inorder_plug_perm k t : inorder (plug k t) ≡ₚ inorder t ++ ctx_ptrs k.
Proof. rewrite inorder_plug, ctx_ptrs_perm. solve_Permutation. Qed.

Lemma inorder_join d c t p s : inorder (join d c t p s) ≡ₚ p :: inorder t ++ inorder s.
Proof. destruct d; simpl; solve_Permutation. Qed.

(** A rotation keeps the sequence. *)
Lemma inorder_rotate d c c' t p m q s :
  inorder (join d c (join d c' t p m) q s) = inorder (join d c' t p (join d c m q s)).
Proof. destruct d; simpl; by rewrite <- !app_assoc. Qed.

(** ** Trees in memory *)
Fixpoint rep (m : gmap positive rb_node) (par : node_ptr) (t : tree) : Prop :=
  match t with
  | E => True
  | T c l p r => m !! p = Some (mkNode par (root r) (root l) c) /\ rep m (Some p) l /\ rep m (Some p) r
  end.

Definition join_node (par : node_ptr) (d : side) (c : color) (t s : node_ptr) : rb_node :=
  match d with Left => mkNode par s t c | Right => mkNode par t s c end.

Fixpoint rep_ctx (m : gmap positive rb_node) (k : list frame) (hole : node_ptr) : Prop :=
  match k with
  | [] => True
  | f :: k => m !! fptr f = Some (join_node (above k) (fside f) (fcolor f) hole (root (fother f)))
              /\ rep m (Some (fptr f)) (fother f) /\ rep_ctx m k (Some (fptr f))
  end.

Lemma rep_join m par d c t p s :
  rep m par (join d c t p s) <->
  m !! p = Some (join_node par d c (root t) (root s)) /\ rep m (Some p) t /\ rep m (Some p) s.
Proof. destruct d; simpl; tauto. Qed.

Lemma rep_plug m k t : rep m None (plug k t) <-> rep_ctx m k (root t) /\ rep m (above k) t.
Proof.
  revert t; induction k as [|f k IH]; intros t; simpl; [tauto|]. rewrite IH. unfold fill.
  rewrite rep_join, root_join. tauto.
Qed.

(** The heap holds [t]: its nodes are distinct, others do not matter. *)
Record holds_tree (h : rb_heap) (t : tree) : Prop := {
  ht_root : rb_root h = root t;
  ht_rep : rep (nodes h) None t;
  ht_nodup : NoDup (inorder t)
}.

(** Memory that agrees on the nodes of a tree. *)
Lemma rep_agree m m' par t : (forall a, a ∈ inorder t -> m' !! a = m !! a) -> rep m par t -> rep m' par t.
Proof.
  revert par; induction t as [|c l IHl p r IHr]; intros par H; simpl in *; [done|].
  intros (Hp & Hl & Hr). split; [|split].
  - rewrite H; [done|]. set_solver.
  - apply IHl; [|done]. intros a Ha. apply H. set_solver.
  - apply IHr; [|done]. intros a Ha. apply H. set_solver.
Qed.
Lemma rep_ctx_agree m m' k hole :
  (forall a, a ∈ ctx_ptrs k -> m' !! a = m !! a) -> rep_ctx m k hole -> rep_ctx m' k hole.
Proof.
  revert hole; induction k as [|f k IH]; intros hole H; simpl in *; [done|]. intros (Hp & Ho & Hk).
  rewrite ctx_ptrs_cons in H. split; [|split].
  - rewrite H; [done|]. set_solver.
  - apply (rep_agree m); [|done]. intros a Ha. apply H. set_solver.
  - apply IH; [|done]. intros a Ha. apply H. set_solver.
Qed.
Lemma rep_insert m par t a n : a ∉ inorder t -> rep m par t -> rep (<[a := n]> m) par t.
Proof. intros Ha. apply rep_agree. intros b Hb. apply lookup_insert_ne. set_solver. Qed.
Lemma rep_ctx_insert m k hole a n : a ∉ ctx_ptrs k -> rep_ctx m k hole -> rep_ctx (<[a := n]> m) k hole.
Proof. intros Ha. apply rep_ctx_agree. intros b Hb. apply lookup_insert_ne. set_solver. Qed.

Lemma root_elem t p : root t = Some p -> p ∈ inorder t.
Proof. destruct t; simpl; [done|]. intros [= ->]. set_solver. Qed.

(** ** What the pointer operations do *)
#[global] Arguments assign : simpl never.
#[global] Arguments deref : simpl never.

Lemma deref_some a h n : nodes h !! a = Some n -> deref (Some a) h = Ok n.
Proof. intros H. unfold deref. simpl. by rewrite H. Qed.

Lemma assign_some a f h n :
  nodes h !! a = Some n -> assign (Some a) f h = Ok (mkHeap (rb_root h) (<[a := f n]> (nodes h))).
Proof. intros H. unfold assign. by rewrite (deref_some _ _ _ H). Qed.

Lemma set_child_some d a v h n :
  nodes h !! a = Some n -> set_child d (Some a) v h = Ok (mkHeap (rb_root h) (<[a := put_child d v n]> (nodes h))).
Proof. apply assign_some. Qed.
Lemma set_parent_some a v h n :
  nodes h !! a = Some n ->
  set_parent (Some a) v h
  = Ok (mkHeap (rb_root h) (<[a := mkNode v (rb_right n) (rb_left n) (rb_color n)]> (nodes h))).
Proof. apply assign_some. Qed.

(** The root of a tree gets another parent. *)
Lemma reparent_spec t par v h :
  rep (nodes h) par t -> NoDup (inorder t) ->
  exists h', reparent (root t) v h = Ok h' /\ rep (nodes h') v t /\ rb_root h' = rb_root h
    /\ forall a, a ∉ inorder t -> nodes h' !! a = nodes h !! a.
Proof.
  destruct t as [|c l p r]; simpl; [intros _ _; by exists h|]. intros (Hp & Hl & Hr) Hnd.
  apply NoDup_app in Hnd as (Hndl & Hdis & Hndr). apply NoDup_cons in Hndr as [Hpr Hndr].
  unfold set_parent. rewrite (assign_some _ _ _ _ Hp). eexists. split; [done|]. simpl.
  rewrite lookup_insert_eq. split; [|split; [done|]].
  - split; [done|]. split; apply rep_insert; try done. intros Hpl. apply (Hdis p); set_solver.
  - intros a Ha. apply lookup_insert_ne. set_solver.
Qed.

(** The link from above leads elsewhere. *)
Lemma relink_spec d k p v h :
  rep_ctx (nodes h) k (Some p) -> NoDup (ctx_ptrs k) -> p ∉ ctx_ptrs k ->
  exists h', relink d (above k) (Some p) v h = Ok h' /\ rep_ctx (nodes h') k v
    /\ rb_root h' = (match k with [] => v | _ => rb_root h end)
    /\ forall a, a ∉ ctx_ptrs k -> nodes h' !! a = nodes h !! a.
Proof.
  destruct k as [|f k]; simpl; [intros _ _ _; by exists (set_root v h)|].
  rewrite ctx_ptrs_cons, NoDup_cons, NoDup_app. intros (Hf & Ho & Hk) (Hn1 & Hn2 & Hn3 & Hn4) Hp.
  rewrite (deref_some _ _ _ Hf). run_res.
  assert (Hs : root (fother f) <> Some p) by (intros Hr; apply root_elem in Hr; set_solver).
  exists (mkHeap (rb_root h) (<[fptr f := join_node (above k) (fside f) (fcolor f) v (root (fother f))]> (nodes h))).
  split; [|split; [|split; [done|]]].
  - destruct d, (fside f) eqn:Ed; simpl; first [rewrite decide_True by done | rewrite decide_False by done];
      unfold set_child; rewrite (assign_some _ _ _ _ Hf); done.
  - simpl. rewrite lookup_insert_eq. split; [done|]. split; [apply rep_insert | apply rep_ctx_insert]; set_solver.
  - intros a Ha. apply lookup_insert_ne. set_solver.
Qed.

(** Other memory is kept. *)
Definition keeps (l : list positive) (h h' : rb_heap) : Prop := forall a, a ∉ l -> nodes h' !! a = nodes h !! a.

Lemma keeps_trans l l' h1 h2 h3 :
  keeps l h1 h2 -> (forall a, a ∈ l' -> a ∈ l) -> keeps l' h2 h3 -> keeps l h1 h3.
Proof. intros H1 Hl H2 a Ha. rewrite H2 by auto. auto. Qed.

(** A tree in memory, seen from a place. *)
Lemma holds_plug h k t :
  holds_tree h (plug k t) <->
  rb_root h = root (plug k t) /\ rep_ctx (nodes h) k (root t) /\ rep (nodes h) (above k) t
  /\ NoDup (inorder t) /\ NoDup (ctx_ptrs k) /\ forall a, a ∈ inorder t -> a ∉ ctx_ptrs k.
Proof.
  split.
  - intros [Hr Hm Hn]. apply rep_plug in Hm as [??]. rewrite inorder_plug_perm, NoDup_app in Hn. tauto.
  - intros (? & ? & ? & ? & ? & ?). split; [done | by apply rep_plug|]. rewrite inorder_plug_perm, NoDup_app. tauto.
Qed.

Lemma nodup_join d c t p s :
  NoDup (inorder (join d c t p s)) <->
  NoDup (inorder t) /\ NoDup (inorder s) /\ p ∉ inorder t /\ p ∉ inorder s /\ forall a, a ∈ inorder t -> a ∉ inorder s.
Proof. rewrite inorder_join, NoDup_cons, NoDup_app, not_elem_of_app. tauto. Qed.

Lemma elem_join a d c t p s : a ∈ inorder (join d c t p s) <-> a = p \/ a ∈ inorder t \/ a ∈ inorder s.
Proof. rewrite inorder_join. set_solver. Qed.

Lemma elem_plug a k t : a ∈ inorder (plug k t) <-> a ∈ inorder t \/ a ∈ ctx_ptrs k.
Proof. rewrite inorder_plug_perm. set_solver. Qed.

Lemma node_spec h k d c t p s :
  holds_tree h (plug k (join d c t p s)) ->
  deref (Some p) h = Ok (join_node (above k) d c (root t) (root s)).
Proof. rewrite holds_plug, rep_join. intros (_ & _ & (Hp & _) & _). by apply deref_some. Qed.

Lemma color_spec h k d c t p s c' :
  holds_tree h (plug k (join d c t p s)) ->
  exists h', set_color (Some p) c' h = Ok h' /\ holds_tree h' (plug k (join d c' t p s))
    /\ keeps (inorder (plug k (join d c t p s))) h h'.
Proof.
  intros H. pose proof H as H'. rewrite holds_plug, rep_join, nodup_join, root_join in H'.
  destruct H' as (Hr & Hk & (Hp & Ht & Hs) & (Hnt & Hns & Hpt & Hps & Hts) & Hnk & Hd).
  setoid_rewrite elem_join in Hd. unfold set_color. rewrite (assign_some _ _ _ _ Hp). eexists. split; [done|]. split.
  - apply holds_plug. simpl. rewrite rep_join, nodup_join, root_join, lookup_insert_eq. setoid_rewrite elem_join.
    split; [|split; [|split; [|done]]].
    + rewrite Hr. destruct k as [|f k]; [by cbn [plug]; rewrite !root_join|]. by apply root_plug.
    + apply rep_ctx_insert; [|done]. apply Hd. tauto.
    + split; [by destruct d|]. split; by apply rep_insert.
  - intros a Ha. simpl. apply lookup_insert_ne. intros ->. apply Ha. rewrite elem_plug, elem_join. tauto.
Qed.

(** The nodes of a rotation are apart from each other. *)
Record apart (k : list frame) (a : tree) (p : positive) (m : tree) (q : positive) (s : tree) : Prop := {
  ap_ctx : NoDup (ctx_ptrs k); ap_m : NoDup (inorder m); ap_pq : p <> q;
  ap_pa : p ∉ inorder a; ap_pm : p ∉ inorder m; ap_ps : p ∉ inorder s; ap_pk : p ∉ ctx_ptrs k;
  ap_qa : q ∉ inorder a; ap_qm : q ∉ inorder m; ap_qs : q ∉ inorder s; ap_qk : q ∉ ctx_ptrs k;
  ap_am x : x ∈ inorder a -> x ∉ inorder m; ap_ak x : x ∈ inorder a -> x ∉ ctx_ptrs k;
  ap_ms x : x ∈ inorder m -> x ∉ inorder s; ap_mk x : x ∈ inorder m -> x ∉ ctx_ptrs k;
  ap_sk x : x ∈ inorder s -> x ∉ ctx_ptrs k
}.

Lemma apart_plug h k d c a p c' m q s :
  holds_tree h (plug k (join d c a p (join d c' m q s))) -> apart k a p m q s.
Proof.
  rewrite holds_plug, !nodup_join. repeat setoid_rewrite elem_join.
  intros (_ & _ & _ & (_ & (? & _ & ? & ? & ?) & ? & ? & Hd1) & ? & Hd2).
  split; try done; try tauto; intros; try (apply Hd2; tauto);
    try (intros Hx; eapply Hd1; [exact Hx | tauto]); try (intros Hx; eapply Hd1; [done | tauto]); intros ->; tauto.
Qed.

(** Facts about places that are apart. *)
Ltac apart_tac :=
  match goal with
  | H : apart _ _ _ _ _ _ |- _ =>
      destruct H; first [done | by intros -> | naive_solver]
  end.

(** The writes of a rotation below the link from above. *)
Lemma rotate_writes h k d c a p c' m q s :
  apart k a p m q s ->
  nodes h !! p = Some (join_node (above k) d c (root a) (Some q)) ->
  nodes h !! q = Some (join_node (Some p) d c' (root m) (root s)) ->
  rep (nodes h) (Some q) m ->
  exists h4, rotate d (Some p) h
      = (h ← relink d (above k) (Some p) (Some q) h4; set_parent (Some p) (Some q) h)
    /\ nodes h4 !! p = Some (join_node (above k) d c (root a) (root m))
    /\ nodes h4 !! q = Some (join_node (above k) d c' (Some p) (root s))
    /\ rep (nodes h4) (Some p) m /\ rb_root h4 = rb_root h
    /\ forall b, b <> p -> b <> q -> b ∉ inorder m -> nodes h4 !! b = nodes h !! b.
Proof.
  intros Hap Hp Hq Hm. unfold rotate. rewrite (deref_some _ _ _ Hp). run_res.
  replace (child (opp d) _) with (Some q) by (by destruct d). rewrite (deref_some _ _ _ Hq). run_res.
  replace (child d _) with (root m) by (by destruct d).
  rewrite (set_child_some _ _ _ _ _ Hp). run_res.
  replace (put_child _ _ _) with (join_node (above k) d c (root a) (root m)) by (by destruct d).
  set (h1 := mkHeap _ _).
  assert (Hm1 : rep (nodes h1) (Some q) m) by (apply rep_insert; [apart_tac | done]).
  destruct (reparent_spec m (Some q) (Some p) h1 Hm1) as (h2 & -> & Hm2 & Hr2 & Hf2); [apart_tac|]. run_res.
  assert (Hq2 : nodes h2 !! q = Some (join_node (Some p) d c' (root m) (root s))).
  { rewrite Hf2 by apart_tac. simpl. by rewrite lookup_insert_ne by apart_tac. }
  rewrite (set_child_some _ _ _ _ _ Hq2). run_res.
  replace (put_child _ _ _) with (join_node (Some p) d c' (Some p) (root s)) by (by destruct d).
  set (h3 := mkHeap _ _).
  assert (Hp3 : nodes h3 !! p = Some (join_node (above k) d c (root a) (root m))).
  { simpl. rewrite lookup_insert_ne, Hf2 by apart_tac. simpl. apply lookup_insert_eq. }
  assert (Hq3 : nodes h3 !! q = Some (join_node (Some p) d c' (Some p) (root s))) by apply lookup_insert_eq.
  rewrite (deref_some _ _ _ Hp3). run_res. replace (rb_parent _) with (above k) by (by destruct d).
  rewrite (set_parent_some _ _ _ _ Hq3). run_res.
  replace (mkNode (above k) _ _ _) with (join_node (above k) d c' (Some p) (root s)) by (by destruct d).
  eexists. split; [reflexivity|]. cbn [nodes rb_root]. split; [|split; [|split; [|split]]].
  - by rewrite lookup_insert_ne by apart_tac.
  - apply lookup_insert_eq.
  - do 2 (apply rep_insert; [apart_tac|]). done.
  - done.
  - intros b Hbp Hbq Hbm. rewrite lookup_insert_ne by done. simpl. rewrite lookup_insert_ne, Hf2 by done. simpl.
    by rewrite lookup_insert_ne.
Qed.

Lemma rotate_spec h k d c a p c' m q s :
  holds_tree h (plug k (join d c a p (join d c' m q s))) ->
  exists h', rotate d (Some p) h = Ok h' /\ holds_tree h' (plug k (join d c' (join d c a p m) q s))
    /\ keeps (inorder (plug k (join d c a p (join d c' m q s)))) h h'.
Proof.
  intros H. pose proof (apart_plug _ _ _ _ _ _ _ _ _ _ H) as Hap. pose proof H as H'.
  rewrite holds_plug, !rep_join, !root_join in H'. destruct H' as (Hr & Hk & (Hp & Ha & Hq & Hm & Hs) & _ & Hnk & _).
  destruct (rotate_writes h k d c a p c' m q s Hap Hp Hq Hm) as (h4 & -> & Hp4 & Hq4 & Hm4 & Hr4 & Hf4).
  destruct (relink_spec d k p (Some q) h4) as (h5 & -> & Hk5 & Hr5 & Hf5); [|done|apart_tac|].
  { apply (rep_ctx_agree (nodes h)); [|done]. intros b Hb. apply Hf4; apart_tac. }
  run_res. rewrite <- (Hf5 p) in Hp4 by apart_tac. rewrite <- (Hf5 q) in Hq4 by apart_tac. rewrite (set_parent_some _ _ _ _ Hp4).
  assert (Hf : forall b, b <> p -> b <> q -> b ∉ inorder m -> b ∉ ctx_ptrs k -> nodes h5 !! b = nodes h !! b)
    by (intros; rewrite Hf5, Hf4; done).
  eexists. split; [done|]. split; [split|]; cbn [rb_root nodes].
  - rewrite Hr5. destruct k as [|f k]; [by cbn [plug]; rewrite root_join|]. rewrite Hr4, Hr. by apply root_plug.
  - apply rep_plug. rewrite !rep_join, !root_join. split; [apply rep_ctx_insert; [apart_tac | done]|].
    split; [by rewrite lookup_insert_ne by apart_tac|]. split; [split; [|split]|].
    + rewrite lookup_insert_eq. by destruct d.
    + apply rep_insert; [apart_tac|]. apply (rep_agree (nodes h)); [|done]. intros b Hb. apply Hf; apart_tac.
    + apply rep_insert; [apart_tac|]. apply (rep_agree (nodes h4)); [|done]. intros b Hb. apply Hf5. apart_tac.
    + apply rep_insert; [apart_tac|]. apply (rep_agree (nodes h)); [|done]. intros b Hb. apply Hf; apart_tac.
  - rewrite inorder_plug, inorder_rotate, <- inorder_plug. apply H.
  - intros b Hb. rewrite elem_plug, !elem_join in Hb. cbn [nodes]. rewrite lookup_insert_ne by (intros ->; tauto).
    apply Hf; first [tauto | intros ->; tauto].
Qed.
