(* ===== verification/RbTreeFacts.v ===== *)
(** * Correctness of the red-black trees

    Insertion and removal keep the trees balanced and change their sequence of
    nodes as they should. *)
From S2P Require Import Prelude.
From S2P Require Import RbTree.
From S2P Require Import RbShape.

(** ** Red-black trees *)

(** [n] black nodes on every way down; no red node has a red child. *)
Fixpoint bal (n : nat) (t : tree) : Prop :=
  match t with
  | E => n = 0
  | T RB_RED l _ r => bal n l /\ bal n r
  | T RB_BLACK l _ r => match n with 0 => False | S n => bal n l /\ bal n r end
  end.
Fixpoint red_ok (t : tree) : Prop :=
  match t with
  | E => True
  | T c l _ r => (c = RB_RED -> color_of l = RB_BLACK /\ color_of r = RB_BLACK) /\ red_ok l /\ red_ok r
  end.
Definition rb_tree (t : tree) : Prop := color_of t = RB_BLACK /\ red_ok t /\ exists n, bal n t.

(** The same of the surroundings of a place, for a tree of height [n] and
    colour [c] there; the root is black. *)
Fixpoint ctx_bal (n : nat) (k : list frame) : Prop :=
  match k with
  | [] => True
  | f :: k => bal n (fother f) /\ ctx_bal (match fcolor f with RB_RED => n | RB_BLACK => S n end) k
  end.
Fixpoint ctx_ok (c : color) (k : list frame) : Prop :=
  match k with
  | [] => c = RB_BLACK
  | f :: k => (fcolor f = RB_RED -> c = RB_BLACK /\ color_of (fother f) = RB_BLACK)
              /\ red_ok (fother f) /\ ctx_ok (fcolor f) k
  end.

Lemma bal_join n d c t p s :
  bal n (join d c t p s) <->
  match c with RB_RED => bal n t /\ bal n s | RB_BLACK => exists m, n = S m /\ bal m t /\ bal m s end.
Proof.
  destruct d, c; simpl; try tauto; (destruct n as [|n];
    [split; [done | by intros (? & ? & _)] | split; [intros []; by exists n | intros (? & [= <-] & ?); tauto]]).
Qed.
Lemma red_ok_join d c t p s :
  red_ok (join d c t p s) <->
  (c = RB_RED -> color_of t = RB_BLACK /\ color_of s = RB_BLACK) /\ red_ok t /\ red_ok s.
Proof. destruct d; simpl; tauto. Qed.
Lemma color_join d c t p s : color_of (join d c t p s) = c.
Proof. by destruct d. Qed.
Lemma join_opp d c t p s : join (opp d) c t p s = join d c s p t.
Proof. by destruct d. Qed.
Lemma tree_join d c l p r : exists a b, T c l p r = join d c a p b.
Proof. destruct d; [by exists l, r | by exists r, l]. Qed.

Lemma ctx_ok_black c k : ctx_ok c k -> ctx_ok RB_BLACK k.
Proof. destruct k as [|f k]; simpl; [done|]. tauto. Qed.

Lemma plug_bal n k t : bal n t -> ctx_bal n k -> exists m, bal m (plug k t).
Proof.
  revert n t; induction k as [|f k IH]; intros n t Ht; simpl; [by exists n|]. intros [Ho Hk].
  apply (IH _ (fill f t)) in Hk; [done|]. unfold fill. apply bal_join. destruct (fcolor f); [done|]. by exists n.
Qed.
Lemma plug_ok k t : red_ok t -> ctx_ok (color_of t) k -> red_ok (plug k t) /\ color_of (plug k t) = RB_BLACK.
Proof.
  revert t; induction k as [|f k IH]; intros t Ht; simpl; [done|]. intros (Hf & Ho & Hk).
  apply IH; unfold fill; [rewrite red_ok_join; done | by rewrite color_join].
Qed.
Lemma plug_rb n k t : bal n t -> ctx_bal n k -> red_ok t -> ctx_ok (color_of t) k -> rb_tree (plug k t).
Proof. intros Hb Hk Ht Hok. destruct (plug_ok k t Ht Hok). split; [done|]. split; [done|]. by eapply plug_bal. Qed.

Lemma rb_plug k t :
  rb_tree (plug k t) -> exists n, bal n t /\ ctx_bal n k /\ red_ok t /\ ctx_ok (color_of t) k.
Proof.
  intros (Hc & Hr & m & Hm). revert t m Hc Hr Hm; induction k as [|f k IH]; intros t m Hc Hr Hm; simpl in *; [by exists m|].
  destruct (IH _ m Hc Hr Hm) as (n & Hn & Hkb & Hok & Hko). unfold fill in *. rewrite bal_join in Hn.
  rewrite red_ok_join in Hok. rewrite color_join in Hko. destruct (fcolor f).
  - exists n. tauto.
  - destruct Hn as (n' & -> & ? & ?). exists n'. tauto.
Qed.

Lemma blacken_black t : color_of t = RB_BLACK -> blacken t = t.
Proof. destruct t; simpl; congruence. Qed.
Lemma blacken_bal n t : bal n t -> exists m, bal m (blacken t).
Proof. destruct t as [|[] l p r]; intros H; [by exists n | by exists (S n) | by exists n]. Qed.
Lemma blacken_ok t : red_ok t -> red_ok (blacken t).
Proof. destruct t; simpl; [done|]. intros (_ & ? & ?). by split. Qed.
Lemma inorder_blacken t : inorder (blacken t) = inorder t.
Proof. by destruct t. Qed.

(** The number of nodes is the fuel. *)
Lemma holds_size h t : holds_tree h t -> length (inorder t) <= size (nodes h).
Proof.
  intros [_ Hm Hn]. rewrite <- size_dom, <- (size_list_to_set (C := gset positive)) by exact Hn. apply subseteq_size.
  intros a. rewrite elem_of_list_to_set, elem_of_dom. revert Hm. generalize (@None positive).
  induction t as [|c l IHl p r IHr]; intros par; simpl in *; [set_solver|]. intros (Hp & Hl & Hr) Ha.
  apply NoDup_app in Hn as (? & _ & [_ ?]%NoDup_cons).
  apply elem_of_app in Ha as [?|[->|?]%elem_of_cons]; eauto.
Qed.
Lemma ctx_length k t : length k + length (inorder t) <= length (inorder (plug k t)).
Proof.
  rewrite inorder_plug_perm, length_app. enough (length k <= length (ctx_ptrs k)) by lia.
  induction k as [|f k IH]; [done|]. rewrite ctx_ptrs_cons. simpl. rewrite length_app. lia.
Qed.

(** ** Insertion *)

(** The children of a node differ. *)
Lemma siblings h k d c t p s a :
  holds_tree h (plug k (join d c t p s)) -> root t = Some a -> root s <> Some a.
Proof.
  rewrite holds_plug, nodup_join. intros (_ & _ & _ & (_ & _ & _ & _ & Hd) & _) Ht Hs.
  apply (Hd a); by apply root_elem.
Qed.

Record ins_inv (n : nat) (k : list frame) (t : tree) : Prop := {
  ii_bal : bal n t; ii_ok : red_ok t; ii_ctx : ctx_bal n k; ii_ctx_ok : ctx_ok RB_BLACK k
}.

(** [red] is right about the root of a tree. *)
Lemma is_red_spec h k d c t p s :
  holds_tree h (plug k (join d c t p s)) -> is_red (root s) h = Ok (bool_decide (color_of s = RB_RED)).
Proof.
  destruct s as [|c' l q r]; [done|]. rewrite <- join_opp. intros H. unfold is_red. cbn [root].
  change (plug k (join (opp d) c (T c' l q r) p t)) with (plug (mkFrame (opp d) c p t :: k) (join Left c' l q r)) in H.
  by rewrite (node_spec _ _ _ _ _ _ _ H).
Qed.

(** Two trees with the same sequence. *)
Ltac same_inorder d :=
  cbn [plug]; rewrite !inorder_plug; unfold fill; cbn [fside fother fptr fcolor];
  destruct d; simpl; repeat first [rewrite <- app_assoc | rewrite <- app_comm_cons]; done.

(** Colours and rotations at a place below others. *)
Lemma color_at h k f c' t :
  holds_tree h (plug (f :: k) t) ->
  exists h', set_color (Some (fptr f)) c' h = Ok h'
    /\ holds_tree h' (plug (mkFrame (fside f) c' (fptr f) (fother f) :: k) t)
    /\ keeps (inorder (plug (f :: k) t)) h h'.
Proof. apply (color_spec h k). Qed.

Lemma keeps_eq l l' h1 h2 h3 : keeps l h1 h2 -> l' = l -> keeps l' h2 h3 -> keeps l h1 h3.
Proof. intros H1 -> H2. eapply keeps_trans; eauto. Qed.

(** The uncle is red. *)
Lemma insert_red h k d gp d' fp s t ul up ur :
  let T0 := plug k (join d RB_BLACK (join d' RB_RED t fp s) gp (T RB_RED ul up ur)) in
  let T1 := plug k (join d RB_RED (join d' RB_BLACK t fp s) gp (T RB_BLACK ul up ur)) in
  holds_tree h T0 ->
  exists h', insert_case d (root t) (Some fp) (Some gp) h = Ok (Some gp, h') /\ holds_tree h' T1 /\ keeps (inorder T0) h h'.
Proof.
  intros T0 T1 H. unfold insert_case, T0 in *. rewrite (node_spec _ _ _ _ _ _ _ H). run_res.
  replace (child (opp d) _) with (root (T RB_RED ul up ur)) by (by destruct d).
  rewrite (is_red_spec _ _ _ _ _ _ _ H). cbn [color_of root]. rewrite bool_decide_true by done. run_res.
  rewrite <- join_opp in H.
  destruct (color_spec h (mkFrame (opp d) RB_BLACK gp (join d' RB_RED t fp s) :: k) Left RB_RED ul up ur RB_BLACK H)
    as (h1 & -> & H1 & K1). run_res.
  cbn [plug fill fside fcolor fptr fother join] in H1, K1. unfold fill in H1, K1. cbn [fside fcolor fptr fother] in H1, K1.
  rewrite join_opp in H1, K1.
  destruct (color_spec h1 (mkFrame d RB_BLACK gp (T RB_BLACK ul up ur) :: k) d' RB_RED t fp s RB_BLACK H1)
    as (h2 & -> & H2 & K2). run_res.
  destruct (color_spec h2 k d RB_BLACK _ gp _ RB_RED H2) as (h3 & -> & H3 & K3). run_res.
  exists h3. split; [done|]. split; [exact H3|].
  eapply keeps_eq; [exact K1 | | eapply keeps_eq; [exact K2 | | exact K3]]; cbn [plug]; unfold fill;
    rewrite !inorder_plug; do 2 f_equal; destruct d, d'; done.
Qed.

(** The uncle is black: the last writes of a round. *)
Lemma insert_tail h k d N q s gp u (v : node_ptr) :
  let T0 := plug k (join d RB_BLACK (join d RB_RED N q s) gp u) in
  holds_tree h T0 ->
  exists h', (h ← set_color (Some q) RB_BLACK h; h ← set_color (Some gp) RB_RED h; h ← rotate (opp d) (Some gp) h; Ok (v, h))
             = Ok (v, h')
    /\ holds_tree h' (plug k (join d RB_BLACK N q (join d RB_RED s gp u))) /\ keeps (inorder T0) h h'.
Proof.
  intros T0 H. unfold T0 in *.
  destruct (color_spec h (mkFrame d RB_BLACK gp u :: k) d RB_RED N q s RB_BLACK H) as (h1 & -> & H1 & K1). run_res.
  destruct (color_spec h1 k d RB_BLACK _ gp u RB_RED H1) as (h2 & -> & H2 & K2). run_res.
  cbn [fside fother fptr fcolor] in H2.
  rewrite <- (join_opp d RB_RED), <- (join_opp d RB_BLACK) in H2.
  destruct (rotate_spec h2 k (opp d) RB_RED u gp RB_BLACK s q N H2) as (h3 & -> & H3 & K3). run_res.
  rewrite !join_opp in H3. exists h3. split; [done|]. split; [done|].
  eapply keeps_eq; [exact K1 | | eapply keeps_eq; [exact K2 | | exact K3]]; rewrite ?join_opp; same_inorder d.
Qed.

Lemma insert_black h k n d gp d' fp s l p r u :
  let t := T RB_RED l p r in
  let T0 := plug k (join d RB_BLACK (join d' RB_RED t fp s) gp u) in
  holds_tree h T0 -> color_of u = RB_BLACK -> color_of s = RB_BLACK ->
  bal n t -> red_ok t -> bal n s -> red_ok s -> bal n u -> red_ok u -> ctx_bal (S n) k -> ctx_ok RB_BLACK k ->
  exists h' l' p' r' q a, insert_case d (Some p) (Some fp) (Some gp) h = Ok (Some p', h')
    /\ holds_tree h' (plug (mkFrame d RB_BLACK q a :: k) (T RB_RED l' p' r'))
    /\ ins_inv n (mkFrame d RB_BLACK q a :: k) (T RB_RED l' p' r')
    /\ inorder (plug (mkFrame d RB_BLACK q a :: k) (T RB_RED l' p' r')) = inorder T0 /\ keeps (inorder T0) h h'.
Proof.
  intros t T0 H Hcu Hcs Hbt Hot Hbs Hos Hbu Hou Hck Hok. unfold T0 in *.
  unfold insert_case. rewrite (node_spec _ _ _ _ _ _ _ H). run_res.
  replace (child (opp d) _) with (root u) by (by destruct d).
  rewrite (is_red_spec _ _ _ _ _ _ _ H), bool_decide_false by (by rewrite Hcu). run_res.
  rewrite (node_spec h (mkFrame d RB_BLACK gp u :: k) d' RB_RED t fp s H). run_res.
  assert (Hd : d' = d \/ d' = opp d) by (destruct d, d'; tauto). destruct Hd as [-> | ->].
  - rewrite decide_False.
    2:{ pose proof (siblings h (mkFrame d RB_BLACK gp u :: k) d RB_RED t fp s p H eq_refl). by destruct d. }
    run_res. destruct (insert_tail h k d t fp s gp u (Some p) H) as (h' & -> & H' & K).
    exists h', l, p, r, fp, (join d RB_RED s gp u). split; [done|]. split; [done|]. split; [|split; [|done]].
    + split; [done | done | |]; simpl.
      * rewrite bal_join. tauto.
      * rewrite red_ok_join. intuition congruence.
    + subst t. same_inorder d.
  - rewrite decide_True by (by destruct d). rewrite join_opp in H.
    destruct (tree_join d RB_RED l p r) as (a & b & Et). unfold t in *. rewrite Et in *.
    rewrite bal_join in Hbt. rewrite red_ok_join in Hot. destruct Hot as (Hcab & Hoa & Hob). specialize (Hcab eq_refl).
    destruct (rotate_spec h (mkFrame d RB_BLACK gp u :: k) d RB_RED s fp RB_RED a p b H) as (h1 & -> & H1 & K1).
    run_res. destruct (insert_tail h1 k d (join d RB_RED s fp a) p b gp u (Some fp) H1) as (h2 & -> & H2 & K2).
    assert (Hj : exists l' r', join d RB_RED s fp a = T RB_RED l' fp r') by (destruct d; eexists _, _; done).
    destruct Hj as (l' & r' & Hj). rewrite Hj in *.
    exists h2, l', fp, r', p, (join d RB_RED b gp u). split; [done|]. split; [done|]. rewrite <- Hj in *.
    split; [|split].
    + split; simpl; rewrite ?bal_join, ?red_ok_join; intuition congruence.
    + same_inorder d.
    + rewrite join_opp. eapply keeps_eq; [exact K1 | | exact K2]; same_inorder d.
Qed.

(** The side of [gparent] that [parent] is on. *)
Lemma side_spec h k d c t p s a :
  holds_tree h (plug k (join d c t p s)) -> root t = Some a ->
  (if decide (@eq node_ptr (Some a) (rb_left (join_node (above k) d c (root t) (root s)))) then Left else Right) = d.
Proof.
  intros H Ht. pose proof (siblings _ _ _ _ _ _ _ _ H Ht) as Hs.
  destruct d; simpl; [by rewrite decide_True | by rewrite decide_False].
Qed.

(** Below a black node the tree is repaired. *)
Lemma black_parent n d p o k t :
  bal n t -> red_ok t -> ctx_bal n (mkFrame d RB_BLACK p o :: k) -> ctx_ok RB_BLACK (mkFrame d RB_BLACK p o :: k) ->
  rb_tree (blacken (plug (mkFrame d RB_BLACK p o :: k) t)).
Proof.
  intros Hb Ho [Hbo Hkb] (_ & Hoo & Hko). simpl in *.
  assert (Hrb : rb_tree (plug k (join d RB_BLACK t p o))).
  { apply (plug_rb (S n)); [|done| |by rewrite color_join].
    - rewrite bal_join. by exists n.
    - rewrite red_ok_join. intuition congruence. }
  change (fill _ t) with (join d RB_BLACK t p o). by rewrite blacken_black by apply Hrb.
Qed.

(** A red uncle moves the problem up. *)
Lemma ins_up n k d gp d' fp s t ul up ur :
  bal n t -> red_ok t -> color_of t = RB_RED -> bal n s -> red_ok s -> bal n (T RB_RED ul up ur) ->
  red_ok (T RB_RED ul up ur) -> ctx_bal (S n) k -> ctx_ok RB_BLACK k ->
  ins_inv (S n) k (join d RB_RED (join d' RB_BLACK t fp s) gp (T RB_BLACK ul up ur)).
Proof.
  simpl. intros ? ? ? ? ? ? ? ? ?. split; [| |done|done].
  - rewrite !bal_join. split; [by exists n|]. simpl. tauto.
  - rewrite !red_ok_join, color_join. simpl. intuition congruence.
Qed.

Lemma insert_loop_spec fuel h k n l p r :
  let t := T RB_RED l p r in
  holds_tree h (plug k t) -> ins_inv n k t -> length k < fuel ->
  exists h' t', insert_loop fuel (Some p) h = Ok h' /\ holds_tree h' t' /\ rb_tree (blacken t')
    /\ inorder t' = inorder (plug k t) /\ keeps (inorder t') h h'.
Proof.
  revert h k n l p r; induction fuel as [|fuel IH]; intros h k n l p r t H I Hf; [lia|]. cbn [insert_loop].
  rewrite (node_spec h k Left RB_RED l p r H). run_res. destruct I as [Hb Ho Hkb Hko].
  destruct k as [|[d' c fp s] k]; cbn [above is_red rb_parent join_node].
  { run_res. exists h, t. split; [done|]. split; [done|]. split; [|done].
    split; [done|]. split; [by apply blacken_ok | by eapply blacken_bal]. }
  cbn [fptr]. pose proof (node_spec h k d' c t fp s H) as Rp. unfold is_red. rewrite Rp. run_res.
  replace (rb_color _) with c by (by destruct d'). destruct c.
  2:{ rewrite bool_decide_false by done. run_res. exists h, (plug (mkFrame d' RB_BLACK fp s :: k) t).
      split; [done|]. split; [done|]. split; [by apply (black_parent n) | done]. }
  rewrite bool_decide_true by done. run_res.
  replace (rb_parent _) with (above k) by (by destruct d'). clear Rp.
  simpl in Hkb, Hko. destruct Hkb as [Hbs Hkb], Hko as (Hcs & Hos & Hko). destruct (Hcs eq_refl) as [_ Hcs'].
  destruct k as [|[d c gp u] k]; [done|]. simpl in Hkb, Hko. destruct Hkb as [Hbu Hkb], Hko as (Hcu & Hou & Hko).
  destruct c; [by destruct (Hcu eq_refl)|]. cbn [above fptr].
  pose proof (node_spec h k d RB_BLACK (join d' RB_RED t fp s) gp u H) as Rg. rewrite Rg. run_res.
  rewrite (side_spec h k d RB_BLACK (join d' RB_RED t fp s) gp u fp H) by apply root_join.
  change (plug _ t) with (plug k (join d RB_BLACK (join d' RB_RED t fp s) gp u)) in H |- *.
  destruct (color_of u) eqn:Ecu.
  - destruct u as [|[] ul up ur]; try done.
    destruct (insert_red h k d gp d' fp s t ul up ur H) as (h1 & E1 & H1 & K1). change (root t) with (Some p) in E1. rewrite E1. run_res.
    assert (Hj : exists l' r', join d RB_RED (join d' RB_BLACK t fp s) gp (T RB_BLACK ul up ur) = T RB_RED l' gp r')
      by (destruct d; eexists _, _; done).
    destruct Hj as (l' & r' & Hj). rewrite Hj in H1.
    destruct (IH h1 k (S n) l' gp r' H1) as (h2 & t' & -> & H2 & Hrb & Hin & K2); [|simpl in Hf; lia|].
    { rewrite <- Hj. by apply ins_up. }
    exists h2, t'. split; [done|]. split; [done|]. split; [done|].
    assert (Hin' : inorder t' = inorder (plug k (join d RB_BLACK (join d' RB_RED t fp s) gp (T RB_RED ul up ur)))).
    { rewrite Hin, <- Hj. rewrite !inorder_plug. by destruct d, d'. }
    split; [done|]. rewrite Hin'. eapply keeps_eq; [exact K1 | exact Hin' | exact K2].
  - destruct (insert_black h k n d gp d' fp s l p r u) as (h1 & l' & p' & r' & q & a & -> & H1 & I1 & Hin1 & K1); try done.
    run_res. destruct (IH h1 _ n l' p' r' H1 I1) as (h2 & t' & -> & H2 & Hrb & Hin & K2); [simpl in *; lia|].
    exists h2, t'. split; [done|]. split; [done|]. split; [done|].
    rewrite Hin, Hin1. split; [done|]. eapply keeps_eq; [exact K1 | | exact K2]. by rewrite Hin.
Qed.

(** Blackening the root. *)
Lemma blacken_root h t :
  holds_tree h t -> t <> E ->
  exists h', set_color (rb_root h) RB_BLACK h = Ok h' /\ holds_tree h' (blacken t) /\ keeps (inorder t) h h'.
Proof.
  intros H Ht. destruct t as [|c l p r]; [done|]. rewrite (ht_root _ _ H).
  destruct (color_spec h [] Left c l p r RB_BLACK H) as (h' & ? & ? & ?). by exists h'.
Qed.

Lemma rb_insert_color_spec h k p :
  holds_tree h (plug k (T RB_RED E p E)) -> ctx_bal 0 k -> ctx_ok RB_BLACK k ->
  exists h' t, rb_insert_color (Some p) h = Ok h' /\ holds_tree h' t /\ rb_tree t
    /\ inorder t = before k ++ p :: after k /\ keeps (inorder t) h h'.
Proof.
  intros H Hb Ho. unfold rb_insert_color.
  destruct (insert_loop_spec (S (size (nodes h))) h k 0 E p E H) as (h1 & t & -> & H1 & Hrb & Hin & K1).
  { by split. }
  { pose proof (holds_size _ _ H). pose proof (ctx_length k (T RB_RED E p E)). lia. }
  run_res. destruct (blacken_root h1 t H1) as (h2 & -> & H2 & K2).
  { intros ->. rewrite inorder_plug in Hin. by destruct (before k). }
  exists h2, (blacken t). split; [done|]. split; [done|]. split; [done|]. rewrite inorder_blacken.
  split; [by rewrite Hin, inorder_plug|]. eapply keeps_eq; [exact K1 | reflexivity | exact K2].
Qed.

(** ** Removal *)

Lemma root_split d t p : root t = Some p -> exists c a b, t = join d c a p b.
Proof. destruct t as [|c l q r]; [done|]. intros [= ->]. destruct (tree_join d c l p r) as (a & b & E). by exists c, a, b. Qed.

Lemma is_black_at h k t : holds_tree h (plug k t) -> is_black (root t) h = Ok (bool_decide (color_of t = RB_BLACK)).
Proof.
  destruct t as [|c l p r]; [done|]. intros H. unfold is_black. cbn [root].
  by rewrite (node_spec h k Left c l p r H).
Qed.

Lemma recolor_at h k t :
  holds_tree h (plug k t) ->
  exists h', recolor (root t) RB_BLACK h = Ok h' /\ holds_tree h' (plug k (blacken t)) /\ keeps (inorder (plug k t)) h h'.
Proof.
  destruct t as [|c l p r]; [intros H; exists h; done|]. intros H.
  destruct (color_spec h k Left c l p r RB_BLACK H) as (h' & ? & ? & ?). by exists h'.
Qed.

(** The place of the inner ([d]) and outer child of a node. *)
Lemma inner_place k d c a q b : plug k (join d c a q b) = plug (mkFrame d c q b :: k) a.
Proof. done. Qed.
Lemma outer_place k d c a q b : plug k (join d c a q b) = plug (mkFrame (opp d) c q a :: k) b.
Proof. cbn [plug]. unfold fill. cbn [fside fother fptr fcolor]. by rewrite join_opp. Qed.

(** A black sibling stays. *)
Lemma sibling_black h k d c t p a q b :
  holds_tree h (plug k (join d c t p (join d RB_BLACK a q b))) ->
  erase_sibling d (Some p) h = Ok (Some q, h).
Proof.
  intros H. unfold erase_sibling. rewrite (node_spec _ _ _ _ _ _ _ H). run_res. rewrite root_join.
  replace (child (opp d) _) with (Some q) by (by destruct d).
  rewrite outer_place in H. rewrite (node_spec _ _ _ _ _ _ _ H). run_res.
  rewrite decide_False; [done|]. by destruct d.
Qed.

(** A red one makes way. *)
Lemma sibling_red h k d c t p a q b :
  let T0 := plug k (join d c t p (join d RB_RED a q b)) in
  holds_tree h T0 ->
  exists h', erase_sibling d (Some p) h = Ok (root a, h')
    /\ holds_tree h' (plug k (join d RB_BLACK (join d RB_RED t p a) q b)) /\ keeps (inorder T0) h h'.
Proof.
  intros T0 H. unfold T0 in *. unfold erase_sibling. rewrite (node_spec _ _ _ _ _ _ _ H). run_res. rewrite root_join.
  replace (child (opp d) _) with (Some q) by (by destruct d).
  pose proof H as Ho. rewrite outer_place in Ho. rewrite (node_spec _ _ _ _ _ _ _ Ho). run_res.
  rewrite decide_True by (by destruct d).
  destruct (color_spec h _ d RB_RED a q b RB_BLACK Ho) as (h1 & -> & H1 & K1). run_res.
  rewrite <- outer_place in H1, K1.
  destruct (color_spec h1 k d c t p _ RB_RED H1) as (h2 & -> & H2 & K2). run_res.
  destruct (rotate_spec h2 k d RB_RED t p RB_BLACK a q b H2) as (h3 & -> & H3 & K3). run_res.
  rewrite inner_place in H3. rewrite (node_spec _ _ _ _ _ _ _ H3). run_res.
  replace (child (opp d) _) with (root a) by (by destruct d).
  exists h3. split; [done|]. split; [done|].
  eapply keeps_eq; [exact K1 | | eapply keeps_eq; [exact K2 | | exact K3]]; same_inorder d.
Qed.

(** The outer child of the sibling is made red. *)
Lemma outer_red h k d c t p a q b :
  holds_tree h (plug k (join d c t p (join d RB_BLACK a q b))) -> color_of b = RB_RED ->
  erase_outer d (Some q) (Some p) h = Ok (Some q, h).
Proof.
  intros H Hb. unfold erase_outer. rewrite outer_place in H. rewrite (node_spec _ _ _ _ _ _ _ H). run_res.
  replace (child (opp d) _) with (root b) by (by destruct d).
  rewrite outer_place in H. rewrite (is_black_at _ _ _ H), bool_decide_false by congruence. done.
Qed.

Lemma outer_black h k d c t p a1 r a2 q b :
  let T0 := plug k (join d c t p (join d RB_BLACK (join d RB_RED a1 r a2) q b)) in
  holds_tree h T0 -> color_of b = RB_BLACK ->
  exists h', erase_outer d (Some q) (Some p) h = Ok (Some r, h')
    /\ holds_tree h' (plug k (join d c t p (join d RB_BLACK a1 r (join d RB_RED a2 q b)))) /\ keeps (inorder T0) h h'.
Proof.
  intros T0 H Hb. unfold T0 in *. unfold erase_outer. pose proof H as Ho. rewrite outer_place in Ho.
  rewrite (node_spec _ _ _ _ _ _ _ Ho). run_res. rewrite root_join.
  replace (child (opp d) _) with (root b) by (by destruct d). replace (child d _) with (Some r) by (by destruct d).
  pose proof Ho as Hbo. rewrite outer_place in Hbo. rewrite (is_black_at _ _ _ Hbo), bool_decide_true by done.
  rewrite inner_place in Ho. cbn [recolor].
  destruct (color_spec h _ d RB_RED a1 r a2 RB_BLACK Ho) as (h1 & -> & H1 & K1). run_res.
  rewrite <- inner_place in H1, K1.
  destruct (color_spec h1 _ d RB_BLACK _ q b RB_RED H1) as (h2 & -> & H2 & K2). run_res.
  rewrite <- (join_opp d RB_RED b q), <- (join_opp d RB_BLACK a2 r a1) in H2.
  destruct (rotate_spec h2 _ (opp d) RB_RED b q RB_BLACK a2 r a1 H2) as (h3 & -> & H3 & K3). run_res.
  rewrite !join_opp, <- outer_place in H3. rewrite (node_spec _ _ _ _ _ _ _ H3). run_res. rewrite root_join.
  replace (child (opp d) _) with (Some r) by (by destruct d).
  exists h3. split; [done|]. split; [done|]. rewrite outer_place.
  eapply keeps_eq; [exact K1 | | eapply keeps_eq; [exact K2 | | exact K3]]; rewrite ?join_opp; same_inorder d.
Qed.

Lemma erase_final_spec h k d c t p a q b :
  let T0 := plug k (join d c t p (join d RB_BLACK a q b)) in
  holds_tree h T0 ->
  exists h', erase_final d (Some q) (Some p) h = Ok h'
    /\ holds_tree h' (plug k (join d c (join d RB_BLACK t p a) q (blacken b))) /\ keeps (inorder T0) h h'.
Proof.
  intros T0 H. unfold T0 in *. unfold erase_final. rewrite (node_spec _ _ _ _ _ _ _ H). run_res.
  replace (rb_color _) with c by (by destruct d). rewrite outer_place in H.
  destruct (color_spec h _ d RB_BLACK a q b c H) as (h1 & -> & H1 & K1). run_res. rewrite <- outer_place in H1, K1.
  destruct (color_spec h1 k d c t p _ RB_BLACK H1) as (h2 & -> & H2 & K2). run_res.
  pose proof H2 as Ho. rewrite outer_place in Ho. rewrite (node_spec _ _ _ _ _ _ _ Ho). run_res.
  replace (child (opp d) _) with (root b) by (by destruct d). rewrite outer_place in Ho.
  destruct (recolor_at h2 _ b Ho) as (h3 & -> & H3 & K3). run_res. rewrite <- !outer_place in H3, K3.
  destruct (rotate_spec h3 k d RB_BLACK t p c a q _ H3) as (h4 & -> & H4 & K4).
  exists h4. split; [done|]. split; [done|].
  assert (Eb : inorder (blacken b) = inorder b) by apply inorder_blacken.
  eapply keeps_eq; [exact K1 | | eapply keeps_eq; [exact K2 | | eapply keeps_eq; [exact K3 | | exact K4]]];
    cbn [plug]; rewrite !inorder_plug; destruct d; simpl; by rewrite ?Eb.
Qed.

(** A black node is missing above [t]. *)
Record er_inv (n : nat) (k : list frame) (t : tree) : Prop := {
  ei_bal : bal n t; ei_ok : red_ok (blacken t); ei_ctx : ctx_bal (S n) k; ei_ctx_ok : ctx_ok RB_BLACK k
}.

(** The height around a node of colour [c] with subtrees of height [n]. *)
Definition height_of (c : color) (n : nat) : nat := match c with RB_RED => n | RB_BLACK => S n end.

(** How a round ends: it goes on above, or it breaks with the tree repaired. *)
Definition round_ends (l : list positive) (k : list frame) (c : color) (p : positive) (h : rb_heap)
    (r : res (bool * node_ptr * node_ptr * rb_heap)) : Prop :=
  exists h', keeps l h h' /\
    ((exists n t, r = Ok (false, Some p, above k, h') /\ holds_tree h' (plug k t) /\ root t = Some p
                 /\ color_of t = c /\ er_inv n k t /\ inorder (plug k t) = l)
     \/ (exists t, r = Ok (true, rb_root h', Some p, h') /\ holds_tree h' t /\ rb_tree t /\ inorder t = l)).

(** Both children of the sibling are black, or not. *)
Lemma both_black_spec h k d c a q b :
  holds_tree h (plug k (join d c a q b)) ->
  both_black (Some q) h = Ok (bool_decide (color_of a = RB_BLACK) && bool_decide (color_of b = RB_BLACK)).
Proof.
  intros H. unfold both_black. rewrite (node_spec _ _ _ _ _ _ _ H). run_res.
  pose proof H as Hb. rewrite outer_place in Hb. rewrite inner_place in H.
  apply is_black_at in H. apply is_black_at in Hb.
  destruct d; cbn [join_node rb_left rb_right]; rewrite H, Hb; run_res; repeat case_bool_decide; done.
Qed.

(** The last rotation repairs the tree. *)
Lemma final_round h k n d c t p a q b l (v : node_ptr) :
  holds_tree h (plug k (join d c t p (join d RB_BLACK a q b))) ->
  bal n t -> red_ok t -> bal n a -> red_ok a -> bal n b -> red_ok b -> color_of b = RB_RED ->
  ctx_bal (height_of c (S n)) k -> ctx_ok c k -> inorder (plug k (join d c t p (join d RB_BLACK a q b))) = l ->
  exists h' t', (h ← erase_final d (Some q) (Some p) h; Ok (true, rb_root h, v, h)) = Ok (true, rb_root h', v, h')
    /\ holds_tree h' t' /\ rb_tree t' /\ inorder t' = l /\ keeps l h h'.
Proof.
  intros H Hbt Hot Hba Hoa Hbb Hob Hcb Hkb Hko <-.
  destruct (erase_final_spec h k d c t p a q b H) as (h' & -> & H' & K). run_res.
  eexists h', _. split; [done|]. split; [exact H'|]. destruct b as [|[] bl bp br]; try done. cbn [blacken] in *.
  split; [|split; [|done]].
  - apply (plug_rb (height_of c (S n))); [| done | | by rewrite color_join].
    + assert (Hj : bal (S n) (join d RB_BLACK t p a) /\ bal (S n) (T RB_BLACK bl bp br))
        by (split; [rewrite bal_join; by exists n | done]).
      rewrite bal_join. destruct c; [done|]. by exists (S n).
    + rewrite !red_ok_join, color_join. simpl in *. intuition congruence.
  - rewrite !inorder_plug. destruct d; simpl; repeat first [rewrite <- app_assoc | rewrite <- app_comm_cons]; done.
Qed.

Lemma red_split d t : color_of t = RB_RED -> exists a p b, t = join d RB_RED a p b.
Proof.
  destruct t as [|[] l p r]; try done. intros _. destruct (tree_join d RB_RED l p r) as (a & b & E). by exists a, p, b.
Qed.

Lemma erase_rest_spec h k n d c t p a q b :
  holds_tree h (plug k (join d c t p (join d RB_BLACK a q b))) ->
  bal n t -> red_ok t -> color_of t = RB_BLACK -> bal n a -> red_ok a -> bal n b -> red_ok b ->
  ctx_bal (height_of c (S n)) k -> ctx_ok c k ->
  round_ends (inorder (plug k (join d c t p (join d RB_BLACK a q b)))) k c p h (erase_rest d (Some q) (Some p) h).
Proof.
  intros H Hbt Hot Hct Hba Hoa Hbb Hob Hkb Hko. unfold erase_rest. pose proof H as Ho. rewrite outer_place in Ho.
  rewrite (both_black_spec _ _ _ _ _ _ _ Ho). destruct (color_of b) eqn:Ecb.
  - rewrite (bool_decide_false (RB_RED = RB_BLACK)), andb_false_r by done. run_res.
    rewrite (outer_red h k d c t p a q b H Ecb). run_res.
    destruct (final_round h k n d c t p a q b (inorder (plug k (join d c t p (join d RB_BLACK a q b)))) (Some p) H) as (h' & t' & -> & H' & Hrb & Hin & K); try done.
    exists h'. split; [done|]. right. by exists t'.
  - rewrite (bool_decide_true (RB_BLACK = RB_BLACK)), andb_true_r by done. destruct (color_of a) eqn:Eca.
    + rewrite bool_decide_false by done. run_res. destruct (red_split d a Eca) as (a1 & r & a2 & ->).
      rewrite bal_join in Hba. rewrite red_ok_join in Hoa. destruct Hoa as (Hca & Hoa1 & Hoa2). specialize (Hca eq_refl).
      destruct (outer_black h k d c t p a1 r a2 q b H Ecb) as (h1 & -> & H1 & K1). run_res.
      destruct (final_round h1 k n d c t p a1 r (join d RB_RED a2 q b) (inorder (plug k (join d c t p (join d RB_BLACK (join d RB_RED a1 r a2) q b)))) (Some p) H1)
        as (h' & t' & -> & H' & Hrb & Hin & K); rewrite ?bal_join, ?red_ok_join, ?color_join; try tauto; [same_inorder d|].
      exists h'. split; [eapply keeps_eq; [exact K1 | reflexivity | exact K]|]. right. by exists t'.
    + rewrite bool_decide_true by done. run_res.
      destruct (color_spec h _ d RB_BLACK a q b RB_RED Ho) as (h1 & -> & H1 & K1). run_res.
      rewrite <- outer_place in H1, K1. rewrite (node_spec _ _ _ _ _ _ _ H1). run_res.
      replace (rb_parent _) with (above k) by (by destruct d). exists h1. split; [done|]. left.
      exists (height_of c n), (join d c t p (join d RB_RED a q b)).
      split; [done|]. split; [done|]. split; [apply root_join|]. split; [apply color_join|].
      split; [|same_inorder d]. split.
      * rewrite bal_join. destruct c; simpl; [|exists n; split; [done|]]; rewrite bal_join; tauto.
      * assert (Hok : red_ok (join d RB_BLACK t p (join d RB_RED a q b)))
          by (rewrite !red_ok_join; intuition congruence). by destruct d.
      * by destruct c.
      * by eapply ctx_ok_black.
Qed.

(** A round of the loop; when it goes on below a node it put there, that is
    red. *)
Lemma erase_case_spec h k n f t :
  holds_tree h (plug (f :: k) t) -> er_inv n (f :: k) t -> color_of t = RB_BLACK ->
  exists k' c p, (k' = k \/ exists g, k' = g :: k /\ c = RB_RED)
    /\ round_ends (inorder (plug (f :: k) t)) k' c p h (erase_case (fside f) (Some (fptr f)) h).
Proof.
  intros H [Hb Ho Hkb Hko] Hct. rewrite blacken_black in Ho by done. destruct f as [d c p o]. simpl in Hkb, Hko.
  destruct Hkb as [Hbo Hkb], Hko as (Hc & Hoo & Hko). cbn [fside fptr]. unfold erase_case.
  change (plug _ t) with (plug k (join d c t p o)) in *.
  destruct (color_of o) eqn:Eco.
  - destruct (red_split d o Eco) as (a & q & b & ->). rewrite bal_join in Hbo. rewrite red_ok_join in Hoo.
    destruct c; [by destruct (Hc eq_refl)|]. destruct Hoo as (Hab & Hoa & Hob), Hbo as [Hba Hbb].
    destruct (Hab eq_refl) as [Hca Hcb].
    destruct (sibling_red h k d RB_BLACK t p a q b H) as (h1 & -> & H1 & K1). run_res.
    assert (Ha : exists a1 r a2, a = join d RB_BLACK a1 r a2).
    { destruct a as [|ca l r x]; [done|]. simpl in Hca. subst ca. destruct (tree_join d RB_BLACK l r x) as (? & ? & ->). by eexists _, _, _. }
    destruct Ha as (a1 & r & a2 & ->). rewrite root_join. rewrite bal_join in Hba. rewrite red_ok_join in Hoa.
    destruct Hba as (m & [= <-] & Hba1 & Hba2), Hoa as (_ & Hoa1 & Hoa2).
    exists (mkFrame d RB_BLACK q b :: k), RB_RED, p. split; [right; by eexists|].
    destruct (erase_rest_spec h1 (mkFrame d RB_BLACK q b :: k) n d RB_RED t p a1 r a2 H1) as (h2 & K2 & Hr); try done.
    rewrite <- inner_place in *.
    assert (Hin : inorder (plug k (join d RB_BLACK (join d RB_RED t p (join d RB_BLACK a1 r a2)) q b))
      = inorder (plug k (join d RB_BLACK t p (join d RB_RED (join d RB_BLACK a1 r a2) q b)))) by same_inorder d.
    exists h2. split; [eapply keeps_eq; [exact K1 | exact Hin | exact K2]|].
    rewrite <- Hin. exact Hr.
  - assert (Ho' : exists a q b, o = join d RB_BLACK a q b).
    { destruct o as [|co l q x]; [done|]. simpl in Eco. subst co. destruct (tree_join d RB_BLACK l q x) as (? & ? & ->). by eexists _, _, _. }
    destruct Ho' as (a & q & b & ->). rewrite (sibling_black h k d c t p a q b H). run_res.
    rewrite bal_join in Hbo. rewrite red_ok_join in Hoo. destruct Hbo as (m & [= <-] & ? & ?), Hoo as (_ & ? & ?).
    exists k, c, p. split; [by left|]. apply (erase_rest_spec h k n); done.
Qed.

Lemma er_done n k t : er_inv n k t -> color_of t = RB_RED \/ k = [] -> rb_tree (plug k (blacken t)).
Proof.
  intros [Hb Ho Hkb Hko] [Hc | ->].
  - destruct t as [|[] l p r]; try done. apply (plug_rb (S n)); done.
  - split; [by destruct t|]. split; [done|]. by eapply blacken_bal.
Qed.

(** A place below the root is not the root. *)
Lemma not_root h f k t : holds_tree h (plug (f :: k) t) -> root t <> rb_root h.
Proof.
  intros H E. rewrite (ht_root _ _ H) in E. pose proof H as H'. rewrite holds_plug in H'. destruct H' as (_ & _ & _ & _ & _ & Hd).
  rewrite (root_plug (f :: k) t RbShape.E) in E by done.
  destruct (root (plug (f :: k) RbShape.E)) as [a|] eqn:Ea.
  - apply root_elem in Ea. rewrite elem_plug in Ea. destruct Ea as [Ea|Ea]; [set_solver|].
    apply (Hd a); [by apply root_elem | done].
  - assert (Hn : forall k t, t <> RbShape.E -> plug k t <> RbShape.E).
    { clear. induction k as [|g k IH]; intros t Ht; [done|]. apply IH. unfold fill. by destruct (fside g). }
    assert (Hj : fill f RbShape.E <> RbShape.E) by (unfold fill; by destruct (fside f)).
    apply (Hn k) in Hj. cbn [plug] in Ea. by destruct (plug k (fill f RbShape.E)).
Qed.

(** The side of [parent] that [node] is on. *)
Lemma erase_side h k d c t p o a :
  holds_tree h (plug k (join d c t p o)) -> root o = Some a ->
  (if decide (rb_left (join_node (above k) d c (root t) (root o)) = root t) then Left else Right) = d.
Proof.
  intros H Ho. destruct d; simpl; [by rewrite decide_True|]. rewrite decide_False; [done|].
  rewrite Ho. intros E. symmetry in E. by apply (siblings _ _ _ _ _ _ _ _ H E).
Qed.

Lemma erase_loop_spec fuel h k n t :
  holds_tree h (plug k t) -> er_inv n k t ->
  (match color_of t with RB_RED => 1 | RB_BLACK => S (length k) end) <= fuel ->
  exists h' t', ('(node, h) ← erase_loop fuel (root t) (above k) h; recolor node RB_BLACK h) = Ok h'
    /\ holds_tree h' t' /\ rb_tree t' /\ inorder t' = inorder (plug k t) /\ keeps (inorder (plug k t)) h h'.
Proof.
  revert h k n t; induction fuel as [|fuel IH]; intros h k n t H I Hf; [by destruct (color_of t); lia|].
  cbn [erase_loop]. rewrite (is_black_at _ _ _ H). run_res.
  assert (Hex : color_of t = RB_RED \/ k = [] ->
    exists h' t', recolor (root t) RB_BLACK h = Ok h' /\ holds_tree h' t' /\ rb_tree t'
      /\ inorder t' = inorder (plug k t) /\ keeps (inorder (plug k t)) h h').
  { intros Hc. destruct (recolor_at h k t H) as (h' & E' & H' & K). exists h', (plug k (blacken t)).
    split; [done|]. split; [done|]. split; [by apply (er_done n)|]. split; [|done].
    by rewrite !inorder_plug, inorder_blacken. }
  destruct (color_of t) eqn:Ec; [rewrite bool_decide_false by done; run_res; apply Hex; by left|].
  rewrite bool_decide_true by done. destruct k as [|f k].
  { rewrite bool_decide_false by (rewrite (ht_root _ _ H); naive_solver). run_res. apply Hex. by right. }
  clear Hex. rewrite bool_decide_true by (by eapply not_root). run_res. cbn [above].
  pose proof (node_spec h k (fside f) (fcolor f) t (fptr f) (fother f) H) as R. rewrite R. run_res.
  assert (Ho : exists a, root (fother f) = Some a).
  { destruct I as [_ _ [Hbo _] _]. destruct (fother f) as [|c l q r]; [done|]. by exists q. }
  destruct Ho as (a & Ha). rewrite (erase_side h k (fside f) (fcolor f) t (fptr f) (fother f) a H Ha).
  destruct (erase_case_spec h k n f t H I Ec) as (k' & c & p & Hk' & h1 & K1 & [Hr | Hr]).
  - destruct Hr as (n1 & t1 & -> & H1 & Hp & Hc1 & I1 & Hin1). run_res. rewrite <- Hp.
    destruct (IH h1 k' n1 t1 H1 I1) as (h2 & t2 & -> & H2 & Hrb & Hin2 & K2).
    { rewrite Hc1. cbn [length] in Hf. destruct Hk' as [-> | (g & -> & ->)]; [destruct c; lia | lia]. }
    exists h2, t2. split; [done|]. split; [done|]. split; [done|]. split; [by rewrite Hin2|].
    eapply keeps_eq; [exact K1 | exact Hin1 | exact K2].
  - destruct Hr as (t1 & -> & H1 & Hrb & Hin1). run_res.
    destruct (recolor_at h1 [] t1) as (h2 & E2 & H2 & K2); [done|]. rewrite (ht_root _ _ H1), E2.
    exists h2, (blacken t1). split; [done|]. split; [exact H2|]. rewrite inorder_blacken.
    rewrite blacken_black by apply Hrb. split; [done|]. split; [done|].
    eapply keeps_eq; [exact K1 | exact Hin1 | exact K2].
Qed.

Lemma rb_erase_color_spec h k n t :
  holds_tree h (plug k t) -> er_inv n k t ->
  exists h' t', __rb_erase_color (root t) (above k) h = Ok h' /\ holds_tree h' t' /\ rb_tree t'
    /\ inorder t' = inorder (plug k t) /\ keeps (inorder (plug k t)) h h'.
Proof.
  intros H I. apply (erase_loop_spec _ h k n); [done..|]. pose proof (holds_size _ _ H). pose proof (ctx_length k t).
  destruct (color_of t); lia.
Qed.

(** ** Taking a node out *)

Lemma find_place p t : p ∈ inorder t -> exists k c l r, t = plug k (T c l p r).
Proof.
  induction t as [|c l IHl q r IHr]; simpl; [set_solver|].
  intros [H|[->|H]%elem_of_cons]%elem_of_app.
  - destruct (IHl H) as (k & c' & l' & r' & E). exists (k ++ [mkFrame Left c q r]), c', l', r'.
    by rewrite plug_app, <- E.
  - by exists [], c, l, r.
  - destruct (IHr H) as (k & c' & l' & r' & E). exists (k ++ [mkFrame Right c q l]), c', l', r'.
    by rewrite plug_app, <- E.
Qed.

(** A node with at most one child is bypassed. *)
Lemma splice_spec h k d c p x :
  holds_tree h (plug k (join d c RbShape.E p x)) ->
  exists h', (h ← reparent (root x) (above k) h; relink Left (above k) (Some p) (root x) h) = Ok h'
    /\ holds_tree h' (plug k x) /\ keeps (inorder (plug k x)) h h'.
Proof.
  intros H. pose proof H as H'. rewrite holds_plug, rep_join, nodup_join, root_join in H'.
  destruct H' as (Hr & Hk & (Hp & _ & Hx) & (_ & Hnx & _ & Hpx & _) & Hnk & Hd). setoid_rewrite elem_join in Hd.
  destruct (reparent_spec x (Some p) (above k) h Hx Hnx) as (h1 & -> & Hx1 & Hr1 & Hf1). run_res.
  destruct (relink_spec Left k p (root x) h1) as (h2 & -> & Hk2 & Hr2 & Hf2); [|done|apply Hd; tauto|].
  { apply (rep_ctx_agree (nodes h)); [|done]. intros a Ha. apply Hf1. intros Hax. apply (Hd a); tauto. }
  exists h2. split; [done|]. split.
  - apply holds_plug. split; [|split; [done|split; [|split; [done|split; [done|intros; apply Hd; tauto]]]]].
    + rewrite Hr2, Hr1, Hr. destruct k as [|f k]; [done|]. by apply root_plug.
    + apply (rep_agree (nodes h1)); [|done]. intros a Ha. apply Hf2, Hd. tauto.
  - intros a Ha. rewrite elem_plug in Ha. rewrite Hf2, Hf1 by tauto. done.
Qed.

(** Memory in which [n] stands at the place of [o]. *)
Lemma substituted h h' k c l o r n :
  holds_tree h (plug k (T c l o r)) -> n ∉ inorder (plug k (T c l o r)) ->
  rb_root h' = (match k with [] => Some n | _ => rb_root h end) ->
  rep_ctx (nodes h') k (Some n) -> nodes h' !! n = Some (mkNode (above k) (root r) (root l) c) ->
  rep (nodes h') (Some n) l -> rep (nodes h') (Some n) r -> holds_tree h' (plug k (T c l n r)).
Proof.
  intros H Hn Hr Hk Hn' Hl Hrr. pose proof H as H'. rewrite holds_plug in H'. destruct H' as (Hr0 & _ & _ & Hnd & Hnk & Hd).
  change (T c l o r) with (join Left c l o r) in *. change (T c l n r) with (join Left c l n r).
  rewrite elem_plug, elem_join in Hn. rewrite nodup_join in Hnd. setoid_rewrite elem_join in Hd.
  apply holds_plug. rewrite nodup_join. setoid_rewrite elem_join.
  split; [|split; [done|split; [done|split; [tauto|split; [done|]]]]].
  - rewrite Hr, Hr0. destruct k as [|f k]; [done|]. by apply root_plug.
  - intros a [-> | Ha]; [tauto | apply Hd; tauto].
Qed.

(** The writes that put [n] in the place of [o]. *)
Lemma move_links h k c l o r n rec :
  holds_tree h (plug k (T c l o r)) -> n ∉ inorder (plug k (T c l o r)) -> nodes h !! n = Some rec ->
  exists h', (h ← relink Left (above k) (Some o) (Some n) h; h ← reparent (root l) (Some n) h; reparent (root r) (Some n) h)
             = Ok h'
    /\ rb_root h' = (match k with [] => Some n | _ => rb_root h end)
    /\ rep_ctx (nodes h') k (Some n) /\ rep (nodes h') (Some n) l /\ rep (nodes h') (Some n) r
    /\ (forall a, a = o \/ a ∉ inorder (plug k (T c l o r)) -> nodes h' !! a = nodes h !! a).
Proof.
  intros H Hn Hrec. change (T c l o r) with (join Left c l o r) in *. pose proof H as H'.
  rewrite holds_plug, rep_join, nodup_join, root_join in H'.
  destruct H' as (Hr & Hk & (Ho & Hl & Hrr) & (Hnl & Hnr & Hol & Hor & Hlr) & Hnk & Hd). setoid_rewrite elem_join in Hd.
  rewrite elem_plug, elem_join in Hn. setoid_rewrite elem_plug. setoid_rewrite elem_join.
  destruct (relink_spec Left k o (Some n) h Hk Hnk) as (h1 & -> & Hk1 & Hr1 & Hf1); [apply Hd; tauto|]. run_res.
  assert (Hl1 : rep (nodes h1) (Some o) l) by (apply (rep_agree (nodes h)); [intros; apply Hf1, Hd; tauto | done]).
  destruct (reparent_spec l (Some o) (Some n) h1 Hl1 Hnl) as (h2 & -> & Hl2 & Hr2 & Hf2). run_res.
  assert (Hrr2 : rep (nodes h2) (Some o) r).
  { apply (rep_agree (nodes h)); [|done]. intros a Ha. rewrite Hf2, Hf1; [done | apply Hd; tauto | intros Hal; by apply (Hlr a)]. }
  destruct (reparent_spec r (Some o) (Some n) h2 Hrr2 Hnr) as (h3 & -> & Hrr3 & Hr3 & Hf3).
  exists h3. split; [done|]. split; [by rewrite Hr3, Hr2|]. split; [|split; [|split; [done|]]].
  - apply (rep_ctx_agree (nodes h1)); [|done]. intros a Ha. rewrite Hf3, Hf2; [done | |]; intros Hal; apply (Hd a); tauto.
  - apply (rep_agree (nodes h2)); [|done]. intros a Ha. apply Hf3. by apply Hlr.
  - intros a Ha. assert (~ (a ∈ inorder l \/ a ∈ inorder r \/ a ∈ ctx_ptrs k)).
    { destruct Ha as [-> | Ha]; [|tauto]. pose proof (Hd o ltac:(tauto)). tauto. }
    rewrite Hf3, Hf2, Hf1 by tauto. done.
Qed.

(** Replacing a node keeps the tree: the new node takes the place, the
    colour and the links of the old one, whatever it held before. *)
Theorem rb_replace_node_spec h t p n rec :
  holds_tree h t -> p ∈ inorder t -> n ∉ inorder t -> nodes h !! n = Some rec ->
  exists h' k c l r, rb_replace_node (Some p) (Some n) h = Ok h' /\ t = plug k (T c l p r)
    /\ holds_tree h' (plug k (T c l n r)).
Proof.
  intros H Hp Hn Hrec. destruct (find_place p t Hp) as (k & c & l & r & ->).
  pose proof (node_spec h k Left c l p r H) as R. unfold rb_replace_node. rewrite R. run_res. cbn [join_node rb_parent rb_left rb_right].
  destruct (move_links h k c l p r n rec H Hn Hrec) as (h1 & E & Hr1 & Hk1 & Hl1 & Hrr1 & Hf1).
  destruct (relink Left (above k) (Some p) (Some n) h) as [h2|]; [|done]. run_res. cbn [mbind res_bind] in E.
  destruct (reparent (root l) (Some n) h2) as [h3|]; [|done]. cbn [mbind res_bind] in E. run_res. rewrite E. run_res.
  assert (Hp1 : nodes h1 !! p = Some (mkNode (above k) (root r) (root l) c)).
  { rewrite Hf1 by tauto. pose proof H as H'. rewrite holds_plug in H'. apply H'. }
  rewrite (deref_some _ _ _ Hp1). run_res. rewrite (assign_some n _ h1 rec) by (rewrite Hf1; tauto).
  eexists _, k, c, l, r. split; [done|]. split; [done|]. rewrite elem_plug in Hn. cbn [inorder] in Hn.
  apply (substituted h _ k c l p r n H); cbn [rb_root nodes]; try done.
  - rewrite elem_plug. cbn [inorder]. done.
  - apply rep_ctx_insert; [tauto | done].
  - by rewrite lookup_insert_eq.
  - apply rep_insert; [set_solver | done].
  - apply rep_insert; [set_solver | done].
Qed.

(** The walk down one side ends at the outermost node. *)
Lemma walk_down_spec fuel h k d t a :
  holds_tree h (plug k t) -> root t = Some a -> length (inorder t) <= fuel ->
  exists kd c n x, t = plug kd (join d c RbShape.E n x) /\ Forall (fun f => fside f = d) kd
    /\ walk_down fuel d (Some a) h = Ok (Some n).
Proof.
  revert k t a; induction fuel as [|fuel IH]; intros k t a H Ha Hf.
  { apply root_elem in Ha. destruct t; simpl in *; [set_solver|]. rewrite length_app in Hf. simpl in Hf. lia. }
  destruct (root_split d t a Ha) as (c & u & b & ->). cbn [walk_down].
  rewrite (node_spec _ _ _ _ _ _ _ H). run_res. replace (child d _) with (root u) by (by destruct d).
  destruct (root u) as [a'|] eqn:Eu.
  - rewrite inner_place in H. destruct (IH _ u a' H Eu) as (kd & c' & n & x & -> & Hkd & E).
    { rewrite inorder_join in Hf. simpl in Hf. rewrite length_app in Hf. lia. }
    exists (kd ++ [mkFrame d c a b]), c', n, x. split; [by rewrite plug_app|]. split; [|done].
    apply Forall_app. split; [done|]. by repeat constructor.
  - destruct u; [|done]. exists [], c, a, b. done.
Qed.

Lemma walk_spec h k d t a :
  holds_tree h (plug k t) -> root t = Some a ->
  exists kd c n x, t = plug kd (join d c RbShape.E n x) /\ Forall (fun f => fside f = d) kd
    /\ walk d (Some a) h = Ok (Some n).
Proof.
  intros H Ha. apply (walk_down_spec _ h k); [done..|]. pose proof (holds_size _ _ H). pose proof (ctx_length k t). lia.
Qed.

(** Nothing comes before the end of a way down the left side. *)
Lemma before_left kd : Forall (fun f => fside f = Left) kd -> before kd = [].
Proof. induction 1 as [|f kd Hf _ IH]; [done|]. simpl. by rewrite IH, Hf. Qed.
Lemma after_right kd : Forall (fun f => fside f = Right) kd -> after kd = [].
Proof. induction 1 as [|f kd Hf _ IH]; [done|]. simpl. by rewrite IH, Hf. Qed.

(** What taking out a node of colour [c] leaves. *)
Lemma gap_inv k c x :
  ctx_bal (height_of c 0) k -> ctx_ok c k -> bal 0 x -> (c = RB_RED -> color_of x = RB_BLACK) -> red_ok x ->
  match c with RB_RED => rb_tree (plug k x) | RB_BLACK => er_inv 0 k x end.
Proof.
  intros Hb Ho Hx Hc Hr. destruct c.
  - apply (plug_rb 0); [done | done | done|]. rewrite Hc by done. by eapply ctx_ok_black.
  - split; [done | by apply blacken_ok | done | done].
Qed.

Lemma gap_fixed h k c x :
  holds_tree h (plug k x) -> match c with RB_RED => rb_tree (plug k x) | RB_BLACK => er_inv 0 k x end ->
  exists h' t', (if decide (c = RB_BLACK) then __rb_erase_color (root x) (above k) h else Ok h) = Ok h'
    /\ holds_tree h' t' /\ rb_tree t' /\ inorder t' = inorder (plug k x) /\ keeps (inorder (plug k x)) h h'.
Proof.
  intros H Hc. destruct c.
  - rewrite decide_False by done. by exists h, (plug k x).
  - rewrite decide_True by done. by apply (rb_erase_color_spec h k 0).
Qed.

(** The surroundings of a child of a removed node. *)
Lemma rb_gap k d c p x :
  rb_tree (plug k (join d c RbShape.E p x)) ->
  ctx_bal (height_of c 0) k /\ ctx_ok c k /\ bal 0 x /\ (c = RB_RED -> color_of x = RB_BLACK) /\ red_ok x.
Proof.
  intros (n & Hb & Hkb & Hr & Hko)%rb_plug. rewrite bal_join in Hb. rewrite red_ok_join in Hr. rewrite color_join in Hko.
  destruct c; simpl in Hb.
  - destruct Hb as [-> Hx]. split; [done|]. split; [done|]. split; [done|]. split; [intros _; by apply Hr | tauto].
  - destruct Hb as (m & -> & -> & Hx). simpl. tauto.
Qed.

(** A node with at most one child. *)
Lemma erase_one h k d c p x :
  let T0 := plug k (join d c RbShape.E p x) in
  holds_tree h T0 -> rb_tree T0 ->
  exists h' t', (h ← reparent (root x) (above k) h; h ← relink Left (above k) (Some p) (root x) h;
                 if decide (c = RB_BLACK) then __rb_erase_color (root x) (above k) h else Ok h) = Ok h'
    /\ holds_tree h' t' /\ rb_tree t' /\ inorder t' = inorder (plug k x) /\ keeps (inorder (plug k x)) h h'.
Proof.
  intros T0 H Hrb. unfold T0 in *. destruct (splice_spec h k d c p x H) as (h1 & E1 & H1 & K1).
  destruct (reparent (root x) (above k) h) as [h0|]; [|done]. run_res. cbn [mbind res_bind] in E1. rewrite E1. run_res.
  pose proof (rb_gap k d c p x Hrb) as (Hg1 & Hg2 & Hg3 & Hg4 & Hg5).
  destruct (gap_fixed h1 k c x H1) as (h2 & t2 & -> & H2 & Hrb2 & Hin & K2); [by apply gap_inv|].
  exists h2, t2. split; [done|]. split; [done|]. split; [done|]. split; [done|].
  eapply keeps_eq; [exact K1 | reflexivity | exact K2].
Qed.

(** The place of the successor [n] of [o], before and after it takes the
    place of [o]. *)
Definition under (kd : list frame) (c : color) (p : positive) (l : tree) (k : list frame) : list frame :=
  kd ++ mkFrame Right c p l :: k.

Lemma plug_under kd c p l k t : plug (under kd c p l k) t = plug k (T c l p (plug kd t)).
Proof. unfold under. by rewrite plug_app. Qed.

Lemma above_under kd c p q l k : kd <> [] -> above (under kd c p l k) = above (under kd c q l k).
Proof. by destruct kd. Qed.

Lemma ctx_bal_under n kd c p q l k : ctx_bal n (under kd c p l k) -> ctx_bal n (under kd c q l k).
Proof. unfold under. revert n; induction kd as [|f kd IH]; intros n; simpl; [done|]. intros [? ?]. auto. Qed.
Lemma ctx_ok_under c0 kd c p q l k : ctx_ok c0 (under kd c p l k) -> ctx_ok c0 (under kd c q l k).
Proof. unfold under. revert c0; induction kd as [|f kd IH]; intros c0; simpl; [done|]. intros (? & ? & ?). auto. Qed.

(** The parent of the gap: the successor itself when it was the right child. *)
Lemma gap_parent h kd c n o l k x cn :
  holds_tree h (plug (under kd c o l k) (T cn RbShape.E n x)) ->
  (if decide (above (under kd c o l k) = Some o) then Some n else above (under kd c o l k)) = above (under kd c n l k).
Proof.
  intros H. destruct kd as [|f kd]; simpl; [by rewrite decide_True|]. rewrite decide_False; [done|].
  intros [= Ef]. pose proof (ht_nodup _ _ H) as Hnd. rewrite inorder_plug_perm in Hnd.
  apply NoDup_app in Hnd as (_ & _ & Hnd). unfold under in Hnd. cbn [app] in Hnd. rewrite ctx_ptrs_cons in Hnd.
  apply NoDup_cons in Hnd as [Hnd _]. apply Hnd. rewrite Ef. unfold ctx_ptrs. rewrite fmap_app, concat_app. simpl. set_solver.
Qed.

(** A node that was taken out is still in memory. *)
Lemma spliced_node h h1 k c n x :
  holds_tree h (plug k (T c RbShape.E n x)) -> keeps (inorder (plug k x)) h h1 ->
  n ∉ inorder (plug k x) /\ is_Some (nodes h1 !! n).
Proof.
  intros H K. pose proof (ht_nodup _ _ H) as Hnd. rewrite inorder_plug_perm in Hnd. simpl in Hnd.
  apply NoDup_cons in Hnd as [Hnd _]. assert (Hn : n ∉ inorder (plug k x)) by (rewrite elem_plug; set_solver).
  split; [done|]. rewrite K by done. rewrite holds_plug in H. destruct H as (_ & _ & [Hm _] & _). eauto.
Qed.

(** The memory after the successor took the place. *)
Lemma erase_two_spec h k c l o r :
  let T0 := plug k (T c l o r) in
  holds_tree h T0 -> root l <> None -> root r <> None ->
  exists kd cn n x h', r = plug kd (T cn RbShape.E n x) /\ Forall (fun f => fside f = Left) kd
    /\ erase_two (Some o) h = Ok (root x, above (under kd c n l k), cn, h')
    /\ holds_tree h' (plug (under kd c n l k) x) /\ keeps (inorder T0) h h' /\ is_Some (nodes h' !! o).
Proof.
  intros T0 H Hl Hr. unfold T0 in *. destruct (root r) as [a|] eqn:Ea; [|done]. unfold erase_two.
  rewrite (node_spec h k Left c l o r H). run_res. cbn [join_node rb_right].
  pose proof H as Hw. change (T c l o r) with (join Left c l o r) in Hw. rewrite outer_place in Hw.
  destruct (walk_spec h _ Left r a Hw Ea) as (kd & cn & n & x & -> & Hkd & Ew). rewrite Ea, Ew. run_res. clear Hw Ew Ea Hr a.
  cbn [join] in *. rewrite <- (plug_under kd c o l k) in H.
  pose proof (node_spec h (under kd c o l k) Left cn RbShape.E n x H) as Rn. rewrite Rn. run_res.
  cbn [join_node rb_right rb_parent rb_color root].
  destruct (splice_spec h (under kd c o l k) Left cn n x H) as (h1 & E1 & H1 & K1).
  destruct (reparent (root x) (above (under kd c o l k)) h) as [h0|]; [|done]. run_res. cbn [mbind res_bind] in E1. rewrite E1. run_res. clear E1 h0.
  destruct (spliced_node h h1 _ _ _ _ H K1) as [Hnp [rec Hrec]]. pose proof H1 as H1'. rewrite plug_under in H1', Hnp.
  rewrite (node_spec h1 k Left c l o (plug kd x) H1'). run_res. cbn [join_node rb_parent rb_right rb_left rb_color].
  rewrite (assign_some n _ h1 rec Hrec). run_res. set (h2 := mkHeap _ _).
  assert (H2 : holds_tree h2 (plug k (T c l o (plug kd x)))).
  { destruct H1' as [? Hm ?]. split; [done | by apply rep_insert | done]. }
  destruct (move_links h2 k c l o (plug kd x) n _ H2 Hnp (lookup_insert_eq _ _ _)) as (h3 & E3 & Hr3 & Hk3 & Hl3 & Hx3 & Hf3).
  destruct (relink Left (above k) (Some o) (Some n) h2) as [h4|]; [|done]. cbn [mbind res_bind] in E3. run_res.
  assert (El : set_parent (root l) (Some n) h4 = reparent (root l) (Some n) h4) by (by destruct (root l)). rewrite El. clear El.
  destruct (reparent (root l) (Some n) h4) as [h5|]; [|done]. cbn [mbind res_bind] in E3. run_res. rewrite E3. run_res. clear E3.
  assert (Hkeep : forall b, b ∉ inorder (plug k (T c l o (plug kd (T cn RbShape.E n x)))) -> b ∉ inorder (plug k (T c l o (plug kd x))) /\ b <> n).
  { intros b. rewrite <- !plug_under, !elem_plug. cbn [inorder]. rewrite elem_of_app, elem_of_cons. intuition congruence. }
  exists kd, cn, n, x, h3. split; [done|]. split; [done|]. split; [|split; [|split]].
  - do 4 f_equal. by eapply gap_parent.
  - rewrite plug_under. apply (substituted h2 h3 k c l o _ n H2 Hnp); try done.
    rewrite Hf3 by tauto. simpl. by rewrite lookup_insert_eq.
  - intros b Hb. apply Hkeep in Hb as [Hb Hbn]. rewrite Hf3 by tauto. simpl. rewrite lookup_insert_ne by done.
    apply K1. by rewrite plug_under.
  - rewrite Hf3 by tauto. simpl. rewrite lookup_insert_ne.
    + pose proof H1' as Ho. rewrite holds_plug in Ho. destruct Ho as (_ & _ & [Ho _] & _). eauto.
    + intros ->. apply Hnp. rewrite elem_plug. left. simpl. set_solver.
Qed.

Lemma keeps_subset l l' h1 h2 : (forall a, a ∈ l -> a ∈ l') -> keeps l h1 h2 -> keeps l' h1 h2.
Proof. intros Hl H a Ha. apply H. auto. Qed.

Lemma left_spine kd c n x :
  Forall (fun f => fside f = Left) kd -> inorder (plug kd (T c RbShape.E n x)) = n :: inorder (plug kd x).
Proof. intros H. by rewrite !inorder_plug, before_left. Qed.

Lemma removed (l1 l2 : list positive) o a : NoDup (l1 ++ o :: l2) -> a ∈ l1 ++ l2 -> a ∈ l1 ++ o :: l2 /\ a <> o.
Proof.
  rewrite <- Permutation_middle, NoDup_cons. intros [Ho _] Ha. split; [set_solver|]. by intros ->.
Qed.

(** A node with two children. *)
Lemma erase_both h k c l o r :
  let T0 := plug k (T c l o r) in
  holds_tree h T0 -> rb_tree T0 -> root l <> None -> root r <> None ->
  exists h' t', ('(child, parent, color, h) ← erase_two (Some o) h;
                 if decide (color = RB_BLACK) then __rb_erase_color child parent h else Ok h) = Ok h'
    /\ holds_tree h' t' /\ rb_tree t' /\ inorder t' = (before k ++ inorder l) ++ inorder r ++ after k
    /\ keeps (inorder T0) h h' /\ is_Some (nodes h' !! o).
Proof.
  intros T0 H Hrb Hl Hr. unfold T0 in *.
  destruct (erase_two_spec h k c l o r H Hl Hr) as (kd & cn & n & x & h1 & -> & Hkd & -> & H1 & K1 & Ho). run_res.
  assert (Hg : match cn with RB_RED => rb_tree (plug (under kd c n l k) x) | RB_BLACK => er_inv 0 (under kd c n l k) x end).
  { rewrite <- (plug_under kd c o l k) in Hrb.
    pose proof (rb_gap (under kd c o l k) Left cn n x Hrb) as (Hg1 & Hg2 & Hg3 & Hg4 & Hg5).
    apply gap_inv; [by eapply ctx_bal_under | by eapply ctx_ok_under | done..]. }
  destruct (gap_fixed h1 _ cn x H1 Hg) as (h2 & t' & -> & H2 & Hrb2 & Hin & K2). exists h2, t'.
  pose proof (ht_nodup _ _ H) as Hnd. rewrite left_spine by done.
  assert (E0 : inorder (plug k (T c l o (plug kd (T cn RbShape.E n x))))
    = (before k ++ inorder l) ++ o :: (n :: inorder (plug kd x)) ++ after k).
  { rewrite inorder_plug. cbn [inorder]. rewrite left_spine by done. by rewrite <- !app_assoc. }
  assert (E1 : inorder (plug (under kd c n l k) x) = (before k ++ inorder l) ++ (n :: inorder (plug kd x)) ++ after k).
  { rewrite plug_under, inorder_plug. cbn [inorder]. by rewrite <- !app_assoc. }
  rewrite E0 in Hnd, K1 |- *. rewrite E1 in Hin, K2.
  split; [done|]. split; [done|]. split; [done|]. split; [done|]. split.
  - intros a Ha. rewrite K2, K1; [done | done|]. intros Ha'. by apply (removed _ _ o) in Ha' as [? _].
  - rewrite K2; [done|]. intros Ha'. by apply (removed _ _ o) in Ha' as [_ ?].
Qed.

(** The same of a node with at most one child. *)
Lemma erase_one_spec h k d c l p r x :
  let T0 := plug k (T c l p r) in
  holds_tree h T0 -> rb_tree T0 -> T c l p r = join d c RbShape.E p x -> inorder l ++ inorder r = inorder x ->
  exists h' t', (h ← reparent (root x) (above k) h; h ← relink Left (above k) (Some p) (root x) h;
                 if decide (c = RB_BLACK) then __rb_erase_color (root x) (above k) h else Ok h) = Ok h'
    /\ holds_tree h' t' /\ rb_tree t' /\ inorder t' = (before k ++ inorder l) ++ inorder r ++ after k
    /\ keeps (inorder T0) h h' /\ is_Some (nodes h' !! p).
Proof.
  intros T0 H Hrb Ex Elr. unfold T0 in *. pose proof (ht_nodup _ _ H) as Hnd.
  assert (Hm : is_Some (nodes h !! p)) by (rewrite holds_plug in H; destruct H as (_ & _ & [Hm _] & _); eauto).
  assert (E0 : inorder (plug k (T c l p r)) = (before k ++ inorder l) ++ p :: inorder r ++ after k)
    by (rewrite inorder_plug; cbn [inorder]; by rewrite <- !app_assoc).
  assert (E1 : inorder (plug k x) = (before k ++ inorder l) ++ inorder r ++ after k)
    by (rewrite inorder_plug, <- Elr; by rewrite <- !app_assoc).
  rewrite E0 in *. rewrite Ex in H, Hrb. destruct (erase_one h k d c p x H Hrb) as (h' & t' & -> & H' & Hrb' & Hin & K).
  rewrite E1 in Hin, K. exists h', t'. split; [done|]. split; [done|]. split; [done|]. split; [done|]. split.
  - eapply keeps_subset; [|exact K]. intros a Ha. by apply (removed _ _ p) in Ha as [? _].
  - rewrite K; [done|]. intros Ha'. by apply (removed _ _ p) in Ha' as [_ ?].
Qed.

(** [rb_erase] takes the node out of the sequence and keeps the tree
    balanced. *)
Lemma rb_erase_spec h t p :
  holds_tree h t -> rb_tree t -> p ∈ inorder t ->
  exists h' t' l1 l2, rb_erase (Some p) h = Ok h' /\ holds_tree h' t' /\ rb_tree t'
    /\ inorder t = l1 ++ p :: l2 /\ inorder t' = l1 ++ l2
    /\ keeps (inorder t) h h' /\ is_Some (nodes h' !! p).
Proof.
  intros H Hrb Hp. destruct (find_place p t Hp) as (k & c & l & r & ->).
  assert (E0 : inorder (plug k (T c l p r)) = (before k ++ inorder l) ++ p :: inorder r ++ after k)
    by (rewrite inorder_plug; cbn [inorder]; by rewrite <- !app_assoc).
  unfold rb_erase. rewrite (node_spec h k Left c l p r H). run_res. cbn [join_node rb_left rb_right rb_parent rb_color].
  destruct l as [|cl ll lp lr]; [|destruct r as [|cr rl rp rr]]; cbn [root]; run_res.
  - destruct (erase_one_spec h k Left c RbShape.E p r r H Hrb) as (h' & t' & E & H' & Hrb' & Hin & K); [done..|].
    destruct (reparent (root r) (above k) h) as [h1|]; [|done]. run_res. cbn [mbind res_bind] in E.
    destruct (relink Left (above k) (Some p) (root r) h1) as [h2|]; [|done]. run_res. by eexists h', t', _, _.
  - destruct (erase_one_spec h k Right c (T cl ll lp lr) p RbShape.E (T cl ll lp lr) H Hrb)
      as (h' & t' & E & H' & Hrb' & Hin & K); [done | by rewrite app_nil_r|]. cbn [root] in E.
    destruct (reparent (Some lp) (above k) h) as [h1|]; [|done]. run_res. cbn [mbind res_bind] in E.
    destruct (relink Left (above k) (Some p) (Some lp) h1) as [h2|]; [|done]. run_res. by eexists h', t', _, _.
  - destruct (erase_both h k c (T cl ll lp lr) p (T cr rl rp rr) H Hrb) as (h' & t' & -> & H' & Hrb' & Hin & K & Ho); [done..|].
    by eexists h', t', _, _.
Qed.
