(* ===== verification/RbMap.v ===== *)
(** * Walking red-black trees, and the map kept in one

    [rb_first], [rb_next] and their mirror images follow the sequence of the
    tree; the client of [rbtree_test.cpp] is a finite map, found in
    logarithmic time and traversed in order. *)
From S2P Require Import Prelude.
From S2P Require Import RbTree.
From S2P Require Import RbShape.
From S2P Require Import RbTreeFacts.

(** ** Walking *)

(** The first node above whose other side one comes from. *)
Fixpoint up (d : side) (k : list frame) : node_ptr :=
  match k with
  | [] => None
  | f :: k => match d, fside f with Left, Left | Right, Right => up d k | _, _ => Some (fptr f) end
  end.

Lemma up_after k : up Right k = head (after k).
Proof. induction k as [|f k IH]; [done|]. simpl. by destruct (fside f). Qed.
Lemma up_before k : up Left k = last (before k).
Proof.
  induction k as [|f k IH]; [done|]. simpl. destruct (fside f); [by rewrite app_nil_r|].
  by rewrite app_assoc, last_snoc.
Qed.

Lemma walk_up_spec fuel h d k t a :
  holds_tree h (plug k t) -> root t = Some a -> length k < fuel -> walk_up fuel d (Some a) h = Ok (up d k).
Proof.
  revert k t a; induction fuel as [|fuel IH]; intros k t a H Ha Hf; [lia|]. cbn [walk_up].
  destruct (root_split Left t a Ha) as (c & u & b & ->). rewrite (node_spec _ _ _ _ _ _ _ H). run_res.
  cbn [join_node rb_parent]. destruct k as [|f k]; [done|]. cbn [above].
  pose proof (node_spec h k (fside f) (fcolor f) _ (fptr f) (fother f) H) as R. rewrite R. run_res.
  pose proof (siblings h k (fside f) (fcolor f) _ (fptr f) (fother f) a H eq_refl) as Hs.
  simpl in Hf. pose proof (IH k (fill f (join Left c u a b)) (fptr f) H) as Hup.
  unfold fill in Hup. rewrite root_join in Hup. specialize (Hup eq_refl ltac:(lia)).
  destruct d, (fside f) eqn:Ed; simpl; rewrite Ed;
    first [rewrite decide_True by done; exact Hup | rewrite decide_False by done; done].
Qed.

(** The next and the previous node of a sequence around a place. *)
Lemma adjacent_spec h k c l p r :
  holds_tree h (plug k (T c l p r)) ->
  rb_next (Some p) h = Ok (head (inorder r ++ after k)) /\
  rb_prev (Some p) h = Ok (last (before k ++ inorder l)).
Proof.
  intros H. unfold rb_next, rb_prev, adjacent. rewrite (node_spec h k Left c l p r H). run_res.
  cbn [join_node child rb_left rb_right opp].
  assert (Hf : length k < S (size (nodes h))).
  { pose proof (holds_size _ _ H). pose proof (ctx_length k (T c l p r)). lia. }
  split.
  - destruct (root r) as [a|] eqn:Ea.
    + pose proof H as H'. change (T c l p r) with (join Left c l p r) in H'. rewrite outer_place in H'.
      destruct (walk_spec h _ Left r a H' Ea) as (kd & c' & n & x & -> & Hkd & ->).
      simpl join. by rewrite left_spine.
    + destruct r; [|done]. cbn [inorder app]. rewrite <- up_after. by eapply (walk_up_spec _ h Right k (T c l p _)).
  - destruct (root l) as [a|] eqn:Ea.
    + pose proof H as H'. change (T c l p r) with (join Left c l p r) in H'. rewrite inner_place in H'.
      destruct (walk_spec h _ Right l a H' Ea) as (kd & c' & n & x & -> & Hkd & ->).
      simpl join. rewrite inorder_plug. simpl. rewrite after_right, app_nil_r by done.
      by rewrite !app_assoc, last_snoc.
    + destruct l; [|done]. cbn [inorder]. rewrite app_nil_r, <- up_before. by eapply (walk_up_spec _ h Left k (T c _ p r)).
Qed.

Lemma pivot (l1 l2 m1 m2 : list positive) p :
  NoDup (l1 ++ p :: l2) -> l1 ++ p :: l2 = m1 ++ p :: m2 -> l1 = m1 /\ l2 = m2.
Proof.
  revert m1; induction l1 as [|x l1 IH]; intros [|y m1] Hnd E; simpl in *.
  - by injection E as ->.
  - injection E as -> ->. apply NoDup_cons in Hnd as [Hnd _]. set_solver.
  - injection E as -> <-. apply NoDup_cons in Hnd as [Hnd _]. set_solver.
  - injection E as -> E. apply NoDup_cons in Hnd as [_ Hnd]. by destruct (IH m1 Hnd E) as [-> ->].
Qed.

(** [rb_next] and [rb_prev] of a node are its neighbours in the sequence,
    and null at the ends. *)
Theorem rb_neighbours h t l1 p l2 :
  holds_tree h t -> inorder t = l1 ++ p :: l2 ->
  rb_next (Some p) h = Ok (head l2) /\ rb_prev (Some p) h = Ok (last l1).
Proof.
  intros H E. destruct (find_place p t) as (k & c & l & r & ->); [rewrite E; set_solver|].
  destruct (adjacent_spec h k c l p r H) as [-> ->].
  pose proof (ht_nodup _ _ H) as Hnd. rewrite E in Hnd. rewrite inorder_plug in E. cbn [inorder] in E.
  rewrite <- app_assoc, <- app_comm_cons, app_assoc in E.
  destruct (pivot l1 l2 (before k ++ inorder l) (inorder r ++ after k) p) as [-> ->]; [done..|]. done.
Qed.

Lemma outermost_spec h t :
  holds_tree h t -> rb_first h = Ok (head (inorder t)) /\ rb_last h = Ok (last (inorder t)).
Proof.
  intros H. unfold rb_first, rb_last, outermost. rewrite (ht_root _ _ H).
  destruct (root t) as [a|] eqn:Ea; [|by destruct t]. split.
  - destruct (walk_spec h [] Left t a H Ea) as (kd & c' & n & x & -> & Hkd & ->). simpl join. by rewrite left_spine.
  - destruct (walk_spec h [] Right t a H Ea) as (kd & c' & n & x & -> & Hkd & ->).
    simpl join. rewrite inorder_plug. simpl. rewrite after_right, app_nil_r by done. by rewrite app_assoc, last_snoc.
Qed.

(** ** Heights *)
Fixpoint height (t : tree) : nat :=
  match t with E => 0 | T _ l _ r => S (Nat.max (height l) (height r)) end.

Lemma height_length t : height t <= length (inorder t).
Proof. induction t; simpl; [lia|]. rewrite length_app. simpl. lia. Qed.

Lemma bal_height n t :
  bal n t -> red_ok t -> height t <= 2 * n + match color_of t with RB_RED => 1 | RB_BLACK => 0 end.
Proof.
  revert n; induction t as [|c l IHl p r IHr]; intros n; simpl; [lia|]. intros Hb (Hc & Hl & Hr). destruct c.
  - destruct Hb as [Hbl Hbr], (Hc eq_refl) as [Ecl Ecr]. specialize (IHl n Hbl Hl). specialize (IHr n Hbr Hr).
    rewrite Ecl in IHl. rewrite Ecr in IHr. lia.
  - destruct n as [|n]; [done|]. destruct Hb as [Hbl Hbr]. specialize (IHl n Hbl Hl). specialize (IHr n Hbr Hr).
    destruct (color_of l), (color_of r); lia.
Qed.

Lemma bal_size n t : bal n t -> 2 ^ n <= S (length (inorder t)).
Proof.
  revert n; induction t as [|c l IHl p r IHr]; intros n; simpl; [by intros ->|]. rewrite length_app. simpl.
  destruct c; [|destruct n as [|n]; [done|]]; intros [Hl Hr]; specialize (IHl _ Hl); specialize (IHr _ Hr);
    simpl in *; lia.
Qed.

Lemma rb_height t : rb_tree t -> height t <= 2 * Nat.log2 (S (length (inorder t))).
Proof.
  intros (Hc & Hr & n & Hb). pose proof (bal_height n t Hb Hr) as Hh. rewrite Hc in Hh.
  pose proof (bal_size n t Hb) as Hs. apply Nat.log2_le_mono in Hs. rewrite Nat.log2_pow2 in Hs by lia. lia.
Qed.

(** ** Finding a key *)

(** Key and value of a node, the keys of the tree in order. *)
Definition entry (m : rb_map) (a : positive) : Z * Z := default (0, 0)%Z (data m !! a).
Definition ordered (m : rb_map) (t : tree) : Prop :=
  StronglySorted (fun a b => (fst (entry m a) < fst (entry m b))%Z) (inorder t).
Definition stored (m : rb_map) (t : tree) : Prop := forall a, a ∈ inorder t -> is_Some (data m !! a).

Lemma ordered_split m c l p r :
  ordered m (T c l p r) ->
  ordered m l /\ ordered m r /\ (forall a, a ∈ inorder l -> (fst (entry m a) < fst (entry m p))%Z)
  /\ (forall a, a ∈ inorder r -> (fst (entry m p) < fst (entry m a))%Z).
Proof.
  unfold ordered. simpl. intros H. apply StronglySorted_app in H as (Hd & Hl & Hr).
  apply StronglySorted_inv in Hr as [Hr Hp]. split; [done|]. split; [done|]. split.
  - intros a Ha. apply Hd; set_solver.
  - intros a Ha. rewrite Forall_forall in Hp. by apply Hp.
Qed.

Lemma key_of_spec m t a : stored m t -> a ∈ inorder t -> key_of (Some a) m = Ok (fst (entry m a)).
Proof. intros Hs Ha. unfold key_of, entry. destruct (Hs a Ha) as [kv E]. simpl. by rewrite E. Qed.

(** What [compareKey] decides. *)
Lemma compare_cases {A} (key k : Z) (x y z : A) :
  (if (compareKey key k <? 0)%Z then x else if (0 <? compareKey key k)%Z then y else z)
  = match (key ?= k)%Z with Lt => x | Gt => y | Eq => z end.
Proof.
  unfold compareKey. destruct (Z.compare_spec key k) as [->|H|H].
  - by rewrite Z.ltb_irrefl, Z.eqb_refl.
  - by rewrite (proj2 (Z.ltb_lt _ _) H).
  - rewrite (proj2 (Z.ltb_ge key k)), (proj2 (Z.eqb_neq key k)) by lia. done.
Qed.

Lemma search_spec fuel m k t key :
  holds_tree (heap m) (plug k t) -> stored m t -> ordered m t -> height t < fuel ->
  exists p, search_loop fuel key (root t) m = Ok p
    /\ match p with
       | Some a => a ∈ inorder t /\ fst (entry m a) = key
       | None => forall a, a ∈ inorder t -> fst (entry m a) <> key
       end.
Proof.
  revert k t; induction fuel as [|fuel IH]; intros k t H Hs Ho Hf; [lia|]. cbn [search_loop].
  destruct t as [|c l p r]; [exists None; split; [done|]; simpl; set_solver|]. cbn [root].
  rewrite (key_of_spec m _ p Hs) by (simpl; set_solver). run_res.
  rewrite (node_spec _ k Left c l p r H). run_res. cbn [join_node rb_left rb_right]. rewrite compare_cases.
  destruct (ordered_split m c l p r Ho) as (Hol & Hor & Hl & Hr). simpl in Hf.
  assert (Hsl : stored m l) by (intros a Ha; apply Hs; simpl; set_solver).
  assert (Hsr : stored m r) by (intros a Ha; apply Hs; simpl; set_solver).
  change (T c l p r) with (join Left c l p r) in H.
  destruct (Z.compare_spec key (fst (entry m p))) as [E|E|E].
  - exists (Some p). split; [done|]. split; [simpl; set_solver | done].
  - pose proof H as H'. rewrite inner_place in H'. destruct (IH _ l H' Hsl Hol) as (q & -> & Hq); [lia|].
    exists q. split; [done|]. destruct q as [a|]; [simpl; set_solver|]. simpl. intros a.
    rewrite elem_of_app, elem_of_cons. intros [Ha|[->|Ha]]; [by apply Hq | lia|]. apply Hr in Ha. lia.
  - pose proof H as H'. rewrite outer_place in H'. destruct (IH _ r H' Hsr Hor) as (q & -> & Hq); [lia|].
    exists q. split; [done|]. destruct q as [a|]; [simpl; set_solver|]. simpl. intros a.
    rewrite elem_of_app, elem_of_cons. intros [Ha|[->|Ha]]; [apply Hl in Ha; lia | lia | by apply Hq].
Qed.

(** The slot a new key goes to. *)
Definition link_of (k : list frame) : option (positive * side) :=
  match k with [] => None | f :: _ => Some (fptr f, fside f) end.

Lemma before_app k1 k2 : before (k1 ++ k2) = before k2 ++ before k1.
Proof. induction k1 as [|f k1 IH]; simpl; [by rewrite app_nil_r|]. by rewrite IH, app_assoc. Qed.
Lemma after_app k1 k2 : after (k1 ++ k2) = after k1 ++ after k2.
Proof. induction k1 as [|f k1 IH]; simpl; [done|]. by rewrite IH, app_assoc. Qed.

Lemma place_spec fuel m k t key :
  holds_tree (heap m) (plug k t) -> stored m t -> ordered m t -> height t < fuel ->
  (exists a, a ∈ inorder t /\ fst (entry m a) = key
     /\ place_loop fuel key (root t) (above k) (link_of k) m = Ok None)
  \/ (exists k', t = plug k' E /\ place_loop fuel key (root t) (above k) (link_of k) m
        = Ok (Some (above (k' ++ k), link_of (k' ++ k)))
      /\ (forall a, a ∈ before k' -> (fst (entry m a) < key)%Z)
      /\ (forall a, a ∈ after k' -> (key < fst (entry m a))%Z)).
Proof.
  revert k t; induction fuel as [|fuel IH]; intros k t H Hs Ho Hf; [lia|]. cbn [place_loop].
  destruct t as [|c l p r]; [right; exists []; repeat split; simpl; set_solver|]. cbn [root].
  rewrite (key_of_spec m _ p Hs) by (simpl; set_solver). run_res.
  rewrite (node_spec _ k Left c l p r H). run_res. cbn [join_node rb_left rb_right]. rewrite compare_cases.
  destruct (ordered_split m c l p r Ho) as (Hol & Hor & Hl & Hr). simpl in Hf.
  assert (Hsl : stored m l) by (intros a Ha; apply Hs; simpl; set_solver).
  assert (Hsr : stored m r) by (intros a Ha; apply Hs; simpl; set_solver).
  change (T c l p r) with (join Left c l p r) in H.
  destruct (Z.compare_spec key (fst (entry m p))) as [E|E|E].
  - left. exists p. split; [simpl; set_solver|]. done.
  - rewrite inner_place in H. destruct (IH _ l H Hsl Hol) as [(a & Ha & Hk & Ep) | (k' & -> & Ep & Hb & Haf)]; [lia|..].
    + left. exists a. split; [simpl; set_solver|]. split; [done|]. exact Ep.
    + right. exists (k' ++ [mkFrame Left c p r]). split; [by rewrite plug_app|]. split; [by rewrite <- app_assoc|].
      rewrite before_app, after_app. simpl. rewrite app_nil_r. split; [done|]. intros a.
      rewrite elem_of_app, elem_of_cons. intros [Ha|[->|Ha]]; [by apply Haf | lia|]. apply Hr in Ha. lia.
  - rewrite outer_place in H. destruct (IH _ r H Hsr Hor) as [(a & Ha & Hk & Ep) | (k' & -> & Ep & Hb & Haf)]; [lia|..].
    + left. exists a. split; [simpl; set_solver|]. split; [done|]. exact Ep.
    + right. exists (k' ++ [mkFrame Right c p l]). split; [by rewrite plug_app|]. split; [by rewrite <- app_assoc|].
      rewrite before_app, after_app. simpl. rewrite app_nil_r. split; [|done]. intros a.
      rewrite !elem_of_app, list_elem_of_singleton. intros [[Ha| ->]|Ha]; [apply Hl in Ha; lia | lia | by apply Hb].
Qed.

(** A new red leaf. *)
Lemma link_spec h k a rec :
  holds_tree h (plug k E) -> a ∉ inorder (plug k E) -> nodes h !! a = Some rec ->
  exists h', rb_link_node (Some a) (above k) (link_of k) h = Ok h' /\ holds_tree h' (plug k (T RB_RED E a E))
    /\ keeps (a :: inorder (plug k E)) h h'.
Proof.
  intros H Ha Hrec. unfold rb_link_node. rewrite (assign_some _ _ _ _ Hrec). run_res. set (h1 := mkHeap _ _).
  pose proof H as H'. rewrite holds_plug in H'. destruct H' as (Hr & Hk & _ & _ & Hnk & _).
  rewrite elem_plug in Ha. simpl in Ha.
  assert (Hk1 : rep_ctx (nodes h1) k None) by (apply rep_ctx_insert; [tauto | done]).
  assert (Ha1 : nodes h1 !! a = Some (mkNode (above k) None None RB_RED)) by apply lookup_insert_eq.
  destruct k as [|f k].
  - eexists. split; [done|]. split; [|intros b Hb; simpl; apply lookup_insert_ne; set_solver].
    split; simpl; [done | by rewrite lookup_insert_eq | apply NoDup_singleton].
  - cbn [link_of]. destruct Hk1 as (Hf & Ho & Hk1). rewrite (set_child_some _ _ _ _ _ Hf).
    replace (put_child _ _ _) with (join_node (above k) (fside f) (fcolor f) (Some a) (root (fother f))) by (by destruct (fside f)).
    rewrite ctx_ptrs_cons in Ha, Hnk. apply NoDup_cons in Hnk as [Hf1 Hnk]. apply NoDup_app in Hnk as (Hn1 & Hn2 & Hn3).
    eexists. split; [done|]. split.
    + apply holds_plug. cbn [rb_root nodes above]. simpl rep_ctx. rewrite lookup_insert_eq, ctx_ptrs_cons.
      split; [simpl; rewrite Hr; by apply (root_plug (f :: k))|]. split; [|split; [|split; [|split]]].
      * split; [done|]. split; [apply rep_insert | apply rep_ctx_insert]; set_solver.
      * simpl. rewrite !lookup_insert_ne by set_solver. by rewrite lookup_insert_eq.
      * apply NoDup_singleton.
      * apply NoDup_cons. split; [done|]. by apply NoDup_app.
      * intros b. simpl. set_solver.
    + intros b Hb. rewrite elem_of_cons, elem_plug, ctx_ptrs_cons in Hb. simpl. rewrite !lookup_insert_ne by set_solver. done.
Qed.

(** ** The map *)

(** [m] keeps its entries in a balanced search tree. *)
Record RbMap (m : rb_map) (t : tree) : Prop := {
  rm_holds : holds_tree (heap m) t;
  rm_rb : rb_tree t;
  rm_stored : stored m t;
  rm_ordered : ordered m t
}.

Definition entries (m : rb_map) (t : tree) : list (Z * Z) := entry m <$> inorder t.

(** The finite map it stands for. *)
Definition content_of (m : rb_map) (t : tree) : gmap Z Z := list_to_map (entries m t).

Lemma entries_nodup m t : ordered m t -> NoDup (entries m t).*1.
Proof.
  unfold ordered, entries. induction (inorder t) as [|a l IH]; intros H; [constructor|].
  apply StronglySorted_inv in H as [H Ha]. simpl. apply NoDup_cons. split; [|by apply IH].
  rewrite <- list_fmap_compose, list_elem_of_fmap. intros (b & Eb & Hb). rewrite Forall_forall in Ha.
  apply Ha in Hb. simpl in Eb. lia.
Qed.

Lemma content_lookup m t key v :
  ordered m t -> content_of m t !! key = Some v <-> exists a, a ∈ inorder t /\ entry m a = (key, v).
Proof.
  intros Ho. unfold content_of. rewrite <- elem_of_list_to_map by (by apply entries_nodup).
  unfold entries. rewrite list_elem_of_fmap. split; intros (a & ? & ?); exists a; auto.
Qed.

Lemma search_fuel m t : RbMap m t -> height t < S (size (nodes (heap m))).
Proof. intros [H _ _ _]. pose proof (holds_size _ _ H). pose proof (height_length t). lia. Qed.

Lemma my_search_spec m t key :
  RbMap m t ->
  exists p, my_search key m = Ok p
    /\ match p with
       | Some a => a ∈ inorder t /\ fst (entry m a) = key /\ content_of m t !! key = Some (snd (entry m a))
       | None => content_of m t !! key = None
       end.
Proof.
  intros HM. pose proof (search_fuel m t HM) as Hf. destruct HM as [H Hrb Hs Ho].
  unfold my_search. rewrite (ht_root _ _ H).
  destruct (search_spec (S (size (nodes (heap m)))) m [] t key H Hs Ho Hf) as (p & -> & Hp). exists p. split; [done|].
  destruct p as [a|].
  - destruct Hp as [Ha Hk]. split; [done|]. split; [done|]. apply content_lookup; [done|]. exists a. split; [done|].
    rewrite <- Hk. by destruct (entry m a).
  - destruct (content_of m t !! key) as [v|] eqn:Ev; [|done]. apply content_lookup in Ev as (a & Ha & Ek); [|done].
    destruct (Hp a Ha). by rewrite Ek.
Qed.

(** Entries of nodes that were not touched. *)
Lemma entry_ext m m' a : data m' !! a = data m !! a -> entry m' a = entry m a.
Proof. intros E. unfold entry. by rewrite E. Qed.

Lemma content_insert m m' t t' a l1 l2 key v :
  ordered m' t' -> inorder t = l1 ++ l2 -> inorder t' = l1 ++ a :: l2 -> entry m' a = (key, v) ->
  (forall b, b ∈ inorder t -> entry m' b = entry m b) -> content_of m' t' = <[key := v]> (content_of m t).
Proof.
  intros Ho E E' Ea Hb. unfold content_of, entries.
  assert (Hp : entry m' <$> inorder t' ≡ₚ (key, v) :: (entry m <$> inorder t)).
  { rewrite E', fmap_app, fmap_cons, Ea, <- Permutation_middle. constructor. rewrite E, fmap_app.
    rewrite (list_fmap_ext (entry m') (entry m) l1) by (intros ? b Hl; apply Hb; rewrite E; apply list_elem_of_lookup_2 in Hl; set_solver).
    rewrite (list_fmap_ext (entry m') (entry m) l2) by (intros ? b Hl; apply Hb; rewrite E; apply list_elem_of_lookup_2 in Hl; set_solver).
    done. }
  rewrite (list_to_map_proper _ _ (entries_nodup m' t' Ho) Hp). done.
Qed.

Lemma my_insert_spec m t a key v rec :
  RbMap m t -> a ∉ inorder t -> nodes (heap m) !! a = Some rec -> data m !! a = Some (key, v) ->
  (exists t' m', my_insert (Some a) m = Ok (0%Z, m') /\ RbMap m' t' /\ content_of m t !! key = None
     /\ content_of m' t' = <[key := v]> (content_of m t) /\ data m' = data m)
  \/ (my_insert (Some a) m = Ok ((-1)%Z, m) /\ is_Some (content_of m t !! key)).
Proof.
  intros HM Ha Hrec Hd. pose proof (search_fuel m t HM) as Hf. destruct HM as [H Hrb Hs Ho]. unfold my_insert.
  assert (Ek : key_of (Some a) m = Ok key) by (unfold key_of; simpl; by rewrite Hd).
  rewrite Ek. run_res. rewrite (ht_root _ _ H).
  destruct (place_spec (S (size (nodes (heap m)))) m [] t key H Hs Ho Hf) as [(b & Hb & Hk & E) | (k & Et & E & Hlt & Hgt)];
    cbn [above link_of] in E; rewrite E; run_res.
  { right. split; [done|]. exists (snd (entry m b)). apply content_lookup; [done|]. exists b. split; [done|].
    rewrite <- Hk. by destruct (entry m b). }
  left. rewrite app_nil_r in *. rewrite Et in *. clear Et t.
  destruct (link_spec (heap m) k a rec H Ha Hrec) as (h1 & -> & H1 & K1). run_res.
  apply rb_plug in Hrb as (n & Hn & Hkb & _ & Hko). simpl in Hn. subst n.
  destruct (rb_insert_color_spec h1 k a H1 Hkb Hko) as (h2 & t' & -> & H2 & Hrb2 & Hin & K2). run_res.
  assert (Ea : entry m a = (key, v)) by (unfold entry; by rewrite Hd).
  pose proof (inorder_plug k RbShape.E) as Ein. simpl in Ein.
  assert (Ho' : ordered (mkMap h2 (data m)) t').
  { unfold ordered in *. rewrite Hin, Ein in *. apply StronglySorted_app in Ho as (Hba & Hb & Haf).
    apply StronglySorted_app. change (entry (mkMap h2 (data m))) with (entry m). split; [|split; [done|]].
    - intros x y Hx [->|Hy]%elem_of_cons; [rewrite Ea; by apply Hlt | by apply Hba].
    - constructor; [done|]. apply Forall_forall. intros y Hy. rewrite Ea. by apply Hgt. }
  exists t', (mkMap h2 (data m)). split; [done|]. split; [split; [done|done| |done]|]; [|split; [|split; [|done]]].
  - intros b Hb. simpl. rewrite Hin in Hb. rewrite elem_of_app, elem_of_cons in Hb.
    destruct Hb as [Hb|[->|Hb]]; [apply Hs; rewrite Ein; set_solver | by rewrite Hd | apply Hs; rewrite Ein; set_solver].
  - destruct (content_of m (plug k RbShape.E) !! key) as [w|] eqn:Ew; [|done].
    apply content_lookup in Ew as (b & Hb & Eb); [|done]. rewrite Ein in Hb.
    apply elem_of_app in Hb as [Hb|Hb]; [apply Hlt in Hb | apply Hgt in Hb]; rewrite Eb in Hb; simpl in Hb; lia.
  - by apply (content_insert m _ _ t' a (before k) (after k)).
Qed.

Lemma content_delete m m' t t' a l1 l2 key :
  ordered m t -> inorder t = l1 ++ a :: l2 -> inorder t' = l1 ++ l2 -> fst (entry m a) = key ->
  (forall b, b ∈ inorder t' -> entry m' b = entry m b) -> content_of m' t' = delete key (content_of m t).
Proof.
  intros Ho E E' Ea Hb. unfold content_of, entries.
  assert (Hp : entry m <$> inorder t ≡ₚ entry m a :: (entry m' <$> inorder t')).
  { rewrite E, fmap_app, fmap_cons, <- Permutation_middle. constructor. rewrite E', fmap_app.
    rewrite (list_fmap_ext (entry m') (entry m) l1) by (intros ? b Hl; apply Hb; rewrite E'; apply list_elem_of_lookup_2 in Hl; set_solver).
    rewrite (list_fmap_ext (entry m') (entry m) l2) by (intros ? b Hl; apply Hb; rewrite E'; apply list_elem_of_lookup_2 in Hl; set_solver).
    done. }
  pose proof (entries_nodup m t Ho) as Hnd. unfold entries in Hnd.
  rewrite (list_to_map_proper _ _ Hnd Hp). rewrite Hp in Hnd. destruct (entry m a) as [k v]. simpl in *. subst k.
  apply NoDup_cons in Hnd as [Hk _]. rewrite delete_insert_id; [done|]. by apply not_elem_of_list_to_map.
Qed.

Lemma ordered_delete (R : positive -> positive -> Prop) l1 a l2 :
  StronglySorted R (l1 ++ a :: l2) -> StronglySorted R (l1 ++ l2).
Proof.
  rewrite !StronglySorted_app. intros (Hd & Hl & Hr). apply StronglySorted_inv in Hr as [Hr _].
  split; [|by split]. intros x y Hx Hy. apply Hd; [done|]. set_solver.
Qed.

Lemma my_delete_spec m t key :
  RbMap m t ->
  exists t' m', my_delete key m = Ok m' /\ RbMap m' t' /\ content_of m' t' = delete key (content_of m t).
Proof.
  intros HM. unfold my_delete. destruct (my_search_spec m t key HM) as (p & -> & Hp). run_res.
  destruct p as [a|].
  2:{ exists t, m. split; [done|]. split; [done|]. by rewrite delete_id. }
  destruct Hp as (Ha & Hk & _). destruct HM as [H Hrb Hs Ho].
  destruct (rb_erase_spec (heap m) t a H Hrb Ha) as (h1 & t' & l1 & l2 & -> & H1 & Hrb1 & E & E' & K1 & [rec Hrec]).
  run_res. unfold free_node. cbn [heap]. rewrite (deref_some _ _ _ Hrec). run_res.
  assert (Hnd : NoDup (l1 ++ a :: l2)) by (rewrite <- E; apply H).
  assert (Ha' : forall b, b ∈ inorder t' -> b ∈ inorder t /\ b <> a)
    by (intros b Hb; rewrite E' in Hb; rewrite E; by apply removed).
  assert (Hne : a ∉ inorder t') by (intros Hx; by apply Ha' in Hx as [_ ?]).
  set (m' := mkMap _ _).
  assert (Hent : forall b, b ∈ inorder t' -> entry m' b = entry m b).
  { intros b Hb. apply Ha' in Hb as [_ Hb]. apply entry_ext. simpl. by rewrite lookup_delete_ne. }
  exists t', m'. split; [done|]. split; [|by apply (content_delete m m' t t' a l1 l2)]. split; simpl.
  - destruct H1 as [? Hm ?]. split; [done| |done]. simpl. apply (rep_agree (nodes h1)); [|done].
    intros b Hb. apply lookup_delete_ne. by intros ->.
  - done.
  - intros b Hb. destruct (Ha' b Hb) as [Hbt Hba]. simpl. rewrite lookup_delete_ne by done. by apply Hs.
  - unfold ordered in *. rewrite E in Ho. apply ordered_delete in Ho. rewrite <- E' in Ho.
    revert Ho Hent. clear. induction (inorder t') as [|b l IH]; intros Ho Hent; [constructor|].
    apply StronglySorted_inv in Ho as [Ho Hb]. constructor.
    + apply IH; [done|]. intros. apply Hent. set_solver.
    + apply Forall_forall. intros c Hc. rewrite Forall_forall in Hb. rewrite !Hent by set_solver. by apply Hb.
Qed.

(** [traverse] follows the sequence. *)
Lemma traverse_loop_spec fuel m t l1 l2 :
  RbMap m t -> inorder t = l1 ++ l2 -> length l2 < fuel ->
  traverse_loop fuel (head l2) m = Ok (entry m <$> l2).
Proof.
  intros [H _ Hs _]. revert l1 l2; induction fuel as [|fuel IH]; intros l1 l2 E Hf; [lia|]. cbn [traverse_loop].
  destruct l2 as [|a l2]; [done|]. cbn [head].
  destruct (Hs a) as [kv Ekv]; [rewrite E; set_solver|]. 
  assert (Eg : get_ NullDeref ((Some a : node_ptr) ≫= fun a => data m !! a) = Ok kv) by (simpl; by rewrite Ekv).
  rewrite Eg. run_res.
  destruct (find_place a t) as (k & c & l & r & ->); [rewrite E; set_solver|].
  destruct (adjacent_spec (heap m) k c l a r H) as [-> _]. run_res.
  pose proof (ht_nodup _ _ H) as Hnd. rewrite E in Hnd. pose proof E as E0. rewrite inorder_plug in E0. cbn [inorder] in E0.
  rewrite <- app_assoc, <- app_comm_cons, app_assoc in E0.
  destruct (pivot l1 l2 (before k ++ inorder l) (inorder r ++ after k) a) as [-> <-]; [done..|].
  rewrite (IH ((before k ++ inorder l) ++ [a]) l2); [|by rewrite E, <- !app_assoc | simpl in Hf; lia].
  run_res. assert (Ea : entry m a = kv) by (unfold entry; by rewrite Ekv). by rewrite <- Ea.
Qed.

Lemma traverse_spec m t : RbMap m t -> traverse m = Ok (entries m t).
Proof.
  intros HM. unfold traverse. destruct (outermost_spec (heap m) t (rm_holds _ _ HM)) as [-> _]. run_res.
  apply (traverse_loop_spec _ m t [] (inorder t) HM eq_refl).
  pose proof (holds_size _ _ (rm_holds _ _ HM)). lia.
Qed.

Lemma entries_sorted m t : ordered m t -> StronglySorted Z.lt (entries m t).*1.
Proof.
  unfold ordered, entries. induction (inorder t) as [|a l IH]; intros H; [constructor|].
  apply StronglySorted_inv in H as [H Ha]. simpl. constructor; [by apply IH|].
  apply Forall_fmap, Forall_fmap. exact Ha.
Qed.

Lemma content_list m t : ordered m t -> map_to_list (content_of m t) ≡ₚ entries m t.
Proof. intros Ho. unfold content_of. apply map_to_list_to_map. by apply entries_nodup. Qed.

(** ** Theorems *)

Section Client.
(** [malloc] finds memory that is not in use, with some content. *)
Context (malloc : gset positive -> positive * rb_node) (malloc_fresh : forall used, fst (malloc used) ∉ used).

Inductive map_op := Put (key val : Z) | Delete (key : Z) | Search (key : Z) | Traverse.
Inductive map_out := Returned (ret : Z) | Deleted | Found (val : option Z) | Listed (l : list (Z * Z)).

(** What the test does with a map. *)
Definition map_step (op : map_op) (m : rb_map) : res (rb_map * map_out) :=
  match op with
  | Put key val =>
      let (a, garbage) := malloc (dom (nodes (heap m)) ∪ dom (data m)) in
      '(ret, m) ← my_insert (Some a) (new_mynode a garbage key val m);
      Ok (m, Returned ret)
  | Delete key => m ← my_delete key m; Ok (m, Deleted)
  | Search key =>
      p ← my_search key m;
      match p with
      | Some a => kv ← get_ NullDeref (data m !! a); Ok (m, Found (Some (snd kv)))
      | None => Ok (m, Found None)
      end
  | Traverse => l ← traverse m; Ok (m, Listed l)
  end.

Fixpoint map_run (ops : list map_op) (m : rb_map) : res (rb_map * list map_out) :=
  match ops with
  | [] => Ok (m, [])
  | op :: ops => '(m, out) ← map_step op m; '(m, outs) ← map_run ops m; Ok (m, out :: outs)
  end.

Definition empty_map : rb_map := mkMap (mkHeap None ∅) ∅.

(** The same on a finite map: the first value of a key stays. *)
Definition map_after (op : map_op) (M : gmap Z Z) : gmap Z Z :=
  match op with
  | Put key val => match M !! key with Some _ => M | None => <[key := val]> M end
  | Delete key => delete key M
  | Search _ | Traverse => M
  end.
Definition map_answer (op : map_op) (M : gmap Z Z) (out : map_out) : Prop :=
  match op, out with
  | Put key _, Returned ret => ret = (match M !! key with Some _ => -1 | None => 0 end)%Z
  | Delete _, Deleted => True
  | Search key, Found v => v = M !! key
  | Traverse, Listed l => l ≡ₚ map_to_list M /\ StronglySorted Z.lt l.*1
  | _, _ => False
  end.
Fixpoint map_answers (ops : list map_op) (M : gmap Z Z) (outs : list map_out) : Prop :=
  match ops, outs with
  | [], [] => True
  | op :: ops, out :: outs => map_answer op M out /\ map_answers ops (map_after op M) outs
  | _, _ => False
  end.

Lemma empty_RbMap : RbMap empty_map E.
Proof.
  split.
  - split; [done | done | constructor].
  - split; [done|]. split; [done|]. by exists 0.
  - intros a Ha. by apply elem_of_nil in Ha.
  - constructor.
Qed.

(** A fresh node changes nothing. *)
Lemma new_mynode_RbMap m t a garbage key val :
  RbMap m t -> a ∉ dom (nodes (heap m)) ∪ dom (data m) ->
  RbMap (new_mynode a garbage key val m) t /\ content_of (new_mynode a garbage key val m) t = content_of m t
  /\ a ∉ inorder t.
Proof.
  intros [H Hrb Hs Ho] Ha. assert (Hat : a ∉ inorder t).
  { intros Hx. destruct (Hs a Hx) as [kv E]. apply Ha. apply elem_of_union_r, elem_of_dom. eauto. }
  assert (He : forall b, b ∈ inorder t -> entry (new_mynode a garbage key val m) b = entry m b).
  { intros b Hb. apply entry_ext. simpl. apply lookup_insert_ne. by intros ->. }
  split; [|split; [|done]].
  - split; simpl.
    + destruct H as [? Hm ?]. split; [done | by apply rep_insert | done].
    + done.
    + intros b Hb. simpl. rewrite lookup_insert_ne by (by intros ->). by apply Hs.
    + unfold ordered in *. revert He Ho. clear. induction (inorder t) as [|b l IH]; intros He Ho; [constructor|].
      apply StronglySorted_inv in Ho as [Ho Hb]. constructor; [apply IH; [|done]; intros; apply He; set_solver|].
      apply Forall_forall. intros c Hc. rewrite Forall_forall in Hb. rewrite !He by set_solver. by apply Hb.
  - unfold content_of, entries. f_equal. apply list_fmap_ext. intros i b Hl. apply He. by eapply list_elem_of_lookup_2.
Qed.

Lemma map_step_spec op m t :
  RbMap m t ->
  exists m' t' out, map_step op m = Ok (m', out) /\ RbMap m' t' /\ content_of m' t' = map_after op (content_of m t)
    /\ map_answer op (content_of m t) out.
Proof.
  intros HM. destruct op as [key val|key|key|]; cbn [map_step map_after map_answer].
  - destruct (malloc _) as [a garbage] eqn:Em.
    pose proof (malloc_fresh (dom (nodes (heap m)) ∪ dom (data m))) as Hf. rewrite Em in Hf. simpl in Hf.
    destruct (new_mynode_RbMap m t a garbage key val HM Hf) as (HM1 & Hc1 & Hat).
    destruct (my_insert_spec _ t a key val garbage HM1 Hat) as [(t' & m' & -> & HM' & Hn & Hc & _) | (-> & [v Hv])].
    { simpl. apply lookup_insert_eq. } { simpl. apply lookup_insert_eq. }
    + run_res. rewrite Hc1 in *. rewrite Hn. by exists m', t', (Returned 0).
    + run_res. rewrite Hc1 in *. rewrite Hv. by eexists _, t, (Returned (-1)).
  - destruct (my_delete_spec m t key HM) as (t' & m' & -> & HM' & Hc). run_res. by exists m', t', Deleted.
  - destruct (my_search_spec m t key HM) as ([a|] & -> & Hp); run_res.
    + destruct Hp as (Ha & Hk & Hc). destruct (rm_stored _ _ HM a Ha) as [kv Ekv]. rewrite Ekv. run_res.
      eexists m, t, _. split; [done|]. split; [done|]. split; [done|]. rewrite Hc. unfold entry. by rewrite Ekv.
    + by exists m, t, (Found None).
  - rewrite (traverse_spec m t HM). run_res. eexists m, t, _. split; [done|]. split; [done|]. split; [done|].
    split; [|apply entries_sorted, HM]. symmetry. apply content_list, HM.
Qed.

Lemma map_run_spec ops m t :
  RbMap m t ->
  exists m' t' outs, map_run ops m = Ok (m', outs) /\ RbMap m' t' /\ map_answers ops (content_of m t) outs.
Proof.
  revert m t; induction ops as [|op ops IH]; intros m t HM; cbn [map_run map_answers]; [by exists m, t, []|].
  destruct (map_step_spec op m t HM) as (m1 & t1 & out & -> & HM1 & Hc & Ha). run_res.
  destruct (IH m1 t1 HM1) as (m2 & t2 & outs & -> & HM2 & Has). run_res. rewrite Hc in Has. by exists m2, t2, (out :: outs).
Qed.

(** C18: The map in the tree is a finite map: whatever is inserted, deleted,
    looked up and traversed, no pointer is misused and every answer is that of
    the finite map; a traversal lists it in increasing order of the keys. *)
Theorem rb_map_refines ops :
  exists m outs, map_run ops empty_map = Ok (m, outs) /\ map_answers ops ∅ outs.
Proof.
  destruct (map_run_spec ops _ _ empty_RbMap) as (m & t & outs & E & _ & H). exists m, outs. split; [done|]. exact H.
Qed.

(** C21: The tree stays a balanced search tree: after any operations it is a
    red-black tree whose keys increase along its sequence, and a search ends
    after at most [2 log2 (n + 1) + 1] rounds. *)
Theorem rb_map_balanced ops m outs :
  map_run ops empty_map = Ok (m, outs) ->
  exists t, holds_tree (heap m) t /\ rb_tree t /\ StronglySorted Z.lt (entries m t).*1
    /\ forall key, search_loop (S (2 * Nat.log2 (S (length (inorder t))))) key (rb_root (heap m)) m = my_search key m.
Proof.
  intros E. destruct (map_run_spec ops _ _ empty_RbMap) as (m' & t & outs' & E' & HM & _).
  assert (m' = m) as -> by congruence. exists t. split; [apply HM|]. split; [apply HM|].
  split; [apply entries_sorted, HM|]. intros key.
  pose proof (rb_height t (rm_rb _ _ HM)) as Hh. pose proof (search_fuel m t HM) as Hf. destruct HM as [H Hrb Hs Ho].
  unfold my_search. rewrite (ht_root _ _ H).
  destruct (search_spec (S (2 * Nat.log2 (S (length (inorder t))))) m [] t key H Hs Ho) as (p & -> & Hp); [lia|].
  destruct (search_spec (S (size (nodes (heap m)))) m [] t key H Hs Ho Hf) as (q & -> & Hq).
  f_equal. destruct p as [a|], q as [b|]; try done.
  - f_equal. destruct Hp as [Ha Hka], Hq as [Hb Hkb].
    assert (Hinj : forall l, StronglySorted (fun a b => (fst (entry m a) < fst (entry m b))%Z) l ->
      a ∈ l -> b ∈ l -> a = b).
    { clear -Hka Hkb. induction 1 as [|c l Hl IH Hc]; [set_solver|]. rewrite Forall_forall in Hc.
      intros [->|Ha]%elem_of_cons [->|Hb]%elem_of_cons; [done | apply Hc in Hb; lia | apply Hc in Ha; lia | auto]. }
    by apply (Hinj (inorder t)).
  - destruct Hp as [Ha Hka]. by apply Hq in Ha.
  - destruct Hq as [Hb Hkb]. by apply Hp in Hb.
Qed.
End Client.

(** Memory is taken at the first free address and is zero. *)
Definition first_fit (used : gset positive) : positive * rb_node := (fresh used, mkNode None None None RB_RED).

Lemma first_fit_fresh used : fst (first_fit used) ∉ used.
Proof. apply is_fresh. Qed.

Definition demo_map_ops : list map_op :=
  [Put 2 20; Put 4 40; Put 6 60; Put 4 0; Delete 2; Search 4; Put 1 10; Put 3 30; Delete 4; Traverse]%Z.

Lemma rb_map_refines_witness :
  exists m outs, map_run first_fit demo_map_ops empty_map = Ok (m, outs) /\ map_answers demo_map_ops ∅ outs.
Proof. apply rb_map_refines. apply first_fit_fresh. Defined.

Definition demo_map : rb_map :=
  match map_run first_fit demo_map_ops empty_map with Ok (m, _) => m | Fault _ => empty_map end.

Lemma rb_map_balanced_witness :
  exists t, holds_tree (heap demo_map) t /\ rb_tree t /\ StronglySorted Z.lt (entries demo_map t).*1
    /\ forall key, search_loop (S (2 * Nat.log2 (S (length (inorder t))))) key (rb_root (heap demo_map)) demo_map
                   = my_search key demo_map.
Proof.
  apply (rb_map_balanced first_fit first_fit_fresh demo_map_ops demo_map
    [Returned 0; Returned 0; Returned 0; Returned (-1); Deleted; Found (Some 40); Returned 0; Returned 0; Deleted;
     Listed [(1, 10); (3, 30); (6, 60)]]%Z).
  vm_compute. reflexivity.
Defined.
