(* ===== verification/YQueue.v ===== *)
(** * The chunked queue: [src/msmuduo/base/yqueue.hpp], [atomic_ptr.hpp]

    A queue whose elements live in linked chunks of [N], one thread pushing
    and one popping; a chunk that was emptied is kept as a spare. Memory is
    explicit: chunks are addresses, and a pointer to freed memory faults. *)
From S2P Require Import Prelude.

Section YQueue.
Context {A : Type} (N : nat).

Definition chunk_ptr := option positive.

Record chunk_t := mkChunk { values : list A; prev : chunk_ptr; next : chunk_ptr }.

(** [spare_chunk] is the pointer inside the [atomic_ptr_t]. *)
Record yqueue_t := mkYqueue {
  begin_chunk : chunk_ptr; begin_pos : nat;
  back_chunk : chunk_ptr; back_pos : nat;
  end_chunk : chunk_ptr; end_pos : nat;
  spare_chunk : chunk_ptr;
  chunks : gmap positive chunk_t
}.

Definition chunk_at (p : chunk_ptr) (m : gmap positive chunk_t) : res chunk_t :=
  get_ NullDeref (p ≫= fun a => m !! a).
Definition set_chunk (p : chunk_ptr) (f : chunk_t -> chunk_t) (m : gmap positive chunk_t) :
    res (gmap positive chunk_t) :=
  match p with
  | Some a => c ← chunk_at p m; Ok (<[a := f c]> m)
  | None => Fault NullDeref
  end.
Definition set_prev (p v : chunk_ptr) := set_chunk p (fun c => mkChunk (values c) v (next c)).
Definition set_next (p v : chunk_ptr) := set_chunk p (fun c => mkChunk (values c) (prev c) v).

(** [free]: a null pointer does nothing, freed memory faults. *)
Definition free_chunk (p : chunk_ptr) (m : gmap positive chunk_t) : res (gmap positive chunk_t) :=
  match p with
  | Some a => _ ← chunk_at p m; Ok (delete a m)
  | None => Ok m
  end.

Definition set_begin (p : chunk_ptr) (pos : nat) (q : yqueue_t) : yqueue_t :=
  mkYqueue p pos (back_chunk q) (back_pos q) (end_chunk q) (end_pos q) (spare_chunk q) (chunks q).
Definition set_back_at (p : chunk_ptr) (pos : nat) (q : yqueue_t) : yqueue_t :=
  mkYqueue (begin_chunk q) (begin_pos q) p pos (end_chunk q) (end_pos q) (spare_chunk q) (chunks q).
Definition set_end (p : chunk_ptr) (pos : nat) (q : yqueue_t) : yqueue_t :=
  mkYqueue (begin_chunk q) (begin_pos q) (back_chunk q) (back_pos q) p pos (spare_chunk q) (chunks q).
Definition set_chunks (m : gmap positive chunk_t) (q : yqueue_t) : yqueue_t :=
  mkYqueue (begin_chunk q) (begin_pos q) (back_chunk q) (back_pos q) (end_chunk q) (end_pos q) (spare_chunk q) m.

(** [spare_chunk.xchg]. *)
Definition xchg (v : chunk_ptr) (q : yqueue_t) : chunk_ptr * yqueue_t :=
  (spare_chunk q,
   mkYqueue (begin_chunk q) (begin_pos q) (back_chunk q) (back_pos q) (end_chunk q) (end_pos q) v (chunks q)).

(** [malloc] gives an address and what the memory there holds. *)
Definition new_yqueue_t (a : positive) (c : chunk_t) : yqueue_t :=
  mkYqueue (Some a) 0 None 0 (Some a) 0 None {[a := c]}.

Definition front (q : yqueue_t) : res A :=
  c ← chunk_at (begin_chunk q) (chunks q);
  get_ OutOfBounds (values c !! begin_pos q).
Definition back (q : yqueue_t) : res A :=
  c ← chunk_at (back_chunk q) (chunks q);
  get_ OutOfBounds (values c !! back_pos q).
(** [back() = v]. *)
Definition assign_back (v : A) (q : yqueue_t) : res yqueue_t :=
  _ ← back q;
  m ← set_chunk (back_chunk q) (fun c => mkChunk (<[back_pos q := v]> (values c)) (prev c) (next c)) (chunks q);
  Ok (set_chunks m q).

Definition push (a : positive) (garbage : chunk_t) (q : yqueue_t) : res yqueue_t :=
  let q := set_back_at (end_chunk q) (end_pos q) q in
  let q := set_end (end_chunk q) (S (end_pos q)) q in
  if negb (end_pos q =? N) then Ok q
  else
    let (sc, q) := xchg None q in
    m ← match sc with
        | Some _ => m ← set_next (end_chunk q) sc (chunks q); set_prev sc (end_chunk q) m
        | None =>
            m ← set_next (end_chunk q) (Some a) (<[a := garbage]> (chunks q));
            e ← chunk_at (end_chunk q) m;
            set_prev (next e) (end_chunk q) m
        end;
    e ← chunk_at (end_chunk q) m;
    Ok (set_end (next e) 0 (set_chunks m q)).

Definition unpush (q : yqueue_t) : res yqueue_t :=
  q ← (if negb (back_pos q =? 0) then Ok (set_back_at (back_chunk q) (back_pos q - 1) q)
       else c ← chunk_at (back_chunk q) (chunks q); Ok (set_back_at (prev c) (N - 1) q));
  if negb (end_pos q =? 0) then Ok (set_end (end_chunk q) (end_pos q - 1) q)
  else
    e ← chunk_at (end_chunk q) (chunks q);
    let q := set_end (prev e) (N - 1) q in
    e ← chunk_at (end_chunk q) (chunks q);
    m ← free_chunk (next e) (chunks q);
    m ← set_next (end_chunk q) None m;
    Ok (set_chunks m q).

Definition pop (q : yqueue_t) : res yqueue_t :=
  let q := set_begin (begin_chunk q) (S (begin_pos q)) q in
  if begin_pos q =? N then
    let o := begin_chunk q in
    c ← chunk_at (begin_chunk q) (chunks q);
    let q := set_begin (next c) (begin_pos q) q in
    m ← set_prev (begin_chunk q) None (chunks q);
    let q := set_begin (begin_chunk q) 0 (set_chunks m q) in
    let (cs, q) := xchg o q in
    m ← match cs with Some _ => free_chunk cs (chunks q) | None => Ok (chunks q) end;
    Ok (set_chunks m q)
  else Ok q.

(** The destructor; a round frees a chunk. *)
Fixpoint destroy_loop (fuel : nat) (q : yqueue_t) : res yqueue_t :=
  match fuel with
  | 0 => Fault OutOfFuel
  | S fuel =>
      if decide (begin_chunk q = end_chunk q) then
        m ← free_chunk (begin_chunk q) (chunks q); Ok (set_chunks m q)
      else
        let o := begin_chunk q in
        c ← chunk_at (begin_chunk q) (chunks q);
        let q := set_begin (next c) (begin_pos q) q in
        m ← free_chunk o (chunks q);
        destroy_loop fuel (set_chunks m q)
  end.
Definition destroy (q : yqueue_t) : res yqueue_t :=
  q ← destroy_loop (S (size (chunks q))) q;
  let (sc, q) := xchg None q in
  match sc with Some _ => m ← free_chunk sc (chunks q); Ok (set_chunks m q) | None => Ok q end.
End YQueue.
