(* ===== verification/YQueueFacts.v ===== *)
(** * Correctness of the chunked queue

    Used as its comments ask, the queue is a list; it never touches freed
    memory and its destructor frees everything. *)
From S2P Require Import Prelude.
From S2P Require Import YQueue.

Section YQueueFacts.
Context {A : Type} (N : nat) (HN : 0 < N).
Implicit Types (q : @yqueue_t A) (m : gmap positive (@chunk_t A)) (ch : list positive) (l : list A).

(** ** Cells *)

Definition vals m (a : positive) : list A := default [] (values <$> m !! a).

(** Cell [i] of the chunks of a chain. *)
Definition cell m ch (i : nat) : option A := a ← ch !! (i / N); vals m a !! (i mod N).

Lemma div_succ j : S (j mod N) = N -> S j / N = S (j / N) /\ S j mod N = 0.
Proof.
  intros H. pose proof (Nat.div_mod_eq j N) as E. assert (E' : S j = N * S (j / N)) by lia. rewrite E'.
  rewrite Nat.mul_comm, Nat.div_mul, Nat.Div0.mod_mul by lia. done.
Qed.
Lemma div_same j : S (j mod N) <> N -> S j / N = j / N /\ S j mod N = S (j mod N).
Proof.
  intros H. pose proof (Nat.div_mod_eq j N) as E. pose proof (Nat.mod_upper_bound j N ltac:(lia)).
  split; [symmetry; apply (Nat.div_unique _ _ _ (S (j mod N))); lia
         | symmetry; apply (Nat.mod_unique _ _ (j / N)); lia].
Qed.
Lemma div_shift i : (i + N) / N = S (i / N) /\ (i + N) mod N = i mod N.
Proof.
  replace (i + N) with (i + 1 * N) by lia. rewrite Nat.div_add, Nat.Div0.mod_add by lia. split; [lia | done].
Qed.

(** Consecutive chunks point to each other. *)
Definition linked m ch : Prop :=
  forall i a b, ch !! i = Some a -> ch !! S i = Some b ->
    (m !! a ≫= next) = Some b /\ (m !! b ≫= prev) = Some a.

(** A chunk in memory. *)
Definition full m (a : positive) : Prop := exists c, m !! a = Some c /\ length (values c) = N.

Definition spare_set (p : @chunk_ptr) : gset positive := match p with Some s => {[s]} | None => ∅ end.

(** The queue holds [l] in the chunks of [ch]. *)
Record holds_list q ch l : Prop := {
  hl_nodup : NoDup ch;
  hl_begin : begin_chunk q = head ch;
  hl_length : length ch = S ((begin_pos q + length l) / N);
  hl_begin_pos : begin_pos q < N;
  hl_end : end_chunk q = last ch;
  hl_end_pos : end_pos q = (begin_pos q + length l) mod N;
  hl_back : l <> [] -> back_chunk q = ch !! ((begin_pos q + length l - 1) / N)
                      /\ back_pos q = (begin_pos q + length l - 1) mod N;
  hl_full a : a ∈ ch -> full (chunks q) a;
  hl_linked : linked (chunks q) ch;
  hl_cells i : i < length l -> l !! i = cell (chunks q) ch (begin_pos q + i);
  hl_spare s : spare_chunk q = Some s -> s ∉ ch /\ full (chunks q) s;
  hl_dom : dom (chunks q) = list_to_set ch ∪ spare_set (spare_chunk q)
}.

Lemma chunk_at_some a m c : m !! a = Some c -> chunk_at (Some a) m = Ok c.
Proof. intros E. unfold chunk_at. simpl. by rewrite E. Qed.

Lemma set_chunk_some a f m c : m !! a = Some c -> set_chunk (Some a) f m = Ok (<[a := f c]> m).
Proof. intros E. unfold set_chunk. by rewrite (chunk_at_some _ _ _ E). Qed.

(** A valid cell of the chain. *)
Lemma cell_some m ch i :
  (forall a, a ∈ ch -> full m a) -> i / N < length ch ->
  exists a c x, ch !! (i / N) = Some a /\ m !! a = Some c /\ length (values c) = N
    /\ values c !! (i mod N) = Some x /\ cell m ch i = Some x.
Proof.
  intros Hf Hi. apply lookup_lt_is_Some in Hi as [a Ha]. destruct (Hf a) as (c & Ec & Hc); [by eapply list_elem_of_lookup_2|].
  destruct (lookup_lt_is_Some_2 (values c) (i mod N)) as [x Hx]; [rewrite Hc; apply Nat.mod_upper_bound; lia|].
  exists a, c, x. split; [done|]. split; [done|]. split; [done|]. split; [done|].
  unfold cell, vals. rewrite Ha. simpl. by rewrite Ec.
Qed.

Lemma chain_last ch a : last ch = Some a -> ch !! (length ch - 1) = Some a.
Proof. rewrite last_lookup. by replace (length ch - 1) with (pred (length ch)) by lia. Qed.

(** Pointers that are set do not change the cells. *)
Definition same_values m m' : Prop := forall a, vals m' a = vals m a.

Lemma cell_same m m' ch i : same_values m m' -> cell m' ch i = cell m ch i.
Proof. intros H. unfold cell. destruct (ch !! (i / N)); simpl; [by rewrite H | done]. Qed.

(** ** Reading *)

Lemma front_spec q ch x l : holds_list q ch (x :: l) -> front q = Ok x.
Proof.
  intros H. pose proof (hl_begin_pos _ _ _ H) as Hb. pose proof (hl_cells _ _ _ H 0 ltac:(simpl; lia)) as Hc.
  pose proof (hl_length _ _ _ H) as Hl. rewrite Nat.add_0_r in Hc.
  destruct (cell_some (chunks q) ch (begin_pos q) (hl_full _ _ _ H)) as (a & c & y & Ha & Ec & Hn & Hy & Ey).
  { rewrite Nat.div_small by done. lia. }
  rewrite Nat.div_small in Ha by done. rewrite Nat.mod_small in Hy by done.
  unfold front. rewrite (hl_begin _ _ _ H), head_lookup, Ha. rewrite (chunk_at_some _ _ _ Ec). run_res. rewrite Hy.
  simpl in Hc. rewrite Ey in Hc. by injection Hc as ->.
Qed.

Lemma back_cell q ch l x :
  holds_list q ch (l ++ [x]) ->
  exists a c, back_chunk q = Some a /\ chunks q !! a = Some c /\ length (values c) = N
    /\ values c !! back_pos q = Some x /\ back_pos q = (begin_pos q + length l) mod N
    /\ ch !! ((begin_pos q + length l) / N) = Some a.
Proof.
  intros H. destruct (hl_back _ _ _ H) as [Eb Ep]; [by destruct l|]. pose proof (hl_length _ _ _ H) as Hl.
  rewrite length_app in Eb, Ep, Hl. simpl in Eb, Ep, Hl.
  replace (begin_pos q + (length l + 1) - 1) with (begin_pos q + length l) in Eb, Ep by lia.
  pose proof (hl_cells _ _ _ H (length l)) as Hc. rewrite length_app in Hc. specialize (Hc ltac:(simpl; lia)).
  rewrite lookup_app_r, Nat.sub_diag in Hc by lia.
  destruct (cell_some (chunks q) ch (begin_pos q + length l) (hl_full _ _ _ H)) as (a & c & y & Ha & Ec & Hn & Hy & Ey).
  { rewrite Hl. apply Nat.lt_succ_r, Nat.Div0.div_le_mono. lia. }
  exists a, c. rewrite Eb, Ha. split; [done|]. split; [done|]. split; [done|]. rewrite Ep.
  split; [|done]. rewrite Ey in Hc. by injection Hc as ->.
Qed.

Lemma back_spec q ch l x : holds_list q ch (l ++ [x]) -> back q = Ok x.
Proof.
  intros H. destruct (back_cell q ch l x H) as (a & c & Eb & Ec & _ & Hx & _).
  unfold back. rewrite Eb, (chunk_at_some _ _ _ Ec). run_res. by rewrite Hx.
Qed.

(** ** Writing *)

Lemma assign_back_spec q ch l x v :
  holds_list q ch (l ++ [x]) -> exists q', assign_back v q = Ok q' /\ holds_list q' ch (l ++ [v]).
Proof.
  intros H. destruct (back_cell q ch l x H) as (a & c & Eb & Ec & Hn & Hx & Ep & Hch).
  unfold assign_back. rewrite (back_spec _ _ _ _ H). run_res. rewrite Eb, (set_chunk_some _ _ _ _ Ec). run_res.
  eexists. split; [done|]. pose proof H as [Hnd Hb Hl Hbp He Hep Hbk Hf Hlk Hce Hs Hd].
  assert (Ha : a ∈ ch) by (by eapply list_elem_of_lookup_2). rewrite length_app in *. simpl in Hl, Hep, Hbk, Hce.
  split; cbn [chunks begin_chunk begin_pos back_chunk back_pos end_chunk end_pos spare_chunk set_chunks];
    rewrite ?length_app; try done.
  - intros _. apply Hbk. by destruct l.
  - intros b Hb'. destruct (decide (b = a)) as [->|Hne].
    + eexists. rewrite lookup_insert_eq. split; [done|]. simpl. by rewrite length_insert.
    + destruct (Hf b Hb') as (cb & ? & ?). exists cb. by rewrite lookup_insert_ne.
  - intros i b b' Hi Hi'. destruct (Hlk i b b' Hi Hi') as [E1 E2].
    assert (Hp : forall b, (<[a := mkChunk (<[back_pos q := v]> (values c)) (prev c) (next c)]> (chunks q) !! b ≫= next) = (chunks q !! b ≫= next)
       /\ (<[a := mkChunk (<[back_pos q := v]> (values c)) (prev c) (next c)]> (chunks q) !! b ≫= prev) = (chunks q !! b ≫= prev)).
    { intros b0. destruct (decide (b0 = a)) as [->|Hne]; [by rewrite lookup_insert_eq, Ec | by rewrite lookup_insert_ne]. }
    by rewrite (proj1 (Hp b)), (proj2 (Hp b')).
  - simpl. intros i Hi. unfold cell, vals. destruct (decide (i = length l)) as [->|Hne].
    + rewrite lookup_app_r, Nat.sub_diag by lia. rewrite Hch. simpl. rewrite lookup_insert_eq. simpl.
      rewrite Ep, list_lookup_insert_eq; [done|]. rewrite Hn. apply Nat.mod_upper_bound. lia.
    + rewrite lookup_app_l by lia. specialize (Hce i). rewrite lookup_app_l in Hce by lia. rewrite Hce by lia.
      unfold cell, vals. destruct (ch !! ((begin_pos q + i) / N)) as [b|] eqn:Eb'; [|done]. simpl.
      destruct (decide (b = a)) as [->|Hba]; [|by rewrite lookup_insert_ne].
      rewrite lookup_insert_eq, Ec. simpl. rewrite list_lookup_insert_ne; [done|]. rewrite Ep. intros Em.
      pose proof (NoDup_lookup _ _ _ _ Hnd Eb' Hch) as Ed. apply Hne.
      pose proof (Nat.div_mod_eq (begin_pos q + i) N). pose proof (Nat.div_mod_eq (begin_pos q + length l) N). nia.
  - intros s Hs'. destruct (Hs s Hs') as [Hsc (cs & ? & ?)]. split; [done|]. exists cs.
    rewrite lookup_insert_ne; [done|]. by intros ->.
  - rewrite dom_insert_lookup_L by eauto. done.
Qed.

(** Removing the last element leaves the rest of the invariant. *)
Lemma last_chunk q ch l : holds_list q ch l -> exists e c, end_chunk q = Some e /\ chunks q !! e = Some c /\ e ∈ ch
  /\ length (values c) = N /\ ch !! ((begin_pos q + length l) / N) = Some e.
Proof.
  intros H. pose proof (hl_length _ _ _ H) as Hl. rewrite (hl_end _ _ _ H). destruct (last ch) as [e|] eqn:Ee.
  - assert (He : e ∈ ch) by (by apply last_Some_elem_of). destruct (hl_full _ _ _ H e He) as (c & ? & ?).
    exists e, c. apply chain_last in Ee. rewrite Hl in Ee. simpl in Ee. rewrite Nat.sub_0_r in Ee. done.
  - apply last_None in Ee. by rewrite Ee in Hl.
Qed.

(** The element a [push] makes is the next cell. *)
Lemma lookup_pushed m m' ch ch' l x j :
  (forall i, i < length l -> l !! i = cell m ch (j + i)) -> cell m' ch' (j + length l) = Some x ->
  (forall i, i < length l -> cell m' ch' (j + i) = cell m ch (j + i)) ->
  forall i, i < length (l ++ [x]) -> (l ++ [x]) !! i = cell m' ch' (j + i).
Proof.
  intros Hc Hx Hs i Hi. rewrite length_app in Hi. simpl in Hi. destruct (decide (i = length l)) as [->|Hne].
  - rewrite lookup_app_r, Nat.sub_diag by lia. by rewrite Hx.
  - rewrite lookup_app_l by lia. rewrite Hs, Hc by lia. done.
Qed.

(** [push] inside a chunk. *)
Lemma push_inside q ch l :
  holds_list q ch l -> S (end_pos q) <> N ->
  exists x, holds_list (set_end (end_chunk q) (S (end_pos q)) (set_back_at (end_chunk q) (end_pos q) q)) ch (l ++ [x]).
Proof.
  intros H Hp. pose proof H as [Hnd Hb Hl Hbp He Hep Hbk Hf Hlk Hce Hs Hd].
  destruct (cell_some (chunks q) ch (begin_pos q + length l) Hf) as (a & c & x & Ha & Ec & Hn & Hx & Ex); [by rewrite Hl; lia|].
  rewrite Hep in Hp. destruct (div_same _ Hp) as [Ed Em]. exists x.
  split; cbn [chunks begin_chunk begin_pos back_chunk back_pos end_chunk end_pos spare_chunk set_end set_back_at];
    rewrite ?length_app; try done.
  - simpl. by rewrite Nat.add_1_r, Nat.add_succ_r, Ed.
  - simpl. by rewrite Nat.add_1_r, Nat.add_succ_r, Em, Hep.
  - intros _. simpl. replace (begin_pos q + (length l + 1) - 1) with (begin_pos q + length l) by lia.
    rewrite He, last_lookup, Hl. split; [by simpl | done].
  - rewrite <- length_app with (l' := [x]). apply (lookup_pushed (chunks q) _ ch); done.
Qed.

(** [push] that opens the chunk [b] behind [e]. *)
Lemma push_opens q ch l e b m' :
  holds_list q ch l -> S (end_pos q) = N -> end_chunk q = Some e -> b ∉ ch ->
  (forall a, a ∈ ch -> a <> e -> m' !! a = chunks q !! a) ->
  (exists c, chunks q !! e = Some c /\ m' !! e = Some (mkChunk (values c) (prev c) (Some b))) ->
  (exists c, m' !! b = Some c /\ length (values c) = N /\ prev c = Some e) ->
  dom m' = list_to_set ch ∪ {[b]} ->
  exists x, holds_list (mkYqueue (begin_chunk q) (begin_pos q) (Some e) (end_pos q) (Some b) 0 None m') (ch ++ [b]) (l ++ [x]).
Proof.
  intros H Hp Ee Hbn Hm (ce & Ece & Ece') (cb & Ecb & Hcb & Hpb) Hdom.
  pose proof H as [Hnd Hb Hl Hbp He Hep Hbk Hf Hlk Hce Hs Hd].
  destruct (cell_some (chunks q) ch (begin_pos q + length l) Hf) as (a & c & x & Ha & Ec & Hn & Hx & Ex); [by rewrite Hl; lia|].
  rewrite Hep in Hp. destruct (div_succ _ Hp) as [Ed Em].
  assert (Hv : forall a, a ∈ ch -> vals m' a = vals (chunks q) a).
  { intros a0 Ha0. unfold vals. destruct (decide (a0 = e)) as [->|Hne]; [by rewrite Ece, Ece' | by rewrite Hm]. }
  assert (Hcell : forall i, i / N < length ch -> cell m' (ch ++ [b]) i = cell (chunks q) ch i).
  { intros i Hi. unfold cell. rewrite lookup_app_l by done. apply lookup_lt_is_Some in Hi as [a0 Ea0]. rewrite Ea0. simpl.
    rewrite Hv; [done|]. by eapply list_elem_of_lookup_2. }
  exists x. split; cbn [chunks begin_chunk begin_pos back_chunk back_pos end_chunk end_pos spare_chunk]; rewrite ?length_app; try done.
  - apply NoDup_app. split; [done|]. split; [set_solver | apply NoDup_singleton].
  - rewrite Hb. by destruct ch.
  - simpl. rewrite (Nat.add_1_r (length l)), (Nat.add_succ_r (begin_pos q)), Ed, Hl. lia.
  - by rewrite last_snoc.
  - simpl. by rewrite Nat.add_1_r, Nat.add_succ_r, Em.
  - intros _. simpl. replace (begin_pos q + (length l + 1) - 1) with (begin_pos q + length l) by lia. split; [|done].
    rewrite Ee in He. rewrite last_lookup, Hl in He. simpl in He. rewrite lookup_app_l by (rewrite Hl; lia). done.
  - intros a0 [Ha0 | ->%list_elem_of_singleton]%elem_of_app; [|by exists cb]. destruct (decide (a0 = e)) as [->|Hne].
    + eexists. split; [exact Ece'|]. simpl. destruct (Hf e Ha0) as (c0 & E0 & ?). congruence.
    + unfold full. rewrite Hm by done. by apply Hf.
  - intros i a1 a2 H1 H2. destruct (decide (S i = length ch)) as [Hi|Hi].
    + rewrite lookup_app_r in H2 by lia. rewrite Hi, Nat.sub_diag in H2. injection H2 as <-.
      rewrite lookup_app_l in H1 by lia. assert (a1 = e) as ->.
      { rewrite Ee in He. symmetry in He. apply chain_last in He. replace (length ch - 1) with i in He by lia. congruence. }
      by rewrite Ece', Ecb.
    + assert (Hi' : S i < length ch).
      { apply lookup_lt_Some in H2. rewrite length_app in H2. simpl in H2. lia. }
      rewrite lookup_app_l in H1, H2 by lia. destruct (Hlk i a1 a2 H1 H2) as [E1 E2].
      assert (a1 <> e).
      { intros ->. rewrite Ee in He. symmetry in He. apply chain_last in He.
        pose proof (NoDup_lookup _ _ _ _ Hnd H1 He). lia. }
      rewrite Hm by (done || by eapply list_elem_of_lookup_2). split; [done|].
      destruct (decide (a2 = e)) as [->|Hne]; [by rewrite Ece'; rewrite Ece in E2|].
      rewrite Hm by (done || by eapply list_elem_of_lookup_2). done.
  - rewrite <- length_app with (l' := [x]). apply (lookup_pushed (chunks q) _ ch); [done | |].
    + rewrite Hcell by (rewrite Hl; lia). done.
    + intros i Hi. apply Hcell. rewrite Hl. apply Nat.lt_succ_r, Nat.Div0.div_le_mono. lia.
  - rewrite Hdom, list_to_set_app_L. simpl. set_solver.
Qed.

Lemma push_spec q ch l a garbage :
  holds_list q ch l -> a ∉ dom (chunks q) -> length (values garbage) = N ->
  exists q' ch' x, push N a garbage q = Ok q' /\ holds_list q' ch' (l ++ [x]).
Proof.
  intros H Ha Hg. unfold push. cbn [end_pos set_end set_back_at end_chunk].
  destruct (last_chunk q ch l H) as (e & ce & Ee & Ece & Hein & Hce & _).
  destruct (S (end_pos q) =? N) eqn:Ep; simpl negb; cbn match.
  2:{ apply Nat.eqb_neq in Ep. destruct (push_inside q ch l H Ep) as [x Hx]. by eexists _, ch, x. }
  apply Nat.eqb_eq in Ep. unfold xchg. cbn [spare_chunk set_end set_back_at end_chunk chunks].
  pose proof (hl_dom _ _ _ H) as Hd. destruct (spare_chunk q) as [s|] eqn:Es.
  - destruct (hl_spare _ _ _ H s Es) as [Hsn (cs & Ecs & Hcs)]. assert (Hse : s <> e) by (by intros ->).
    rewrite Ee. unfold set_next, set_prev. rewrite (set_chunk_some _ _ _ _ Ece). run_res.
    rewrite (set_chunk_some s _ _ cs) by (by rewrite lookup_insert_ne). run_res.
    erewrite chunk_at_some by (rewrite lookup_insert_ne by done; apply lookup_insert_eq). run_res. cbn [next].
    destruct (push_opens q ch l e s (<[s := mkChunk (values cs) (Some e) (next cs)]> (<[e := mkChunk (values ce) (prev ce) (Some s)]> (chunks q))))
      as [x Hx]; [exact H | exact Ep | exact Ee | exact Hsn | | | | | by eexists _, _, x].
    + intros b Hb Hbe. rewrite !lookup_insert_ne; [done | done | by intros ->].
    + exists ce. split; [done|]. rewrite lookup_insert_ne by done. apply lookup_insert_eq.
    + eexists. rewrite lookup_insert_eq. done.
    + rewrite !dom_insert_lookup_L; [done | by eauto|]. rewrite lookup_insert_ne by done. eauto.
  - assert (Hae : a <> e) by (intros ->; apply Ha; apply elem_of_dom; eauto).
    rewrite Ee. unfold set_next, set_prev. rewrite (set_chunk_some _ _ _ ce) by (by rewrite lookup_insert_ne). run_res.
    erewrite chunk_at_some by apply lookup_insert_eq. run_res. cbn [next].
    rewrite (set_chunk_some a _ _ garbage) by (rewrite lookup_insert_ne by done; apply lookup_insert_eq). run_res.
    erewrite chunk_at_some by (rewrite lookup_insert_ne by done; apply lookup_insert_eq). run_res. cbn [next].
    assert (Han : a ∉ ch) by (intros Hx; apply Ha; rewrite Hd; set_solver).
    destruct (push_opens q ch l e a (<[a := mkChunk (values garbage) (Some e) (next garbage)]>
      (<[e := mkChunk (values ce) (prev ce) (Some a)]> (<[a := garbage]> (chunks q)))))
      as [x Hx]; [exact H | exact Ep | exact Ee | exact Han | | | | | by eexists _, _, x].
    + intros b Hb Hbe. rewrite !lookup_insert_ne; [done | by intros -> | done | by intros ->].
    + exists ce. split; [done|]. rewrite lookup_insert_ne by done. apply lookup_insert_eq.
    + eexists. rewrite lookup_insert_eq. done.
    + rewrite dom_insert_lookup_L by (rewrite lookup_insert_ne by done; rewrite lookup_insert_eq; eauto).
      rewrite dom_insert_lookup_L by (rewrite lookup_insert_ne by done; eauto). rewrite dom_insert_L, Hd. simpl. set_solver.
Qed.

(** ** Taking back *)

Lemma div_pred j i : j = S i -> j mod N = 0 -> j / N = S (i / N) /\ i mod N = N - 1.
Proof.
  intros -> Hj. destruct (decide (S (i mod N) = N)) as [H|H].
  - destruct (div_succ i H) as [-> _]. split; [done | lia].
  - destruct (div_same i H) as [_ E]. lia.
Qed.
Lemma div_pred_same j i : j = S i -> j mod N <> 0 -> j / N = i / N /\ i mod N = j mod N - 1.
Proof.
  intros -> Hj. destruct (decide (S (i mod N) = N)) as [H|H].
  - destruct (div_succ i H) as [_ E]. lia.
  - destruct (div_same i H) as [-> E]. split; [done | lia].
Qed.

Lemma linked_prev m ch i a b c : linked m ch -> ch !! i = Some a -> ch !! S i = Some b -> m !! b = Some c -> prev c = Some a.
Proof. intros H Ha Hb Hc. destruct (H i a b Ha Hb) as [_ E]. by rewrite Hc in E. Qed.
Lemma linked_next m ch i a b c : linked m ch -> ch !! i = Some a -> ch !! S i = Some b -> m !! a = Some c -> next c = Some b.
Proof. intros H Ha Hb Hc. destruct (H i a b Ha Hb) as [E _]. by rewrite Hc in E. Qed.

(** The back position moves to the element before. *)
Lemma back_step q ch l x :
  holds_list q ch (l ++ [x]) ->
  exists bc bp, (if negb (back_pos q =? 0) then Ok (set_back_at (back_chunk q) (back_pos q - 1) q)
                 else c ← chunk_at (back_chunk q) (chunks q); Ok (set_back_at (prev c) (N - 1) q)) = Ok (set_back_at bc bp q)
    /\ (l <> [] -> bc = ch !! ((begin_pos q + length l - 1) / N) /\ bp = (begin_pos q + length l - 1) mod N).
Proof.
  intros H. destruct (back_cell q ch l x H) as (a & c & Eb & Ec & Hn & Hx & Ep & Hch).
  assert (Hj : l <> [] -> begin_pos q + length l = S (begin_pos q + length l - 1)).
  { intros Hl. destruct l; [done|]. simpl. lia. }
  destruct (back_pos q =? 0) eqn:E0; simpl negb; cbn match.
  - apply Nat.eqb_eq in E0. rewrite Eb, (chunk_at_some _ _ _ Ec). run_res. eexists _, _. split; [done|].
    intros Hl. destruct (div_pred _ _ (Hj Hl)) as [Ed Em]; [congruence|]. split; [|done].
    rewrite Ed in Hch. destruct (lookup_lt_is_Some_2 ch ((begin_pos q + length l - 1) / N)) as [b Hb].
    { apply lookup_lt_Some in Hch. lia. }
    rewrite Hb. by eapply (linked_prev (chunks q)); [apply H | | |].
  - apply Nat.eqb_neq in E0. eexists _, _. split; [done|]. intros Hl.
    destruct (div_pred_same _ _ (Hj Hl)) as [Ed Em]; [congruence|]. rewrite <- Ed, Hch, Em, Ep. by split.
Qed.

(** A queue without its last element, in the same chunks. *)
Lemma unpush_inside q ch l x bc bp :
  holds_list q ch (l ++ [x]) -> end_pos q <> 0 ->
  (l <> [] -> bc = ch !! ((begin_pos q + length l - 1) / N) /\ bp = (begin_pos q + length l - 1) mod N) ->
  holds_list (set_end (end_chunk q) (end_pos q - 1) (set_back_at bc bp q)) ch l.
Proof.
  intros [Hnd Hb Hl Hbp He Hep Hbk Hf Hlk Hce Hs Hd] H0 Hback. rewrite length_app in *. simpl in Hl, Hep, Hce.
  destruct (div_pred_same (begin_pos q + (length l + 1)) (begin_pos q + length l)) as [Ed Em]; [lia | congruence|].
  split; cbn [chunks begin_chunk begin_pos back_chunk back_pos end_chunk end_pos spare_chunk set_end set_back_at]; try done.
  - by rewrite Hl, Ed.
  - by rewrite Em, Hep.
  - intros i Hi. rewrite <- Hce by lia. by rewrite lookup_app_l.
Qed.

(** Without the chunk [e] at the end, that was empty. *)
Lemma unpush_closes q ch e' e l x bc bp c :
  holds_list q ((ch ++ [e']) ++ [e]) (l ++ [x]) -> end_pos q = 0 -> chunks q !! e' = Some c ->
  (l <> [] -> bc = ((ch ++ [e']) ++ [e]) !! ((begin_pos q + length l - 1) / N) /\ bp = (begin_pos q + length l - 1) mod N) ->
  holds_list (mkYqueue (begin_chunk q) (begin_pos q) bc bp (Some e') (N - 1) (spare_chunk q)
                (<[e' := mkChunk (values c) (prev c) None]> (delete e (chunks q)))) (ch ++ [e']) l.
Proof.
  intros [Hnd Hb Hl Hbp He Hep Hbk Hf Hlk Hce Hs Hd] H0 Ec Hback. rewrite !length_app in Hl. rewrite length_app in Hep, Hce. simpl in Hl, Hep, Hce.
  destruct (div_pred (begin_pos q + (length l + 1)) (begin_pos q + length l)) as [Ed Em]; [lia | congruence|].
  rewrite Ed in Hl.
  assert (Hlen : length (ch ++ [e']) = S ((begin_pos q + length l) / N)) by (rewrite length_app; simpl; lia).
  apply NoDup_app in Hnd as (Hnd & Hdis & _). assert (Hee : e ∉ ch ++ [e']) by (intros Hx; apply (Hdis e Hx); set_solver).
  assert (Hne : e' <> e) by (intros ->; apply Hee; set_solver).
  set (m' := <[e' := _]> _).
  assert (Hm : forall a, a <> e -> a <> e' -> m' !! a = chunks q !! a).
  { intros a Ha Ha'. unfold m'. by rewrite lookup_insert_ne, lookup_delete_ne. }
  assert (Hv : forall a, a <> e -> vals m' a = vals (chunks q) a).
  { intros a Ha. unfold vals. destruct (decide (a = e')) as [->|Hae]; [|by rewrite Hm].
    unfold m'. by rewrite lookup_insert_eq, Ec. }
  assert (Hfull : forall a, a <> e -> full (chunks q) a -> full m' a).
  { intros a Ha (ca & Ea & Hca). destruct (decide (a = e')) as [->|Hae]; [|exists ca; by rewrite Hm].
    eexists. unfold m'. rewrite lookup_insert_eq. split; [done|]. simpl. congruence. }
  split; cbn [chunks begin_chunk begin_pos back_chunk back_pos end_chunk end_pos spare_chunk]; try done.
  - rewrite Hb. by destruct ch.
  - by rewrite last_snoc.
  - intros Hne0. destruct (Hback Hne0) as [-> ->]. split; [|done]. rewrite lookup_app_l; [done|].
    assert ((begin_pos q + length l - 1) / N <= (begin_pos q + length l) / N) by (apply Nat.Div0.div_le_mono; lia). lia.
  - intros a Ha. apply Hfull; [by intros -> | apply Hf; set_solver].
  - intros i a b Ha Hb'. destruct (Hlk i a b) as [E1 E2]; [by apply lookup_app_l_Some..|].
    assert (Hae : a <> e) by (intros ->; apply Hee; by eapply list_elem_of_lookup_2).
    assert (Hbe : b <> e) by (intros ->; apply Hee; by eapply list_elem_of_lookup_2).
    assert (Hae' : a <> e').
    { intros ->. apply lookup_lt_Some in Hb'. rewrite length_app in Hb'. simpl in Hb'.
      assert (Hl' : (ch ++ [e']) !! length ch = Some e') by (by rewrite lookup_app_r, Nat.sub_diag).
      pose proof (NoDup_lookup _ _ _ _ Hnd Ha Hl'). lia. }
    rewrite (Hm a) by done. split; [done|]. destruct (decide (b = e')) as [->|Hbe']; [|by rewrite Hm].
    unfold m'. rewrite lookup_insert_eq. by rewrite Ec in E2.
  - intros i Hi. specialize (Hce i ltac:(lia)). rewrite lookup_app_l in Hce by done. rewrite Hce. unfold cell.
    assert ((begin_pos q + i) / N <= (begin_pos q + length l) / N) by (apply Nat.Div0.div_le_mono; lia).
    rewrite lookup_app_l by lia. destruct (lookup_lt_is_Some_2 (ch ++ [e']) ((begin_pos q + i) / N)) as [a Ea]; [lia|].
    rewrite Ea. simpl. rewrite Hv; [done|]. intros ->. apply Hee. by eapply list_elem_of_lookup_2.
  - intros s Es. destruct (Hs s Es) as [Hsn Hsf]. split; [set_solver|]. apply Hfull; [|done]. intros ->. set_solver.
  - assert (Hse : e ∉ spare_set (spare_chunk q)).
    { destruct (spare_chunk q) as [s|]; [|set_solver]. destruct (Hs s eq_refl) as [Hsn _]. simpl. set_solver. }
    unfold m'. rewrite dom_insert_lookup_L by (rewrite lookup_delete_ne by done; eauto).
    rewrite dom_delete_L, Hd, list_to_set_app_L. simpl. apply set_eq. intros a.
    rewrite elem_of_difference, !elem_of_union, elem_of_list_to_set, elem_of_singleton. set_solver.
Qed.

Lemma unpush_spec q ch l x :
  holds_list q ch (l ++ [x]) -> exists q' ch', unpush N q = Ok q' /\ holds_list q' ch' l.
Proof.
  intros H. unfold unpush. destruct (back_step q ch l x H) as (bc & bp & -> & Hback). run_res.
  cbn [end_pos set_back_at end_chunk]. destruct (end_pos q =? 0) eqn:E0; simpl negb; cbn match.
  2:{ apply Nat.eqb_neq in E0. eexists _, ch. split; [done|]. by eapply unpush_inside. }
  apply Nat.eqb_eq in E0. pose proof (hl_length _ _ _ H) as Hl. pose proof (hl_end_pos _ _ _ H) as Hep.
  rewrite length_app in Hl, Hep. simpl in Hl, Hep.
  destruct (div_pred (begin_pos q + (length l + 1)) (begin_pos q + length l)) as [Ed Em]; [lia | congruence|].
  destruct ch as [|e ch _] using rev_ind; [done|]. destruct ch as [|e' ch _] using rev_ind; [simpl in Hl; lia|].
  assert (Hle : ((ch ++ [e']) ++ [e]) !! length ch = Some e').
  { rewrite lookup_app_l by (rewrite length_app; simpl; lia). by rewrite lookup_app_r, Nat.sub_diag. }
  assert (Hls : ((ch ++ [e']) ++ [e]) !! S (length ch) = Some e).
  { rewrite lookup_app_r by (rewrite length_app; simpl; lia). rewrite length_app. simpl.
    by replace (S (length ch) - (length ch + 1)) with 0 by lia. }
  destruct (hl_full _ _ _ H e) as (ce & Ece & _); [set_solver|]. destruct (hl_full _ _ _ H e') as (c & Ec & _); [set_solver|].
  assert (Hne : e' <> e) by (intros ->; pose proof (NoDup_lookup _ _ _ _ (hl_nodup _ _ _ H) Hle Hls); lia).
  rewrite (hl_end _ _ _ H), last_snoc. cbn [chunks set_back_at]. rewrite (chunk_at_some _ _ _ Ece). run_res.
  rewrite (linked_prev _ _ _ _ _ _ (hl_linked _ _ _ H) Hle Hls Ece). cbn [end_chunk set_end chunks set_back_at].
  rewrite (chunk_at_some _ _ _ Ec). run_res. rewrite (linked_next _ _ _ _ _ _ (hl_linked _ _ _ H) Hle Hls Ec).
  unfold free_chunk. rewrite (chunk_at_some _ _ _ Ece). run_res. unfold set_next.
  rewrite (set_chunk_some _ _ _ c) by (by rewrite lookup_delete_ne). run_res.
  eexists _, (ch ++ [e']). split; [done|]. by apply (unpush_closes q ch e' e l x bc bp c).
Qed.

Lemma cell_shift m o ch i : cell m (o :: ch) (i + N) = cell m ch i.
Proof. unfold cell. destruct (div_shift i) as [-> ->]. done. Qed.

(** [pop] inside a chunk. *)
Lemma pop_inside q ch x l :
  holds_list q ch (x :: l) -> S (begin_pos q) <> N -> holds_list (set_begin (begin_chunk q) (S (begin_pos q)) q) ch l.
Proof.
  intros [Hnd Hb Hl Hbp He Hep Hbk Hf Hlk Hce Hs Hd] Hp. simpl in Hl, Hep, Hbk, Hce.
  split; cbn [chunks begin_chunk begin_pos back_chunk back_pos end_chunk end_pos spare_chunk set_begin]; try done.
  - by rewrite Hl, Nat.add_succ_r.
  - lia.
  - by rewrite Hep, Nat.add_succ_r.
  - intros _. rewrite Nat.add_succ_l, <- Nat.add_succ_r. by apply Hbk.
  - intros i Hi. specialize (Hce (S i) ltac:(lia)). simpl in Hce. by rewrite Hce, Nat.add_succ_r.
Qed.

(** [pop] of the last element of the chunk [o], which becomes the spare. *)
Lemma pop_leaves q o n ch x l c m' :
  holds_list q (o :: n :: ch) (x :: l) -> S (begin_pos q) = N -> chunks q !! n = Some c ->
  (forall a, a ∈ o :: ch -> m' !! a = chunks q !! a) -> m' !! n = Some (mkChunk (values c) None (next c)) ->
  dom m' = list_to_set (o :: n :: ch) ->
  holds_list (mkYqueue (Some n) 0 (back_chunk q) (back_pos q) (end_chunk q) (end_pos q) (Some o) m') (n :: ch) l.
Proof.
  intros [Hnd Hb Hl Hbp He Hep Hbk Hf Hlk Hce Hs Hd] Hp Ec Hm Hn Hdom. simpl in Hl, Hep, Hbk, Hce.
  assert (Ej : begin_pos q + S (length l) = length l + N) by lia. rewrite Ej in *.
  destruct (div_shift (length l)) as [Ed Em]. apply NoDup_cons in Hnd as [Hon Hnd].
  assert (Hv : forall a, a ∈ n :: ch -> vals m' a = vals (chunks q) a).
  { intros a [->|Ha]%elem_of_cons; unfold vals; [by rewrite Hn, Ec | by rewrite Hm by set_solver]. }
  split; cbn [chunks begin_chunk begin_pos back_chunk back_pos end_chunk end_pos spare_chunk].
  - done.
  - done.
  - rewrite Ed in Hl. simpl. lia.
  - lia.
  - by rewrite He.
  - by rewrite Hep.
  - intros Hl0. destruct (Hbk ltac:(done)) as [Eb Ep].
    replace (length l + N - 1) with ((length l - 1) + N) in Eb, Ep by (destruct l; simpl; [done | lia]).
    destruct (div_shift (length l - 1)) as [Ed' Em']. rewrite Ed' in Eb. rewrite Em' in Ep. by rewrite Eb, Ep.
  - intros a [->|Ha]%elem_of_cons.
    + eexists. split; [exact Hn|]. simpl. destruct (Hf n) as (c' & E' & ?); [set_solver|]. congruence.
    + unfold full. rewrite Hm by set_solver. apply Hf. set_solver.
  - intros i a b Ha Hb'. destruct (Hlk (S i) a b Ha Hb') as [E1 E2]. split.
    + destruct i as [|i]; simpl in Ha.
      * injection Ha as ->. rewrite Hn. by rewrite Ec in E1.
      * rewrite Hm by (apply elem_of_cons; right; by eapply list_elem_of_lookup_2). done.
    + simpl in Hb'. rewrite Hm by (apply elem_of_cons; right; by eapply list_elem_of_lookup_2). done.
  - intros i Hi. specialize (Hce (S i) ltac:(lia)). replace (begin_pos q + S i) with (i + N) in Hce by lia.
    rewrite cell_shift in Hce. simpl in Hce. rewrite Hce. unfold cell. simpl.
    destruct ((n :: ch) !! (i / N)) as [a|] eqn:Ea; [|done]. simpl. rewrite Hv; [done|]. by eapply list_elem_of_lookup_2.
  - intros s [= <-]. split; [done|]. unfold full. rewrite Hm by set_solver. apply Hf. set_solver.
  - rewrite Hdom. simpl. set_solver.
Qed.

Lemma pop_spec q ch x l :
  holds_list q ch (x :: l) -> exists q' ch', pop N q = Ok q' /\ holds_list q' ch' l.
Proof.
  intros H. unfold pop. cbn [begin_pos set_begin begin_chunk]. destruct (S (begin_pos q) =? N) eqn:Ep.
  2:{ apply Nat.eqb_neq in Ep. eexists _, ch. split; [done|]. by eapply pop_inside. }
  apply Nat.eqb_eq in Ep. pose proof (hl_length _ _ _ H) as Hl. simpl in Hl.
  replace (begin_pos q + S (length l)) with (length l + N) in Hl by lia. destruct (div_shift (length l)) as [Ed _]. rewrite Ed in Hl.
  destruct ch as [|o [|n ch]]; [done | simpl in Hl; lia|].
  destruct (hl_full _ _ _ H o) as (co & Eco & _); [set_solver|]. destruct (hl_full _ _ _ H n) as (c & Ec & _); [set_solver|].
  assert (Hnd := hl_nodup _ _ _ H). assert (Hon : o <> n) by (intros ->; apply NoDup_cons in Hnd as [Hnd _]; set_solver).
  assert (Enx : next co = Some n) by (by eapply (linked_next _ _ 0); [apply H | | |]).
  rewrite (hl_begin _ _ _ H). cbn [head chunks set_begin]. rewrite (chunk_at_some _ _ _ Eco). run_res. rewrite Enx.
  cbn [begin_chunk set_begin]. unfold set_prev. rewrite (set_chunk_some _ _ _ c Ec). run_res.
  unfold xchg. cbn [begin_chunk begin_pos back_chunk back_pos end_chunk end_pos spare_chunk chunks set_begin set_chunks].
  set (m1 := <[n := _]> (chunks q)).
  assert (Hm1 : forall a, a ∈ o :: ch -> m1 !! a = chunks q !! a).
  { intros a Ha. unfold m1. rewrite lookup_insert_ne; [done|]. intros <-. apply elem_of_cons in Ha as [->|Ha]; [done|].
    apply NoDup_cons in Hnd as [_ Hnd]. by apply NoDup_cons in Hnd as [Hnd _]. }
  assert (Hd1 : dom m1 = dom (chunks q)) by (unfold m1; rewrite dom_insert_lookup_L by eauto; done).
  pose proof (hl_dom _ _ _ H) as Hd. destruct (spare_chunk q) as [s|] eqn:Es.
  - destruct (hl_spare _ _ _ H s Es) as [Hsn (cs & Ecs & _)]. unfold free_chunk.
    assert (Ems : m1 !! s = Some cs) by (unfold m1; rewrite lookup_insert_ne; [done | set_solver]).
    rewrite (chunk_at_some _ _ _ Ems). run_res. eexists _, (n :: ch). split; [done|].
    apply (pop_leaves q o n ch x l c (delete s m1)); [done | done | done | | |].
    + intros a Ha. rewrite lookup_delete_ne; [by apply Hm1 | set_solver].
    + rewrite lookup_delete_ne by set_solver. apply lookup_insert_eq.
    + rewrite dom_delete_L, Hd1, Hd. simpl. simpl in Hsn. set_solver.
  - eexists _, (n :: ch). split; [done|]. apply (pop_leaves q o n ch x l c m1); [done | done | done | done | apply lookup_insert_eq|].
    rewrite Hd1, Hd. simpl. set_solver.
Qed.

(** ** The destructor *)

Lemma destroy_loop_spec fuel q ch :
  NoDup ch -> ch <> [] -> begin_chunk q = head ch -> end_chunk q = last ch ->
  (forall a, a ∈ ch -> is_Some (chunks q !! a)) -> linked (chunks q) ch -> length ch <= fuel ->
  exists q', destroy_loop fuel q = Ok q' /\ spare_chunk q' = spare_chunk q
    /\ dom (chunks q') = dom (chunks q) ∖ list_to_set ch.
Proof.
  revert q ch; induction fuel as [|fuel IH]; intros q ch Hnd Hne Hb He Hf Hlk Hl; [by destruct ch; simpl in *; [|lia]|].
  cbn [destroy_loop]. destruct ch as [|o ch]; [done|]. rewrite Hb, He. cbn [head].
  destruct (Hf o) as [c Ec]; [set_solver|]. destruct ch as [|n ch].
  - rewrite decide_True by done. unfold free_chunk. rewrite (chunk_at_some _ _ _ Ec). run_res.
    eexists. split; [done|]. split; [done|]. simpl. rewrite dom_delete_L. set_solver.
  - apply NoDup_cons in Hnd as [Ho Hnd]. rewrite decide_False.
    2:{ intros E. apply Ho. simpl in E. symmetry in E. by apply last_Some_elem_of in E. }
    rewrite (chunk_at_some _ _ _ Ec). run_res. unfold free_chunk. cbn [chunks set_begin]. rewrite ?(chunk_at_some _ _ _ Ec). run_res.
    assert (Enx : next c = Some n) by (by eapply (linked_next _ _ 0)).
    assert (Hdel : forall a, a ∈ n :: ch -> delete o (chunks q) !! a = chunks q !! a)
      by (intros a Ha; apply lookup_delete_ne; by intros ->).
    destruct (IH (set_chunks (delete o (chunks q)) (set_begin (next c) (begin_pos q) q)) (n :: ch)) as (q' & -> & Hs & Hd); try done.
    + intros a Ha. cbn [chunks set_chunks]. rewrite Hdel by done. apply Hf. set_solver.
    + intros i a b Ha Hb'. cbn [chunks set_chunks]. rewrite !Hdel by (by eapply list_elem_of_lookup_2). by apply (Hlk (S i)).
    + simpl in *. lia.
    + exists q'. split; [done|]. split; [done|]. rewrite Hd. cbn [chunks set_chunks]. rewrite dom_delete_L. simpl. set_solver.
Qed.

Lemma destroy_spec q ch l : holds_list q ch l -> exists q', destroy q = Ok q' /\ chunks q' = ∅.
Proof.
  intros H. unfold destroy. pose proof (hl_dom _ _ _ H) as Hd.
  destruct (destroy_loop_spec (S (size (chunks q))) q ch) as (q1 & -> & Hs1 & Hd1); try apply H.
  - intros ->. by apply hl_length in H.
  - intros a Ha. destruct (hl_full _ _ _ H a Ha) as (c & ? & _). eauto.
  - rewrite <- size_dom, Hd. rewrite <- (size_list_to_set (C := gset positive) ch) by apply H.
    apply Nat.le_le_succ_r, subseteq_size. set_solver.
  - run_res. unfold xchg. rewrite Hs1. cbn [chunks].
    assert (Hd2 : dom (chunks q1) = spare_set (spare_chunk q)).
    { rewrite Hd1, Hd. destruct (spare_chunk q) as [s|] eqn:Es; simpl; [|set_solver].
      destruct (hl_spare _ _ _ H s Es) as [Hs _]. set_solver. }
    destruct (spare_chunk q) as [s|]; simpl in Hd2.
    + assert (Hs : is_Some (chunks q1 !! s)) by (apply elem_of_dom; rewrite Hd2; set_solver). destruct Hs as [c Ec].
      unfold free_chunk. rewrite (chunk_at_some _ _ _ Ec). run_res. eexists. split; [done|]. simpl.
      apply dom_empty_iff_L. rewrite dom_delete_L, Hd2. set_solver.
    + eexists. split; [done|]. simpl. by apply dom_empty_iff_L.
Qed.

Lemma new_yqueue_holds a c : length (values c) = N -> holds_list (new_yqueue_t a c) [a] [].
Proof.
  intros Hc. split; cbn [chunks begin_chunk begin_pos back_chunk back_pos end_chunk end_pos spare_chunk new_yqueue_t]; try done.
  - apply NoDup_singleton.
  - rewrite Nat.div_small by (simpl; lia). done.
  - rewrite Nat.mod_small by (simpl; lia). done.
  - intros b ->%list_elem_of_singleton. exists c. by rewrite lookup_singleton_eq.
  - simpl. lia.
  - rewrite dom_singleton_L. simpl. set_solver.
Qed.

(** ** Programs *)

(** [malloc] finds memory that is not in use, for a chunk of [N] elements. *)
Context (malloc : gset positive -> positive * @chunk_t A).
Context (malloc_fresh : forall used, fst (malloc used) ∉ used) (malloc_size : forall used, length (values (snd (malloc used))) = N).

Inductive yop := Push | SetBack (v : A) | Front | Back | Unpush | Pop.

Definition yq_exec (op : yop) (q : yqueue_t) : res (yqueue_t * option A) :=
  match op with
  | Push => let (a, garbage) := malloc (dom (chunks q)) in q ← push N a garbage q; Ok (q, None)
  | SetBack v => q ← assign_back v q; Ok (q, None)
  | Front => x ← front q; Ok (q, Some x)
  | Back => x ← back q; Ok (q, Some x)
  | Unpush => q ← unpush N q; Ok (q, None)
  | Pop => q ← pop N q; Ok (q, None)
  end.

Fixpoint yq_run (ops : list yop) (q : yqueue_t) : res (yqueue_t * list (option A)) :=
  match ops with
  | [] => Ok (q, [])
  | op :: ops => '(q, out) ← yq_exec op q; '(q, outs) ← yq_run ops q; Ok (q, out :: outs)
  end.

(** The operations on a list; a pushed element is not initialised. *)
Inductive list_step : yop -> list A -> option A -> list A -> Prop :=
  | step_push l x : list_step Push l None (l ++ [x])
  | step_set l x v : list_step (SetBack v) (l ++ [x]) None (l ++ [v])
  | step_front l x : list_step Front (x :: l) (Some x) (x :: l)
  | step_back l x : list_step Back (l ++ [x]) (Some x) (l ++ [x])
  | step_unpush l x : list_step Unpush (l ++ [x]) None l
  | step_pop l x : list_step Pop (x :: l) None l.

Inductive list_steps : list yop -> list A -> list (option A) -> list A -> Prop :=
  | steps_nil l : list_steps [] l [] l
  | steps_cons op ops l out l' outs l'' :
      list_step op l out l' -> list_steps ops l' outs l'' -> list_steps (op :: ops) l (out :: outs) l''.

(** Only an empty queue is not read, popped or unpushed. *)
Fixpoint used_well (n : nat) (ops : list yop) : bool :=
  match ops with
  | [] => true
  | Push :: ops => used_well (S n) ops
  | (SetBack _ | Front | Back) :: ops => (0 <? n) && used_well n ops
  | (Unpush | Pop) :: ops => match n with 0 => false | S n => used_well n ops end
  end.

Lemma yq_exec_spec op q ch l ops :
  holds_list q ch l -> used_well (length l) (op :: ops) = true ->
  exists q' ch' out l', yq_exec op q = Ok (q', out) /\ holds_list q' ch' l' /\ list_step op l out l'
    /\ used_well (length l') ops = true.
Proof.
  intros H Hu. destruct op; cbn [yq_exec used_well] in *.
  - pose proof (malloc_fresh (dom (chunks q))) as Hf. pose proof (malloc_size (dom (chunks q))) as Hs.
    destruct (malloc (dom (chunks q))) as [a garbage]. destruct (push_spec q ch l a garbage H Hf Hs) as (q' & ch' & x & -> & H').
    run_res. exists q', ch', None, (l ++ [x]). rewrite length_app, Nat.add_1_r. do 2 (split; [done|]). split; [constructor | done].
  - destruct l as [|x l _] using rev_ind; [done|]. destruct (assign_back_spec q ch l x v H) as (q' & -> & H').
    run_res. exists q', ch, None, (l ++ [v]). rewrite length_app in *. simpl in *. bool_props. do 2 (split; [done|]). split; [constructor | done].
  - destruct l as [|x l]; [done|]. rewrite (front_spec _ _ _ _ H). run_res. exists q, ch, (Some x), (x :: l).
    do 2 (split; [done|]). split; [constructor | done].
  - destruct l as [|x l _] using rev_ind; [done|]. rewrite (back_spec _ _ _ _ H). run_res. exists q, ch, (Some x), (l ++ [x]).
    bool_props. do 2 (split; [done|]). split; [constructor | done].
  - destruct l as [|x l _] using rev_ind; [done|]. destruct (unpush_spec q ch l x H) as (q' & ch' & -> & H').
    run_res. exists q', ch', None, l. rewrite length_app, Nat.add_1_r in Hu. do 2 (split; [done|]). split; [constructor | done].
  - destruct l as [|x l]; [done|]. destruct (pop_spec q ch x l H) as (q' & ch' & -> & H').
    run_res. exists q', ch', None, l. do 2 (split; [done|]). split; [constructor | done].
Qed.

Lemma yq_run_spec ops q ch l :
  holds_list q ch l -> used_well (length l) ops = true ->
  exists q' ch' outs l', yq_run ops q = Ok (q', outs) /\ holds_list q' ch' l' /\ list_steps ops l outs l'.
Proof.
  revert q ch l; induction ops as [|op ops IH]; intros q ch l H Hu; cbn [yq_run].
  - exists q, ch, [], l. do 2 (split; [done|]). constructor.
  - destruct (yq_exec_spec op q ch l ops H Hu) as (q1 & ch1 & out & l1 & -> & H1 & Hs & Hu1). run_res.
    destruct (IH q1 ch1 l1 H1 Hu1) as (q2 & ch2 & outs & l2 & -> & H2 & Hs2). run_res.
    exists q2, ch2, (out :: outs), l2. do 2 (split; [done|]). by econstructor.
Qed.

(** C22: The chunked queue is a list: no program that reads, pops and unpushes
    only when there is an element touches memory it does not own, its answers
    are those of the list, and the destructor then frees every chunk. *)
Theorem yqueue_refines ops :
  used_well 0 ops = true ->
  exists q outs l q', yq_run ops (new_yqueue_t (fst (malloc ∅)) (snd (malloc ∅))) = Ok (q, outs)
    /\ list_steps ops [] outs l /\ destroy q = Ok q' /\ chunks q' = ∅.
Proof.
  intros Hu. destruct (yq_run_spec ops _ _ [] (new_yqueue_holds (fst (malloc ∅)) (snd (malloc ∅)) (malloc_size ∅)) Hu)
    as (q & ch & outs & l & E & H & Hs).
  destruct (destroy_spec q ch l H) as (q' & E' & Hq'). by exists q, outs, l, q'.
Qed.
End YQueueFacts.

(** Chunks of two numbers. *)
Definition two_cells (used : gset positive) : positive * chunk_t := (fresh used, mkChunk [0; 0] None None).

Definition demo_yops : list yop :=
  [Push; SetBack 1; Push; SetBack 2; Push; SetBack 3; Unpush; Front; Pop; Pop; Push; SetBack 4; Push; SetBack 5; Pop; Front].

Lemma yqueue_refines_witness :
  exists q outs l q', yq_run 2 two_cells demo_yops (new_yqueue_t (fst (two_cells ∅)) (snd (two_cells ∅))) = Ok (q, outs)
    /\ list_steps demo_yops [] outs l /\ destroy q = Ok q' /\ chunks q' = ∅.
Proof.
  apply (yqueue_refines 2 ltac:(lia) two_cells).
  - intros used. apply is_fresh.
  - reflexivity.
  - reflexivity.
Defined.
