(* ===== verification/IdleEcho.v ===== *)
(** * Echo server that closes idle connections:
    [src/msexamples/idleconnection/echo.h], [echo.cpp]

    A wheel of buckets holds a shared pointer to the [Entry] of every
    connection that was active in one of the last seconds; each second the
    oldest bucket falls out, and the destructor of an [Entry] that nobody holds
    any more shuts its connection down.

    The server runs in one loop thread, so its callbacks are steps. Entries and
    connections are the control blocks of their shared pointers, which are not
    reused while a weak pointer is left. Printing the buckets is left out. *)
From S2P Require Import Prelude.
From S2P Require Import StringPiece.
From S2P Require Import Buffer.
From S2P Require Import BufferFacts.

Definition idle_conn := positive.
Definition entry := positive.
Definition Bucket := gset entry.

(** [weakConn_]: the [Entry] objects there are, and the connection each knows;
    [context]: the entry that the context of a connection knows; [living]: the
    connections there are. *)
Record IdleServer := mkIdleServer {
  connectionBuckets_ : list Bucket;
  weakConn_ : gmap entry idle_conn;
  context : gmap idle_conn entry;
  living : gset idle_conn;
  next_entry : entry
}.

Inductive idle_event := IdleShutdown (c : idle_conn) | IdleSend (c : idle_conn) (message : bytes).

(** [~Entry] of [e]: the connection is shut down if it can be locked. *)
Definition destroy_Entry (s : IdleServer) (e : entry) : list idle_event :=
  match weakConn_ s !! e with
  | Some c => if bool_decide (c ∈ living s) then [IdleShutdown c] else []
  | None => []
  end.

(** Does some bucket hold the entry? *)
Definition held (e : entry) (l : list Bucket) : bool := existsb (fun b => bool_decide (e ∈ b)) l.

(** The buckets change; of the entries in [released], those that are not held
    any more are destroyed. *)
Definition set_buckets (l : list Bucket) (released : Bucket) (s : IdleServer) : IdleServer * list idle_event :=
  let dead := filter (fun e => held e l = false) (elements released) in
  (mkIdleServer l (foldr delete (weakConn_ s) dead) (context s) (living s) (next_entry s),
   flat_map (destroy_Entry s) dead).

(** [connectionBuckets_.back().insert(entry)]; [back] of an empty buffer fails
    its assertion. *)
Definition insert_back (e : entry) (s : IdleServer) : res IdleServer :=
  match reverse (connectionBuckets_ s) with
  | [] => Fault AssertFailed
  | b :: l =>
      Ok (mkIdleServer (reverse (({[e]} ∪ b) :: l)) (weakConn_ s) (context s) (living s) (next_entry s))
  end.

(** The constructor: [resize] fills the buffer with empty buckets; a negative
    capacity is converted to one that cannot be allocated. *)
Definition new_IdleServer (idleSeconds : Z) : res IdleServer :=
  if (idleSeconds <? 0)%Z then Fault BadAlloc
  else Ok (mkIdleServer (replicate (Z.to_nat idleSeconds) ∅) ∅ ∅ ∅ 1%positive).

Definition idle_onConnection (c : idle_conn) (connected : bool) (s : IdleServer) : res IdleServer :=
  if connected then
    let e := next_entry s in
    s ← insert_back e (mkIdleServer (connectionBuckets_ s) (<[e := c]> (weakConn_ s)) (context s) (living s) (Pos.succ e));
    Ok (mkIdleServer (connectionBuckets_ s) (weakConn_ s) (<[c := e]> (context s)) (living s) (next_entry s))
  else
    _ ← assert_ (bool_decide (is_Some (context s !! c)));
    Ok s.

Definition idle_onMessage (c : idle_conn) (buf : Buffer) (s : IdleServer) :
    res (IdleServer * list idle_event * Buffer) :=
  '(msg, buf) ← retrieveAllAsString buf;
  message ← piece_of_string msg;
  e ← get_ AssertFailed (context s !! c);
  s ← (if bool_decide (is_Some (weakConn_ s !! e)) then insert_back e s else Ok s);
  Ok (s, [IdleSend c (piece_text message)], buf).

Section Wheel.
(** [circular_buffer::push_back], of which the server needs that a full buffer
    loses its first element. *)
Variable push_back : list Bucket -> Bucket -> list Bucket.

(** [onTimer]; the entries that may go are those of the buckets before. *)
Definition onTimer (s : IdleServer) : IdleServer * list idle_event :=
  set_buckets (push_back (connectionBuckets_ s) ∅) (union_list (connectionBuckets_ s)) s.

(** ** Runs

    A connection comes up, receives, goes down, and its object is destroyed;
    a second passes. *)
Inductive idle_input :=
  | Connected (c : idle_conn)
  | Received (c : idle_conn) (buf : Buffer)
  | Disconnected (c : idle_conn)
  | Destroyed (c : idle_conn)
  | Tick.

Definition idle_step (i : idle_input) (s : IdleServer) : res (IdleServer * list idle_event) :=
  match i with
  | Connected c =>
      s ← idle_onConnection c true
            (mkIdleServer (connectionBuckets_ s) (weakConn_ s) (context s) ({[c]} ∪ living s) (next_entry s));
      Ok (s, [])
  | Received c buf => '(s, events, _) ← idle_onMessage c buf s; Ok (s, events)
  | Disconnected c => s ← idle_onConnection c false s; Ok (s, [])
  | Destroyed c =>
      Ok (mkIdleServer (connectionBuckets_ s) (weakConn_ s) (delete c (context s)) (living s ∖ {[c]}) (next_entry s), [])
  | Tick => Ok (onTimer s)
  end.

Fixpoint idle_run (inputs : list idle_input) (s : IdleServer) : res (IdleServer * list idle_event) :=
  match inputs with
  | [] => Ok (s, [])
  | i :: inputs =>
      '(s, events) ← idle_step i s;
      '(s, events') ← idle_run inputs s;
      Ok (s, events ++ events')
  end.
End Wheel.

(** ** What happens to one connection

    [Active a]: in the wheel, [a] seconds after it was last active. *)
Inductive fate := Unseen | Active (age : nat) | Expired | Gone.

#[export] Instance fate_eq_dec : EqDecision fate.
Proof. solve_decision. Defined.

Section Fate.
Variable idleSeconds : nat.

(** What an input does to the fate of [c], and what the server does to [c];
    [None] for an input that cannot come. *)
Definition fate_step (c : idle_conn) (i : idle_input) (f : fate) : option (fate * list idle_event) :=
  match i with
  | Connected d => if decide (d = c) then match f with Unseen => Some (Active 0, []) | _ => None end else Some (f, [])
  | Received d buf =>
      if decide (d = c) then
        match f with
        | Active _ => Some (Active 0, [IdleSend c (content buf)])
        | Expired => Some (Expired, [IdleSend c (content buf)])
        | _ => None
        end
      else Some (f, [])
  | Disconnected d =>
      if decide (d = c) then match f with Active _ | Expired => Some (f, []) | _ => None end else Some (f, [])
  | Destroyed d =>
      if decide (d = c) then match f with Active _ | Expired => Some (Gone, []) | _ => None end else Some (f, [])
  | Tick =>
      match f with
      | Active a => if S a =? idleSeconds then Some (Expired, [IdleShutdown c]) else Some (Active (S a), [])
      | _ => Some (f, [])
      end
  end.

Fixpoint fate_run (c : idle_conn) (inputs : list idle_input) (f : fate) : option (fate * list idle_event) :=
  match inputs with
  | [] => Some (f, [])
  | i :: inputs =>
      '(f, events) ← fate_step c i f;
      '(f, events') ← fate_run c inputs f;
      Some (f, events ++ events')
  end.
End Fate.

Definition about (c : idle_conn) (ev : idle_event) : Prop :=
  match ev with IdleShutdown d | IdleSend d _ => d = c end.

#[export] Instance idle_event_eq_dec : EqDecision idle_event.
Proof. solve_decision. Defined.

#[export] Instance about_dec c ev : Decision (about c ev).
Proof. destruct ev; simpl; apply _. Defined.

(** The buffers that are received are well formed, and hold less than 2 GiB. *)
Definition input_ok (i : idle_input) : Prop :=
  match i with Received _ buf => buf_inv buf /\ fits_int (content buf) | _ => True end.

(** ** Entries in the wheel *)

(** How many buckets before the newest the newest bucket with the entry is;
    the newest bucket comes first. *)
Fixpoint age (e : entry) (l : list Bucket) : option nat :=
  match l with
  | [] => None
  | b :: l => if decide (e ∈ b) then Some 0 else S <$> age e l
  end.

Lemma age_bound e l a : age e l = Some a -> a < length l.
Proof.
  revert a; induction l as [|b l IH]; intros a; simpl; [done|]. case_decide; [intros [= <-]; lia|].
  destruct (age e l) as [x|]; [|done]. intros [= <-]. specialize (IH x eq_refl). lia.
Qed.

Lemma age_held e l : held e (reverse l) = bool_decide (is_Some (age e l)).
Proof.
  unfold held. induction l as [|b l IH]; [done|]. rewrite reverse_cons, existsb_app, IH. simpl.
  case_decide as Hb; [rewrite (bool_decide_eq_true_2 (e ∈ b)), orb_true_r by done; by rewrite bool_decide_eq_true_2|].
  rewrite (bool_decide_eq_false_2 (e ∈ b)), !orb_false_r by done. destruct (age e l); [done|].
  by rewrite !bool_decide_eq_false_2 by (intros [? ?]; done).
Qed.

Lemma age_empty e l : age e (∅ :: l) = S <$> age e l.
Proof. simpl. by rewrite decide_False by set_solver. Qed.

(** The oldest bucket falls out. *)
Lemma age_removelast e (l : list Bucket) b :
  age e l = match age e (l ++ [b]) with
            | Some a => if a =? length l then None else Some a
            | None => None
            end.
Proof.
  induction l as [|b' l IH]; simpl; [by case_decide|]. case_decide; [done|]. rewrite IH.
  destruct (age e (l ++ [b])) as [a|]; [|done]. cbn [fmap option_fmap option_map Nat.eqb]. by destruct (a =? length l).
Qed.

Lemma age_union e l : is_Some (age e l) -> e ∈ ⋃ l.
Proof.
  induction l as [|b l IH]; simpl; [by intros [? ?]|]. case_decide; [set_solver|].
  destruct (age e l); [|by intros [? ?]]. intros _. apply elem_of_union_r, IH. by eexists.
Qed.

(** ** The wheel and the fates *)
Definition fate_holds (s : IdleServer) (c : idle_conn) (f : fate) : Prop :=
  match f with
  | Unseen => context s !! c = None /\ c ∉ living s /\ forall e, weakConn_ s !! e <> Some c
  | Active a => exists e : entry, context s !! c = Some e /\ c ∈ living s /\ weakConn_ s !! e = Some c
                          /\ age e (reverse (connectionBuckets_ s)) = Some a
  | Expired => exists e : entry, context s !! c = Some e /\ c ∈ living s /\ weakConn_ s !! e = None
                         /\ (forall e', weakConn_ s !! e' <> Some c) /\ (e < next_entry s)%positive
  | Gone => c ∉ living s
  end.

Record wheel_ok (N : nat) (s : IdleServer) : Prop := {
  wh_length : length (connectionBuckets_ s) = N;
  wh_held e : is_Some (weakConn_ s !! e) <-> is_Some (age e (reverse (connectionBuckets_ s)));
  wh_fresh e : is_Some (weakConn_ s !! e) -> (e < next_entry s)%positive;
  wh_one e e' c : weakConn_ s !! e = Some c -> weakConn_ s !! e' = Some c -> e = e'
}.

Lemma insert_back_spec e s :
  0 < length (connectionBuckets_ s) ->
  exists l, insert_back e s = Ok (mkIdleServer l (weakConn_ s) (context s) (living s) (next_entry s))
    /\ length l = length (connectionBuckets_ s)
    /\ forall e', age e' (reverse l) = if decide (e' = e) then Some 0 else age e' (reverse (connectionBuckets_ s)).
Proof.
  intros Hl. unfold insert_back. rewrite <- length_reverse in *.
  destruct (reverse (connectionBuckets_ s)) as [|b l]; [simpl in Hl; lia|].
  eexists. split; [done|]. split; [by rewrite length_reverse|]. intros e'. rewrite reverse_involutive. simpl.
  destruct (decide (e' = e)) as [->|]; [by rewrite decide_True by set_solver|].
  destruct (decide (e' ∈ b)); [rewrite decide_True by set_solver; done | rewrite decide_False by set_solver; done].
Qed.

Lemma lookup_deletes (m : gmap entry idle_conn) es e :
  foldr delete m es !! e = if decide (e ∈ es) then None else m !! e.
Proof.
  induction es as [|e' es IH]; simpl; [done|]. destruct (decide (e' = e)) as [->|].
  - rewrite lookup_delete_eq. by rewrite decide_True by set_solver.
  - rewrite lookup_delete_ne by done. rewrite IH.
    destruct (decide (e ∈ es)); [rewrite decide_True by set_solver | rewrite decide_False by set_solver]; done.
Qed.

Lemma lookup_deletes_Some (m : gmap entry idle_conn) es e c : foldr delete m es !! e = Some c -> m !! e = Some c.
Proof. rewrite lookup_deletes. by destruct (decide (e ∈ es)). Qed.

Lemma lookup_deletes_None (m : gmap entry idle_conn) es e : m !! e = None -> foldr delete m es !! e = None.
Proof. rewrite lookup_deletes. by destruct (decide (e ∈ es)). Qed.

(** What the destructors do to one connection. *)
Lemma destroy_about s c es :
  filter (about c) (flat_map (destroy_Entry s) es)
  = flat_map (fun e => if decide (weakConn_ s !! e = Some c) then if decide (c ∈ living s) then [IdleShutdown c] else [] else []) es.
Proof.
  induction es as [|e es IH]; [done|]. cbn [flat_map]. rewrite filter_app, IH. f_equal. unfold destroy_Entry.
  destruct (weakConn_ s !! e) as [d|]; [|done]. destruct (decide (d = c)) as [->|].
  - rewrite decide_True by done. case_bool_decide; [rewrite decide_True by done | by rewrite decide_False].
    by rewrite filter_cons_True.
  - rewrite decide_False by congruence. case_bool_decide; [|done]. by rewrite filter_cons_False.
Qed.

Lemma flat_map_none {A B} (f : A -> list B) l : (forall x, x ∈ l -> f x = []) -> flat_map f l = [].
Proof. induction l as [|x l IH]; intros H; [done|]. cbn [flat_map]. rewrite H, IH; set_solver. Qed.

Lemma flat_map_one {A B} `{EqDecision A} (f : A -> list B) l x :
  NoDup l -> x ∈ l -> (forall y, y ∈ l -> y <> x -> f y = []) -> flat_map f l = f x.
Proof.
  induction 1 as [|y l Hy Hl IH]; intros Hx Hf; [set_solver|]. cbn [flat_map].
  destruct (decide (y = x)) as [->|].
  - rewrite flat_map_none, app_nil_r; [done|]. intros z Hz. apply Hf; set_solver.
  - rewrite Hf, IH by set_solver. done.
Qed.

Lemma new_wheel N : exists s, new_IdleServer (Z.of_nat N) = Ok s /\ wheel_ok N s /\ forall c, fate_holds s c Unseen.
Proof.
  unfold new_IdleServer. replace (Z.of_nat N <? 0)%Z with false by (symmetry; apply Z.ltb_ge; lia).
  rewrite Nat2Z.id. eexists. split; [done|]. split; [|intros c; split; [done|]; split; [set_solver | done]].
  split; cbn [connectionBuckets_ weakConn_ next_entry].
  - apply length_replicate.
  - intros e. rewrite lookup_empty, reverse_replicate. split; [by intros [? ?]|].
    induction N as [|n IH]; [by intros [? ?]|]. simpl. rewrite decide_False by set_solver.
    destruct (age e (replicate n ∅)); [|done]. intros _. apply IH. by eexists.
  - intros e [? He]. by rewrite lookup_empty in He.
  - intros e e' c He. by rewrite lookup_empty in He.
Qed.

Section Facts.
Context (N : nat) (HN : 0 < N) (push_back : list Bucket -> Bucket -> list Bucket).
Hypothesis push_back_full : forall l b, length l = N -> push_back l b = drop 1 l ++ [b].

(** The fates after an input. *)
Definition fate_next (F : idle_conn -> fate) (i : idle_input) (c : idle_conn) : fate :=
  default (F c) (fst <$> fate_step N c i (F c)).

Definition simulates (s : IdleServer) (F : idle_conn -> fate) (i : idle_input) : Prop :=
  exists s' events, idle_step push_back i s = Ok (s', events) /\ wheel_ok N s'
    /\ forall c, fate_holds s' c (fate_next F i c)
                 /\ fate_step N c i (F c) = Some (fate_next F i c, filter (about c) events).

Lemma tick_age s e :
  wheel_ok N s ->
  age e (reverse (push_back (connectionBuckets_ s) ∅))
  = match age e (reverse (connectionBuckets_ s)) with
    | Some a => if S a =? N then None else Some (S a)
    | None => None
    end.
Proof.
  intros [Hl _ _ _]. rewrite push_back_full by done. destruct (connectionBuckets_ s) as [|b l]; [simpl in Hl; lia|].
  cbn [drop]. rewrite drop_0, reverse_app, (reverse_cons l b). change (reverse [∅] ++ reverse l) with (∅ :: reverse l).
  rewrite age_empty, (age_removelast e (reverse l) b), length_reverse.
  destruct (age e (reverse l ++ [b])) as [a|]; [|done].
  assert (E : (S a =? N) = (a =? length l)) by (by rewrite <- Hl). rewrite E. by destruct (a =? length l).
Qed.

Lemma tick_dead s e :
  wheel_ok N s -> is_Some (weakConn_ s !! e) ->
  e ∈ filter (fun e => held e (push_back (connectionBuckets_ s) ∅) = false) (elements (⋃ connectionBuckets_ s))
  <-> age e (reverse (connectionBuckets_ s)) = Some (N - 1).
Proof.
  intros Hs He. pose proof (proj1 (wh_held _ _ Hs e) He) as [a Ha].
  rewrite list_elem_of_filter, elem_of_elements.
  rewrite <- (reverse_involutive (push_back _ _)), age_held, tick_age, Ha by done.
  destruct (S a =? N) eqn:Hn; bool_props.
  - split; [intros _; f_equal; lia|]. intros _. split; [done|].
    assert (Hu : e ∈ ⋃ reverse (connectionBuckets_ s)) by (apply age_union; by eexists).
    apply elem_of_union_list in Hu as (b & Hb & He'). apply elem_of_union_list. exists b. split; [|done].
    by apply elem_of_reverse.
  - split; [intros [H _]; discriminate H|]. intros [= ->]. lia.
Qed.

Lemma simulates_tick s F :
  wheel_ok N s -> (forall c, fate_holds s c (F c)) -> simulates s F Tick.
Proof.
  intros Hs HF. unfold simulates. cbn [idle_step]. unfold onTimer, set_buckets.
  set (l := push_back (connectionBuckets_ s) ∅).
  set (dead := filter (fun e => held e l = false) (elements (⋃ connectionBuckets_ s))).
  do 2 eexists. split; [done|].
  assert (Hd : forall e, is_Some (weakConn_ s !! e) -> e ∈ dead <-> age e (reverse (connectionBuckets_ s)) = Some (N - 1))
    by (intros e He; apply tick_dead; done).
  assert (Ha : forall e, age e (reverse l) = match age e (reverse (connectionBuckets_ s)) with
                | Some a => if S a =? N then None else Some (S a) | None => None end)
    by (intros e; apply tick_age; done).
  split; [|intros c].
  - split; cbn [connectionBuckets_ weakConn_ next_entry].
    + subst l. rewrite push_back_full by apply Hs. rewrite length_app, length_drop, (wh_length _ _ Hs). simpl. lia.
    + intros e. rewrite lookup_deletes, Ha. case_decide as He.
      * split; [by intros [? ?]|]. destruct (weakConn_ s !! e) as [d|] eqn:Ed.
        -- rewrite (proj1 (Hd e ltac:(by eexists)) He). replace (S (N - 1) =? N) with true by (symmetry; apply Nat.eqb_eq; lia).
           by intros [? ?].
        -- destruct (age e (reverse (connectionBuckets_ s))) eqn:E; [|by intros [? ?]].
           destruct (proj2 (wh_held _ _ Hs e)) as [? ?]; [by eexists | congruence].
      * rewrite (wh_held _ _ Hs). destruct (age e (reverse (connectionBuckets_ s))) as [a|] eqn:E; [|done].
        destruct (S a =? N) eqn:Hn; [|done]. bool_props. destruct He. apply Hd; [apply (wh_held _ _ Hs); by eexists|].
        rewrite E. f_equal. lia.
    + intros e [c He%lookup_deletes_Some]. apply Hs. by exists c.
    + intros e e' c He%lookup_deletes_Some He'%lookup_deletes_Some. by eapply Hs.
  - pose proof (HF c) as Hc. unfold fate_next. cbn [fate_step]. rewrite destroy_about.
    assert (Hnone : (forall e, e ∈ dead -> weakConn_ s !! e = Some c -> c ∉ living s) ->
      flat_map (fun e => if decide (weakConn_ s !! e = Some c) then if decide (c ∈ living s) then [IdleShutdown c] else []
                         else []) dead = []).
    { intros H. apply flat_map_none. intros e He. case_decide; [|done]. by rewrite decide_False by eauto. }
    destruct (F c) as [|a| |] eqn:EF; cbn [fate_holds] in Hc.
    + destruct Hc as (? & Hl & Hw). split; [|by rewrite Hnone by eauto]. simpl. split; [done|]. split; [done|].
      intros e He%lookup_deletes_Some. by destruct (Hw e).
    + destruct Hc as (e & Hx & Hl & He & Hage). pose proof (Hd e ltac:(by eexists)) as Hde. rewrite Hage in Hde.
      destruct (S a =? N) eqn:Hn; bool_props; simpl.
      * assert (e ∈ dead) by (apply Hde; f_equal; lia). split.
        -- exists e. rewrite lookup_deletes, decide_True by done. split; [done|]. split; [done|]. split; [done|].
           split; [|apply (wh_fresh _ _ Hs); by eexists]. intros e' He'. pose proof (lookup_deletes_Some _ _ _ _ He') as Hw. rewrite (wh_one _ _ Hs _ _ _ Hw He) in He'.
           rewrite lookup_deletes in He'. by rewrite decide_True in He'.
        -- rewrite (flat_map_one _ _ e); [by rewrite !decide_True by done | | done |].
           { unfold dead. apply NoDup_filter, NoDup_elements. }
           intros e' _ Hne. rewrite decide_False; [done|]. intros He'. by destruct Hne; eapply wh_one.
      * assert (e ∉ dead) by (rewrite Hde; intros [= ?]; lia). split.
        -- exists e. rewrite lookup_deletes, decide_False, Ha, Hage by done.
           replace (S a =? N) with false by (symmetry; by apply Nat.eqb_neq). done.
        -- rewrite Hnone; [done|]. intros e' He' Hw. by rewrite (wh_one _ _ Hs _ _ _ Hw He) in He'.
    + destruct Hc as (e & Hx & Hl & He & Hw & Hfr). split; [|by rewrite Hnone by (intros e' _ He'; by destruct (Hw e'))].
      exists e. simpl. split; [done|]. split; [done|]. split; [by apply lookup_deletes_None|]. split; [|done].
      intros e' He'%lookup_deletes_Some. by destruct (Hw e').
    + split; [done|]. by rewrite Hnone by done.
Qed.

(** An input that concerns [d] only. *)
Lemma simulates_one s F i d :
  (exists s' events f o, idle_step push_back i s = Ok (s', events) /\ wheel_ok N s'
     /\ fate_step N d i (F d) = Some (f, o) /\ fate_holds s' d f /\ filter (about d) events = o
     /\ forall c, c <> d -> fate_step N c i (F c) = Some (F c, []) /\ fate_holds s' c (F c) /\ filter (about c) events = []) ->
  simulates s F i.
Proof.
  intros (s' & events & f & o & E & Hs & Ef & Hf & Eo & Hc). exists s', events. split; [done|]. split; [done|].
  intros c. unfold fate_next. destruct (decide (c = d)) as [->|Hne].
  - rewrite Ef. simpl. by rewrite Eo.
  - destruct (Hc c Hne) as (-> & ? & ->). done.
Qed.

Lemma simulates_connected s F d :
  wheel_ok N s -> (forall c, fate_holds s c (F c)) -> F d = Unseen -> simulates s F (Connected d).
Proof.
  intros Hs HF Hd. pose proof (HF d) as Hu. rewrite Hd in Hu. destruct Hu as (Hx & Hl & Hw).
  assert (Hfr : weakConn_ s !! next_entry s = None).
  { destruct (weakConn_ s !! next_entry s) eqn:E; [|done].
    pose proof (wh_fresh _ _ Hs (next_entry s) ltac:(by eexists)). lia. }
  apply (simulates_one _ _ _ d). cbn [idle_step]. unfold idle_onConnection.
  match goal with |- context [insert_back ?e ?w] => destruct (insert_back_spec e w) as (l & -> & Hll & Hage) end;
    [by cbn [connectionBuckets_]; rewrite (wh_length _ _ Hs)|]. run_res.
  cbn [weakConn_ context living next_entry connectionBuckets_] in *. 
  do 4 eexists. split; [done|]. cbn [fate_step]. rewrite Hd, decide_True by done.
  split; [|split; [done|split; [|split; [done|]]]].
  - split; cbn [connectionBuckets_ weakConn_ next_entry].
    + by rewrite Hll, (wh_length _ _ Hs).
    + intros e. rewrite Hage. destruct (decide (e = next_entry s)) as [->|].
      * rewrite lookup_insert_eq. by split; intros _; eexists.
      * rewrite lookup_insert_ne by done. apply Hs.
    + intros e. destruct (decide (e = next_entry s)) as [->|]; [lia|]. rewrite lookup_insert_ne by done.
      intros He%(wh_fresh _ _ Hs). lia.
    + intros e e' c. rewrite !lookup_insert_Some.
      intros [[<- <-]|[Hne He]] [[<- E']|[Hne' He']]; try done; [by destruct (Hw e') | subst; by destruct (Hw e) | by eapply Hs].
  - exists (next_entry s). cbn [weakConn_ context living connectionBuckets_]. rewrite !lookup_insert_eq, Hage, decide_True by done.
    split; [done|]. split; [set_solver|]. done.
  - intros c Hne. rewrite decide_False by done. split; [done|]. split; [|done]. pose proof (HF c) as Hc.
    assert (Hwk : forall e, weakConn_ s !! e <> Some c -> <[next_entry s := d]> (weakConn_ s) !! e <> Some c).
    { intros e He. rewrite lookup_insert_Some. naive_solver. }
    destruct (F c) as [|a| |]; cbn [fate_holds weakConn_ context living connectionBuckets_ next_entry] in *.
    + destruct Hc as (? & ? & ?). split; [by rewrite lookup_insert_ne|]. split; [set_solver|]. auto.
    + destruct Hc as (e & ? & ? & He & Ha). assert (e <> next_entry s) by congruence. exists e.
      rewrite Hage, !lookup_insert_ne, decide_False by done. split; [done|]. split; [set_solver|]. done.
    + destruct Hc as (e & ? & ? & He & ? & ?). exists e. assert (e <> next_entry s) by lia.
      rewrite !lookup_insert_ne by done. split; [done|]. split; [set_solver|]. split; [done|]. split; [auto | lia].
    + set_solver.
Qed.

Lemma simulates_received s F d buf :
  wheel_ok N s -> (forall c, fate_holds s c (F c)) -> input_ok (Received d buf) -> is_Some (fate_step N d (Received d buf) (F d)) ->
  simulates s F (Received d buf).
Proof.
  intros Hs HF [Hb Hfit] Hd. pose proof (HF d) as Hu. apply (simulates_one _ _ _ d). cbn [idle_step].
  unfold idle_onMessage. destruct (retrieve_everything buf Hb) as (b' & ->). run_res.
  destruct (piece_of_string_text _ Hfit) as (p & -> & Hp). run_res. rewrite Hp. clear p Hp.
  revert Hd. cbn [fate_step]. rewrite decide_True by done.
  destruct (F d) as [|a| |] eqn:EF; cbn [fate_holds] in Hu; try (by intros [? ?]); intros _.
  - destruct Hu as (e & Hx & Hl & He & Ha). rewrite Hx. run_res. rewrite bool_decide_eq_true_2 by (by eexists).
    destruct (insert_back_spec e s) as (l & -> & Hll & Hage); [by rewrite (wh_length _ _ Hs)|]. run_res.
    do 4 eexists. split; [done|]. split; [|split; [done|split; [|split; [by rewrite filter_cons_True|]]]].
    + split; cbn [connectionBuckets_ weakConn_ next_entry]; [by rewrite Hll, (wh_length _ _ Hs) | | apply Hs | apply Hs].
      intros e'. rewrite Hage. destruct (decide (e' = e)) as [->|]; [|apply Hs]. by rewrite He; split; intros _; eexists.
    + exists e. cbn [weakConn_ context living connectionBuckets_]. by rewrite Hage, decide_True by done.
    + intros c Hne. rewrite decide_False, filter_cons_False by (cbn [about]; congruence). split; [done|]. split; [|done].
      pose proof (HF c) as Hc. destruct (F c) as [|a'| |]; cbn [fate_holds weakConn_ context living connectionBuckets_ next_entry] in *;
        [done | | done | done].
      destruct Hc as (e' & ? & ? & He' & Ha'). exists e'. rewrite Hage, decide_False by congruence. done.
  - destruct Hu as (e & Hx & Hl & He & Hw & Hf). rewrite Hx. run_res. rewrite bool_decide_eq_false_2 by (by rewrite He; intros [? ?]).
    run_res. do 4 eexists. split; [done|]. split; [done|]. split; [done|]. split; [by exists e|].
    split; [by rewrite filter_cons_True|]. intros c Hne. rewrite decide_False, filter_cons_False by (cbn [about]; congruence). done.
Qed.

Lemma simulates_step s F i :
  wheel_ok N s -> (forall c, fate_holds s c (F c)) -> input_ok i -> (forall c, is_Some (fate_step N c i (F c))) ->
  simulates s F i.
Proof.
  intros Hs HF Hi Hok. destruct i as [d|d buf|d|d|].
  - apply simulates_connected; [done..|]. specialize (Hok d). cbn [fate_step] in Hok. rewrite decide_True in Hok by done.
    destruct (F d); [done|by destruct Hok..].
  - by apply simulates_received.
  - apply (simulates_one _ _ _ d). cbn [idle_step]. unfold idle_onConnection. specialize (Hok d). pose proof (HF d) as Hd.
    cbn [fate_step] in *. rewrite decide_True in * by done.
    assert (is_Some (context s !! d)) by (destruct (F d); [by destruct Hok | | | by destruct Hok]; destruct Hd as (e & ? & _); by exists e).
    rewrite bool_decide_eq_true_2 by done. run_res. exists s, [], (F d), [].
    split; [done|]. split; [done|]. split; [by destruct (F d); [destruct Hok| | |destruct Hok]|].
    split; [done|]. split; [done|]. intros c Hne. by rewrite decide_False.
  - apply (simulates_one _ _ _ d). cbn [idle_step]. specialize (Hok d). cbn [fate_step] in *. rewrite decide_True in Hok by done.
    do 2 eexists. exists Gone, []. split; [done|]. split; [by destruct Hs; split|]. rewrite decide_True by done.
    split; [by destruct (F d); [destruct Hok| | |destruct Hok]|]. split; [simpl; set_solver|]. split; [done|].
    intros c Hne. rewrite decide_False by done. split; [done|]. split; [|done]. pose proof (HF c) as Hc.
    destruct (F c) as [|a'| |]; cbn [fate_holds weakConn_ context living connectionBuckets_ next_entry] in *;
      rewrite ?lookup_delete_ne by done; set_solver.
  - by apply simulates_tick.
Qed.

Lemma idle_run_sim inputs s F :
  wheel_ok N s -> (forall c, fate_holds s c (F c)) -> Forall input_ok inputs ->
  (forall c, is_Some (fate_run N c inputs (F c))) ->
  exists s' events, idle_run push_back inputs s = Ok (s', events) /\ wheel_ok N s'
    /\ forall c, exists f, fate_run N c inputs (F c) = Some (f, filter (about c) events) /\ fate_holds s' c f.
Proof.
  revert s F; induction inputs as [|i inputs IH]; intros s F Hs HF Hi Hok.
  - exists s, []. split; [done|]. split; [done|]. intros c. by exists (F c).
  - apply Forall_cons in Hi as [Hi Hi'].
    assert (Hstep : forall c, is_Some (fate_step N c i (F c))).
    { intros c. specialize (Hok c). cbn [fate_run] in Hok. destruct (fate_step N c i (F c)); [by eexists | by destruct Hok]. }
    destruct (simulates_step s F i Hs HF Hi Hstep) as (s1 & ev1 & E1 & Hs1 & H1).
    destruct (IH s1 (fate_next F i) Hs1 (fun c => proj1 (H1 c)) Hi') as (s2 & ev2 & E2 & Hs2 & H2).
    { intros c. specialize (Hok c). cbn [fate_run] in Hok. rewrite (proj2 (H1 c)) in Hok. cbn [mbind option_bind] in Hok.
      destruct (fate_run N c inputs (fate_next F i c)); [by eexists | by destruct Hok]. }
    exists s2, (ev1 ++ ev2). cbn [idle_run]. rewrite E1. run_res. rewrite E2. split; [done|]. split; [done|].
    intros c. destruct (H2 c) as (f & Ef & Hf). exists f. split; [|done]. cbn [fate_run].
    rewrite (proj2 (H1 c)). cbn [mbind option_bind]. rewrite Ef. cbn [mbind option_bind]. by rewrite filter_app.
Qed.
End Facts.

(** ** Idle connections

    [quiet c]: [c] receives nothing and its object stays; [shutdowns]: how
    often it is shut down; [seconds]: how many seconds pass. *)
Definition active_in (c : idle_conn) (i : idle_input) : Prop :=
  match i with Connected d | Received d _ => d = c | _ => False end.
Definition quiet (c : idle_conn) (i : idle_input) : Prop :=
  match i with Received d _ | Destroyed d => d <> c | _ => True end.
Definition shutdowns (c : idle_conn) (events : list idle_event) : nat :=
  length (filter (fun ev => ev = IdleShutdown c) events).
Fixpoint seconds (inputs : list idle_input) : nat :=
  match inputs with [] => 0 | Tick :: inputs => S (seconds inputs) | _ :: inputs => seconds inputs end.

(** Every input can come when it does. *)
Definition inputs_legal (N : nat) (inputs : list idle_input) : Prop :=
  Forall input_ok inputs /\ forall c, is_Some (fate_run N c inputs Unseen).

Lemma shutdowns_about c events : shutdowns c (filter (about c) events) = shutdowns c events.
Proof.
  unfold shutdowns. induction events as [|ev events IH]; [done|].
  destruct (decide (about c ev)) as [Ha|Ha].
  - rewrite (filter_cons_True (about c)) by done.
    destruct (decide (ev = IdleShutdown c)); [rewrite !(filter_cons_True (fun ev => ev = _)) by done; simpl; by f_equal|].
    by rewrite !(filter_cons_False (fun ev => ev = _)) by done.
  - rewrite (filter_cons_False (about c)) by done.
    rewrite (filter_cons_False (fun ev => ev = _)); [done|]. by intros ->.
Qed.

Lemma fate_run_app N c is1 is2 f :
  fate_run N c (is1 ++ is2) f
  = ('(f, o1) ← fate_run N c is1 f; '(f, o2) ← fate_run N c is2 f; Some (f, o1 ++ o2)).
Proof.
  revert f; induction is1 as [|i is1 IH]; intros f; cbn [app fate_run mbind option_bind].
  - by destruct (fate_run N c is2 f) as [[? ?]|].
  - destruct (fate_step N c i f) as [[f1 o1]|]; [|done]. cbn [mbind option_bind]. rewrite IH.
    destruct (fate_run N c is1 f1) as [[f2 o2]|]; [|done]. cbn [mbind option_bind].
    destruct (fate_run N c is2 f2) as [[f3 o3]|]; [|done]. cbn [mbind option_bind]. by rewrite app_assoc.
Qed.

Lemma shutdowns_app c o1 o2 : shutdowns c (o1 ++ o2) = shutdowns c o1 + shutdowns c o2.
Proof. unfold shutdowns. by rewrite filter_app, length_app. Qed.

(** The shutdowns that a step of a fate makes. *)
Lemma fate_step_spec N c i f f' o :
  fate_step N c i f = Some (f', o) ->
  shutdowns c o = match f, f' with Active _, Expired => 1 | _, _ => 0 end
  /\ (f' = Expired -> f = Expired \/ exists a, f = Active a)
  /\ (f = Expired -> f' = Expired \/ f' = Gone) /\ (f = Gone -> f' = Gone)
  /\ (active_in c i -> f' = Active 0 \/ f' = Expired /\ f = Expired).
Proof.
  assert (Hsend : forall m, shutdowns c [IdleSend c m] = 0)
    by (intros m; unfold shutdowns; by rewrite filter_cons_False).
  assert (Hdown : shutdowns c [IdleShutdown c] = 1) by (unfold shutdowns; by rewrite filter_cons_True).
  destruct i as [d|d buf|d|d|]; cbn [fate_step active_in]; try destruct (decide (d = c));
    destruct f as [|a| |]; try (destruct (S a =? N)); intros [= <- <-]; rewrite ?Hsend, ?Hdown;
    split_and!; intros; simplify_eq/=; try done; eauto.
Qed.

Lemma fate_run_over N c inputs f f' o :
  f = Expired \/ f = Gone -> fate_run N c inputs f = Some (f', o) -> shutdowns c o = 0.
Proof.
  revert f o; induction inputs as [|i inputs IH]; intros f o Hf; cbn [fate_run mbind option_bind]; [by intros [= _ <-]|].
  destruct (fate_step N c i f) as [[f1 o1]|] eqn:E; [|done]. cbn [mbind option_bind].
  destruct (fate_run N c inputs f1) as [[f2 o2]|] eqn:E2; [|done]. intros [= -> <-].
  apply fate_step_spec in E as (H1 & _ & H2 & H3 & _). assert (Hf1 : f1 = Expired \/ f1 = Gone) by (destruct Hf; auto).
  rewrite shutdowns_app, (IH f1 o2 Hf1 E2).
  rewrite H1. destruct Hf as [-> | ->]; done.
Qed.

Lemma fate_run_expires N c inputs f o :
  f <> Expired -> fate_run N c inputs f = Some (Expired, o) -> 0 < shutdowns c o.
Proof.
  revert f o; induction inputs as [|i inputs IH]; intros f o Hf; cbn [fate_run mbind option_bind]; [by intros [= -> _]|].
  destruct (fate_step N c i f) as [[f1 o1]|] eqn:E; [|done]. cbn [mbind option_bind].
  destruct (fate_run N c inputs f1) as [[f2 o2]|] eqn:E2; [|done]. intros [= -> <-]. rewrite shutdowns_app.
  destruct (decide (f1 = Expired)) as [->|Hf1]; [|apply IH in E2; [lia | done]].
  apply fate_step_spec in E as (H1 & H2 & _). destruct (H2 eq_refl) as [->|[a ->]]; [done | lia].
Qed.

(** Left alone, an active connection is shut down once its age reaches the
    limit. *)
Lemma fate_run_quiet N c inputs a f o :
  Forall (quiet c) inputs -> a < N -> fate_run N c inputs (Active a) = Some (f, o) ->
  shutdowns c o = if N <=? a + seconds inputs then 1 else 0.
Proof.
  revert a o; induction inputs as [|i inputs IH]; intros a o Hq Ha; cbn [fate_run mbind option_bind].
  - intros [= _ <-]. simpl. rewrite Nat.add_0_r. replace (N <=? a) with false by (symmetry; by apply Nat.leb_gt). done.
  - apply Forall_cons in Hq as [Hi Hq].
    destruct (fate_step N c i (Active a)) as [[f1 o1]|] eqn:E; [|done]. cbn [mbind option_bind].
    destruct (fate_run N c inputs f1) as [[f2 o2]|] eqn:E2; [|done]. intros [= -> <-]. rewrite shutdowns_app.
    pose proof (fate_step_spec _ _ _ _ _ _ E) as (H1 & _). rewrite H1.
    destruct i as [d|d buf|d|d|]; cbn [fate_step quiet seconds] in *;
      try (destruct (decide (d = c)); [done|]; injection E as <- <-; by apply IH).
    + destruct (decide (d = c)); injection E as <- <-; by apply IH.
    + destruct (S a =? N) eqn:Hn; injection E as <- <-; bool_props.
      * rewrite (fate_run_over N c inputs Expired f o2) by auto.
        replace (N <=? a + S (seconds inputs)) with true by (symmetry; apply Nat.leb_le; lia). done.
      * rewrite Nat.add_succ_r, <- Nat.add_succ_l. apply IH; [done | lia | done].
Qed.

Section Theorems.
Context (N : nat) (push_back : list Bucket -> Bucket -> list Bucket).


(** A connection that was not shut down yet is shut down exactly when
    [idleSeconds] seconds have passed since it came up or last received
    something, and only once. *)
Theorem idle_exact pre act post c :
  0 < N -> (forall l b, length l = N -> push_back l b = drop 1 l ++ [b]) ->
  inputs_legal N (pre ++ act :: post) -> active_in c act -> Forall (quiet c) post ->
  exists s0 s1 events1 s2 events2, new_IdleServer (Z.of_nat N) = Ok s0
    /\ idle_run push_back (pre ++ [act]) s0 = Ok (s1, events1) /\ idle_run push_back post s1 = Ok (s2, events2)
    /\ (shutdowns c events1 = 0 -> shutdowns c events2 = if N <=? seconds post then 1 else 0).
Proof.
  intros HN Hp [Hi Hok] Hact Hq. destruct (new_wheel N) as (s0 & E0 & Hs & HF).
  replace (pre ++ act :: post) with ((pre ++ [act]) ++ post) in * by (by rewrite <- app_assoc).
  apply Forall_app in Hi as [Hi1 Hi2].
  assert (Hok1 : forall c, is_Some (fate_run N c (pre ++ [act]) Unseen)).
  { intros d. specialize (Hok d). rewrite fate_run_app in Hok.
    destruct (fate_run N d (pre ++ [act]) Unseen); [by eexists | by destruct Hok]. }
  destruct (idle_run_sim N HN push_back Hp _ s0 (fun _ => Unseen) Hs HF Hi1 Hok1) as (s1 & ev1 & E1 & Hs1 & H1).
  set (F := fun d => default Unseen (fst <$> fate_run N d (pre ++ [act]) Unseen)).
  assert (HF1 : forall d, fate_run N d (pre ++ [act]) Unseen = Some (F d, filter (about d) ev1) /\ fate_holds s1 d (F d)).
  { intros d. destruct (H1 d) as (f & Ef & Hf). unfold F. by rewrite Ef. }
  destruct (idle_run_sim N HN push_back Hp post s1 F Hs1 (fun d => proj2 (HF1 d)) Hi2) as (s2 & ev2 & E2 & _ & H2).
  { intros d. specialize (Hok d). rewrite fate_run_app, (proj1 (HF1 d)) in Hok. cbn [mbind option_bind] in Hok.
    destruct (fate_run N d post (F d)); [by eexists | by destruct Hok]. }
  exists s0, s1, ev1, s2, ev2. split; [done|]. split; [done|]. split; [done|]. intros Hno.
  destruct (H2 c) as (f & Ef & _). rewrite <- (shutdowns_about c ev2). rewrite <- shutdowns_about in Hno.
  destruct (HF1 c) as [Hc _]. assert (F c = Active 0) as Ha.
  { rewrite fate_run_app in Hc. destruct (fate_run N c pre Unseen) as [[f1 o1]|] eqn:Epre; [|done].
    cbn [mbind option_bind fate_run] in Hc. destruct (fate_step N c act f1) as [[f2 o2]|] eqn:Eact; [|done].
    cbn [mbind option_bind] in Hc. injection Hc as Ef2 Eo. rewrite <- Eo, shutdowns_app in Hno.
    apply fate_step_spec in Eact as (_ & _ & _ & _ & H). destruct (H Hact) as [-> | [_ ->]]; [done|].
    apply fate_run_expires in Epre; [lia | done]. }
  rewrite Ha in Ef. by eapply fate_run_quiet in Ef.
Qed.
End Theorems.

(** Two connections of a server that closes after two seconds. *)
Lemma idle_example_legal :
  inputs_legal 2 ([Connected 1%positive; Tick; Connected 2%positive] ++ Received 1%positive (new_Buffer kInitialSize) :: [Tick; Disconnected 2%positive; Tick]).
Proof.
  split; [repeat constructor; apply new_Buffer_inv || done|]. intros c.
  destruct (decide (c = 1%positive)) as [->|]; [by eexists; vm_compute|].
  destruct (decide (c = 2%positive)) as [->|]; [by eexists; vm_compute|].
  repeat (progress cbn [app fate_run fate_step mbind option_bind] || rewrite decide_False by congruence). by eexists.
Qed.


Lemma idle_exact_witness :
  exists s0 s1 events1 s2 events2, new_IdleServer 2 = Ok s0
    /\ idle_run (fun l b => drop 1 l ++ [b])
         ([Connected 1%positive; Tick; Connected 2%positive] ++ [Received 1%positive (new_Buffer kInitialSize)]) s0 = Ok (s1, events1)
    /\ idle_run (fun l b => drop 1 l ++ [b]) [Tick; Disconnected 2%positive; Tick] s1 = Ok (s2, events2)
    /\ (shutdowns 1%positive events1 = 0 -> shutdowns 1%positive events2 = 1).
Proof.
  apply (idle_exact 2 (fun l b => drop 1 l ++ [b]) _ (Received 1%positive (new_Buffer kInitialSize)) [Tick; Disconnected 2%positive; Tick] 1%positive);
    [lia | done | apply idle_example_legal | done | by repeat constructor].
Defined.
