(* ===== verification/MaxEcho.v ===== *)
(** * Echo server with a limit on connections:
    [src/msexamples/maxconnection/echo.h], [echo.cpp]

    The server counts its connections in an [int]; one that comes up beyond the
    limit is shut down and closed three seconds later. All callbacks run in one
    loop thread. *)
From S2P Require Import Prelude.
From S2P Require Import Buffer.
From S2P Require Import BufferFacts.

Definition max_conn := positive.

Record MaxServer := mkMaxServer { numConnected_ : Z; kMaxConnections_ : Z }.

Inductive max_event :=
  | MaxShutdown (c : max_conn)
  | MaxForceClose (c : max_conn) (seconds : nat)
  | MaxSend (c : max_conn) (message : bytes).

Definition new_MaxServer (maxConnections : Z) : MaxServer := mkMaxServer 0 maxConnections.

(** Arithmetic on [int] that overflows is undefined. *)
Definition int_ (z : Z) : res Z := if (wrapS 32 z =? z)%Z then Ok z else Fault Overflow.

Definition max_onConnection (c : max_conn) (connected : bool) (s : MaxServer) : res (MaxServer * list max_event) :=
  if connected then
    n ← int_ (numConnected_ s + 1);
    Ok (mkMaxServer n (kMaxConnections_ s),
        if (kMaxConnections_ s <? n)%Z then [MaxShutdown c; MaxForceClose c 3] else [])
  else
    n ← int_ (numConnected_ s - 1);
    Ok (mkMaxServer n (kMaxConnections_ s), []).

Definition max_onMessage (c : max_conn) (buf : Buffer) : res (list max_event * Buffer) :=
  '(msg, buf) ← retrieveAllAsString buf; Ok ([MaxSend c msg], buf).

(** ** Connections come and go *)
Inductive max_input := MaxUp (c : max_conn) | MaxDown (c : max_conn) | MaxReceived (c : max_conn) (buf : Buffer).

Definition max_step (i : max_input) (s : MaxServer) : res (MaxServer * list max_event) :=
  match i with
  | MaxUp c => max_onConnection c true s
  | MaxDown c => max_onConnection c false s
  | MaxReceived c buf => '(events, _) ← max_onMessage c buf; Ok (s, events)
  end.

Fixpoint max_run (inputs : list max_input) (s : MaxServer) : res (MaxServer * list max_event) :=
  match inputs with
  | [] => Ok (s, [])
  | i :: inputs =>
      '(s, events) ← max_step i s;
      '(s, events') ← max_run inputs s;
      Ok (s, events ++ events')
  end.

(** The connections that are up, and those of them that were let in; what the
    service promises to do. *)
Record max_view := mkView { up : gset max_conn; admitted : gset max_conn }.

Definition view_step (k : Z) (i : max_input) (v : max_view) : max_view * list max_event :=
  match i with
  | MaxUp c =>
      if (k <=? Z.of_nat (size (up v)))%Z then (mkView ({[c]} ∪ up v) (admitted v), [MaxShutdown c; MaxForceClose c 3])
      else (mkView ({[c]} ∪ up v) ({[c]} ∪ admitted v), [])
  | MaxDown c => (mkView (up v ∖ {[c]}) (admitted v ∖ {[c]}), [])
  | MaxReceived c buf => (v, [MaxSend c (content buf)])
  end.

Fixpoint view_run (k : Z) (inputs : list max_input) (v : max_view) : max_view * list max_event :=
  match inputs with
  | [] => (v, [])
  | i :: inputs =>
      let (v, events) := view_step k i v in
      let (v, events') := view_run k inputs v in (v, events ++ events')
  end.

(** Inputs that can come: at most [2 ^ 31 - 1] connections are up. *)
Fixpoint max_legal (inputs : list max_input) (up : gset max_conn) : Prop :=
  match inputs with
  | [] => True
  | MaxUp c :: inputs => c ∉ up /\ (Z.of_nat (size up) < 2147483647)%Z /\ max_legal inputs ({[c]} ∪ up)
  | MaxDown c :: inputs => c ∈ up /\ max_legal inputs (up ∖ {[c]})
  | MaxReceived c buf :: inputs => buf_inv buf /\ max_legal inputs up
  end.

Record max_ok (k : Z) (s : MaxServer) (v : max_view) : Prop := {
  mo_limit : kMaxConnections_ s = k;
  mo_count : numConnected_ s = Z.of_nat (size (up v));
  mo_range : (Z.of_nat (size (up v)) <= 2147483647)%Z;
  mo_sub : admitted v ⊆ up v;
  mo_bound : (Z.of_nat (size (admitted v)) <= Z.max 0 k)%Z
}.

Lemma int_fits z : (-2147483648 <= z <= 2147483647)%Z -> int_ z = Ok z.
Proof. intros H. unfold int_. rewrite wrapS_small by lia. by rewrite Z.eqb_refl. Qed.

Lemma max_run_sim k inputs s v :
  max_ok k s v -> max_legal inputs (up v) ->
  exists s', max_run inputs s = Ok (s', (view_run k inputs v).2) /\ max_ok k s' (view_run k inputs v).1.
Proof.
  revert s v; induction inputs as [|i inputs IH]; intros s v Hs Hl; cbn [max_run view_run]; [by exists s|].
  assert (Hstep : exists s', max_step i s = Ok (s', (view_step k i v).2) /\ max_ok k s' (view_step k i v).1
                             /\ max_legal inputs (up (view_step k i v).1)).
  { destruct Hs as [Hk Hc Hr Hsub Hb]. destruct i as [c|c|c buf]; cbn [max_step max_legal view_step] in *.
    - destruct Hl as (Hn & Hlt & Hl). unfold max_onConnection. rewrite Hc, int_fits, Hk by lia. run_res.
      assert (Hsize : size ({[c]} ∪ up v) = S (size (up v))) by (rewrite size_union, size_singleton by set_solver; lia).
      replace (k <? Z.of_nat (size (up v)) + 1)%Z with (k <=? Z.of_nat (size (up v)))%Z
        by (apply Bool.eq_true_iff_eq; rewrite Z.leb_le, Z.ltb_lt; lia).
      pose proof (subseteq_size _ _ Hsub) as Hle.
      destruct (k <=? Z.of_nat (size (up v)))%Z eqn:Hkk; bool_props; cbn [fst snd up]; eexists; (split; [done|]);
        (split; [|done]); split; cbn [up admitted numConnected_ kMaxConnections_]; rewrite ?Hsize; try lia; try set_solver.
      rewrite size_union, size_singleton by set_solver. lia.
    - destruct Hl as (Hin & Hl). unfold max_onConnection. rewrite Hc, int_fits, Hk by lia. run_res.
      assert (Hsize : size (up v) = S (size (up v ∖ {[c]}))).
      { rewrite size_difference, size_singleton by set_solver.
        pose proof (subseteq_size {[c]} (up v) ltac:(set_solver)) as H1. rewrite size_singleton in H1. lia. }
      pose proof (subseteq_size (admitted v ∖ {[c]}) (admitted v) ltac:(set_solver)).
      cbn [fst snd up]. eexists. split; [done|]. split; [|done].
      split; cbn [up admitted numConnected_ kMaxConnections_]; try lia. set_solver.
    - destruct Hl as (Hbuf & Hl). unfold max_onMessage. destruct (retrieve_everything buf Hbuf) as (b' & ->). run_res.
      exists s. by repeat split. }
  destruct Hstep as (s1 & E1 & H1 & Hl1). destruct (view_step k i v) as [v1 o1]. cbn [fst snd] in *.
  destruct (IH s1 v1 H1 Hl1) as (s2 & E2 & H2). destruct (view_run k inputs v1) as [v2 o2]. cbn [fst snd] in *.
  exists s2. rewrite E1. run_res. by rewrite E2.
Qed.

(** The server refuses exactly the connections that come while its limit
    is reached, counts those that are up, and never has more than the limit let
    in. *)
Theorem limit_kept k inputs :
  max_legal inputs ∅ ->
  exists s, max_run inputs (new_MaxServer k) = Ok (s, (view_run k inputs (mkView ∅ ∅)).2)
    /\ numConnected_ s = Z.of_nat (size (up (view_run k inputs (mkView ∅ ∅)).1))
    /\ (Z.of_nat (size (admitted (view_run k inputs (mkView ∅ ∅)).1)) <= Z.max 0 k)%Z.
Proof.
  intros Hl. destruct (max_run_sim k inputs (new_MaxServer k) (mkView ∅ ∅)) as (s & E & [_ Hc _ _ Hb]); [|done|by exists s].
  split; cbn [up admitted numConnected_ kMaxConnections_ new_MaxServer]; rewrite ?size_empty; try done; lia.
Qed.

Lemma limit_kept_witness :
  let inputs := [MaxUp 1; MaxUp 2; MaxDown 1; MaxUp 3]%positive in
  exists s, max_run inputs (new_MaxServer 1)
            = Ok (s, [MaxShutdown 2; MaxForceClose 2 3; MaxShutdown 3; MaxForceClose 3 3]%positive)
    /\ numConnected_ s = 2%Z /\ (Z.of_nat (size (admitted (view_run 1 inputs (mkView ∅ ∅)).1)) <= Z.max 0 1)%Z.
Proof.
  intros inputs. apply (limit_kept 1 inputs). cbn [inputs max_legal].
  split_and!; try (vm_compute; congruence); set_solver.
Defined.
