(* ===== verification/Memcached.v ===== *)
(** * Memcached server: [src/msexamples/memcached/server/Item.h], [Item.cpp],
    [MemcacheServer.h], [MemcacheServer.cpp], [Session.h], [Session.cpp]

    Items are key and value in one piece of memory, the server keeps them in
    shards of hash tables, a [Session] parses the commands of its connection.
    The server runs with one worker thread, as its [main] does by default, so
    the sessions take turns. *)
From S2P Require Import Prelude.
From S2P Require Import Format.
From S2P Require Import Atomic.
From S2P Require Import Buffer.
From S2P Require Import LogStream.
From S2P Require Import Decoder.

#[export] Instance ascii_countable : Countable Ascii.ascii :=
  inj_countable' N_of_ascii ascii_of_N ascii_N_embedding.

Definition SP : char := " "%char.

(** ** Items *)

(** [data_] is the memory the pointer leads to. *)
Record Item := mkItem {
  keylen_ : Z; flags_ : Z; rel_exptime_ : Z; valuelen_ : Z; receivedBytes_ : Z;
  cas_ : Z; hash_ : Z; item_data_ : bytes
}.

Inductive UpdatePolicy := kInvalid | kSet | kAdd | kReplace | kAppend | kPrepend | kCas.

#[export] Instance policy_eq_dec : EqDecision UpdatePolicy.
Proof. solve_decision. Defined.

Definition totalLen (it : Item) : Z := keylen_ it + valuelen_ it.

(** The difference of two [int]s as a [size_t]. *)
Definition neededBytes (it : Item) : Z := wrapU 64 (totalLen it - receivedBytes_ it).

Definition item_key (it : Item) : bytes := take (Z.to_nat (keylen_ it)) (item_data_ it).
Definition item_value (it : Item) : bytes := drop (Z.to_nat (keylen_ it)) (item_data_ it).

Definition setCas (cas : Z) (it : Item) : Item :=
  mkItem (keylen_ it) (flags_ it) (rel_exptime_ it) (valuelen_ it) (receivedBytes_ it) cas (hash_ it) (item_data_ it).
Definition set_received (n : Z) (d : bytes) (it : Item) : Item :=
  mkItem (keylen_ it) (flags_ it) (rel_exptime_ it) (valuelen_ it) n (cas_ it) (hash_ it) d.

Definition item_append (data : bytes) (it : Item) : res Item :=
  assert_ (Z.of_nat (length data) <=? neededBytes it)%Z;;
  d ← overwrite (Z.to_nat (receivedBytes_ it)) data (item_data_ it);
  let it := set_received (receivedBytes_ it + Z.of_nat (length data)) d it in
  assert_ (receivedBytes_ it <=? totalLen it)%Z;;
  Ok it.

Definition data_at (i : Z) (it : Item) : res char := get_ OutOfBounds (item_data_ it !! Z.to_nat i).

Definition endsWithCRLF (it : Item) : res bool :=
  if (receivedBytes_ it =? totalLen it)%Z then
    c ← data_at (totalLen it - 2) it;
    if Ascii.eqb c CR then d ← data_at (totalLen it - 1) it; Ok (Ascii.eqb d LF) else Ok false
  else Ok false.

(** What goes through the log stream of [output]; it prints no double. *)
Definition stream_text (xs : list (item Empty_set)) : res bytes :=
  b ← inserts (fun d : Empty_set => match d with end) xs (new_FixedBuffer kSmallBuffer);
  Ok (fb_toString b).

Definition item_output (needCas : bool) (it : Item) (out : Buffer) : res Buffer :=
  out ← append_str (str "VALUE ") out;
  out ← append (item_data_ it) (Z.to_nat (keylen_ it)) out;
  text ← stream_text ([IChar SP; IInt (flags_ it); IChar SP; IInt (valuelen_ it - 2)]
                       ++ (if needCas then [IChar SP; IInt (cas_ it)] else []) ++ [IString kCRLF]);
  out ← append_str text out;
  append (item_value it) (Z.to_nat (valuelen_ it)) out.

(** ** Numbers: [strtoull] with base ten

    The number a string starts with, and how many characters it takes; none
    when there are no digits. *)
Definition is_space (c : char) : bool :=
  let n := Z_of_char c in (n =? 32)%Z || ((9 <=? n)%Z && (n <=? 13)%Z).

Fixpoint span (p : char -> bool) (l : bytes) : bytes * bytes :=
  match l with
  | [] => ([], [])
  | c :: l' => if p c then let (a, b) := span p l' in (c :: a, b) else ([], l)
  end.

Definition kMaxULL : Z := 2 ^ 64 - 1.

Definition strtoull (l : bytes) : Z * nat :=
  let (blanks, l) := span is_space l in
  let '(negative, sign, l) :=
    match l with
    | c :: l' => if Ascii.eqb c "-" then (true, 1, l') else if Ascii.eqb c "+" then (false, 1, l') else (false, 0, l)
    | [] => (false, 0, l)
    end in
  let (ds, _) := span is_digit l in
  if length ds =? 0 then (0%Z, 0)
  else
    let v := undec ds in
    (if (kMaxULL <? v)%Z then kMaxULL else if negative : bool then wrapU 64 (- v) else v,
     length blanks + sign + length ds).

(** ** The command line *)

(** [SpaceSeparator]: the next token and what follows it. *)
Definition SpaceSeparator (l : bytes) : option (bytes * bytes) :=
  let (_, start) := span (Ascii.eqb SP) l in
  match start with
  | [] => None
  | _ =>
      match find_char SP start with
      | Some sp => Some (take sp start, drop sp start)
      | None => Some (start, [])
      end
  end.

(** The tokens that a [boost::tokenizer] visits: those the separator gives
    until it gives none. A token takes a character. *)
Fixpoint tokens_from (fuel : nat) (l : bytes) : list bytes :=
  match fuel with
  | 0 => []
  | S fuel => match SpaceSeparator l with Some (tok, l) => tok :: tokens_from fuel l | None => [] end
  end.
Definition tokens (l : bytes) : list bytes := tokens_from (length l) l.

(** [Reader::read]; the character behind a token is a blank, where a number
    ends too. *)
Definition reader_read (ts : list bytes) : option (Z * list bytes) :=
  match ts with
  | [] => None
  | t :: ts => let (x, n) := strtoull t in if n =? length t then Some (x, ts) else None
  end.

(** ** The server *)
Definition kShards : nat := 4096.

(** A shard's [unordered_set] finds items by their keys. *)
Abbreviation ItemMap := (gmap (list Ascii.ascii) Item).

Record MemcacheServer := mkServer { shards_ : list ItemMap; g_cas : AtomicInteger }.

Definition new_MemcacheServer : MemcacheServer := mkServer (replicate kShards ∅) new_AtomicInteger.

Definition shard_of (it : Item) : nat := Z.to_nat (hash_ it mod Z.of_nat kShards).

Definition set_shard (i : nat) (items : ItemMap) (v : MemcacheServer) : MemcacheServer :=
  mkServer (<[i := items]> (shards_ v)) (g_cas v).

(** Whether the item was stored, and whether its key existed. *)
Definition storeItem (it : Item) (policy : UpdatePolicy) (v : MemcacheServer) : res (bool * bool * MemcacheServer) :=
  assert_ (neededBytes it =? 0)%Z;;
  items ← get_ OutOfBounds (shards_ v !! shard_of it);
  let exists_ := bool_decide (is_Some (items !! item_key it)) in
  let (n, cas) := incrementAndGet (g_cas v) in
  let v' := mkServer (shards_ v) cas in
  let it' := setCas (wrapU 64 n) it in
  match policy with
  | kSet =>
      let items := if exists_ then delete (item_key it) items else items in
      Ok (true, exists_, set_shard (shard_of it) (<[item_key it := it']> items) v')
  | kAdd =>
      if exists_ then Ok (false, exists_, v)
      else Ok (true, exists_, set_shard (shard_of it) (<[item_key it := it']> items) v')
  | _ => Ok (true, exists_, v)
  end.

Definition getItem (key : Item) (v : MemcacheServer) : res (option Item) :=
  items ← get_ OutOfBounds (shards_ v !! shard_of key);
  Ok (items !! item_key key).

Definition deleteItem (key : Item) (v : MemcacheServer) : res (bool * MemcacheServer) :=
  items ← get_ OutOfBounds (shards_ v !! shard_of key);
  Ok (bool_decide (is_Some (items !! item_key key)), set_shard (shard_of key) (delete (item_key key) items) v).

(** ** Sessions *)
Inductive SessionState := kNewCommand | kReceiveValue | kDiscardValue.
Inductive Protocol := kAscii | kBinary | kAuto.

Definition kLongestKeySize : nat := 250.
Definition kLongestKey : bytes := replicate kLongestKeySize "x"%char.

(** [connected_] is whether the connection is up: [send] and [shutdown] do
    nothing when it is not. *)
Record Session := mkSession {
  connected_ : bool;
  state_ : SessionState; protocol_ : Protocol;
  command_ : bytes; noreply_ : bool; policy_ : UpdatePolicy; currItem_ : option Item; bytesToDiscard_ : Z;
  needle_ : Item; outputBuf_ : Buffer;
  requestsProcessed_ : nat
}.

Definition set_state (x : SessionState) (s : Session) : Session :=
  mkSession (connected_ s) x (protocol_ s) (command_ s) (noreply_ s) (policy_ s) (currItem_ s) (bytesToDiscard_ s)
            (needle_ s) (outputBuf_ s) (requestsProcessed_ s).
Definition set_protocol (x : Protocol) (s : Session) : Session :=
  mkSession (connected_ s) (state_ s) x (command_ s) (noreply_ s) (policy_ s) (currItem_ s) (bytesToDiscard_ s)
            (needle_ s) (outputBuf_ s) (requestsProcessed_ s).
(** The fields of the current request. *)
Definition set_request (command : bytes) (noreply : bool) (policy : UpdatePolicy) (curr : option Item) (discard : Z)
    (s : Session) : Session :=
  mkSession (connected_ s) (state_ s) (protocol_ s) command noreply policy curr discard
            (needle_ s) (outputBuf_ s) (requestsProcessed_ s).
Definition set_needle (x : Item) (s : Session) : Session :=
  mkSession (connected_ s) (state_ s) (protocol_ s) (command_ s) (noreply_ s) (policy_ s) (currItem_ s) (bytesToDiscard_ s)
            x (outputBuf_ s) (requestsProcessed_ s).
Definition set_outputBuf (x : Buffer) (s : Session) : Session :=
  mkSession (connected_ s) (state_ s) (protocol_ s) (command_ s) (noreply_ s) (policy_ s) (currItem_ s) (bytesToDiscard_ s)
            (needle_ s) x (requestsProcessed_ s).
Definition set_connected (x : bool) (s : Session) : Session :=
  mkSession x (state_ s) (protocol_ s) (command_ s) (noreply_ s) (policy_ s) (currItem_ s) (bytesToDiscard_ s)
            (needle_ s) (outputBuf_ s) (requestsProcessed_ s).
Definition count_request (s : Session) : Session :=
  mkSession (connected_ s) (state_ s) (protocol_ s) (command_ s) (noreply_ s) (policy_ s) (currItem_ s) (bytesToDiscard_ s)
            (needle_ s) (outputBuf_ s) (S (requestsProcessed_ s)).
Definition set_policy (x : UpdatePolicy) (s : Session) : Session :=
  set_request (command_ s) (noreply_ s) x (currItem_ s) (bytesToDiscard_ s) s.
Definition set_currItem (x : option Item) (s : Session) : Session :=
  set_request (command_ s) (noreply_ s) (policy_ s) x (bytesToDiscard_ s) s.
Definition set_discard (x : Z) (s : Session) : Session :=
  set_request (command_ s) (noreply_ s) (policy_ s) (currItem_ s) x s.

(** What a session does to its connection and to the server: it sends, it
    shuts down, it shrinks the output buffer of the connection, it stops the
    server. *)
Inductive session_event :=
  | SessionSend (message : bytes)
  | SessionShutdown
  | SessionShrink (reserve : nat)
  | ServerStop.

Definition resetRequest (s : Session) : Session := set_request [] false kInvalid None 0 s.

Definition conn_send (msg : bytes) (s : Session) : list session_event :=
  if connected_ s then [SessionSend msg] else [].
Definition reply (msg : bytes) (s : Session) : list session_event :=
  if noreply_ s then [] else conn_send msg s.
Definition conn_shutdown (s : Session) : Session * list session_event :=
  (set_connected false s, if connected_ s then [SessionShutdown] else []).

Definition ERROR : bytes := str "ERROR" ++ kCRLF.
Definition BAD_FORMAT : bytes := str "CLIENT_ERROR bad command line format" ++ kCRLF.

Section Session.
(** The hash function of boost; what memory holds that [malloc] returns; the
    time the server started; and, for each request, the space left in the
    output buffer of the connection. *)
Context (hash_range : bytes -> Z) (memory : nat -> bytes) (startTime_ : Z) (outputWritable : nat -> nat).

Definition makeItem (key : bytes) (flags exptime valuelen cas : Z) : res Item :=
  let keylen := Z.of_nat (length key) in
  let it := mkItem keylen flags exptime valuelen 0 cas (hash_range key) (memory (Z.to_nat (keylen + valuelen))) in
  assert_ (2 <=? valuelen_ it)%Z;;
  assert_ (receivedBytes_ it <? totalLen it)%Z;;
  item_append key it.

Definition resetKey (k : bytes) (it : Item) : res Item :=
  assert_ (length k <=? 250);;
  let it := mkItem (Z.of_nat (length k)) (flags_ it) (rel_exptime_ it) (valuelen_ it) 0 (cas_ it) (hash_ it) (item_data_ it) in
  it ← item_append k it;
  Ok (mkItem (keylen_ it) (flags_ it) (rel_exptime_ it) (valuelen_ it) (receivedBytes_ it) (cas_ it) (hash_range k)
             (item_data_ it)).

Definition new_Session : res Session :=
  needle ← makeItem kLongestKey 0 0 2 0;
  Ok (mkSession true kNewCommand kAscii [] false kInvalid None 0 needle (new_Buffer kInitialSize) 0).

Definition policy_of (command : bytes) : option UpdatePolicy :=
  if bool_decide (command = str "set") then Some kSet
  else if bool_decide (command = str "add") then Some kAdd
  else if bool_decide (command = str "replace") then Some kReplace
  else if bool_decide (command = str "append") then Some kAppend
  else if bool_decide (command = str "prepend") then Some kPrepend
  else if bool_decide (command = str "cas") then Some kCas
  else None.

(** The reads of [flags], [exptime] and [bytes], each if those before went
    well: whether all did, and the variables. *)
Definition read_fields (good : bool) (ts : list bytes) : bool * Z * Z * Z * list bytes :=
  if good then
    match reader_read ts with
    | None => (false, 0, 1, -1, ts)%Z
    | Some (x, ts) =>
        let flags := wrapU 32 x in
        match reader_read ts with
        | None => (false, flags, 1, -1, ts)%Z
        | Some (x, ts) =>
            let exptime := wrapS 64 x in
            match reader_read ts with
            | None => (false, flags, exptime, -1, ts)%Z
            | Some (x, ts) => (true, flags, exptime, wrapS 32 x, ts)
            end
        end
    end
  else (false, 0, 1, -1, ts)%Z.

Definition relative_exptime (exptime : Z) : Z :=
  if (60 * 60 * 24 * 30 <? exptime)%Z then
    let rel := wrapS 32 (exptime - startTime_) in
    if (rel <? 1)%Z then 1%Z else rel
  else wrapS 32 exptime.

(** [int] arithmetic: overflow is undefined. *)
Definition add_int (a b : Z) : res Z :=
  if (wrapS 32 (a + b) =? a + b)%Z then Ok (a + b)%Z else Fault Overflow.

(** [doUpdate] with the tokens from [beg] on: whether the request is finished.
    The iterator at the end cannot be dereferenced. *)
Definition doUpdate (ts : list bytes) (v : MemcacheServer) (s : Session) :
    res (bool * MemcacheServer * Session * list session_event) :=
  policy ← get_ AssertFailed (policy_of (command_ s));
  let s := set_policy policy s in
  '(key, ts) ← match ts with key :: ts => Ok (key, ts) | [] => Fault AssertFailed end;
  let good := length key <=? kLongestKeySize in
  let '(good, flags, exptime, bytes_, ts) := read_fields good ts in
  let rel_exptime := relative_exptime exptime in
  let (good, cas) :=
    if good && bool_decide (policy_ s = kCas)
    then match reader_read ts with Some (x, _) => (true, x) | None => (false, 0%Z) end
    else (good, 0%Z) in
  if negb good then Ok (true, v, s, reply BAD_FORMAT s)
  else if (1024 * 1024 <? bytes_)%Z then
    let events := reply (str "SERVER_ERROR object too large for cache" ++ kCRLF) s in
    needle ← resetKey key (needle_ s);
    let s := set_needle needle s in
    '(_, v) ← deleteItem (needle_ s) v;
    discard ← add_int bytes_ 2;
    Ok (false, v, set_state kDiscardValue (set_discard discard s), events)
  else
    valuelen ← add_int bytes_ 2;
    it ← makeItem key flags rel_exptime valuelen cas;
    Ok (false, v, set_state kReceiveValue (set_currItem (Some it) s), []).

Definition doDelete (ts : list bytes) (v : MemcacheServer) (s : Session) :
    res (MemcacheServer * Session * list session_event) :=
  assert_ (bool_decide (command_ s = str "delete"));;
  '(key, ts) ← match ts with key :: ts => Ok (key, ts) | [] => Fault AssertFailed end;
  if negb (length key <=? kLongestKeySize) then Ok (v, s, reply BAD_FORMAT s)
  else if match ts with t :: _ => negb (bool_decide (t = str "0")) | [] => false end then
    Ok (v, s, reply (str "CLIENT_ERROR bad command line format.  Usage: delete <key> [noreply]" ++ kCRLF) s)
  else
    needle ← resetKey key (needle_ s);
    let s := set_needle needle s in
    '(deleted, v) ← deleteItem (needle_ s) v;
    Ok (v, s, reply (if deleted : bool then str "DELETED" ++ kCRLF else str "NOT_FOUND" ++ kCRLF) s).

(** The loop over the keys of [get]: whether it went through, and the
    session. *)
Fixpoint get_keys (cas : bool) (keys : list bytes) (v : MemcacheServer) (s : Session) : res (bool * Session) :=
  match keys with
  | [] => Ok (true, s)
  | key :: keys =>
      if negb (length key <=? kLongestKeySize) then Ok (false, s)
      else
        needle ← resetKey key (needle_ s);
        let s := set_needle needle s in
        item ← getItem (needle_ s) v;
        out ← match item with Some it => item_output cas it (outputBuf_ s) | None => Ok (outputBuf_ s) end;
        get_keys cas keys v (set_outputBuf out s)
  end.

Definition doGet (cas : bool) (keys : list bytes) (v : MemcacheServer) (s : Session) :
    res (Session * list session_event) :=
  '(good, s) ← get_keys cas keys v s;
  if negb good then Ok (s, reply BAD_FORMAT s)
  else
    out ← append_str (str "END" ++ kCRLF) (outputBuf_ s);
    let reserve := 65536 + readableBytes out in
    let shrinks := if reserve <? outputWritable (requestsProcessed_ s) then [SessionShrink reserve] else [] in
    Ok (if connected_ s then set_outputBuf (retrieveAll out) s else set_outputBuf out s,
        shrinks ++ conn_send (content out) s).

(** What a command does with the tokens behind it. *)
Definition run_command (command : bytes) (ts : list bytes) (v : MemcacheServer) (s : Session) :
    res (bool * MemcacheServer * Session * list session_event) :=
  if bool_decide (is_Some (policy_of command)) then doUpdate ts v s
  else if bool_decide (command = str "get") || bool_decide (command = str "gets") then
    '(s, events) ← doGet (bool_decide (command = str "gets")) ts v s;
    Ok (true, v, s, events)
  else if bool_decide (command = str "delete") then
    '(v, s, events) ← doDelete ts v s;
    Ok (true, v, s, events)
  else if bool_decide (command = str "version") then Ok (true, v, s, reply (str "VERSION 0.01 muduo" ++ kCRLF) s)
  else if bool_decide (command = str "quit") then
    let (s, events) := conn_shutdown s in Ok (true, v, s, events)
  else if bool_decide (command = str "shutdown") then
    let (s, events) := conn_shutdown s in Ok (true, v, s, events ++ [ServerStop])
  else Ok (true, v, s, reply ERROR s).

(** [processRequest]: whether the request is finished. *)
Definition processRequest (request : bytes) (v : MemcacheServer) (s : Session) :
    res (bool * MemcacheServer * Session * list session_event) :=
  assert_ (bool_decide (command_ s = []));;
  assert_ (negb (noreply_ s));;
  assert_ (bool_decide (policy_ s = kInvalid));;
  assert_ (match currItem_ s with None => true | Some _ => false end);;
  assert_ (bytesToDiscard_ s =? 0)%Z;;
  let s := count_request s in
  let n := length request in
  let noreply := (8 <=? n) && bool_decide (drop (n - 8) request = str " noreply") in
  let s := set_request (command_ s) noreply (policy_ s) (currItem_ s) (bytesToDiscard_ s) s in
  let request := if noreply then take (n - 8) request else request in
  match tokens request with
  | [] => Ok (true, v, s, reply ERROR s)
  | command :: ts =>
      run_command command ts v (set_request command (noreply_ s) (policy_ s) (currItem_ s) (bytesToDiscard_ s) s)
  end.

(** The answer to a value that was received whole. *)
Definition store_reply (stored exists_ : bool) (policy : UpdatePolicy) : bytes :=
  if stored then str "STORED" ++ kCRLF
  else if bool_decide (policy = kCas) then
    if exists_ then str "EXISTS" ++ kCRLF else str "NOT_FOUND" ++ kCRLF
  else str "NOT_STORED" ++ kCRLF.

(** What is done with a value that was received whole. *)
Definition finish_value (it : Item) (v : MemcacheServer) (s : Session) : res (MemcacheServer * list session_event) :=
  ok ← endsWithCRLF it;
  if ok : bool then
    '(stored, exists_, v) ← storeItem it (policy_ s) v;
    Ok (v, reply (store_reply stored exists_ (policy_ s)) s)
  else Ok (v, reply (str "CLIENT_ERROR bad data chunk" ++ kCRLF) s).

Definition receiveValue (buf : Buffer) (v : MemcacheServer) (s : Session) :
    res (MemcacheServer * Session * list session_event * Buffer) :=
  it ← get_ AssertFailed (currItem_ s);
  let avail := Z.to_nat (Z.min (Z.of_nat (readableBytes buf)) (neededBytes it)) in
  it ← item_append (range buf (peek buf) (peek buf + avail)) it;
  let s := set_currItem (Some it) s in
  buf ← retrieve avail buf;
  if (neededBytes it =? 0)%Z then
    '(v, events) ← finish_value it v s;
    Ok (v, set_state kNewCommand (resetRequest s), events, buf)
  else Ok (v, s, [], buf).

Definition discardValue (buf : Buffer) (s : Session) : res (Session * Buffer) :=
  assert_ (match currItem_ s with None => true | Some _ => false end);;
  if (Z.of_nat (readableBytes buf) <? bytesToDiscard_ s)%Z then
    Ok (set_discard (bytesToDiscard_ s - Z.of_nat (readableBytes buf)) s, retrieveAll buf)
  else
    buf ← retrieve (Z.to_nat (bytesToDiscard_ s)) buf;
    Ok (set_state kNewCommand (resetRequest (set_discard 0 s)), buf).

Definition isBinaryProtocol (firstByte : char) : bool := (Z_of_char firstByte =? 128)%Z.

(** A round of the loop of [onMessage] when there are bytes to read and the
    state is [kNewCommand]; an [int] cannot hold the length of a longer line. *)
Definition new_command (bytesRead_ : Z) (v : MemcacheServer) (s : Session) (buf : Buffer) :
    res (bool * (MemcacheServer * Session) * list session_event * Buffer) :=
  s ← match protocol_ s with
      | kAuto =>
          assert_ (bytesRead_ =? 0)%Z;;
          c ← get_ OutOfBounds (buffer_ buf !! peek buf);
          Ok (set_protocol (if isBinaryProtocol c then kBinary else kAscii) s)
      | _ => Ok s
      end;
  match protocol_ s with
  | kBinary => Ok (true, (v, s), [], buf)
  | _ =>
      match findCRLF buf with
      | Some crlf =>
          let len := wrapS 32 (Z.of_nat (crlf - peek buf)) in
          if (len <? 0)%Z then Fault OutOfBounds
          else
            let request := range buf (peek buf) (peek buf + Z.to_nat len) in
            '(finished, v, s, events) ← processRequest request v s;
            let s := if finished : bool then resetRequest s else s in
            buf ← retrieveUntil (crlf + 2) buf;
            Ok (true, (v, s), events, buf)
      | None =>
          if 1024 <? readableBytes buf then
            let (s, events) := conn_shutdown s in Ok (false, (v, s), events, buf)
          else Ok (false, (v, s), [], buf)
      end
  end.

Definition session_body (bytesRead_ : Z) (w : MemcacheServer * Session) (buf : Buffer) :
    res (bool * (MemcacheServer * Session) * list session_event * Buffer) :=
  let (v, s) := w in
  if 0 <? readableBytes buf then
    match state_ s with
    | kNewCommand => new_command bytesRead_ v s buf
    | kReceiveValue => '(v, s, events, buf) ← receiveValue buf v s; Ok (true, (v, s), events, buf)
    | kDiscardValue => '(s, buf) ← discardValue buf s; Ok (true, (v, s), [], buf)
    end
  else Ok (false, w, [], buf).

(** [onMessage] with the bytes read so far. *)
Definition session_onMessage (v : MemcacheServer) (s : Session) (bytesRead_ : Z) (buf : Buffer) :
    res (MemcacheServer * Session * Z * list session_event * Buffer) :=
  let initialReadable := readableBytes buf in
  '(w, events, buf) ← handler (session_body bytesRead_) (v, s) buf;
  Ok (w.1, w.2, (bytesRead_ + Z.of_nat (initialReadable - readableBytes buf))%Z, events, buf).

(** ** The server and its sessions, by the names of their connections *)
Record Memcached := mkMemcached { server : MemcacheServer; sessions_ : gmap (list Ascii.ascii) (Session * Z) }.

Definition new_Memcached : Memcached := mkMemcached new_MemcacheServer ∅.

Definition mc_onConnection (name : bytes) (connected : bool) (m : Memcached) : res Memcached :=
  if connected then
    session ← new_Session;
    assert_ (bool_decide (sessions_ m !! name = None));;
    Ok (mkMemcached (server m) (<[name := (session, 0%Z)]> (sessions_ m)))
  else
    assert_ (bool_decide (is_Some (sessions_ m !! name)));;
    Ok (mkMemcached (server m) (delete name (sessions_ m))).

Definition mc_onMessage (name : bytes) (buf : Buffer) (m : Memcached) : res (Memcached * list session_event * Buffer) :=
  '(s, n) ← get_ NullDeref (sessions_ m !! name);
  '(v, s, n, events, buf) ← session_onMessage (server m) s n buf;
  Ok (mkMemcached v (<[name := (s, n)]> (sessions_ m)), events, buf).
End Session.
