(* ===== verification/MemcachedFacts.v ===== *)
(** * Correctness of the memcached server

    The parser reads the commands that are written for it; a session over any
    reads answers like an abstract cache. *)
From S2P Require Import Prelude.
From S2P Require Import Format.
From S2P Require Import Atomic.
From S2P Require Import Buffer.
From S2P Require Import BufferFacts.
From S2P Require Import LogStream.
From S2P Require Import Decoder.
From S2P Require Import Memcached.

(** ** Scanning *)
Lemma span_all p l l' :
  Forall (fun c => p c = true) l -> match l' with c :: _ => p c = false | [] => True end ->
  span p (l ++ l') = (l, l').
Proof.
  intros Hl Hl'. induction Hl as [|c l Hc Hl IH]; simpl.
  - destruct l' as [|c l']; [done|]. simpl. by rewrite Hl'.
  - by rewrite Hc, IH.
Qed.

Lemma span_none p l : match l with c :: _ => p c = false | [] => True end -> span p l = ([], l).
Proof. intros H. by apply (span_all p [] l). Qed.

Lemma digit_char c : is_digit c = true -> is_space c = false /\ Ascii.eqb c "-" = false /\ Ascii.eqb c "+" = false.
Proof. destruct c as [[] [] [] [] [] [] [] []]; vm_compute; auto; congruence. Qed.

(** A number that was printed reads back. *)
Lemma strtoull_dec z : (0 <= z < 2 ^ 64)%Z -> strtoull (dec z) = (z, length (dec z)).
Proof.
  intros Hz. destruct (dec_spec z) as (Hv & Hd & Hne & _); [lia|]. unfold strtoull.
  destruct (dec z) as [|c l] eqn:E; [done|]. rewrite <- E in *. clear E Hne.
  assert (Hc : exists c' l', dec z = c' :: l' /\ is_digit c' = true).
  { pose proof (dec_spec z) as (_ & Hd' & Hn' & _); [lia|]. destruct (dec z) as [|c' l']; [done|].
    exists c', l'. by apply Forall_cons in Hd' as [? _]. }
  destruct Hc as (c' & l' & E & Hc'). destruct (digit_char c' Hc') as (H1 & H2 & H3).
  rewrite span_none by (by rewrite E). rewrite E at 1. rewrite H2, H3.
  assert (Hspan : span is_digit (dec z) = (dec z, [])) by (rewrite <- (app_nil_r (dec z)) at 1; by apply span_all).
  rewrite Hspan.
  replace (length (dec z) =? 0) with false by (by rewrite E). rewrite Hv.
  replace (kMaxULL <? z)%Z with false; [done|]. symmetry. apply Z.ltb_ge. unfold kMaxULL. lia.
Qed.

Lemma reader_read_dec z ts : (0 <= z < 2 ^ 64)%Z -> reader_read (dec z :: ts) = Some (z, ts).
Proof. intros Hz. unfold reader_read. rewrite strtoull_dec by done. by rewrite Nat.eqb_refl. Qed.

(** ** Lines of words *)
Definition word_ok (w : bytes) : Prop := w <> [] /\ SP ∉ w.

Definition words (ws : list bytes) : bytes :=
  match ws with [] => [] | w :: ws => w ++ flat_map (cons SP) ws end.

Lemma find_char_absent c l : c ∉ l -> find_char c l = None.
Proof.
  induction l as [|x l IH]; [done|]. intros H. simpl. destruct (Ascii.eqb x c) eqn:E.
  - apply Ascii.eqb_eq in E as ->. set_solver.
  - rewrite IH by set_solver. done.
Qed.

Lemma find_char_at c l l' : c ∉ l -> find_char c (l ++ c :: l') = Some (length l).
Proof.
  induction l as [|x l IH]; simpl; intros H; [by rewrite Ascii.eqb_refl|].
  destruct (Ascii.eqb x c) eqn:E; [apply Ascii.eqb_eq in E as ->; set_solver|]. rewrite IH by set_solver. done.
Qed.

Lemma separator_word w ws :
  word_ok w -> SpaceSeparator (w ++ flat_map (cons SP) ws) = Some (w, flat_map (cons SP) ws).
Proof.
  intros [Hne Hw]. unfold SpaceSeparator. destruct w as [|c w]; [done|].
  assert (Hc : Ascii.eqb SP c = false) by (apply Ascii.eqb_neq; intros <-; set_solver).
  rewrite span_none by done. cbn [app]. change (c :: w ++ flat_map (cons SP) ws) with ((c :: w) ++ flat_map (cons SP) ws).
  destruct ws as [|w' ws]; cbn [flat_map].
  - rewrite app_nil_r. by rewrite find_char_absent.
  - cbn [app]. change (c :: w ++ ?l) with ((c :: w) ++ l).
    change (SP :: w' ++ flat_map (cons SP) ws) with (SP :: (w' ++ flat_map (cons SP) ws)).
    rewrite find_char_at by done. by rewrite take_app_length, drop_app_length.
Qed.

Lemma separator_blank w ws :
  word_ok w -> SpaceSeparator (SP :: w ++ flat_map (cons SP) ws) = Some (w, flat_map (cons SP) ws).
Proof.
  intros Hw. pose proof (separator_word w ws Hw) as H. revert H. unfold SpaceSeparator.
  destruct Hw as [Hne Hw]. destruct w as [|c w]; [done|].
  assert (Hc : Ascii.eqb SP c = false) by (apply Ascii.eqb_neq; intros <-; set_solver).
  rewrite (span_none _ ((c :: w) ++ flat_map (cons SP) ws)) by done.
  cbn [span app]. rewrite Ascii.eqb_refl. cbn [span]. rewrite Hc. done.
Qed.

Lemma tokens_words ws : Forall word_ok ws -> tokens (words ws) = ws.
Proof.
  assert (H : forall fuel ws, Forall word_ok ws -> length (flat_map (cons SP) ws) <= fuel ->
                tokens_from fuel (flat_map (cons SP) ws) = ws).
  { intros fuel us Hus. revert fuel. induction Hus as [|w us Hw Hus IH]; intros fuel Hf; [by destruct fuel|].
    destruct fuel as [|fuel]; [simpl in Hf; lia|]. cbn [tokens_from flat_map]. cbn [app].
    rewrite separator_blank by done. f_equal. apply IH. cbn [flat_map] in Hf. simpl in Hf. rewrite length_app in Hf. lia. }
  intros Hws. unfold tokens. destruct Hws as [|w ws Hw Hws]; [done|]. cbn [words].
  destruct (length (w ++ flat_map (cons SP) ws)) as [|fuel] eqn:Hl.
  - destruct Hw as [Hne _]. destruct w; [done|]. simpl in Hl. lia.
  - cbn [tokens_from]. rewrite separator_word by done. f_equal. apply H; [done|].
    rewrite length_app in Hl. destruct Hw as [Hne _]. destruct w; [done|]. simpl in Hl. lia.
Qed.

(** ** Items *)
Record item_wf (it : Item) : Prop := {
  iw_key : (0 <= keylen_ it <= 250)%Z;
  iw_value : (2 <= valuelen_ it <= 1048578)%Z;
  iw_data : Z.of_nat (length (item_data_ it)) = totalLen it;
  iw_received : (0 <= receivedBytes_ it <= totalLen it)%Z;
  iw_flags : (0 <= flags_ it < 2 ^ 32)%Z;
  iw_cas : (0 <= cas_ it < 2 ^ 64)%Z
}.

Lemma neededBytes_wf it :
  (0 <= totalLen it - receivedBytes_ it < 2 ^ 64)%Z -> neededBytes it = (totalLen it - receivedBytes_ it)%Z.
Proof. apply wrapU_small. Qed.

(** The memory after [data] was put at [i]. *)
Definition patched (i : nat) (data l : bytes) : bytes := take i l ++ data ++ drop (i + length data) l.

Lemma length_patched i data l : i + length data <= length l -> length (patched i data l) = length l.
Proof. intros H. unfold patched. rewrite !length_app, length_take, length_drop. lia. Qed.

Lemma item_append_spec data it :
  (0 <= receivedBytes_ it)%Z -> (receivedBytes_ it + Z.of_nat (length data) <= totalLen it < 2 ^ 63)%Z ->
  (receivedBytes_ it + Z.of_nat (length data) <= Z.of_nat (length (item_data_ it)))%Z ->
  item_append data it = Ok (set_received (receivedBytes_ it + Z.of_nat (length data))
                              (patched (Z.to_nat (receivedBytes_ it)) data (item_data_ it)) it).
Proof.
  intros H0 H1 H2. unfold item_append. rewrite neededBytes_wf by lia.
  rewrite (proj2 (Z.leb_le _ _)) by lia. run_res. rewrite overwrite_in_range by lia. run_res.
  cbn [set_received receivedBytes_ totalLen keylen_ valuelen_]. unfold totalLen. cbn [set_received keylen_ valuelen_ receivedBytes_].
  unfold totalLen in *. by rewrite (proj2 (Z.leb_le _ _)) by lia.
Qed.

(** The needle that keys are looked up with. *)
Record needle_wf (it : Item) : Prop := {
  nw_value : valuelen_ it = 2%Z;
  nw_data : length (item_data_ it) = 252
}.

(** ** Printing an item *)
Definition stream_item_ok (x : item Empty_set) : Prop :=
  match x with IInt v => (0 <= v < 2 ^ 64)%Z | IChar _ => True | IString d => length d <= 2 | _ => False end.
Definition stream_item_text (x : item Empty_set) : bytes :=
  match x with IInt v => dec v | IChar c => [c] | IString d => d | _ => [] end.

Lemma printed_whole (fmt_g : Empty_set -> bytes) xs room :
  Forall stream_item_ok xs -> 32 * (length xs + 1) <= room ->
  printed fmt_g xs room = flat_map stream_item_text xs.
Proof.
  intros Hx. revert room. induction Hx as [|x xs Hx Hxs IH]; intros room Hr; [done|]. cbn [printed flat_map length] in *.
  assert (Ht : item_text fmt_g x = stream_item_text x /\ length (stream_item_text x) <= 22).
  { destruct x; cbn [stream_item_ok item_text stream_item_text] in *; try done; [simpl; split; [done | lia] | | split; [done | lia]].
    unfold fmt_d. replace (v <? 0)%Z with false by (symmetry; apply Z.ltb_ge; lia). split; [done|].
    etransitivity; [apply (dec_length 22); [|lia] | done]. split; [lia|]. transitivity (2 ^ 64)%Z; [lia | done]. }
  destruct Ht as [Ht Hl].
  assert (Hf : item_fits fmt_g x room = true).
  { destruct x; cbn [stream_item_ok item_fits] in *; try done; rewrite ?Ht;
      [apply Nat.ltb_lt; lia | apply Nat.leb_le; unfold kMaxNumericSize; lia | apply Nat.ltb_lt; lia]. }
  rewrite Hf, Ht, IH by lia. done.
Qed.

Lemma stream_text_spec xs :
  Forall stream_item_ok xs -> length xs <= 100 -> stream_text xs = Ok (flat_map stream_item_text xs).
Proof.
  intros Hx Hl. unfold stream_text.
  destruct (inserts_spec (fun d : Empty_set => match d with end) xs (new_FixedBuffer kSmallBuffer)) as (b & -> & _ & _ & Ht).
  - split. cbn [new_FixedBuffer cur_ data_]. rewrite length_replicate. apply Nat.ltb_lt. reflexivity.
  - eapply Forall_impl; [exact Hx|]. intros []; simpl; try done. lia.
  - run_res. rewrite Ht, printed_whole; [done | done|]. unfold avail, new_FixedBuffer. cbn [data_ cur_].
    rewrite length_replicate. change kSmallBuffer with (Z.to_nat 4000). lia.
Qed.

(** What [output] appends. *)
Definition item_text (cas : bool) (it : Item) : bytes :=
  str "VALUE " ++ item_key it ++ SP :: dec (flags_ it) ++ SP :: dec (valuelen_ it - 2)
  ++ (if cas then SP :: dec (cas_ it) else []) ++ kCRLF ++ item_value it.

Lemma item_output_spec cas it out :
  item_wf it -> buf_inv out ->
  exists out', item_output cas it out = Ok out' /\ buf_inv out' /\ content out' = content out ++ item_text cas it.
Proof.
  intros [Hk Hv Hd Hr Hf Hc] Ho. unfold totalLen in Hd. unfold item_output.
  destruct (append_str_spec (str "VALUE ") out Ho) as (b1 & -> & Hb1 & Hc1 & _). run_res.
  destruct (append_spec (item_data_ it) (Z.to_nat (keylen_ it)) b1 Hb1) as (b2 & -> & Hb2 & Hc2 & _); [lia|]. run_res.
  rewrite stream_text_spec; [|destruct cas; repeat constructor; simpl; lia | destruct cas; simpl; lia]. run_res.
  destruct (append_str_spec (flat_map stream_item_text
    ([IChar SP; IInt (flags_ it); IChar SP; IInt (valuelen_ it - 2)]
     ++ (if cas then [IChar SP; IInt (cas_ it)] else []) ++ [IString kCRLF])) b2 Hb2) as (b3 & -> & Hb3 & Hc3 & _). run_res.
  assert (Hl : length (item_value it) = Z.to_nat (valuelen_ it)) by (unfold item_value; rewrite length_drop; lia).
  destruct (append_spec (item_value it) (Z.to_nat (valuelen_ it)) b3 Hb3) as (b4 & -> & Hb4 & Hc4 & _); [lia|].
  exists b4. split; [done|]. split; [done|]. rewrite Hc4, Hc3, Hc2, Hc1, (take_ge (item_value it)) by lia. unfold item_text.
  rewrite <- !app_assoc. f_equal. cbn [app flat_map stream_item_text]. do 2 f_equal.
  rewrite <- !app_assoc. f_equal. cbn [app]. f_equal. rewrite <- !app_assoc. f_equal.
  destruct cas; cbn [app flat_map stream_item_text]; rewrite ?app_nil_r, <- ?app_assoc; cbn [app]; rewrite <- ?app_assoc; done.
Qed.

Section Memcached.
Context (hash_range : bytes -> Z) (memory : nat -> bytes) (startTime_ : Z) (outputWritable : nat -> nat).
Hypothesis memory_length : forall n, length (memory n) = n.

Abbreviation makeItem := (makeItem hash_range memory).
Abbreviation resetKey := (resetKey hash_range).

Lemma makeItem_spec key flags exptime valuelen cas :
  length key <= 250 -> (2 <= valuelen <= 1048578)%Z -> (0 <= flags < 2 ^ 32)%Z -> (0 <= cas < 2 ^ 64)%Z ->
  exists it, makeItem key flags exptime valuelen cas = Ok it /\ item_wf it
    /\ keylen_ it = Z.of_nat (length key) /\ flags_ it = flags /\ valuelen_ it = valuelen
    /\ receivedBytes_ it = Z.of_nat (length key) /\ hash_ it = hash_range key /\ item_key it = key.
Proof.
  intros Hk Hv Hf Hc. unfold Memcached.makeItem. cbn [valuelen_ receivedBytes_]. unfold totalLen. cbn [keylen_ valuelen_].
  rewrite (proj2 (Z.leb_le 2 _)), (proj2 (Z.ltb_lt 0 _)) by lia. run_res.
  rewrite item_append_spec; unfold totalLen; cbn [receivedBytes_ keylen_ valuelen_ item_data_]; rewrite ?memory_length; try lia.
  eexists. split; [done|].
  assert (Hd : length (patched (Z.to_nat 0) key (memory (Z.to_nat (Z.of_nat (length key) + valuelen))))
               = Z.to_nat (Z.of_nat (length key) + valuelen)).
  { rewrite length_patched; rewrite memory_length; [done | simpl; lia]. }
  split; [|split_and!; try done].
  - split; unfold totalLen; cbn [set_received keylen_ valuelen_ item_data_ receivedBytes_ flags_ cas_]; try lia.
  - unfold item_key. cbn [set_received keylen_ item_data_]. unfold patched. rewrite Nat2Z.id. simpl. by rewrite take_app_length.
Qed.

Lemma resetKey_spec k it :
  needle_wf it -> length k <= 250 ->
  exists it', resetKey k it = Ok it' /\ needle_wf it' /\ item_key it' = k /\ hash_ it' = hash_range k.
Proof.
  intros [Hv Hd] Hk. unfold Memcached.resetKey. rewrite (proj2 (Nat.leb_le _ _)) by done. run_res.
  rewrite item_append_spec; unfold totalLen; cbn [receivedBytes_ keylen_ valuelen_ item_data_]; rewrite ?Hd; try lia.
  run_res. eexists. split; [done|]. split; [|split; [|done]].
  - split; cbn [set_received valuelen_ item_data_]; [done|]. rewrite length_patched; [done | simpl; lia].
  - unfold item_key. cbn [set_received keylen_ item_data_]. unfold patched. rewrite Nat2Z.id. simpl. by rewrite take_app_length.
Qed.

(** ** The tables *)
Definition shard_index (k : bytes) : nat := Z.to_nat (hash_range k mod Z.of_nat kShards).
Definition cached (v : MemcacheServer) (k : bytes) : option Item := shards_ v !! shard_index k ≫= fun items => items !! k.

(** What is stored is whole, under its key. *)
Definition stored (k : bytes) (it : Item) : Prop :=
  item_wf it /\ receivedBytes_ it = totalLen it /\ item_key it = k.

Record server_wf (v : MemcacheServer) : Prop := {
  sw_shards : length (shards_ v) = kShards;
  sw_stored k it : cached v k = Some it -> stored k it
}.

Lemma shard_index_bound k : shard_index k < kShards.
Proof.
  unfold shard_index. pose proof (Z.mod_pos_bound (hash_range k) (Z.of_nat kShards) ltac:(done)). lia.
Qed.

Lemma shard_there v k : server_wf v -> exists items, shards_ v !! shard_index k = Some items /\ items !! k = cached v k.
Proof.
  intros [Hl _]. destruct (lookup_lt_is_Some_2 (shards_ v) (shard_index k)) as [items E]; [rewrite Hl; apply shard_index_bound|].
  exists items. split; [done|]. unfold cached. by rewrite E.
Qed.

Lemma shard_of_key it k : hash_ it = hash_range k -> shard_of it = shard_index k.
Proof. intros E. unfold shard_of, shard_index. by rewrite E. Qed.

Lemma cached_set v k f items k' :
  shards_ v !! shard_index k = Some items -> (forall k', k' <> k -> f items !! k' = items !! k') ->
  cached (set_shard (shard_index k) (f items) v) k' = if decide (k' = k) then f items !! k else cached v k'.
Proof.
  intros E Hf. unfold cached, set_shard. cbn [shards_]. destruct (decide (k' = k)) as [->|Hne].
  - rewrite list_lookup_insert_eq by (by eapply lookup_lt_Some). done.
  - destruct (decide (shard_index k' = shard_index k)) as [Ei|Ei].
    + rewrite Ei, list_lookup_insert_eq by (by eapply lookup_lt_Some). rewrite E. simpl. by apply Hf.
    + by rewrite list_lookup_insert_ne by done.
Qed.

Lemma getItem_spec needle k v :
  server_wf v -> item_key needle = k -> hash_ needle = hash_range k -> getItem needle v = Ok (cached v k).
Proof.
  intros Hv Hk Hh. unfold getItem. rewrite (shard_of_key _ k Hh), Hk.
  destruct (shard_there v k Hv) as (items & -> & <-). done.
Qed.

Lemma deleteItem_spec needle k v :
  server_wf v -> item_key needle = k -> hash_ needle = hash_range k ->
  exists v', deleteItem needle v = Ok (bool_decide (is_Some (cached v k)), v') /\ server_wf v' /\ g_cas v' = g_cas v
    /\ forall k', cached v' k' = if decide (k' = k) then None else cached v k'.
Proof.
  intros Hv Hk Hh. unfold deleteItem. rewrite (shard_of_key _ k Hh), Hk.
  destruct (shard_there v k Hv) as (items & E & <-). rewrite E. run_res. eexists. split; [done|].
  assert (Hc : forall k', cached (set_shard (shard_index k) (delete k items) v) k' = if decide (k' = k) then None else cached v k').
  { intros k'. rewrite (cached_set v k (delete k)); [by rewrite lookup_delete_eq | done | intros; by apply lookup_delete_ne]. }
  split; [|by split]. split; [unfold set_shard; cbn [shards_]; rewrite length_insert; apply Hv|].
  intros k' it. rewrite Hc. destruct (decide (k' = k)); [done|]. apply Hv.
Qed.

(** A [set], or an [add] of a key that is not there. *)
Lemma storeItem_stores it k policy v :
  server_wf v -> stored k it -> hash_ it = hash_range k ->
  policy = kSet \/ policy = kAdd /\ cached v k = None ->
  exists v', storeItem it policy v = Ok (true, bool_decide (is_Some (cached v k)), v') /\ server_wf v'
    /\ g_cas v' = (incrementAndGet (g_cas v)).2
    /\ forall k', cached v' k' = if decide (k' = k) then Some (setCas (wrapU 64 (incrementAndGet (g_cas v)).1) it) else cached v k'.
Proof.
  intros Hv (Hwf & Hr & Hk) Hh Hp. unfold storeItem. rewrite neededBytes_wf, Hr, Z.sub_diag by (rewrite Hr; lia). run_res.
  rewrite (shard_of_key _ k Hh), Hk. destruct (shard_there v k Hv) as (items & E & Hi). rewrite E. run_res. rewrite Hi.
  destruct (incrementAndGet (g_cas v)) as [n c]. cbn [fst snd]. set (it' := setCas (wrapU 64 n) it).
  assert (Hit : stored k it').
  { destruct Hwf as [Hkl Hvl Hd Hrb Hfl Hca]. split; [|done]. split; try done. exact (wrapU_bound 64 n ltac:(lia)). }
  set (v1 := set_shard (shard_index k) (<[k := it']> items) (mkServer (shards_ v) c)).
  assert (Hc : forall k', cached v1 k' = if decide (k' = k) then Some it' else cached v k').
  { intros k'. unfold v1. rewrite (cached_set _ k (fun m => <[k := it']> m)); [by rewrite lookup_insert_eq | done|].
    intros; by apply lookup_insert_ne. }
  exists v1. split; [|split; [|split; [done|exact Hc]]].
  - destruct Hp as [-> | [-> Hn]].
    + destruct (bool_decide (is_Some (cached v k))); [|done]. unfold v1. by rewrite insert_delete_eq.
    + rewrite Hn. by rewrite bool_decide_eq_false_2 by (by intros [? ?]).
  - split; [unfold v1, set_shard; cbn [shards_]; rewrite length_insert; apply Hv|].
    intros k' x. rewrite Hc. destruct (decide (k' = k)) as [->|]; [intros [= <-]; done | apply Hv].
Qed.

(** Everything else leaves the tables as they are. *)
Lemma storeItem_keeps it k policy v :
  server_wf v -> stored k it -> hash_ it = hash_range k ->
  policy <> kSet -> (policy = kAdd -> is_Some (cached v k)) ->
  storeItem it policy v = Ok (negb (bool_decide (policy = kAdd)), bool_decide (is_Some (cached v k)), v).
Proof.
  intros Hv (Hwf & Hr & Hk) Hh Hp Ha. unfold storeItem. rewrite neededBytes_wf, Hr, Z.sub_diag by (rewrite Hr; lia). run_res.
  rewrite (shard_of_key _ k Hh), Hk. destruct (shard_there v k Hv) as (items & E & Hi). rewrite E. run_res. rewrite Hi.
  destruct (incrementAndGet (g_cas v)) as [n c]. destruct policy; try done.
  by rewrite (bool_decide_eq_true_2 (is_Some _)) by auto.
Qed.

(** ** Sessions stay well formed *)
Definition receiving (k : bytes) (it : Item) : Prop :=
  item_wf it /\ (keylen_ it <= receivedBytes_ it < totalLen it)%Z /\ item_key it = k /\ hash_ it = hash_range k.

Record session_base (s : Session) : Prop := {
  sb_protocol : protocol_ s = kAscii;
  sb_needle : needle_wf (needle_ s);
  sb_output : buf_inv (outputBuf_ s)
}.

Definition session_phase (s : Session) : Prop :=
  match state_ s with
  | kNewCommand => command_ s = [] /\ noreply_ s = false /\ policy_ s = kInvalid /\ currItem_ s = None /\ bytesToDiscard_ s = 0%Z
  | kReceiveValue => exists k it, currItem_ s = Some it /\ receiving k it
  | kDiscardValue => currItem_ s = None /\ (0 < bytesToDiscard_ s)%Z
  end.

Definition session_valid (w : MemcacheServer * Session) : Prop :=
  server_wf w.1 /\ session_base w.2 /\ session_phase w.2.

(** What a request leaves behind. *)
Definition request_post (r : bool * MemcacheServer * Session * list session_event) : Prop :=
  let '(finished, v, s, _) := r in
  server_wf v /\ session_base s /\ if finished : bool then state_ s = kNewCommand else session_phase s.

Definition no_fuel (f : fault) : Prop := f <> OutOfFuel.

Lemma span_left p l : Forall (fun c => p c = true) (span p l).1.
Proof.
  induction l as [|c l IH]; simpl; [constructor|]. destruct (p c) eqn:E; [|constructor].
  destruct (span p l) as [a b]. by constructor.
Qed.

Lemma strtoull_bound l : (0 <= (strtoull l).1 < 2 ^ 64)%Z.
Proof.
  unfold strtoull. destruct (span is_space l) as [blanks l1].
  assert (H : forall (negative : bool) n l2, let r := (let (ds, _) := span is_digit l2 in
    if length ds =? 0 then (0%Z, 0)
    else (if (kMaxULL <? undec ds)%Z then kMaxULL else if negative then wrapU 64 (- undec ds) else undec ds,
          n + length ds)) in (0 <= r.1 < 2 ^ 64)%Z).
  { intros negative n l2 r. unfold r. clear r. pose proof (span_left is_digit l2) as Hd. destruct (span is_digit l2) as [ds rest]. cbn [fst] in Hd.
    destruct (length ds =? 0); cbn [fst]; [lia|]. pose proof (undec_nonneg ds Hd). unfold kMaxULL.
    destruct (Z.ltb_spec (2 ^ 64 - 1) (undec ds)); [lia|]. destruct negative; [|lia]. apply wrapU_bound. lia. }
  destruct l1 as [|c l1]; [exact (H false (length blanks + 0) [])|]. destruct (Ascii.eqb c "-"); [exact (H true (length blanks + 1) l1)|].
  destruct (Ascii.eqb c "+"); [exact (H false (length blanks + 1) l1) | exact (H false (length blanks + 0) (c :: l1))].
Qed.

Lemma reader_read_bound ts x ts' : reader_read ts = Some (x, ts') -> (0 <= x < 2 ^ 64)%Z.
Proof.
  unfold reader_read. destruct ts as [|t ts]; [done|]. pose proof (strtoull_bound t) as H.
  destruct (strtoull t) as [y n]. destruct (n =? length t); [|done]. intros [= <- <-]. exact H.
Qed.

Lemma read_fields_bound good ts :
  let '(_, flags, _, bytes_, _) := read_fields good ts in (0 <= flags < 2 ^ 32)%Z /\ (bytes_ < 2 ^ 31)%Z.
Proof.
  unfold read_fields. assert (H : forall x, (0 <= wrapU 32 x < 2 ^ 32)%Z) by (intros x; by apply wrapU_bound).
  assert (H' : forall x, (wrapS 32 x < 2 ^ 31)%Z).
  { intros x. unfold wrapS. specialize (H x). case_if; simpl in *; lia. }
  destruct good; [|lia]. destruct (reader_read ts) as [[x ts1]|]; [|lia].
  destruct (reader_read ts1) as [[y ts2]|]; [|specialize (H x); lia].
  destruct (reader_read ts2) as [[z ts3]|]; [|specialize (H x); lia]. specialize (H' z). specialize (H x). lia.
Qed.

Lemma resetKey_ok k s :
  session_base s -> length k <= 250 ->
  exists it, resetKey k (needle_ s) = Ok it /\ session_base (set_needle it s) /\ item_key it = k /\ hash_ it = hash_range k.
Proof.
  intros [Hp Hn Ho] Hk. destruct (resetKey_spec k (needle_ s) Hn Hk) as (it & E & Hit & H).
  exists it. split; [done|]. split; [by split|]. done.
Qed.

Abbreviation doUpdate := (doUpdate hash_range memory startTime_).

Lemma makeItem_short key flags exptime valuelen cas : (valuelen < 2)%Z -> makeItem key flags exptime valuelen cas = Fault AssertFailed.
Proof. intros H. unfold Memcached.makeItem. cbn [valuelen_]. by rewrite (proj2 (Z.leb_gt _ _)) by lia. Qed.

Lemma doUpdate_wf ts v s :
  server_wf v -> session_base s -> state_ s = kNewCommand -> currItem_ s = None ->
  wp no_fuel (doUpdate ts v s) request_post.
Proof.
  intros Hv Hs Hst Hcur. unfold Memcached.doUpdate. destruct (policy_of (command_ s)) as [policy|]; run_res; [|done].
  destruct ts as [|key ts]; run_res; [done|].
  pose proof (read_fields_bound (length key <=? kLongestKeySize) ts) as Hb.
  assert (Hg : (read_fields (length key <=? kLongestKeySize) ts).1.1.1.1 = true -> length key <= 250).
  { destruct (length key <=? kLongestKeySize) eqn:E; [|done]. intros _. by apply Nat.leb_le in E. }
  destruct (read_fields (length key <=? kLongestKeySize) ts) as [[[[good flags] exptime] bytes_] ts']. cbn [fst] in Hg.
  set (s1 := set_policy policy s).
  assert (Hcas : exists good' cas, (if good && bool_decide (policy_ s1 = kCas)
      then match reader_read ts' with Some (x, _) => (true, x) | None => (false, 0%Z) end else (good, 0%Z)) = (good', cas)
      /\ (good' = true -> good = true) /\ (0 <= cas < 2 ^ 64)%Z).
  { destruct (good && bool_decide (policy_ s1 = kCas)) eqn:E; [|by exists good, 0%Z]. apply andb_true_iff in E as [-> _].
    destruct (reader_read ts') as [[x ts2]|] eqn:Er; [|by exists false, 0%Z]. exists true, x. split; [done|].
    split; [done|]. by eapply reader_read_bound. }
  destruct Hcas as (good' & cas & -> & Hgood & Hc). destruct good'; run_res; cbn [negb].
  - specialize (Hg (Hgood eq_refl)). destruct (Z.ltb_spec (1024 * 1024) bytes_) as [Hbig|Hsmall].
    + destruct (resetKey_ok key s1) as (needle & -> & Hs1 & Hk & Hh); [by destruct Hs; split | done |]. run_res.
      destruct (deleteItem_spec (needle_ (set_needle needle s1)) key v Hv Hk Hh) as (v' & -> & Hv' & _). run_res.
      unfold add_int. case_if; run_res; [|done]. split; [done|]. split; [by destruct Hs1; split|].
      split; [done|]. cbn. lia.
    + unfold add_int. case_if; run_res; [|done]. destruct (Z.ltb_spec (bytes_ + 2) 2) as [Hneg|Hpos].
      { by rewrite makeItem_short. }
      destruct (makeItem_spec key flags (relative_exptime startTime_ exptime) (bytes_ + 2) cas) as
        (it & -> & Hit & Hkl & _ & Hvl & Hr & Hh & Hk); [done | lia | lia | done|]. run_res.
      split; [done|]. split; [by destruct Hs; split|]. exists key, it. split; [done|]. split; [done|].
      split; [|done]. unfold totalLen. lia.
  - split; [done|]. split; [by destruct Hs; split|]. done.
Qed.

Lemma get_keys_wf cas keys v s :
  server_wf v -> session_base s -> exists good s', get_keys hash_range cas keys v s = Ok (good, s') /\ session_base s'
    /\ state_ s' = state_ s.
Proof.
  intros Hv. revert s; induction keys as [|key keys IH]; intros s Hs; cbn [get_keys]; [by exists true, s|].
  destruct (length key <=? kLongestKeySize) eqn:Hk; cbn [negb]; [|by exists false, s]. apply Nat.leb_le in Hk.
  destruct (resetKey_ok key s Hs Hk) as (needle & -> & Hs1 & Hkey & Hh). run_res.
  rewrite (getItem_spec _ key v) by done. run_res.
  assert (Ho : exists out, match cached v key with Some it => item_output cas it (outputBuf_ (set_needle needle s))
                           | None => Ok (outputBuf_ (set_needle needle s)) end = Ok out /\ buf_inv out).
  { destruct (cached v key) as [it|] eqn:Ec; [|eexists; split; [done | apply Hs1]].
    destruct (sw_stored _ Hv _ _ Ec) as (Hit & _). destruct (item_output_spec cas it _ Hit (sb_output _ Hs1)) as (out & E & Hout & _).
    by exists out. }
  destruct Ho as (out & -> & Hout). run_res.
  destruct (IH (set_outputBuf out (set_needle needle s))) as (good & s' & E & Hs' & Hst); [by destruct Hs1; split|].
  exists good, s'. by rewrite E.
Qed.

Lemma doGet_wf cas keys v s :
  server_wf v -> session_base s -> exists s' events, doGet hash_range outputWritable cas keys v s = Ok (s', events)
    /\ session_base s' /\ state_ s' = state_ s.
Proof.
  intros Hv Hs. unfold doGet. destruct (get_keys_wf cas keys v s Hv Hs) as (good & s' & -> & Hs' & Hst). run_res.
  destruct good; cbn [negb]; [|by do 2 eexists].
  destruct (append_str_spec (str "END" ++ kCRLF) (outputBuf_ s') (sb_output _ Hs')) as (out & -> & Hout & _). run_res.
  do 2 eexists. split; [done|]. destruct Hs' as [Hp Hn Ho]. destruct (connected_ s'); (split; [|done]); split; try done.
  by apply retrieveAll_inv.
Qed.

Lemma doDelete_wf ts v s :
  server_wf v -> session_base s ->
  wp no_fuel (doDelete hash_range ts v s) (fun r => let '(v, s', _) := r in server_wf v /\ session_base s' /\ state_ s' = state_ s).
Proof.
  intros Hv Hs. unfold doDelete. apply wp_bind. destruct (bool_decide (command_ s = str "delete")); [|done]. run_res. cbn [wp].
  destruct ts as [|key ts]; run_res; [done|].
  destruct (length key <=? kLongestKeySize) eqn:Hk; cbn [negb]; [|done]. apply Nat.leb_le in Hk.
  destruct (match ts with t :: _ => negb (bool_decide (t = str "0")) | [] => false end); [done|].
  destruct (resetKey_ok key s Hs Hk) as (needle & -> & Hs1 & Hkey & Hh). run_res.
  destruct (deleteItem_spec (needle_ (set_needle needle s)) key v Hv Hkey Hh) as (v' & -> & Hv' & _). by run_res.
Qed.

Abbreviation processRequest := (processRequest hash_range memory startTime_ outputWritable).
Abbreviation session_body := (session_body hash_range memory startTime_ outputWritable).

Lemma processRequest_wf request v s :
  server_wf v -> session_base s -> state_ s = kNewCommand -> session_phase s ->
  wp no_fuel (processRequest request v s) request_post.
Proof.
  intros Hv Hs Hst Hph. unfold session_phase in Hph. rewrite Hst in Hph. destruct Hph as (Hc & Hn & Hp & Hcur & Hd).
  unfold Memcached.processRequest. rewrite Hc, Hn, Hp, Hcur, Hd. run_res.
  rewrite (bool_decide_eq_true_2 (@nil char = [])), (bool_decide_eq_true_2 (kInvalid = kInvalid)) by done. run_res.
  change (0 =? 0)%Z with true. run_res.
  set (noreply := (8 <=? length request) && _). set (line := if noreply then _ else _).
  assert (Hbase : forall command n p c d, session_base (set_request command n p c d (count_request s)))
    by (intros; by destruct Hs; split).
  destruct (tokens line) as [|command ts]; [split; [done|]; split; [apply Hbase | done]|].
  unfold run_command. destruct (bool_decide (is_Some (policy_of command))); [apply doUpdate_wf; [done | apply Hbase | done | exact Hcur]|].
  set (s1 := set_request command _ _ _ _ _). assert (Hs1 : session_base s1 /\ state_ s1 = kNewCommand) by (split; [apply Hbase | done]).
  clearbody s1. destruct Hs1 as [Hs1 Hst1].
  destruct (bool_decide (command = str "get") || bool_decide (command = str "gets")).
  { destruct (doGet_wf (bool_decide (command = str "gets")) ts v s1 Hv Hs1) as (s2 & events & -> & Hs2 & Hst2).
    run_res. split; [done|]. split; [done | congruence]. }
  destruct (bool_decide (command = str "delete")).
  { apply wp_bind. eapply wp_mono; [by apply doDelete_wf|]. intros [[v' s'] events] (Hv' & Hs' & Hst').
    split; [done|]. split; [done | congruence]. }
  destruct (bool_decide (command = str "version")); [done|].
  destruct (bool_decide (command = str "quit")); [split; [done|]; split; [by destruct Hs1; split | done]|].
  destruct (bool_decide (command = str "shutdown")); [split; [done|]; split; [by destruct Hs1; split | done]|]. done.
Qed.

(** ** The session as a decoder

    It waits where the code shuts a connection down whose line is longer than
    1024 characters. *)
#[local] Instance session_decoder : Decoder (MemcacheServer * Session) session_event := fun w l =>
  let (v, s) := w in
  match l with
  | [] => Wait
  | _ =>
      match state_ s with
      | kNewCommand =>
          match find_sub kCRLF l with
          | Some i =>
              let len := wrapS 32 (Z.of_nat i) in
              if (len <? 0)%Z then Fail OutOfBounds
              else match processRequest (take (Z.to_nat len) l) v s with
                   | Ok (finished, v, s, events) => Take (v, if finished : bool then resetRequest s else s) (i + 2) events
                   | Fault f => Fail f
                   end
          | None => Wait
          end
      | kReceiveValue =>
          match currItem_ s with
          | Some it =>
              let avail := Z.to_nat (Z.min (Z.of_nat (length l)) (neededBytes it)) in
              match item_append (take avail l) it with
              | Ok it =>
                  if (neededBytes it =? 0)%Z then
                    match finish_value it v s with
                    | Ok (v, events) => Take (v, set_state kNewCommand (resetRequest s)) avail events
                    | Fault f => Fail f
                    end
                  else Take (v, set_currItem (Some it) s) avail []
              | Fault f => Fail f
              end
          | None => Fail AssertFailed
          end
      | kDiscardValue =>
          if (Z.of_nat (length l) <? bytesToDiscard_ s)%Z
          then Take (v, set_discard (bytesToDiscard_ s - Z.of_nat (length l)) s) (length l) []
          else Take (v, set_state kNewCommand (resetRequest s)) (Z.to_nat (bytesToDiscard_ s)) []
      end
  end.

(** No line is too long to wait for its end. *)
Definition short_line (w : MemcacheServer * Session) (l : bytes) : Prop := state_ w.2 = kNewCommand -> length l <= 1024.

(** The item after [data] was received. *)
Definition received (data : bytes) (it : Item) : Item :=
  set_received (receivedBytes_ it + Z.of_nat (length data)) (patched (Z.to_nat (receivedBytes_ it)) data (item_data_ it)) it.

Lemma total_bound it : item_wf it -> (0 <= totalLen it < 2 ^ 63)%Z.
Proof. intros [Hk Hv _ _ _ _]. unfold totalLen. lia. Qed.

Lemma append_received k data it :
  receiving k it -> (receivedBytes_ it + Z.of_nat (length data) <= totalLen it)%Z ->
  item_append data it = Ok (received data it).
Proof.
  intros (Hwf & Hr & _) Hd. pose proof (total_bound it Hwf). destruct Hwf. apply item_append_spec; lia.
Qed.

Lemma received_wf k data it :
  receiving k it -> (receivedBytes_ it + Z.of_nat (length data) <= totalLen it)%Z ->
  item_wf (received data it) /\ item_key (received data it) = k /\ (keylen_ it <= receivedBytes_ (received data it))%Z.
Proof.
  intros (Hwf & Hr & Hk & Hh) Hd. destruct Hwf as [Hkl Hvl Hdl Hrb Hf Hc]. unfold totalLen in *. split; [|split].
  - split; unfold totalLen, received; cbn [set_received keylen_ valuelen_ item_data_ receivedBytes_ flags_ cas_]; try lia.
    rewrite length_patched; lia.
  - rewrite <- Hk. unfold item_key, received, patched. cbn [set_received keylen_ item_data_].
    rewrite take_app_le by (rewrite length_take; lia). rewrite take_take. f_equal. lia.
  - unfold received. cbn [set_received receivedBytes_]. lia.
Qed.

Lemma received_app a b it :
  (0 <= receivedBytes_ it)%Z -> (receivedBytes_ it + Z.of_nat (length (a ++ b)) <= Z.of_nat (length (item_data_ it)))%Z ->
  received b (received a it) = received (a ++ b) it.
Proof.
  intros H0 Hl. unfold received. cbn [set_received receivedBytes_ item_data_ keylen_ flags_ rel_exptime_ valuelen_ cas_ hash_].
  rewrite length_app in Hl |- *. unfold set_received. cbn [keylen_ flags_ rel_exptime_ valuelen_ cas_ hash_]. f_equal; [lia|].
  unfold patched. set (r := Z.to_nat (receivedBytes_ it)).
  replace (Z.to_nat (receivedBytes_ it + Z.of_nat (length a))) with (r + length a) by lia.
  rewrite length_app. set (d := item_data_ it) in *. set (n := r + length a).
  assert (Hr : length (take r d ++ a) = n) by (rewrite length_app, length_take; lia).
  rewrite (app_assoc (take r d) a). rewrite <- Hr at 1. rewrite take_app_length.
  assert (Hd : drop (n + length b) ((take r d ++ a) ++ drop n d) = drop (r + (length a + length b)) d).
  { rewrite <- drop_drop. rewrite <- Hr at 1. rewrite drop_app_length, drop_drop. f_equal. lia. }
  rewrite Hd. by rewrite <- !app_assoc.
Qed.

Lemma endsWithCRLF_total it : item_wf it -> exists b, endsWithCRLF it = Ok b.
Proof.
  intros [Hk Hv Hd Hr _ _]. unfold endsWithCRLF, data_at. unfold totalLen in *.
  case_if; [|by exists false]. destruct (lookup_lt_is_Some_2 (item_data_ it) (Z.to_nat (keylen_ it + valuelen_ it - 2))) as [c ->]; [lia|].
  run_res. destruct (Ascii.eqb c CR); [|by exists false].
  destruct (lookup_lt_is_Some_2 (item_data_ it) (Z.to_nat (keylen_ it + valuelen_ it - 1))) as [d ->]; [lia|]. run_res. by eexists.
Qed.

Lemma storeItem_wf k it policy v :
  server_wf v -> stored k it -> hash_ it = hash_range k ->
  exists r e v', storeItem it policy v = Ok (r, e, v') /\ server_wf v'.
Proof.
  intros Hv Hit Hh.
  destruct (decide (policy = kSet \/ policy = kAdd /\ cached v k = None)) as [Hp|Hp].
  - destruct (storeItem_stores it k policy v Hv Hit Hh Hp) as (v' & -> & Hv' & _). by do 3 eexists.
  - rewrite (storeItem_keeps it k policy v Hv Hit Hh); [by do 3 eexists | tauto|].
    intros ->. destruct (cached v k); [by eexists | tauto].
Qed.

Lemma finish_value_wf k it v s :
  server_wf v -> stored k it -> hash_ it = hash_range k -> exists v' events, finish_value it v s = Ok (v', events) /\ server_wf v'.
Proof.
  intros Hv Hit Hh. unfold finish_value. destruct (endsWithCRLF_total it) as [b ->]; [apply Hit|]. run_res.
  destruct b; [|by do 2 eexists]. destruct (storeItem_wf k it (policy_ s) v Hv Hit Hh) as (r & e & v' & -> & Hv'). run_res. by do 2 eexists.
Qed.

(** A round of the decoder while a value comes in. *)
Lemma decode_receive v s k it l :
  server_wf v -> state_ s = kReceiveValue -> currItem_ s = Some it -> receiving k it -> l <> [] ->
  if (receivedBytes_ it + Z.of_nat (length l) <? totalLen it)%Z then
    decode (v, s) l = Take (v, set_currItem (Some (received l it)) s) (length l) [] /\ receiving k (received l it)
  else let n := Z.to_nat (totalLen it - receivedBytes_ it) in
       exists v' events, finish_value (received (take n l) it) v (set_currItem (Some (received (take n l) it)) s) = Ok (v', events)
         /\ server_wf v' /\ stored k (received (take n l) it)
         /\ decode (v, s) l = Take (v', set_state kNewCommand (resetRequest s)) n events.
Proof.
  intros Hv Hst Hcur Hit Hl. pose proof Hit as (Hwf & Hr & Hk & Hh). pose proof (total_bound it Hwf) as Ht.
  pose proof (iw_received _ Hwf) as Hrb. assert (Hn : neededBytes it = (totalLen it - receivedBytes_ it)%Z) by (apply neededBytes_wf; lia).
  assert (Hdec : decode (v, s) l = match item_append (take (Z.to_nat (Z.min (Z.of_nat (length l)) (neededBytes it))) l) it with
     | Ok it' =>
         if (neededBytes it' =? 0)%Z then
           match finish_value it' v s with
           | Ok (v, events) => Take (v, set_state kNewCommand (resetRequest s)) (Z.to_nat (Z.min (Z.of_nat (length l)) (neededBytes it))) events
           | Fault f => Fail f
           end
         else Take (v, set_currItem (Some it') s) (Z.to_nat (Z.min (Z.of_nat (length l)) (neededBytes it))) []
     | Fault f => Fail f
     end).
  { unfold decode, session_decoder. destruct l; [done|]. by rewrite Hst, Hcur. }
  rewrite Hdec, Hn. destruct (Z.ltb_spec (receivedBytes_ it + Z.of_nat (length l)) (totalLen it)) as [Hlt|Hge].
  - rewrite Z.min_l, Nat2Z.id, firstn_all by lia. rewrite (append_received k) by (done || lia).
    destruct (received_wf k l it Hit) as (Hwf' & Hk' & Hr'); [lia|].
    rewrite neededBytes_wf by (unfold received, totalLen in *; cbn [set_received keylen_ valuelen_ receivedBytes_]; lia).
    unfold received at 1 2. unfold totalLen. cbn [set_received keylen_ valuelen_ receivedBytes_].
    fold (totalLen it). rewrite (proj2 (Z.eqb_neq _ _)) by lia. split; [done|]. split; [done|].
    split; [|done]. split; [exact Hr'|]. unfold received, totalLen in *. cbn [set_received keylen_ valuelen_ receivedBytes_]. lia.
  - intros n. rewrite Z.min_r by lia. fold n.
    assert (Hlen : length (take n l) = n) by (rewrite length_take; lia).
    destruct (received_wf k (take n l) it Hit) as (Hwf' & Hk' & Hr'); [lia|].
    rewrite (append_received k) by (done || lia).
    assert (Hfull : receivedBytes_ (received (take n l) it) = totalLen (received (take n l) it)).
    { unfold received, totalLen in *. cbn [set_received keylen_ valuelen_ receivedBytes_]. lia. }
    rewrite neededBytes_wf, Hfull, Z.sub_diag by (rewrite Hfull; lia). cbn match.
    destruct (finish_value_wf k (received (take n l) it) v s Hv) as (v' & events & E & Hv'); [done | done|].
    exists v', events. rewrite E. split; [exact E|]. by split.
Qed.

Lemma session_take w l w' n out :
  session_valid w -> decode w l = Take w' n out -> session_valid w' /\ 0 < n <= length l.
Proof.
  destruct w as [v s], w' as [v' s']. intros (Hv & Hs & Hph). cbn [fst snd] in *. unfold session_phase in Hph.
  destruct l as [|c l]; [done|]. remember (c :: l) as d eqn:Ed. assert (Hd : d <> []) by (by subst). clear c l Ed.
  destruct (state_ s) eqn:Hst.
  - unfold decode, session_decoder. destruct d as [|c d]; [done|]. remember (c :: d) as l. rewrite Hst.
    destruct (find_sub kCRLF l) as [i|] eqn:Ei; [|done]. pose proof (find_crlf_bound _ _ Ei) as Hi.
    case_if; [done|].
    pose proof (processRequest_wf (take (Z.to_nat (wrapS 32 (Z.of_nat i))) l) v s Hv Hs Hst) as Hw.
    unfold session_phase in Hw. rewrite Hst in Hw. specialize (Hw Hph).
    destruct (processRequest _ v s) as [[[[fin v1] s1] ev]|f]; [|done]. destruct Hw as (Hv1 & Hs1 & Hp1).
    intros [= <- <- <- <-]. split; [|lia]. split; [done|]. cbn [snd].
    destruct fin; [|by split]. split; [by destruct Hs1; split|]. unfold session_phase.
    change (state_ (resetRequest s1)) with (state_ s1). by rewrite Hp1.
  - destruct Hph as (k & it & Hcur & Hit). pose proof (decode_receive v s k it d Hv Hst Hcur Hit Hd) as H.
    destruct (Z.ltb_spec (receivedBytes_ it + Z.of_nat (length d)) (totalLen it)).
    + destruct H as [-> Hit']. intros [= <- <- <- <-]. split; [|destruct d; simpl in *; [done | lia]].
      split; [done|]. split; [by destruct Hs; split|]. unfold session_phase. cbn [snd set_currItem set_request state_].
      rewrite Hst. by exists k, (received d it).
    + destruct H as (v1 & ev & _ & Hv1 & _ & ->). intros [= <- <- <- <-].
      destruct Hit as (_ & Hr & _). split; [|lia]. split; [done|]. split; [by destruct Hs; split | done].
  - unfold decode, session_decoder. destruct d as [|c d]; [done|]. remember (c :: d) as l eqn:El. rewrite Hst.
    assert (0 < length l) by (subst; simpl; lia). destruct Hph as [Hc0 Hd0].
    case_if; intros [= <- <- <- <-].
    + split; [|lia]. split; [done|]. split; [by destruct Hs; split|].
      unfold session_phase. cbn [snd set_discard set_request state_ currItem_ bytesToDiscard_]. rewrite Hst. split; [done | lia].
    + split; [|lia]. split; [done|]. split; [by destruct Hs; split | done].
Qed.

Lemma wrapS_le z : (0 <= z)%Z -> (wrapS 32 z <= z)%Z.
Proof.
  intros Hz. unfold wrapS, wrapU. pose proof (Z.mod_le z (2 ^ 32) Hz ltac:(lia)). case_if; lia.
Qed.

(** More bytes behind a line do not change what it does. *)
Lemma decode_line_app v s l d i :
  state_ s = kNewCommand -> find_sub kCRLF l = Some i -> decode (v, s) (l ++ d) = decode (v, s) l.
Proof.
  intros Hst Ei. pose proof (find_crlf_bound _ _ Ei) as Hi. unfold decode, session_decoder.
  destruct l as [|c l]; [done|]. cbn [app]. change (c :: l ++ d) with ((c :: l) ++ d).
  remember (c :: l) as m. rewrite Hst, Ei, (find_sub_app kCRLF m d i ltac:(done) Ei).
  case_if; [done|]. pose proof (wrapS_le (Z.of_nat i) ltac:(lia)). by rewrite take_app_le by lia.
Qed.

(** A value that comes in two parts. *)
Lemma decode_receive_app v s k it l d :
  server_wf v -> state_ s = kReceiveValue -> currItem_ s = Some it -> receiving k it -> l <> [] -> d <> [] ->
  (receivedBytes_ it + Z.of_nat (length l) < totalLen it)%Z ->
  decode (v, s) (l ++ d)
  = match decode (v, set_currItem (Some (received l it)) s) d with
    | Take w m out => Take w (length l + m) out
    | r => r
    end.
Proof.
  intros Hv Hst Hcur Hit Hl Hd Hlt. set (s1 := set_currItem (Some (received l it)) s).
  pose proof Hit as (Hwf & Hr & _). pose proof (iw_received _ Hwf) as Hrb. pose proof (iw_data _ Hwf) as Hdl.
  pose proof (decode_receive v s k it (l ++ d) Hv Hst Hcur Hit ltac:(by destruct l)) as H1.
  pose proof (decode_receive v s k it l Hv Hst Hcur Hit Hl) as H0. rewrite (proj2 (Z.ltb_lt _ _)) in H0 by done.
  destruct H0 as [_ Hit'].
  pose proof (decode_receive v s1 k (received l it) d Hv Hst eq_refl Hit' Hd) as H2.
  assert (E1 : receivedBytes_ (received l it) = (receivedBytes_ it + Z.of_nat (length l))%Z) by done.
  assert (E2 : totalLen (received l it) = totalLen it) by done. rewrite E1, E2 in H2.
  rewrite length_app in H1. replace (receivedBytes_ it + Z.of_nat (length l + length d))%Z
    with (receivedBytes_ it + Z.of_nat (length l) + Z.of_nat (length d))%Z in H1 by lia.
  destruct (Z.ltb_spec (receivedBytes_ it + Z.of_nat (length l) + Z.of_nat (length d)) (totalLen it)) as [Hlt2|Hge2].
  - destruct H1 as [-> _]. destruct H2 as [-> _]. unfold s1.
    by rewrite received_app by (rewrite ?length_app; lia).
  - destruct H1 as (v1 & ev1 & F1 & _ & _ & ->). destruct H2 as (v2 & ev2 & F2 & _ & _ & ->).
    set (n := Z.to_nat (totalLen it - receivedBytes_ it)) in *.
    set (m := Z.to_nat (totalLen it - (receivedBytes_ it + Z.of_nat (length l)))) in *.
    assert (En : n = length l + m) by lia.
    assert (Et : received (take m d) (received l it) = received (take n (l ++ d)) it).
    { rewrite En, take_app_add. apply received_app; rewrite ?length_app, ?length_take; lia. }
    rewrite Et in F2. assert (Ev : Ok (v1, ev1) = Ok (v2, ev2)) by (rewrite <- F1, <- F2; reflexivity).
    injection Ev as -> ->. rewrite En. done.
Qed.

Lemma decode_fails v s l f :
  session_valid (v, s) -> decode (v, s) l = Fail f -> state_ s = kNewCommand /\ is_Some (find_sub kCRLF l) /\ f <> OutOfFuel.
Proof.
  intros (Hv & Hs & Hph) E. cbn [fst snd] in *. unfold session_phase in Hph. destruct (decide (l = [])) as [->|Hl]; [done|].
  destruct (state_ s) eqn:Hst.
  - split; [done|]. revert E. unfold decode, session_decoder. destruct l as [|c l]; [done|]. remember (c :: l) as m.
    rewrite Hst. destruct (find_sub kCRLF m) as [i|]; [|done]. case_if; [intros [= <-]; by split|].
    pose proof (processRequest_wf (take (Z.to_nat (wrapS 32 (Z.of_nat i))) m) v s Hv Hs Hst) as Hw.
    unfold session_phase in Hw. rewrite Hst in Hw. specialize (Hw Hph).
    destruct (processRequest _ v s) as [[[[fin v1] s1] ev]|f']; [done|]. intros [= <-]. by split.
  - destruct Hph as (k & it & Hcur & Hit). pose proof (decode_receive v s k it l Hv Hst Hcur Hit Hl) as H.
    destruct (Z.ltb_spec (receivedBytes_ it + Z.of_nat (length l)) (totalLen it)).
    + destruct H as [H _]. by rewrite H in E.
    + destruct H as (v' & ev & _ & _ & _ & H). by rewrite H in E.
  - revert E. unfold decode, session_decoder. destruct l as [|c l]; [done|]. remember (c :: l) as m. rewrite Hst. by case_if.
Qed.

Lemma decode_no_break w l w' n out : decode w l <> Break w' n out.
Proof.
  destruct w as [v s]. unfold decode, session_decoder. destruct l; [done|].
  destruct (state_ s); repeat (case_match; try done).
Qed.

Lemma decode_discard v s l :
  state_ s = kDiscardValue -> l <> [] ->
  decode (v, s) l = if (Z.of_nat (length l) <? bytesToDiscard_ s)%Z
                    then Take (v, set_discard (bytesToDiscard_ s - Z.of_nat (length l)) s) (length l) []
                    else Take (v, set_state kNewCommand (resetRequest s)) (Z.to_nat (bytesToDiscard_ s)) [].
Proof. intros Hst Hl. unfold decode, session_decoder. destruct l; [done|]. by rewrite Hst. Qed.

#[local] Instance session_laws : DecoderLaws session_valid.
Proof.
  split.
  - apply session_take.
  - intros w l w' n out _ E. by apply decode_no_break in E.
  - by intros [v s].
  - intros [v s] l f Hw E. by eapply decode_fails in E as (_ & _ & E).
  - intros [v s] l d [v' s'] n out Hw E. pose proof (session_take _ _ _ _ _ Hw E) as [Hw' Hn]. destruct Hw as (Hv & Hs & Hph).
    cbn [fst snd] in *. unfold session_phase in Hph. assert (Hl : l <> []) by (destruct l; simpl in *; [lia | done]).
    destruct (state_ s) eqn:Hst.
    + left. rewrite <- E. destruct (find_sub kCRLF l) as [i|] eqn:Ei; [by eapply decode_line_app|].
      revert E. unfold decode at 1, session_decoder. destruct l as [|c l]; [done|]. by rewrite Hst, Ei.
    + destruct Hph as (k & it & Hcur & Hit). pose proof (decode_receive v s k it l Hv Hst Hcur Hit Hl) as H.
      destruct (Z.ltb_spec (receivedBytes_ it + Z.of_nat (length l)) (totalLen it)) as [Hlt|Hge].
      * right. destruct H as [H _]. rewrite H in E. injection E as <- <- <- <-. split; [done|].
        pose proof (decode_receive_app v s k it l d Hv Hst Hcur Hit Hl) as Happ.
        assert (Hne : d = [] \/ d <> []) by (destruct d; auto). destruct Hne as [->|Hne].
        { split_and!; try done; intros; discriminate. }
        specialize (Happ Hne Hlt). rewrite Happ. split_and!.
        -- intros Hwait. unfold decode, session_decoder in Hwait. destruct d as [|c d]; [done|].
           change (state_ (set_currItem (Some (received l it)) s)) with (state_ s) in Hwait. rewrite Hst in Hwait.
           repeat (case_match; try done).
        -- by intros s2 m out2 ->.
        -- intros s2 m out2 E. by apply decode_no_break in E.
        -- by intros f ->.
      * left. destruct H as (v1 & ev & F & _ & _ & H). rewrite H in E. rewrite <- E.
        pose proof (decode_receive v s k it (l ++ d) Hv Hst Hcur Hit ltac:(by destruct l)) as H2.
        rewrite length_app in H2. rewrite (proj2 (Z.ltb_ge _ _)) in H2 by lia.
        destruct H2 as (v2 & ev2 & F2 & _ & _ & ->). rewrite take_app_le in F2 by lia. rewrite F in F2. by injection F2 as -> ->.
    + destruct Hph as [Hc0 Hd0]. rewrite decode_discard in E by done. rewrite decode_discard by (done || by destruct l).
      rewrite length_app. destruct (Z.ltb_spec (Z.of_nat (length l)) (bytesToDiscard_ s)) as [Hlt|Hge]; injection E as <- <- <- <-.
      * right. split; [done|]. assert (Hne : d = [] \/ d <> []) by (destruct d; auto).
        destruct Hne as [->|Hne]; [split_and!; try done; intros; discriminate|].
        rewrite decode_discard by done. cbn [set_discard set_request bytesToDiscard_]. cbn [bytesToDiscard_].
        destruct (Z.ltb_spec (Z.of_nat (length d)) (bytesToDiscard_ s - Z.of_nat (length l))) as [Hlt2|Hge2].
        -- rewrite (proj2 (Z.ltb_lt _ _)) by lia. split_and!; try done. intros s2 m out2 [= <- <- <-]. do 2 f_equal.
           by rewrite Nat2Z.inj_add, Z.sub_add_distr.
        -- rewrite (proj2 (Z.ltb_ge _ _)) by lia. split_and!; try done. intros s2 m out2 [= <- <- <-]. f_equal. lia.
      * left. by rewrite (proj2 (Z.ltb_ge _ _)) by lia.
Qed.

#[local] Instance session_final : DecoderFinal session_valid.
Proof.
  split.
  - intros w l d w' n out _ E. by apply decode_no_break in E.
  - intros [v s] l d f Hw E. destruct (decode_fails _ _ _ _ Hw E) as (Hst & [i Ei] & _). rewrite <- E. by eapply decode_line_app.
Qed.

(** ** The session's handler is the decoder *)
Lemma session_implements n : implements_calm (session_body n) short_line session_valid.
Proof.
  intros [v s] b (Hv & Hs & Hph) Hb. cbn [fst snd] in *. unfold session_phase in Hph.
  unfold Memcached.session_body. rewrite <- length_content by done.
  pose proof (fun n H => range_prefix b n Hb H) as Hrange. rewrite <- length_content in Hrange by done.
  destruct (content b) as [|c d] eqn:Ec; [done|]. change (0 <? length (c :: d)) with true. cbn match.
  assert (Hdec : decode (v, s) (c :: d) = decode (v, s) (content b)) by (by rewrite Ec). rewrite Hdec. rewrite <- Ec in *. clear Hdec.
  assert (Hne : content b <> []) by (by rewrite Ec). clear c d Ec.
  destruct (state_ s) eqn:Hst.
  - unfold new_command. rewrite (sb_protocol _ Hs). run_res. rewrite (sb_protocol _ Hs).
    unfold findCRLF. fold (content b). unfold decode, session_decoder. destruct (content b) as [|c d] eqn:Ec; [done|].
    rewrite <- Ec in *. rewrite Hst. destruct (find_sub kCRLF (content b)) as [i|] eqn:Ei.
    + pose proof (find_crlf_bound _ _ Ei) as Hi. cbn [fmap option_fmap option_map].
      replace (peek b + i - peek b) with i by lia. pose proof (wrapS_le (Z.of_nat i) ltac:(lia)).
      case_if; [done|]. rewrite Hrange by lia.
      destruct (processRequest _ v s) as [[[[fin v1] s1] ev]|f]; run_res; [|done].
      destruct (retrieve_line b i Hb Ei) as (_ & b' & E & Hb' & Hc'). rewrite E. run_res. by exists b'.
    + cbn [fmap option_fmap option_map]. intros Hshort. unfold short_line in Hshort. specialize (Hshort Hst).
      rewrite <- length_content by done. by rewrite (proj2 (Nat.ltb_ge _ _)) by lia.
  - unfold receiveValue. destruct Hph as (k & it & Hcur & Hit). unfold decode, session_decoder.
    destruct (content b) as [|c d] eqn:Ec; [done|]. rewrite <- Ec in *. rewrite Hst, Hcur. run_res.
    rewrite <- length_content by done. set (n0 := Z.to_nat _). rewrite Hrange by lia.
    destruct (item_append (take n0 (content b)) it) as [it'|f]; run_res; [|done].
    destruct (retrieve_spec n0 b Hb) as (b' & -> & Hb' & Hc'); [rewrite <- length_content by done; lia|]. run_res.
    destruct (neededBytes it' =? 0)%Z; [|by exists b'].
    change (finish_value it' v (set_currItem (Some it') s)) with (finish_value it' v s).
    destruct (finish_value it' v s) as [[v' ev]|f]; run_res; [|done]. by exists b'.
  - destruct Hph as [Hc0 Hd0]. rewrite decode_discard by done. unfold discardValue. rewrite Hc0. run_res.
    rewrite <- length_content by done. case_if; run_res.
    + exists (retrieveAll b). split; [done|]. split; [by apply retrieveAll_inv|]. by rewrite retrieveAll_content, drop_all.
    + destruct (retrieve_spec (Z.to_nat (bytesToDiscard_ s)) b Hb) as (b' & -> & Hb' & Hc'); [rewrite <- length_content by done; lia|].
      run_res. by exists b'.
Qed.
End Memcached.
