(* ===== verification/MemcachedRefines.v ===== *)
(** * The memcached server refines a cache

    A cache is a finite map; clients write requests as the protocol wants
    them. However their bytes are cut into reads, the server answers like the
    cache. *)
From S2P Require Import Prelude.
From S2P Require Import Format.
From S2P Require Import Atomic.
From S2P Require Import Buffer.
From S2P Require Import BufferFacts.
From S2P Require Import LogStream.
From S2P Require Import Decoder.
From S2P Require Import Memcached.
From S2P Require Import MemcachedFacts.

(** ** The cache *)
Record entry := mkEntry { e_flags : Z; e_value : bytes; e_cas : Z }.
Record cache := mkCache { entries : gmap (list Ascii.ascii) entry; counter : Z }.

Definition empty_cache : cache := mkCache ∅ 0.

Inductive request :=
  | Store (add : bool) (key : bytes) (flags exptime : Z) (value : bytes) (noreply : bool)
  | Get (cas : bool) (keys : list bytes)
  | Delete (key : bytes) (noreply : bool)
  | Version.

Definition answer (noreply : bool) (msg : String.string) : list bytes := if noreply then [] else [str msg ++ kCRLF].

Definition entry_text (cas : bool) (key : bytes) (e : entry) : bytes :=
  str "VALUE " ++ key ++ SP :: dec (e_flags e) ++ SP :: dec (Z.of_nat (length (e_value e)))
  ++ (if cas then SP :: dec (e_cas e) else []) ++ kCRLF ++ e_value e ++ kCRLF.

(** What a request does to the cache, and what is answered. *)
Definition execute (r : request) (c : cache) : cache * list bytes :=
  match r with
  | Store add key flags _ value noreply =>
      if (1048576 <? Z.of_nat (length value))%Z then
        (mkCache (delete key (entries c)) (counter c), answer noreply "SERVER_ERROR object too large for cache")
      else if add && bool_decide (is_Some (entries c !! key)) then (c, answer noreply "NOT_STORED")
      else (mkCache (<[key := mkEntry flags value (counter c + 1)]> (entries c)) (counter c + 1), answer noreply "STORED")
  | Get cas keys =>
      (c, [flat_map (fun k => match entries c !! k with Some e => entry_text cas k e | None => [] end) keys ++ str "END" ++ kCRLF])
  | Delete key noreply =>
      (mkCache (delete key (entries c)) (counter c),
       answer noreply (if bool_decide (is_Some (entries c !! key)) then "DELETED" else "NOT_FOUND"))
  | Version => (c, answer false "VERSION 0.01 muduo")
  end.

Fixpoint execute_all (rs : list request) (c : cache) : cache * list bytes :=
  match rs with
  | [] => (c, [])
  | r :: rs => let (c, out) := execute r c in let (c, out') := execute_all rs c in (c, out ++ out')
  end.

(** ** Requests on the wire *)
Definition NOREPLY : bytes := str "noreply".

Definition request_words (r : request) : list bytes :=
  match r with
  | Store add key flags exptime value _ =>
      [if add then str "add" else str "set"; key; dec flags; dec exptime; dec (Z.of_nat (length value))]
  | Get cas keys => (if cas then str "gets" else str "get") :: keys
  | Delete key _ => [str "delete"; key]
  | Version => [str "version"]
  end.
Definition silent (r : request) : bool :=
  match r with Store _ _ _ _ _ noreply | Delete _ noreply => noreply | _ => false end.
Definition request_line (r : request) : bytes := words (request_words r ++ if silent r then [NOREPLY] else []).
Definition request_data (r : request) : bytes :=
  match r with Store _ _ _ _ value _ => value ++ kCRLF | _ => [] end.
Definition wire (r : request) : bytes := request_line r ++ kCRLF ++ request_data r.

Definition key_ok (k : bytes) : Prop := word_ok k /\ CR ∉ k /\ length k <= 250.

(** Numbers in range; a last word that does not read as an option; lines that
    fit 1024 characters. *)
Definition request_ok (r : request) : Prop :=
  match r with
  | Store _ key flags exptime value _ =>
      key_ok key /\ (0 <= flags < 2 ^ 32)%Z /\ (0 <= exptime < 2 ^ 63)%Z /\ (Z.of_nat (length value) < 2 ^ 31 - 2)%Z
  | Get _ keys => Forall key_ok keys /\ last keys <> Some NOREPLY /\ length (request_line r) < 1024
  | Delete key noreply => key_ok key /\ (noreply = false -> key <> NOREPLY)
  | Version => True
  end.

(** ** Lines are read as they are written *)
Lemma split_last {A} (c : A) x y a b : x ++ c :: a = y ++ c :: b -> c ∉ a -> c ∉ b -> a = b.
Proof.
  revert y; induction x as [|z x IH]; intros [|z' y]; simpl; intros [= ] Ha Hb; subst; [done | | | by eapply IH]; set_solver.
Qed.

Lemma words_snoc ws w : ws <> [] -> words (ws ++ [w]) = words ws ++ SP :: w.
Proof.
  destruct ws as [|w' ws]; [done|]. intros _. cbn [words app]. rewrite flat_map_app, <- app_assoc. cbn [flat_map].
  by rewrite app_nil_r.
Qed.

Lemma noreply_stripped ws (noreply : bool) :
  Forall word_ok ws -> ws <> [] -> (noreply = false -> 2 <= length ws -> last ws <> Some NOREPLY) ->
  let l := words (ws ++ if noreply then [NOREPLY] else []) in
  (8 <=? length l) && bool_decide (drop (length l - 8) l = str " noreply") = noreply
  /\ (if noreply then take (length l - 8) l else l) = words ws.
Proof.
  intros Hws Hne Hlast. destruct noreply; intros l; unfold l; clear l.
  - rewrite words_snoc by done. change (SP :: NOREPLY) with (str " noreply"). rewrite length_app.
    change (length (str " noreply")) with 8. rewrite Nat.add_sub, drop_app_length, take_app_length.
    rewrite bool_decide_eq_true_2 by done. rewrite andb_true_r. split; [apply Nat.leb_le; lia | done].
  - rewrite app_nil_r. split; [|done]. apply andb_false_iff. right. apply bool_decide_eq_false. intros E.
    assert (Hl : words ws = take (length (words ws) - 8) (words ws) ++ SP :: NOREPLY).
    { change (SP :: NOREPLY) with (str " noreply"). rewrite <- E. by rewrite take_drop. }
    destruct (exists_last Hne) as (us & w & ->). apply Forall_app in Hws as [_ Hw]. apply Forall_cons in Hw as [[_ Hw] _].
    destruct us as [|u us].
    + cbn [app words flat_map] in Hl. rewrite app_nil_r in Hl. apply Hw. rewrite Hl. set_solver.
    + rewrite words_snoc in Hl by done. apply split_last in Hl; [|done | by apply (bool_decide_unpack _); vm_compute].
      apply (Hlast eq_refl); [rewrite length_app; simpl; lia|]. by rewrite last_snoc, Hl.
Qed.

Lemma dec_word z : (0 <= z)%Z -> word_ok (dec z) /\ CR ∉ dec z.
Proof.
  intros Hz. destruct (dec_spec z Hz) as (_ & Hd & Hne & _). rewrite Forall_forall in Hd.
  split; [split; [done|]|]; intros H%Hd; done.
Qed.

Lemma command_word (w : bytes) : bool_decide (w <> [] /\ SP ∉ w) && bool_decide (CR ∉ w) = true -> word_ok w /\ CR ∉ w.
Proof. intros [H1 H2]%andb_true_iff. by apply bool_decide_eq_true in H1, H2. Qed.

Lemma request_words_ok r : request_ok r -> Forall (fun w => word_ok w /\ CR ∉ w) (request_words r).
Proof.
  destruct r as [add key flags exptime value noreply|cas keys|key noreply|]; cbn [request_ok request_words].
  - intros ((Hk & Hc & _) & Hf & He & Hv). repeat (apply Forall_cons; split); try done; try (apply dec_word; lia).
    destruct add; by apply command_word.
  - intros (Hk & _). apply Forall_cons. split; [destruct cas; by apply command_word|].
    eapply Forall_impl; [exact Hk|]. intros k (? & ? & _). done.
  - intros ((Hk & Hc & _) & _). repeat (apply Forall_cons; split); try done. by apply command_word.
  - intros _. apply Forall_cons. split; [by apply command_word | done].
Qed.

Lemma words_no_cr ws : Forall (fun w => word_ok w /\ CR ∉ w) ws -> CR ∉ words ws.
Proof.
  intros H. destruct H as [|w ws [_ Hw] Hws]; [apply not_elem_of_nil|]. cbn [words]. rewrite elem_of_app. intros [?|Hin]; [done|].
  induction Hws as [|w' ws' [_ Hw'] _ IH]; [by apply not_elem_of_nil in Hin|]. cbn [flat_map app] in Hin.
  apply elem_of_cons in Hin as [E|Hin]; [discriminate E|]. apply elem_of_app in Hin as [?|?]; [done | by apply IH].
Qed.

Lemma request_line_no_cr r : request_ok r -> CR ∉ request_line r.
Proof.
  intros Hr. apply words_no_cr, Forall_app. split; [by apply request_words_ok|].
  destruct (silent r); [|done]. apply Forall_cons. split; [by apply command_word | done].
Qed.

Lemma request_line_short r : request_ok r -> length (request_line r) < 1024.
Proof.
  unfold request_line. destruct r as [add key flags exptime value noreply|cas keys|key noreply|]; cbn [request_ok request_words silent].
  - intros ((_ & _ & Hk) & Hf & He & Hv).
    pose proof (dec_length 20 flags ltac:(split; [lia | transitivity (2 ^ 32)%Z; [lia | done]]) ltac:(lia)).
    pose proof (dec_length 20 exptime ltac:(split; [lia | transitivity (2 ^ 63)%Z; [lia | done]]) ltac:(lia)).
    pose proof (dec_length 20 (Z.of_nat (length value)) ltac:(split; [lia | transitivity (2 ^ 31)%Z; [lia | done]]) ltac:(lia)).
    assert (length (if add then str "add" else str "set") = 3) by (by destruct add).
    assert (length (flat_map (cons SP) (if noreply then [NOREPLY] else [])) <= 8) by (destruct noreply; vm_compute; lia).
    cbn [app words flat_map]. repeat (rewrite length_app || cbn [length app]). lia.
  - by intros (_ & _ & H).
  - intros ((_ & _ & Hk) & _).
    assert (length (flat_map (cons SP) (if noreply then [NOREPLY] else [])) <= 8) by (destruct noreply; vm_compute; lia).
    cbn [app words flat_map]. repeat (rewrite length_app || cbn [length app]).
    change (length (str "delete")) with 6. lia.
  - intros _. apply Nat.ltb_lt. reflexivity.
Qed.

Section Refines.
Context (hash_range : bytes -> Z) (memory : nat -> bytes) (startTime_ : Z) (outputWritable : nat -> nat).
Hypothesis memory_length : forall n, length (memory n) = n.

Abbreviation cached := (cached hash_range).
Abbreviation server_wf := (server_wf hash_range).
Abbreviation session_valid := (session_valid hash_range).
Abbreviation processRequest := (processRequest hash_range memory startTime_ outputWritable).
Abbreviation run_command := (run_command hash_range memory startTime_ outputWritable).
Abbreviation session_body := (session_body hash_range memory startTime_ outputWritable).
Abbreviation world := (MemcacheServer * Session)%type.

#[local] Instance decoder_here : Decoder world session_event := session_decoder hash_range memory startTime_ outputWritable.
#[local] Instance laws_here : DecoderLaws session_valid := session_laws hash_range memory startTime_ outputWritable memory_length.
#[local] Instance final_here : DecoderFinal session_valid := session_final hash_range memory startTime_ outputWritable memory_length.

(** An item of the table and the entry it stands for. *)
Definition item_is (k : bytes) (e : entry) (it : Item) : Prop :=
  keylen_ it = Z.of_nat (length k) /\ flags_ it = e_flags e
  /\ valuelen_ it = Z.of_nat (length (e_value e ++ kCRLF)) /\ cas_ it = e_cas e
  /\ item_data_ it = k ++ e_value e ++ kCRLF.

Record represents (v : MemcacheServer) (c : cache) : Prop := {
  rp_wf : server_wf v;
  rp_counter : value_ (g_cas v) = counter c;
  rp_positive : (0 <= counter c)%Z;
  rp_entries k : match cached v k, entries c !! k with
                 | Some it, Some e => item_is k e it
                 | None, None => True
                 | _, _ => False
                 end
}.

(** A session between two requests. *)
Record ready (s : Session) : Prop := {
  rd_base : session_base s;
  rd_state : state_ s = kNewCommand;
  rd_phase : session_phase hash_range s;
  rd_connected : connected_ s = true;
  rd_output : content (outputBuf_ s) = []
}.

Definition sends (events : list session_event) : list bytes :=
  omap (fun ev => match ev with SessionSend m => Some m | _ => None end) events.

Lemma reply_sends (msg : String.string) s : connected_ s = true -> sends (reply (str msg ++ kCRLF) s) = answer (noreply_ s) msg.
Proof. intros Hc. unfold reply, conn_send, answer. rewrite Hc. by destruct (noreply_ s). Qed.

(** The session of a request that was read: its command and options. *)
Definition asked (command : bytes) (noreply : bool) (s : Session) : Session :=
  set_request command noreply kInvalid None 0 (count_request s).

Lemma process_words command ts (noreply : bool) v s :
  ready s -> Forall word_ok (command :: ts) ->
  (noreply = false -> 2 <= length (command :: ts) -> last (command :: ts) <> Some NOREPLY) ->
  processRequest (words ((command :: ts) ++ if noreply then [NOREPLY] else [])) v s
  = run_command command ts v (asked command noreply s).
Proof.
  intros [Hb Hst Hph _ _] Hws Hlast. unfold session_phase in Hph. rewrite Hst in Hph. destruct Hph as (Hc & Hn & Hp & Hcur & Hd).
  unfold Memcached.processRequest. rewrite Hc, Hn, Hp, Hcur, Hd.
  rewrite (bool_decide_eq_true_2 (@nil char = [])), (bool_decide_eq_true_2 (kInvalid = kInvalid)) by done. run_res.
  change (0 =? 0)%Z with true. run_res.
  destruct (noreply_stripped (command :: ts) noreply Hws ltac:(done) Hlast) as [E1 E2]. rewrite E1, E2.
  rewrite tokens_words by done. unfold asked.
  change (command_ (count_request s)) with (command_ s). change (policy_ (count_request s)) with (policy_ s).
  change (currItem_ (count_request s)) with (currItem_ s). change (bytesToDiscard_ (count_request s)) with (bytesToDiscard_ s).
  rewrite Hp, Hcur, Hd. done.
Qed.

(** ** Each command *)
Lemma key_lookup k v c :
  represents v c ->
  match cached v k with
  | Some it => exists e, entries c !! k = Some e /\ item_is k e it /\ stored k it
  | None => entries c !! k = None
  end.
Proof.
  intros H. pose proof (rp_entries _ _ H k) as Hk. pose proof (fun it E => sw_stored _ _ (rp_wf _ _ H) k it E) as Hs.
  destruct (cached v k) as [it|]; destruct (entries c !! k) as [e|]; try done. exists e. auto.
Qed.

Lemma key_exists k v c : represents v c -> bool_decide (is_Some (cached v k)) = bool_decide (is_Some (entries c !! k)).
Proof.
  intros H. pose proof (key_lookup k v c H) as Hk. destruct (cached v k) as [it|].
  - destruct Hk as (e & -> & _). by rewrite !bool_decide_eq_true_2 by (by eexists).
  - rewrite Hk. by rewrite !bool_decide_eq_false_2 by (by intros [? ?]).
Qed.

Lemma item_is_text cas k e it : item_is k e it -> item_text cas it = entry_text cas k e.
Proof.
  intros (Hk & Hf & Hv & Hc & Hd). unfold item_text, entry_text, item_key, item_value. rewrite Hk, Hf, Hv, Hc, Hd, Nat2Z.id.
  rewrite take_app_length, drop_app_length, length_app. change (length kCRLF) with 2.
  by replace (Z.of_nat (length (e_value e) + 2) - 2)%Z with (Z.of_nat (length (e_value e))) by lia.
Qed.

Lemma get_keys_spec cas keys v c s :
  represents v c -> session_base s -> Forall key_ok keys ->
  exists s', get_keys hash_range cas keys v s = Ok (true, s') /\ session_base s' /\ state_ s' = state_ s
    /\ connected_ s' = connected_ s /\ requestsProcessed_ s' = requestsProcessed_ s
    /\ content (outputBuf_ s') = content (outputBuf_ s)
         ++ flat_map (fun k => match entries c !! k with Some e => entry_text cas k e | None => [] end) keys.
Proof.
  intros Hv. revert s; induction keys as [|key keys IH]; intros s Hs Hk; cbn [get_keys flat_map].
  { exists s. by rewrite app_nil_r. }
  apply Forall_cons in Hk as [(Hw & Hcr & Hlen) Hks]. rewrite (proj2 (Nat.leb_le _ _)) by done. cbn [negb].
  destruct (resetKey_ok hash_range key s Hs Hlen) as (needle & -> & Hs1 & Hkey & Hh). run_res.
  rewrite (getItem_spec hash_range _ key v) by (done || apply Hv). run_res.
  set (s1 := set_needle needle s) in *.
  assert (Ho : exists out, match cached v key with Some it => item_output cas it (outputBuf_ s1) | None => Ok (outputBuf_ s1) end = Ok out
     /\ buf_inv out /\ content out = content (outputBuf_ s) ++ match entries c !! key with Some e => entry_text cas key e | None => [] end).
  { pose proof (key_lookup key v c Hv) as Hl. destruct (cached v key) as [it|].
    - destruct Hl as (e & -> & Hit & (Hwf & _)). destruct (item_output_spec cas it _ Hwf (sb_output _ Hs1)) as (out & E & Hout & Hc).
      exists out. split; [done|]. split; [done|]. by rewrite Hc, (item_is_text cas key e it Hit).
    - rewrite Hl. exists (outputBuf_ s1). split; [done|]. split; [apply Hs1|]. by rewrite app_nil_r. }
  destruct Ho as (out & -> & Hout & Hc). run_res.
  destruct (IH (set_outputBuf out s1)) as (s' & E & Hs' & Hst & Hcon & Hrp & Hct); [by destruct Hs1; split | done|].
  exists s'. rewrite E. split; [done|]. split; [done|]. split; [done|]. split; [done|]. split; [done|].
  rewrite Hct. cbn [set_outputBuf outputBuf_]. by rewrite Hc, <- app_assoc.
Qed.

(** A session with its connection up and nothing left to send. *)
Record settled (s : Session) : Prop := {
  st_base : session_base s;
  st_connected : connected_ s = true;
  st_output : content (outputBuf_ s) = []
}.

Lemma ready_settled s : ready s -> settled s.
Proof. intros [? ? ? ? ?]. by split. Qed.

Lemma settled_ready s : settled s -> state_ s = kNewCommand -> ready (resetRequest s).
Proof. intros [[] ? ?] Hst. split; try done. unfold session_phase. cbn [resetRequest set_request state_]. by rewrite Hst. Qed.

Lemma settled_request command noreply policy curr discard s :
  settled s -> settled (set_request command noreply policy curr discard s).
Proof. intros [[] ? ?]. by split. Qed.

Lemma settled_asked command noreply s : ready s -> settled (asked command noreply s).
Proof. intros H%ready_settled. destruct H as [[] ? ?]. by split. Qed.

Lemma get_runs (cas : bool) keys v c s :
  represents v c -> ready s -> Forall key_ok keys ->
  exists s' ev, run_command (if cas then str "gets" else str "get") keys v (asked (if cas then str "gets" else str "get") false s)
      = Ok (true, v, s', ev)
    /\ ready (resetRequest s') /\ sends ev = (execute (Get cas keys) c).2.
Proof.
  intros Hv Hs Hk. set (s1 := asked _ _ s). assert (Hs1 : settled s1) by (by apply settled_asked).
  assert (Hst1 : state_ s1 = kNewCommand) by apply Hs.
  destruct (get_keys_spec cas keys v c s1 Hv (st_base _ Hs1) Hk) as (s2 & E & Hs2 & Hst2 & Hcon & Hrp & Hct).
  destruct (append_str_spec (str "END" ++ kCRLF) (outputBuf_ s2) (sb_output _ Hs2)) as (out & Eo & Hout & Hoc & _).
  assert (Hrun : run_command (if cas then str "gets" else str "get") keys v s1
    = ('(s', ev) ← doGet hash_range outputWritable cas keys v s1; Ok (true, v, s', ev))) by (by destruct cas).
  rewrite Hrun. unfold doGet. rewrite E. run_res. cbn [negb]. rewrite Eo. run_res.
  rewrite Hcon, (st_connected _ Hs1). do 2 eexists. split; [done|]. split.
  - apply settled_ready; [|cbn [set_outputBuf state_]; congruence]. destruct Hs2 as [Hp Hn Ho]. split.
    + split; [done | done | by apply retrieveAll_inv].
    + cbn [set_outputBuf connected_]. rewrite Hcon. apply Hs1.
    + cbn [set_outputBuf outputBuf_]. apply retrieveAll_content.
  - unfold sends. rewrite omap_app. unfold conn_send. rewrite Hcon, (st_connected _ Hs1). cbn [execute snd].
    rewrite Hoc, Hct, (st_output _ Hs1). cbn [app]. by case_if.
Qed.

Lemma delete_runs key noreply v c s :
  represents v c -> ready s -> key_ok key ->
  exists v' s' ev, run_command (str "delete") [key] v (asked (str "delete") noreply s) = Ok (true, v', s', ev)
    /\ represents v' (execute (Delete key noreply) c).1
    /\ ready (resetRequest s') /\ sends ev = (execute (Delete key noreply) c).2.
Proof.
  intros Hv Hs (Hw & Hcr & Hlen). set (s1 := asked _ _ s). assert (Hs1 : settled s1) by (by apply settled_asked).
  assert (Hrun : run_command (str "delete") [key] v s1
    = ('(v, s', ev) ← doDelete hash_range [key] v s1; Ok (true, v, s', ev))) by done.
  rewrite Hrun. unfold doDelete. rewrite (bool_decide_eq_true_2 (command_ s1 = str "delete")) by done. run_res.
  rewrite (proj2 (Nat.leb_le _ _)) by done. cbn [negb].
  destruct (resetKey_ok hash_range key s1 (st_base _ Hs1) Hlen) as (needle & -> & Hs2 & Hkey & Hh). run_res.
  destruct (deleteItem_spec hash_range (needle_ (set_needle needle s1)) key v (rp_wf _ _ Hv) Hkey Hh) as (v' & -> & Hv' & Hcas & Hc).
  run_res. do 3 eexists. split; [done|]. split; [|split].
  - destruct Hv as [Hwf Hcnt Hpos Hent]. split; cbn [execute fst counter entries]; [done | congruence | done|].
    intros k. rewrite Hc. destruct (decide (k = key)) as [->|]; [by rewrite lookup_delete_eq|].
    rewrite lookup_delete_ne by done. apply Hent.
  - apply settled_ready; [|apply Hs]. split; [done | apply Hs | apply Hs].
  - cbn [execute snd]. rewrite (key_exists key v c Hv).
    destruct (bool_decide (is_Some (entries c !! key))); apply reply_sends; apply Hs.
Qed.

(** *** Storing *)
Definition store_command (add : bool) : bytes := if add then str "add" else str "set".
Definition store_policy (add : bool) : UpdatePolicy := if add then kAdd else kSet.

Lemma read_fields_dec flags exptime n :
  (0 <= flags < 2 ^ 32)%Z -> (0 <= exptime < 2 ^ 63)%Z -> (0 <= n < 2 ^ 31)%Z ->
  read_fields true [dec flags; dec exptime; dec n] = (true, flags, exptime, n, []).
Proof.
  intros Hf He Hn. unfold read_fields. rewrite !reader_read_dec by lia.
  by rewrite wrapU_small, (wrapS_small 64), (wrapS_small 32) by lia.
Qed.

Lemma store_line_reads (add : bool) key flags exptime value noreply v s :
  request_ok (Store add key flags exptime value noreply) ->
  let s1 := set_policy (store_policy add) (asked (store_command add) noreply s) in
  let n := Z.of_nat (length value) in
  run_command (store_command add) [key; dec flags; dec exptime; dec n] v (asked (store_command add) noreply s)
  = if (1048576 <? n)%Z then
      needle ← resetKey hash_range key (needle_ s1);
      '(_, v) ← deleteItem needle v;
      Ok (false, v, set_state kDiscardValue (set_discard (n + 2) (set_needle needle s1)),
          reply (str "SERVER_ERROR object too large for cache" ++ kCRLF) s1)
    else
      it ← makeItem hash_range memory key flags (relative_exptime startTime_ exptime) (n + 2) 0;
      Ok (false, v, set_state kReceiveValue (set_currItem (Some it) s1), []).
Proof.
  intros ((Hw & Hcr & Hlen) & Hf & He & Hv) s1 n.
  assert (Hrun : run_command (store_command add) [key; dec flags; dec exptime; dec n] v (asked (store_command add) noreply s)
    = doUpdate hash_range memory startTime_ [key; dec flags; dec exptime; dec n] v (asked (store_command add) noreply s))
    by (by destruct add).
  rewrite Hrun. unfold doUpdate. change (command_ (asked (store_command add) noreply s)) with (store_command add).
  assert (Hp : policy_of (store_command add) = Some (store_policy add)) by (by destruct add). rewrite Hp. run_res. fold s1.
  rewrite (proj2 (Nat.leb_le _ _)) by done. rewrite read_fields_dec by lia. cbn [andb].
  assert (Hpol : bool_decide (policy_ s1 = kCas) = false) by (apply bool_decide_eq_false; unfold s1; by destruct add).
  rewrite Hpol. cbn [negb]. change (1024 * 1024)%Z with 1048576%Z.
  assert (Hadd : add_int n 2 = Ok (n + 2)%Z) by (unfold add_int; rewrite wrapS_small by lia; by rewrite Z.eqb_refl).
  rewrite Hadd. destruct (1048576 <? n)%Z; [|done].
  destruct (resetKey hash_range key (needle_ s1)) as [needle|]; run_res; [|done].
  change (needle_ (set_needle needle s1)) with needle.
  destruct (deleteItem needle v) as [[? ?]|]; done.
Qed.

(** The value behind the line completes the item. *)
Lemma received_item key flags value it :
  item_wf it -> keylen_ it = Z.of_nat (length key) -> flags_ it = flags ->
  valuelen_ it = Z.of_nat (length (value ++ kCRLF)) -> receivedBytes_ it = Z.of_nat (length key) -> item_key it = key ->
  item_is key (mkEntry flags value (cas_ it)) (received (value ++ kCRLF) it).
Proof.
  intros Hwf Hk Hf Hv Hr Hkey. unfold item_is, received. cbn [set_received keylen_ flags_ valuelen_ cas_ item_data_ e_flags e_value e_cas].
  split; [done|]. split; [done|]. split; [done|]. split; [done|]. unfold patched. rewrite Hr, Nat2Z.id.
  unfold item_key in Hkey. rewrite Hk, Nat2Z.id in Hkey. rewrite Hkey. f_equal. rewrite drop_ge; [by rewrite app_nil_r|].
  pose proof (iw_data _ Hwf) as Hd. unfold totalLen in Hd. lia.
Qed.

Lemma endsWithCRLF_item k e it : item_is k e it -> receivedBytes_ it = totalLen it -> endsWithCRLF it = Ok true.
Proof.
  intros (Hk & Hf & Hv & Hc & Hd) Hr. unfold endsWithCRLF, data_at. rewrite Hr, Z.eqb_refl. unfold totalLen. rewrite Hk, Hv, Hd.
  rewrite length_app. change (length kCRLF) with 2. rewrite app_assoc.
  assert (Hl : length (k ++ e_value e) = length k + length (e_value e)) by apply length_app.
  rewrite (lookup_app_r (k ++ e_value e)) by lia. rewrite (lookup_app_r (k ++ e_value e)) by lia.
  replace (Z.to_nat (Z.of_nat (length k) + Z.of_nat (length (e_value e) + 2) - 2) - length (k ++ e_value e)) with 0 by lia.
  replace (Z.to_nat (Z.of_nat (length k) + Z.of_nat (length (e_value e) + 2) - 1) - length (k ++ e_value e)) with 1 by lia.
  reflexivity.
Qed.

Lemma count_cas v c : represents v c -> (counter c + 1 < 2 ^ 31)%Z ->
  incrementAndGet (g_cas v) = ((counter c + 1)%Z, mkAtomicInteger (counter c + 1)).
Proof.
  intros [_ Hc Hp _] Hb. unfold incrementAndGet, addAndGet, getAndAdd. rewrite Hc, wrapS_small by lia. done.
Qed.

(** What is done with the whole value. *)
Lemma value_stored add key flags exptime value noreply v c s it :
  represents v c -> (counter c + 1 < 2 ^ 31)%Z -> connected_ s = true -> noreply_ s = noreply -> policy_ s = store_policy add ->
  stored key it -> hash_ it = hash_range key -> item_is key (mkEntry flags value (cas_ it)) it ->
  (Z.of_nat (length value) <= 1048576)%Z ->
  exists v' ev, finish_value it v s = Ok (v', ev)
    /\ represents v' (execute (Store add key flags exptime value noreply) c).1
    /\ sends ev = (execute (Store add key flags exptime value noreply) c).2.
Proof.
  intros Hv Hcnt Hcon Hno Hpol Hst Hh Hit Hsmall. unfold finish_value.
  rewrite (endsWithCRLF_item _ _ _ Hit) by apply Hst. run_res. cbn [execute].
  replace (1048576 <? Z.of_nat (length value))%Z with false by (symmetry; apply Z.ltb_ge; lia).
  pose proof (key_exists key v c Hv) as Hex. pose proof (count_cas v c Hv Hcnt) as Hinc.
  destruct (add && bool_decide (is_Some (entries c !! key))) eqn:Ekeep.
  - apply andb_true_iff in Ekeep as [-> Hin]. rewrite <- Hex in Hin. apply bool_decide_eq_true in Hin.
    change (store_policy true) with kAdd in Hpol. rewrite Hpol.
    rewrite (storeItem_keeps hash_range it key kAdd v (rp_wf _ _ Hv) Hst Hh) by (by destruct Hin).
    run_res. do 2 eexists. split; [done|]. split; [done|]. rewrite bool_decide_eq_true_2 by done. cbn [negb].
    change (store_reply false _ kAdd) with (str "NOT_STORED" ++ kCRLF). rewrite reply_sends by done. by rewrite Hno.
  - destruct (storeItem_stores hash_range it key (store_policy add) v (rp_wf _ _ Hv) Hst Hh) as (v' & E & Hv' & Hg & Hc).
    { destruct add; [right | by left]. split; [done|]. cbn [andb] in Ekeep. rewrite <- Hex in Ekeep.
      apply bool_decide_eq_false in Ekeep. by apply eq_None_not_Some. }
    rewrite Hpol, E. run_res. do 2 eexists. split; [done|]. split.
    + rewrite Hinc in Hg, Hc. cbn [fst snd] in Hg, Hc. split; cbn [fst entries counter]; [done | by rewrite Hg | destruct Hv; lia |].
      intros k. rewrite Hc. destruct (decide (k = key)) as [->|Hne].
      * rewrite lookup_insert_eq. destruct Hit as (H1 & H2 & H3 & H4 & H5). rewrite wrapU_small by (destruct Hv; lia).
        unfold item_is, setCas. cbn [keylen_ flags_ valuelen_ cas_ item_data_ e_flags e_value e_cas] in *. done.
      * rewrite lookup_insert_ne by done. apply Hv.
    + change (store_reply true ?e ?p) with (str "STORED" ++ kCRLF). rewrite reply_sends by done. by rewrite Hno.
Qed.

(** ** Requests as the decoder sees them *)

(** The request was served. *)
Definition served (r : request) (c : cache) (w : world) (ev : list session_event) : Prop :=
  represents w.1 (execute r c).1 /\ ready w.2 /\ sends ev = (execute r c).2.

(** A value comes in whole, in one read or several. *)
Definition takes_value (data : bytes) (w w' : world) (ev : list session_event) : Prop :=
  (forall rest, decode w (data ++ rest) = Take w' (length data) ev)
  /\ forall p q, data = p ++ q -> p <> [] -> q <> [] ->
       exists w1, decode w p = Take w1 (length p) [] /\ state_ w1.2 <> kNewCommand.

Definition serves (r : request) (c : cache) (w : world) : Prop :=
  exists w1 ev1, (forall rest, decode w (request_line r ++ kCRLF ++ rest) = Take w1 (length (request_line r) + 2) ev1)
    /\ if decide (request_data r = []) then served r c w1 ev1
       else state_ w1.2 <> kNewCommand
            /\ exists w2 ev2, takes_value (request_data r) w1 w2 ev2 /\ served r c w2 (ev1 ++ ev2).

Lemma line_decodes r v s fin v1 s1 ev rest :
  request_ok r -> ready s -> processRequest (request_line r) v s = Ok (fin, v1, s1, ev) ->
  decode (v, s) (request_line r ++ kCRLF ++ rest)
  = Take (v1, if fin : bool then resetRequest s1 else s1) (length (request_line r) + 2) ev.
Proof.
  intros Hr Hs E. pose proof (find_crlf_line _ rest (request_line_no_cr r Hr)) as Hf. pose proof (request_line_short r Hr) as Hl.
  assert (Hne : request_line r ++ kCRLF ++ rest <> []) by (by destruct (request_line r)).
  unfold decode, decoder_here, session_decoder. destruct (request_line r ++ kCRLF ++ rest) as [|x l] eqn:El; [done|].
  rewrite <- El in *. rewrite (rd_state _ Hs), Hf, wrapS_small by lia.
  rewrite (proj2 (Z.ltb_ge _ _)) by lia. rewrite Nat2Z.id, take_app_length. by rewrite E.
Qed.

Lemma process_request command ts r v s :
  request_ok r -> ready s -> request_words r = command :: ts ->
  processRequest (request_line r) v s = run_command command ts v (asked command (silent r) s).
Proof.
  intros Hr Hs E. unfold request_line. rewrite E. apply process_words; [done | |].
  - rewrite <- E. eapply Forall_impl; [by apply request_words_ok|]. by intros w [? _].
  - rewrite <- E. intros Hq Hlen. destruct r as [add key flags exptime value noreply|cas keys|key noreply|]; cbn [request_words request_ok] in *.
    + intros [= H]. pose proof (dec_spec (Z.of_nat (length value)) ltac:(lia)) as (_ & Hd & _). rewrite H in Hd.
      apply Forall_inv in Hd. discriminate Hd.
    + destruct Hr as (_ & Hlast & _). destruct keys as [|k keys]; [simpl in Hlen; lia|]. exact Hlast.
    + destruct Hr as (_ & Hk). intros [= H]. by apply (Hk Hq).
    + simpl in Hlen. lia.
Qed.

Lemma get_serves cas keys v c s :
  request_ok (Get cas keys) -> represents v c -> ready s -> serves (Get cas keys) c (v, s).
Proof.
  intros Hr Hv Hs. destruct (get_runs cas keys v c s Hv Hs) as (s' & ev & E & Hs' & Hev); [apply Hr|].
  exists (v, resetRequest s'), ev. split; [|by split].
  intros rest. apply (line_decodes _ v s true v s' ev); [done..|]. rewrite (process_request _ keys (Get cas keys)) by done. exact E.
Qed.

Lemma delete_serves key noreply v c s :
  request_ok (Delete key noreply) -> represents v c -> ready s -> serves (Delete key noreply) c (v, s).
Proof.
  intros Hr Hv Hs. destruct (delete_runs key noreply v c s Hv Hs) as (v' & s' & ev & E & Hv' & Hs' & Hev); [apply Hr|].
  exists (v', resetRequest s'), ev. split; [|by split].
  intros rest. apply (line_decodes _ v s true v' s' ev); [done..|]. rewrite (process_request _ [key] (Delete key noreply)) by done. exact E.
Qed.

Lemma version_serves v c s : represents v c -> ready s -> serves Version c (v, s).
Proof.
  intros Hv Hs. set (s' := asked (str "version") false s).
  exists (v, resetRequest s'), (reply (str "VERSION 0.01 muduo" ++ kCRLF) s'). split.
  - intros rest. apply (line_decodes Version v s true v s'); [done..|]. rewrite (process_request _ [] Version) by done. reflexivity.
  - split; [done|]. split; [|cbn [snd execute]; apply reply_sends; apply Hs].
    cbn [snd]. apply settled_ready; [by apply settled_asked | apply Hs].
Qed.

Lemma big_serves add key flags exptime value noreply v c s :
  request_ok (Store add key flags exptime value noreply) -> represents v c -> ready s ->
  (1048576 < Z.of_nat (length value))%Z -> serves (Store add key flags exptime value noreply) c (v, s).
Proof.
  intros Hr Hv Hs Hbig. set (r := Store add key flags exptime value noreply).
  set (s1 := set_policy (store_policy add) (asked (store_command add) noreply s)).
  pose proof (store_line_reads add key flags exptime value noreply v s Hr) as E.
  destruct Hr as ((Hw & Hcr & Hlen) & Hf & He & Hn). cbn zeta in E. fold s1 in E.
  rewrite (proj2 (Z.ltb_lt _ _)) in E by done.
  assert (Hs1 : settled s1) by (by apply settled_request, settled_asked).
  destruct (resetKey_ok hash_range key s1 (st_base _ Hs1) Hlen) as (needle & En & Hs2 & Hkey & Hh).
  rewrite En in E. cbn [mbind res_bind] in E.
  destruct (deleteItem_spec hash_range needle key v (rp_wf _ _ Hv) Hkey Hh) as (v' & Ed & Hv' & Hcas & Hc).
  rewrite Ed in E. cbn [mbind res_bind] in E.
  set (s2 := set_state kDiscardValue (set_discard (Z.of_nat (length value) + 2) (set_needle needle s1))) in E.
  exists (v', s2), (reply (str "SERVER_ERROR object too large for cache" ++ kCRLF) s1). split.
  { intros rest. apply (line_decodes r v s false v' s2); [done | done|].
    rewrite (process_request (store_command add) [key; dec flags; dec exptime; dec (Z.of_nat (length value))] r);
      [exact E | done | done | by destruct add]. }
  cbn [request_data r]. rewrite decide_False by (by destruct value). split; [done|].
  exists (v', set_state kNewCommand (resetRequest s2)), []. split; [split|].
  - intros rest. rewrite (decode_discard hash_range memory startTime_ outputWritable); [|done | by destruct value].
    rewrite !length_app. change (length kCRLF) with 2.
    change (bytesToDiscard_ s2) with (Z.of_nat (length value) + 2)%Z. rewrite (proj2 (Z.ltb_ge _ _)) by lia. f_equal. lia.
  - intros p q Epq Hp Hq. assert (Hl : length p < length value + 2).
    { assert (E2 : length (value ++ kCRLF) = length (p ++ q)) by (by rewrite Epq). rewrite !length_app in E2.
      change (length kCRLF) with 2 in E2. destruct q; [done|]. simpl in E2. lia. }
    eexists. split; [|shelve]. rewrite (decode_discard hash_range memory startTime_ outputWritable) by done.
    change (bytesToDiscard_ s2) with (Z.of_nat (length value) + 2)%Z. rewrite (proj2 (Z.ltb_lt _ _)) by lia. reflexivity.
    Unshelve. done.
  - rewrite app_nil_r. unfold served, r. cbn [execute]. rewrite (proj2 (Z.ltb_lt _ _)) by done. cbn [fst snd]. split; [|split].
    + destruct Hv as [Hwf Hcnt Hpos Hent]. split; cbn [counter entries]; [done | congruence | done|].
      intros k. rewrite Hc. destruct (decide (k = key)) as [->|]; [by rewrite lookup_delete_eq|].
      rewrite lookup_delete_ne by done. apply Hent.
    + destruct Hs1 as [_ Hcon Hout]. destruct Hs2 as [H1 H2 H3]. split; done.
    + apply reply_sends. apply Hs.
Qed.

Lemma small_serves add key flags exptime value noreply v c s :
  request_ok (Store add key flags exptime value noreply) -> represents v c -> ready s -> (counter c + 1 < 2 ^ 31)%Z ->
  (Z.of_nat (length value) <= 1048576)%Z -> serves (Store add key flags exptime value noreply) c (v, s).
Proof.
  intros Hr Hv Hs Hcnt Hsmall. set (r := Store add key flags exptime value noreply).
  set (s1 := set_policy (store_policy add) (asked (store_command add) noreply s)).
  pose proof (store_line_reads add key flags exptime value noreply v s Hr) as E.
  destruct Hr as ((Hw & Hcr & Hlen) & Hf & He & Hn). cbn zeta in E. fold s1 in E.
  rewrite (proj2 (Z.ltb_ge _ _)) in E by done.
  assert (Hs1 : settled s1) by (by apply settled_request, settled_asked).
  destruct (makeItem_spec hash_range memory memory_length key flags (relative_exptime startTime_ exptime) (Z.of_nat (length value) + 2) 0)
    as (it & Em & Hwf & Hkl & Hfl & Hvl & Hrc & Hh & Hik); [done | lia | done | lia|].
  rewrite Em in E. cbn [mbind res_bind] in E. set (s2 := set_state kReceiveValue (set_currItem (Some it) s1)) in E.
  assert (Hlen2 : (Z.of_nat (length (value ++ kCRLF)) = Z.of_nat (length value) + 2)%Z) by (rewrite length_app; change (length kCRLF) with 2; lia).
  assert (Htot : (totalLen it - receivedBytes_ it = Z.of_nat (length (value ++ kCRLF)))%Z) by (unfold totalLen; lia).
  assert (Hrecv : receiving hash_range key it) by (split; [done|]; split; [lia | done]).
  exists (v, s2), []. split.
  { intros rest. apply (line_decodes r v s false v s2); [done | done|].
    rewrite (process_request (store_command add) [key; dec flags; dec exptime; dec (Z.of_nat (length value))] r);
      [exact E | done | done | by destruct add]. }
  cbn [request_data r]. rewrite decide_False by (by destruct value). split; [done|].
  assert (Hitem : item_is key (mkEntry flags value (cas_ it)) (received (value ++ kCRLF) it)).
  { apply received_item; [done..| | done | done]. by rewrite Hvl, Hlen2. }
  assert (Hwhole : forall rest, exists v' ev, decode (v, s2) ((value ++ kCRLF) ++ rest)
      = Take (v', set_state kNewCommand (resetRequest s2)) (length (value ++ kCRLF)) ev
      /\ finish_value (received (value ++ kCRLF) it) v s2 = Ok (v', ev) /\ stored key (received (value ++ kCRLF) it)).
  { intros rest. pose proof (decode_receive hash_range memory startTime_ outputWritable v s2 key it ((value ++ kCRLF) ++ rest)
      (rp_wf _ _ Hv) eq_refl eq_refl Hrecv ltac:(by destruct value)) as H.
    rewrite length_app in H. rewrite (proj2 (Z.ltb_ge _ _)) in H by lia. cbn zeta in H.
    rewrite Htot, Nat2Z.id, take_app_length in H. destruct H as (v' & ev & F & Hv' & Hst & D). by exists v', ev. }
  destruct (Hwhole []) as (v' & ev & _ & F & Hst).
  destruct (value_stored add key flags exptime value noreply v c s2 (received (value ++ kCRLF) it) Hv Hcnt)
    as (v'' & ev' & F' & Hv'' & Hev); [apply Hs | done | done | done | done | done | done|].
  rewrite F in F'. injection F' as <- <-.
  exists (v', set_state kNewCommand (resetRequest s2)), ev. split; [split|].
  - intros rest. destruct (Hwhole rest) as (v1 & ev1 & -> & F1 & _). rewrite F in F1. by injection F1 as <- <-.
  - intros p q Epq Hp Hq. assert (Hl : length p < length (value ++ kCRLF)).
    { rewrite Epq, length_app. destruct q; [done|]. simpl. lia. }
    pose proof (decode_receive hash_range memory startTime_ outputWritable v s2 key it p (rp_wf _ _ Hv) eq_refl eq_refl Hrecv Hp) as H.
    rewrite (proj2 (Z.ltb_lt _ _)) in H by lia. destruct H as [H _]. eexists. split; [exact H | done].
  - rewrite app_nil_l. split; [done|]. split; [|done]. destruct Hs1 as [[] Hcon Hout]. split; done.
Qed.

Lemma request_serves r v c s :
  request_ok r -> represents v c -> ready s -> (counter c + 1 < 2 ^ 31)%Z -> serves r c (v, s).
Proof.
  intros Hr Hv Hs Hcnt. destruct r as [add key flags exptime value noreply|cas keys|key noreply|].
  - destruct (Z.ltb_spec 1048576 (Z.of_nat (length value))); [by apply big_serves | by apply small_serves].
  - by apply get_serves.
  - by apply delete_serves.
  - by apply version_serves.
Qed.

(** ** Sequences of requests, cut into reads *)
Lemma run_nothing w : run_all w [] = Ok (w, [], [], Waiting).
Proof. by destruct w. Qed.

Lemma ready_valid v c s : represents v c -> ready s -> session_valid (v, s).
Proof. intros [] []. by split. Qed.

Lemma run_request r c v s :
  represents v c -> ready s -> serves r c (v, s) ->
  exists v' s' out, run_all (v, s) (wire r) = Ok ((v', s'), [], out, Waiting) /\ served r c (v', s') out.
Proof.
  intros Hv Hs (w1 & ev1 & Hline & Hrest). pose proof (ready_valid v c s Hv Hs) as Hw. unfold wire.
  rewrite (run_take session_valid (v, s) _ w1 (length (request_line r) + 2) ev1) by done.
  destruct (law_take _ _ _ _ _ Hw (Hline (request_data r))) as [Hw1 _].
  assert (Ed : drop (length (request_line r) + 2) (request_line r ++ kCRLF ++ request_data r) = request_data r)
    by (rewrite <- drop_drop, drop_app_length; done).
  rewrite Ed. destruct (decide (request_data r = [])) as [E|_].
  - rewrite E, run_nothing. run_res. rewrite app_nil_r. destruct w1 as [v1 s1]. by exists v1, s1, ev1.
  - destruct Hrest as (_ & [v2 s2] & ev2 & [Hdata _] & Hserved). specialize (Hdata []). rewrite app_nil_r in Hdata.
    rewrite (run_take session_valid w1 _ (v2, s2) (length (request_data r)) ev2) by done.
    rewrite drop_all, run_nothing. run_res. rewrite app_nil_r. by exists v2, s2, (ev1 ++ ev2).
Qed.

(** A part of a request never leaves a long line. *)
Lemma request_short r c v s p q w1 l1 o1 e :
  request_ok r -> represents v c -> ready s -> serves r c (v, s) -> wire r = p ++ q -> q <> [] ->
  run_all (v, s) p = Ok (w1, l1, o1, e) -> short_line w1 l1.
Proof.
  intros Hr Hv Hs (w2 & ev2 & Hline & Hrest) Epq Hq. pose proof (ready_valid v c s Hv Hs) as Hw.
  pose proof (request_line_short r Hr) as Hl. unfold wire in Epq.
  destruct (Nat.lt_ge_cases (length p) (length (request_line r) + 2)) as [Hlt|Hge].
  - assert (Hp : find_sub kCRLF p = None).
    { destruct (find_sub kCRLF p) as [i|] eqn:Ei; [|done]. pose proof (find_crlf_bound _ _ Ei).
      pose proof (find_sub_app kCRLF p q i ltac:(done) Ei) as E. rewrite <- Epq in E.
      rewrite find_crlf_line in E by (by apply request_line_no_cr). injection E as <-. lia. }
    assert (Hwait : decode (v, s) p = Wait).
    { unfold decode, decoder_here, session_decoder. destruct p; [done|]. by rewrite (rd_state _ Hs), Hp. }
    unfold run_all. cbn [run]. rewrite Hwait. intros [= <- <- _ _] _. lia.
  - assert (Ep : exists p', p = request_line r ++ kCRLF ++ p' /\ request_data r = p' ++ q).
    { exists (drop (length (request_line r) + 2) p).
      assert (El : length (request_line r ++ kCRLF) = length (request_line r) + 2) by (rewrite length_app; done).
      rewrite app_assoc in Epq. split.
      - rewrite app_assoc. rewrite <- (take_drop (length (request_line r) + 2) p) at 1. f_equal.
        apply (f_equal (take (length (request_line r) + 2))) in Epq. rewrite <- El in Epq at 1.
        rewrite take_app_length, take_app_le in Epq by lia. done.
      - apply (f_equal (drop (length (request_line r) + 2))) in Epq. rewrite <- El in Epq at 1.
        rewrite drop_app_length, drop_app_le in Epq by lia. done. }
    destruct Ep as (p' & -> & Edata). rewrite (run_take session_valid (v, s) _ w2 (length (request_line r) + 2) ev2) by done.
    destruct (law_take _ _ _ _ _ Hw (Hline p')) as [Hw2 _].
    assert (Ed : drop (length (request_line r) + 2) (request_line r ++ kCRLF ++ p') = p') by (rewrite <- drop_drop, drop_app_length; done).
    rewrite Ed. rewrite decide_False in Hrest by (rewrite Edata; by destruct p', q).
    destruct Hrest as (_ & w3 & ev3 & [_ Hpart] & _). destruct p' as [|x p'].
    + rewrite run_nothing. run_res. intros [= <- <- _ _] _. simpl. lia.
    + destruct (Hpart (x :: p') q Edata ltac:(done) Hq) as (w4 & E4 & _).
      rewrite (run_take session_valid w2 _ w4 (length (x :: p')) []) by done. rewrite drop_all, run_nothing. run_res.
      intros [= <- <- _ _] _. simpl. lia.
Qed.

Definition wires (rs : list request) : bytes := concat (wire <$> rs).

Lemma execute_counter r c : (counter c <= counter (execute r c).1 <= counter c + 1)%Z.
Proof. destruct r; cbn [execute]; repeat case_match; cbn [fst counter]; lia. Qed.

Lemma wires_run rs c v s :
  Forall request_ok rs -> represents v c -> ready s -> (counter c + Z.of_nat (length rs) < 2 ^ 31)%Z ->
  exists v' s' out, run_all (v, s) (wires rs) = Ok ((v', s'), [], out, Waiting)
    /\ represents v' (execute_all rs c).1 /\ ready s' /\ sends out = (execute_all rs c).2.
Proof.
  intros Hrs. revert c v s. induction Hrs as [|r rs Hr Hrs IH]; intros c v s Hv Hs Hcnt.
  - exists v, s, []. by rewrite run_nothing.
  - cbn [length] in Hcnt. destruct (run_request r c v s Hv Hs) as (v1 & s1 & o1 & E1 & Hv1 & Hs1 & Ho1);
      [apply request_serves; (done || lia)|]. cbn [fst snd] in *. pose proof (execute_counter r c).
    destruct (IH (execute r c).1 v1 s1 Hv1 Hs1) as (v2 & s2 & o2 & E2 & Hv2 & Hs2 & Ho2); [lia|].
    exists v2, s2, (o1 ++ o2). unfold wires. cbn [fmap list_fmap concat].
    rewrite (run_app session_valid (v, s) (wire r) (concat (wire <$> rs)) (v1, s1) [] o1) by (done || by eapply ready_valid).
    unfold run_more. cbn [app]. unfold wires in E2. rewrite E2. run_res. cbn [execute_all].
    destruct (execute r c) as [c1 a1]. cbn [fst snd] in *. destruct (execute_all rs c1) as [c2 a2]. cbn [fst snd] in *.
    split; [done|]. split; [done|]. split; [done|]. unfold sends in *. rewrite omap_app. by rewrite Ho1, Ho2.
Qed.

Lemma wires_short rs c v s p q w1 l1 o1 e :
  Forall request_ok rs -> represents v c -> ready s -> (counter c + Z.of_nat (length rs) < 2 ^ 31)%Z ->
  wires rs = p ++ q -> run_all (v, s) p = Ok (w1, l1, o1, e) -> short_line w1 l1.
Proof.
  intros Hrs. revert c v s p o1. induction Hrs as [|r rs Hr Hrs IH]; intros c v s p o1 Hv Hs Hcnt Epq.
  - symmetry in Epq. apply app_eq_nil in Epq as [-> _]. rewrite run_nothing. intros [= <- <- _ _] _. simpl. lia.
  - cbn [length] in Hcnt. assert (Hserves : serves r c (v, s)) by (apply request_serves; (done || lia)).
    unfold wires in Epq. cbn [fmap list_fmap concat] in Epq. apply app_eq_inv in Epq as [(k & Ep & Eq)|(k & Ep & Eq)].
    + destruct k as [|x k].
      * rewrite app_nil_r in Ep. subst p.
        destruct (run_request r c v s Hv Hs Hserves) as (v1 & s1 & out & -> & _). intros [= <- <- _ _] _. simpl. lia.
      * by apply (request_short r c v s p (x :: k)).
    + subst p. destruct (run_request r c v s Hv Hs Hserves) as (v1 & s1 & out & E1 & Hv1 & Hs1 & _).
      rewrite (run_app session_valid (v, s) (wire r) k (v1, s1) [] out) by (done || by eapply ready_valid).
      unfold run_more. cbn [app fst snd] in *. pose proof (execute_counter r c).
      destruct (run_all (v1, s1) k) as [[[[w2 l2] o2] e2]|f] eqn:E2; run_res; [|done]. intros [= <- <- _ <-].
      apply (IH (execute r c).1 v1 s1 k o2); [done | done | lia | done | done].
Qed.

(** ** The server *)

(** Reads of the connection [name], each followed by the handler. *)
Fixpoint mc_reads (name : bytes) (buf : Buffer) (reads : list bytes) (m : Memcached) :
    res (Memcached * list session_event * Buffer) :=
  match reads with
  | [] => Ok (m, [], buf)
  | d :: reads =>
      buf ← append_str d buf;
      '(m, events, buf) ← mc_onMessage hash_range memory startTime_ outputWritable name buf m;
      '(m, events', buf) ← mc_reads name buf reads m;
      Ok (m, events ++ events', buf)
  end.

Lemma mc_reads_run name reads m v s n b v' s' l' out :
  sessions_ m !! name = Some (s, n) -> server m = v -> session_valid (v, s) -> buf_inv b ->
  run_reads (v, s) (content b) reads = Ok ((v', s'), l', out, true) ->
  (forall k w1 l1 o1 e, run_all (v, s) (content b ++ concat (take k reads)) = Ok (w1, l1, o1, e) -> short_line w1 l1) ->
  exists m' n' b', mc_reads name b reads m = Ok (m', out, b') /\ server m' = v' /\ sessions_ m' !! name = Some (s', n')
    /\ buf_inv b' /\ content b' = l'.
Proof.
  revert m v s n b out; induction reads as [|d reads IH]; intros m v s n b out Hm <- Hw Hb; cbn [run_reads mc_reads].
  - intros [= <- <- <- <-] _. by exists m, n, b.
  - destruct (append_str_spec d b Hb) as (b1 & -> & Hb1 & Hc1 & _). run_res. rewrite <- Hc1.
    destruct (run_all (server m, s) (content b1)) as [[[[[v1 s1] l1] o1] e1]|] eqn:E1; run_res; [|done].
    destruct (run_reads (v1, s1) l1 reads) as [[[[[v2 s2] l2] o2] w2]|] eqn:E2; run_res; [|done].
    intros [= <- <- <- <- Hwait] Hshort. apply andb_true_iff in Hwait as [He ->]. apply bool_decide_eq_true in He as ->.
    destruct (handler_calm _ session_valid short_line (server m, s) b1 (v1, s1) l1 o1 Waiting
      (session_implements hash_range memory startTime_ outputWritable n) Hw Hb1 E1) as (b2 & Eh & Hb2 & Hc2).
    { intros _. apply (Hshort 1 _ _ o1 Waiting). cbn [take concat]. by rewrite app_nil_r, <- Hc1. }
    unfold mc_onMessage. rewrite Hm. run_res. unfold session_onMessage. rewrite Eh. run_res. cbn [fst snd].
    match goal with |- context [mc_reads name b2 reads ?w] => set (m1 := w) end.
    destruct (IH m1 v1 s1 (n + Z.of_nat (readableBytes b1 - readableBytes b2))%Z b2 o2) as (m' & n' & b' & E' & Hv' & Hs' & Hb' & Hc');
      [by apply lookup_insert_eq | done | exact (run_valid session_valid _ _ _ _ _ _ Hw E1) | done | by rewrite Hc2 | |].
    + intros k w3 l3 o3 e3. rewrite Hc2. intros E3. apply (Hshort (S k) w3 l3 (o1 ++ o3) e3). cbn [take concat].
      rewrite app_assoc, <- Hc1. rewrite (run_app session_valid _ _ _ (v1, s1) l1 o1) by done. unfold run_more. by rewrite E3.
    + exists m', n', b'. by rewrite E'.
Qed.

Lemma new_session_ready : exists s, new_Session hash_range memory = Ok s /\ ready s.
Proof.
  assert (Hlen : length kLongestKey = 250) by (unfold kLongestKey; apply length_replicate).
  destruct (makeItem_spec hash_range memory memory_length kLongestKey 0 0 2 0) as (it & E & Hwf & Hk & _ & Hv & _); [lia..|].
  unfold new_Session. rewrite E. run_res.
  eexists. split; [done|]. split; [|done|done|done|apply new_Buffer_content].
  split; [done | | apply new_Buffer_inv]. split; [done|]. cbn [needle_]. pose proof (iw_data _ Hwf) as Hd.
  unfold totalLen in Hd. rewrite Hk, Hv, Hlen in Hd. lia.
Qed.

Lemma new_server_represents : represents new_MemcacheServer empty_cache.
Proof.
  assert (Hc : forall k, cached new_MemcacheServer k = None).
  { intros k. unfold MemcachedFacts.cached, new_MemcacheServer. cbn [shards_].
    rewrite lookup_replicate_2 by apply shard_index_bound. simpl. apply lookup_empty. }
  split; [split | done | done |].
  - apply length_replicate.
  - intros k it. by rewrite Hc.
  - intros k. by rewrite Hc.
Qed.

(** C20: For the commands [set], [add], [get], [gets], [delete] and [version] the
    server refines a cache: however less than 2^31 well-formed requests of a
    client are cut into reads, no call fails, the answers are exactly those of the
    cache, in order, and the tables then hold what the cache holds. (The other
    storage commands answer that they stored and store nothing,
    [replace_stores_nothing].) *)
Theorem memcached_refines rs reads name :
  Forall request_ok rs -> (Z.of_nat (length rs) < 2 ^ 31)%Z -> concat reads = wires rs ->
  exists m1 m2 events b, mc_onConnection hash_range memory name true new_Memcached = Ok m1
    /\ mc_reads name (new_Buffer kInitialSize) reads m1 = Ok (m2, events, b)
    /\ sends events = (execute_all rs empty_cache).2 /\ content b = []
    /\ represents (server m2) (execute_all rs empty_cache).1.
Proof.
  intros Hrs Hlen Hreads. destruct new_session_ready as (s & Es & Hs).
  pose proof new_server_represents as Hv. pose proof (ready_valid _ _ _ Hv Hs) as Hw.
  destruct (wires_run rs _ _ _ Hrs Hv Hs) as (v' & s' & out & E & Hv' & Hs' & Hout); [simpl; lia|].
  assert (Hc : content (new_Buffer kInitialSize) = []) by apply new_Buffer_content.
  set (m1 := mkMemcached new_MemcacheServer (<[name := (s, 0%Z)]> ∅)).
  destruct (mc_reads_run name reads m1 new_MemcacheServer s 0
    (new_Buffer kInitialSize) v' s' [] out) as (m2 & n' & b' & E2 & Hm2 & _ & _ & Hb'); [by apply lookup_insert_eq | done | done | apply new_Buffer_inv | | |].
  - rewrite Hc. apply (run_whole_reads session_valid); [done | done|]. cbn [app]. by rewrite Hreads.
  - intros k w1 l1 o1 e. rewrite Hc. cbn [app]. intros Ek.
    apply (wires_short rs empty_cache _ s (concat (take k reads)) (concat (drop k reads)) w1 l1 o1 e Hrs Hv Hs); [simpl; lia | | done].
    by rewrite <- Hreads, <- concat_app, take_drop.
  - exists m1, m2, out, b'. unfold mc_onConnection. rewrite Es. run_res. split; [done|]. split; [exact E2|].
    split; [done|]. split; [done|]. by rewrite Hm2.
Qed.

(** ** What goes wrong *)

(** A client can abort the server: [set] and [delete] without a key
    dereference the end of the tokens, and a negative size fails an
    assertion. *)
Theorem request_aborts v s :
  ready s ->
  processRequest (str "set") v s = Fault AssertFailed /\ processRequest (str "delete") v s = Fault AssertFailed
  /\ processRequest (str "set k 0 0 -1") v s = Fault AssertFailed.
Proof.
  intros Hs.
  assert (H : forall command ts, bool_decide (Forall word_ok (command :: ts)) = true ->
    bool_decide (last (command :: ts) = Some NOREPLY) = false ->
    processRequest (words (command :: ts)) v s = run_command command ts v (asked command false s)).
  { intros command ts Hw Hl. apply bool_decide_eq_true in Hw. apply bool_decide_eq_false in Hl.
    rewrite <- (process_words command ts false v s Hs Hw) by done. by rewrite app_nil_r. }
  split; [exact (H (str "set") [] eq_refl eq_refl)|]. split; [exact (H (str "delete") [] eq_refl eq_refl)|].
  exact (H (str "set") [str "k"; str "0"; str "0"; str "-1"] eq_refl eq_refl).
Qed.

(** [replace], [append], [prepend] and [cas] are answered with success but
    store nothing, whether the key exists or not. *)
Theorem replace_stores_nothing k e it v s :
  server_wf v -> stored k it -> hash_ it = hash_range k -> item_is k e it ->
  policy_ s <> kSet -> policy_ s <> kAdd ->
  finish_value it v s = Ok (v, reply (str "STORED" ++ kCRLF) s).
Proof.
  intros Hv Hst Hh Hit Hs Ha. unfold finish_value. rewrite (endsWithCRLF_item _ _ _ Hit) by apply Hst. run_res.
  rewrite (storeItem_keeps hash_range it k) by done. run_res. by rewrite bool_decide_eq_false_2.
Qed.
End Refines.

(** A hash function and memory. *)
Definition length_hash (l : bytes) : Z := Z.of_nat (length l).
Definition fresh_memory (n : nat) : bytes := replicate n "?"%char.

Definition example_requests : list request :=
  [Store false (str "a") 5 0 (str "abc") false; Get true [str "a"; str "b"]; Store true (str "a") 0 0 (str "x") true;
   Delete (str "a") false; Get false [str "a"]; Version].

Lemma memcached_refines_witness :
  exists m1 m2 events b, mc_onConnection length_hash fresh_memory (str "c1") true new_Memcached = Ok m1
    /\ mc_reads length_hash fresh_memory 0 (fun _ => 0) (str "c1") (new_Buffer kInitialSize)
         [take 15 (wires example_requests); drop 15 (wires example_requests)] m1 = Ok (m2, events, b)
    /\ sends events = (execute_all example_requests empty_cache).2 /\ content b = []
    /\ represents length_hash (server m2) (execute_all example_requests empty_cache).1.
Proof.
  apply memcached_refines.
  - intros n. apply length_replicate.
  - repeat (apply Forall_cons; split); try done; cbn [request_ok]; unfold key_ok, word_ok;
      split_and?; try (by apply (bool_decide_unpack _); vm_compute); try lia; repeat constructor;
      by apply (bool_decide_unpack _); vm_compute.
  - done.
  - cbn [concat]. rewrite app_nil_r. apply take_drop.
Defined.

Lemma request_aborts_witness :
  exists s, new_Session length_hash fresh_memory = Ok s
    /\ Memcached.processRequest length_hash fresh_memory 0 (fun _ => 0) (str "set") new_MemcacheServer s = Fault AssertFailed.
Proof.
  destruct (new_session_ready length_hash fresh_memory) as (s & E & Hs); [intros n; apply length_replicate|].
  exists s. split; [exact E|]. apply (request_aborts length_hash fresh_memory 0 (fun _ => 0) new_MemcacheServer s Hs).
Defined.

(** The item of key [k] and value [v]. *)
Definition example_item : Item :=
  mkItem 1 0 0 3 4 0 (length_hash (str "k")) (str "kv" ++ kCRLF).

Lemma replace_stores_nothing_witness :
  exists s, new_Session length_hash fresh_memory = Ok s
    /\ finish_value example_item new_MemcacheServer (set_policy kReplace s) = Ok (new_MemcacheServer, [SessionSend (str "STORED" ++ kCRLF)]).
Proof.
  destruct (new_session_ready length_hash fresh_memory) as (s & E & Hs); [intros n; apply length_replicate|].
  exists s. split; [exact E|].
  rewrite (replace_stores_nothing length_hash (str "k") (mkEntry 0 (str "v") 0) example_item new_MemcacheServer (set_policy kReplace s)).
  - unfold reply, conn_send. cbn [noreply_ connected_ set_policy set_request]. rewrite (rd_connected _ _ Hs).
    pose proof (rd_phase _ _ Hs) as Hp. unfold session_phase in Hp. rewrite (rd_state _ _ Hs) in Hp.
    destruct Hp as (_ & -> & _). reflexivity.
  - apply (rp_wf _ _ _ (new_server_represents length_hash)).
  - split; [split; vm_compute; try done; split; congruence|]. done.
  - done.
  - done.
  - done.
  - done.
Defined.
