(* ===== verification/FileNames.v ===== *)
(** * File names: the name functions of [src/msmuduo/base/FileUtil.cpp]

    A pointer into the path is its offset from the start; offset -1, where the
    scans to the left end, is compared and never read by a guarded loop. *)
From S2P Require Import Prelude.

Definition is_sep (c : char) : bool := Ascii.eqb c "/" || Ascii.eqb c "\".

(** What a pointer into an array points to. *)
Definition char_at (l : bytes) (i : Z) : res char :=
  if (i <? 0)%Z then Fault OutOfBounds else get_ OutOfBounds (l !! Z.to_nat i).

(** The loop that moves [p] to the left while it is in the array and what it
    points to passes a test. *)
Fixpoint scan_back (fuel : nat) (test : char -> bool) (l : bytes) (i : Z) : res Z :=
  if (i <? 0)%Z then Ok i
  else match fuel with
       | O => Fault OutOfFuel
       | S fuel => c ← char_at l i; if test c then scan_back fuel test l (i - 1) else Ok i
       end.

(** [string::assign(first, last)] if there is something between them. *)
Definition assign_between (l : bytes) (nameStart nameEnd : Z) : bytes :=
  if (nameStart <? nameEnd)%Z then take (Z.to_nat (nameEnd - nameStart)) (drop (Z.to_nat nameStart) l) else [].

(** A round looks at one character. *)
Definition getFileNameFromPath (filePath : bytes) : res bytes :=
  let n := length filePath in
  nameEnd ← scan_back n is_sep filePath (Z.of_nat n - 1);
  nameStart ← scan_back n (fun c => negb (is_sep c)) filePath nameEnd;
  Ok (assign_between filePath (nameStart + 1) (nameEnd + 1)).

(** The loop that looks for the dot: where it is, if there is one behind the
    last separator. *)
Fixpoint find_dot (fuel : nat) (l : bytes) (ptr : Z) : res (option Z) :=
  if (ptr <? 0)%Z then Ok None
  else match fuel with
       | O => Fault OutOfFuel
       | S fuel =>
           c ← char_at l ptr;
           if Ascii.eqb c "." then Ok (Some ptr)
           else if is_sep c then Ok None
           else find_dot fuel l (ptr - 1)
       end.

Definition getFileNameNotExtFromPath (filePath : bytes) : res bytes :=
  let n := length filePath in
  let nameEnd := (Z.of_nat n - 1)%Z in
  c ← char_at filePath nameEnd;
  nameEnd ← (if is_sep c then
               nameEnd ← scan_back n is_sep filePath nameEnd; Ok (nameEnd + 1)%Z
             else
               dot ← find_dot n filePath nameEnd;
               Ok (default nameEnd dot));
  nameStart ← scan_back n (fun c => negb (is_sep c)) filePath (nameEnd - 1);
  Ok (assign_between filePath (nameStart + 1) nameEnd).

(** ** Paths: a directory, a name and separators behind it *)
Record path_parts (l dir name tail : bytes) : Prop := {
  pp_split : l = dir ++ name ++ tail;
  pp_dir : dir = [] \/ exists d c, dir = d ++ [c] /\ is_sep c = true;
  pp_name : Forall (fun c => is_sep c = false) name;
  pp_tail : Forall (fun c => is_sep c = true) tail;
  pp_empty : name = [] -> dir = []
}.

(** The end of a list that satisfies a test. *)
Lemma split_back (p : char -> bool) l :
  exists a b, l = a ++ b /\ Forall (fun c => p c = true) b /\ (a = [] \/ exists d c, a = d ++ [c] /\ p c = false).
Proof.
  induction l as [|c l IH] using rev_ind; [exists [], []; by repeat constructor; left|].
  destruct (p c) eqn:Hc.
  - destruct IH as (a & b & -> & Hb & Ha). exists a, (b ++ [c]). rewrite <- app_assoc. split; [done|]. split; [|done].
    by apply Forall_app; repeat constructor.
  - exists (l ++ [c]), []. rewrite app_nil_r. split; [done|]. split; [constructor|]. right. by exists l, c.
Qed.

(** Every path has its parts. *)
Lemma path_parts_exist l : exists dir name tail, path_parts l dir name tail.
Proof.
  destruct (split_back is_sep l) as (a & tail & -> & Ht & Ha).
  destruct (split_back (fun c => negb (is_sep c)) a) as (dir & name & -> & Hn & Hd).
  exists dir, name, tail. split.
  - by rewrite <- app_assoc.
  - destruct Hd as [->|(d & c & -> & Hc)]; [by left | right]. exists d, c. by apply negb_false_iff in Hc.
  - eapply Forall_impl; [exact Hn|]. intros c H. by apply negb_true_iff.
  - done.
  - intros ->. rewrite app_nil_r in Ha. destruct Ha as [Ha|(d & c & E & Hc)]; [done|].
    destruct Hd as [Hd|(d' & c' & E' & Hc')]; [done|]. rewrite E' in E. apply app_inj_2 in E as [_ [= ->]]; [|done].
    simpl in Hc'. by rewrite Hc in Hc'.
Qed.

Lemma char_at_app (a b : bytes) c i : i = Z.of_nat (length a) -> char_at (a ++ c :: b) i = Ok c.
Proof.
  intros ->. unfold char_at. destruct (Z.ltb_spec (Z.of_nat (length a)) 0) as [Hz|Hz]; [lia|]. clear Hz.
  by rewrite Nat2Z.id, list_lookup_middle.
Qed.

(** A scan passes what satisfies its test. *)
Lemma scan_back_spec test b : forall a t fuel i,
  Forall (fun c => test c = true) b -> (a = [] \/ exists d c, a = d ++ [c] /\ test c = false) ->
  length (a ++ b) <= fuel -> i = (Z.of_nat (length (a ++ b)) - 1)%Z ->
  scan_back fuel test (a ++ b ++ t) i = Ok (Z.of_nat (length a) - 1)%Z.
Proof.
  induction b as [|c b IH] using rev_ind; intros a t fuel i Hb Ha Hf ->.
  - rewrite app_nil_r in *. destruct Ha as [->|(d & c & -> & Hc)].
    { by destruct fuel. }
    rewrite length_app in *. simpl length in *. destruct fuel as [|fuel]; [lia|]. cbn [scan_back].
    destruct (Z.ltb_spec (Z.of_nat (length d + 1) - 1) 0) as [Hz|_]; [lia|].
    rewrite <- app_assoc. cbn [app]. rewrite char_at_app by lia. run_res. by rewrite Hc.
  - apply Forall_app in Hb as [Hb [Hc _]%Forall_cons]. rewrite !length_app in *. simpl length in *.
    destruct fuel as [|fuel]; [lia|]. cbn [scan_back].
    destruct (Z.ltb_spec (Z.of_nat (length a + (length b + 1)) - 1) 0) as [Hz|_]; [lia|].
    replace (a ++ (b ++ [c]) ++ t) with ((a ++ b) ++ c :: t) by (by rewrite <- !app_assoc).
    rewrite char_at_app by (rewrite length_app; lia). run_res. rewrite Hc, <- app_assoc.
    apply IH; [done|done| |]; rewrite length_app; lia.
Qed.

(** The text between two offsets that the parts of the path give. *)
Lemma assign_parts (dir name t : bytes) (x y : Z) :
  x = Z.of_nat (length dir) -> y = Z.of_nat (length dir + length name) ->
  assign_between (dir ++ name ++ t) x y = name.
Proof.
  intros -> ->. unfold assign_between. destruct (Z.ltb_spec (Z.of_nat (length dir)) (Z.of_nat (length dir + length name))) as [H|H].
  - replace (Z.to_nat (Z.of_nat (length dir + length name) - Z.of_nat (length dir))) with (length name) by lia.
    by rewrite Nat2Z.id, drop_app_length, take_app_length.
  - destruct name; [done|]. simpl in H. lia.
Qed.

(** Between a separator, or the start, and the text before [nameEnd]. *)
Lemma scan_name dir name t fuel i :
  (dir = [] \/ exists d c, dir = d ++ [c] /\ is_sep c = true) -> Forall (fun c => is_sep c = false) name ->
  length (dir ++ name) <= fuel -> i = (Z.of_nat (length (dir ++ name)) - 1)%Z ->
  scan_back fuel (fun c => negb (is_sep c)) (dir ++ name ++ t) i = Ok (Z.of_nat (length dir) - 1)%Z.
Proof.
  intros Hd Hn. apply scan_back_spec.
  - eapply Forall_impl; [exact Hn|]. by intros c ->.
  - destruct Hd as [->|(d & c & -> & Hc)]; [by left | right]. exists d, c. by rewrite Hc.
Qed.

Lemma scan_tail dir name tail fuel :
  path_parts (dir ++ name ++ tail) dir name tail -> length (dir ++ name ++ tail) <= fuel ->
  scan_back fuel is_sep (dir ++ name ++ tail) (Z.of_nat (length (dir ++ name ++ tail)) - 1)
  = Ok (Z.of_nat (length (dir ++ name)) - 1)%Z.
Proof.
  intros [_ Hd Hn Ht He] Hf. rewrite app_assoc in *. rewrite <- (app_nil_r tail) at 1.
  apply scan_back_spec; [done | | done | done].
  destruct name as [|c name _] using rev_ind; [left; by rewrite He|].
  apply Forall_app in Hn as [_ [Hc _]%Forall_cons]. right. exists (dir ++ name), c. by rewrite <- app_assoc.
Qed.

(** Where the search for the dot stops, before characters it passes. *)
Definition stops_at (a : bytes) (dot : option Z) : Prop :=
  (a = [] /\ dot = None)
  \/ exists d c, a = d ++ [c] /\ ((c = "."%char /\ dot = Some (Z.of_nat (length d)))
                               \/ (is_sep c = true /\ dot = None)).

Lemma find_dot_spec ext : forall a t dot fuel i,
  Forall (fun c => is_sep c = false) ext -> "."%char ∉ ext -> stops_at a dot ->
  length (a ++ ext) <= fuel -> i = (Z.of_nat (length (a ++ ext)) - 1)%Z ->
  find_dot fuel (a ++ ext ++ t) i = Ok dot.
Proof.
  induction ext as [|c ext IH] using rev_ind; intros a t dot fuel i Hn Hd Ha Hf ->.
  - rewrite app_nil_r in *. destruct Ha as [[-> ->]|(d & c & -> & Hc)]; [by destruct fuel|].
    rewrite length_app in *. simpl length in *. destruct fuel as [|fuel]; [lia|]. cbn [find_dot].
    destruct (Z.ltb_spec (Z.of_nat (length d + 1) - 1) 0) as [Hz|_]; [lia|].
    rewrite <- app_assoc. cbn [app]. rewrite char_at_app by lia. run_res.
    destruct Hc as [[-> ->]|[Hc ->]]; [rewrite Ascii.eqb_refl; do 2 f_equal; lia|].
    destruct (Ascii.eqb_spec c ".") as [->|_]; [done|]. by rewrite Hc.
  - apply Forall_app in Hn as [Hn [Hc _]%Forall_cons]. apply not_elem_of_app in Hd as [Hd Hd'].
    apply not_elem_of_cons in Hd' as [Hdot _].
    rewrite !length_app in *. simpl length in *. destruct fuel as [|fuel]; [lia|]. cbn [find_dot].
    destruct (Z.ltb_spec (Z.of_nat (length a + (length ext + 1)) - 1) 0) as [Hz|_]; [lia|].
    replace (a ++ (ext ++ [c]) ++ t) with ((a ++ ext) ++ c :: t) by (by rewrite <- !app_assoc).
    rewrite char_at_app by (rewrite length_app; lia). run_res.
    destruct (Ascii.eqb_spec c ".") as [->|_]; [done|]. rewrite Hc, <- app_assoc.
    apply IH; [done|done|done| |]; rewrite length_app; lia.
Qed.

Lemma last_char (l : bytes) c : char_at (l ++ [c]) (Z.of_nat (length (l ++ [c])) - 1) = Ok c.
Proof. apply char_at_app. rewrite length_app. simpl. lia. Qed.

Lemma dir_stops dir : dir = [] \/ (exists d c, dir = d ++ [c] /\ is_sep c = true) -> stops_at dir None.
Proof. intros [->|(d & c & -> & Hc)]; [by left | right]. exists d, c. split; [done|]. by right. Qed.

(** A path that ends in its name: where the dot is, and the name before it. *)
Lemma stem_of dir name dot nameEnd stem t :
  (dir = [] \/ exists d c, dir = d ++ [c] /\ is_sep c = true) -> Forall (fun c => is_sep c = false) name -> name <> [] ->
  find_dot (length (dir ++ name)) (dir ++ name) (Z.of_nat (length (dir ++ name)) - 1) = Ok dot ->
  nameEnd = default (Z.of_nat (length (dir ++ name)) - 1)%Z dot ->
  name = stem ++ t -> nameEnd = Z.of_nat (length (dir ++ stem)) ->
  getFileNameNotExtFromPath (dir ++ name) = Ok stem.
Proof.
  intros Hd Hn Hne Edot Hend -> Hlen. unfold getFileNameNotExtFromPath.
  destruct (exists_last Hne) as (l & c & El).
  assert (Hc : char_at (dir ++ stem ++ t) (Z.of_nat (length (dir ++ stem ++ t)) - 1) = Ok c)
    by (rewrite El, app_assoc; apply last_char).
  rewrite Hc. run_res. pose proof Hn as Hn'. rewrite El in Hn'. apply Forall_app in Hn' as [_ [Hsep _]%Forall_cons].
  rewrite Hsep, Edot. run_res. rewrite <- Hend.
  rewrite scan_name; [run_res | done | | rewrite !length_app; lia | lia].
  - f_equal. apply assign_parts; [lia|]. rewrite Hlen, length_app. lia.
  - by apply Forall_app in Hn as [? _].
Qed.

(** The name of a path is what stands between its last separator and the
    separators at its end, and every path has one. *)
Theorem path_name l :
  exists dir name tail, path_parts l dir name tail /\ getFileNameFromPath l = Ok name.
Proof.
  destruct (path_parts_exist l) as (dir & name & tail & H). exists dir, name, tail. split; [done|].
  pose proof H as [-> Hd Hn _ _]. unfold getFileNameFromPath. rewrite scan_tail by done. run_res.
  rewrite scan_name; [|done|done|rewrite !length_app; lia|done]. run_res.
  f_equal. apply assign_parts; rewrite ?length_app; lia.
Qed.

(** The name without its extension is, with separators behind it, the whole
    name; with a dot, what stands before the last one; without a dot it loses
    its last character, and the empty path is read before its start. *)
Theorem path_stem l dir name tail :
  path_parts l dir name tail ->
  (tail <> [] -> getFileNameNotExtFromPath l = Ok name)
  /\ (forall stem ext, tail = [] -> name = stem ++ "."%char :: ext -> "."%char ∉ ext ->
        getFileNameNotExtFromPath l = Ok stem)
  /\ (tail = [] -> name <> [] -> "."%char ∉ name -> getFileNameNotExtFromPath l = Ok (removelast name))
  /\ (l = [] -> getFileNameNotExtFromPath l = Fault OutOfBounds).
Proof.
  intros H. pose proof H as [-> Hd Hn Ht He]. split_and!.
  - intros Htail. unfold getFileNameNotExtFromPath. destruct (exists_last Htail) as (t & c & ->).
    assert (Hc : char_at (dir ++ name ++ t ++ [c]) (Z.of_nat (length (dir ++ name ++ t ++ [c])) - 1) = Ok c)
      by (rewrite !app_assoc; apply last_char).
    rewrite Hc. run_res. apply Forall_app in Ht as [_ [-> _]%Forall_cons].
    rewrite scan_tail by done. run_res.
    rewrite scan_name; [|done|done|rewrite !length_app; lia|lia]. run_res.
    f_equal. apply assign_parts; rewrite ?length_app; lia.
  - intros stem ext -> -> Hx. rewrite app_nil_r. apply Forall_app in Hn as Hn'. destruct Hn' as [_ [_ Hext]%Forall_cons].
    eapply (stem_of _ _ (Some (Z.of_nat (length (dir ++ stem))))); [done|done|by destruct stem| |done|done|done].
    replace (dir ++ stem ++ "."%char :: ext) with ((dir ++ stem ++ ["."%char]) ++ ext ++ [])
      by (by rewrite app_nil_r, <- !app_assoc).
    apply find_dot_spec; [done|done| |rewrite app_nil_r; lia|by rewrite app_nil_r].
    right. exists (dir ++ stem), "."%char. rewrite <- app_assoc. split; [done|]. by left.
  - intros -> Hne Hdot. rewrite app_nil_r. destruct (exists_last Hne) as (stem & c & ->). rewrite removelast_last.
    eapply (stem_of _ _ None); [done|done|done| |done|done|rewrite !length_app; simpl; lia].
    rewrite <- (app_nil_r (stem ++ [c])). apply find_dot_spec; [done|done|by apply dir_stops|by rewrite app_nil_r|by rewrite app_nil_r].
  - by intros ->.
Qed.

Lemma path_stem_witness :
  getFileNameNotExtFromPath (str "/var/log/msmuduo.log.1") = Ok (str "msmuduo.log")
  /\ getFileNameNotExtFromPath (str "/etc/passwd") = Ok (str "passw").
Proof.
  split.
  - apply (path_stem _ (str "/var/log/") (str "msmuduo.log.1") []) with (ext := str "1");
      [|done|done|by apply (bool_decide_unpack _); vm_compute].
    split; [done| |by repeat constructor|constructor|done]. right. by exists (str "/var/log"), "/"%char.
  - apply (path_stem _ (str "/etc/") (str "passwd") []); [|done|done|by apply (bool_decide_unpack _); vm_compute].
    split; [done| |by repeat constructor|constructor|done]. right. by exists (str "/etc"), "/"%char.
Defined.
