(* ===== verification/FileConf.v ===== *)
(** * Configuration files: [src/msmuduo/base/FileConfReader.h],
    [FileConfReader.cpp]

    A file is the text its stream delivers. Lines [key=value] are read into a
    [std::map]; [setVal] changes the map and writes it back. C strings are the
    characters before their terminating NUL. *)
From S2P Require Import Prelude.
From S2P Require Import Endian.
From S2P Require Import StdContainers.
From S2P Require Import Format.
From S2P Require Import FileNames.

Definition newline : char := "010"%char.

Record FileConfReader := mkReader {
  load_ok_ : bool;
  config_map_ : list (bytes * bytes);
  config_file_ : bytes
}.

(** The text before the first [c]: what is left of an array whose first [c]
    becomes a NUL, or, for a NUL, the C string in it. *)
Definition before (c : char) (l : bytes) : bytes :=
  match find_char c l with Some i => take i l | None => l end.

Definition is_blank (c : char) : bool := Ascii.eqb c " " || Ascii.eqb c "009".

(** ** Lines *)

Fixpoint skip_blanks (l : bytes) : bytes :=
  match l with
  | c :: l' => if is_blank c then skip_blanks l' else l
  | [] => []
  end.

(** The loop at the end, which does not test for the start of the array: where
    it stops. *)
Fixpoint trim_end (fuel : nat) (name : bytes) (end_pos : Z) : res Z :=
  c ← char_at name end_pos;
  if is_blank c then
    match fuel with O => Fault OutOfFuel | S fuel => trim_end fuel name (end_pos - 1) end
  else Ok end_pos.

(** [trimSpace]: the text, unless the result is NULL. *)
Definition trimSpace (name : bytes) : res (option bytes) :=
  let start := skip_blanks name in
  if length start =? 0 then Ok None
  else
    end_pos ← trim_end (length name) name (Z.of_nat (length name) - 1);
    let start_pos := Z.of_nat (length name - length start) in
    let len := (end_pos - start_pos + 1)%Z in
    if (len <=? 0)%Z then Ok None else Ok (Some (take (Z.to_nat len) start)).

Definition parseLine (line : bytes) (m : list (bytes * bytes)) : res (list (bytes * bytes)) :=
  match find_char "=" line with
  | None => Ok m
  | Some p =>
      key ← trimSpace (take p line);
      val ← trimSpace (drop (S p) line);
      Ok (match key, val with Some key, Some val => map_insert key val m | _, _ => m end)
  end.

(** [fgets]: at most n - 1 characters, up to and with the first newline. *)
Definition fgets (n : nat) (fp : bytes) : option (bytes * bytes) :=
  match fp with
  | [] => None
  | _ =>
      let k := match find_char newline fp with Some i => S i | None => length fp end `min` (n - 1) in
      Some (take k fp, drop k fp)
  end.

(** What the body of the loop of [loadFile] makes of the line in its array. *)
Definition strip (buf : bytes) : res bytes :=
  let s := before nul buf in
  c ← char_at s (Z.of_nat (length s) - 1);
  let s := if Ascii.eqb c newline then take (length s - 1) s else s in
  Ok (before "#" s).

Definition load_line (buf : bytes) (m : list (bytes * bytes)) : res (list (bytes * bytes)) :=
  line ← strip buf;
  if length line =? 0 then Ok m else parseLine line m.

Fixpoint load_loop (fuel : nat) (fp : bytes) (m : list (bytes * bytes)) : res (list (bytes * bytes)) :=
  match fgets 256 fp with
  | None => Ok m
  | Some (buf, fp) =>
      match fuel with
      | O => Fault OutOfFuel
      | S fuel => m ← load_line buf m; load_loop fuel fp m
      end
  end.

(** [loadFile]; [file] is what [fopen] opens, if it does. A line takes a
    character of the file. *)
Definition loadFile (filename : bytes) (file : option bytes) (r : FileConfReader) : res FileConfReader :=
  match file with
  | None => Ok (mkReader (load_ok_ r) (config_map_ r) filename)
  | Some fp => m ← load_loop (length fp) fp (config_map_ r); Ok (mkReader true m filename)
  end.

(** The constructor, which leaves [load_ok_] as [memory] has it. *)
Definition new_FileConfReader (memory : bool) (filename : bytes) (file : option bytes) : res FileConfReader :=
  loadFile filename file (mkReader memory [] []).

Definition getKey (key : bytes) (r : FileConfReader) : option bytes :=
  if load_ok_ r then map_find key (config_map_ r) else None.

(** ** Writing *)
Section Write.
Context `{Platform}.

(** [szPaire]: the array of 128 characters, cleared, as [strlen] reads it. *)
Definition szPaire (kv : bytes * bytes) : res bytes :=
  snprintf_z 128 (kv.1 ++ str "=" ++ kv.2 ++ [newline]).

(** The loop of [writeFile]; [accepts] gives, by the number of lines still to
    come, how much [fwrite] takes. The result and what the file then holds. *)
Fixpoint write_pairs (accepts : nat -> nat) (m : list (bytes * bytes)) : res (Z * bytes) :=
  match m with
  | [] => Ok (0%Z, [])
  | kv :: m =>
      line ← szPaire kv;
      let x := accepts (length m) `min` length line in
      if x =? length line then
        '(ret, text) ← write_pairs accepts m; Ok (ret, line ++ text)
      else Ok ((-1)%Z, take x line)
  end.

(** [writeFile]: what it returns and the new contents of the file, if it could
    be opened. *)
Definition writeFile (opened : bool) (accepts : nat -> nat) (r : FileConfReader) : res (Z * option bytes) :=
  if opened then '(ret, text) ← write_pairs accepts (config_map_ r); Ok (ret, Some text)
  else Ok ((-1)%Z, None).

Definition setVal (key val : bytes) (opened : bool) (accepts : nat -> nat) (r : FileConfReader) :
    res (Z * option bytes * FileConfReader) :=
  if load_ok_ r then
    let m := match map_find key (config_map_ r) with
             | Some _ => map_set key val (config_map_ r)
             | None => map_insert key val (config_map_ r)
             end in
    let r := mkReader true m (config_file_ r) in
    '(ret, file) ← writeFile opened accepts r;
    Ok (ret, file, r)
  else Ok (0%Z, None, r).
End Write.

(** ** Trimming *)

(** A text that starts and ends in something that is not blank. *)
Definition trimmed (s : bytes) : Prop :=
  (exists c t, s = c :: t /\ is_blank c = false) /\ (exists d c, s = d ++ [c] /\ is_blank c = false).

Lemma trim_end_spec a c b : forall t fuel i,
  is_blank c = false -> Forall (fun c => is_blank c = true) b -> length b <= fuel ->
  i = Z.of_nat (length a + length b) -> trim_end fuel (a ++ c :: b ++ t) i = Ok (Z.of_nat (length a)).
Proof.
  intros t fuel i Hc. revert t fuel i. induction b as [|x b IH] using rev_ind; intros t fuel i Hb Hf ->.
  - simpl length. rewrite Nat.add_0_r. destruct fuel; cbn [trim_end app]; rewrite char_at_app by done; run_res; by rewrite Hc.
  - apply Forall_app in Hb as [Hb [Hx _]%Forall_cons]. rewrite length_app in *. simpl length in *.
    destruct fuel as [|fuel]; [lia|]. cbn [trim_end].
    replace (a ++ c :: (b ++ [x]) ++ t) with ((a ++ c :: b) ++ x :: t) by (by rewrite <- !app_assoc).
    rewrite char_at_app by (rewrite length_app; simpl; lia). run_res. rewrite Hx, <- app_assoc. cbn [app].
    apply IH; [done|lia..].
Qed.

Lemma skip_blanks_app a s : Forall (fun c => is_blank c = true) a -> skip_blanks (a ++ s) = skip_blanks s.
Proof. induction 1 as [|c a Hc _ IH]; [done|]. simpl. by rewrite Hc. Qed.

Lemma trimSpace_eq a s b :
  Forall (fun c => is_blank c = true) a -> trimmed s -> Forall (fun c => is_blank c = true) b ->
  trimSpace (a ++ s ++ b) = Ok (Some s).
Proof.
  intros Ha [(c & t & Es & Hc) (d & c' & Ed & Hc')] Hb. unfold trimSpace. rewrite skip_blanks_app by done.
  assert (Hs : skip_blanks (s ++ b) = s ++ b) by (rewrite Es; simpl; by rewrite Hc). rewrite Hs.
  assert (Hl : 0 < length s) by (rewrite Es; simpl; lia).
  rewrite (proj2 (Nat.eqb_neq _ 0)) by (rewrite length_app; lia).
  assert (Et : trim_end (length (a ++ s ++ b)) (a ++ s ++ b) (Z.of_nat (length (a ++ s ++ b)) - 1)
               = Ok (Z.of_nat (length (a ++ d)))).
  { replace (a ++ s ++ b) with ((a ++ d) ++ c' :: b ++ []) at 2 by (by rewrite Ed, app_nil_r, <- !app_assoc).
    apply trim_end_spec; [done|done|rewrite !length_app; lia|]. rewrite Ed, !length_app. simpl. lia. }
  rewrite Et. run_res. apply (f_equal length) in Ed. rewrite length_app in Ed. simpl in Ed.
  rewrite !length_app. rewrite (proj2 (Z.leb_gt _ _)) by lia.
  match goal with |- context [take ?n _] => replace n with (length s) by lia end. by rewrite take_app_length.
Qed.

(** Whatever a text is, what [trimSpace] finds is inside it. *)
Lemma trimSpace_total name :
  trimSpace name = Ok None \/ exists a s b, name = a ++ s ++ b /\ trimmed s /\ trimSpace name = Ok (Some s).
Proof.
  destruct (skip_blanks name) as [|c t] eqn:E; [left; unfold trimSpace; by rewrite E|]. right.
  assert (Hn : exists a, name = a ++ c :: t /\ Forall (fun c => is_blank c = true) a /\ is_blank c = false).
  { revert E. induction name as [|x name IH]; [done|]. simpl. destruct (is_blank x) eqn:Hx.
    - intros (a & -> & Ha & Hc)%IH. exists (x :: a). split; [done|]. split; [by constructor|done].
    - intros [= -> ->]. by exists []. }
  destruct Hn as (a & -> & Ha & Hc). destruct (split_back is_blank (c :: t)) as (s & b & Es & Hb & Hs).
  assert (Hsc : exists u, s = c :: u).
  { destruct s as [|x s]; [|by injection Es as <- _; exists s]. destruct b as [|y b]; [done|].
    injection Es as <- _. apply Forall_cons in Hb as [Hb _]. by rewrite Hc in Hb. }
  destruct Hsc as [u ->].
  assert (Ht : trimmed (c :: u)) by (split; [by exists c, u|]; by destruct Hs).
  exists a, (c :: u), b. rewrite Es. split; [done|]. split; [done|]. by apply trimSpace_eq.
Qed.

(** ** Reading *)

(** What a text without NULs does to [strip]. *)
Lemma before_spec c l : (c ∉ l /\ before c l = l) \/ exists a b, l = a ++ c :: b /\ before c l = a /\ c ∉ a.
Proof.
  unfold before. destruct (find_char c l) as [i|] eqn:E.
  - right. destruct (find_char_Some _ _ _ E) as (a & b & -> & <- & Hn). exists a, b.
    split_and!; [done|apply take_app_length|done].
  - left. by apply find_char_None in E.
Qed.

Lemma before_none c l : c ∉ l -> before c l = l.
Proof. intros Hn%find_char_None. unfold before. by rewrite Hn. Qed.

Lemma strip_last s c :
  nul ∉ s ++ [c] -> strip (s ++ [c]) = Ok (before "#" (if Ascii.eqb c newline then s else s ++ [c])).
Proof.
  intros Hn. unfold strip. rewrite before_none, last_char by done. run_res.
  destruct (Ascii.eqb c newline); [|done]. rewrite length_app. simpl length.
  by rewrite Nat.add_sub, take_app_length.
Qed.

(** No line without NULs makes [load_line] fail. *)
Lemma load_line_total buf m :
  buf <> [] -> nul ∉ buf -> keys_sorted m -> exists m', load_line buf m = Ok m' /\ keys_sorted m'.
Proof.
  intros Hne Hn Hm. destruct (exists_last Hne) as (s & c & ->). unfold load_line. rewrite strip_last by done. run_res.
  set (line := before _ _). destruct (length line =? 0); [by exists m|].
  unfold parseLine. destruct (find_char "=" line) as [p|]; [|by exists m].
  destruct (trimSpace_total (take p line)) as [->|(? & k & ? & _ & _ & ->)]; run_res;
    destruct (trimSpace_total (drop (S p) line)) as [->|(? & v & ? & _ & _ & ->)]; run_res;
    eexists; (split; [reflexivity|]); auto using map_insert_sorted.
Qed.

Lemma fgets_spec n fp buf rest :
  1 < n -> fgets n fp = Some (buf, rest) -> fp = buf ++ rest /\ buf <> [].
Proof.
  intros Hn. unfold fgets. destruct fp as [|c fp]; [done|].
  set (k := _ `min` _). intros [= <- <-]. split; [by rewrite take_drop|].
  assert (Hk : 0 < k) by (apply Nat.min_glb_lt; [destruct (find_char newline _); simpl; lia | lia]).
  by destruct k; [lia|].
Qed.

Lemma load_loop_total fuel fp m :
  length fp <= fuel -> nul ∉ fp -> keys_sorted m -> exists m', load_loop fuel fp m = Ok m' /\ keys_sorted m'.
Proof.
  revert fp m; induction fuel as [|fuel IH]; intros fp m Hf Hn Hm; cbn [load_loop].
  - destruct fp; [by exists m | simpl in Hf; lia].
  - destruct (fgets 256 fp) as [[buf rest]|] eqn:E; [|by exists m].
    apply fgets_spec in E as [-> Hb]; [|lia]. apply not_elem_of_app in Hn as [Hn Hr].
    destruct (load_line_total buf m Hb Hn Hm) as (m' & -> & Hm'). run_res. apply IH; [|done|done].
    rewrite length_app in Hf. destruct buf; [done|]. simpl in Hf. lia.
Qed.

(** ** Entries that survive writing and reading *)
Definition plain (separators : list char) (s : bytes) : Prop :=
  trimmed s /\ Forall (fun c => c ∉ nul :: newline :: "#"%char :: separators) s.

(** A key holds no equals sign; both fit the array of a line. *)
Definition entry_ok (kv : bytes * bytes) : Prop :=
  plain ["="%char] kv.1 /\ plain [] kv.2 /\ length kv.1 + length kv.2 + 2 < 128.

Definition line_of (kv : bytes * bytes) : bytes := kv.1 ++ str "=" ++ kv.2 ++ [newline].

Lemma plain_not_in l s c : plain l s -> c ∈ nul :: newline :: "#"%char :: l -> c ∉ s.
Proof. intros [_ Hf] Hc Hs. rewrite Forall_forall in Hf. by apply (Hf c Hs). Qed.

Lemma szPaire_ok `{Platform} kv : entry_ok kv -> szPaire kv = Ok (line_of kv).
Proof. intros (_ & _ & Hl). unfold szPaire. rewrite snprintf_z_fits; [done|]. rewrite !length_app. simpl. lia. Qed.

Lemma fgets_line kv rest : entry_ok kv -> fgets 256 (line_of kv ++ rest) = Some (line_of kv, rest).
Proof.
  intros (Hk & Hv & Hl). unfold line_of. destruct kv as [k v]. simpl fst in *. simpl snd in *.
  set (l := k ++ str "=" ++ v). replace (k ++ str "=" ++ v ++ [newline]) with (l ++ [newline]) by (unfold l; by rewrite <- !app_assoc).
  assert (Hn : newline ∉ l).
  { unfold l. rewrite !not_elem_of_app. split_and!; [eapply plain_not_in; [done|set_solver]| |eapply plain_not_in; [done|set_solver]].
    by apply (bool_decide_unpack _). }
  assert (Hll : length l < 127) by (unfold l; rewrite !length_app; simpl; lia).
  unfold fgets. destruct ((l ++ [newline]) ++ rest) as [|c t] eqn:E; [by destruct l|]. rewrite <- E. clear E c t.
  rewrite <- app_assoc. cbn [app]. rewrite find_char_app by done.
  replace (S (length l) `min` (256 - 1)) with (length (l ++ [newline])) by (rewrite length_app; simpl; lia).
  replace (l ++ newline :: rest) with ((l ++ [newline]) ++ rest) by (by rewrite <- app_assoc).
  by rewrite take_app_length, drop_app_length.
Qed.

Lemma load_line_entry kv m : entry_ok kv -> load_line (line_of kv) m = Ok (map_insert kv.1 kv.2 m).
Proof.
  intros (Hk & Hv & _). unfold load_line, line_of. destruct kv as [k v]. simpl fst in *. simpl snd in *.
  assert (Hno : forall c, c ∈ [nul; newline; "#"%char] -> c ∉ k ++ str "=" ++ v).
  { intros c Hc. rewrite !not_elem_of_app. split_and!; [eapply plain_not_in; [done|set_solver]| |eapply plain_not_in; [done|set_solver]].
    intros He. assert (c = "="%char) as -> by (by apply list_elem_of_singleton in He).
    revert Hc. by apply (bool_decide_unpack _). }
  replace (k ++ str "=" ++ v ++ [newline]) with ((k ++ str "=" ++ v) ++ [newline]) by (by rewrite <- !app_assoc).
  rewrite strip_last by (apply not_elem_of_app; split; [apply Hno; set_solver | by apply (bool_decide_unpack _)]).
  rewrite Ascii.eqb_refl. run_res. rewrite before_none by (apply Hno; set_solver).
  rewrite (proj2 (Nat.eqb_neq _ 0)) by (rewrite !length_app; simpl; lia).
  unfold parseLine. change (str "=" ++ v) with ("="%char :: v). rewrite find_char_app by (eapply plain_not_in; [exact Hk|set_solver]).
  rewrite take_app_length. pose proof (trimSpace_eq [] k [] ltac:(constructor) (proj1 Hk) ltac:(constructor)) as Ek.
  pose proof (trimSpace_eq [] v [] ltac:(constructor) (proj1 Hv) ltac:(constructor)) as Ev.
  rewrite app_nil_r in Ek, Ev. cbn [app] in Ek, Ev. rewrite Ek. run_res.
  replace (drop (S (length k)) (k ++ "="%char :: v)) with v; [by rewrite Ev|].
  rewrite drop_app_ge by lia. by replace (S (length k) - length k) with 1 by lia.
Qed.

(** The text [writeFile] makes of a map, and that it is the map again. *)
Lemma write_pairs_ok `{Platform} accepts m :
  Forall entry_ok m -> (forall n, 128 <= accepts n) -> write_pairs accepts m = Ok (0%Z, concat (line_of <$> m)).
Proof.
  intros Hm Ha. induction Hm as [|kv m Hkv _ IH]; [done|]. cbn [write_pairs]. rewrite szPaire_ok by done. run_res.
  assert (Hl : length (line_of kv) < 128).
  { destruct Hkv as (_ & _ & Hl). unfold line_of. rewrite !length_app. simpl. lia. }
  rewrite Nat.min_r by (specialize (Ha (length m)); lia). rewrite Nat.eqb_refl, IH. by run_res.
Qed.

Lemma load_written m : forall m0 fuel,
  Forall entry_ok m -> keys_sorted (m0 ++ m) -> length m <= fuel ->
  load_loop fuel (concat (line_of <$> m)) m0 = Ok (m0 ++ m).
Proof.
  induction m as [|kv m IH]; intros m0 fuel Hm Hs Hf.
  - rewrite app_nil_r. by destruct fuel.
  - apply Forall_cons in Hm as [Hkv Hm]. destruct fuel as [|fuel]; [simpl in Hf; lia|].
    cbn [fmap list_fmap concat load_loop]. rewrite fgets_line by done. rewrite load_line_entry by done. run_res.
    assert (E : m0 ++ kv :: m = (m0 ++ [kv]) ++ m) by (by rewrite <- app_assoc). rewrite E in Hs |- *.
    rewrite map_insert_last.
    + destruct kv as [k v]. apply IH; [done|done|simpl in Hf; lia].
    + destruct kv as [k v]. unfold keys_sorted in *. rewrite fmap_app in Hs. by apply sorted_app in Hs as [? _].
Qed.

Lemma reread m memory filename :
  Forall entry_ok m -> keys_sorted m ->
  new_FileConfReader memory filename (Some (concat (line_of <$> m))) = Ok (mkReader true m filename).
Proof.
  intros Hm Hs. unfold new_FileConfReader, loadFile. cbn [config_map_].
  rewrite (load_written m []); [done|done|done|]. clear Hs.
  induction Hm as [|kv m _ _ IH]; [done|]. cbn [fmap list_fmap concat length]. rewrite length_app.
  assert (0 < length (line_of kv)) by (unfold line_of; rewrite !length_app; simpl; lia). lia.
Qed.

Lemma map_set_entries (P : bytes * bytes -> Prop) k v m :
  P (k, v) -> Forall P m -> Forall P (map_set k v m).
Proof.
  intros Hp Hm. induction Hm as [|[k' v'] m Hkv Hm IH]; [by repeat constructor|].
  cbn [map_set]. destruct (ltb k k'); [by repeat constructor|]. destruct (ltb k' k); by constructor.
Qed.

(** No text without NULs makes reading it fail, and the map that is read is
    ordered; a line that starts with a NUL is read before the start of the
    array. *)
Theorem load_safe memory filename fp :
  (nul ∉ fp -> exists r, new_FileConfReader memory filename (Some fp) = Ok r /\ load_ok_ r = true
                        /\ keys_sorted (config_map_ r))
  /\ new_FileConfReader memory filename (Some (nul :: fp)) = Fault OutOfBounds.
Proof.
  unfold new_FileConfReader, loadFile. cbn [config_map_]. split.
  - intros Hn. destruct (load_loop_total (length fp) fp [] (le_n _) Hn) as (m & E & Hm); [constructor|].
    rewrite E. run_res. by eexists.
  - cbn [length load_loop fgets]. set (k := _ `min` _).
    assert (Hk : 0 < k) by (apply Nat.min_glb_lt; [destruct (find_char newline _); simpl; lia | lia]).
    destruct k as [|k]; [lia|]. cbn [take]. unfold load_line, strip. by run_res.
Qed.

(** What [setVal] writes, a new reader reads: the new value under its key
    and the old ones under all others, as long as entries fit a line and hold
    none of the characters the syntax uses. *)
Theorem setVal_roundtrip `{Platform} key val accepts r memory filename :
  load_ok_ r = true -> keys_sorted (config_map_ r) -> Forall entry_ok (config_map_ r) ->
  entry_ok (key, val) -> (forall n, 128 <= accepts n) ->
  exists text r1 r2, setVal key val true accepts r = Ok (0%Z, Some text, r1)
    /\ new_FileConfReader memory filename (Some text) = Ok r2
    /\ getKey key r2 = Some val /\ forall k, k <> key -> getKey k r2 = getKey k r.
Proof.
  intros Hl Hs Hm Hkv Ha. unfold setVal. rewrite Hl.
  assert (Em : match map_find key (config_map_ r) with
               | Some _ => map_set key val (config_map_ r) | None => map_insert key val (config_map_ r) end
               = map_set key val (config_map_ r)).
  { destruct (map_find key _) eqn:E; [done|]. by apply map_insert_absent. }
  rewrite Em. unfold writeFile. cbn [config_map_].
  assert (Hm' : Forall entry_ok (map_set key val (config_map_ r))) by (by apply map_set_entries).
  rewrite write_pairs_ok by done. run_res. do 3 eexists. split; [reflexivity|].
  split; [apply reread; [done|by apply map_set_sorted]|]. unfold getKey. cbn [load_ok_ config_map_]. rewrite Hl.
  split; [apply map_find_set_eq|]. intros k Hk. by apply map_find_set_ne.
Qed.

(** An entry that does not fit the array of 128 characters: on Linux its
    newline is cut off, although the result says that all went well, and the
    entry behind it is lost; on Windows the array is read past its end. *)
Theorem long_entry_swallows :
  let r := mkReader true [(str "a", replicate 125 "x"%char); (str "b", str "1")] (str "conf") in
  (exists text r2, @writeFile linux true (fun _ => 128) r = Ok (0%Z, Some text)
     /\ new_FileConfReader false (str "conf") (Some text) = Ok r2 /\ getKey (str "b") r2 = None)
  /\ @writeFile windows true (fun _ => 128) r = Fault OutOfBounds.
Proof. split; [do 2 eexists; split; [|split]|]; vm_compute; reflexivity. Qed.

Lemma load_safe_witness :
  exists r, new_FileConfReader false (str "conf") (Some (str "# ports" ++ [newline] ++ str " http = 80 ")) = Ok r
    /\ load_ok_ r = true /\ keys_sorted (config_map_ r).
Proof. apply load_safe. by apply (bool_decide_unpack _). Defined.

Definition plain_b (separators : list char) (s : bytes) : bool :=
  match s, last s with
  | c :: _, Some d => negb (is_blank c) && negb (is_blank d)
  | _, _ => false
  end && bool_decide (Forall (fun c => c ∉ nul :: newline :: "#"%char :: separators) s).

Lemma plain_b_ok separators s : plain_b separators s = true -> plain separators s.
Proof.
  unfold plain_b. intros [Hb Hf]%andb_true_iff. split; [|by apply bool_decide_eq_true in Hf].
  destruct s as [|c t]; [done|]. destruct (last (c :: t)) as [d|] eqn:E; [|done].
  apply andb_true_iff in Hb as [Hc Hd]. apply negb_true_iff in Hc, Hd.
  split; [by exists c, t|]. apply last_Some in E as [u ->]. by exists u, d.
Qed.

Lemma setVal_roundtrip_witness :
  let r := mkReader true [(str "host", str "::1"); (str "port", str "80")] (str "conf") in
  exists text r1 r2, @setVal windows (str "port") (str "81") true (fun _ => 128) r = Ok (0%Z, Some text, r1)
    /\ new_FileConfReader true (str "conf") (Some text) = Ok r2
    /\ getKey (str "port") r2 = Some (str "81") /\ forall k, k <> str "port" -> getKey k r2 = getKey k r.
Proof.
  intros r. apply setVal_roundtrip; [done| | | |intros n; lia].
  - repeat constructor.
  - repeat (apply Forall_cons; split); [split; [by apply plain_b_ok|]; split; [by apply plain_b_ok|]; simpl; lia..|constructor].
  - split; [by apply plain_b_ok|]; split; [by apply plain_b_ok|]; simpl; lia.
Defined.
