(* ===== verification/Logging.v ===== *)
(** * Log lines: [src/msmuduo/base/Logging.h], [Logging.cpp], the thread id of
    [Thread.cpp]

    A logging statement makes a [Logger], inserts into its stream, and its
    destructor hands the line to the output function. The conversion to local
    time is the C library's, the id of a thread the system's, the clock an
    input; colours of the console are left out. *)
From S2P Require Import Prelude.
From S2P Require Import Endian.
From S2P Require Import StringPiece.
From S2P Require Import Format.
From S2P Require Import Timestamp.
From S2P Require Import LogStream.
From S2P Require Import FileNames.

Inductive LogLevel := TRACE | DEBUG | INFO | OK | WARN | ERROR | FATAL.

#[export] Instance level_eq_dec : EqDecision LogLevel.
Proof. solve_decision. Defined.

(** The value of the enumerator. *)
Definition level_value (level : LogLevel) : nat :=
  match level with TRACE => 0 | DEBUG => 1 | INFO => 2 | OK => 3 | WARN => 4 | ERROR => 5 | FATAL => 6 end.

Definition LogLevelName (level : LogLevel) : bytes :=
  str match level with
      | TRACE => "[TRACE] " | DEBUG => "[DEBUG] " | INFO => "[INFO ] " | OK => "[OK   ] "
      | WARN => "[WARN ] " | ERROR => "[ERROR] " | FATAL => "[FATAL] "
      end.

(** The thread-local variables of the two files. *)
Record LogThread := mkLogThread {
  t_time : bytes;
  t_lastSecond : Z;
  t_cachedTid : Z;
  t_tidString : bytes;
  t_tidStringLength : nat
}.

Definition new_LogThread : LogThread := mkLogThread [] 0 0 [] 6.

(** [CurrentThread::tid], with [cacheTid]: [gettid] is the thread's id. *)
Definition cacheTid (gettid : Z) (th : LogThread) : LogThread :=
  if (t_cachedTid th =? 0)%Z then
    let text := snprintf 32 (fmt_pad 5 gettid ++ str " ") in
    mkLogThread (t_time th) (t_lastSecond th) gettid text (length text)
  else th.

(** [T]: a string whose length is known. *)
Definition stream_T (s : bytes) (len : nat) (b : FixedBuffer) : res FixedBuffer :=
  assert_ (length s =? len);; fb_append s len b.

Record Logger := mkLogger { time_ : Timestamp; stream_ : FixedBuffer; level_ : LogLevel; line_ : Z; basename_ : bytes }.

(** The calls of the output and flush functions, and [abort]. *)
Inductive log_event := LogOutput (msg : bytes) | LogFlush | LogAbort.

Section Logging.
Context (localtime : Z -> tm) {Double : Type} (fmt_g : Double -> bytes).

(** The text of [Fmt(".%06dZ ", microseconds)]. *)
Definition us_text (microseconds : Z) : bytes := str "." ++ fmt_0d 6 microseconds ++ str "Z ".

Definition formatTime (time : Timestamp) (th : LogThread) (b : FixedBuffer) : res (LogThread * FixedBuffer) :=
  let seconds := Z.quot time kMicroSecondsPerSecond in
  let microseconds := Z.rem time kMicroSecondsPerSecond in
  th ← (if (seconds =? t_lastSecond th)%Z then Ok th
        else
          let text := time_text (localtime seconds) in
          assert_ (length text =? 17);;
          Ok (mkLogThread text seconds (t_cachedTid th) (t_tidString th) (t_tidStringLength th)));
  let us := us_text microseconds in
  assert_ (length us <? 32);;
  assert_ (length us =? 9);;
  b ← stream_T (t_time th) 17 b;
  b ← stream_T us 9 b;
  Ok (th, b).

Definition logToStream (gettid : Z) (time : Timestamp) (level : LogLevel) (th : LogThread) (b : FixedBuffer) :
    res (LogThread * FixedBuffer) :=
  '(th, b) ← formatTime time th b;
  let th := cacheTid gettid th in
  b ← stream_T (t_tidString th) (t_tidStringLength th) b;
  b ← stream_T (LogLevelName level) 8 b;
  Ok (th, b).

(** The constructors; [func] is the name of the function, for the one that
    takes it. *)
Definition new_Logger (gettid : Z) (now : Timestamp) (filename : bytes) (line : Z) (level : LogLevel)
    (func : option bytes) (th : LogThread) : res (Logger * LogThread) :=
  basename ← getFileNameFromPath filename;
  '(th, b) ← logToStream gettid now level th (new_FixedBuffer kSmallBuffer);
  b ← match func with
      | Some func => inserts fmt_g [ICstr (Some (func ++ [nul])); IChar " "] b
      | None => Ok b
      end;
  Ok (mkLogger now b level line basename, th).

(** The destructor. *)
Definition delete_Logger (l : Logger) : res (list log_event) :=
  b ← inserts fmt_g [ICstr (Some (str " - " ++ [nul])); IString (basename_ l); IChar ":"; IInt (line_ l); IChar "010"]
        (stream_ l);
  Ok (LogOutput (fb_toString b)
        :: if decide (level_ l = FATAL) then [LogFlush; LogAbort] else []).

(** [LOG_INFO << x << y] and its like: nothing below the level that is set. *)
Definition log_statement (g_logLevel : LogLevel) (gettid : Z) (now : Timestamp) (filename : bytes) (line : Z)
    (level : LogLevel) (func : bytes) (xs : list (item Double)) (th : LogThread) : res (list log_event * LogThread) :=
  if level_value g_logLevel <=? level_value level then
    '(l, th) ← new_Logger gettid now filename line level (Some func) th;
    b ← inserts fmt_g xs (stream_ l);
    events ← delete_Logger (mkLogger (time_ l) b (level_ l) (line_ l) (basename_ l));
    Ok (events, th)
  else Ok ([], th).

(** [CheckNotNull]: a null pointer aborts with the message. *)
Definition CheckNotNull (gettid : Z) (now : Timestamp) (filename : bytes) (line : Z) (names func : bytes)
    (ptr : option positive) (th : LogThread) : res (option positive * list log_event * LogThread) :=
  match ptr with
  | None =>
      '(l, th) ← new_Logger gettid now filename line FATAL (Some func) th;
      b ← inserts fmt_g [ICstr (Some (names ++ [nul]))] (stream_ l);
      events ← delete_Logger (mkLogger (time_ l) b (level_ l) (line_ l) (basename_ l));
      Ok (ptr, events, th)
  | Some _ => Ok (ptr, [], th)
  end.
End Logging.

(** ** What a line holds *)

Lemma length_us_text us : (0 <= us < 10 ^ 6)%Z -> length (us_text us) = 9.
Proof. intros Hu. unfold us_text. rewrite !length_app, length_fmt_0d by lia. reflexivity. Qed.

Section Lines.
Context (localtime : Z -> tm) {Double : Type} (fmt_g : Double -> bytes).
Context (localtime_ok : forall s, tm_ok (localtime s)).

(** The thread-local variables of the thread [gettid]: the texts are those of
    the second and the id kept with them. *)
Record thread_ok (gettid : Z) (th : LogThread) : Prop := {
  to_time : t_lastSecond th <> 0%Z -> t_time th = time_text (localtime (t_lastSecond th));
  to_tid : t_cachedTid th <> 0%Z ->
    t_cachedTid th = gettid /\ t_tidString th = fmt_pad 5 gettid ++ str " "
    /\ t_tidStringLength th = length (t_tidString th)
}.

Lemma new_LogThread_ok gettid : thread_ok gettid new_LogThread.
Proof. by split. Qed.

Lemma inserts_app xs ys b :
  inserts fmt_g (xs ++ ys) b = (b ← inserts fmt_g xs b; inserts fmt_g ys b).
Proof.
  revert b; induction xs as [|x xs IH]; intros b; [done|]. cbn [app inserts].
  destruct (insert fmt_g x b); [|done]. run_res. apply IH.
Qed.

Lemma inserts_cons x xs b : inserts fmt_g (x :: xs) b = (b ← inserts fmt_g [x] b; inserts fmt_g xs b).
Proof. apply (inserts_app [x] xs). Qed.

(** A [T] goes into the stream as a string does. *)
Lemma stream_T_insert s n b : n = length s -> stream_T s n b = inserts fmt_g [IString s] b.
Proof.
  intros ->. unfold stream_T. rewrite Nat.eqb_refl. run_res. cbn [inserts insert].
  by destruct (fb_append s (length s) b).
Qed.

(** The items of the head of a line and of its end. *)
Definition time_items (now : Timestamp) : list (item Double) :=
  [IString (time_text (localtime (Z.quot now kMicroSecondsPerSecond)));
   IString (us_text (Z.rem now kMicroSecondsPerSecond))].
Definition head_items (gettid : Z) (now : Timestamp) (level : LogLevel) : list (item Double) :=
  time_items now ++ [IString (fmt_pad 5 gettid ++ str " "); IString (LogLevelName level)].

Definition func_items (func : bytes) : list (item Double) := [ICstr (Some (func ++ [nul])); IChar " "].

Definition end_items (base : bytes) (line : Z) : list (item Double) :=
  [ICstr (Some (str " - " ++ [nul])); IString base; IChar ":"; IInt line; IChar "010"].

Definition line_items (gettid : Z) (now : Timestamp) (level : LogLevel) (func : bytes) (xs : list (item Double))
    (base : bytes) (line : Z) : list (item Double) :=
  head_items gettid now level ++ func_items func ++ xs ++ end_items base line.

(** The clock of a system that is set. *)
Definition time_ok (now : Timestamp) : Prop := (kMicroSecondsPerSecond <= now)%Z.

Lemma cacheTid_ok gettid th :
  thread_ok gettid th -> (0 < gettid < 2 ^ 31)%Z ->
  thread_ok gettid (cacheTid gettid th)
  /\ t_tidString (cacheTid gettid th) = fmt_pad 5 gettid ++ str " "
  /\ t_tidStringLength (cacheTid gettid th) = length (t_tidString (cacheTid gettid th)).
Proof.
  intros [Ht Hi] Hg.
  assert (Es : snprintf 32 (fmt_pad 5 gettid ++ str " ") = fmt_pad 5 gettid ++ str " ").
  { apply take_ge. pose proof (fmt_d_length 10 gettid ltac:(lia) ltac:(lia)). unfold fmt_pad. len. }
  unfold cacheTid. rewrite Es. destruct (Z.eqb_spec (t_cachedTid th) 0) as [_|Hc]; [by split|].
  destruct (Hi Hc) as (? & ? & ?). by split.
Qed.

(** The time is formatted anew when the second changed. *)
Lemma formatTime_items gettid now th b :
  thread_ok gettid th -> time_ok now ->
  exists th', thread_ok gettid th'
    /\ formatTime localtime now th b
       = (b ← inserts fmt_g (time_items now) b; Ok (th', b)).
Proof.
  intros [Ht Hi] Hnow. unfold time_ok, kMicroSecondsPerSecond in Hnow.
  assert (Hq : (Z.quot now kMicroSecondsPerSecond <> 0)%Z)
    by (unfold kMicroSecondsPerSecond; intros ?%Z.quot_small_iff; lia).
  assert (Hr : (0 <= Z.rem now kMicroSecondsPerSecond < 10 ^ 6)%Z)
    by (apply Z.rem_bound_pos; unfold kMicroSecondsPerSecond; lia).
  unfold formatTime. set (sec := Z.quot now kMicroSecondsPerSecond) in *. set (us := Z.rem _ _) in *.
  set (th1 := mkLogThread (time_text (localtime sec)) sec (t_cachedTid th) (t_tidString th) (t_tidStringLength th)).
  exists th1. split; [by split|].
  assert (E1 : (if (sec =? t_lastSecond th)%Z then Ok th
                else assert_ (length (time_text (localtime sec)) =? 17);; Ok th1) = Ok th1).
  { destruct (Z.eqb_spec sec (t_lastSecond th)) as [Es|_]; [|by rewrite length_time_text].
    unfold th1. rewrite Es, <- Ht by congruence. by destruct th. }
  rewrite E1. run_res. rewrite length_us_text by done. cbn [Nat.ltb Nat.leb Nat.eqb]. run_res.
  change (t_time th1) with (time_text (localtime sec)). rewrite stream_T_insert by (by rewrite length_time_text).
  unfold time_items. fold sec us. rewrite (inserts_cons _ [_]). destruct (inserts fmt_g _ b) as [b1|]; [|done]. run_res.
  rewrite stream_T_insert by (by rewrite length_us_text). by destruct (inserts fmt_g _ b1).
Qed.

Lemma logToStream_items gettid now level th b :
  thread_ok gettid th -> time_ok now -> (0 < gettid < 2 ^ 31)%Z ->
  exists th', thread_ok gettid th'
    /\ logToStream localtime gettid now level th b
       = (b ← inserts fmt_g (head_items gettid now level) b; Ok (th', b)).
Proof.
  intros Hth Hnow Hg. destruct (formatTime_items gettid now th b Hth Hnow) as (th1 & H1 & E1).
  destruct (cacheTid_ok gettid th1 H1 Hg) as (H2 & Ets & Etl).
  exists (cacheTid gettid th1). split; [done|]. unfold logToStream. rewrite E1. unfold head_items.
  rewrite inserts_app. destruct (inserts fmt_g _ b) as [b1|]; [|done]. run_res.
  rewrite stream_T_insert, Ets by done. rewrite (inserts_cons _ [_]).
  destruct (inserts fmt_g _ b1) as [b2|]; [|done]. run_res.
  rewrite stream_T_insert by (by destruct level). by destruct (inserts fmt_g _ b2).
Qed.

(** What a statement does. *)
Lemma statement_prints g gettid now filename base line level func xs th :
  getFileNameFromPath filename = Ok base -> thread_ok gettid th -> time_ok now -> (0 < gettid < 2 ^ 31)%Z -> (- 2 ^ 63 <= line < 2 ^ 64)%Z ->
  Forall (item_ok fmt_g) xs ->
  exists th', thread_ok gettid th'
    /\ log_statement localtime fmt_g g gettid now filename line level func xs th
       = Ok (if level_value g <=? level_value level
             then LogOutput (printed fmt_g (line_items gettid now level func xs base line) kSmallBuffer)
                    :: (if decide (level = FATAL) then [LogFlush; LogAbort] else []) else [], th').
Proof.
  intros Eb Hth Hnow Hg Hl Hxs. unfold log_statement.
  destruct (level_value g <=? level_value level); [|by exists th]. unfold new_Logger. rewrite Eb. run_res.
  destruct (logToStream_items gettid now level th (new_FixedBuffer kSmallBuffer) Hth Hnow Hg) as (th' & Hth' & E).
  exists th'. split; [done|]. rewrite E.
  set (items := line_items gettid now level func xs base line).
  assert (Hb : fb_inv (new_FixedBuffer kSmallBuffer)) by (split; vm_compute; lia).
  assert (Hok : Forall (item_ok fmt_g) items).
  { unfold items, line_items, head_items, func_items, end_items.
    repeat (apply Forall_app; split); [..|done|]; repeat (apply Forall_cons; split; [|]); try done;
      cbn [item_ok]; apply elem_of_app; right; by apply list_elem_of_singleton. }
  destruct (inserts_spec fmt_g items _ Hb Hok) as (b' & E' & _ & _ & Et).
  unfold items, line_items in E'. rewrite inserts_app in E'. unfold delete_Logger.
  destruct (inserts fmt_g (head_items _ _ _) _) as [b1|]; [|done]. cbn [mbind res_bind] in E' |- *. unfold func_items in E'. rewrite inserts_app in E'.
  destruct (inserts fmt_g [_; _] b1) as [b2|]; [|done]. cbn [mbind res_bind stream_ time_ level_ line_ basename_] in E' |- *.
  rewrite inserts_app in E'. destruct (inserts fmt_g xs b2) as [b3|]; [|done]. cbn [mbind res_bind stream_ time_ level_ line_ basename_] in E' |- *.
  fold (end_items base line). rewrite E'. run_res. do 4 f_equal. exact Et.
Qed.

(** Items that fit are printed in full. *)
Definition whole (xs : list (item Double)) : bytes := concat (item_text fmt_g <$> xs).

Lemma line_printed xs room : length (whole xs) + kMaxNumericSize <= room -> printed fmt_g xs room = whole xs.
Proof.
  unfold whole. revert room; induction xs as [|x xs IH]; intros room Hr; [done|].
  cbn [fmap list_fmap concat printed] in *. rewrite length_app in Hr. unfold kMaxNumericSize in *.
  assert (Hf : item_fits fmt_g x room = true).
  { destruct x; cbn [item_fits] in *; unfold kMaxNumericSize; first [apply Nat.leb_le | apply Nat.ltb_lt]; lia. }
  rewrite Hf, IH by lia. done.
Qed.

(** Once a single character is left, the end of the line does not fit. *)
Lemma printed_end base line : printed fmt_g (end_items base line) 1 = [].
Proof.
  unfold end_items. cbn [printed item_fits]. destruct base as [|c base]; reflexivity.
Qed.

(** A logging statement whose level is set hands exactly one line to the
    output function: time, thread, level and function, what was inserted, and
    file name and line, all of it if it fits the stream; the cached texts of
    time and thread do not change what is printed. Below the level it prints
    nothing; after a line of level FATAL the program aborts. *)
Theorem log_line g gettid now filename line level func xs th :
  thread_ok gettid th -> time_ok now -> (0 < gettid < 2 ^ 31)%Z -> (- 2 ^ 63 <= line < 2 ^ 64)%Z ->
  Forall (item_ok fmt_g) xs ->
  exists base text th', getFileNameFromPath filename = Ok base /\ thread_ok gettid th'
    /\ log_statement localtime fmt_g g gettid now filename line level func xs th
       = Ok (if level_value g <=? level_value level
             then LogOutput text :: (if decide (level = FATAL) then [LogFlush; LogAbort] else []) else [], th')
    /\ (length (whole (line_items gettid now level func xs base line)) + kMaxNumericSize <= kSmallBuffer ->
        text = whole (line_items gettid now level func xs base line)).
Proof.
  intros Hth Hnow Hg Hl Hxs. destruct (path_name filename) as (_ & base & _ & _ & Eb).
  destruct (statement_prints g gettid now filename base line level func xs th Eb Hth Hnow Hg Hl Hxs) as (th' & Hth' & E).
  exists base, (printed fmt_g (line_items gettid now level func xs base line) kSmallBuffer), th'.
  split; [exact Eb|]. split; [exact Hth'|]. split; [exact E|]. exact (line_printed _ _).
Qed.

(** A message that leaves one character of the room behind what comes first. *)
Lemma printed_full h msg base line room :
  length (whole h) + kMaxNumericSize <= room -> length (whole h) + length msg + 1 = room ->
  printed fmt_g (h ++ IString msg :: end_items base line) room = whole h ++ msg.
Proof.
  revert room; induction h as [|x h IH]; intros room Hr Hfull.
  - cbn [app printed item_fits item_text]. unfold whole in *. cbn [fmap list_fmap concat length] in *.
    rewrite (proj2 (Nat.ltb_lt _ _)) by lia. replace (room - length msg) with 1 by lia.
    by rewrite printed_end, app_nil_r.
  - unfold whole in *. cbn [fmap list_fmap concat printed app] in *. rewrite length_app in Hr, Hfull. unfold kMaxNumericSize in *.
    assert (Hf : item_fits fmt_g x room = true).
    { destruct x; cbn [item_fits] in *; unfold kMaxNumericSize; first [apply Nat.leb_le | apply Nat.ltb_lt]; lia. }
    rewrite Hf, IH by lia. by rewrite <- app_assoc.
Qed.

(** A message that leaves a single character of the stream free loses the
    end of its line, the newline included: the next line goes on behind it. *)
Theorem full_line_runs_on gettid now filename line level func msg th :
  thread_ok gettid th -> time_ok now -> (0 < gettid < 2 ^ 31)%Z -> (- 2 ^ 63 <= line < 2 ^ 64)%Z ->
  length (whole (head_items gettid now level ++ func_items func)) + kMaxNumericSize <= kSmallBuffer ->
  length (whole (head_items gettid now level ++ func_items func)) + length msg + 1 = kSmallBuffer ->
  exists th', log_statement localtime fmt_g TRACE gettid now filename line level func [IString msg] th
    = Ok (LogOutput (whole (head_items gettid now level ++ func_items func) ++ msg)
            :: (if decide (level = FATAL) then [LogFlush; LogAbort] else []), th').
Proof.
  intros Hth Hnow Hg Hl Hroom Hfull.
  destruct (path_name filename) as (_ & base & _ & _ & Eb).
  destruct (statement_prints TRACE gettid now filename base line level func [IString msg] th Eb Hth Hnow Hg Hl) as (th' & _ & E);
    [by repeat constructor|]. exists th'. rewrite E.
  rewrite <- (printed_full _ _ base line _ Hroom Hfull). unfold line_items. by rewrite <- app_assoc.
Qed.
End Lines.

(** ** A thread that logs *)
Definition demo_localtime (_ : Z) : tm := mkTm 124 0 15 10 30 0.

Lemma demo_localtime_ok s : tm_ok (demo_localtime s).
Proof. unfold tm_ok. simpl. lia. Qed.

Lemma log_line_witness :
  exists th', log_statement demo_localtime (fun d : Empty_set => match d with end) DEBUG 42 1705314600000042
    (str "C:\src\EventLoop.cpp") 71 WARN (str "loop") [ICstr (Some (str "fds " ++ [nul])); IInt 3] new_LogThread
  = Ok ([LogOutput (str "20240115 10:30:00.000042Z    42 [WARN ] loop fds 3 - EventLoop.cpp:71" ++ ["010"%char])], th').
Proof.
  destruct (log_line demo_localtime (fun d : Empty_set => match d with end) demo_localtime_ok DEBUG 42 1705314600000042
    (str "C:\src\EventLoop.cpp") 71 WARN (str "loop") [ICstr (Some (str "fds " ++ [nul])); IInt 3] new_LogThread)
    as (base & text & th' & Eb & _ & E & Ht).
  - apply new_LogThread_ok.
  - unfold time_ok, kMicroSecondsPerSecond. lia.
  - lia.
  - lia.
  - repeat (apply Forall_cons; split); [cbn [item_ok]; by apply (bool_decide_unpack _) | simpl; lia | constructor].
  - vm_compute in Eb. injection Eb as <-. exists th'. rewrite E, Ht; [vm_compute; reflexivity|].
    apply Nat.leb_le. vm_compute. reflexivity.
Defined.

Lemma full_line_runs_on_witness :
  exists th', log_statement demo_localtime (fun d : Empty_set => match d with end) TRACE 42 1705314600000042
    (str "a.cpp") 7 INFO (str "main") [IString (replicate 3954 "x"%char)] new_LogThread
  = Ok ([LogOutput (str "20240115 10:30:00.000042Z    42 [INFO ] main " ++ replicate 3954 "x"%char)], th').
Proof.
  apply (full_line_runs_on demo_localtime (fun d : Empty_set => match d with end) demo_localtime_ok 42 1705314600000042
    (str "a.cpp") 7 INFO (str "main") (replicate 3954 "x"%char) new_LogThread).
  - apply new_LogThread_ok.
  - unfold time_ok, kMicroSecondsPerSecond. lia.
  - lia.
  - lia.
  - apply Nat.leb_le. vm_compute. reflexivity.
  - apply Nat.eqb_eq. vm_compute. reflexivity.
Defined.
