(* ===== verification/FastMutex.v ===== *)
(** * Spin locks: [src/msmuduo/base/fast_mutex.h], the guard of
    [src/msmuduo/base/lock.h]

    The assembly versions of [fast_mutex], with threads interleaved at each
    access to [mLock]: on x86 an exchange is one step; on PowerPC a load that
    reserves the word and a store that succeeds only while the reservation
    holds, which any store to the word ends. *)
From S2P Require Import Prelude.
From S2P Require Import CondVar.

(** The instruction set the class is compiled for. *)
Inductive asm := X86 | PPC.

Record fast_mutex := mkMutex { mLock : Z; reservations : gset nat }.

Definition new_fast_mutex : fast_mutex := mkMutex 0 ∅.

(** A store to the word. *)
Definition store (v : Z) : fast_mutex := mkMutex v ∅.

(** Where a thread is in [try_lock]: before the instruction that reads the
    word, between [lwarx] and [stwcx.], or done with the result. *)
Inductive try_pc := Trying | Reserved | Got | Missed.

(** The next instruction of [try_lock] in thread [t]. *)
Definition try_lock (a : asm) (t : nat) (p : try_pc) (m : fast_mutex) : try_pc * fast_mutex :=
  match a, p with
  | X86, Trying => (if (mLock m =? 0)%Z then Got else Missed, store 1)
  | PPC, Trying =>
      (if (mLock m =? 0)%Z then Reserved else Missed, mkMutex (mLock m) ({[t]} ∪ reservations m))
  | PPC, Reserved => if decide (t ∈ reservations m) then (Got, store 1) else (Trying, m)
  | _, _ => (p, m)
  end.

Definition unlock (m : fast_mutex) : fast_mutex := store 0.

(** ** Threads

    A thread calls [lock], or [try_lock] and gives up when that fails; then it
    reads shared data, writes it, and unlocks, as the threads of a program that
    guards a counter with a [lock_guard_fastmutex_t] do. *)
Inductive locker :=
  | Outside
  | Locking (p : try_pc)        (* in the loop of [lock] *)
  | Testing (p : try_pc)        (* in [try_lock] *)
  | Inside
  | HasRead (v : nat)
  | Leaving.

Record mutex_system := mkSystem { mutex : fast_mutex; counter : nat; lockers : list locker }.

Inductive mutex_op := CallLock (t : nat) | CallTryLock (t : nat) | RunThread (t : nat).

(** The next step of thread [t]. *)
Definition run_locker (a : asm) (t : nat) (x : locker) (s : mutex_system) : mutex_system :=
  let goto y m c := mkSystem m c (<[t := y]> (lockers s)) in
  match x with
  | Outside => s
  | Locking Got | Testing Got => goto Inside (mutex s) (counter s)
  | Locking Missed => goto (Locking Trying) (mutex s) (counter s)
  | Testing Missed => goto Outside (mutex s) (counter s)
  | Locking p => let (p, m) := try_lock a t p (mutex s) in goto (Locking p) m (counter s)
  | Testing p => let (p, m) := try_lock a t p (mutex s) in goto (Testing p) m (counter s)
  | Inside => goto (HasRead (counter s)) (mutex s) (counter s)
  | HasRead v => goto Leaving (mutex s) (S v)
  | Leaving => goto Outside (unlock (mutex s)) (counter s)
  end.

Definition mutex_step (a : asm) (op : mutex_op) (s : mutex_system) : mutex_system :=
  match op with
  | CallLock t =>
      match lockers s !! t with
      | Some Outside => mkSystem (mutex s) (counter s) (<[t := Locking Trying]> (lockers s))
      | _ => s
      end
  | CallTryLock t =>
      match lockers s !! t with
      | Some Outside => mkSystem (mutex s) (counter s) (<[t := Testing Trying]> (lockers s))
      | _ => s
      end
  | RunThread t =>
      match lockers s !! t with
      | Some x => run_locker a t x s
      | None => s
      end
  end.

Definition mutex_run (a : asm) (ops : list mutex_op) (s : mutex_system) : mutex_system :=
  fold_left (fun s op => mutex_step a op s) ops s.

(** [n] threads and a free lock. *)
Definition new_system (n : nat) : mutex_system := mkSystem new_fast_mutex 0 (replicate n Outside).

(** ** Mutual exclusion *)

(** Whether a thread holds the lock, and how many have written under it and
    not left yet. *)
Definition holds (x : locker) : nat :=
  match x with
  | Locking Got | Testing Got | Inside | HasRead _ | Leaving => 1
  | _ => 0
  end.

Record mutex_inv (s : mutex_system) : Prop := {
  mi_lock : mLock (mutex s) = Z.of_nat (total holds (lockers s));
  mi_one : total holds (lockers s) <= 1;
  mi_read t v : lockers s !! t = Some (HasRead v) -> v = counter s;
  mi_reserved t : t ∈ reservations (mutex s) ->
    lockers s !! t = Some (Locking Reserved) \/ lockers s !! t = Some (Testing Reserved) -> mLock (mutex s) = 0%Z
}.

Definition is_reserved (x : locker) : bool :=
  match x with Locking Reserved | Testing Reserved => true | _ => false end.

Lemma one_holder l t t' x y :
  total holds l <= 1 -> l !! t = Some x -> holds x = 1 -> l !! t' = Some y -> holds y = 1 -> t = t'.
Proof.
  intros H1 Hx Ex Hy Ey. destruct (decide (t = t')) as [|Hne]; [done|]. exfalso.
  pose proof (total_insert holds l t x Outside Hx) as Ht. cbn [holds] in Ht.
  pose proof (total_lookup holds (<[t := Outside]> l) t' y) as Hl. rewrite list_lookup_insert_ne in Hl by done.
  specialize (Hl Hy). lia.
Qed.

(** A thread moves on, and neither the lock nor the counter changes. *)
Lemma inv_quiet s t x y m :
  mutex_inv s -> lockers s !! t = Some x -> holds y = holds x ->
  mLock m = mLock (mutex s) -> (forall u, u <> t -> u ∈ reservations m -> u ∈ reservations (mutex s)) ->
  (forall v, y = HasRead v -> v = counter s) -> (is_reserved y = true -> t ∈ reservations m -> mLock m = 0%Z) ->
  mutex_inv (mkSystem m (counter s) (<[t := y]> (lockers s))).
Proof.
  intros [Hl H1 Hr Hv] Hx Hh Hm Hres Hy Hz. pose proof (total_insert holds _ _ _ y Hx) as Ht.
  split; cbn [mutex counter lockers]; [rewrite Hm, Hl; lia|lia| |].
  - intros u v [(<- & -> & _)|[_ Hu]]%list_lookup_insert_Some; [by apply Hy | by apply (Hr u)].
  - intros u Hu Hlu. destruct (decide (u = t)) as [->|Hne].
    + rewrite list_lookup_insert_eq in Hlu by (by eapply lookup_lt_Some). apply Hz; [|done].
      by destruct Hlu as [[= ->]|[= ->]].
    + rewrite list_lookup_insert_ne in Hlu by done. rewrite Hm. apply (Hv u); [by apply Hres | done].
Qed.

(** A thread stores to the lock. *)
Lemma inv_store s t x y v :
  mutex_inv s -> lockers s !! t = Some x -> v = Z.of_nat (total holds (lockers s) + holds y - holds x) ->
  total holds (lockers s) + holds y <= holds x + 1 -> (forall v, y <> HasRead v) ->
  mutex_inv (mkSystem (store v) (counter s) (<[t := y]> (lockers s))).
Proof.
  intros [Hl H1 Hr Hv] Hx -> Hle Hy. pose proof (total_insert holds _ _ _ y Hx) as Ht.
  pose proof (total_lookup holds _ _ _ Hx) as Hlx.
  split; cbn [mutex counter lockers mLock reservations store]; [f_equal; lia|lia| |set_solver].
  intros u w [(<- & E & _)|[_ Hu]]%list_lookup_insert_Some; [by destruct (Hy w) | by apply (Hr u)].
Qed.

(** The steps of [try_lock], in [lock] or alone. *)
Lemma inv_try a s t (wrap : try_pc -> locker) p :
  (forall p, holds (wrap p) = match p with Got => 1 | _ => 0 end) ->
  (forall p, is_reserved (wrap p) = match p with Reserved => true | _ => false end) ->
  (forall p v, wrap p <> HasRead v) -> wrap = Locking \/ wrap = Testing ->
  mutex_inv s -> lockers s !! t = Some (wrap p) ->
  mutex_inv (let (p, m) := try_lock a t p (mutex s) in mkSystem m (counter s) (<[t := wrap p]> (lockers s))).
Proof.
  intros Hh Hres Hr Hw Hs Hx. pose proof (mi_lock s Hs) as Hl. pose proof (mi_one s Hs) as H1.
  assert (Hstay : forall m q, holds (wrap q) = holds (wrap p) -> mLock m = mLock (mutex s) ->
    (forall u, u <> t -> u ∈ reservations m -> u ∈ reservations (mutex s)) ->
    (q = Reserved -> t ∈ reservations m -> mLock m = 0%Z) ->
    mutex_inv (mkSystem m (counter s) (<[t := wrap q]> (lockers s)))).
  { intros m q Eh Em Hm Hq. apply (inv_quiet s t (wrap p)); try done.
    - intros v E. by destruct (Hr q v).
    - rewrite Hres. intros Er. apply Hq. by destruct q. }
  assert (Hid : mutex_inv (mkSystem (mutex s) (counter s) (<[t := wrap p]> (lockers s)))).
  { rewrite list_insert_id by done. by destruct s. }
  destruct a, p; cbn [try_lock]; try done.
  - apply (inv_store s t (wrap Trying)); rewrite ?Hh; try done; destruct (Z.eqb_spec (mLock (mutex s)) 0); lia.
  - apply Hstay; cbn [mLock reservations]; [rewrite !Hh; by destruct (_ =? _)%Z|done|set_solver|].
    by destruct (Z.eqb_spec (mLock (mutex s)) 0).
  - case_decide as Ht.
    + assert (E0 : mLock (mutex s) = 0%Z).
      { apply (mi_reserved s Hs t Ht). destruct Hw as [-> | ->]; [by left | by right]. }
      apply (inv_store s t (wrap Reserved)); rewrite ?Hh; try done; lia.
    + by apply Hstay; rewrite ?Hh.
Qed.

Lemma run_locker_inv a t x s : mutex_inv s -> lockers s !! t = Some x -> mutex_inv (run_locker a t x s).
Proof.
  intros Hs Hx. pose proof (mi_lock s Hs) as Hl. pose proof (mi_one s Hs) as H1.
  pose proof (total_lookup holds _ _ _ Hx) as Hhx.
  assert (Hq : forall y, holds y = holds x -> (forall v, y = HasRead v -> v = counter s) -> is_reserved y = false ->
    mutex_inv (mkSystem (mutex s) (counter s) (<[t := y]> (lockers s)))).
  { intros y Hy Hv Hr. apply (inv_quiet s t x); try done. by rewrite Hr. }
  assert (Hlock : forall p, x = Locking p -> p <> Got -> p <> Missed ->
    mutex_inv (let (p, m) := try_lock a t p (mutex s) in mkSystem m (counter s) (<[t := Locking p]> (lockers s)))).
  { intros p -> _ _. apply (inv_try a s t Locking p); try done; [by intros []..|by left]. }
  assert (Htest : forall p, x = Testing p -> p <> Got -> p <> Missed ->
    mutex_inv (let (p, m) := try_lock a t p (mutex s) in mkSystem m (counter s) (<[t := Testing p]> (lockers s)))).
  { intros p -> _ _. apply (inv_try a s t Testing p); try done; [by intros []..|by right]. }
  destruct x as [|[]|[]| |v|]; cbn [run_locker]; try done;
    try (by apply Hlock); try (by apply Htest); try (by apply Hq).
  - apply Hq; [done| |done]. by intros v [= ->].
  - (* the write *)
    pose proof (mi_read s Hs t v Hx) as ->. pose proof (total_insert holds _ _ _ Leaving Hx) as Ht. cbn [holds] in Ht.
    split; cbn [mutex counter lockers]; [rewrite Hl; lia|lia| |].
    + intros u w [(_ & [=] & _)|[Hne Hu]]%list_lookup_insert_Some.
      by destruct Hne; apply (one_holder _ t u _ _ H1 Hx eq_refl Hu).
    + intros u Hu Hlu. apply (mi_reserved s Hs u Hu). destruct (decide (u = t)) as [->|Hne].
      * rewrite list_lookup_insert_eq in Hlu by (by eapply lookup_lt_Some). by destruct Hlu.
      * by rewrite list_lookup_insert_ne in Hlu.
  - unfold unlock. apply (inv_store s t Leaving); try done; cbn [holds] in *; lia.
Qed.

Lemma mutex_step_inv a op s : mutex_inv s -> mutex_inv (mutex_step a op s).
Proof.
  intros Hs. assert (Hcall : forall t y, holds y = 0 -> is_reserved y = false -> (forall v, y <> HasRead v) ->
    mutex_inv (match lockers s !! t with
               | Some Outside => mkSystem (mutex s) (counter s) (<[t := y]> (lockers s)) | _ => s end)).
  { intros t y Hy Hr Hv. destruct (lockers s !! t) as [[]|] eqn:Hx; try done.
    apply (inv_quiet s t Outside); try done; [|by rewrite Hr]. intros v E. by destruct (Hv v). }
  destruct op as [t|t|t]; cbn [mutex_step]; [by apply Hcall..|].
  destruct (lockers s !! t) as [x|] eqn:Hx; [by apply run_locker_inv | done].
Qed.

Lemma new_system_inv n : mutex_inv (new_system n).
Proof.
  assert (E : total holds (replicate n Outside) = 0) by (induction n; done).
  split; cbn [new_system mutex lockers counter]; [by rewrite E | rewrite E; lia | | done].
  intros t v H%lookup_replicate. naive_solver.
Qed.

Lemma mutex_run_inv a ops s : mutex_inv s -> mutex_inv (mutex_run a ops s).
Proof. revert s; induction ops as [|op ops IH]; intros s Hs; [done|]. apply IH. by apply mutex_step_inv. Qed.

(** How many critical sections a run goes through, by their writes. *)
Fixpoint sections (a : asm) (ops : list mutex_op) (s : mutex_system) : nat :=
  match ops with
  | [] => 0
  | op :: ops =>
      (match op with
       | RunThread t => match lockers s !! t with Some (HasRead _) => 1 | _ => 0 end
       | _ => 0
       end) + sections a ops (mutex_step a op s)
  end.

Lemma step_counter a op s :
  mutex_inv s ->
  counter (mutex_step a op s) = sections a [op] s + counter s.
Proof.
  intros Hs. cbn [sections]. destruct op as [t|t|t]; cbn [mutex_step].
  1,2: by destruct (lockers s !! t) as [[]|].
  destruct (lockers s !! t) as [x|] eqn:Hx; [|done].
  destruct x as [|p|p| |v|]; cbn [run_locker]; try done.
  - destruct p; try done; by destruct (try_lock _ _ _ _).
  - destruct p; try done; by destruct (try_lock _ _ _ _).
  - by rewrite (mi_read s Hs t v Hx).
Qed.

Lemma run_counter a ops s : mutex_inv s -> counter (mutex_run a ops s) = sections a ops s + counter s.
Proof.
  revert s; induction ops as [|op l IH]; intros s Hs; [done|].
  cbn [mutex_run fold_left]. change (fold_left _ l ?x) with (mutex_run a l x).
  rewrite IH by (by apply mutex_step_inv). rewrite step_counter by done. cbn [sections]. lia.
Qed.

Lemma total_pos l : 0 < total holds l -> exists t x, l !! t = Some x /\ holds x = 1.
Proof.
  induction l as [|x l IH]; cbn [total fold_right]; [lia|]. fold (total holds l). intros E.
  destruct (decide (holds x = 1)) as [Ex|Ex]; [by exists 0, x|].
  destruct IH as (t & y & Hy & Ey); [destruct x as [|[]|[]| | |]; cbn [holds] in *; lia|]. by exists (S t), y.
Qed.

(** C36: However threads that lock, try and unlock interleave, at most one of them
    is between a successful [lock] or [try_lock] and its [unlock], the word is 1
    while one is and 0 otherwise, and no update of the counter that the lock
    guards is lost. *)
Theorem fast_mutex_excludes a n ops :
  let s := mutex_run a ops (new_system n) in
  (forall t t' x y, lockers s !! t = Some x -> holds x = 1 -> lockers s !! t' = Some y -> holds y = 1 -> t = t')
  /\ (mLock (mutex s) = 1%Z <-> exists t x, lockers s !! t = Some x /\ holds x = 1)
  /\ (mLock (mutex s) = 0%Z \/ mLock (mutex s) = 1%Z)
  /\ counter s = sections a ops (new_system n).
Proof.
  intros s. assert (Hs : mutex_inv s) by (apply mutex_run_inv, new_system_inv). pose proof Hs as [Hl H1 _ _].
  split; [|split; [|split]].
  - intros t t' x y Hx Ex Hy Ey. by apply (one_holder (lockers s) t t' x y).
  - rewrite Hl. split.
    + intros E. apply total_pos. lia.
    + intros (t & x & Hx & Ex). pose proof (total_lookup holds _ _ _ Hx). lia.
  - lia.
  - unfold s. rewrite run_counter by apply new_system_inv. cbn [new_system counter]. lia.
Qed.

(** ** Progress *)

(** Thread [t] takes [k] steps. *)
Definition run_alone (a : asm) (t k : nat) (s : mutex_system) : mutex_system :=
  mutex_run a (replicate k (RunThread t)) s.

Lemma run_alone_S a t k s x :
  lockers s !! t = Some x -> run_alone a t (S k) s = run_alone a t k (run_locker a t x s).
Proof. intros Hx. unfold run_alone. cbn [replicate mutex_run fold_left mutex_step]. by rewrite Hx. Qed.

(** A step of [t] to [y], seen from [t] and from the others. *)
Lemma moved s t x y m c :
  lockers s !! t = Some x ->
  lockers (mkSystem m c (<[t := y]> (lockers s))) !! t = Some y
  /\ forall u, u <> t -> lockers (mkSystem m c (<[t := y]> (lockers s))) !! u = lockers s !! u.
Proof.
  intros Hx. cbn [lockers]. split; [apply list_lookup_insert_eq; by eapply lookup_lt_Some|].
  intros u Hu. by apply list_lookup_insert_ne.
Qed.

(** The thread that holds the lock frees it within four steps of its own. *)
Lemma holder_leaves a t s x :
  lockers s !! t = Some x -> holds x = 1 ->
  exists k, k <= 4 /\ mLock (mutex (run_alone a t k s)) = 0%Z
    /\ forall u, u <> t -> lockers (run_alone a t k s) !! u = lockers s !! u.
Proof.
  assert (L : forall s, lockers s !! t = Some Leaving -> mLock (mutex (run_alone a t 1 s)) = 0%Z
    /\ forall u, u <> t -> lockers (run_alone a t 1 s) !! u = lockers s !! u).
  { intros s0 H. rewrite (run_alone_S a t 0 s0 Leaving H). cbn [run_locker]. split; [done|]. by eapply moved. }
  assert (W : forall s v, lockers s !! t = Some (HasRead v) -> mLock (mutex (run_alone a t 2 s)) = 0%Z
    /\ forall u, u <> t -> lockers (run_alone a t 2 s) !! u = lockers s !! u).
  { intros s0 v H. rewrite (run_alone_S a t 1 s0 _ H). cbn [run_locker].
    destruct (moved s0 t _ Leaving (mutex s0) (S v) H) as [H1 H2]. destruct (L _ H1) as [E1 E2].
    split; [done|]. intros u Hu. by rewrite E2, H2. }
  assert (I : forall s, lockers s !! t = Some Inside -> mLock (mutex (run_alone a t 3 s)) = 0%Z
    /\ forall u, u <> t -> lockers (run_alone a t 3 s) !! u = lockers s !! u).
  { intros s0 H. rewrite (run_alone_S a t 2 s0 _ H). cbn [run_locker].
    destruct (moved s0 t _ (HasRead (counter s0)) (mutex s0) (counter s0) H) as [H1 H2]. destruct (W _ _ H1) as [E1 E2].
    split; [done|]. intros u Hu. by rewrite E2, H2. }
  assert (G : x = Locking Got \/ x = Testing Got -> lockers s !! t = Some x -> mLock (mutex (run_alone a t 4 s)) = 0%Z
    /\ forall u, u <> t -> lockers (run_alone a t 4 s) !! u = lockers s !! u).
  { intros Hg H. rewrite (run_alone_S a t 3 s _ H).
    replace (run_locker a t x s) with (mkSystem (mutex s) (counter s) (<[t := Inside]> (lockers s))) by (by destruct Hg as [-> | ->]).
    destruct (moved s t _ Inside (mutex s) (counter s) H) as [H1 H2]. destruct (I _ H1) as [E1 E2].
    split; [done|]. intros u Hu. by rewrite E2, H2. }
  intros Hx Hh. destruct x as [|[]|[]| |v|]; try done.
  - exists 4. split; [done|]. apply G; [by left|done].
  - exists 4. split; [done|]. apply G; [by right|done].
  - exists 3. split; [lia|]. by apply I.
  - exists 2. split; [lia|]. by eapply W.
  - exists 1. split; [lia|]. by apply L.
Qed.

(** On x86 there are no reservations. *)
Definition x86_plain (a : asm) (s : mutex_system) : Prop :=
  a = X86 -> Forall (fun x => is_reserved x = false) (lockers s).

Lemma step_plain a op s : x86_plain a s -> x86_plain a (mutex_step a op s).
Proof.
  intros Hp ->. specialize (Hp eq_refl). destruct op as [t|t|t]; cbn [mutex_step].
  - destruct (lockers s !! t) as [[]|]; try done. by apply Forall_insert.
  - destruct (lockers s !! t) as [[]|]; try done. by apply Forall_insert.
  - destruct (lockers s !! t) as [x|] eqn:Hx; [|done].
    pose proof (Forall_lookup_1 _ _ _ _ Hp Hx) as Hr.
    destruct x as [|[]|[]| |v|]; cbn [run_locker try_lock] in *; try done; apply Forall_insert; try done;
      cbn [is_reserved]; by destruct (mLock _ =? 0)%Z.
Qed.

Lemma run_plain a ops s : x86_plain a s -> x86_plain a (mutex_run a ops s).
Proof. revert s; induction ops as [|op ops IH]; intros s Hs; [done|]. apply IH. by apply step_plain. Qed.

(** A thread in [lock] that runs alone while the lock is free gets it. *)
Lemma free_lock_entered a t s p :
  x86_plain a s -> mLock (mutex s) = 0%Z -> lockers s !! t = Some (Locking p) ->
  exists k, k <= 4 /\ lockers (run_alone a t k s) !! t = Some Inside.
Proof.
  assert (G : forall s, lockers s !! t = Some (Locking Got) -> lockers (run_alone a t 1 s) !! t = Some Inside).
  { intros s0 H. rewrite (run_alone_S a t 0 s0 _ H). cbn [run_locker]. by eapply moved. }
  assert (T : forall s, mLock (mutex s) = 0%Z -> lockers s !! t = Some (Locking Trying) ->
    exists k, k <= 3 /\ lockers (run_alone a t k s) !! t = Some Inside).
  { intros s0 E H. destruct a.
    - exists 2. split; [lia|]. rewrite (run_alone_S X86 t 1 s0 _ H). cbn [run_locker try_lock]. rewrite E. cbn [Z.eqb].
      apply G. by eapply moved.
    - exists 3. split; [lia|]. rewrite (run_alone_S PPC t 2 s0 _ H). cbn [run_locker try_lock]. rewrite E. cbn [Z.eqb].
      set (s1 := mkSystem _ _ _). assert (H1 : lockers s1 !! t = Some (Locking Reserved)) by (by eapply moved).
      rewrite (run_alone_S PPC t 1 s1 _ H1). cbn [run_locker try_lock]. rewrite decide_True by (cbn; set_solver).
      apply G. by eapply moved. }
  intros Hp E Hx.
  assert (Again : forall s', run_locker a t (Locking p) s = s' -> mutex s' = mutex s ->
    lockers s' !! t = Some (Locking Trying) -> exists k, k <= 4 /\ lockers (run_alone a t k s) !! t = Some Inside).
  { intros s' Es Em H'. destruct (T s') as (k & Hk & Hi); [by rewrite Em|done|]. exists (S k). split; [lia|].
    rewrite (run_alone_S a t k s _ Hx). by rewrite Es. }
  destruct p.
  - destruct (T s E Hx) as (k & Hk & Hi). exists k. split; [lia|done].
  - destruct a.
    + specialize (Hp eq_refl). by pose proof (Forall_lookup_1 _ _ _ _ Hp Hx).
    + destruct (decide (t ∈ reservations (mutex s))) as [Hr|Hr].
      * exists 2. split; [lia|]. rewrite (run_alone_S PPC t 1 s _ Hx). cbn [run_locker try_lock].
        rewrite decide_True by done. apply G. by eapply moved.
      * eapply Again; [cbn [run_locker try_lock]; by rewrite decide_False | done | by eapply moved].
  - exists 1. split; [lia|]. by apply G.
  - eapply Again; [reflexivity | done | by eapply moved].
Qed.

(** A thread in [lock] never waits for nothing: in every state that can be
    reached, four steps of the thread that holds the lock, if one does, and
    then four of its own bring it into its critical section. *)
Theorem fast_mutex_progress a n ops t p :
  let s := mutex_run a ops (new_system n) in
  lockers s !! t = Some (Locking p) ->
  exists h j k, j <= 4 /\ k <= 4 /\ lockers (run_alone a t k (run_alone a h j s)) !! t = Some Inside.
Proof.
  intros s Hx. assert (Hs : mutex_inv s) by (apply mutex_run_inv, new_system_inv).
  assert (Hp : x86_plain a s) by (apply run_plain; intros _; by apply Forall_replicate).
  destruct (decide (holds (Locking p) = 1)) as [Hh|Hh].
  { destruct p; try done. exists t, 0, 1. split; [lia|]. split; [lia|].
    change (run_alone a t 0 s) with s. rewrite (run_alone_S a t 0 s _ Hx). cbn [run_locker]. by eapply moved. }
  destruct (decide (mLock (mutex s) = 0%Z)) as [E|E].
  { destruct (free_lock_entered a t s p Hp E Hx) as (k & Hk & Hi). exists t, 0, k. by split; [lia|]. }
  assert (Hex : exists h x, lockers s !! h = Some x /\ holds x = 1).
  { pose proof (mi_lock s Hs) as Hl. rewrite Hl in E. by apply total_pos; lia. }
  destruct Hex as (h & x & Hh' & Ex). destruct (holder_leaves a h s x Hh' Ex) as (j & Hj & E0 & Ho).
  assert (Hne : t <> h) by (intros ->; rewrite Hx in Hh'; congruence).
  destruct (free_lock_entered a t (run_alone a h j s) p) as (k & Hk & Hi); [by apply run_plain|done|by rewrite Ho|].
  by exists h, j, k.
Qed.

(** Two threads on x86: the second fails to get the lock while the first is in
    its critical section. *)
Definition demo_locks : list mutex_op :=
  [CallLock 0; CallLock 1; RunThread 0; RunThread 1; RunThread 0; RunThread 0].

Lemma fast_mutex_excludes_witness :
  mLock (mutex (mutex_run X86 demo_locks (new_system 2))) = 1%Z
  /\ forall t x, lockers (mutex_run X86 demo_locks (new_system 2)) !! t = Some x -> holds x = 1 -> t = 0.
Proof.
  split; [vm_compute; reflexivity|]. intros t x Hx Ex.
  apply (proj1 (fast_mutex_excludes X86 2 demo_locks) t 0 x (HasRead 0)); [done|done|vm_compute; reflexivity|done].
Defined.

Lemma fast_mutex_progress_witness :
  exists h j k, j <= 4 /\ k <= 4
    /\ lockers (run_alone X86 1 k (run_alone X86 h j (mutex_run X86 demo_locks (new_system 2)))) !! 1 = Some Inside.
Proof. apply (fast_mutex_progress X86 2 demo_locks 1 Missed). vm_compute. reflexivity. Defined.
