(* ===== verification/Locks.v ===== *)
(** * Locks: [src/msmuduo/base/lock.h], [lock.cpp]

    The mutex belongs to the operating system ([OsMutex], with its documented
    laws); [mutex_t], [lock_guard_t] and the wait of [condition_var_t] are built
    on it. Threads run sections under guards, one access at a time and in any
    order; the theorem is that each section, up to a wait, runs as one step,
    which is how the rest of the development models operations that a mutex
    protects. *)
From S2P Require Import Prelude.
From S2P Require Import Endian.

(** A critical section or a [pthread_mutex_t]; [os_lock t] is [None] while
    thread [t] has to wait. The results are error codes. *)
Class OsMutex (M : Type) := {
  os_init : M;
  os_lock : nat -> M -> option (Z * M);
  os_try : nat -> M -> Z * M;
  os_unlock : nat -> M -> Z * M
}.

Class OsMutexLaws (M : Type) `{OsMutex M} := {
  owner : M -> option nat;
  init_law : owner os_init = None;
  lock_free m t : owner m = None -> exists m', os_lock t m = Some (0%Z, m') /\ owner m' = Some t;
  lock_busy m t t' : owner m = Some t' -> t <> t' -> os_lock t m = None;
  try_law m t e m' : os_try t m = (e, m') ->
    (owner m = None /\ e = 0%Z /\ owner m' = Some t) \/ (e <> 0%Z /\ m' = m);
  unlock_law m t : owner m = Some t -> owner (os_unlock t m).2 = None
}.

Section Mutex.
Context `{Platform} {M : Type} `{!OsMutex M}.

(** [mutex_t]; the calls for critical sections return nothing, and
    [TryEnterCriticalSection] says whether it entered. *)
Definition new_mutex_t : M := os_init.

Definition mutex_lock (t : nat) (m : M) : option (bool * M) :=
  '(e, m) ← os_lock t m; Some (if win then true else (e =? 0)%Z, m).

Definition mutex_unlock (t : nat) (m : M) : bool * M :=
  let '(e, m) := os_unlock t m in (if win then true else (e =? 0)%Z, m).

Definition mutex_try_lock (t : nat) (m : M) : bool * M :=
  let '(e, m) := os_try t m in ((e =? 0)%Z, m).

(** [lock_guard_t] does not look at the results. *)
Definition lock_guard (t : nat) (m : M) : option M := snd <$> mutex_lock t m.
Definition unlock_guard (t : nat) (m : M) : M := (mutex_unlock t m).2.

(** [condition_var_t::wait]: the thread leaves the mutex and sleeps in one step,
    and has it again when the wait returns. *)
Definition wait_release (t : nat) (m : M) : M := (os_unlock t m).2.
Definition wait_return (t : nat) (m : M) : option M := snd <$> os_lock t m.
End Mutex.

(** ** Threads that run sections *)
Section Sections.
Context `{Platform} {M : Type} `{!OsMutex M} `{!OsMutexLaws M} {S Lc : Type}.

(** An access to the shared state and the locals of the thread, a
    [while (p) condition.wait()], or an [if (p) condition.wait(ms)]. *)
Inductive item :=
  | Do (f : S -> Lc -> S * Lc)
  | WaitWhile (p : S -> Lc -> bool)
  | WaitIf (p : S -> Lc -> bool).

(** A block with a guard, or an [if] with [try_lock]. *)
Record section := mkSection { s_try : bool; s_items : list item }.

Inductive place :=
  | Rest (todo : list section)
  | Inside (k : list item) (todo : list section)
  | Asleep (k : list item) (todo : list section).

Record thread := mkThread { t_local : Lc; t_place : place }.

Record locked_world := mkLocked { l_mutex : M; l_shared : S; l_threads : list thread }.

(** Thread [t] makes its next step, if it can. A thread that sleeps may wake up
    for no reason. *)
Definition lock_step (t : nat) (w : locked_world) : option locked_world :=
  th ← l_threads w !! t;
  let move (m : M) (s : S) (l : Lc) (p : place) : locked_world :=
    mkLocked m s (<[t := mkThread l p]> (l_threads w)) in
  match t_place th with
  | Rest [] => None
  | Rest (sec :: todo) =>
      if s_try sec then
        let '(got, m) := mutex_try_lock t (l_mutex w) in
        Some (move m (l_shared w) (t_local th) (if got : bool then Inside (s_items sec) todo else Rest todo))
      else m ← lock_guard t (l_mutex w); Some (move m (l_shared w) (t_local th) (Inside (s_items sec) todo))
  | Inside [] todo => Some (move (unlock_guard t (l_mutex w)) (l_shared w) (t_local th) (Rest todo))
  | Inside (Do f :: k) todo => let '(s, l) := f (l_shared w) (t_local th) in Some (move (l_mutex w) s l (Inside k todo))
  | Inside (WaitWhile p :: k) todo =>
      if p (l_shared w) (t_local th)
      then Some (move (wait_release t (l_mutex w)) (l_shared w) (t_local th) (Asleep (WaitWhile p :: k) todo))
      else Some (move (l_mutex w) (l_shared w) (t_local th) (Inside k todo))
  | Inside (WaitIf p :: k) todo =>
      if p (l_shared w) (t_local th)
      then Some (move (wait_release t (l_mutex w)) (l_shared w) (t_local th) (Asleep k todo))
      else Some (move (l_mutex w) (l_shared w) (t_local th) (Inside k todo))
  | Asleep k todo => m ← wait_return t (l_mutex w); Some (move m (l_shared w) (t_local th) (Inside k todo))
  end.

Definition new_locked (s : S) (programs : list (Lc * list section)) : locked_world :=
  mkLocked new_mutex_t s ((fun p => mkThread p.1 (Rest p.2)) <$> programs).

Inductive lock_reach (w0 : locked_world) : locked_world -> Prop :=
  | lock_init : lock_reach w0 w0
  | lock_next w t w' : lock_reach w0 w -> lock_step t w = Some w' -> lock_reach w0 w'.

(** ** The same with whole sections as steps *)

(** Runs a section to its end, or to a wait that has to sleep. *)
Fixpoint run_items (k : list item) (s : S) (l : Lc) : S * Lc * option (list item) :=
  match k with
  | [] => (s, l, None)
  | Do f :: k => let '(s, l) := f s l in run_items k s l
  | WaitWhile p :: k' => if p s l then (s, l, Some k) else run_items k' s l
  | WaitIf p :: k' => if p s l then (s, l, Some k') else run_items k' s l
  end.

(** What a thread at rest runs next, and what then. *)
Definition next_segment (p : place) : option (list item * list section) :=
  match p with
  | Rest (sec :: todo) => Some (s_items sec, todo)
  | Asleep k todo => Some (k, todo)
  | _ => None
  end.

Definition atomic_world : Type := S * list thread.

Definition run_segment (t : nat) (w : atomic_world) : option atomic_world :=
  th ← w.2 !! t;
  '(k, todo) ← next_segment (t_place th);
  let '(s, l, r) := run_items k w.1 (t_local th) in
  Some (s, <[t := mkThread l (match r with Some k => Asleep k todo | None => Rest todo end)]> w.2).

(** A [try_lock] may fail. *)
Definition skip_segment (t : nat) (w : atomic_world) : option atomic_world :=
  th ← w.2 !! t;
  match t_place th with
  | Rest (sec :: todo) => if s_try sec then Some (w.1, <[t := mkThread (t_local th) (Rest todo)]> w.2) else None
  | _ => None
  end.

Inductive atomic_reach (w0 : atomic_world) : atomic_world -> Prop :=
  | atomic_init : atomic_reach w0 w0
  | atomic_run w t w' : atomic_reach w0 w -> run_segment t w = Some w' \/ skip_segment t w = Some w' -> atomic_reach w0 w'.

(** ** They agree *)

Definition is_inside (p : place) : bool := match p with Inside _ _ => true | _ => false end.

(** [w] with the thread [t], if any, in the middle of a segment that started in
    [c]. *)
Definition in_the_middle (w : locked_world) (c : atomic_world) (o : option nat) : Prop :=
  owner (l_mutex w) = o /\
  match o with
  | None => c = (l_shared w, l_threads w) /\ forall t th, l_threads w !! t = Some th -> is_inside (t_place th) = false
  | Some t => exists l k todo th0 k0,
      c.2 !! t = Some th0 /\ next_segment (t_place th0) = Some (k0, todo)
      /\ run_items k0 c.1 (t_local th0) = run_items k (l_shared w) l
      /\ l_threads w = <[t := mkThread l (Inside k todo)]> c.2
      /\ forall t' th, t' <> t -> c.2 !! t' = Some th -> is_inside (t_place th) = false
  end.

(** A thread at rest enters. *)
Lemma middle_enter w c t th k todo m :
  in_the_middle w c None -> l_threads w !! t = Some th -> next_segment (t_place th) = Some (k, todo) -> owner m = Some t ->
  in_the_middle (mkLocked m (l_shared w) (<[t := mkThread (t_local th) (Inside k todo)]> (l_threads w))) c (Some t).
Proof.
  intros (_ & -> & Hn) Ht Hk Hm. split; [done|]. exists (t_local th), k, todo, th, k. split_and!; try done.
  intros t' th' _ Ht'. by apply (Hn t').
Qed.

(** The thread inside goes on. *)
Lemma middle_on w c t l k todo s' l' k' :
  in_the_middle w c (Some t) -> l_threads w !! t = Some (mkThread l (Inside k todo)) ->
  run_items k (l_shared w) l = run_items k' s' l' ->
  in_the_middle (mkLocked (l_mutex w) s' (<[t := mkThread l' (Inside k' todo)]> (l_threads w))) c (Some t).
Proof.
  intros (Hm & l1 & k1 & todo1 & th0 & k0 & Hc & Hn & Hr & Hw & Ho) Ht E. split; [done|].
  rewrite Hw, list_lookup_insert_eq in Ht by (by eapply lookup_lt_Some). injection Ht as <- <- <-.
  exists l', k', todo1, th0, k0. split_and!; try done; [by rewrite Hr|]. cbn [l_threads]. by rewrite Hw, list_insert_insert_eq.
Qed.

(** The thread inside comes to rest: its segment was one step. *)
Lemma middle_rest w c t l k todo m l' s' r :
  in_the_middle w c (Some t) -> l_threads w !! t = Some (mkThread l (Inside k todo)) ->
  run_items k (l_shared w) l = (s', l', r) -> owner m = None ->
  let p := match r with Some k => Asleep k todo | None => Rest todo end in
  let w' := mkLocked m s' (<[t := mkThread l' p]> (l_threads w)) in
  run_segment t c = Some (s', l_threads w') /\ in_the_middle w' (s', l_threads w') None.
Proof.
  intros (Hm & l1 & k1 & todo1 & th0 & k0 & Hc & Hn & Hr & Hw & Ho) Ht E Hm'. cbn [l_threads].
  rewrite Hw, list_lookup_insert_eq in Ht by (by eapply lookup_lt_Some). injection Ht as <- <- <-.
  rewrite Hw, list_insert_insert_eq. split.
  - unfold run_segment. rewrite Hc. cbn [mbind option_bind]. rewrite Hn. cbn [mbind option_bind]. by rewrite Hr, E.
  - split; [done|]. split; [done|]. intros t' th. cbn [l_threads]. destruct (decide (t' = t)) as [->|Hne].
    + rewrite list_lookup_insert_eq by (by eapply lookup_lt_Some). intros [= <-]. by destruct r.
    + rewrite list_lookup_insert_ne by done. by apply Ho.
Qed.

(** Whoever is inside owns the mutex. *)
Lemma middle_inside w c o t th :
  in_the_middle w c o -> l_threads w !! t = Some th -> is_inside (t_place th) = true -> o = Some t.
Proof.
  intros (Hm & H1) Ht Hi. destruct o as [t1|].
  - destruct H1 as (l & k & todo & th0 & k0 & Hc & _ & _ & Hw & Ho). destruct (decide (t = t1)) as [->|Hne]; [done|].
    rewrite Hw, list_lookup_insert_ne in Ht by done. by rewrite (Ho t th Hne Ht) in Hi.
  - destruct H1 as [_ Hn]. by rewrite (Hn t th Ht) in Hi.
Qed.

(** A thread that gets the mutex finds nobody inside. *)
Lemma middle_locked w c o t m e th :
  in_the_middle w c o -> os_lock t (l_mutex w) = Some (e, m) -> l_threads w !! t = Some th -> is_inside (t_place th) = false ->
  o = None /\ owner m = Some t.
Proof.
  intros (Hm & H1) Hl Ht Hi. destruct o as [t1|].
  - exfalso. destruct (decide (t = t1)) as [->|Hne]; [|by rewrite (lock_busy _ _ _ Hm Hne) in Hl].
    destruct H1 as (l & k & todo & th0 & k0 & Hc & _ & _ & Hw & _).
    rewrite Hw, list_lookup_insert_eq in Ht by (by eapply lookup_lt_Some). by injection Ht as <-.
  - destruct (lock_free (l_mutex w) t Hm) as (m' & E & Ho). rewrite E in Hl. by injection Hl as _ <-.
Qed.

(** A [try_lock] that fails. *)
Lemma middle_skip w c o t l sec todo :
  in_the_middle w c o -> l_threads w !! t = Some (mkThread l (Rest (sec :: todo))) -> s_try sec = true ->
  exists c', skip_segment t c = Some c'
    /\ in_the_middle (mkLocked (l_mutex w) (l_shared w) (<[t := mkThread l (Rest todo)]> (l_threads w))) c' o.
Proof.
  intros (Hm & H1) Ht Hs.
  assert (Hskip : c.2 !! t = Some (mkThread l (Rest (sec :: todo))) ->
    skip_segment t c = Some (c.1, <[t := mkThread l (Rest todo)]> c.2)).
  { intros E. unfold skip_segment. rewrite E. cbn [mbind option_bind t_place]. by rewrite Hs. }
  assert (Hother : forall t' (th : thread), (t' <> t -> c.2 !! t' = Some th -> is_inside (t_place th) = false) ->
    <[t := mkThread l (Rest todo)]> c.2 !! t' = Some th -> is_inside (t_place th) = false).
  { intros t' th Hc E. destruct (decide (t' = t)) as [->|Hne].
    - rewrite list_lookup_insert_Some in E. destruct E as [(_ & <- & _)|[? _]]; done.
    - rewrite list_lookup_insert_ne in E by done. auto. }
  destruct o as [t1|].
  - destruct H1 as (l1 & k & todo1 & th0 & k0 & Hc & Hn & Hr & Hw & Ho).
    assert (Hne : t <> t1).
    { intros ->. rewrite Hw, list_lookup_insert_eq in Ht by (by eapply lookup_lt_Some). done. }
    rewrite Hw, list_lookup_insert_ne in Ht by done. eexists. split; [by apply Hskip|]. split; [done|].
    exists l1, k, todo1, th0, k0. cbn [fst snd l_threads]. rewrite list_lookup_insert_ne by done. split_and!; try done.
    + rewrite Hw. by apply list_insert_insert_ne.
    + intros t' th Hne'. apply Hother. intros _. by apply Ho.
  - destruct H1 as [-> Hn]. eexists. split; [by apply Hskip|]. split; [done|]. split; [done|].
    intros t' th. apply Hother. intros _. apply Hn.
Qed.

(** A guard takes the mutex. *)
Lemma lock_guard_some t (m m' : M) : lock_guard t m = Some m' -> exists e, os_lock t m = Some (e, m').
Proof.
  unfold lock_guard, mutex_lock. destruct (os_lock t m) as [[e m1]|]; [|done]. cbn. intros [= ->]. by exists e.
Qed.

Lemma wait_return_some t (m m' : M) : wait_return t m = Some m' -> exists e, os_lock t m = Some (e, m').
Proof. unfold wait_return. destruct (os_lock t m) as [[e m1]|]; [|done]. cbn. intros [= ->]. by exists e. Qed.

Lemma unlock_guard_free t (m : M) : owner m = Some t -> owner (unlock_guard t m) = None.
Proof. intros Hm. pose proof (unlock_law m t Hm). unfold unlock_guard, mutex_unlock. by destruct (os_unlock t m). Qed.

Lemma lock_step_simulated w c o t w' :
  in_the_middle w c o -> lock_step t w = Some w' ->
  exists c' o', in_the_middle w' c' o' /\ (c' = c \/ run_segment t c = Some c' \/ skip_segment t c = Some c').
Proof.
  intros Hmid E. unfold lock_step in E. destruct (l_threads w !! t) as [[l p]|] eqn:Ht; [|done]. cbn [mbind option_bind t_place t_local] in E.
  assert (Hin : is_inside p = true -> o = Some t /\ owner (l_mutex w) = Some t).
  { intros Hp. pose proof (middle_inside _ _ _ _ _ Hmid Ht Hp) as ->. split; [done|apply Hmid]. }
  destruct p as [[|sec todo]|[|[f|q|q] k] todo|k todo]; [done|..].
  - destruct (s_try sec) eqn:Hs.
    + unfold mutex_try_lock in E. destruct (os_try t (l_mutex w)) as [e m] eqn:Et. injection E as <-.
      destruct (try_law _ _ _ _ Et) as [(Ho & -> & Hm)|[He ->]].
      * assert (o = None) as -> by (destruct Hmid as [<- _]; done).
        exists c, (Some t). split; [|by left]. by apply (middle_enter w c t (mkThread l (Rest (sec :: todo)))).
      * rewrite (proj2 (Z.eqb_neq _ _)) by done. destruct (middle_skip w c o t l sec todo Hmid Ht Hs) as (c' & Hsk & Hmid').
        exists c', o. auto.
    + destruct (lock_guard t (l_mutex w)) as [m|] eqn:El; [|done]. injection E as <-. apply lock_guard_some in El as [e El].
      destruct (middle_locked _ _ _ _ _ _ _ Hmid El Ht eq_refl) as [-> Hm]. exists c, (Some t). split; [|by left].
      by apply (middle_enter w c t (mkThread l (Rest (sec :: todo)))).
  - destruct (Hin eq_refl) as [-> Hm]. injection E as <-.
    destruct (middle_rest w c t l [] todo _ l (l_shared w) None Hmid Ht eq_refl (unlock_guard_free _ _ Hm)) as [Hr Hmid'].
    eexists _, None. split; [exact Hmid'|]. right. left. exact Hr.
  - destruct (Hin eq_refl) as [-> Hm]. destruct (f (l_shared w) l) as [s' l'] eqn:Ef. injection E as <-. exists c, (Some t).
    split; [|by left]. apply (middle_on w c t l (Do f :: k) todo s' l' k); [done..|]. cbn [run_items]. by rewrite Ef.
  - destruct (Hin eq_refl) as [-> Hm]. destruct (q (l_shared w) l) eqn:Eq; injection E as <-.
    + destruct (middle_rest w c t l (WaitWhile q :: k) todo (wait_release t (l_mutex w)) l (l_shared w) (Some (WaitWhile q :: k)) Hmid Ht)
        as [Hr Hmid']; [cbn [run_items]; by rewrite Eq|by apply unlock_law|].
      eexists _, None. split; [exact Hmid'|]. right. left. exact Hr.
    + exists c, (Some t). split; [|by left]. apply (middle_on w c t l (WaitWhile q :: k) todo); [done..|]. cbn [run_items]. by rewrite Eq.
  - destruct (Hin eq_refl) as [-> Hm]. destruct (q (l_shared w) l) eqn:Eq; injection E as <-.
    + destruct (middle_rest w c t l (WaitIf q :: k) todo (wait_release t (l_mutex w)) l (l_shared w) (Some k) Hmid Ht)
        as [Hr Hmid']; [cbn [run_items]; by rewrite Eq|by apply unlock_law|].
      eexists _, None. split; [exact Hmid'|]. right. left. exact Hr.
    + exists c, (Some t). split; [|by left]. apply (middle_on w c t l (WaitIf q :: k) todo); [done..|]. cbn [run_items]. by rewrite Eq.
  - destruct (wait_return t (l_mutex w)) as [m|] eqn:El; [|done]. injection E as <-. apply wait_return_some in El as [e El].
    destruct (middle_locked _ _ _ _ _ _ _ Hmid El Ht eq_refl) as [-> Hm]. exists c, (Some t). split; [|by left].
    by apply (middle_enter w c t (mkThread l (Asleep k todo))).
Qed.

(** ** The theorem *)

(** What thread [t], inside, will have made of the state when it rests. *)
Definition finish_segment (t : nat) (w : locked_world) : option atomic_world :=
  th ← l_threads w !! t;
  match t_place th with
  | Inside k todo =>
      let '(s, l, r) := run_items k (l_shared w) (t_local th) in
      Some (s, <[t := mkThread l (match r with Some k => Asleep k todo | None => Rest todo end)]> (l_threads w))
  | _ => None
  end.

Lemma middle_finish w c t :
  in_the_middle w c (Some t) -> run_segment t c = finish_segment t w /\ is_Some (finish_segment t w).
Proof.
  intros (Hm & l & k & todo & th0 & k0 & Hc & Hn & Hr & Hw & Ho). unfold run_segment, finish_segment.
  rewrite Hc, Hw, list_lookup_insert_eq by (by eapply lookup_lt_Some). cbn [mbind option_bind t_place t_local].
  rewrite Hn. cbn [mbind option_bind]. rewrite Hr.
  destruct (run_items k (l_shared w) l) as [[s1 l1] r]. rewrite list_insert_insert_eq. split; [done|by eexists].
Qed.

(** Somebody can go on. *)
Lemma middle_progress w c o t th :
  in_the_middle w c o -> l_threads w !! t = Some th -> t_place th <> Rest [] -> exists t' w', lock_step t' w = Some w'.
Proof.
  intros (Hm & H1) Ht Hp. destruct o as [t1|].
  - destruct H1 as (l & k & todo & th0 & k0 & Hc & _ & _ & Hw & _). exists t1. unfold lock_step.
    rewrite Hw, list_lookup_insert_eq by (by eapply lookup_lt_Some). cbn [mbind option_bind t_place t_local].
    destruct k as [|[f|q|q] k]; [by eexists| | |].
    + destruct (f (l_shared w) l). by eexists.
    + destruct (q (l_shared w) l); by eexists.
    + destruct (q (l_shared w) l); by eexists.
  - destruct H1 as [_ Hn]. destruct (lock_free (l_mutex w) t Hm) as (m & El & _). exists t. unfold lock_step.
    rewrite Ht. cbn [mbind option_bind]. specialize (Hn t th Ht).
    destruct th as [l [[|sec todo]|k todo|k todo]]; cbn [t_place t_local] in *; [done| |done|].
    + destruct (s_try sec); [destruct (mutex_try_lock t (l_mutex w)); by eexists|].
      unfold lock_guard, mutex_lock. rewrite El. by eexists.
    + unfold wait_return. rewrite El. by eexists.
Qed.

Lemma lock_reach_middle w0 w :
  owner (l_mutex w0) = None -> (forall t th, l_threads w0 !! t = Some th -> is_inside (t_place th) = false) ->
  lock_reach w0 w ->
  exists c o, atomic_reach (l_shared w0, l_threads w0) c /\ in_the_middle w c o.
Proof.
  intros Hm Hn Hr. induction Hr as [|w t w' _ (c & o & Hc & Hmid) Hs].
  - exists (l_shared w0, l_threads w0), None. split; [constructor|]. by split.
  - destruct (lock_step_simulated _ _ _ _ _ Hmid Hs) as (c' & o' & Hmid' & Hor). exists c', o'. split; [|done].
    destruct Hor as [->|Hor]; [done|]. by apply (atomic_run _ c t).
Qed.

(** C35: sections under guards are atomic. However the threads interleave their
    accesses, waits and spurious wake-ups: while nobody has the mutex the state
    is one that whole sections, run one after the other, lead to; at most the
    owner of the mutex is in the middle of a section, and when it comes to rest
    that section was one step; and while a thread is not finished, some thread
    can go on. *)
Theorem sections_atomic s programs w :
  let w0 := new_locked s programs in
  lock_reach w0 w ->
  (owner (l_mutex w) = None -> atomic_reach (s, l_threads w0) (l_shared w, l_threads w))
  /\ (forall t, owner (l_mutex w) = Some t -> exists c c', atomic_reach (s, l_threads w0) c
        /\ run_segment t c = Some c' /\ finish_segment t w = Some c')
  /\ (forall t th, l_threads w !! t = Some th -> is_inside (t_place th) = true -> owner (l_mutex w) = Some t)
  /\ ((exists t th, l_threads w !! t = Some th /\ t_place th <> Rest []) -> exists t w', lock_step t w = Some w').
Proof.
  intros w0 Hr. destruct (lock_reach_middle w0 w) as (c & o & Hc & Hmid); [apply init_law| |done|].
  { intros t th Ht. cbn in Ht. apply list_lookup_fmap_Some in Ht as (p & -> & _). done. }
  assert (Ho : owner (l_mutex w) = o) by apply Hmid. rewrite Ho. split_and!.
  - intros ->. destruct Hmid as (_ & -> & _). exact Hc.
  - intros t ->. destruct (middle_finish w c t Hmid) as [E [c' Hc']]. exists c, c'. split; [done|]. by rewrite E.
  - intros t th. by apply (middle_inside w c o).
  - intros (t & th & Ht & Hp). by apply (middle_progress w c o t th).
Qed.

End Sections.
Arguments item : clear implicits.
Arguments section : clear implicits.
Arguments place : clear implicits.
Arguments thread : clear implicits.
Arguments locked_world : clear implicits.

(** ** Two threads that add to a counter *)

(** A mutex that is its owner. *)
#[export] Instance demo_mutex : OsMutex (option nat) := {
  os_init := None;
  os_lock t m := match m with None => Some (0%Z, Some t) | Some _ => None end;
  os_try t m := match m with None => (0%Z, Some t) | Some _ => (16%Z, m) end;
  os_unlock t m := (0%Z, None)
}.

#[export, refine] Instance demo_mutex_laws : OsMutexLaws (option nat) := { owner m := m }.
Proof.
  - done.
  - intros m t ->. by eexists.
  - by intros m t t' -> _.
  - intros m t e m'. destruct m; cbn; intros [= <- <-]; auto.
  - done.
Defined.

(** [local = counter; counter = local + 1], under a guard; the other thread
    waits until the counter is not zero. *)
Definition add_section : section nat nat := mkSection false [Do (fun s _ => (s, s)); Do (fun _ l => (S l, l))].
Definition wait_section : section nat nat :=
  mkSection false [WaitWhile (fun s _ => s =? 0); Do (fun s _ => (s, s)); Do (fun _ l => (S l, l))].

Definition counter_world : locked_world (option nat) nat nat := new_locked 0 [(0, [wait_section]); (0, [add_section])].

Fixpoint lock_run (ts : list nat) (w : locked_world (option nat) nat nat) : locked_world (option nat) nat nat :=
  match ts with
  | [] => w
  | t :: ts => lock_run ts (match @lock_step windows _ _ _ _ t w with Some w' => w' | None => w end)
  end.

Lemma lock_run_reach ts w0 w :
  @lock_reach windows _ _ _ _ w0 w -> @lock_reach windows _ _ _ _ w0 (lock_run ts w).
Proof.
  revert w; induction ts as [|t ts IH]; intros w Hr; cbn [lock_run]; [done|]. apply IH.
  destruct (lock_step t w) as [w'|] eqn:E; [|done]. by apply (lock_next _ w t).
Qed.

(** The first thread goes to sleep, the second adds, the first wakes up and is
    in the middle of adding. *)
Definition counter_run : locked_world (option nat) nat nat := lock_run [0; 0; 1; 0; 1; 1; 0; 1; 0; 0; 1] counter_world.

Lemma sections_atomic_witness :
  l_shared counter_run = 1 /\ owner (l_mutex counter_run) = Some 0
  /\ exists c c', @atomic_reach nat nat (0, l_threads counter_world) c
     /\ run_segment 0 c = Some c' /\ finish_segment 0 counter_run = Some c'.
Proof.
  destruct (@sections_atomic windows (option nat) demo_mutex demo_mutex_laws nat nat 0 [(0, [wait_section]); (0, [add_section])] counter_run)
    as (_ & Hmid & _); [apply lock_run_reach; constructor|].
  split; [vm_compute; reflexivity|]. split; [vm_compute; reflexivity|]. apply Hmid. vm_compute. reflexivity.
Defined.
