(* ===== verification/Relay.v ===== *)
(** * TCP relay: [src/msexamples/socks4a/tunnel.h], [tcprelay.cpp]

    For every connection of its server the relay makes a [Tunnel] with a
    [TcpClient] and forwards bytes between the two. A connection is its state,
    its input buffer (the readable bytes) and what was handed to [sendInLoop];
    all callbacks run in the one loop thread. A tunnel has the address of the
    server connection it is made for, which also stands for that connection's
    name. *)
From S2P Require Import Prelude.

Inductive rstate := RConnected | RDisconnecting | RDisconnected.

#[export] Instance rstate_eq_dec : EqDecision rstate.
Proof. solve_decision. Defined.

(** A connection; [r_tunnel] is the tunnel its callbacks are bound to, for a
    connection of a client. *)
Record rconn := mkRconn {
  r_state : rstate;
  inputBuffer : bytes;
  r_sent : bytes;
  r_context : option positive;
  r_tunnel : option positive
}.

(** A tunnel: [connection_] of its client, whether the client has made it, and
    whether the client's callbacks are still those of the tunnel. *)
Record Tunnel := mkTunnel {
  t_connection : option positive;
  t_made : bool;
  t_bound : bool;
  serverConn_ : positive
}.

Record relay := mkRelay {
  rconns : gmap positive rconn;
  tunnels : gmap positive Tunnel;
  g_tunnels : gset positive
}.

Definition new_relay : relay := mkRelay ∅ ∅ ∅.

Definition set_rstate (x : rstate) (c : rconn) : rconn :=
  mkRconn x (inputBuffer c) (r_sent c) (r_context c) (r_tunnel c).
Definition set_input (x : bytes) (c : rconn) : rconn :=
  mkRconn (r_state c) x (r_sent c) (r_context c) (r_tunnel c).
Definition set_sent (x : bytes) (c : rconn) : rconn :=
  mkRconn (r_state c) (inputBuffer c) x (r_context c) (r_tunnel c).
Definition set_context (x : option positive) (c : rconn) : rconn :=
  mkRconn (r_state c) (inputBuffer c) (r_sent c) x (r_tunnel c).

Definition set_rconns (cs : gmap positive rconn) (w : relay) : relay := mkRelay cs (tunnels w) (g_tunnels w).
Definition set_tunnels (ts : gmap positive Tunnel) (w : relay) : relay := mkRelay (rconns w) ts (g_tunnels w).
Definition set_g_tunnels (g : gset positive) (w : relay) : relay := mkRelay (rconns w) (tunnels w) g.

Definition update_rconn (f : rconn -> rconn) (c : positive) (w : relay) : res relay :=
  k ← get_ NullDeref (rconns w !! c); Ok (set_rconns (<[c := f k]> (rconns w)) w).

(** ** What the library does for the relay *)

(** [TcpConnection::send] of connection [dst] with the input buffer of
    [src]: a connection that is not connected leaves the buffer as it is. *)
Definition send_buffer (dst src : positive) (w : relay) : res relay :=
  d ← get_ NullDeref (rconns w !! dst);
  s ← get_ NullDeref (rconns w !! src);
  if decide (r_state d = RConnected) then
    w ← update_rconn (set_sent (r_sent d ++ inputBuffer s)) dst w;
    update_rconn (set_input []) src w
  else Ok w.

Definition conn_shutdown (c : positive) (w : relay) : res relay :=
  update_rconn (fun k => if decide (r_state k = RConnected) then set_rstate RDisconnecting k else k) c w.

(** [TcpClient::disconnect] of the tunnel's client. *)
Definition client_disconnect (t : Tunnel) (w : relay) : res relay :=
  match t_connection t with Some c => conn_shutdown c w | None => Ok w end.

(** ** [Tunnel] *)

(** The constructor with [setup] and [connect]: the callbacks of the client
    are bound, and its connector starts. *)
Definition new_Tunnel (serverConn : positive) : Tunnel := mkTunnel None false true serverConn.

Definition teardown (k : positive) (w : relay) : res relay :=
  t ← get_ NullDeref (tunnels w !! k);
  let w := set_tunnels (<[k := mkTunnel (t_connection t) (t_made t) false (serverConn_ t)]> (tunnels w)) w in
  w ← update_rconn (set_context None) (serverConn_ t) w;
  conn_shutdown (serverConn_ t) w.

Definition disconnect (k : positive) (w : relay) : res relay :=
  t ← get_ NullDeref (tunnels w !! k); client_disconnect t w.

Definition onClientConnection (k : positive) (conn : positive) (connected : bool) (w : relay) : res relay :=
  if connected then
    t ← get_ NullDeref (tunnels w !! k);
    w ← update_rconn (set_context (Some conn)) (serverConn_ t) w;
    send_buffer conn (serverConn_ t) w
  else teardown k w.

Definition onClientMessage (k : positive) (conn : positive) (w : relay) : res relay :=
  t ← get_ NullDeref (tunnels w !! k);
  send_buffer (serverConn_ t) conn w.

Definition onHighWaterMark (k : positive) (w : relay) : res relay := disconnect k w.

(** ** The callbacks of the server *)

Definition onServerConnection (c : positive) (connected : bool) (w : relay) : res relay :=
  if connected then
    Ok (set_g_tunnels ({[c]} ∪ g_tunnels w) (set_tunnels (<[c := new_Tunnel c]> (tunnels w)) w))
  else
    assert_ (bool_decide (c ∈ g_tunnels w));;
    w ← disconnect c w;
    Ok (set_g_tunnels (g_tunnels w ∖ {[c]}) w).

Definition onServerMessage (c : positive) (w : relay) : res relay :=
  k ← get_ NullDeref (rconns w !! c);
  match r_context k with
  | Some clientConn => send_buffer clientConn c w
  | None => Ok w
  end.

(** ** All that can happen *)
Inductive relay_input :=
  | ServerUp (c : positive)
  | ServerDown (c : positive)
  | ServerData (c : positive) (data : bytes)
  | ClientUp (k : positive) (c : positive)      (* the client of tunnel [k] connects *)
  | ClientDown (c : positive)
  | ClientData (c : positive) (data : bytes)
  | HighWater (k : positive).                   (* of either connection of tunnel [k] *)

(** A client's connection takes the callbacks the client has; without those of
    a tunnel the default ones run, which only discard input. *)
Definition relay_step (i : relay_input) (w : relay) : res relay :=
  match i with
  | ServerUp c =>
      onServerConnection c true (set_rconns (<[c := mkRconn RConnected [] [] None None]> (rconns w)) w)
  | ServerDown c =>
      w ← update_rconn (set_rstate RDisconnected) c w;
      onServerConnection c false w
  | ServerData c data =>
      w ← update_rconn (fun k => set_input (inputBuffer k ++ data) k) c w;
      onServerMessage c w
  | ClientUp k c =>
      t ← get_ NullDeref (tunnels w !! k);
      let w := set_rconns (<[c := mkRconn RConnected [] [] None (if t_bound t then Some k else None)]> (rconns w))
                 (set_tunnels (<[k := mkTunnel (Some c) true (t_bound t) (serverConn_ t)]> (tunnels w)) w) in
      if t_bound t then onClientConnection k c true w else Ok w
  | ClientDown c =>
      x ← get_ NullDeref (rconns w !! c);
      w ← update_rconn (set_rstate RDisconnected) c w;
      match r_tunnel x with
      | Some k =>
          w ← onClientConnection k c false w;
          t ← get_ NullDeref (tunnels w !! k);
          Ok (set_tunnels (<[k := mkTunnel None (t_made t) (t_bound t) (serverConn_ t)]> (tunnels w)) w)
      | None => Ok w
      end
  | ClientData c data =>
      x ← get_ NullDeref (rconns w !! c);
      w ← update_rconn (fun k => set_input (inputBuffer k ++ data) k) c w;
      match r_tunnel x with
      | Some k => onClientMessage k c w
      | None => update_rconn (set_input []) c w
      end
  | HighWater k => onHighWaterMark k w
  end.

(** What can happen in a state: the server's connections come up once, under
    fresh addresses, and go down once; a client that does not reconnect makes at
    most one connection. *)
Definition relay_enabled (i : relay_input) (w : relay) : Prop :=
  match i with
  | ServerUp c => rconns w !! c = None
  | ServerDown c | ServerData c _ => is_Some (tunnels w !! c)
      /\ exists x, rconns w !! c = Some x /\ r_state x <> RDisconnected
  | ClientUp k c => rconns w !! c = None /\ exists t, tunnels w !! k = Some t /\ t_made t = false
  | ClientDown c | ClientData c _ => tunnels w !! c = None
      /\ exists x, rconns w !! c = Some x /\ r_state x <> RDisconnected
  | HighWater k => is_Some (tunnels w !! k)
  end.

(** The states after a sequence of inputs. *)
Inductive relay_reach : list relay_input -> relay -> Prop :=
  | relay_init : relay_reach [] new_relay
  | relay_next inputs w i w' : relay_reach inputs w -> relay_enabled i w -> relay_step i w = Ok w' ->
      relay_reach (inputs ++ [i]) w'.

(** The bytes that arrived on a connection, and the connection that the client
    of a tunnel made. *)
Definition data_for (c : positive) (i : relay_input) : bytes :=
  match i with
  | ServerData d data | ClientData d data => if decide (d = c) then data else []
  | _ => []
  end.
Definition received (c : positive) (inputs : list relay_input) : bytes := concat (data_for c <$> inputs).

Definition client_made (k : positive) (i : relay_input) : option positive :=
  match i with ClientUp k' c => if decide (k' = k) then Some c else None | _ => None end.
Fixpoint client_of (k : positive) (inputs : list relay_input) : option positive :=
  match inputs with
  | [] => None
  | i :: inputs => match client_made k i with Some c => Some c | None => client_of k inputs end
  end.

(** ** The invariant *)

Lemma received_snoc c inputs i : received c (inputs ++ [i]) = received c inputs ++ data_for c i.
Proof. unfold received. rewrite fmap_app, concat_app. simpl. by rewrite app_nil_r. Qed.

Lemma client_of_snoc k inputs i :
  client_of k (inputs ++ [i]) = match client_of k inputs with Some c => Some c | None => client_made k i end.
Proof.
  induction inputs as [|j inputs IH]; cbn [app client_of]; [by destruct (client_made k i)|].
  by destruct (client_made k j).
Qed.

(** A server connection [s], its tunnel and the client's connection. *)
Definition pair_ok (inputs : list relay_input) (w : relay) (k : positive) (t : Tunnel) : Prop :=
  exists s, rconns w !! k = Some s /\ r_tunnel s = None /\ (k ∈ g_tunnels w <-> r_state s <> RDisconnected)
  /\ match client_of k inputs with
     | None => t = new_Tunnel k /\ r_context s = None /\ r_sent s = [] /\ received k inputs = inputBuffer s
     | Some c => exists x, rconns w !! c = Some x /\ r_tunnel x = Some k
         /\ received k inputs = r_sent x ++ inputBuffer s /\ received c inputs = r_sent s ++ inputBuffer x
         /\ (r_state x = RConnected -> inputBuffer s = []) /\ (r_state s = RConnected -> inputBuffer x = [])
         /\ if decide (r_state x = RDisconnected)
            then t = mkTunnel None true false k /\ r_context s = None /\ r_state s <> RConnected
            else t = mkTunnel (Some c) true true k /\ r_context s = Some c
     end.

Record relay_inv (inputs : list relay_input) (w : relay) : Prop := {
  ry_pair k t : tunnels w !! k = Some t -> pair_ok inputs w k t;
  ry_conn c x : rconns w !! c = Some x ->
    match r_tunnel x with
    | None => is_Some (tunnels w !! c)
    | Some k => client_of k inputs = Some c /\ is_Some (tunnels w !! k)
    end;
  ry_none k : tunnels w !! k = None -> client_of k inputs = None;
  ry_fresh c : rconns w !! c = None -> received c inputs = []
}.

Definition belongs (k : positive) (inputs : list relay_input) (d : positive) : Prop :=
  d = k \/ client_of k inputs = Some d.

(** An input that concerns one pair leaves the others alone. *)
Lemma inv_pair inputs i w w' k t' :
  relay_inv inputs w ->
  is_Some (tunnels w !! k) \/ (rconns w !! k = None /\ client_of k (inputs ++ [i]) = None) ->
  tunnels w' = <[k := t']> (tunnels w) ->
  (forall d, ~ belongs k (inputs ++ [i]) d -> rconns w' !! d = rconns w !! d /\ data_for d i = []) ->
  (forall d, d <> k -> d ∈ g_tunnels w' <-> d ∈ g_tunnels w) ->
  (forall c, client_of k (inputs ++ [i]) = Some c -> client_of k inputs = Some c \/ rconns w !! c = None) ->
  (forall k', k' <> k -> client_made k' i = None) ->
  pair_ok (inputs ++ [i]) w' k t' -> relay_inv (inputs ++ [i]) w'.
Proof.
  intros [Hp Hc Hn Hf] Hk Et Hd Hg Hcl Hcm Hpair.
  assert (Hco : forall k', k' <> k -> client_of k' (inputs ++ [i]) = client_of k' inputs).
  { intros k' Hk'. rewrite client_of_snoc, Hcm by done. by destruct (client_of k' inputs). }
  (* the members of another pair *)
  assert (Hother : forall k' d, k' <> k -> is_Some (tunnels w !! k') -> belongs k' inputs d -> ~ belongs k (inputs ++ [i]) d).
  { intros k' d Hk' [u Hu] Hb Hbk. destruct (Hp k' u Hu) as (s & Hs & Ets & _ & Hm). destruct Hk as [Hk|[Hk0 Hk1]].
    2: { destruct Hbk as [->|Hbk]; [|congruence]. destruct Hb as [->|Hb]; [done|]. rewrite Hb in Hm.
         destruct Hm as (x & Hx & _). congruence. }
    destruct Hb as [->|Hb].
    - destruct Hbk as [|Hbk]; [done|]. destruct (Hcl _ Hbk) as [Hbk'|Hnone]; [|congruence].
      destruct Hk as [v Hv]. destruct (Hp k v Hv) as (s2 & _ & _ & _ & Hm2). rewrite Hbk' in Hm2.
      destruct Hm2 as (x & Hx & Etx & _). congruence.
    - rewrite Hb in Hm. destruct Hm as (x & Hx & Etx & _). destruct Hbk as [->|Hbk].
      + destruct Hk as [v Hv]. destruct (Hp k v Hv) as (s2 & Hs2 & Ets2 & _). congruence.
      + destruct (Hcl _ Hbk) as [Hbk'|Hnone]; [|congruence].
        destruct Hk as [v Hv]. destruct (Hp k v Hv) as (s2 & _ & _ & _ & Hm2). rewrite Hbk' in Hm2.
        destruct Hm2 as (x2 & Hx2 & Etx2 & _). congruence. }
  split.
  - intros k' u. rewrite Et. intros [[<- <-]|[Hne Hu]]%lookup_insert_Some; [done|].
    assert (Hsame : forall d, belongs k' inputs d -> rconns w' !! d = rconns w !! d /\ received d (inputs ++ [i]) = received d inputs).
    { intros d Hb. destruct (Hd d) as [E E']; [by apply (Hother k')|]. split; [done|].
      by rewrite received_snoc, E', app_nil_r. }
    destruct (Hp k' u Hu) as (s & Hs & Ets & Hgs & Hm). unfold pair_ok.
    destruct (Hsame k') as [E1 E2]; [by left|]. rewrite Hco, E1, E2 by done. exists s. split; [done|]. split; [done|].
    split; [by rewrite Hg|]. destruct (client_of k' inputs) as [c|] eqn:Ec; [|done].
    destruct (Hsame c) as [E3 E4]; [by right|]. by rewrite E3, E4.
  - intros c x Hx. destruct (decide (c = k)) as [->|Hck].
    { destruct Hpair as (s & Hs & Ets & _). rewrite Hx in Hs. injection Hs as <-. rewrite Ets, Et.
      rewrite lookup_insert_eq. by eexists. }
    destruct (decide (client_of k (inputs ++ [i]) = Some c)) as [Ec|Ec].
    { destruct Hpair as (s & _ & _ & _ & Hm). rewrite Ec in Hm. destruct Hm as (y & Hy & Ety & _).
      rewrite Hx in Hy. injection Hy as <-. rewrite Ety. split; [done|]. rewrite Et, lookup_insert_eq. by eexists. }
    destruct (Hd c) as [E _]; [by intros []|]. rewrite E in Hx. specialize (Hc c x Hx).
    destruct (r_tunnel x) as [k'|].
    + destruct Hc as [Hk' [u Hu]]. destruct (decide (k' = k)) as [->|Hne].
      { exfalso. apply Ec. by rewrite client_of_snoc, Hk'. }
      rewrite Hco by done. split; [done|]. rewrite Et, lookup_insert_ne by done. by eexists.
    + rewrite Et, lookup_insert_ne by done. done.
  - intros k'. rewrite Et. intros [Hk' Hne]%lookup_insert_None. rewrite Hco by done. by apply Hn.
  - intros c Hcn. destruct (decide (c = k)) as [->|Hck].
    { destruct Hpair as (s & Hs & _). congruence. }
    destruct (decide (client_of k (inputs ++ [i]) = Some c)) as [Ec|Ec].
    { destruct Hpair as (s & _ & _ & _ & Hm). rewrite Ec in Hm. destruct Hm as (y & Hy & _). congruence. }
    destruct (Hd c) as [E E']; [by intros []|]. rewrite received_snoc, E', app_nil_r. apply Hf. congruence.
Qed.

(** ** Steps *)

Lemma pair_of inputs w k t :
  relay_inv inputs w -> tunnels w !! k = Some t -> pair_ok inputs w k t.
Proof. intros H. apply (ry_pair _ _ H). Qed.

Lemma server_tunnel_none inputs w c : relay_inv inputs w -> rconns w !! c = None -> tunnels w !! c = None.
Proof.
  intros H Hc. destruct (tunnels w !! c) as [t|] eqn:Et; [|done].
  destruct (pair_of _ _ _ _ H Et) as (s & Hs & _). congruence.
Qed.

Lemma serverUp_inv inputs w c :
  relay_inv inputs w -> relay_enabled (ServerUp c) w ->
  exists w', relay_step (ServerUp c) w = Ok w' /\ relay_inv (inputs ++ [ServerUp c]) w'.
Proof.
  intros H Hc. cbn [relay_enabled] in Hc. pose proof (server_tunnel_none _ _ _ H Hc) as Ht.
  assert (Ecl : client_of c (inputs ++ [ServerUp c]) = None)
    by (rewrite client_of_snoc; by rewrite (ry_none _ _ H)).
  eexists. split; [reflexivity|]. apply (inv_pair inputs _ w _ c (new_Tunnel c)); try done.
  - by right.
  - intros d Hd. cbn. split; [|done]. apply lookup_insert_ne. intros ->. apply Hd. by left.
  - intros d Hd. cbn. set_solver.
  - intros d Hd. congruence.
  - unfold pair_ok. cbn. rewrite lookup_insert_eq, Ecl. eexists. split; [done|]. split; [done|].
    split; [set_solver|]. split_and!; try done.
    rewrite received_snoc. simpl. rewrite app_nil_r. by apply (ry_fresh _ _ H).
Qed.

Lemma update_rconn_eq f c x w :
  rconns w !! c = Some x -> update_rconn f c w = Ok (set_rconns (<[c := f x]> (rconns w)) w).
Proof. intros Hx. unfold update_rconn. by rewrite Hx. Qed.

(** A state that differs in the connections only. *)
Definition same_tunnels (w w' : relay) : Prop := tunnels w' = tunnels w /\ g_tunnels w' = g_tunnels w.

(** [send]: the bytes move, or the connection is not connected and they stay. *)
Lemma send_buffer_spec dst src d s w :
  dst <> src -> rconns w !! dst = Some d -> rconns w !! src = Some s ->
  exists w' d' s', send_buffer dst src w = Ok w' /\ same_tunnels w w'
    /\ rconns w' !! dst = Some d' /\ rconns w' !! src = Some s'
    /\ (forall c, c <> dst -> c <> src -> rconns w' !! c = rconns w !! c)
    /\ r_state d' = r_state d /\ r_tunnel d' = r_tunnel d /\ inputBuffer d' = inputBuffer d /\ r_context d' = r_context d
    /\ r_state s' = r_state s /\ r_tunnel s' = r_tunnel s /\ r_sent s' = r_sent s /\ r_context s' = r_context s
    /\ r_sent d' ++ inputBuffer s' = r_sent d ++ inputBuffer s
    /\ (r_state d = RConnected -> inputBuffer s' = []) /\ (inputBuffer s = [] -> inputBuffer s' = []).
Proof.
  intros Hne Hd Hs. unfold send_buffer. rewrite Hd, Hs. run_res.
  destruct (decide (r_state d = RConnected)) as [E|E].
  - rewrite (update_rconn_eq _ dst d) by done. run_res.
    rewrite (update_rconn_eq _ src s) by (cbn; by rewrite lookup_insert_ne).
    exists (set_rconns (<[src := set_input [] s]> (<[dst := set_sent (r_sent d ++ inputBuffer s) d]> (rconns w))) w).
    do 2 eexists. cbn. rewrite lookup_insert_eq, lookup_insert_ne, lookup_insert_eq by done.
    split_and!; try done; cbn; [|by rewrite app_nil_r].
    intros c Hc1 Hc2. by rewrite !lookup_insert_ne by done.
  - exists w, d, s. by split_and!.
Qed.

(** What an input adds to the bytes that arrived. *)
Lemma received_other c inputs i : data_for c i = [] -> received c (inputs ++ [i]) = received c inputs.
Proof. intros E. by rewrite received_snoc, E, app_nil_r. Qed.

Ltac lookups := cbn [rconns set_rconns set_tunnels set_g_tunnels tunnels g_tunnels];
  repeat first [rewrite lookup_insert_eq | rewrite lookup_insert_ne by done].

(** An input that makes no client leaves the clients as they are. *)
Lemma client_same k inputs i : client_made k i = None -> client_of k (inputs ++ [i]) = client_of k inputs.
Proof. intros E. rewrite client_of_snoc, E. by destruct (client_of k inputs). Qed.

(** The bytes of one connection arrive. *)
Lemma data_self c i data : i = ServerData c data \/ i = ClientData c data -> data_for c i = data.
Proof. by intros [-> | ->]; simpl; rewrite decide_True. Qed.
Lemma data_others c d i data : i = ServerData c data \/ i = ClientData c data -> d <> c -> data_for d i = [].
Proof. by intros [-> | ->] ?; simpl; rewrite decide_False by congruence. Qed.

Lemma serverData_inv inputs w c data :
  relay_inv inputs w -> relay_enabled (ServerData c data) w ->
  exists w', relay_step (ServerData c data) w = Ok w' /\ relay_inv (inputs ++ [ServerData c data]) w'.
Proof.
  intros H ([t Ht] & y & Hy & Hst). pose proof (pair_of _ _ _ _ H Ht) as (s & Hs & Ets & Hg & Hm).
  rewrite Hy in Hs. injection Hs as ->. cbn [relay_step]. rewrite (update_rconn_eq _ c s) by done. run_res.
  unfold onServerMessage. set (s1 := set_input (inputBuffer s ++ data) s). set (w1 := set_rconns _ w).
  assert (Hs1 : rconns w1 !! c = Some s1) by (unfold w1; by lookups). rewrite Hs1. run_res.
  set (i := ServerData c data). pose proof (data_self c i data (or_introl eq_refl)) as Hdc.
  pose proof (fun d => data_others c d i data (or_introl eq_refl)) as Hdd.
  assert (Hcl : forall k, client_of k (inputs ++ [i]) = client_of k inputs) by (intros k; by apply client_same).
  assert (Hid : tunnels w = <[c := t]> (tunnels w)) by (by rewrite insert_id).
  assert (Ho : forall d, ~ belongs c (inputs ++ [i]) d -> d <> c) by (intros d Hd ->; apply Hd; by left).
  destruct (client_of c inputs) as [k|] eqn:Ec.
  - destruct Hm as (x & Hx & Etx & R1 & R2 & F1 & F2 & Hm). assert (Hne : k <> c) by congruence.
    assert (Hx1 : rconns w1 !! k = Some x) by (unfold w1; by lookups).
    assert (Hcont : (r_context s = None /\ r_state x = RDisconnected) \/ r_context s = Some k).
    { case_decide; destruct_and?; [by left|by right]. }
    destruct Hcont as [[E Hxd]|E]; cbn [r_context s1 set_input]; rewrite E.
    + eexists. split; [reflexivity|]. apply (inv_pair inputs i w _ c t); try done; [by left; eexists|..].
      * intros d Hd%Ho. unfold w1. lookups. by split; [|apply Hdd].
      * intros d Hd. rewrite Hcl in Hd. by left.
      * exists s1. rewrite Hcl, Ec. split_and!; try done. exists x.
        rewrite received_snoc, Hdc, R1, received_other by (by apply Hdd). cbn [s1 inputBuffer set_input r_sent].
        rewrite <- app_assoc. split_and!; try done. congruence.
    + destruct (send_buffer_spec k c x s1 w1 Hne Hx1 Hs1)
        as (w' & x' & s' & -> & [Et' Eg'] & Hx' & Hs' & Hoth & E1 & E2 & E3 & E4 & E5 & E6 & E7 & E8 & Es & F & _).
      eexists. split; [reflexivity|]. apply (inv_pair inputs i w _ c t); try done; [by left; eexists|by rewrite Et'|..].
      * intros d Hd. pose proof (Ho d Hd). assert (d <> k) by (intros ->; apply Hd; right; by rewrite Hcl).
        rewrite Hoth by done. unfold w1. lookups. by split; [|apply Hdd].
      * intros d Hd. by rewrite Eg'.
      * intros d Hd. rewrite Hcl in Hd. by left.
      * exists s'. rewrite Hcl, Ec, Eg', E5, E6, E7, E8. split_and!; try done. exists x'.
        rewrite received_snoc, Hdc, R1, received_other by (by apply Hdd).
        rewrite Es, E1, E2, E3. cbn [s1 inputBuffer set_input r_sent r_state r_context]. rewrite <- app_assoc.
        by split_and!.
  - destruct Hm as (-> & E & Hsent & R1). cbn [r_context s1 set_input]. rewrite E. eexists. split; [reflexivity|].
    apply (inv_pair inputs i w _ c (new_Tunnel c)); try done; [by left; eexists|..].
    + intros d Hd%Ho. unfold w1. lookups. by split; [|apply Hdd].
    + intros d Hd. rewrite Hcl in Hd. by left.
    + exists s1. rewrite Hcl, Ec. split_and!; try done.
      by rewrite received_snoc, Hdc, R1.
Qed.

(** A connection of a client, its tunnel and the server's connection. *)
Lemma client_conn inputs w c x :
  relay_inv inputs w -> tunnels w !! c = None -> rconns w !! c = Some x ->
  exists k t, r_tunnel x = Some k /\ client_of k inputs = Some c /\ tunnels w !! k = Some t /\ c <> k.
Proof.
  intros H Hc Hx. pose proof (ry_conn _ _ H c x Hx) as Hm. destruct (r_tunnel x) as [k|]; [|by rewrite Hc in Hm; destruct Hm].
  destruct Hm as [Hm [t Ht]]. exists k, t. split_and!; try done. congruence.
Qed.

Lemma clientData_inv inputs w c data :
  relay_inv inputs w -> relay_enabled (ClientData c data) w ->
  exists w', relay_step (ClientData c data) w = Ok w' /\ relay_inv (inputs ++ [ClientData c data]) w'.
Proof.
  intros H (Hc & x & Hx & Hst). destruct (client_conn _ _ _ _ H Hc Hx) as (k & t & Etx & Ec & Ht & Hne).
  pose proof (pair_of _ _ _ _ H Ht) as (s & Hs & Ets & Hg & Hm). rewrite Ec in Hm.
  destruct Hm as (y & Hy & _ & R1 & R2 & F1 & F2 & Hm). rewrite Hx in Hy. injection Hy as <-.
  rewrite decide_False in Hm by done. destruct Hm as [-> Econt].
  cbn [relay_step]. rewrite Hx. run_res. rewrite (update_rconn_eq _ c x) by done. run_res. rewrite Etx.
  set (x1 := set_input (inputBuffer x ++ data) x). set (w1 := set_rconns _ w).
  assert (Hx1 : rconns w1 !! c = Some x1) by (unfold w1; by lookups).
  assert (Hs1 : rconns w1 !! k = Some s) by (unfold w1; by lookups).
  unfold onClientMessage. cbn [tunnels w1 set_rconns]. rewrite Ht. run_res. cbn [serverConn_].
  destruct (send_buffer_spec k c s x1 w1 (not_eq_sym Hne) Hs1 Hx1)
    as (w' & s' & x' & -> & [Et' Eg'] & Hs' & Hx' & Hoth & E1 & E2 & E3 & E4 & E5 & E6 & E7 & E8 & Es & F & _).
  set (i := ClientData c data). pose proof (data_self c i data (or_intror eq_refl)) as Hdc.
  pose proof (fun d => data_others c d i data (or_intror eq_refl)) as Hdd.
  assert (Hcl : forall k, client_of k (inputs ++ [i]) = client_of k inputs) by (intros k'; by apply client_same).
  eexists. split; [reflexivity|].
  apply (inv_pair inputs i w _ k (mkTunnel (Some c) true true k)); try done; [by left; eexists|by rewrite Et', insert_id|..].
  - intros d Hd. assert (d <> k) by (intros ->; apply Hd; by left).
    assert (d <> c) by (intros ->; apply Hd; right; by rewrite Hcl).
    rewrite Hoth by done. unfold w1. lookups. by split; [|apply Hdd].
  - intros d Hd. by rewrite Eg'.
  - intros d Hd. rewrite Hcl in Hd. by left.
  - exists s'. rewrite Hcl, Ec, Eg', E1, E2, E3, E4. split_and!; try done. exists x'.
    rewrite received_other, R1, received_snoc, Hdc, R2 by (by apply Hdd).
    rewrite Es, E5, E6, E7. cbn [x1 inputBuffer set_input r_sent r_state r_context r_tunnel]. rewrite <- app_assoc, decide_False by done.
    by split_and!.
Qed.

(** [shutdown]. *)
Lemma conn_shutdown_spec c x w :
  rconns w !! c = Some x ->
  exists x', conn_shutdown c w = Ok (set_rconns (<[c := x']> (rconns w)) w)
    /\ r_state x' <> RConnected /\ (r_state x' = RDisconnected <-> r_state x = RDisconnected)
    /\ r_tunnel x' = r_tunnel x /\ inputBuffer x' = inputBuffer x /\ r_sent x' = r_sent x /\ r_context x' = r_context x.
Proof.
  intros Hx. unfold conn_shutdown. rewrite (update_rconn_eq _ c x) by done. eexists. split; [reflexivity|].
  case_decide as E; cbn; [|by split_and!]. split_and!; try done. by rewrite E.
Qed.

(** [disconnect] shuts down the client's connection if there is one. *)
Lemma disconnect_spec inputs w k t :
  relay_inv inputs w -> tunnels w !! k = Some t -> forall w1,
  tunnels w1 = tunnels w -> (forall c, c <> k -> rconns w1 !! c = rconns w !! c) ->
  (disconnect k w1 = Ok w1 /\ t_connection t = None)
  \/ exists c x x', client_of k inputs = Some c /\ c <> k /\ rconns w !! c = Some x /\ t_connection t = Some c
      /\ disconnect k w1 = Ok (set_rconns (<[c := x']> (rconns w1)) w1)
      /\ r_state x' <> RConnected /\ (r_state x' = RDisconnected <-> r_state x = RDisconnected)
      /\ r_tunnel x' = r_tunnel x /\ inputBuffer x' = inputBuffer x /\ r_sent x' = r_sent x /\ r_context x' = r_context x.
Proof.
  intros H Ht w1 E1 E2. unfold disconnect. rewrite E1, Ht. run_res. unfold client_disconnect.
  destruct (t_connection t) as [c|] eqn:Ec; [right|by left].
  pose proof (pair_of _ _ _ _ H Ht) as (s & Hs & Ets & _ & Hm). destruct (client_of k inputs) as [c'|]; [|by destruct Hm as [-> _]].
  destruct Hm as (x & Hx & Etx & _ & _ & _ & _ & Hm). assert (Hne : c' <> k) by congruence.
  assert (c' = c) as <-.
  { case_decide; destruct Hm as [-> _]; [done|]. by injection Ec as ->. }
  destruct (conn_shutdown_spec c' x w1) as (x' & E & Hx'); [by rewrite E2|].
  exists c', x, x'. by split_and!; try apply Hx'.
Qed.

Lemma serverDown_inv inputs w c :
  relay_inv inputs w -> relay_enabled (ServerDown c) w ->
  exists w', relay_step (ServerDown c) w = Ok w' /\ relay_inv (inputs ++ [ServerDown c]) w'.
Proof.
  intros H ([t Ht] & y & Hy & Hst). pose proof (pair_of _ _ _ _ H Ht) as (s & Hs & Ets & Hg & Hm).
  rewrite Hy in Hs. injection Hs as ->. cbn [relay_step]. rewrite (update_rconn_eq _ c s) by done. run_res.
  set (w1 := set_rconns _ w). set (i := ServerDown c). unfold onServerConnection. cbn [g_tunnels w1 set_rconns].
  rewrite bool_decide_true by (by apply Hg). run_res.
  assert (Hcl : forall k, client_of k (inputs ++ [i]) = client_of k inputs) by (intros k; by apply client_same).
  assert (Hrc : forall d, received d (inputs ++ [i]) = received d inputs) by (intros d; by apply received_other).
  destruct (disconnect_spec _ _ _ _ H Ht w1 eq_refl) as [[-> Et]|(k & x & x' & Ec & Hne & Hx & Et & -> & S1 & S2 & S3 & S4 & S5 & S6)].
  { intros d Hd. unfold w1. by lookups. }
  - run_res. eexists. split; [reflexivity|]. apply (inv_pair inputs i w _ c t); try done; [left; by eexists|by lookups; rewrite insert_id|..].
    + intros d Hd. assert (d <> c) by (intros ->; apply Hd; by left). unfold w1. by lookups.
    + intros d Hd. cbn. set_solver.
    + intros d Hd. rewrite Hcl in Hd. by left.
    + exists (set_rstate RDisconnected s). rewrite Hcl, Hrc. unfold w1. lookups. split; [done|]. split; [done|].
      split; [cbn; set_solver|]. destruct (client_of c inputs) as [k|] eqn:Ec; [|done].
      destruct Hm as (x & Hx & Etx & R1 & R2 & F1 & F2 & Hm). assert (k <> c) by congruence. exists x. rewrite Hrc. lookups.
      split_and!; try done. case_decide; destruct_and?; [by split_and!|]. by subst.
  - run_res. eexists. split; [reflexivity|]. apply (inv_pair inputs i w _ c t); try done; [left; by eexists|by lookups; rewrite insert_id|..].
    + intros d Hd. assert (d <> c) by (intros ->; apply Hd; by left).
      assert (d <> k) by (intros ->; apply Hd; right; by rewrite Hcl). unfold w1. by lookups.
    + intros d Hd. cbn. set_solver.
    + intros d Hd. rewrite Hcl in Hd. by left.
    + exists (set_rstate RDisconnected s). rewrite Hcl, Hrc, Ec. unfold w1. lookups. split; [done|]. split; [done|].
      split; [cbn; set_solver|]. rewrite Ec in Hm.
      destruct Hm as (y & Hy' & Etx & R1 & R2 & F1 & F2 & Hm). rewrite Hx in Hy'. injection Hy' as <-.
      exists x'. rewrite Hrc. lookups. rewrite S3, S4, S5. split_and!; try done.
      destruct (decide (r_state x' = RDisconnected)) as [D|D].
      * rewrite decide_True in Hm by (by apply S2). by destruct Hm as (-> & _).
      * by rewrite decide_False in Hm by (by rewrite <- S2).
Qed.

Lemma highWater_inv inputs w k :
  relay_inv inputs w -> relay_enabled (HighWater k) w ->
  exists w', relay_step (HighWater k) w = Ok w' /\ relay_inv (inputs ++ [HighWater k]) w'.
Proof.
  intros H [t Ht]. pose proof (pair_of _ _ _ _ H Ht) as (s & Hs & Ets & Hg & Hm).
  cbn [relay_step]. unfold onHighWaterMark. set (i := HighWater k).
  assert (Hcl : forall k, client_of k (inputs ++ [i]) = client_of k inputs) by (intros k'; by apply client_same).
  assert (Hrc : forall d, received d (inputs ++ [i]) = received d inputs) by (intros d; by apply received_other).
  destruct (disconnect_spec _ _ _ _ H Ht w eq_refl) as [[-> Et]|(c & x & x' & Ec & Hne & Hx & Et & -> & S1 & S2 & S3 & S4 & S5 & S6)]; [done| |].
  - eexists. split; [reflexivity|]. apply (inv_pair inputs i w _ k t); try done; [left; by eexists|by rewrite insert_id|..].
    + intros d Hd. rewrite Hcl in Hd. by left.
    + exists s. rewrite Hcl, Hrc. split_and!; try done. destruct (client_of k inputs) as [c|] eqn:Ec; [|done].
      destruct Hm as (x & Hx & Hm). exists x. rewrite Hrc. by split.
  - eexists. split; [reflexivity|]. apply (inv_pair inputs i w _ k t); try done; [left; by eexists|by lookups; rewrite insert_id|..].
    + intros d Hd. assert (d <> c) by (intros ->; apply Hd; right; by rewrite Hcl). by lookups.
    + intros d Hd. rewrite Hcl in Hd. by left.
    + exists s. rewrite Hcl, Hrc, Ec. lookups. split_and!; try done. rewrite Ec in Hm.
      destruct Hm as (y & Hy' & Etx & R1 & R2 & F1 & F2 & Hm). rewrite Hx in Hy'. injection Hy' as <-.
      exists x'. rewrite Hrc. lookups. rewrite S3, S4, S5. split_and!; try done.
      destruct (decide (r_state x' = RDisconnected)) as [D|D].
      * by rewrite decide_True in Hm by (by apply S2).
      * by rewrite decide_False in Hm by (by rewrite <- S2).
Qed.

Lemma clientUp_inv inputs w k c :
  relay_inv inputs w -> relay_enabled (ClientUp k c) w ->
  exists w', relay_step (ClientUp k c) w = Ok w' /\ relay_inv (inputs ++ [ClientUp k c]) w'.
Proof.
  intros H (Hc & t & Ht & Hmade). pose proof (pair_of _ _ _ _ H Ht) as (s & Hs & Ets & Hg & Hm).
  assert (Hnc : client_of k inputs = None).
  { destruct (client_of k inputs) as [d|]; [|done]. destruct Hm as (x & _ & _ & _ & _ & _ & _ & Hm).
    case_decide; destruct Hm as [-> _]; done. }
  rewrite Hnc in Hm. destruct Hm as (-> & Econt & Esent & R1). assert (Hne : c <> k) by congruence.
  cbn [relay_step]. rewrite Ht. run_res. cbn [t_bound new_Tunnel serverConn_].
  unfold onClientConnection. lookups. run_res. cbn [serverConn_].
  set (w0 := set_rconns _ _). rewrite (update_rconn_eq _ k s) by (unfold w0; by lookups). run_res.
  set (w1 := set_rconns _ w0). set (x := mkRconn RConnected [] [] None (Some k)). set (s1 := set_context (Some c) s).
  destruct (send_buffer_spec c k x s1 w1 Hne) as (w' & x' & s' & -> & [Et' Eg'] & Hx' & Hs' & Hoth & E1 & E2 & E3 & E4 & E5 & E6 & E7 & E8 & Es & F & _);
    [unfold w1, w0; by lookups|unfold w1, w0; by lookups|].
  set (i := ClientUp k c).
  assert (Hcl : client_of k (inputs ++ [i]) = Some c) by (rewrite client_of_snoc, Hnc; cbn; by rewrite decide_True).
  assert (Hrc : forall d, received d (inputs ++ [i]) = received d inputs) by (intros d; by apply received_other).
  eexists. split; [reflexivity|]. apply (inv_pair inputs i w _ k (mkTunnel (Some c) true true k)); try done; [left; by eexists|..].
  - intros d Hd. assert (d <> k) by (intros ->; apply Hd; by left).
    assert (d <> c) by (intros ->; apply Hd; by right). rewrite Hoth by done. unfold w1, w0. by lookups.
  - intros d Hd. by rewrite Eg'.
  - intros d Hd. rewrite Hcl in Hd. injection Hd as <-. by right.
  - intros k' Hk'. cbn. by rewrite decide_False by congruence.
  - exists s'. rewrite Hcl, !Hrc, Eg', E5, E6, E7, E8. split_and!; try done. exists x'. rewrite Es, E1, E2, E3.
    cbn [x s1 r_sent r_state inputBuffer set_context r_context app]. rewrite Esent, (ry_fresh _ _ H c Hc), decide_False by done.
    by split_and!.
Qed.

Lemma clientDown_inv inputs w c :
  relay_inv inputs w -> relay_enabled (ClientDown c) w ->
  exists w', relay_step (ClientDown c) w = Ok w' /\ relay_inv (inputs ++ [ClientDown c]) w'.
Proof.
  intros H (Hc & x & Hx & Hst). destruct (client_conn _ _ _ _ H Hc Hx) as (k & t & Etx & Ec & Ht & Hne).
  pose proof (pair_of _ _ _ _ H Ht) as (s & Hs & Ets & Hg & Hm). rewrite Ec in Hm.
  destruct Hm as (y & Hy & _ & R1 & R2 & F1 & F2 & Hm). rewrite Hx in Hy. injection Hy as <-.
  rewrite decide_False in Hm by done. destruct Hm as [-> Econt].
  cbn [relay_step]. rewrite Hx. run_res. rewrite (update_rconn_eq _ c x) by done. run_res. rewrite Etx.
  unfold onClientConnection, teardown. lookups. rewrite Ht. run_res. cbn [serverConn_ t_connection t_made].
  rewrite (update_rconn_eq _ k s) by (by lookups). run_res. set (w1 := set_rconns _ (set_tunnels _ _)).
  set (s1 := set_context None s).
  destruct (conn_shutdown_spec k s1 w1) as (s' & -> & S1 & S2 & S3 & S4 & S5 & S6); [unfold w1; by lookups|].
  run_res. unfold w1. lookups. run_res. set (i := ClientDown c).
  assert (Hcl : forall k, client_of k (inputs ++ [i]) = client_of k inputs) by (intros k'; by apply client_same).
  assert (Hrc : forall d, received d (inputs ++ [i]) = received d inputs) by (intros d; by apply received_other).
  eexists. split; [reflexivity|]. apply (inv_pair inputs i w _ k (mkTunnel None true false k)); try done; [left; by eexists|..].
  - lookups. by rewrite insert_insert_eq.
  - intros d Hd. assert (d <> k) by (intros ->; apply Hd; by left).
    assert (d <> c) by (intros ->; apply Hd; right; by rewrite Hcl). by lookups.
  - intros d Hd. rewrite Hcl in Hd. by left.
  - exists s'. rewrite Hcl, Ec, !Hrc. lookups. rewrite S2, S3, S4, S5, S6. split_and!; try done.
    exists (set_rstate RDisconnected x). lookups. cbn [r_state set_rstate]. rewrite decide_True by done.
    by split_and!.
Qed.

Lemma relay_step_inv inputs w i :
  relay_inv inputs w -> relay_enabled i w ->
  exists w', relay_step i w = Ok w' /\ relay_inv (inputs ++ [i]) w'.
Proof.
  destruct i.
  - apply serverUp_inv.
  - apply serverDown_inv.
  - apply serverData_inv.
  - apply clientUp_inv.
  - apply clientDown_inv.
  - apply clientData_inv.
  - apply highWater_inv.
Qed.

Lemma relay_reach_inv inputs w : relay_reach inputs w -> relay_inv inputs w.
Proof.
  induction 1 as [|inputs w i w' _ IH He E]; [by split|].
  destruct (relay_step_inv _ _ _ IH He) as (w2 & E2 & H2). congruence.
Qed.

(** C29: Whatever happens to its connections, no handler of the relay fails, and
    each tunnel forwards exactly: in both directions the bytes that arrived on
    one side are those handed to the other side's [send] and then those that
    still wait in the input buffer, in order; none wait while the other side is
    connected; a server connection whose client went down is shut down. *)
Theorem relay_exact inputs w :
  relay_reach inputs w ->
  (forall i, relay_enabled i w -> exists w', relay_step i w = Ok w')
  /\ forall k t, tunnels w !! k = Some t -> exists s, rconns w !! k = Some s
     /\ match client_of k inputs with
        | None => received k inputs = inputBuffer s /\ r_sent s = []
        | Some c => exists x, rconns w !! c = Some x
            /\ received k inputs = r_sent x ++ inputBuffer s /\ received c inputs = r_sent s ++ inputBuffer x
            /\ (r_state x = RConnected -> inputBuffer s = []) /\ (r_state s = RConnected -> inputBuffer x = [])
            /\ (r_state x = RDisconnected -> r_state s <> RConnected)
        end.
Proof.
  intros Hr. pose proof (relay_reach_inv _ _ Hr) as H. split.
  - intros i He. destruct (relay_step_inv _ _ _ H He) as (w' & E & _). by exists w'.
  - intros k t Ht. destruct (ry_pair _ _ H k t Ht) as (s & Hs & _ & _ & Hm). exists s. split; [done|].
    destruct (client_of k inputs) as [c|]; [|by destruct Hm as (_ & _ & ? & ?)].
    destruct Hm as (x & Hx & _ & R1 & R2 & F1 & F2 & Hm). exists x. split_and!; try done.
    intros E. rewrite decide_True in Hm by done. by destruct Hm as (_ & _ & ?).
Qed.

(** ** Two connections through the relay *)
Fixpoint relay_run (inputs : list relay_input) (w : relay) : res relay :=
  match inputs with [] => Ok w | i :: inputs => w ← relay_step i w; relay_run inputs w end.

(** Whether an input can happen. *)
Definition enabled_b (i : relay_input) (w : relay) : bool :=
  let open c := match rconns w !! c with Some x => negb (bool_decide (r_state x = RDisconnected)) | None => false end in
  match i with
  | ServerUp c => bool_decide (rconns w !! c = None)
  | ServerDown c | ServerData c _ => bool_decide (is_Some (tunnels w !! c)) && open c
  | ClientUp k c => bool_decide (rconns w !! c = None)
      && match tunnels w !! k with Some t => negb (t_made t) | None => false end
  | ClientDown c | ClientData c _ => bool_decide (tunnels w !! c = None) && open c
  | HighWater k => bool_decide (is_Some (tunnels w !! k))
  end.

Lemma enabled_b_ok i w : enabled_b i w = true -> relay_enabled i w.
Proof.
  assert (Ho : forall c, match rconns w !! c with Some x => negb (bool_decide (r_state x = RDisconnected)) | None => false end = true ->
    exists x, rconns w !! c = Some x /\ r_state x <> RDisconnected).
  { intros c. destruct (rconns w !! c) as [x|]; [|done]. intros Hb%negb_true_iff%bool_decide_eq_false. by exists x. }
  destruct i; cbn [enabled_b relay_enabled]; intros Hb;
    try (apply andb_true_iff in Hb as [Hb Hb']); try apply bool_decide_eq_true in Hb; auto.
  split; [done|]. destruct (tunnels w !! k) as [t|]; [|done]. exists t. by apply negb_true_iff in Hb'.
Qed.

Fixpoint all_enabled (inputs : list relay_input) (w : relay) : bool :=
  match inputs with
  | [] => true
  | i :: inputs => enabled_b i w && match relay_step i w with Ok w => all_enabled inputs w | Fault _ => false end
  end.

Lemma relay_run_reach inputs : forall pre w w',
  relay_reach pre w -> all_enabled inputs w = true -> relay_run inputs w = Ok w' -> relay_reach (pre ++ inputs) w'.
Proof.
  induction inputs as [|i inputs IH]; intros pre w w' Hr Hb E; cbn [all_enabled relay_run] in *.
  - injection E as <-. by rewrite app_nil_r.
  - apply andb_true_iff in Hb as [Hb Hb']. destruct (relay_step i w) as [w1|] eqn:E1; [|done].
    replace (pre ++ i :: inputs) with ((pre ++ [i]) ++ inputs) by (by rewrite <- app_assoc).
    apply (IH _ w1); [|done|done]. eapply relay_next; [done| |done]. by apply enabled_b_ok.
Qed.

Definition relay_demo : list relay_input :=
  [ServerUp 1; ServerData 1 (str "GET"); ServerUp 2; ClientUp 1 3; ServerData 1 (str " /"); ClientData 3 (str "200");
   ServerDown 1; ClientData 3 (str "late")]%positive.

Lemma relay_exact_witness :
  exists w s x, relay_run relay_demo new_relay = Ok w /\ rconns w !! 1%positive = Some s /\ rconns w !! 3%positive = Some x
    /\ str "GET /" = r_sent x ++ inputBuffer s /\ str "200late" = r_sent s ++ inputBuffer x.
Proof.
  destruct (relay_run relay_demo new_relay) as [w|] eqn:E; [|vm_compute in E; discriminate].
  assert (Hr : relay_reach ([] ++ relay_demo) w)
    by (apply (relay_run_reach relay_demo [] new_relay); [constructor|vm_compute; reflexivity|exact E]).
  assert (Ht : exists t, tunnels w !! 1%positive = Some t)
    by (vm_compute in E; injection E as <-; eexists; vm_compute; reflexivity).
  destruct Ht as [t Ht]. destruct (relay_exact _ _ Hr) as [_ H]. destruct (H 1%positive t Ht) as (s & Hs & x & Hx & R1 & R2 & _).
  exists w, s, x. by split_and!.
Defined.

(** A connection that closes while its tunnel is still connecting leaves the
    client behind: the connection it then makes is open and has its callbacks,
    no tunnel is in the table any more, and nothing the relay does ends it, only
    its peer or a full output buffer. *)
Theorem orphan_stays :
  exists w x, relay_run [ServerUp 1; ServerDown 1; ClientUp 1 2]%positive new_relay = Ok w
    /\ relay_reach [ServerUp 1; ServerDown 1; ClientUp 1 2]%positive w
    /\ g_tunnels w = ∅ /\ rconns w !! 2%positive = Some x /\ r_state x = RConnected /\ r_tunnel x = Some 1%positive
    /\ forall i w', relay_enabled i w -> relay_step i w = Ok w' ->
         i = ClientDown 2 \/ i = HighWater 1 \/ exists x', rconns w' !! 2%positive = Some x' /\ r_state x' = RConnected.
Proof.
  set (s1 := mkRconn RDisconnected [] [] (Some 2%positive) None). set (x2 := mkRconn RConnected [] [] None (Some 1%positive)).
  set (w := mkRelay {[1%positive := s1; 2%positive := x2]} {[1%positive := mkTunnel (Some 2%positive) true true 1]} ∅).
  assert (E : relay_run [ServerUp 1; ServerDown 1; ClientUp 1 2]%positive new_relay = Ok w) by (vm_compute; reflexivity).
  exists w, x2. split; [exact E|]. split; [apply (relay_run_reach _ [] new_relay); [constructor|vm_compute; reflexivity|exact E]|].
  split_and!; try done. intros i w' He Es.
  assert (Hc : forall c x, rconns w !! c = Some x -> r_state x <> RDisconnected -> c = 2%positive).
  { intros c x Hx. unfold w in Hx. cbn [rconns] in Hx.
    by apply lookup_insert_Some in Hx as [[<- <-]|[_ [<- _]%lookup_singleton_Some]]. }
  assert (Ht : forall k t, tunnels w !! k = Some t -> k = 1%positive).
  { intros k t Hk. unfold w in Hk. cbn [tunnels] in Hk. by apply lookup_singleton_Some in Hk as [<- _]. }
  destruct i as [c|c|c data|k c|c|c data|k]; cbn [relay_enabled] in He.
  - right. right. cbn in Es. injection Es as <-. exists x2. split; [|done]. cbn [rconns set_rconns set_g_tunnels set_tunnels].
    rewrite lookup_insert_ne; [done|]. intros ->. done.
  - destruct He as ([t Hk] & x & Hx & Hst). pose proof (Ht _ _ Hk). by pose proof (Hc _ _ Hx Hst); subst.
  - destruct He as ([t Hk] & x & Hx & Hst). pose proof (Ht _ _ Hk). by pose proof (Hc _ _ Hx Hst); subst.
  - destruct He as (_ & t & Hk & Hm). unfold w in Hk. cbn [tunnels] in Hk. by apply lookup_singleton_Some in Hk as [<- <-].
  - left. destruct He as (_ & x & Hx & Hst). by rewrite (Hc _ _ Hx Hst).
  - right. right. destruct He as (_ & x & Hx & Hst). rewrite (Hc _ _ Hx Hst) in Es. vm_compute in Es. injection Es as <-.
    eexists. split; [vm_compute; reflexivity|done].
  - right. left. destruct He as [t Hk]. by rewrite (Ht _ _ Hk).
Qed.
