(* ===== verification/Sockets.v ===== *)
(** * Sockets and addresses: [src/msmuduo/base/sockettool.cpp],
    [src/msmuduo/net/InetAddress], [Socket]

    The wrappers of the socket calls over a kernel that is a parameter: a state
    and the answer to every call ([Kernel]); [KernelLaws] says what the
    documentation of the calls says about descriptors, the last error and
    blocking. Addresses are kept in network order, as [sockaddr_in] has them. *)
From S2P Require Import Prelude.
From S2P Require Import Endian.
From S2P Require Import Format.
From S2P Require Import ConnLife.
From S2P Require Import Acceptor.

(** ** The system *)

Record sockaddr_in := mkSockaddr { sin_family : Z; sin_port : Z; s_addr : Z }.

#[export] Instance sockaddr_eq_dec : EqDecision sockaddr_in.
Proof. solve_decision. Defined.

Definition AF_INET : Z := 2.
Definition no_sockaddr : sockaddr_in := mkSockaddr 0 0 0.

Inductive sockopt := SO_REUSEADDR | SO_REUSEPORT | SO_KEEPALIVE | TCP_NODELAY.

(** A call with the type of its answer; -1 is failure. *)
Inductive sys : Type -> Type :=
  | SysStartup : sys Z
  | SysErrno : sys Z
  | SysSocket : sys Z
  | SysBind (fd : Z) (addr : sockaddr_in) : sys Z
  | SysListen (fd : Z) : sys Z
  | SysConnect (fd : Z) (addr : sockaddr_in) : sys Z
  | SysAccept (fd : Z) : sys (Z * sockaddr_in)
  | SysClose (fd : Z) : sys Z
  | SysShutdownWrite (fd : Z) : sys Z
  | SysIoctl (fd : Z) : sys Z                       (* FIONBIO, WIN *)
  | SysGetfl (fd : Z) : sys Z                       (* fcntl *)
  | SysSetfl (fd flags : Z) : sys Z
  | SysSetsockopt (fd : Z) (opt : sockopt) (optval : Z) : sys Z
  | SysSocketError (fd : Z) : sys (option Z)        (* SO_ERROR *)
  | SysGetsockname (fd : Z) : sys (option sockaddr_in)
  | SysGetpeername (fd : Z) : sys (option sockaddr_in)
  | SysRecv (fd : Z) (count : nat) : sys (option bytes)
  | SysSend (fd : Z) (data : bytes) : sys Z
  | SysHostent (hostname : bytes) : sys (option (Z * Z * Z)).  (* type, length, first address *)

Class Kernel (K : Type) := sys_call : forall A, sys A -> K -> A * K.
Arguments sys_call {K _ A}.

Definition call `{Kernel K} {A} (c : sys A) (k : K) : res (A * K) := Ok (sys_call c k).

Definition O_NONBLOCK : Z := 0x800.
Definition EBADF : Z := 9.
Definition ENOTSOCK `{Platform} : Z := if win then 128 else 88.
Definition WSAENOTSOCK : Z := 10038.

(** ** [sockettool.cpp] *)
Section Sockettool.
Context `{Platform} `{Kernel K}.

Definition getErrno (k : K) : res (Z * K) := call SysErrno k.

Definition executeWSAStartup (k : K) : res K :=
  '(err, k) ← call SysStartup k;
  if (err =? 0)%Z then Ok k else Fault LogFatal.

Definition make_socket_nonblocking (fd : Z) (k : K) : res (Z * K) :=
  if win then
    '(r, k) ← call (SysIoctl fd) k;
    Ok (if (r =? -1)%Z then (-1)%Z else 0%Z, k)
  else
    '(flags, k) ← call (SysGetfl fd) k;
    if (flags <? 0)%Z then Ok ((-1)%Z, k)
    else if (Z.land flags O_NONBLOCK =? 0)%Z then
      '(r, k) ← call (SysSetfl fd (Z.lor flags O_NONBLOCK)) k;
      Ok (if (r =? -1)%Z then (-1)%Z else 0%Z, k)
    else Ok (0%Z, k).

(** [close], which only logs an error. *)
Definition close (sockfd : Z) (k : K) : res K :=
  '(_, k) ← call (SysClose sockfd) k; Ok k.

(** [socketpair]: the code behind the label [clean]. *)
Definition clean (tcp tcp1 tcp2 : Z) (k : K) : res (option (Z * Z) * K) :=
  k ← (if (tcp =? -1)%Z then Ok k else close tcp k);
  k ← (if (tcp2 =? -1)%Z then Ok k else close tcp2 k);
  k ← (if (tcp1 =? -1)%Z then Ok k else close tcp1 k);
  Ok (None, k).

(** The two sockets, if the result is 0. *)
Definition socketpair (k : K) : res (option (Z * Z) * K) :=
  k ← executeWSAStartup k;
  let name := mkSockaddr AF_INET 0 (hton 4 0x7F000001) in
  '(tcp, k) ← call SysSocket k;
  '(_, k) ← call (SysSetsockopt tcp SO_REUSEADDR 1) k;
  if (tcp =? -1)%Z then clean tcp (-1) (-1) k else
  '(r, k) ← call (SysBind tcp name) k;
  if (r =? -1)%Z then clean tcp (-1) (-1) k else
  '(r, k) ← call (SysListen tcp) k;
  if (r =? -1)%Z then clean tcp (-1) (-1) k else
  '(r, k) ← call (SysGetsockname tcp) k;
  match r with
  | None => clean tcp (-1) (-1) k
  | Some name =>
      '(tcp1, k) ← call SysSocket k;
      if (tcp1 =? -1)%Z then clean tcp tcp1 (-1) k else
      '(r, k) ← call (SysConnect tcp1 name) k;
      if (r =? -1)%Z then clean tcp tcp1 (-1) k else
      '((tcp2, name), k) ← call (SysAccept tcp) k;
      if (tcp2 =? -1)%Z then clean tcp tcp1 tcp2 k else
      '(r, k) ← call (SysGetsockname tcp1) k;
      match r with
      | None => clean tcp tcp1 tcp2 k
      | Some _ => k ← close tcp k; Ok (Some (tcp1, tcp2), k)
      end
  end.

Definition createNonblockingOrDie (k : K) : res (Z * K) :=
  '(sockfd, k) ← call SysSocket k;
  if (sockfd <? 0)%Z then Fault LogFatal
  else '(_, k) ← make_socket_nonblocking sockfd k; Ok (sockfd, k).

Definition connect (sockfd : Z) (addr : sockaddr_in) (k : K) : res (Z * K) := call (SysConnect sockfd addr) k.

Definition listenOrDie (sockfd : Z) (k : K) : res K :=
  '(ret, k) ← call (SysListen sockfd) k; if (ret <? 0)%Z then Fault LogFatal else Ok k.

Definition bindOrDie (sockfd : Z) (addr : sockaddr_in) (k : K) : res K :=
  '(ret, k) ← call (SysBind sockfd addr) k; if (ret <? 0)%Z then Fault LogFatal else Ok k.

Definition shutdownWrite (sockfd : Z) (k : K) : res K :=
  '(_, k) ← call (SysShutdownWrite sockfd) k; Ok k.

(** [accept]: the descriptor, and the address it was given to fill. *)
Definition accept (sockfd : Z) (addr : sockaddr_in) (k : K) : res (Z * sockaddr_in * K) :=
  '((connfd, peer), k) ← call (SysAccept sockfd) k;
  '(_, k) ← make_socket_nonblocking connfd k;
  if (connfd <? 0)%Z then
    '(savedErrno, k) ← getErrno k;
    if decide (savedErrno ∈ expected_errors) then Ok (connfd, addr, k)
    else Fault LogFatal
  else Ok (connfd, peer, k).

Definition read (sockfd : Z) (count : nat) (k : K) : res (option bytes * K) := call (SysRecv sockfd count) k.
Definition write (sockfd : Z) (data : bytes) (k : K) : res (Z * K) := call (SysSend sockfd data) k.

Definition getSocketError (sockfd : Z) (k : K) : res (Z * K) :=
  '(optval, k) ← call (SysSocketError sockfd) k;
  match optval with
  | Some optval => Ok (optval, k)
  | None => getErrno k
  end.

(** An address that could not be asked for is zero. *)
Definition getLocalAddr (sockfd : Z) (k : K) : res (sockaddr_in * K) :=
  '(addr, k) ← call (SysGetsockname sockfd) k; Ok (default no_sockaddr addr, k).
Definition getPeerAddr (sockfd : Z) (k : K) : res (sockaddr_in * K) :=
  '(addr, k) ← call (SysGetpeername sockfd) k; Ok (default no_sockaddr addr, k).

Definition isSelfConnect (sockfd : Z) (k : K) : res (bool * K) :=
  '(localaddr, k) ← getLocalAddr sockfd k;
  '(peeraddr, k) ← getPeerAddr sockfd k;
  Ok ((sin_port localaddr =? sin_port peeraddr)%Z && (s_addr localaddr =? s_addr peeraddr)%Z, k).

(** ** [Socket] *)

Definition sock_bindAddress (sockfd_ : Z) (addr : sockaddr_in) (k : K) : res K := bindOrDie sockfd_ addr k.
Definition sock_listen (sockfd_ : Z) (k : K) : res K := listenOrDie sockfd_ k.

(** The address of the peer is stored for a positive descriptor. *)
Definition sock_accept (sockfd_ : Z) (peeraddr : sockaddr_in) (k : K) : res (Z * sockaddr_in * K) :=
  '(connfd, addr, k) ← accept sockfd_ no_sockaddr k;
  Ok (connfd, if (0 <? connfd)%Z then addr else peeraddr, k).

Definition sock_setopt (sockfd_ : Z) (opt : sockopt) (on : bool) (k : K) : res K :=
  '(_, k) ← call (SysSetsockopt sockfd_ opt (if on then 1 else 0)) k; Ok k.

(** [setReusePort]: without SO_REUSEPORT, as under WIN, it only logs. *)
Definition sock_setReusePort (sockfd_ : Z) (on : bool) (k : K) : res K :=
  if win then Ok k else sock_setopt sockfd_ SO_REUSEPORT on k.

(** What the constructor of [Acceptor] does with its socket. *)
Definition acceptor_socket (listenAddr : sockaddr_in) (reuseport : bool) (k : K) : res (Z * K) :=
  '(fd, k) ← createNonblockingOrDie k;
  k ← sock_setopt fd SO_REUSEADDR true k;
  k ← sock_setReusePort fd reuseport k;
  k ← sock_bindAddress fd listenAddr k;
  Ok (fd, k).
End Sockettool.

(** ** What the documentation promises *)

(** Descriptors that are open and those that do not block, and the last error
    of the thread. *)
Class KernelView (K : Type) := {
  open_fds : K -> gset Z;
  nonblocking : K -> gset Z;
  last_error : K -> Z
}.

(** Whether a call leaves the open descriptors as they are. *)
Definition keeps {A} (c : sys A) : bool :=
  match c with SysSocket | SysAccept _ | SysClose _ => false | _ => true end.

(** A call that opens a descriptor fails or gives a new one. *)
Definition opens `{KernelView K} (fd : Z) (k k' : K) : Prop :=
  fd = (-1)%Z /\ open_fds k' = open_fds k
  \/ (0 <= fd)%Z /\ fd ∉ open_fds k /\ open_fds k' = {[fd]} ∪ open_fds k.

Class KernelLaws (K : Type) `{Platform, !Kernel K, !KernelView K} : Prop := {
  law_errno k : sys_call SysErrno k = (last_error k, k);
  law_socket k fd k' : sys_call SysSocket k = (fd, k') -> opens fd k k';
  law_accept s k fd peer k' : sys_call (SysAccept s) k = ((fd, peer), k') -> opens fd k k';
  law_close fd k r k' : sys_call (SysClose fd) k = (r, k') ->
    if (r =? 0)%Z then open_fds k' = open_fds k ∖ {[fd]} else open_fds k' = open_fds k;
  law_keeps A (c : sys A) k r k' : keeps c = true -> sys_call c k = (r, k') -> open_fds k' = open_fds k;
  law_bad_ioctl k r k' : sys_call (SysIoctl (-1)) k = (r, k') -> r = (-1)%Z /\ last_error k' = WSAENOTSOCK;
  law_bad_getfl k r k' : sys_call (SysGetfl (-1)) k = (r, k') -> r = (-1)%Z /\ last_error k' = EBADF;
  law_ioctl fd k r k' : fd ∈ open_fds k -> sys_call (SysIoctl fd) k = (r, k') -> fd ∈ nonblocking k';
  law_getfl fd k flags k' : fd ∈ open_fds k -> sys_call (SysGetfl fd) k = (flags, k') ->
    (0 <= flags)%Z /\ (Z.land flags O_NONBLOCK <> 0%Z -> fd ∈ nonblocking k');
  law_setfl fd flags k r k' : fd ∈ open_fds k -> Z.land flags O_NONBLOCK <> 0%Z ->
    sys_call (SysSetfl fd flags) k = (r, k') -> fd ∈ nonblocking k'
}.

Section SocketFacts.
Context `{HP : Platform} {K : Type} `{HK : !Kernel K} `{HV : !KernelView K} `{HL : !KernelLaws K}.

(** *** Blocking *)

Lemma nonblock_flag flags : Z.land (Z.lor flags O_NONBLOCK) O_NONBLOCK <> 0%Z.
Proof.
  rewrite Z.land_lor_distr_l, Z.land_diag. intros E%Z.lor_eq_0_iff. by destruct E as [_ E].
Qed.

(** On a socket that is open it works, on -1 it fails and replaces the error. *)
Lemma nonblocking_ok fd k :
  fd ∈ open_fds k ->
  exists r k', make_socket_nonblocking fd k = Ok (r, k') /\ open_fds k' = open_fds k /\ fd ∈ nonblocking k'.
Proof.
  intros Ho. unfold make_socket_nonblocking, call. destruct win.
  - destruct (sys_call (SysIoctl fd) k) as [r k'] eqn:E. run_res. eexists _, _. split_and!; [done| |].
    + by eapply (law_keeps _ (SysIoctl fd)).
    + by eapply law_ioctl.
  - destruct (sys_call (SysGetfl fd) k) as [flags k1] eqn:E1. run_res.
    destruct (law_getfl _ _ _ _ Ho E1) as [Hf Hb].
    assert (Ho1 : open_fds k1 = open_fds k) by (by eapply (law_keeps _ (SysGetfl fd))).
    rewrite (proj2 (Z.ltb_ge _ _)) by done. destruct (Z.land flags O_NONBLOCK =? 0)%Z eqn:Ef; bool_props.
    + destruct (sys_call (SysSetfl fd _) k1) as [r k2] eqn:E2. run_res. eexists _, _. split_and!; [done| |].
      * rewrite <- Ho1. by eapply (law_keeps _ (SysSetfl fd _)).
      * eapply law_setfl; [|apply nonblock_flag|exact E2]. by rewrite Ho1.
    + eexists _, _. split_and!; [done|done|by apply Hb].
Qed.

Lemma nonblocking_bad k :
  exists k', make_socket_nonblocking (-1) k = Ok ((-1)%Z, k') /\ last_error k' ∉ expected_errors.
Proof.
  unfold make_socket_nonblocking, call, expected_errors. destruct win.
  - destruct (sys_call (SysIoctl (-1)) k) as [r k'] eqn:E. run_res. destruct (law_bad_ioctl _ _ _ E) as [-> El].
    eexists. split; [done|]. rewrite El. apply (bool_decide_unpack _). by vm_compute.
  - destruct (sys_call (SysGetfl (-1)) k) as [r k'] eqn:E. run_res. destruct (law_bad_getfl _ _ _ E) as [-> El].
    eexists. split; [done|]. rewrite El. apply (bool_decide_unpack _). by vm_compute.
Qed.

(** *** Descriptors *)

(** The descriptors [held] were opened since [k0], and nothing was closed. *)
Record holding (k0 : K) (held : gset Z) (k : K) : Prop := {
  hd_open : open_fds k = held ∪ open_fds k0;
  hd_new : held ## open_fds k0;
  hd_pos fd : fd ∈ held -> (0 <= fd)%Z
}.

Lemma holding_start k : holding k ∅ k.
Proof. split; set_solver. Qed.

Lemma holding_keeps {A} (c : sys A) k0 held k :
  holding k0 held k -> keeps c = true -> holding k0 held (sys_call c k).2.
Proof.
  intros [Ho Hn Hp] Hc. destruct (sys_call c k) as [r k'] eqn:E. split; [|done|done].
  by rewrite (law_keeps _ _ _ _ _ Hc E).
Qed.

Lemma holding_opens k0 held k fd k' :
  holding k0 held k -> opens fd k k' ->
  fd = (-1)%Z /\ holding k0 held k'
  \/ fd <> (-1)%Z /\ fd ∉ held /\ fd ∉ open_fds k0 /\ holding k0 ({[fd]} ∪ held) k'.
Proof.
  intros [Ho Hn Hp] [[-> E]|(Hfd & Hf & E)]; [left|right].
  - split; [done|]. split; [congruence|done|done].
  - rewrite Ho in Hf. split_and!; [lia|set_solver|set_solver|]. split; [|set_solver|set_solver].
    rewrite E, Ho. set_solver.
Qed.

(** Closing a descriptor that is open succeeds; the code never looks. *)
Definition close_works : Prop := forall fd k, fd ∈ open_fds k -> (sys_call (SysClose fd) k).1 = 0%Z.

Section Closing.
Context (Hclose : close_works).

(** A descriptor that was made since [k0], or none. *)
Definition made (k0 : K) (fd : Z) : Prop := fd = (-1)%Z \/ fd ∉ open_fds k0.

Lemma holding_close k0 held k fd :
  holding k0 held k -> fd ∉ open_fds k0 -> exists k', close fd k = Ok k' /\ holding k0 (held ∖ {[fd]}) k'.
Proof.
  intros [Ho Hn Hp] Hfd. unfold close, call. destruct (sys_call (SysClose fd) k) as [r k'] eqn:E. run_res.
  eexists. split; [done|]. split; [|set_solver|set_solver].
  pose proof (law_close _ _ _ _ E) as Hl. destruct (decide (fd ∈ open_fds k)) as [Hin|Hin].
  - specialize (Hclose fd k Hin). rewrite E in Hclose. cbn in Hclose. subst r. cbn in Hl. rewrite Hl, Ho. set_solver.
  - destruct (r =? 0)%Z; rewrite Hl, Ho; rewrite Ho in Hin; set_solver.
Qed.

Lemma holding_close_valid k0 held k fd :
  holding k0 held k -> made k0 fd ->
  exists k', (if (fd =? -1)%Z then Ok k else close fd k) = Ok k' /\ holding k0 (held ∖ {[fd]}) k'.
Proof.
  intros Hh Hm. destruct (fd =? -1)%Z eqn:E; bool_props.
  - subst. eexists. split; [done|]. replace (held ∖ {[-1]}%Z) with held; [done|].
    pose proof (hd_pos _ _ _ Hh (-1)%Z). set_solver by lia.
  - destruct Hm as [|Hm]; [done|]. by apply holding_close.
Qed.

Lemma clean_ok k0 held k tcp tcp1 tcp2 :
  holding k0 held k -> held ⊆ {[tcp; tcp1; tcp2]} -> made k0 tcp -> made k0 tcp1 -> made k0 tcp2 ->
  exists k', clean tcp tcp1 tcp2 k = Ok (None, k') /\ open_fds k' = open_fds k0.
Proof.
  intros Hh Hsub M M1 M2. unfold clean.
  destruct (holding_close_valid _ _ _ _ Hh M) as (k1 & -> & H1). run_res.
  destruct (holding_close_valid _ _ _ _ H1 M2) as (k2 & -> & H2). run_res.
  destruct (holding_close_valid _ _ _ _ H2 M1) as (k3 & -> & H3). run_res.
  eexists. split; [done|]. rewrite (hd_open _ _ _ H3). set_solver.
Qed.

End Closing.

(** The two outcomes of [accept]. *)
Lemma accept_cases s addr k :
  let '((fd, peer), k1) := sys_call (SysAccept s) k in
  fd = (-1)%Z /\ accept s addr k = Fault LogFatal
  \/ exists k', accept s addr k = Ok (fd, peer, k') /\ (0 <= fd)%Z /\ fd ∉ open_fds k
       /\ open_fds k' = {[fd]} ∪ open_fds k /\ fd ∈ nonblocking k'.
Proof.
  destruct (sys_call (SysAccept s) k) as [[fd peer] k1] eqn:E. unfold accept, call. rewrite E. run_res.
  destruct (law_accept _ _ _ _ _ E) as [[-> Ho]|(Hfd & Hf & Ho)]; [left|right].
  - split; [done|]. destruct (nonblocking_bad k1) as (k2 & -> & He). run_res.
    unfold getErrno, call. rewrite law_errno. run_res. by rewrite decide_False.
  - destruct (nonblocking_ok fd k1) as (r & k2 & -> & Ho2 & Hb); [rewrite Ho; set_solver|]. run_res.
    rewrite (proj2 (Z.ltb_ge _ _)) by done. eexists. split_and!; try done. by rewrite Ho2.
Qed.

(** [accept] gives a new descriptor that does not block, or ends the program:
    it makes the descriptor non-blocking before it tests for failure, so that
    the error of [::accept] is replaced by that of the failed attempt, which is
    none of those it tolerates. The branch of [Acceptor::handleRead] for a
    failed accept, which is there for a full descriptor table, never runs. *)
Theorem accept_or_die s addr k :
  (forall r, accept s addr k = Ok r -> exists fd peer k', r = (fd, peer, k') /\ (0 <= fd)%Z /\ fd ∉ open_fds k
     /\ open_fds k' = {[fd]} ∪ open_fds k /\ fd ∈ nonblocking k')
  /\ ((sys_call (SysAccept s) k).1.1 = (-1)%Z -> accept s addr k = Fault LogFatal)
  /\ (forall fd peer k' a, sock_accept s addr k = Ok (fd, peer, k') ->
        Acceptor.handleRead true (Acceptor.AcceptFd fd) a <> Ok Acceptor.AcceptError).
Proof.
  pose proof (accept_cases s) as H. split_and!.
  - intros r E. specialize (H addr k). destruct (sys_call (SysAccept s) k) as [[fd peer] k1].
    destruct H as [[_ H]|(k' & H & ?)]; rewrite H in E; [done|]. injection E as <-. by exists fd, peer, k'.
  - intros E. specialize (H addr k). destruct (sys_call (SysAccept s) k) as [[fd peer] k1]. cbn in E. subst fd.
    by destruct H as [[_ H]|(k' & _ & ? & _)]; [|lia].
  - intros fd peer k' a E. unfold sock_accept in E. inv_res. destruct a0 as [[fd' peer'] k'']. injection E as <- <- <-.
    specialize (H no_sockaddr k). destruct (sys_call (SysAccept s) k) as [[fd peer] k1].
    destruct H as [[_ H]|(k' & H & Hfd & _)]; rewrite H in Ha; [done|]. injection Ha as <- <- <-.
    unfold Acceptor.handleRead, socket_accept. cbn. rewrite (proj2 (Z.leb_le _ _)) by done.
    by destruct (Acceptor.newConnectionCallback_ a).
Qed.

Section Socketpair.
Context (Hclose : close_works).

(** What [socketpair] promises about its result. *)
Definition pair_result (k : K) (r : res (option (Z * Z) * K)) : Prop :=
  match r with
  | Ok (Some (a, b), k') => a <> b /\ a ∉ open_fds k /\ b ∉ open_fds k /\ open_fds k' = {[a; b]} ∪ open_fds k
  | Ok (None, k') => open_fds k' = open_fds k
  | Fault _ => False
  end.

Lemma clean_result k0 held k tcp tcp1 tcp2 :
  holding k0 held k -> held ⊆ {[tcp; tcp1; tcp2]} -> made k0 tcp -> made k0 tcp1 -> made k0 tcp2 ->
  pair_result k0 (clean tcp tcp1 tcp2 k).
Proof.
  intros. destruct (clean_ok Hclose k0 held k tcp tcp1 tcp2) as (k' & -> & Hk); done.
Qed.

(** A call that opens a descriptor, [fd_of] its answer. *)
Lemma call_opens_case {A} (c : sys A) (fd_of : A -> Z) k0 held k :
  holding k0 held k -> (forall r k', sys_call c k = (r, k') -> opens (fd_of r) k k') ->
  exists r k', sys_call c k = (r, k')
    /\ (fd_of r = (-1)%Z /\ holding k0 held k'
        \/ fd_of r <> (-1)%Z /\ fd_of r ∉ held /\ fd_of r ∉ open_fds k0 /\ holding k0 ({[fd_of r]} ∪ held) k').
Proof.
  intros Hh Ho. destruct (sys_call c k) as [r k'] eqn:E. exists r, k'. split; [done|].
  apply (holding_opens _ _ _ _ _ Hh). by apply Ho.
Qed.

(** The next call, which opens nothing. *)
Ltac keep_step :=
  match goal with
  | Hh : holding ?k0 ?held ?k |- context [sys_call ?c ?k] =>
      apply (holding_keeps c) in Hh; [|done]; destruct (sys_call c k) as [? ?]; cbn [snd] in Hh; run_res
  end.

(** A failure, after which what is held is closed. *)
Ltac cleaned :=
  eapply clean_result; [eassumption|set_solver|..]; unfold made; tauto.

(** C34: [socketpair] gives two different new sockets or none, and whichever of
    its calls fails but [close] on an open descriptor, nothing else that it
    opened stays open and nothing that it did not open is closed; it stops the
    program when, and only when, the socket library does not start. *)
Theorem socketpair_no_leak k :
  if ((sys_call SysStartup k).1 =? 0)%Z then pair_result k (socketpair k) else socketpair k = Fault LogFatal.
Proof.
  pose proof (holding_start k) as Hh. unfold socketpair, executeWSAStartup, call. run_res.
  apply (holding_keeps SysStartup) in Hh; [|done]. destruct (sys_call SysStartup k) as [err k1]. cbn [fst snd] in *.
  destruct (err =? 0)%Z; [|done]. run_res.
  destruct (call_opens_case SysSocket id _ _ _ Hh (law_socket _)) as (tcp & k2 & -> & Hs). clear Hh. cbn [id] in Hs. run_res.
  destruct Hs as [[-> Hh]|(Hn & _ & Hf & Hh)]; keep_step; [cleaned|]. rewrite (proj2 (Z.eqb_neq _ _)) by done.
  keep_step. case_if; [cleaned|]. keep_step. case_if; [cleaned|]. keep_step. destruct o as [name|]; [|cleaned].
  destruct (call_opens_case SysSocket id _ _ _ Hh (law_socket _)) as (tcp1 & k6 & -> & Hs). clear Hh. cbn [id] in Hs. run_res.
  destruct Hs as [[-> Hh]|(Hn1 & Hh1 & Hf1 & Hh)]; [cleaned|]. rewrite (proj2 (Z.eqb_neq _ _)) by done.
  keep_step. case_if; [cleaned|].
  destruct (call_opens_case (SysAccept tcp) fst _ _ _ Hh) as ([tcp2 peer] & k8 & -> & Hs);
    [intros [fd peer] k'; apply law_accept|]. clear Hh. cbn [fst] in Hs. run_res.
  destruct Hs as [[-> Hh]|(Hn2 & Hh2 & Hf2 & Hh)]; [cleaned|]. rewrite (proj2 (Z.eqb_neq _ _)) by done.
  keep_step. destruct o as [name'|]; [|cleaned].
  destruct (holding_close Hclose _ _ _ _ Hh Hf) as (k10 & -> & Hh'). run_res. unfold pair_result.
  split_and!; [set_solver|done|done|]. rewrite (hd_open _ _ _ Hh'). set_solver.
Qed.
End Socketpair.
End SocketFacts.

(** ** [InetAddress]

    [inet_pton] and [inet_ntop] belong to the system: the first is a parameter,
    of the second it is documented that it writes the four bytes of the address
    with dots between them. *)
Definition dotted (l : bytes) : bytes :=
  match l with
  | [] => []
  | c :: l => fmt_d (Z_of_char c) ++ concat ((fun d => str "." ++ fmt_d (Z_of_char d)) <$> l)
  end.

Section InetAddress.
Context `{Platform} (inet_pton : bytes -> option Z).

Definition inet_ntop (s : Z) : bytes := dotted (to_mem 4 s).

Definition fromIpPort (ip : bytes) (port : Z) (addr : sockaddr_in) : sockaddr_in :=
  mkSockaddr AF_INET (hostToNetwork16 port) (default (s_addr addr) (inet_pton ip)).

Definition INET_ADDRSTRLEN : nat := 16.

(** The texts in an array of [size] characters. *)
Definition sock_toIp (size : nat) (addr : sockaddr_in) : res bytes :=
  assert_ (INET_ADDRSTRLEN <=? size);;
  Ok (inet_ntop (s_addr addr)).

Definition sock_toIpPort (size : nat) (addr : sockaddr_in) : res bytes :=
  assert_ (INET_ADDRSTRLEN <=? size);;
  let buf := inet_ntop (s_addr addr) in
  let port := networkToHost16 (sin_port addr) in
  assert_ (length buf <? size);;
  tail ← snprintf_z (size - length buf) (str ":" ++ fmt_d port);
  Ok (buf ++ tail).

(** The constructors. *)
Definition InetAddress_port (port : Z) (loopbackOnly : bool) : sockaddr_in :=
  mkSockaddr AF_INET (hostToNetwork16 port) (hostToNetwork32 (if loopbackOnly then 0x7F000001 else 0)).

Definition InetAddress_ip (ip : bytes) (port : Z) : sockaddr_in := fromIpPort ip port no_sockaddr.

Definition toIpPort (addr_ : sockaddr_in) : res bytes := sock_toIpPort 32 addr_.
Definition toIp (addr_ : sockaddr_in) : res bytes := sock_toIp 32 addr_.

(** [resolve]: whether it succeeds, and the address. *)
Definition resolve `{Kernel K} (hostname : bytes) (out : sockaddr_in) (k : K) : res (bool * sockaddr_in * K) :=
  '(he, k) ← call (SysHostent hostname) k;
  match he with
  | Some (h_addrtype, h_length, h_addr) =>
      assert_ ((h_addrtype =? AF_INET)%Z && (h_length =? 4)%Z);;
      Ok (true, mkSockaddr (sin_family out) (sin_port out) h_addr, k)
  | None => Ok (false, out, k)
  end.

(** *** Texts of addresses *)

Lemma dotted_length l : length l = 4 -> length (dotted l) <= 15.
Proof.
  assert (Hc : forall c, length (fmt_d (Z_of_char c)) <= 3).
  { intros c. pose proof (Z_of_char_bound c). apply fmt_d_length; simpl; lia. }
  destruct l as [|a [|b [|c [|d [|]]]]]; try done. intros _. cbn [dotted fmap list_fmap concat].
  rewrite !length_app. cbn [length str String.list_ascii_of_string].
  pose proof (Hc a). pose proof (Hc b). pose proof (Hc c). pose proof (Hc d). lia.
Qed.

Lemma toIpPort_text addr :
  (0 <= sin_port addr < 2 ^ 16)%Z ->
  toIpPort addr = Ok (inet_ntop (s_addr addr) ++ str ":" ++ fmt_d (networkToHost16 (sin_port addr)))
  /\ length (inet_ntop (s_addr addr) ++ str ":" ++ fmt_d (networkToHost16 (sin_port addr))) <= max_hostport.
Proof.
  intros Hp. assert (Hl : length (inet_ntop (s_addr addr)) <= 15) by apply dotted_length, length_to_mem.
  assert (Hport : (0 <= networkToHost16 (sin_port addr) < 2 ^ 16)%Z) by (by apply (hton_bound 2)).
  assert (Hd : length (fmt_d (networkToHost16 (sin_port addr))) <= 5) by (apply fmt_d_length; simpl; lia).
  split; [|rewrite !length_app; unfold max_hostport; simpl; lia].
  unfold toIpPort, sock_toIpPort. cbn [INET_ADDRSTRLEN Nat.leb]. run_res.
  rewrite (proj2 (Nat.ltb_lt _ _)) by lia. run_res. rewrite snprintf_z_fits; [done|].
  rewrite length_app. simpl. lia.
Qed.

Lemma port_stored port : (0 <= port < 2 ^ 16)%Z ->
  (0 <= hostToNetwork16 port < 2 ^ 16)%Z /\ networkToHost16 (hostToNetwork16 port) = port.
Proof. intros Hp. split; [by apply (hton_bound 2)|by apply (hton_involutive 2)]. Qed.

(** What is documented of [inet_pton]: it reads what [inet_ntop] writes. *)
Definition pton_reads : Prop := forall s, (0 <= s < 2 ^ 32)%Z -> inet_pton (inet_ntop s) = Some s.

(** An address is printed as it was given: the text of an address made from a
    dotted address and a port is that text, a colon and the port, and that of
    an address made from a port alone is the loopback or the unspecified
    address and the port, whatever the byte order of the host; the text always
    fits its array and has at most 21 characters, as the names of connections
    need. *)
Theorem address_reads_back ip port :
  pton_reads -> (0 <= port < 2 ^ 16)%Z ->
  (forall s, (0 <= s < 2 ^ 32)%Z -> ip = inet_ntop s -> toIpPort (InetAddress_ip ip port) = Ok (ip ++ str ":" ++ fmt_d port)
     /\ toIp (InetAddress_ip ip port) = Ok ip /\ length (ip ++ str ":" ++ fmt_d port) <= max_hostport)
  /\ toIpPort (InetAddress_port port true) = Ok (str "127.0.0.1:" ++ fmt_d port)
  /\ toIpPort (InetAddress_port port false) = Ok (str "0.0.0.0:" ++ fmt_d port).
Proof.
  intros Hi Hp. destruct (port_stored _ Hp) as [Hb Hn].
  assert (Ht : forall s, toIpPort (mkSockaddr AF_INET (hostToNetwork16 port) s) = Ok (inet_ntop s ++ str ":" ++ fmt_d port)
    /\ length (inet_ntop s ++ str ":" ++ fmt_d port) <= max_hostport).
  { intros s. destruct (toIpPort_text (mkSockaddr AF_INET (hostToNetwork16 port) s) Hb) as [E Hl].
    cbn [s_addr sin_port] in *. rewrite Hn in *. done. }
  split_and!.
  - intros s Hs ->. unfold InetAddress_ip, fromIpPort. rewrite Hi by done. cbn [from_option id].
    destruct (Ht s) as [-> Hl]. by split_and!.
  - unfold InetAddress_port. rewrite (proj1 (Ht _)). unfold inet_ntop, hostToNetwork32. by rewrite to_mem_hton.
  - unfold InetAddress_port. rewrite (proj1 (Ht _)). unfold inet_ntop, hostToNetwork32. by rewrite to_mem_hton.
Qed.
End InetAddress.

(** ** A system *)

(** The descriptors that are open, those that do not block, the last error and
    the errors with which the next accepts fail. *)
Record demo_kernel := mkDemo { d_open : gset Z; d_nonblock : gset Z; d_errno : Z; d_fail : list Z }.

Definition new_fd (k : demo_kernel) : Z := (1 + foldr Z.max 2 (elements (d_open k)))%Z.

Definition demo_opens (k : demo_kernel) : Z * demo_kernel :=
  (new_fd k, mkDemo ({[new_fd k]} ∪ d_open k) (d_nonblock k) (d_errno k) (d_fail k)).

Definition demo_call `{Platform} A (c : sys A) (k : demo_kernel) : A * demo_kernel :=
  let fails e := ((-1)%Z, mkDemo (d_open k) (d_nonblock k) e (d_fail k)) in
  let unblocks fd := (0%Z, mkDemo (d_open k) ({[fd]} ∪ d_nonblock k) (d_errno k) (d_fail k)) in
  match c with
  | SysErrno => (d_errno k, k)
  | SysSocket => demo_opens k
  | SysAccept fd =>
      match d_fail k with
      | e :: es => ((-1)%Z, no_sockaddr, mkDemo (d_open k) (d_nonblock k) e es)
      | [] => let (fd, k) := demo_opens k in ((fd, no_sockaddr), k)
      end
  | SysClose fd => (0%Z, mkDemo (d_open k ∖ {[fd]}) (d_nonblock k) (d_errno k) (d_fail k))
  | SysIoctl fd => if decide (fd ∈ d_open k ∖ {[-1]}%Z) then unblocks fd else fails WSAENOTSOCK
  | SysGetfl fd =>
      if decide (fd ∈ d_open k ∖ {[-1]}%Z) then (if decide (fd ∈ d_nonblock k) then O_NONBLOCK else 0%Z, k) else fails EBADF
  | SysSetfl fd flags => if (Z.land flags O_NONBLOCK =? 0)%Z then (0%Z, k) else unblocks fd
  | SysSocketError _ => (Some 0%Z, k)
  | SysGetsockname _ | SysGetpeername _ => (Some no_sockaddr, k)
  | SysRecv _ _ => (Some [], k)
  | SysHostent _ => (None, k)
  | SysSend _ data => (Z.of_nat (length data), k)
  | SysStartup | SysBind _ _ | SysListen _ | SysConnect _ _ | SysShutdownWrite _ | SysSetsockopt _ _ _ => (0%Z, k)
  end.

#[export] Instance demo_Kernel `{Platform} : Kernel demo_kernel := demo_call.
#[export] Instance demo_View : KernelView demo_kernel :=
  {| open_fds k := d_open k ∖ {[-1]}%Z; nonblocking := d_nonblock; last_error := d_errno |}.

Lemma new_fd_fresh k : (0 <= new_fd k)%Z /\ new_fd k ∉ d_open k.
Proof.
  assert (H : forall l x, x ∈ l -> (x <= foldr Z.max 2 l)%Z).
  { induction l as [|y l IH]; intros x Hx; [by apply elem_of_nil in Hx|]. cbn.
    apply elem_of_cons in Hx as [->|Hx]; [lia|]. specialize (IH _ Hx). lia. }
  unfold new_fd. split.
  - assert (2 <= foldr Z.max 2 (elements (d_open k)))%Z by (induction (elements (d_open k)); cbn; lia). lia.
  - intros Hin%elem_of_elements%H. lia.
Qed.

Lemma demo_opens_law k fd k' : demo_opens k = (fd, k') -> opens fd k k'.
Proof.
  destruct (new_fd_fresh k) as [Hp Hf]. unfold demo_opens. revert Hp Hf. generalize (new_fd k). intros x Hp Hf [= <- <-].
  right. cbn [open_fds demo_View d_open]. assert (x <> -1)%Z by lia. split_and!; [done|set_solver|]. set_solver.
Qed.

#[export] Instance demo_Laws `{Platform} : KernelLaws demo_kernel.
Proof.
  split; cbn [sys_call demo_Kernel demo_call open_fds demo_View nonblocking last_error].
  - done.
  - intros k fd k' E. by apply demo_opens_law.
  - intros s k fd peer k' E. destruct (d_fail k) as [|e es].
    + destruct (demo_opens k) as [fd2 k2] eqn:E2. injection E as <- _ <-. by apply demo_opens_law.
    + injection E as <- _ <-. by left.
  - intros fd k r k' [= <- <-]. cbn. set_solver.
  - intros A c k r k' Hk E. destruct c; cbn in Hk, E; try done;
      repeat case_match; inversion E; done.
  - intros k r k' E. by rewrite decide_False in E by set_solver; inversion E.
  - intros k r k' E. by rewrite decide_False in E by set_solver; inversion E.
  - intros fd k r k' Hfd E. rewrite decide_True in E by done. inversion E. set_solver.
  - intros fd k flags k' Hfd E. rewrite decide_True in E by done.
    case_decide; inversion E; subst; by split; [|cbn].
  - intros fd flags k r k' Hfd Hf E. rewrite (proj2 (Z.eqb_neq _ _)) in E by done. inversion E. set_solver.
Qed.

Lemma demo_closes `{Platform} : close_works (K := demo_kernel).
Proof. by intros fd k _. Qed.

Definition demo_state : demo_kernel := mkDemo {[5]}%Z ∅ 0 [].

Lemma accept_or_die_witness :
  (exists k', @accept windows _ (@demo_Kernel windows) 5 no_sockaddr demo_state = Ok (6%Z, no_sockaddr, k'))
  /\ @accept windows _ (@demo_Kernel windows) 5 no_sockaddr (mkDemo {[5]}%Z ∅ 0 [24]%Z) = Fault LogFatal
  /\ @accept linux _ (@demo_Kernel linux) 5 no_sockaddr (mkDemo {[5]}%Z ∅ 0 [24]%Z) = Fault LogFatal.
Proof.
  split_and!.
  - by eexists.
  - by apply (accept_or_die (HP := windows) 5 no_sockaddr (mkDemo {[5]}%Z ∅ 0 [24]%Z)).
  - by apply (accept_or_die (HP := linux) 5 no_sockaddr (mkDemo {[5]}%Z ∅ 0 [24]%Z)).
Defined.

Lemma socketpair_no_leak_witness :
  is_ok (@socketpair windows _ (@demo_Kernel windows) demo_state) = true /\ pair_result demo_state (@socketpair windows _ (@demo_Kernel windows) demo_state)
  /\ pair_result (mkDemo {[5]}%Z ∅ 0 [24]%Z) (@socketpair windows _ (@demo_Kernel windows) (mkDemo {[5]}%Z ∅ 0 [24]%Z)).
Proof.
  split_and!; [by vm_compute|exact (socketpair_no_leak (HP := windows) (HK := @demo_Kernel windows) (HL := @demo_Laws windows) (@demo_closes windows) demo_state)|].
  exact (socketpair_no_leak (HP := windows) (HK := @demo_Kernel windows) (HL := @demo_Laws windows) (@demo_closes windows) (mkDemo {[5]}%Z ∅ 0 [24]%Z)).
Defined.

(** A reader of dotted addresses. *)
Fixpoint dot_fields (l cur : bytes) : list bytes :=
  match l with
  | [] => [cur]
  | c :: l => if Ascii.eqb c "." then cur :: dot_fields l [] else dot_fields l (cur ++ [c])
  end.

Definition demo_pton `{Platform} (ip : bytes) : option Z :=
  let fs := dot_fields ip [] in
  if length fs =? 4 then Some (of_mem ((fun f => char_of_Z (undec f)) <$> fs)) else None.

Lemma dot_fields_app a l cur : "."%char ∉ a -> dot_fields (a ++ l) cur = dot_fields l (cur ++ a).
Proof.
  revert cur. induction a as [|c a IH]; intros cur Ha; cbn; [by rewrite app_nil_r|].
  apply not_elem_of_cons in Ha as [Hc Ha]. destruct (Ascii.eqb_spec c "."); [by subst|].
  by rewrite IH, <- app_assoc.
Qed.

Lemma byte_field c : "."%char ∉ fmt_d (Z_of_char c) /\ char_of_Z (undec (fmt_d (Z_of_char c))) = c.
Proof.
  pose proof (Z_of_char_bound c). unfold fmt_d. rewrite (proj2 (Z.ltb_ge _ _)) by lia.
  split; [by apply dec_not_in; [lia|]|]. destruct (dec_spec (Z_of_char c)) as [-> _]; [lia|]. apply char_of_Z_of_char.
Qed.

Lemma dotted_fields a b c d :
  dot_fields (dotted [a; b; c; d]) [] = (fun x => fmt_d (Z_of_char x)) <$> [a; b; c; d].
Proof.
  cbn [dotted fmap list_fmap concat]. rewrite app_nil_r.
  assert (Hd : forall x l cur, dot_fields (str "." ++ fmt_d (Z_of_char x) ++ l) cur = cur :: dot_fields l (fmt_d (Z_of_char x))).
  { intros x l cur. cbn [str String.list_ascii_of_string app dot_fields]. cbn [Ascii.eqb Bool.eqb].
    by rewrite dot_fields_app by apply byte_field. }
  rewrite dot_fields_app by apply byte_field. rewrite <- !app_assoc, !Hd.
  rewrite <- (app_nil_r (fmt_d (Z_of_char d))) at 1. by rewrite Hd.
Qed.

Lemma demo_pton_reads `{Platform} : pton_reads demo_pton.
Proof.
  intros s Hs. unfold inet_ntop, demo_pton. pose proof (length_to_mem 4 s) as Hl.
  replace (Some s) with (Some (of_mem (to_mem 4 s))) by (by rewrite of_mem_to_mem, Z.mod_small).
  destruct (to_mem 4 s) as [|a [|b [|c [|d [|]]]]]; try done.
  rewrite dotted_fields. cbn [fmap list_fmap length Nat.eqb].
  by rewrite !(proj2 (byte_field _)).
Qed.

Lemma address_reads_back_witness :
  (0 <= 9981 < 2 ^ 16)%Z
  /\ @toIpPort linux (@InetAddress_ip linux (@demo_pton linux) (str "127.0.0.1") 9981) = Ok (str "127.0.0.1:9981").
Proof.
  split; [lia|].
  destruct (address_reads_back (H := linux) (@demo_pton linux) (str "127.0.0.1") 9981 demo_pton_reads) as [Ha _]; [lia|].
  apply (Ha 0x0100007F)%Z; [lia|]. by vm_compute.
Defined.
