(* ===== verification/RoundTrip.v ===== *)
(** * Clock comparison: [src/msexamples/roundtrip/roundtrip.cpp]

    The client sends its time in frames of two 64 bit integers, the server
    returns each with the time at which it read it, and the client logs the
    time of the round trip and how far the clocks are apart. Client and server
    are of the same byte order. *)
From S2P Require Import Prelude.
From S2P Require Import Endian.
From S2P Require Import Format.
From S2P Require Import Buffer.
From S2P Require Import BufferFacts.
From S2P Require Import Decoder.

Definition frameLen : nat := 16.

(** What the callbacks do: a [send] on the connection, a line of the log. *)
Inductive clock_event := ClockSend (message : bytes) | ClockLog (roundtrip error : Z).

Section RoundTrip.
Context `{Platform}.

(** A member of the array of integers that lies in [l]. *)
Definition get64 (l : bytes) : Z := wrapS 64 (of_mem l).

(** What the loops of the callbacks do with a frame read at [receiveTime]. *)
Definition server_frame (receiveTime : Z) (message : bytes) : res clock_event :=
  Ok (ClockSend (take 8 message ++ to_mem 8 receiveTime)).

Definition client_frame (receiveTime : Z) (message : bytes) : res clock_event :=
  let send := get64 (take 8 message) in
  let their := get64 (drop 8 message) in
  let back := receiveTime in
  sum ← checked64 (back + send);
  let mine := Z.quot sum 2 in
  roundtrip ← checked64 (back - send);
  error ← checked64 (their - mine);
  Ok (ClockLog roundtrip error).

(** A round of the loop that takes frames off the buffer. *)
Definition frame_body (frame : Z -> bytes -> res clock_event) (receiveTime : Z) (buffer : Buffer) :
    res (bool * Z * list clock_event * Buffer) :=
  if frameLen <=? readableBytes buffer then
    let message := range buffer (peek buffer) (peek buffer + frameLen) in
    buffer ← retrieve frameLen buffer;
    event ← frame receiveTime message;
    Ok (true, receiveTime, [event], buffer)
  else Ok (false, receiveTime, [], buffer).

Definition messageCallback (frame : Z -> bytes -> res clock_event) (buffer : Buffer) (receiveTime : Z) :
    res (list clock_event * Buffer) :=
  '(_, events, buffer) ← handler (frame_body frame) receiveTime buffer; Ok (events, buffer).

Definition serverMessageCallback := messageCallback server_frame.
Definition clientMessageCallback := messageCallback client_frame.

(** [sendMyTime] on an open connection. *)
Definition sendMyTime (now : Z) : clock_event := ClockSend (to_mem 8 now ++ to_mem 8 0).

(** Reads arrive at their times. *)
Fixpoint timed_reads (callback : Buffer -> Z -> res (list clock_event * Buffer)) (b : Buffer) (reads : list (Z * bytes)) :
    res (list clock_event * Buffer) :=
  match reads with
  | [] => Ok ([], b)
  | (t, d) :: reads =>
      b ← append_str d b;
      '(out, b) ← callback b t;
      '(out', b) ← timed_reads callback b reads;
      Ok (out ++ out', b)
  end.

(** ** Frames *)

Section Frames.

Definition frame_ok (m : bytes) : Prop := length m = frameLen.

(** When the frames of a stream were complete, [n] bytes of it being there
    before the reads. *)
Fixpoint stamps (n : nat) (reads : list (Z * bytes)) : list Z :=
  match reads with
  | [] => []
  | (t, d) :: reads => replicate ((n + length d) `div` frameLen) t ++ stamps ((n + length d) `mod` frameLen) reads
  end.

Context (frame : Z -> bytes -> res clock_event).

#[local] Instance frame_decoder : Decoder Z clock_event := fun t l =>
  if length l <? frameLen then Wait
  else match frame t (take frameLen l) with Ok e => Take t frameLen [e] | Fault f => Fail f end.

Lemma frame_implements : implements (frame_body frame) (fun _ => True).
Proof.
  intros t b _ Hb. unfold frame_body, decode, frame_decoder. rewrite length_content by done.
  rewrite Nat.ltb_antisym. destruct (frameLen <=? readableBytes b) eqn:Hr; run_res; [|done].
  apply Nat.leb_le in Hr. rewrite range_prefix by done.
  destruct (retrieve_spec frameLen b Hb Hr) as (b1 & -> & Hb1 & Hc1). run_res.
  destruct (frame t (take frameLen (content b))) as [e|f]; run_res; [|done]. by exists b1.
Qed.

Context (frame_safe : forall t m, frame t m <> Fault OutOfFuel).

#[local] Instance frame_laws : DecoderLaws (fun _ : Z => True).
Proof.
  split.
  - intros t l s' n out _. unfold decode, frame_decoder. case_if; [done|].
    destruct (frame t _); [|done]. intros [= <- <- <-]. split; [done|]. unfold frameLen in *. lia.
  - intros t l s' n out _. unfold decode, frame_decoder. case_if; [done|]. by destruct (frame t _).
  - done.
  - intros t l f _. unfold decode, frame_decoder. case_if; [done|].
    destruct (frame t _) eqn:E; [done|]. intros [= <-] ->. by apply frame_safe in E.
  - intros t l d s' n out _. unfold decode, frame_decoder. rewrite length_app. case_if; [done|]. intros E. left.
    rewrite (proj2 (Nat.ltb_ge _ _)) by lia. by rewrite take_app_le by lia.
Qed.

(** The callback on whole frames and the start of the next; [g] is what
    becomes of a frame. *)
Lemma run_frames (g : Z -> bytes -> clock_event) t ms rest :
  Forall frame_ok ms -> Forall (fun m => frame t m = Ok (g t m)) ms -> length rest < frameLen ->
  run_all t (concat ms ++ rest) = Ok (t, rest, g t <$> ms, Waiting).
Proof.
  intros Hm Hg Hr. induction Hg as [|m ms Ee _ IH].
  - cbn [concat app]. unfold run_all, run, decode, frame_decoder. by rewrite (proj2 (Nat.ltb_lt _ _)).
  - apply Forall_cons in Hm as [Hm Hms]. unfold frame_ok in Hm. cbn [concat]. rewrite <- app_assoc.
    rewrite (run_take (fun _ => True) t _ t frameLen [g t m]);
      [|done|unfold decode, frame_decoder; rewrite length_app, Hm].
    + rewrite <- Hm at 1. by rewrite drop_app_length, IH.
    + rewrite (proj2 (Nat.ltb_ge _ _)) by (unfold frameLen; lia). by rewrite <- Hm, take_app_length, Ee.
Qed.

Lemma frames_length ms : Forall frame_ok ms -> length (concat ms) = frameLen * length ms.
Proof. induction 1 as [|m ms Hm _ IH]; cbn [concat length]; [lia|]. rewrite length_app, Hm, IH. lia. Qed.

(** The first whole frames of a stream. *)
Lemma concat_frames ms n :
  Forall frame_ok ms -> n <= length (concat ms) ->
  take n (concat ms) = concat (take (n `div` frameLen) ms) ++ take (n `mod` frameLen) (concat (drop (n `div` frameLen) ms)).
Proof.
  intros Hm. revert n. induction Hm as [|m ms Hm Hms IH]; intros n Hn; cbn [concat] in *.
  - cbn in Hn. assert (n = 0) as -> by lia. done.
  - destruct (decide (n < frameLen)) as [Hlt|Hge].
    + rewrite Nat.div_small, Nat.mod_small by done. done.
    + assert (En : n = frameLen + (n - frameLen)) by lia. rewrite length_app, Hm in Hn.
      assert (Ed : n `div` frameLen = S ((n - frameLen) `div` frameLen)).
      { rewrite En at 1. rewrite <- (Nat.mul_1_l frameLen) at 1. by rewrite Nat.div_add_l by (unfold frameLen; lia). }
      assert (Emod : n `mod` frameLen = (n - frameLen) `mod` frameLen).
      { rewrite En at 1. rewrite Nat.add_comm. rewrite <- (Nat.mul_1_l frameLen) at 2. by rewrite Nat.Div0.mod_add. }
      rewrite Ed, Emod. cbn [take drop concat firstn skipn]. rewrite <- app_assoc, <- IH by lia.
      unfold frame_ok in Hm. by rewrite take_app_ge, Hm by lia.
Qed.

(** Over any reads the callback handles every frame once, at the time of the
    read that completes it. *)
Lemma timed_reads_frames (g : Z -> bytes -> clock_event) reads b ms :
  buf_inv b -> Forall frame_ok ms -> length (content b) < frameLen ->
  content b ++ concat reads.*2 = concat ms ->
  Forall2 (fun t m => frame t m = Ok (g t m)) (stamps (length (content b)) reads) ms ->
  exists b', timed_reads (messageCallback frame) b reads = Ok (zip_with g (stamps (length (content b)) reads) ms, b')
    /\ content b' = [].
Proof.
  revert b ms. induction reads as [|[t d] reads IH]; intros b ms Hb Hm Hl Hc Hg; cbn [timed_reads stamps] in *.
  - apply Forall2_nil_inv_l in Hg as ->. cbn in Hc. rewrite app_nil_r in Hc. by exists b.
  - destruct (append_str_spec d b Hb) as (b1 & -> & Hb1 & Hc1 & _). run_res. cbn [fmap list_fmap concat snd] in Hc.
    set (n := length (content b) + length d) in *. set (k := n `div` frameLen) in *.
    assert (El : content b ++ d = take n (concat ms))
      by (rewrite <- Hc, app_assoc; unfold n; rewrite <- length_app; by rewrite take_app_length).
    rewrite concat_frames in El; [|done|rewrite <- Hc, !length_app; unfold n; lia].
    apply Forall2_app_inv_l in Hg as (ms1 & ms2 & Hg1 & Hg2 & ->).
    assert (Hk : length ms1 = k) by (by rewrite <- (Forall2_length _ _ _ Hg1), length_replicate).
    fold k in El. rewrite <- Hk, take_app_length, drop_app_length in El.
    apply Forall_app in Hm as [Hm1 Hm2]. set (rest := take _ _) in El.
    rewrite concat_app in Hc. assert (Hcut : rest ++ concat reads.*2 = concat ms2).
    { rewrite app_assoc, El, <- app_assoc in Hc. by apply app_inv_head in Hc. }
    assert (Hrest : length rest = n `mod` frameLen).
    { unfold rest. rewrite length_take_le; [done|]. apply (f_equal length) in El.
      unfold rest in El. rewrite !length_app, (frames_length ms1), Hk, length_take in El by done. fold n in El.
      pose proof (Nat.div_mod n frameLen ltac:(done)) as Hdm. fold k in Hdm. lia. }
    pose proof (handler_runs (frame_body frame) (fun _ => True) frame_implements t b1 I Hb1) as Hh.
    rewrite Hc1, El, (run_frames g) in Hh; [|done| |by rewrite Hrest; apply Nat.mod_upper_bound].
    + destruct Hh as (b2 & Eh & Hb2 & Hc2).
      assert (messageCallback frame b1 t = Ok (g t <$> ms1, b2)) as -> by (unfold messageCallback; by rewrite Eh).
      run_res. rewrite <- Hrest in Hg2 |- *. rewrite <- Hc2 in Hg2 |- *.
      destruct (IH b2 ms2) as (b3 & -> & Hc3); [done|done| |by rewrite Hc2|done|].
      * rewrite Hc2, Hrest. by apply Nat.mod_upper_bound.
      * run_res. exists b3. split; [|done]. rewrite zip_with_app by (by rewrite length_replicate).
        do 3 f_equal. rewrite <- Hk. clear. induction ms1; cbn; congruence.
    + rewrite <- Hk in Hg1. clear -Hg1. induction ms1; inversion Hg1; subst; auto.
Qed.
End Frames.

(** ** The log *)

Lemma stamps_length reads n : n < frameLen -> length (stamps n reads) = (n + length (concat reads.*2)) `div` frameLen.
Proof.
  revert n. induction reads as [|[t d] reads IH]; intros n Hn; cbn [stamps fmap list_fmap concat snd].
  - cbn [length]. by rewrite Nat.add_0_r, Nat.div_small.
  - rewrite !length_app, length_replicate, IH by (by apply Nat.mod_upper_bound).
    rewrite Nat.add_assoc. set (m := n + length d). set (r := length _).
    rewrite (Nat.div_mod m frameLen) at 3 by done.
    rewrite (Nat.mul_comm frameLen), <- Nat.add_assoc, Nat.div_add_l by done. done.
Qed.

Lemma stamps_times (P : Z -> Prop) reads n : Forall P reads.*1 -> Forall P (stamps n reads).
Proof.
  revert n. induction reads as [|[t d] reads IH]; intros n Hp; cbn [stamps]; [done|].
  apply Forall_cons in Hp as [Ht Hp]. apply Forall_app. split; [by apply Forall_replicate|by apply IH].
Qed.

Definition time_ok (t : Z) : Prop := (0 <= t < 2 ^ 62)%Z.

Lemma get64_put t : time_ok t -> get64 (to_mem 8 t) = t.
Proof.
  intros Ht. unfold time_ok, get64 in *. rewrite of_mem_to_mem, Z.mod_small by (simpl; lia).
  apply wrapS_small; lia.
Qed.

(** The frame of a time and a stamp, and what is logged when it is back. *)
Definition stamped (t0 s : Z) : bytes := to_mem 8 t0 ++ to_mem 8 s.
Definition logged (t0 s back : Z) : clock_event := ClockLog (back - t0) (s - (back + t0) / 2).

Lemma stamped_parts t0 s : take 8 (stamped t0 s) = to_mem 8 t0 /\ drop 8 (stamped t0 s) = to_mem 8 s.
Proof.
  unfold stamped. pose proof (length_to_mem 8 t0) as Hl.
  by rewrite take_app_length', drop_app_length'.
Qed.

Lemma stamped_ok t0 s : frame_ok (stamped t0 s).
Proof. unfold frame_ok, stamped. by rewrite length_app, !length_to_mem. Qed.

Lemma server_stamps t0 s t : server_frame t (stamped t0 s) = Ok (ClockSend (stamped t0 t)).
Proof. unfold server_frame. by rewrite (proj1 (stamped_parts _ _)). Qed.

Lemma client_frame_safe t m : client_frame t m <> Fault OutOfFuel.
Proof. unfold client_frame, checked64. by repeat (case_match; run_res). Qed.

Lemma client_logs t0 s back :
  time_ok t0 -> time_ok s -> time_ok back -> client_frame back (stamped t0 s) = Ok (logged t0 s back).
Proof.
  intros H0 Hs Hb. unfold client_frame. destruct (stamped_parts t0 s) as [-> ->]. rewrite !get64_put by done.
  unfold time_ok in *. rewrite (proj2 (checked64_ok (back + t0) (back + t0))) by lia. run_res.
  rewrite Z.quot_div_nonneg by lia. rewrite (proj2 (checked64_ok (back - t0) (back - t0))) by lia. run_res.
  assert (0 <= (back + t0) / 2 < 2 ^ 62)%Z by (split; [apply Z.div_pos; lia|apply Z.div_lt_upper_bound; lia]).
  by rewrite (proj2 (checked64_ok (s - (back + t0) / 2) (s - (back + t0) / 2))) by lia.
Qed.

(** What the callbacks make of a frame. *)
Definition reply (t : Z) (m : bytes) : clock_event := ClockSend (take 8 m ++ to_mem 8 t).
Definition log_of (back : Z) (m : bytes) : clock_event := logged (get64 (take 8 m)) (get64 (drop 8 m)) back.

Lemma replies_of t0s ss :
  length ss = length t0s ->
  zip_with reply ss ((fun t0 => stamped t0 0) <$> t0s) = (fun x => ClockSend (stamped x.1 x.2)) <$> zip t0s ss.
Proof.
  revert ss. induction t0s as [|t0 t0s IH]; intros [|s ss] E; try done. cbn [fmap list_fmap zip_with zip fst snd].
  injection E as E. rewrite IH by done. unfold reply. by rewrite (proj1 (stamped_parts _ _)).
Qed.

Lemma logs_of xs backs :
  Forall (fun x => time_ok x.1 /\ time_ok x.2) xs -> Forall time_ok backs -> length backs = length xs ->
  Forall2 (fun t m => client_frame t m = Ok (log_of t m)) backs ((fun x => stamped x.1 x.2) <$> xs)
  /\ zip_with log_of backs ((fun x => stamped x.1 x.2) <$> xs) = zip_with (fun x back => logged x.1 x.2 back) xs backs.
Proof.
  intros Hx. revert backs. induction Hx as [|[t0 s] xs [Ht Hs] _ IH]; intros [|t backs] Hb E; try done.
  apply Forall_cons in Hb as [Hb Hbs]. injection E as E. destruct (IH backs Hbs E) as [F1 F2].
  assert (El : log_of t (stamped t0 s) = logged t0 s t).
  { unfold log_of. destruct (stamped_parts t0 s) as [-> ->]. by rewrite !get64_put. }
  cbn [fmap list_fmap zip_with fst snd]. split; [constructor; [|done]|by rewrite F2, El].
  rewrite El. by apply client_logs.
Qed.

Lemma middle_bound t0 s back off :
  (t0 <= s - off <= back)%Z -> (Z.abs (s - (back + t0) / 2 - off) <= (back - t0 + 1) / 2)%Z.
Proof.
  intros Hr. pose proof (Z.div_mod (back + t0) 2 ltac:(lia)). pose proof (Z.mod_pos_bound (back + t0) 2 ltac:(lia)).
  pose proof (Z.div_mod (back - t0 + 1) 2 ltac:(lia)). pose proof (Z.mod_pos_bound (back - t0 + 1) 2 ltac:(lia)).
  assert ((back - t0 + 1) mod 2 = 1 - (back + t0) mod 2)%Z.
  { replace (back - t0 + 1)%Z with (back + t0 + 1 + (- t0) * 2)%Z by lia. rewrite Z.mod_add by lia.
    rewrite <- Z.add_mod_idemp_l by lia.
    assert ((back + t0) mod 2 = 0 \/ (back + t0) mod 2 = 1)%Z as [-> | ->] by lia; done. }
  lia.
Qed.

(** The bytes of what is sent. *)
Definition event_bytes (e : clock_event) : bytes := match e with ClockSend m => m | ClockLog _ _ => [] end.

(** However the frames of the client's times are cut into reads on their way
    to the server and back, every frame is answered and logged exactly once, in
    order; its line has the time from its sending to the read that completed
    its return, and the difference of the time of the server's read to the
    middle of these. When the server's clock is [off] ahead and the frame
    reached it between the two moments, the clock error is off by at most half
    of the round trip. *)
Theorem clock_exact t0s sreads creads b c :
  Forall time_ok t0s -> Forall time_ok sreads.*1 -> Forall time_ok creads.*1 ->
  buf_inv b -> content b = [] -> buf_inv c -> content c = [] ->
  concat sreads.*2 = concat (event_bytes ∘ sendMyTime <$> t0s) ->
  (exists replies b', timed_reads serverMessageCallback b sreads = Ok (replies, b') /\ content b' = []
   /\ (concat creads.*2 = concat (event_bytes <$> replies) ->
       exists c', timed_reads clientMessageCallback c creads
           = Ok (zip_with (fun x back => logged x.1 x.2 back) (zip t0s (stamps 0 sreads)) (stamps 0 creads), c')
         /\ content c' = [] /\ length (stamps 0 sreads) = length t0s /\ length (stamps 0 creads) = length t0s))
  /\ forall t0 s back off, (t0 <= s - off <= back)%Z ->
       exists error, logged t0 s back = ClockLog (back - t0) error /\ (Z.abs (error - off) <= (back - t0 + 1) / 2)%Z.
Proof.
  intros H0 Hs Hc Hb Eb Hcb Ec Hbytes. split.
  - assert (Hlen : length (stamps 0 sreads) = length t0s).
    { rewrite stamps_length, Hbytes, frames_length, Nat.add_0_l, Nat.mul_comm, Nat.div_mul, length_fmap; [done|done| |].
      - apply Forall_fmap, Forall_true. intros t. apply stamped_ok.
      - unfold frameLen; lia. }
    assert (Em : event_bytes ∘ sendMyTime <$> t0s = (fun t0 => stamped t0 0) <$> t0s) by done.
    destruct (timed_reads_frames server_frame ltac:(done) reply sreads b ((fun t0 => stamped t0 0) <$> t0s))
      as (b' & Er & Eb'); [done| |rewrite Eb; unfold frameLen; simpl; lia|by rewrite Eb| |].
    { apply Forall_fmap, Forall_true. intros t. apply stamped_ok. }
    { rewrite Eb. apply Forall2_same_length_lookup_2; [by rewrite length_fmap|]. intros i t m _ Hm.
      apply list_lookup_fmap_Some in Hm as (t0 & -> & _). rewrite server_stamps.
      unfold reply. by rewrite (proj1 (stamped_parts _ _)). }
    rewrite Eb in Er. cbn [length] in Er. rewrite replies_of in Er by done.
    eexists _, b'. split; [exact Er|]. split; [done|]. intros Hback.
    rewrite <- list_fmap_compose in Hback. set (xs := zip t0s (stamps 0 sreads)) in *.
    assert (Hx : length xs = length t0s) by (unfold xs; rewrite length_zip_with, Hlen; lia).
    assert (Hframes : Forall frame_ok ((fun x => stamped x.1 x.2) <$> xs))
      by (apply Forall_fmap, Forall_true; intros t; apply stamped_ok).
    assert (Hback' : concat creads.*2 = concat ((fun x => stamped x.1 x.2) <$> xs)) by done.
    assert (Hlc : length (stamps 0 creads) = length xs).
    { rewrite stamps_length, Hback', frames_length, Nat.add_0_l, Nat.mul_comm, Nat.div_mul, length_fmap; [done..|].
      unfold frameLen; lia. }
    destruct (logs_of xs (stamps 0 creads)) as [F1 F2]; [|by apply stamps_times|done|].
    { apply Forall_lookup. intros i [t0 s] Hi. unfold xs in Hi. apply lookup_zip_Some in Hi as [Hi1 Hi2].
      split; [by eapply (Forall_lookup_1 time_ok t0s)|].
      by eapply (Forall_lookup_1 time_ok (stamps 0 sreads)); [apply stamps_times|]. }
    destruct (timed_reads_frames client_frame client_frame_safe log_of creads c ((fun x => stamped x.1 x.2) <$> xs))
      as (c' & El & Ec'); [done|done|rewrite Ec; unfold frameLen; simpl; lia|by rewrite Ec|by rewrite Ec|].
    rewrite Ec in El. cbn [length] in El. rewrite F2 in El. exists c'. split_and!; [exact El|done|done|by rewrite Hlc, Hx].
  - intros t0 s back off Hr. eexists. split; [done|]. by apply middle_bound.
Qed.
End RoundTrip.

Lemma clock_exact_witness :
  Forall time_ok [100; 300]%Z
  /\ exists replies b', @timed_reads (@serverMessageCallback linux) (new_Buffer 1024)
       [(205%Z, take 20 (@stamped linux 100 0 ++ @stamped linux 300 0)); (410%Z, drop 20 (@stamped linux 100 0 ++ @stamped linux 300 0))]
     = Ok (replies, b') /\ exists c', @timed_reads (@clientMessageCallback linux) (new_Buffer 1024)
       [(120%Z, take 1 (concat (event_bytes <$> replies))); (330%Z, drop 1 (concat (event_bytes <$> replies)))]
     = Ok ([ClockLog 230 (-10); ClockLog 30 95], c').
Proof.
  assert (Hok : forall a b, time_ok a -> time_ok b -> Forall time_ok [a; b]) by (intros a b Ha Hb; apply Forall_cons_2; [done|]; apply Forall_cons_2; [done|apply Forall_nil_2]).
  assert (Ht : Forall time_ok [100; 300]%Z) by (apply Hok; by vm_compute).
  split; [exact Ht|].
  destruct (@clock_exact linux [100; 300]%Z
    [(205%Z, take 20 (@stamped linux 100 0 ++ @stamped linux 300 0)); (410%Z, drop 20 (@stamped linux 100 0 ++ @stamped linux 300 0))]
    [(120%Z, take 1 (@stamped linux 100 205 ++ @stamped linux 300 410)); (330%Z, drop 1 (@stamped linux 100 205 ++ @stamped linux 300 410))]
    (new_Buffer 1024) (new_Buffer 1024)) as [(replies & b' & Er & _ & Hc) _];
    [exact Ht|apply Hok; by vm_compute|apply Hok; by vm_compute|apply new_Buffer_inv|reflexivity
    |apply new_Buffer_inv|reflexivity|vm_compute; reflexivity|].
  exists replies, b'. split; [exact Er|]. vm_compute in Er. injection Er as <- _.
  destruct Hc as (c' & El & _); [vm_compute; reflexivity|]. exists c'. exact El.
Defined.
