(* ===== verification/AnyMy.v ===== *)
(** * A value of any type: src/mstest/AnyMy.hpp

    [Any] owns a [Holder] on the heap. Objects are programs' variables; the
    heap is a finite map, so that copying, swapping and destroying show who owns
    what. *)
From S2P Require Import Prelude.

Section Any.
(** The types a program stores, by their [type_info], and their values. *)
Context {T : Type} `{EqDecision T} (val : T -> Type).

(** [Holder<ValueType>]. *)
Definition Holder : Type := { t : T & val t }.

Abbreviation heap := (gmap Z Holder).
Context (alloc : heap -> option Z).

Definition new_Holder (x : Holder) (h : heap) : res (Z * heap) :=
  a ← get_ BadAlloc (alloc h); Ok (a, <[a := x]> h).

Definition Holder_type (x : Holder) : T := projT1 x.

Definition clone (x : Holder) (h : heap) : res (Z * heap) := new_Holder x h.

(** [holder_]. *)
Abbreviation Any := (option Z).

Definition new_Any : Any := None.

Definition Any_of (x : Holder) (h : heap) : res (Any * heap) := '(a, h) ← new_Holder x h; Ok (Some a, h).

Definition Any_copy (other : Any) (h : heap) : res (Any * heap) :=
  match other with
  | Some a => x ← get_ NullDeref (h !! a); '(b, h) ← clone x h; Ok (Some b, h)
  | None => Ok (None, h)
  end.

Definition delete_Any (this : Any) (h : heap) : res heap :=
  match this with
  | Some a => get_ NullDeref (h !! a);; Ok (delete a h)
  | None => Ok h
  end.

Definition any_empty (this : Any) : bool := negb (bool_decide (is_Some this)).

(** [None] is [typeid(void)]. *)
Definition any_type (this : Any) (h : heap) : res (option T) :=
  match this with
  | Some a => x ← get_ NullDeref (h !! a); Ok (Some (Holder_type x))
  | None => Ok None
  end.

Definition swap (this rhs : Any) : Any * Any := (rhs, this).

(** [operator=(Any rhs)]: the parameter is a copy and is destroyed at the end. *)
Definition assign (this rhs : Any) (h : heap) : res (Any * heap) :=
  '(rhs, h) ← Any_copy rhs h;
  let '(this, rhs) := swap this rhs in
  h ← delete_Any rhs h;
  Ok (this, h).

(** [operator=(const ValueType&)]. The result of the call, a reference to the
    temporary, is not used. *)
Definition assign_value (this : Any) (x : Holder) (h : heap) : res (Any * heap) :=
  '(temporary, h) ← Any_of x h;
  let '(temporary, this) := swap temporary this in
  h ← delete_Any temporary h;
  Ok (this, h).

(** [any_cast] of a pointer to an object: what its result points to. *)
Definition any_cast_ptr (t : T) (this : Any) (h : heap) : res (option (val t)) :=
  match this with
  | Some a =>
      x ← get_ NullDeref (h !! a);
      Ok (match decide (Holder_type x = t) with
          | left E => Some (eq_rect _ val (projT2 x) _ E)
          | right _ => None
          end)
  | None => Ok None
  end.

(** [any_cast] of an object: the value, or [BadAnyCast]. *)
Inductive cast_result (t : T) := Cast (v : val t) | BadAnyCast.
Arguments Cast {t} v.
Arguments BadAnyCast {t}.

Definition any_cast (t : T) (this : Any) (h : heap) : res (cast_result t) :=
  rtn ← any_cast_ptr t this h;
  Ok (match rtn with Some v => Cast v | None => BadAnyCast end).

(** ** Programs *)

Record any_state := mkAnyState { any_heap : heap; any_vars : gmap nat Any }.

Inductive any_op :=
  | NewVar (v : nat)                       (* [Any v;] *)
  | NewOf (v : nat) (x : Holder)        (* [Any v(x);] *)
  | NewCopy (v u : nat)                 (* [Any v(u);] *)
  | Assign (v u : nat)                      (* [v = u;] *)
  | AssignValue (v : nat) (x : Holder)      (* [v = x;] *)
  | EndScope (v : nat).

Definition any_exec (op : any_op) (s : any_state) : res any_state :=
  let 'mkAnyState h vars := s in
  match op with
  | NewVar v => Ok (mkAnyState h (<[v := new_Any]> vars))
  | NewOf v x => '(a, h) ← Any_of x h; Ok (mkAnyState h (<[v := a]> vars))
  | NewCopy v u =>
      b ← get_ NullDeref (vars !! u); '(a, h) ← Any_copy b h; Ok (mkAnyState h (<[v := a]> vars))
  | Assign v u =>
      a ← get_ NullDeref (vars !! v); b ← get_ NullDeref (vars !! u);
      '(a, h) ← assign a b h; Ok (mkAnyState h (<[v := a]> vars))
  | AssignValue v x =>
      a ← get_ NullDeref (vars !! v); '(a, h) ← assign_value a x h; Ok (mkAnyState h (<[v := a]> vars))
  | EndScope v => a ← get_ NullDeref (vars !! v); h ← delete_Any a h; Ok (mkAnyState h (delete v vars))
  end.

(** A variable is declared once and used while it is there. *)
Definition any_scoped (op : any_op) (vars : gset nat) : Prop :=
  match op with
  | NewVar v | NewOf v _ => v ∉ vars
  | NewCopy v u => v ∉ vars /\ u ∈ vars
  | Assign v u => v ∈ vars /\ u ∈ vars
  | AssignValue v _ | EndScope v => v ∈ vars
  end.

(** What it means: each variable has a value or none. *)
Definition any_spec (op : any_op) (m : gmap nat (option Holder)) : gmap nat (option Holder) :=
  match op with
  | NewVar v => <[v := None]> m
  | NewOf v x | AssignValue v x => <[v := Some x]> m
  | NewCopy v u | Assign v u => <[v := default None (m !! u)]> m
  | EndScope v => delete v m
  end.

(** [vars] own what is in [h], each one [Holder] of its own. *)
Record owns (h : heap) (vars : gmap nat Any) (m : gmap nat (option Holder)) : Prop := {
  ow_value : forall v, m !! v = (fun a : Any => a ≫= (h !!.)) <$> vars !! v;
  ow_there : forall v a, vars !! v = Some (Some a) -> is_Some (h !! a);
  ow_alone : forall v u a, vars !! v = Some (Some a) -> vars !! u = Some (Some a) -> v = u;
  ow_all : forall a, is_Some (h !! a) -> exists v, vars !! v = Some (Some a)
}.
Hypothesis alloc_new : forall h a, alloc h = Some a -> h !! a = None.

(** A variable gets a fresh holder. *)
Lemma owns_new h vars m v a x :
  owns h vars m -> vars !! v = None -> h !! a = None -> owns (<[a := x]> h) (<[v := Some a]> vars) (<[v := Some x]> m).
Proof.
  intros [Hv Ht Ha Hall] Hn Hnew.
  assert (Hne : forall u b, vars !! u = Some (Some b) -> b <> a).
  { intros u b Hu ->. destruct (Ht u a Hu). congruence. }
  split.
  - intros u. destruct (decide (u = v)) as [->|Hu]; [rewrite !lookup_insert_eq; simpl; by rewrite lookup_insert_eq|].
    rewrite !lookup_insert_ne by done. rewrite Hv. destruct (vars !! u) as [[b|]|] eqn:E; [|done..]. simpl.
    by rewrite lookup_insert_ne by (apply not_eq_sym; by eapply Hne).
  - intros u b Hu. destruct (decide (b = a)) as [->|]; [by rewrite lookup_insert_eq|]. rewrite lookup_insert_ne by done.
    apply lookup_insert_Some in Hu as [[_ [= <-]]|[_ Hu]]; [done|by eapply Ht].
  - intros u u' b Hu Hu'. apply lookup_insert_Some in Hu as [[<- [= <-]]|[? Hu]], Hu' as [[<- Eb]|[? Hu']]; try done.
    + exfalso. by apply (Hne u' a).
    + injection Eb as <-. exfalso. by apply (Hne u a).
    + by eapply Ha.
  - intros b Hb. destruct (decide (b = a)) as [->|Hba]; [exists v; by rewrite lookup_insert_eq|].
    rewrite lookup_insert_ne in Hb by done. destruct (Hall b Hb) as [u Hu]. exists u. rewrite lookup_insert_ne; [done|]. intros ->. by rewrite Hn in Hu.
Qed.

(** A variable goes with what it holds. *)
Lemma owns_end h vars m v a :
  owns h vars m -> vars !! v = Some a ->
  let h' := match a with Some a => delete a h | None => h end in
  delete_Any a h = Ok h' /\ owns h' (delete v vars) (delete v m).
Proof.
  intros [Hv Ht Ha Hall] Hva. destruct a as [a|]; cbn [delete_Any].
  - destruct (Ht v a Hva) as [x Hx]. rewrite Hx. split; [done|].
    assert (Hne : forall u b, u <> v -> vars !! u = Some (Some b) -> b <> a) by (intros u b Hu E ->; by apply Hu, (Ha u v a)).
    split.
    + intros u. destruct (decide (u = v)) as [->|Hu]; [by rewrite !lookup_delete_eq|]. rewrite !lookup_delete_ne by done. rewrite Hv.
      destruct (vars !! u) as [[b|]|] eqn:E; [|done..]. simpl. rewrite lookup_delete_ne; [done|]. apply not_eq_sym. by eapply Hne.
    + intros u b [Hu E]%lookup_delete_Some. rewrite lookup_delete_ne by (apply not_eq_sym; eapply (Hne u); [by apply not_eq_sym|done]).
      by eapply Ht.
    + intros u u' b [_ E]%lookup_delete_Some [_ E']%lookup_delete_Some. by eapply Ha.
    + intros b [y [Hba Hb]%lookup_delete_Some]. destruct (Hall b) as [u Hu]; [by eexists|]. exists u.
      rewrite lookup_delete_ne; [done|]. intros ->. rewrite Hva in Hu. by injection Hu as ->.
  - split; [done|]. split.
    + intros u. destruct (decide (u = v)) as [->|Hu]; [by rewrite !lookup_delete_eq|]. by rewrite !lookup_delete_ne, Hv.
    + intros u b [_ E]%lookup_delete_Some. by eapply Ht.
    + intros u u' b [_ E]%lookup_delete_Some [_ E']%lookup_delete_Some. by eapply Ha.
    + intros b Hb. destruct (Hall b Hb) as [u Hu]. exists u. rewrite lookup_delete_ne; [done|]. intros ->. by rewrite Hva in Hu.
Qed.

Lemma owns_empty_var h vars m v :
  owns h vars m -> vars !! v = None -> owns h (<[v := None]> vars) (<[v := None]> m).
Proof.
  intros [Hv Ht Ha Hall] Hn. split.
  - intros u. destruct (decide (u = v)) as [->|Hu]; [by rewrite !lookup_insert_eq|]. by rewrite !lookup_insert_ne, Hv.
  - intros u b [[_ ?]|[_ E]]%lookup_insert_Some; [done|by eapply Ht].
  - intros u u' b [[_ ?]|[_ E]]%lookup_insert_Some [[_ ?]|[_ E']]%lookup_insert_Some; try done. by eapply Ha.
  - intros b Hb. destruct (Hall b Hb) as [u Hu]. exists u. rewrite lookup_insert_ne; [done|]. intros ->. by rewrite Hn in Hu.
Qed.

Lemma owns_dom h vars m : owns h vars m -> dom m = dom vars.
Proof. intros [Hv _ _ _]. apply set_eq. intros v. rewrite !elem_of_dom, Hv. by rewrite fmap_is_Some. Qed.

(** Allocation fails or gives a new holder. *)
Definition no_memory (e : fault) : Prop := e = BadAlloc.

Lemma new_Holder_ok x h (P : Z * heap -> Prop) :
  (forall a, h !! a = None -> P (a, <[a := x]> h)) -> wp no_memory (new_Holder x h) P.
Proof.
  intros HP. unfold new_Holder. destruct (alloc h) as [a|] eqn:E; [|done]. apply HP. by apply alloc_new.
Qed.

(** The holder of [v] is replaced by a new one, or by none. *)
Lemma owns_replace h vars m v a x b :
  owns h vars m -> vars !! v = Some a -> h !! b = None ->
  wp no_memory (delete_Any a (<[b := x]> h)) (fun h' => owns h' (<[v := Some b]> vars) (<[v := Some x]> m)).
Proof.
  intros Ho Hv Hb. destruct (owns_end h vars m v a Ho Hv) as [_ He].
  assert (Hd : exists h', delete_Any a (<[b := x]> h) = Ok (<[b := x]> h')
    /\ owns h' (delete v vars) (delete v m) /\ h' !! b = None).
  { destruct a as [a|]; cbn [delete_Any] in *; [|by exists h]. destruct (ow_there _ _ _ Ho v a Hv) as [y Hy].
    assert (Hab : a <> b) by congruence. exists (delete a h). rewrite lookup_insert_ne, Hy by done.
    split; [run_res; f_equal; by apply delete_insert_ne|]. split; [done|]. by rewrite lookup_delete_ne. }
  destruct Hd as (h' & -> & Ho' & Hb'). cbn [wp].
  pose proof (owns_new h' _ _ v b x Ho' (lookup_delete_eq _ _) Hb') as Hn. by rewrite !insert_delete_eq in Hn.
Qed.

Lemma any_step op h vars m :
  owns h vars m -> any_scoped op (dom vars) ->
  wp no_memory (any_exec op (mkAnyState h vars)) (fun s => owns (any_heap s) (any_vars s) (any_spec op m)).
Proof.
  intros Ho Hs. destruct op as [v|v x|v u|v u|v x|v]; cbn [any_exec any_spec any_scoped] in *.
  - apply owns_empty_var; [done|]. by apply not_elem_of_dom.
  - unfold Any_of. apply wp_bind, wp_bind, new_Holder_ok. intros a Ha. cbn [wp any_heap any_vars].
    apply owns_new; [done|by apply not_elem_of_dom|done].
  - destruct Hs as [Hv%not_elem_of_dom [b Hu]%elem_of_dom]. rewrite Hu. run_res.
    assert (Em : m !! u = Some (b ≫= (h !!.))) by (by rewrite (ow_value _ _ _ Ho), Hu). rewrite Em. cbn [default from_option id].
    destruct b as [b|]; cbn [Any_copy].
    + destruct (ow_there _ _ _ Ho u b Hu) as [x Hx]. rewrite Hx. cbn [get_ mbind res_bind]. unfold clone.
      apply wp_bind, wp_bind, new_Holder_ok. intros a Ha. cbn [wp any_heap any_vars option_bind]. simpl. rewrite Hx. by apply owns_new.
    + by apply owns_empty_var.
  - destruct Hs as [[a Hv]%elem_of_dom [b Hu]%elem_of_dom]. rewrite Hv, Hu. run_res.
    assert (Em : m !! u = Some (b ≫= (h !!.))) by (by rewrite (ow_value _ _ _ Ho), Hu). rewrite Em. cbn [default from_option id].
    unfold assign, swap. destruct b as [b|]; cbn [Any_copy].
    + destruct (ow_there _ _ _ Ho u b Hu) as [x Hx]. rewrite Hx. cbn [get_ mbind res_bind]. unfold clone.
      apply wp_bind, wp_bind, wp_bind, new_Holder_ok. intros c Hc. cbv beta iota. cbn [wp mbind res_bind]. apply wp_bind.
      eapply wp_mono; [by apply owns_replace|]. simpl. by rewrite Hx.
    + cbn [mbind res_bind]. destruct (owns_end h vars m v a Ho Hv) as [E He]. rewrite E. cbn [wp mbind res_bind any_heap any_vars].
      pose proof (owns_empty_var _ _ _ v He (lookup_delete_eq _ _)) as Hn. by rewrite !insert_delete_eq in Hn.
  - apply elem_of_dom in Hs as [a Hv]. rewrite Hv. run_res. unfold assign_value, Any_of, swap.
    apply wp_bind, wp_bind, wp_bind, new_Holder_ok. intros c Hc. cbv beta iota. cbn [wp mbind res_bind]. apply wp_bind.
    eapply wp_mono; [by apply owns_replace|]. by simpl.
  - apply elem_of_dom in Hs as [a Hv]. rewrite Hv. run_res. destruct (owns_end h vars m v a Ho Hv) as [E He]. rewrite E. exact He.
Qed.

(** A program and what it means. *)
Inductive any_reach : any_state -> gmap nat (option Holder) -> Prop :=
  | any_start : any_reach (mkAnyState ∅ ∅) ∅
  | any_next s m op s' :
      any_reach s m -> any_scoped op (dom (any_vars s)) -> any_exec op s = Ok s' -> any_reach s' (any_spec op m).

Lemma any_reach_owns s m : any_reach s m -> owns (any_heap s) (any_vars s) m.
Proof.
  induction 1 as [|[h vars] m op s' _ IH Hs E].
  - split; try done. intros a [x Hx]. done.
  - exact (wp_ok _ _ _ _ (any_step op h vars m IH Hs) E).
Qed.

Lemma any_cast_same t (x : val t) a h :
  h !! a = Some (existT t x : Holder) -> any_cast t (Some a) h = Ok (Cast x).
Proof.
  intros E. unfold any_cast, any_cast_ptr. cbv beta iota. rewrite E. run_res. cbn [Holder_type projT1 projT2].
  destruct (decide (t = t)) as [Et|]; [|done]. by rewrite (Eqdep_dec.UIP_dec (fun a b => decide (a = b)) Et eq_refl).
Qed.

Lemma any_cast_other t t' (x : val t) a h :
  h !! a = Some (existT t x : Holder) -> t <> t' -> any_cast t' (Some a) h = Ok BadAnyCast.
Proof.
  intros E Hne. unfold any_cast, any_cast_ptr. cbv beta iota. rewrite E. run_res. cbn [Holder_type projT1].
  by destruct (decide (t = t')).
Qed.

(** a program that declares, copies, assigns and destroys [Any] objects
    does what it would do with plain values: no operation uses a holder that is
    gone, or fails but for lack of memory; each variable has its own value, with
    its type, and only [any_cast] to that type gives it; the heap holds exactly what the
    variables own, so nothing leaks. *)
Theorem any_refines s m :
  any_reach s m ->
  (forall op, any_scoped op (dom (any_vars s)) -> wp no_memory (any_exec op s) (fun _ => True))
  /\ dom (any_vars s) = dom m
  /\ (forall v a, any_vars s !! v = Some a ->
       exists o, m !! v = Some o /\ any_type a (any_heap s) = Ok (Holder_type <$> o) /\ any_empty a = bool_decide (o = None)
         /\ forall t, match o with
            | Some (existT t0 x) => if decide (t0 = t) then True else any_cast t a (any_heap s) = Ok BadAnyCast
            | None => any_cast t a (any_heap s) = Ok BadAnyCast
            end)
  /\ (forall v a t x, any_vars s !! v = Some a -> m !! v = Some (Some (existT t x : Holder)) -> any_cast t a (any_heap s) = Ok (Cast x))
  /\ (forall a, is_Some (any_heap s !! a) <-> exists v, any_vars s !! v = Some (Some a)).
Proof.
  intros Hr. pose proof (any_reach_owns s m Hr) as Ho. destruct s as [h vars]. cbn [any_heap any_vars] in *. split_and!.
  - intros op Hs. eapply wp_mono; [by apply (any_step op h vars m)|done].
  - symmetry. by eapply owns_dom.
  - intros v a Hv. exists (a ≫= (h !!.)). split; [by rewrite (ow_value _ _ _ Ho), Hv|]. destruct a as [a|]; [|done].
    destruct (ow_there _ _ _ Ho v a Hv) as [[t0 x] Hx]. simpl. rewrite Hx. split; [done|]. split; [done|]. intros t.
    case_decide; [done|]. by eapply any_cast_other.
  - intros v a t x Hv Hm. rewrite (ow_value _ _ _ Ho), Hv in Hm. destruct a as [a|]; [|done]. apply any_cast_same. by injection Hm.
  - intros a. split; [apply (ow_all _ _ _ Ho)|]. intros [v Hv]. by apply (ow_there _ _ _ Ho v).
Qed.
End Any.

(** ** Numbers and texts *)
Module AnyDemo.
Inductive ty := TInt | TString.
#[local] Instance ty_eq_dec : EqDecision ty.
Proof. solve_decision. Defined.
Definition ty_val (t : ty) : Type := match t with TInt => Z | TString => bytes end.

Definition small_alloc (h : gmap Z (Holder ty_val)) : option Z := Some (Z.of_nat (fresh (set_map Z.to_nat (dom h) : gset nat))).

Lemma small_alloc_new h a : small_alloc h = Some a -> h !! a = None.
Proof.
  unfold small_alloc. intros [= <-]. apply not_elem_of_dom. intros Hin.
  apply (is_fresh (set_map Z.to_nat (dom h) : gset nat)). apply elem_of_map. eexists. split; [|exact Hin]. by rewrite Nat2Z.id.
Qed.

(** [Any a(5); Any b(a); b = string("x"); a = b;] *)
Definition any_program : list (any_op ty_val) :=
  [NewOf _ 0 (existT TInt 5%Z); NewCopy _ 1 0; AssignValue _ 1 (existT TString (str "x")); Assign _ 0 1].

Fixpoint any_run (ops : list (any_op ty_val)) (s : any_state ty_val) (m : gmap nat (option (Holder ty_val))) :
    res (any_state ty_val * gmap nat (option (Holder ty_val))) :=
  match ops with
  | [] => Ok (s, m)
  | op :: ops => s ← any_exec ty_val small_alloc op s; any_run ops s (any_spec ty_val op m)
  end.

Fixpoint any_run_scoped (ops : list (any_op ty_val)) (s : any_state ty_val) : Prop :=
  match ops with
  | [] => True
  | op :: ops => any_scoped ty_val op (dom (any_vars _ s))
      /\ match any_exec ty_val small_alloc op s with Ok s => any_run_scoped ops s | Fault _ => True end
  end.

Lemma any_run_reach ops s m s' m' :
  any_reach ty_val small_alloc s m -> any_run_scoped ops s -> any_run ops s m = Ok (s', m') ->
  any_reach ty_val small_alloc s' m'.
Proof.
  revert s m; induction ops as [|op ops IH]; intros s m Hr; cbn [any_run any_run_scoped]; [by intros _ [= <- <-]|].
  intros [Hs Hrest]. destruct (any_exec _ _ op s) as [s1|] eqn:E; [|done]. cbn [mbind res_bind]. apply IH; [|done].
  by eapply any_next.
Qed.

Definition any_end : any_state ty_val * gmap nat (option (Holder ty_val)) :=
  match any_run any_program (mkAnyState _ ∅ ∅) ∅ with Ok p => p | Fault _ => (mkAnyState _ ∅ ∅, ∅) end.

Lemma any_end_reach : any_reach ty_val small_alloc any_end.1 any_end.2.
Proof.
  apply (any_run_reach any_program (mkAnyState _ ∅ ∅) ∅); [constructor| |vm_compute; reflexivity].
  cbn [any_program any_run_scoped]. repeat (split; [vm_compute|]); try done; vm_compute; repeat split; set_solver.
Qed.

Lemma any_refines_witness :
  exists a, any_vars _ any_end.1 !! 0 = Some a
    /\ any_cast ty_val TString a (any_heap _ any_end.1) = Ok (Cast ty_val TString (str "x"))
    /\ any_cast ty_val TInt a (any_heap _ any_end.1) = Ok (BadAnyCast ty_val TInt).
Proof.
  destruct (any_refines ty_val small_alloc small_alloc_new any_end.1 any_end.2 any_end_reach) as (_ & _ & Hother & Hsame & _).
  destruct (any_vars _ any_end.1 !! 0) as [a|] eqn:E; [|by vm_compute in E]. exists a. split; [done|]. split.
  - apply (Hsame 0); [exact E|]. vm_compute. reflexivity.
  - destruct (Hother 0 a E) as (o & Ho & _ & _ & Hc). specialize (Hc TInt). vm_compute in Ho. injection Ho as <-. exact Hc.
Defined.
End AnyDemo.
