(* ===== verification/MainThread.v ===== *)
(** * Which thread is the main thread

    [getMainThreadId] and [CurrentThread::isMainThread] of
    src/msmuduo/base/Thread.cpp. The snapshot of the threads and their times of
    creation are what the operating system gives. *)
From S2P Require Import Prelude.
From S2P Require Import Endian.

(** [THREADENTRY32] with the [createtime] of [GetThreadTimes]. *)
Record thread_entry := mkEntry {
  th32OwnerProcessID : Z;
  th32ThreadID : Z;
  dwHighDateTime : Z;
  dwLowDateTime : Z
}.

(** [m_threadId] and the two halves of [timeRunE]. *)
Definition oldest : Type := Z * Z * Z.

Definition thread_round (idProcess : Z) (best : oldest) (e : thread_entry) : oldest :=
  let '(_, high, low) := best in
  let this := (th32ThreadID e, dwHighDateTime e, dwLowDateTime e) in
  if (th32OwnerProcessID e =? idProcess)%Z then
    if (dwHighDateTime e <? high)%Z || ((high =? 0)%Z && (low =? 0)%Z) then this
    else if (dwHighDateTime e =? high)%Z && (dwLowDateTime e <? low)%Z then this else best
  else best.

(** [None]: no snapshot could be taken. *)
Definition getMainThreadId (idProcess : Z) (snapshot : option (list thread_entry)) : Z :=
  match snapshot with
  | Some entries => (fold_left (thread_round idProcess) entries (0, 0, 0)%Z).1.1
  | None => 0%Z
  end.

(** [gettid] under Windows: a [DWORD] as an [int]. *)
Definition tid_of (id : Z) : Z := wrapS 32 id.

(** [tid] is the cached id of the current thread; comparing it with a [DWORD]
    converts it back. *)
Definition isMainThread `{Platform} (tid pid : Z) (snapshot : option (list thread_entry)) : bool :=
  if win then (wrapU 32 tid =? getMainThreadId pid snapshot)%Z else (tid =? pid)%Z.

(** ** The oldest thread of the process *)

Definition created (e : thread_entry) : Z := dwHighDateTime e * 2 ^ 32 + dwLowDateTime e.

(** Times are pairs of [DWORD]s, and no thread was created at time 0. *)
Definition timed (e : thread_entry) : Prop :=
  (0 <= dwHighDateTime e < 2 ^ 32)%Z /\ (0 <= dwLowDateTime e < 2 ^ 32)%Z /\ created e <> 0%Z.

(** What the loop has after [seen]: nothing, or the oldest thread so far. *)
Definition best_of (pid : Z) (seen : list thread_entry) (best : oldest) : Prop :=
  let own := filter (fun e => th32OwnerProcessID e = pid) seen in
  own = [] /\ best = (0, 0, 0)%Z
  \/ exists e, e ∈ own /\ best = (th32ThreadID e, dwHighDateTime e, dwLowDateTime e)
     /\ forall e', e' ∈ own -> (created e <= created e')%Z.

Lemma thread_round_best pid seen best e :
  best_of pid seen best -> Forall timed seen -> timed e -> best_of pid (seen ++ [e]) (thread_round pid best e).
Proof.
  unfold best_of. intros Hb Hs He. rewrite filter_app, filter_cons, filter_nil. destruct best as [[id high] low].
  unfold thread_round. destruct (Z.eqb_spec (th32OwnerProcessID e) pid) as [Eo|No].
  2:{ rewrite decide_False, app_nil_r by done. exact Hb. }
  rewrite decide_True by done. right. destruct Hb as [[-> E]|(b & Hin & E & Hmin)]; injection E as -> -> ->.
  - exists e. rewrite orb_true_r. split; [set_solver|]. split; [done|]. intros e' He'. apply list_elem_of_singleton in He' as ->. lia.
  - assert (Htb : timed b).
    { apply list_elem_of_filter in Hin as [_ Hin]. by eapply Forall_forall in Hs. }
    destruct Htb as (Hh & Hl & H0), He as (Hh' & Hl' & _). unfold created in *.
    assert (Hnz : (dwHighDateTime b =? 0)%Z && (dwLowDateTime b =? 0)%Z = false)
      by (destruct (Z.eqb_spec (dwHighDateTime b) 0), (Z.eqb_spec (dwLowDateTime b) 0); simpl; lia).
    rewrite Hnz, orb_false_r.
    assert (Hnew : (created e < created b)%Z -> exists x, x ∈ filter (fun e => th32OwnerProcessID e = pid) seen ++ [e]
      /\ (th32ThreadID e, dwHighDateTime e, dwLowDateTime e) = (th32ThreadID x, dwHighDateTime x, dwLowDateTime x)
      /\ forall e', e' ∈ filter (fun e => th32OwnerProcessID e = pid) seen ++ [e] -> (created x <= created e')%Z).
    { intros Hlt. exists e. split; [set_solver|]. split; [done|]. intros e' [Hin'|Hin'%list_elem_of_singleton]%elem_of_app; [|subst e'; lia].
      specialize (Hmin e' Hin'). unfold created in *. lia. }
    unfold created in *. destruct (Z.ltb_spec (dwHighDateTime e) (dwHighDateTime b)); [apply Hnew; lia|].
    destruct (Z.eqb_spec (dwHighDateTime e) (dwHighDateTime b)), (Z.ltb_spec (dwLowDateTime e) (dwLowDateTime b)); cbn [andb];
      try (apply Hnew; lia); (exists b; split; [set_solver|]; split; [done|]; intros e' [Hin'|Hin'%list_elem_of_singleton]%elem_of_app;
        [by apply Hmin|subst e'; lia]).
Qed.

Lemma fold_best pid entries seen best :
  best_of pid seen best -> Forall timed (seen ++ entries) ->
  best_of pid (seen ++ entries) (fold_left (thread_round pid) entries best).
Proof.
  revert seen best; induction entries as [|e entries IH]; intros seen best Hb Ht; cbn [fold_left]; [by rewrite app_nil_r|].
  rewrite (app_assoc seen [e] entries : seen ++ e :: entries = _) in *. apply IH; [|done].
  apply Forall_app in Ht as [[Hs He]%Forall_app _]. apply thread_round_best; [done..|]. by inversion He.
Qed.

(** the main thread is the thread of the process that was created first; a
    thread recognises itself as the main thread exactly when it is, if no other
    was created at the same time. *)
Theorem main_thread_first `{Platform} pid entries e :
  win = true -> Forall timed entries -> e ∈ entries -> th32OwnerProcessID e = pid -> (0 <= th32ThreadID e < 2 ^ 32)%Z ->
  (forall e1 e2, e1 ∈ entries -> e2 ∈ entries -> th32OwnerProcessID e1 = pid -> th32OwnerProcessID e2 = pid ->
     created e1 = created e2 \/ th32ThreadID e1 = th32ThreadID e2 -> e1 = e2) ->
  isMainThread (tid_of (th32ThreadID e)) pid (Some entries) = true
  <-> forall e', e' ∈ entries -> th32OwnerProcessID e' = pid -> (created e <= created e')%Z.
Proof.
  intros Hw Ht Hin Ho Hid Hd. unfold isMainThread, tid_of, getMainThreadId. rewrite Hw, Z.eqb_eq.
  rewrite wrapU_wrapS, wrapU_small by lia.
  destruct (fold_best pid entries [] (0, 0, 0)%Z (or_introl (conj eq_refl eq_refl)) Ht) as [[Hn _]|(b & Hb & -> & Hmin)].
  { exfalso. cbn [app] in Hn. assert (Hf : e ∈ filter (fun e => th32OwnerProcessID e = pid) entries) by by apply list_elem_of_filter.
    rewrite Hn in Hf. by apply elem_of_nil in Hf. }
  cbn [app fst] in *. apply list_elem_of_filter in Hb as [Hbo Hb]. split.
  - intros Eid e' He' Ho'. rewrite (Hd e b) by auto. apply Hmin. by apply list_elem_of_filter.
  - intros Hle. f_equal. apply Hd; try done. left. specialize (Hle b Hb Hbo).
    specialize (Hmin e). rewrite list_elem_of_filter in Hmin. specialize (Hmin (conj Ho Hin)). lia.
Qed.

Lemma main_thread_first_witness :
  @isMainThread windows (tid_of 4294967295) 7
    (Some [mkEntry 7 12 30 5; mkEntry 8 4 1 1; mkEntry 7 4294967295 29 9]) = true.
Proof.
  apply (main_thread_first (H := windows) 7 [mkEntry 7 12 30 5; mkEntry 8 4 1 1; mkEntry 7 4294967295 29 9] (mkEntry 7 4294967295 29 9)).
  - reflexivity.
  - repeat constructor; vm_compute; congruence.
  - set_solver.
  - reflexivity.
  - split; vm_compute; congruence.
  - intros e1 e2 H1 H2. repeat (apply elem_of_cons in H1 as [->|H1]); try (by apply elem_of_nil in H1);
      repeat (apply elem_of_cons in H2 as [->|H2]); try (by apply elem_of_nil in H2);
      intros [=] [=] [E|E]; try reflexivity; vm_compute in E; discriminate.
  - intros e' H1. repeat (apply elem_of_cons in H1 as [->|H1]); try (by apply elem_of_nil in H1); intros [=]; vm_compute; discriminate.
Defined.
