(* ===== verification/SelectServer.v ===== *)
(** * The select echo server: src/mstest/select_server.cpp

    A Windows program that serves all its clients in one thread: [select] says
    which sockets are ready, the table [client] holds the connections, what is
    received is written back. Every step of the machine [select_step] is one
    system call with the answer of the kernel and the code up to the next call;
    a call that blocks is a step that is not taken. *)
From S2P Require Import Prelude.

(** ** Writing

    [writen] of select_server.cpp and select_client.cpp; [ptr] is what is left
    to write. *)
Inductive send_answer :=
  | SSent (nwritten : nat)
  | SIntr                      (* [WSAEINTR] *)
  | SError.

Inductive writen_state := More (ptr : bytes) | Returned (complete : bool).

Definition writen_test (ptr : bytes) : writen_state :=
  match ptr with [] => Returned true | _ => More ptr end.

Definition writen_round (a : send_answer) (ptr : bytes) : writen_state :=
  match a with
  | SSent O | SError => Returned false
  | SSent nwritten => writen_test (drop nwritten ptr)
  | SIntr => More ptr
  end.

(** What the kernel has taken. *)
Definition taken (a : send_answer) (ptr : bytes) : bytes :=
  match a with SSent nwritten => take nwritten ptr | _ => [] end.

Definition send_fits (a : send_answer) (ptr : bytes) : Prop :=
  match a with SSent nwritten => nwritten <= length ptr | _ => True end.

(** A round ends with everything written, with an error, or goes on with the
    rest. *)
Lemma writen_round_spec a ptr :
  send_fits a ptr -> ptr <> [] ->
  match writen_round a ptr with
  | More rest => rest <> [] /\ ptr = taken a ptr ++ rest
  | Returned true => ptr = taken a ptr
  | Returned false => taken a ptr = []
  end.
Proof.
  destruct a as [[|n]| |]; cbn [writen_round taken send_fits]; intros Hf Hp; try done.
  unfold writen_test. destruct (drop (S n) ptr) as [|x l] eqn:E.
  - rewrite <- (take_drop (S n) ptr) at 1. by rewrite E, app_nil_r.
  - split; [done|]. rewrite <- E. by rewrite take_drop.
Qed.

(** ** Sets of sockets

    [fd_set] of winsock2.h: it holds at most [FD_SETSIZE] sockets, and
    [FD_SET] leaves a full set as it is. *)
Class FdSets (FS : Type) := {
  FD_SETSIZE : nat;
  FD_ZERO : FS;
  FD_SET : Z -> FS -> FS;
  FD_CLR : Z -> FS -> FS;
  FD_ISSET : Z -> FS -> bool
}.

Class FdSetLaws (FS : Type) `{!FdSets FS} := {
  members : FS -> gset Z;
  setsize_pos : 0 < FD_SETSIZE;
  zero_law : members FD_ZERO = ∅;
  set_law x s : members (FD_SET x s)
    = if decide (size (members s) < FD_SETSIZE) then {[ x ]} ∪ members s else members s;
  clr_law x s : members (FD_CLR x s) = members s ∖ {[ x ]};
  isset_law x s : FD_ISSET x s = true <-> x ∈ members s
}.

Section SelectServer.
Context {FS : Type} `{!FdSets FS}.

(** ** The server *)

(** The socket of a client as the kernel sees it: what [recv] gave, what
    [send] took, whether a [send] failed. *)
Record sock := mkSock { s_in : bytes; s_out : bytes; s_broken : bool }.

(** Where the loop of [main] waits: in [Select], in [Accept], in the [recv] of
    [client[i]], in a [send] to it. *)
Inductive place :=
  | Selecting
  | Accepting (nready : Z) (rset : FS)
  | Receiving (i : nat) (nready : Z) (rset : FS)
  | Writing (i : nat) (nready : Z) (rset : FS) (ptr : bytes).

Record server := mkServer {
  listenfd : Z;
  client : list Z;
  maxi : Z;
  maxfd : Z;
  allset : FS;
  pc : place;
  conns : gmap Z sock
}.

Definition set_pc (p : place) (s : server) : server :=
  mkServer (listenfd s) (client s) (maxi s) (maxfd s) (allset s) p (conns s).
Definition set_conns (c : gmap Z sock) (s : server) : server :=
  mkServer (listenfd s) (client s) (maxi s) (maxfd s) (allset s) (pc s) c.

(** [main] up to the loop. *)
Definition start_server (listenfd : Z) : server :=
  mkServer listenfd (replicate FD_SETSIZE (-1)%Z) (-1) listenfd (FD_SET listenfd FD_ZERO) Selecting ∅.

(** The scan of [client] for the next socket that is ready; [n] rounds are
    left. *)
Fixpoint scan (n i : nat) (rset : FS) (client : list Z) : res (option nat) :=
  match n with
  | O => Ok None
  | S n =>
      sockfd ← get_ OutOfBounds (client !! i);
      if (sockfd <? 0)%Z then scan n (i + 1) rset client
      else if FD_ISSET sockfd rset then Ok (Some i) else scan n (i + 1) rset client
  end.

Definition next_client (i : nat) (nready : Z) (rset : FS) (s : server) : res server :=
  found ← scan (Z.to_nat (maxi s + 1) - i) i rset (client s);
  Ok (set_pc (match found with Some i => Receiving i nready rset | None => Selecting end) s).

(** The end of a round for [client[i]]. *)
Definition client_done (i : nat) (nready : Z) (rset : FS) (s : server) : res server :=
  let nready := (nready - 1)%Z in
  if (nready <=? 0)%Z then Ok (set_pc Selecting s) else next_client (i + 1) nready rset s.

(** The first entry that is free, or the size of the table. *)
Fixpoint free_entry (client : list Z) : nat :=
  match client with
  | [] => 0
  | fd :: client => if (fd <? 0)%Z then 0 else S (free_entry client)
  end.

(** After [Accept]. *)
Definition add_client (connfd nready : Z) (rset : FS) (s : server) : res server :=
  let i := free_entry (client s) in
  let s := mkServer (listenfd s) (<[i := connfd]> (client s)) (Z.max (maxi s) (Z.of_nat i))
             (Z.max (maxfd s) connfd) (FD_SET connfd (allset s)) (pc s)
             (if (connfd <? 0)%Z then conns s else <[connfd := mkSock [] [] false]> (conns s)) in
  let nready := (nready - 1)%Z in
  if (nready <=? 0)%Z then Ok (set_pc Selecting s) else next_client 0 nready rset s.

(** [recv] returned 0. *)
Definition drop_client (i : nat) (sockfd : Z) (s : server) : server :=
  mkServer (listenfd s) (<[i := (-1)%Z]> (client s)) (maxi s) (maxfd s) (FD_CLR sockfd (allset s)) (pc s)
    (delete sockfd (conns s)).

Definition got (d : bytes) (c : sock) : sock := mkSock (s_in c ++ d) (s_out c) (s_broken c).
Definition put (d : bytes) (c : sock) : sock := mkSock (s_in c) (s_out c ++ d) (s_broken c).
Definition fail (c : sock) : sock := mkSock (s_in c) (s_out c) true.

Inductive answer :=
  | ASelect (nready : Z) (rset : FS)
  | AAccept (connfd : Z)       (* negative: an error *)
  | AAborted                   (* [WSAECONNABORTED] *)
  | ARecv (data : bytes)
  | ARecvError
  | ASend (a : send_answer).

(** One call. When [recv] fails, [Writen] is asked to write [(size_t)-1] bytes
    of a buffer that holds 1024. *)
Definition select_step (a : answer) (s : server) : res server :=
  match pc s, a with
  | Selecting, ASelect nready rset =>
      if FD_ISSET (listenfd s) rset then Ok (set_pc (Accepting nready rset) s) else next_client 0 nready rset s
  | Accepting nready rset, AAccept connfd => add_client connfd nready rset s
  | Accepting _ _, AAborted => Ok s
  | Receiving i nready rset, ARecv data =>
      sockfd ← get_ OutOfBounds (client s !! i);
      match data with
      | [] => client_done i nready rset (drop_client i sockfd s)
      | _ => Ok (set_pc (Writing i nready rset data) (set_conns (alter (got data) sockfd (conns s)) s))
      end
  | Receiving _ _ _, ARecvError => Fault OutOfBounds
  | Writing i nready rset ptr, ASend a =>
      sockfd ← get_ OutOfBounds (client s !! i);
      let s := set_conns (alter (put (taken a ptr)) sockfd (conns s)) s in
      match writen_round a ptr with
      | More ptr => Ok (set_pc (Writing i nready rset ptr) s)
      | Returned complete =>
          client_done i nready rset (if complete then s else set_conns (alter fail sockfd (conns s)) s)
      end
  | _, _ => Ok s
  end.

Context `{!FdSetLaws FS}.

(** What the kernel may answer; no [accept] or [recv] fails for another reason
    than an aborted connection. *)
Definition select_enabled (a : answer) (s : server) : Prop :=
  match pc s, a with
  | Selecting, ASelect nready rset =>
      members rset ⊆ members (allset s) /\ members rset <> ∅ /\ nready = Z.of_nat (size (members rset))
  | Accepting _ _, AAccept connfd => (0 <= connfd)%Z /\ connfd <> listenfd s /\ conns s !! connfd = None
  | Accepting _ _, AAborted => True
  | Receiving _ _ _, ARecv data => length data <= 1024
  | Writing _ _ _ ptr, ASend a => send_fits a ptr
  | _, _ => False
  end.

Inductive select_reach (s0 : server) : server -> Prop :=
  | select_start : select_reach s0 s0
  | select_next s a s' : select_reach s0 s -> select_enabled a s -> select_step a s = Ok s' -> select_reach s0 s'.

(** ** The table *)

Implicit Types (s : server).

(** The sockets of the table that are ready. *)
Definition ready (rset : FS) (client : list Z) : list Z :=
  filter (fun fd => (0 <= fd)%Z /\ fd ∈ members rset) client.

Definition open_entries (client : list Z) : list Z := filter (fun fd => (0 <= fd)%Z) client.

(** A socket is in one entry of the table at most. *)
Definition distinct (client : list Z) : Prop :=
  forall i j fd, client !! i = Some fd -> client !! j = Some fd -> (0 <= fd)%Z -> i = j.

Lemma scan_finds n i rset (cs : list Z) :
  ready rset (drop i cs) <> [] ->
  (forall j fd, cs !! j = Some fd -> (0 <= fd)%Z -> j < i + n) ->
  exists k fd, scan n i rset cs = Ok (Some k) /\ cs !! k = Some fd /\ (0 <= fd)%Z /\ fd ∈ members rset
    /\ ready rset (drop i cs) = fd :: ready rset (drop (k + 1) cs).
Proof.
  revert i; induction n as [|n IH]; intros i Hr Hj.
  - exfalso. destruct (ready rset (drop i cs)) as [|fd l] eqn:E; [done|].
    assert (Hin : fd ∈ ready rset (drop i cs)) by (rewrite E; left). apply list_elem_of_filter in Hin as [[H0 _] Hin].
    apply list_elem_of_lookup in Hin as [j Hjl]. rewrite lookup_drop in Hjl. specialize (Hj _ _ Hjl H0). lia.
  - destruct (cs !! i) as [fd|] eqn:Ei; [|apply lookup_ge_None in Ei; by rewrite drop_ge in Hr].
    cbn [scan]. rewrite Ei. run_res. unfold ready in *. rewrite (drop_S _ _ _ Ei) in *. replace (S i) with (i + 1) in * by lia.
    rewrite filter_cons in *. destruct (Z.ltb_spec fd 0) as [Hneg|Hpos].
    + rewrite decide_False in * by (intros [? _]; lia). apply IH; [done|]. intros j fd' Hjl H0. specialize (Hj _ _ Hjl H0). lia.
    + destruct (FD_ISSET fd rset) eqn:Eset.
      * apply isset_law in Eset. exists i, fd. rewrite decide_True by done. done.
      * assert (Hn : fd ∉ members rset) by (rewrite <- isset_law; by rewrite Eset).
        rewrite decide_False in * by (by intros [_ ?]). apply IH; [done|]. intros j fd' Hjl H0. specialize (Hj _ _ Hjl H0). lia.
Qed.

Lemma free_entry_spec (cs : list Z) :
  (free_entry cs = length cs /\ open_entries cs = cs)
  \/ exists fd, cs !! free_entry cs = Some fd /\ (fd < 0)%Z /\ length (open_entries cs) < length cs.
Proof.
  unfold open_entries. induction cs as [|fd cs IH]; [by left|]. cbn [free_entry length]. rewrite filter_cons.
  destruct (Z.ltb_spec fd 0).
  - right. exists fd. rewrite decide_False by lia. split; [done|]. split; [done|]. pose proof (length_filter (fun fd => (0 <= fd)%Z) cs). lia.
  - rewrite decide_True by done. destruct IH as [[-> ->]|(x & Hx & Hn & Hl)]; [by left|]. right. exists x. simpl. split_and!; [done..|lia].
Qed.

(** Changing an entry that a filter leaves out. *)
Lemma filter_insert_out (P : Z -> Prop) `{!forall x, Decision (P x)} (cs : list Z) i x y :
  cs !! i = Some x -> ~ P x -> ~ P y -> filter P (<[i := y]> cs) = filter P cs.
Proof.
  intros Hi Hx Hy. rewrite insert_take_drop by (by eapply lookup_lt_Some).
  rewrite <- (take_drop_middle cs i x Hi) at 3. by rewrite !filter_app, !filter_cons, !decide_False.
Qed.

Lemma filter_insert_in (P : Z -> Prop) `{!forall x, Decision (P x)} (cs : list Z) i x y :
  cs !! i = Some x -> ~ P x -> P y -> length (filter P (<[i := y]> cs)) = S (length (filter P cs)).
Proof.
  intros Hi Hx Hy. rewrite insert_take_drop by (by eapply lookup_lt_Some).
  rewrite <- (take_drop_middle cs i x Hi) at 3. rewrite !filter_app, !filter_cons, decide_True, decide_False by done.
  rewrite !length_app. simpl. lia.
Qed.

Lemma filter_insert_away (P : Z -> Prop) `{!forall x, Decision (P x)} (cs : list Z) i x y :
  cs !! i = Some x -> P x -> ~ P y -> S (length (filter P (<[i := y]> cs))) = length (filter P cs).
Proof.
  intros Hi Hx Hy. rewrite insert_take_drop by (by eapply lookup_lt_Some).
  rewrite <- (take_drop_middle cs i x Hi) at 3. rewrite !filter_app, !filter_cons, decide_False, decide_True by done.
  rewrite !length_app. simpl. lia.
Qed.

Lemma distinct_insert (cs : list Z) i fd :
  distinct cs -> fd ∉ cs \/ (fd < 0)%Z -> distinct (<[i := fd]> cs).
Proof.
  intros Hd Hfd j k x Hj Hk Hx. apply list_lookup_insert_Some in Hj, Hk.
  assert (Hno : forall n, cs !! n = Some fd -> (0 <= fd)%Z -> False).
  { intros n Hn H0. destruct Hfd as [Hfd|]; [|lia]. apply Hfd. by eapply list_elem_of_lookup_2. }
  destruct Hj as [(Hij & Ej & _)|[Hij Hj]], Hk as [(Hik & Ek & _)|[Hik Hk]]; subst; try done;
    [by destruct (Hno k)|by destruct (Hno j)|by eapply Hd].
Qed.

Lemma ready_size rset (cs : list Z) l :
  distinct cs -> l ∉ open_entries cs ->
  (forall fd, fd ∈ members rset -> fd = l \/ (0 <= fd)%Z /\ fd ∈ cs) ->
  size (members rset) = (if decide (l ∈ members rset) then 1 else 0) + length (ready rset cs).
Proof.
  intros Hd Hnl Hr.
  assert (Hnd : NoDup (ready rset cs)).
  { unfold ready. clear -Hd. induction cs as [|fd cs IH]; [constructor|]. rewrite filter_cons.
    assert (IH' : NoDup (filter (fun fd => (0 <= fd)%Z /\ fd ∈ members rset) cs))
      by (apply IH; intros i j x Hi Hj Hx; by injection (Hd (S i) (S j) x Hi Hj Hx)).
    case_decide as Hc; [|done]. apply NoDup_cons. split; [|done]. intros [_ Hin]%list_elem_of_filter.
    apply list_elem_of_lookup in Hin as [j Hj]. by specialize (Hd 0 (S j) fd eq_refl Hj (proj1 Hc)). }
  assert (Hl : l ∉ ready rset cs).
  { intros [[H0 _] Hin]%list_elem_of_filter. apply Hnl. by apply list_elem_of_filter. }
  rewrite <- (size_list_to_set (C := gset Z) _ Hnd).
  assert (Hin : forall fd, fd ∈ ready rset cs <-> fd ∈ members rset /\ (0 <= fd)%Z /\ fd ∈ cs)
    by (intros fd; unfold ready; rewrite list_elem_of_filter; tauto).
  case_decide as Hm.
  - rewrite <- (size_singleton (C := gset Z) l), <- size_union by set_solver. f_equal. apply set_eq. intros fd.
    rewrite elem_of_union, elem_of_list_to_set, elem_of_singleton, Hin. split.
    + intros Hfd. destruct (Hr fd Hfd); auto.
    + intros [->|[? _]]; done.
  - simpl. f_equal. apply set_eq. intros fd. rewrite elem_of_list_to_set, Hin. split; [|by intros [? _]].
    intros Hfd. destruct (Hr fd Hfd) as [->|]; done.
Qed.

(** ** The invariant *)

Record table_ok s : Prop := {
  tk_len : length (client s) = FD_SETSIZE;
  tk_entry : forall i fd, client s !! i = Some fd -> (0 <= fd)%Z ->
    is_Some (conns s !! fd) /\ fd <> listenfd s /\ (Z.of_nat i <= maxi s)%Z;
  tk_distinct : distinct (client s);
  tk_set : forall fd, fd ∈ members (allset s) -> fd = listenfd s \/ (0 <= fd)%Z /\ fd ∈ client s;
  tk_listen : listenfd s ∈ members (allset s);
  tk_count : length (open_entries (client s)) <= size (members (allset s))
}.

(** What a write in progress still owes to a client. *)
Definition unsent (fd : Z) s : bytes :=
  match pc s with
  | Writing i _ _ ptr => if decide (client s !! i = Some fd) then ptr else []
  | _ => []
  end.

Definition echo_ok s : Prop :=
  forall fd c, conns s !! fd = Some c -> s_broken c = false -> s_in c = s_out c ++ unsent fd s.

(** [nready] counts the ready sockets that the scan has not reached. *)
Definition serving_entry (i : nat) (nready : Z) (rset : FS) s : Prop :=
  exists fd, client s !! i = Some fd /\ (0 <= fd)%Z /\ fd ∈ members rset
    /\ nready = Z.of_nat (length (ready rset (drop i (client s)))).

Definition place_ok s : Prop :=
  match pc s with
  | Selecting => True
  | Accepting nready rset => nready = Z.of_nat (size (members rset)) /\ listenfd s ∈ members rset
      /\ members rset ⊆ members (allset s)
  | Receiving i nready rset => serving_entry i nready rset s
  | Writing i nready rset ptr => serving_entry i nready rset s /\ ptr <> []
  end.

Definition select_inv s : Prop := table_ok s /\ echo_ok s /\ place_ok s.

(** Between two clients. *)
Definition between (i : nat) (rset : FS) s (p : place) : Prop :=
  match p with
  | Selecting => ready rset (drop i (client s)) = []
  | Receiving k nready rset' => rset' = rset /\ serving_entry k nready rset s
  | _ => False
  end.

Lemma table_set_pc p s : table_ok s -> table_ok (set_pc p s).
Proof. by intros []. Qed.

Lemma between_inv i rset s p : table_ok s -> echo_ok (set_pc Selecting s) -> between i rset s p -> select_inv (set_pc p s).
Proof.
  intros Ht He Hb. split; [by apply table_set_pc|]. destruct p; try done. destruct Hb as [-> Hb]. split; [exact He|exact Hb].
Qed.

Lemma next_client_ok i (nready : Z) rset s :
  table_ok s -> nready = Z.of_nat (length (ready rset (drop i (client s)))) -> (0 < nready)%Z ->
  exists p, next_client i nready rset s = Ok (set_pc p s) /\ between i rset s p.
Proof.
  intros Ht -> Hpos. destruct (scan_finds (Z.to_nat (maxi s + 1) - i) i rset (client s)) as (k & fd & E & Hk & H0 & Hm & Hr).
  - intros E. rewrite E in Hpos. simpl in Hpos. lia.
  - intros j fd Hj H0. destruct (tk_entry s Ht j fd Hj H0) as (_ & _ & Hmax). lia.
  - unfold next_client. rewrite E. eexists. split; [done|]. split; [done|]. exists fd. split_and!; [done..|].
    rewrite Hr, (drop_S _ _ _ Hk). unfold ready. rewrite filter_cons, decide_True by done.
    replace (k + 1) with (S k) by lia. done.
Qed.

Lemma after_client_ok i (nready : Z) rset s :
  table_ok s -> nready = Z.of_nat (length (ready rset (drop i (client s)))) ->
  exists p, (if (nready <=? 0)%Z then Ok (set_pc Selecting s) else next_client i nready rset s) = Ok (set_pc p s)
    /\ between i rset s p.
Proof.
  intros Ht E. destruct (Z.leb_spec nready 0); [|by apply next_client_ok]. exists Selecting. split; [done|]. simpl.
  apply length_zero_iff_nil. lia.
Qed.

(** ** One call *)

Lemma entry_ready i (nready : Z) rset s :
  serving_entry i nready rset s -> (nready - 1)%Z = Z.of_nat (length (ready rset (drop (i + 1) (client s)))).
Proof.
  intros (fd & Hi & H0 & Hm & ->). rewrite (drop_S _ _ _ Hi). unfold ready at 1. rewrite filter_cons, decide_True by done.
  replace (S i) with (i + 1) by lia. cbn [length]. fold (ready rset (drop (i + 1) (client s))). lia.
Qed.

Lemma selected (nready : Z) rset s :
  select_inv s -> pc s = Selecting -> select_enabled (ASelect nready rset) s ->
  exists p, select_step (ASelect nready rset) s = Ok (set_pc p s) /\ select_inv (set_pc p s) /\ p <> Selecting.
Proof.
  intros (Ht & He & _) Hpc. unfold select_enabled, select_step. rewrite Hpc. intros (Hsub & Hne & Hn).
  assert (He' : echo_ok (set_pc Selecting s)) by (intros fd c Hc Hb; rewrite (He fd c Hc Hb); unfold unsent; by rewrite Hpc).
  destruct (FD_ISSET (listenfd s) rset) eqn:El.
  - exists (Accepting nready rset). split; [done|]. split; [|done]. split; [by apply table_set_pc|]. split; [exact He'|].
    split; [done|]. split; [by apply isset_law|done].
  - assert (Hl : listenfd s ∉ members rset) by (rewrite <- isset_law; by rewrite El).
    assert (Hsz : size (members rset) = length (ready rset (client s))).
    { rewrite (ready_size rset (client s) (listenfd s)); [by rewrite decide_False|apply Ht| |].
      - intros [H0 [j Hj]%list_elem_of_lookup]%list_elem_of_filter. by destruct (tk_entry s Ht j _ Hj H0) as (_ & ? & _).
      - intros fd Hfd. apply (tk_set s Ht). by apply Hsub. }
    destruct (next_client_ok 0 nready rset s Ht) as (p & E & Hb); [by rewrite Hn, Hsz| |].
    + assert (size (members rset) <> 0) by (intros Hz; apply size_empty_inv in Hz; apply Hne; by apply leibniz_equiv). lia.
    + exists p. split; [exact E|]. split; [by eapply between_inv|]. intros ->. simpl in Hb. rewrite drop_0 in Hb.
      apply Hne. apply leibniz_equiv, size_empty_inv. by rewrite Hsz, Hb.
Qed.

(** The table after an [accept]. *)
Lemma add_table s connfd :
  table_ok s -> (0 <= connfd)%Z -> connfd <> listenfd s -> conns s !! connfd = None ->
  let i := free_entry (client s) in
  table_ok (mkServer (listenfd s) (<[i := connfd]> (client s)) (Z.max (maxi s) (Z.of_nat i)) (Z.max (maxfd s) connfd)
    (FD_SET connfd (allset s)) (pc s) (<[connfd := mkSock [] [] false]> (conns s)))
  /\ forall rset, members rset ⊆ members (allset s) -> ready rset (<[i := connfd]> (client s)) = ready rset (client s).
Proof.
  intros Ht H0 Hnl Hnew i.
  assert (Hnin : connfd ∉ client s).
  { intros [j Hj]%list_elem_of_lookup. destruct (tk_entry s Ht j _ Hj H0) as [[? ?] _]. congruence. }
  assert (Hnset : connfd ∉ members (allset s)) by (intros [?|[_ ?]]%(tk_set s Ht); done).
  assert (Hsz : size ({[ connfd ]} ∪ members (allset s)) = S (size (members (allset s))))
    by (rewrite size_union, size_singleton by set_solver; lia).
  pose proof (free_entry_spec (client s)) as Hfree. fold i in Hfree.
  assert (Hset : forall fd, fd ∈ members (FD_SET connfd (allset s)) -> fd = connfd /\ i < length (client s) \/ fd ∈ members (allset s)).
  { intros fd. rewrite set_law. case_decide as Hlt; [|by right]. intros [->%elem_of_singleton|?]%elem_of_union; [|by right].
    left. split; [done|]. destruct Hfree as [[_ Ho]|(x & Hx & _)]; [|by eapply lookup_lt_Some].
    exfalso. pose proof (tk_count s Ht) as Hc. rewrite Ho, (tk_len s Ht) in Hc. lia. }
  split.
  - split; cbn [client listenfd maxi allset conns].
    + rewrite length_insert. apply Ht.
    + intros j fd Hj Hfd. apply list_lookup_insert_Some in Hj as [(<- & <- & _)|[Hij Hj]].
      * split; [by rewrite lookup_insert_eq|]. split; [done|lia].
      * destruct (tk_entry s Ht j fd Hj Hfd) as (Hc & Hl & Hm). split; [|split; [done|lia]].
        rewrite lookup_insert_ne; [done|]. intros ->. apply Hnin. by eapply list_elem_of_lookup_2.
    + apply distinct_insert; [apply Ht|by left].
    + intros fd Hfd. apply Hset in Hfd as [[-> Hi]|Hfd].
      * right. split; [done|]. apply list_elem_of_lookup. exists i. by apply list_lookup_insert_eq.
      * destruct (tk_set s Ht fd Hfd) as [?|[Hp Hin]]; [by left|]. right. split; [done|].
        apply list_elem_of_lookup in Hin as [j Hj]. apply list_elem_of_lookup. exists j. rewrite list_lookup_insert_ne; [done|].
        intros ->. destruct Hfree as [[Hlen _]|(x & Hx & Hneg & _)]; [apply lookup_lt_Some in Hj; lia|]. rewrite Hj in Hx. injection Hx as ->. lia.
    + rewrite set_law. case_decide; [|apply Ht]. apply elem_of_union. right. apply Ht.
    + unfold open_entries. destruct Hfree as [[Hlen Ho]|(x & Hx & Hneg & Hlt)].
      * rewrite list_insert_ge by lia. rewrite set_law. pose proof (tk_count s Ht). unfold open_entries in *. case_decide; [rewrite Hsz|]; lia.
      * rewrite (filter_insert_in _ _ _ x) by (done || lia). rewrite set_law. pose proof (tk_count s Ht) as Hc. unfold open_entries in *.
        rewrite (tk_len s Ht) in Hlt. case_decide; [rewrite Hsz; lia|]. lia.
  - intros rset Hsub. unfold ready. destruct Hfree as [[Hlen _]|(x & Hx & Hneg & _)]; [by rewrite list_insert_ge by lia|].
    apply (filter_insert_out _ _ _ x); [done|lia|]. intros [_ Hin]. by apply Hnset, Hsub.
Qed.

Lemma accepted_client connfd s (nready : Z) rset :
  select_inv s -> pc s = Accepting nready rset -> select_enabled (AAccept connfd) s ->
  exists s' p, select_step (AAccept connfd) s = Ok (set_pc p s') /\ select_inv (set_pc p s') /\ between 0 rset s' p.
Proof.
  intros (Ht & He & Hp) Hpc. unfold place_ok in Hp. unfold select_enabled, select_step. rewrite Hpc in *.
  intros (H0 & Hnl & Hnew). destruct Hp as (Hn & Hl & Hsub). unfold add_client. rewrite (proj2 (Z.ltb_ge _ _) H0).
  destruct (add_table s connfd Ht H0 Hnl Hnew) as [Ht' Hr]. set (s' := mkServer _ _ _ _ _ _ _) in *.
  destruct (after_client_ok 0 (nready - 1) rset s' Ht') as (p & E & Hb).
  - rewrite drop_0. cbn [s' client]. rewrite (Hr rset Hsub), Hn.
    rewrite (ready_size rset (client s) (listenfd s)), decide_True; [lia|done|apply Ht| |].
    + intros [Hx [j Hj]%list_elem_of_lookup]%list_elem_of_filter. by destruct (tk_entry s Ht j _ Hj Hx) as (_ & ? & _).
    + intros fd Hfd. apply (tk_set s Ht). by apply Hsub.
  - exists s', p. split; [exact E|]. split; [|exact Hb]. apply (between_inv 0 rset); [done| |done].
    intros fd c. cbn [set_pc conns s']. unfold unsent. cbn [set_pc pc]. rewrite app_nil_r.
    destruct (decide (fd = connfd)) as [->|Hne]; [rewrite lookup_insert_eq; by intros [= <-]|].
    rewrite lookup_insert_ne by done. intros Hc Hbr. rewrite (He fd c Hc Hbr). unfold unsent. by rewrite Hpc, app_nil_r.
Qed.

(** The table after a client has closed. *)
Lemma drop_table i fd s : table_ok s -> client s !! i = Some fd -> (0 <= fd)%Z -> table_ok (drop_client i fd s).
Proof.
  intros Ht Hi H0. destruct (tk_entry s Ht i fd Hi H0) as (_ & Hnl & _).
  split; cbn [drop_client client listenfd maxi allset conns].
  - rewrite length_insert. apply Ht.
  - intros j x Hj Hx. apply list_lookup_insert_Some in Hj as [(_ & <- & _)|[Hij Hj]]; [lia|].
    destruct (tk_entry s Ht j x Hj Hx) as (Hc & Hl & Hm). split; [|done]. rewrite lookup_delete_ne; [done|].
    intros ->. apply Hij. by eapply (tk_distinct s Ht).
  - apply distinct_insert; [apply Ht|right; lia].
  - intros x. rewrite clr_law. intros [Hx Hne]%elem_of_difference. destruct (tk_set s Ht x Hx) as [?|[Hp Hin]]; [by left|].
    right. split; [done|]. apply list_elem_of_lookup in Hin as [j Hj]. apply list_elem_of_lookup. exists j.
    rewrite list_lookup_insert_ne; [done|]. intros ->. rewrite Hi in Hj. injection Hj as ->. set_solver.
  - rewrite clr_law. apply elem_of_difference. split; [apply Ht|]. set_solver.
  - pose proof (tk_count s Ht) as Hc. unfold open_entries in *.
    pose proof (filter_insert_away (fun fd => (0 <= fd)%Z) (client s) i fd (-1)%Z Hi H0 ltac:(cbv beta; lia)) as Hf.
    assert (Hsz : size (members (allset s)) <= S (size (members (FD_CLR fd (allset s))))); [|lia].
    rewrite clr_law. destruct (decide (fd ∈ members (allset s))).
    + rewrite size_difference, size_singleton by set_solver. lia.
    + rewrite difference_disjoint_L by set_solver. lia.
Qed.

Lemma received_nothing i (nready : Z) rset s :
  select_inv s -> pc s = Receiving i nready rset ->
  exists s' p, select_step (ARecv []) s = Ok (set_pc p s') /\ select_inv (set_pc p s') /\ between (i + 1) rset s' p.
Proof.
  intros (Ht & He & Hp) Hpc. unfold place_ok in Hp. unfold select_step. rewrite Hpc in *.
  pose proof (entry_ready _ _ _ _ Hp) as Hn. destruct Hp as (fd & Hi & H0 & _ & _). rewrite Hi. run_res. unfold client_done.
  destruct (after_client_ok (i + 1) (nready - 1) rset (drop_client i fd s)) as (p & E & Hb).
  - by apply drop_table.
  - cbn [drop_client client]. by rewrite drop_insert_lt by lia.
  - exists (drop_client i fd s), p. split; [exact E|]. split; [|exact Hb]. eapply between_inv; [by apply drop_table| |done].
    intros x c. cbn [set_pc drop_client conns]. intros [Hne Hc]%lookup_delete_Some Hbr.
    rewrite (He x c Hc Hbr). unfold unsent. by rewrite Hpc.
Qed.

Lemma table_alter f fd s : table_ok s -> table_ok (set_conns (alter f fd (conns s)) s).
Proof.
  intros Ht. split; try apply Ht. intros i x Hi Hx. cbn [set_conns conns client listenfd maxi].
  destruct (tk_entry s Ht i x Hi Hx) as (Hc & Hl). split; [|done]. by apply lookup_alter_is_Some.
Qed.

(** An entry holds the only pointer to its socket. *)
Lemma unsent_other i fd x (nready : Z) rset ptr s :
  client s !! i = Some fd -> x <> fd -> unsent x (set_pc (Writing i nready rset ptr) s) = [].
Proof. intros Hi Hne. unfold unsent. cbn [set_pc pc client]. rewrite decide_False; [done|]. congruence. Qed.

Lemma received_data i (nready : Z) rset s d :
  select_inv s -> pc s = Receiving i nready rset -> d <> [] ->
  exists s', select_step (ARecv d) s = Ok s' /\ select_inv s' /\ pc s' = Writing i nready rset d.
Proof.
  intros (Ht & He & Hp) Hpc Hd. unfold place_ok in Hp. unfold select_step. rewrite Hpc in *.
  pose proof Hp as (fd & Hi & H0 & Hm & Hn). rewrite Hi. run_res. destruct d as [|x d]; [done|].
  eexists. split; [reflexivity|]. split; [|done]. split; [by apply table_set_pc, table_alter|]. split; [|split; [exact Hp|done]].
  intros y c. cbn [set_pc set_conns conns]. destruct (decide (y = fd)) as [->|Hne].
  - rewrite lookup_alter_eq. destruct (conns s !! fd) as [c0|] eqn:Hc0; [|done]. intros [= <-] Hbr. cbn [got s_in s_out].
    rewrite (He fd c0 Hc0 Hbr). unfold unsent. cbn [set_pc pc set_conns client]. rewrite Hpc, app_nil_r, decide_True by done. done.
  - rewrite lookup_alter_ne by done. intros Hc Hbr. rewrite (unsent_other i fd), app_nil_r by done.
    rewrite (He y c Hc Hbr). unfold unsent. by rewrite Hpc, app_nil_r.
Qed.

Lemma sent_data i (nready : Z) rset ptr s a :
  select_inv s -> pc s = Writing i nready rset ptr -> send_fits a ptr ->
  exists s', select_step (ASend a) s = Ok s' /\ select_inv s'
    /\ (match pc s' with Writing j _ rset' _ => j = i /\ rset' = rset | _ => between (i + 1) rset s' (pc s') end).
Proof.
  intros (Ht & He & Hp) Hpc Hfit. unfold place_ok in Hp. unfold select_step. rewrite Hpc in *. destruct Hp as [Hp Hptr].
  pose proof (entry_ready _ _ _ _ Hp) as Hn. pose proof Hp as (fd & Hi & H0 & Hm & _). rewrite Hi. run_res.
  pose proof (writen_round_spec a ptr Hfit Hptr) as Hw.
  assert (Hold : forall c, conns s !! fd = Some c -> s_broken c = false -> s_in c = s_out c ++ ptr).
  { intros c Hc Hbr. rewrite (He fd c Hc Hbr). unfold unsent. by rewrite Hpc, decide_True. }
  assert (Hothers : forall y c, y <> fd -> conns s !! y = Some c -> s_broken c = false -> s_in c = s_out c).
  { intros y c Hne Hc Hbr. rewrite (He y c Hc Hbr). unfold unsent. rewrite Hpc, decide_False, app_nil_r; [done|congruence]. }
  destruct (writen_round a ptr) as [rest|complete].
  - eexists. split; [reflexivity|]. cbn [set_pc pc]. split; [|done]. split; [by apply table_set_pc, table_alter|].
    split; [|split; [exact Hp|apply Hw]]. intros y c. cbn [set_pc set_conns conns]. destruct (decide (y = fd)) as [->|Hne].
    + rewrite lookup_alter_eq. destruct (conns s !! fd) as [c0|] eqn:Hc0; [|done]. intros [= <-] Hbr. cbn [put s_in s_out].
      unfold unsent. cbn [set_pc pc set_conns client]. rewrite decide_True, <- app_assoc by done. destruct Hw as [_ <-]. by apply Hold.
    + rewrite lookup_alter_ne by done. intros Hc Hbr. rewrite (unsent_other i fd), app_nil_r by done. by apply (Hothers y).
  - set (s1 := if complete then _ else _).
    assert (H1 : table_ok s1 /\ client s1 = client s /\ echo_ok (set_pc Selecting s1)).
    { unfold s1. destruct complete.
      - split; [by apply table_alter|]. split; [done|]. intros y c. cbn [set_pc set_conns conns]. unfold unsent. cbn [set_pc pc].
        rewrite app_nil_r. destruct (decide (y = fd)) as [->|Hne].
        + rewrite lookup_alter_eq. destruct (conns s !! fd) as [c0|] eqn:Hc0; [|done]. intros [= <-] Hbr. cbn [put s_in s_out].
          rewrite <- Hw. by apply Hold.
        + rewrite lookup_alter_ne by done. by apply Hothers.
      - split; [by apply (table_alter fail), table_alter|]. split; [done|]. intros y c. cbn [set_pc set_conns conns]. unfold unsent.
        cbn [set_pc pc]. rewrite app_nil_r. destruct (decide (y = fd)) as [->|Hne].
        + rewrite !lookup_alter_eq. destruct (conns s !! fd) as [c0|] eqn:Hc0; [|done]. by intros [= <-].
        + rewrite !lookup_alter_ne by done. by apply Hothers. }
    clearbody s1. destruct H1 as (Ht1 & Ec & He1). unfold client_done.
    destruct (after_client_ok (i + 1) (nready - 1) rset s1 Ht1) as (p & E & Hb); [by rewrite Ec|].
    exists (set_pc p s1). split; [exact E|]. split; [by eapply between_inv|]. destruct p; done.
Qed.

Lemma select_step_ok a s :
  select_inv s -> select_enabled a s -> exists s', select_step a s = Ok s' /\ select_inv s'.
Proof.
  intros Hi Hen. destruct (pc s) as [|nready rset|i nready rset|i nready rset ptr] eqn:Hpc.
  - destruct a; try (by unfold select_enabled in Hen; rewrite Hpc in Hen).
    destruct (selected _ _ s Hi Hpc Hen) as (p & E & Hp & _). by exists (set_pc p s).
  - destruct a; try (by unfold select_enabled in Hen; rewrite Hpc in Hen).
    + destruct (accepted_client _ s _ _ Hi Hpc Hen) as (s' & p & E & Hp & _). by exists (set_pc p s').
    + exists s. unfold select_step. by rewrite Hpc.
  - destruct a as [| | |[|x d]| |]; try (by unfold select_enabled in Hen; rewrite Hpc in Hen).
    + destruct (received_nothing _ _ _ s Hi Hpc) as (s' & p & E & Hp & _). by exists (set_pc p s').
    + destruct (received_data _ _ _ s (x :: d) Hi Hpc) as (s' & E & Hp & _); [done|]. by exists s'.
  - destruct a; try (by unfold select_enabled in Hen; rewrite Hpc in Hen).
    unfold select_enabled in Hen. rewrite Hpc in Hen.
    destruct (sent_data _ _ _ _ s _ Hi Hpc Hen) as (s' & E & Hp & _). by exists s'.
Qed.

Lemma select_start_inv fd : (0 <= fd)%Z -> select_inv (start_server fd).
Proof.
  intros H0. assert (Hset : members (FD_SET fd FD_ZERO) = {[ fd ]}).
  { rewrite set_law, zero_law, size_empty, decide_True by apply setsize_pos. set_solver. }
  split; [|split; [|done]].
  - split; cbn [start_server client listenfd maxi allset conns].
    + apply length_replicate.
    + intros i x [-> _]%lookup_replicate Hx. lia.
    + intros i j x [-> _]%lookup_replicate _ Hx. lia.
    + rewrite Hset. intros x ->%elem_of_singleton. by left.
    + rewrite Hset. set_solver.
    + rewrite Hset, size_singleton. unfold open_entries.
      assert (Hnil : forall n, filter (fun x => (0 <= x)%Z) (replicate n (-1)%Z) = []) by (induction n; done). rewrite Hnil. simpl. lia.
  - intros x c. cbn [start_server conns]. by rewrite lookup_empty.
Qed.

Lemma select_reach_inv fd s : (0 <= fd)%Z -> select_reach (start_server fd) s -> select_inv s.
Proof.
  intros H0 Hr. induction Hr as [|s a s' _ IH Hen E]; [by apply select_start_inv|].
  destruct (select_step_ok a s IH Hen) as (s2 & E2 & Hi). rewrite E in E2. by injection E2 as ->.
Qed.

(** C32: however many clients come and go, while no [recv] fails and no [accept]
    but for a connection that was aborted, the [select] server never reads outside
    its table, echoes to every client exactly what it received, in order, as
    long as no [send] to it failed, listens only to sockets of its table and always
    to the listening one, with at most one client of the table that it does not
    listen to; and it goes back to [select] only when every client of the table
    that was ready has been served. A client accepted while the table is full is
    in no entry: nothing is received from it. *)
Theorem select_echoes fd s :
  (0 <= fd)%Z -> select_reach (start_server fd) s ->
  (forall a, select_enabled a s -> exists s', select_step a s = Ok s')
  /\ (forall x c, conns s !! x = Some c -> s_broken c = false -> s_in c = s_out c ++ unsent x s)
  /\ listenfd s ∈ members (allset s)
  /\ (forall x, x ∈ members (allset s) -> x = listenfd s \/ x ∈ client s)
  /\ length (open_entries (client s)) <= size (members (allset s) ∖ {[ listenfd s ]}) + 1
  /\ (forall a s' i nready rset,
        select_enabled a s -> select_step a s = Ok s' -> pc s' = Selecting ->
        (pc s = Accepting nready rset -> ready rset (client s') = [])
        /\ (pc s = Receiving i nready rset \/ (exists ptr, pc s = Writing i nready rset ptr) ->
             ready rset (drop (i + 1) (client s')) = [])).
Proof.
  intros H0 Hr. pose proof (select_reach_inv fd s H0 Hr) as Hi. pose proof Hi as (Ht & He & _). split; [|split; [exact He|split; [apply Ht|split; [|split]]]].
  - intros a Hen. destruct (select_step_ok a s Hi Hen) as (s' & E & _). by exists s'.
  - intros x Hx. destruct (tk_set s Ht x Hx) as [?|[_ ?]]; auto.
  - pose proof (tk_count s Ht) as Hc. rewrite size_difference, size_singleton by (pose proof (tk_listen s Ht); set_solver). lia.
  - intros a s' i nready rset Hen E Hsel. split.
    + intros Hpc. destruct a; try (by unfold select_enabled in Hen; rewrite Hpc in Hen).
      * destruct (accepted_client _ s _ _ Hi Hpc Hen) as (s1 & p & E1 & _ & Hb). rewrite E in E1. injection E1 as ->.
        cbn [set_pc pc] in Hsel. subst p. simpl in Hb. by rewrite drop_0 in Hb.
      * unfold select_step in E. rewrite Hpc in E. injection E as <-. congruence.
    + intros [Hpc|[ptr Hpc]].
      * destruct a as [| | |[|x d]| |]; try (by unfold select_enabled in Hen; rewrite Hpc in Hen).
        -- destruct (received_nothing _ _ _ s Hi Hpc) as (s1 & p & E1 & _ & Hb). rewrite E in E1. injection E1 as ->.
           cbn [set_pc pc] in Hsel. by subst p.
        -- destruct (received_data _ _ _ s (x :: d) Hi Hpc) as (s1 & E1 & _ & Hp); [done|]. congruence.
      * destruct a; try (by unfold select_enabled in Hen; rewrite Hpc in Hen). unfold select_enabled in Hen. rewrite Hpc in Hen.
        destruct (sent_data _ _ _ _ s _ Hi Hpc Hen) as (s1 & E1 & _ & Hb). rewrite E in E1. injection E1 as <-. by rewrite Hsel in Hb.
Qed.

(** ** Beyond the size of a set *)

(** A connection that is not in the set, nor in the answer being looked at. *)
Definition starving (x : Z) s : Prop :=
  x <> listenfd s /\ is_Some (conns s !! x) /\ x ∉ members (allset s)
  /\ match pc s with
     | Selecting => True
     | Accepting _ rset | Receiving _ _ rset | Writing _ _ rset _ => x ∉ members rset
     end.

Lemma next_client_pc i (nready : Z) rset s s' :
  next_client i nready rset s = Ok s' ->
  exists p, s' = set_pc p s /\ (p = Selecting \/ exists k, p = Receiving k nready rset).
Proof. unfold next_client. intros E. inv_res. eexists. split; [done|]. destruct a; eauto. Qed.

Lemma client_done_pc i (nready : Z) rset s s' :
  client_done i nready rset s = Ok s' ->
  exists p, s' = set_pc p s /\ (p = Selecting \/ exists k n, p = Receiving k n rset).
Proof.
  unfold client_done. destruct (_ <=? 0)%Z; [intros [= <-]; exists Selecting; auto|].
  intros (p & -> & Hp)%next_client_pc. exists p. destruct Hp as [->|[k ->]]; eauto 10.
Qed.

Lemma starving_pc x s s' p rset :
  starving x s -> x ∉ members rset -> s' = set_pc p s ->
  p = Selecting \/ (exists n, p = Accepting n rset) \/ (exists k n, p = Receiving k n rset)
  \/ (exists k n ptr, p = Writing k n rset ptr) -> starving x s'.
Proof.
  intros (Hl & Hc & Hx & _) Hr -> Hp. split_and!; [done..|]. cbn [set_pc pc].
  destruct Hp as [->|[[? ->]|[(? & ? & ->)|(? & ? & ? & ->)]]]; done.
Qed.

Lemma starving_step x a s s' :
  select_inv s -> starving x s -> select_enabled a s -> select_step a s = Ok s' ->
  starving x s' /\ conns s' !! x = conns s !! x.
Proof.
  intros (Ht & _ & Hplace) Hs Hen E. pose proof Hs as (Hl & Hc & Hx & Hr). unfold select_enabled, select_step, place_ok in *.
  destruct (pc s) as [|nready rset|i nready rset|i nready rset ptr] eqn:Hpc; destruct a as [n rset1|connfd| |d| |sa]; try done.
  - destruct Hen as (Hsub & _). assert (Hx1 : x ∉ members rset1) by set_solver. destruct (FD_ISSET _ _).
    + injection E as <-. split; [|done]. eapply (starving_pc x s _ _ rset1); eauto.
    + apply next_client_pc in E as (p & -> & Hp). split; [|done]. eapply (starving_pc x s _ _ rset1); [done..|].
      destruct Hp as [->|[k ->]]; eauto 10.
  - destruct Hen as (H0 & Hnl & Hnew). unfold add_client in E. rewrite (proj2 (Z.ltb_ge _ _) H0) in E.
    set (s1 := mkServer _ _ _ _ _ _ _) in E.
    assert (Hne : x <> connfd) by (intros ->; destruct Hc; congruence).
    assert (H1 : starving x s1 /\ conns s1 !! x = conns s !! x).
    { cbn [s1 conns]. rewrite lookup_insert_ne by done. split; [|done]. split_and!; cbn [s1 listenfd conns allset pc]; try done.
      - by rewrite lookup_insert_ne.
      - rewrite set_law. case_decide; set_solver.
      - by rewrite Hpc. }
    destruct H1 as [H1 Ec]. destruct (_ <=? 0)%Z.
    + injection E as <-. split; [|exact Ec]. eapply (starving_pc x s1 _ _ rset); eauto.
    + apply next_client_pc in E as (p & -> & Hp). split; [|exact Ec]. eapply (starving_pc x s1 _ _ rset); [done..|].
      destruct Hp as [->|[k ->]]; eauto 10.
  - injection E as <-. done.
  - destruct Hplace as (fd & Hi & H0 & Hm & _). rewrite Hi in E. cbn [get_ mbind res_bind] in E.
    assert (Hne : fd <> x) by (by intros ->). destruct d as [|y d].
    + apply client_done_pc in E as (p & -> & Hp). cbn [set_pc drop_client conns]. rewrite lookup_delete_ne by done. split; [|done].
      eapply (starving_pc x (drop_client i fd s) _ _ rset); [|done|done|destruct Hp as [->|(? & ? & ->)]; eauto 10].
      split_and!; cbn [drop_client listenfd conns allset pc]; try done; [by rewrite lookup_delete_ne|rewrite clr_law; set_solver|by rewrite Hpc].
    + injection E as <-. cbn [set_pc set_conns conns]. rewrite lookup_alter_ne by done. split; [|done].
      split_and!; cbn [set_pc set_conns listenfd conns allset pc]; try done. by rewrite lookup_alter_ne.
  - destruct Hplace as [(fd & Hi & H0 & Hm & _) _]. rewrite Hi in E. cbn [get_ mbind res_bind] in E.
    assert (Hne : fd <> x) by (by intros ->). destruct (writen_round sa ptr) as [rest|complete].
    + injection E as <-. cbn [set_pc set_conns conns]. rewrite lookup_alter_ne by done. split; [|done].
      split_and!; cbn [set_pc set_conns listenfd conns allset pc]; try done. by rewrite lookup_alter_ne.
    + apply client_done_pc in E as (p & -> & Hp). set (s1 := if complete then _ else _).
      assert (H1 : starving x s1 /\ conns s1 !! x = conns s !! x).
      { unfold s1, starving. destruct complete; cbn [set_conns conns listenfd allset pc]; rewrite !lookup_alter_ne, Hpc by done; done. }
      split; [|apply H1]. eapply (starving_pc x s1 _ _ rset); [apply H1|done|done|destruct Hp as [->|(? & ? & ->)]; eauto 10].
Qed.

(** when a set is full, [FD_SET] does nothing: a client that is accepted
    then stays connected and is never served, whatever happens later. *)
Theorem select_starves fd s x s' :
  (0 <= fd)%Z -> select_reach (start_server fd) s -> starving x s -> select_reach s s' ->
  x ∉ members (allset s') /\ conns s' !! x = conns s !! x.
Proof.
  intros H0 Hr Hs Hr'. enough (select_inv s' /\ starving x s' /\ conns s' !! x = conns s !! x) as (_ & (_ & _ & Hx & _) & Ec) by done.
  induction Hr' as [|s1 a s2 _ (Hi & Hs1 & Ec) Hen E]; [split; [by eapply select_reach_inv|done]|].
  destruct (select_step_ok a s1 Hi Hen) as (s3 & E3 & Hi3). rewrite E in E3. injection E3 as <-.
  destruct (starving_step x a s1 s2 Hi Hs1 Hen E) as [Hs2 Ec2]. by rewrite Ec2.
Qed.
End SelectServer.

(** ** Concrete runs *)

#[export] Instance writen_state_eq_dec : EqDecision writen_state.
Proof. solve_decision. Defined.

#[export] Instance send_fits_dec a ptr : Decision (send_fits a ptr).
Proof. destruct a; simpl; apply _. Defined.

#[export] Instance select_enabled_dec {FS : Type} `{!FdSets FS, !FdSetLaws FS} (a : answer (FS := FS)) s : Decision (select_enabled a s).
Proof. unfold select_enabled. destruct (pc s), a; apply _. Defined.

(** Sets of 64 sockets, the default of winsock2.h. *)
Module SelectDemo.
#[export] Instance demo_sets : FdSets (gset Z) := {
  FD_SETSIZE := 64;
  FD_ZERO := ∅;
  FD_SET x s := if decide (size s < 64) then {[ x ]} ∪ s else s;
  FD_CLR x s := s ∖ {[ x ]};
  FD_ISSET x s := bool_decide (x ∈ s)
}.

#[export] Program Instance demo_laws : FdSetLaws (gset Z) := { members s := s }.
Next Obligation. simpl. lia. Qed.
Next Obligation. done. Qed.
Next Obligation. done. Qed.
Next Obligation. done. Qed.
Next Obligation. simpl. intros x s. apply bool_decide_eq_true. Qed.

Fixpoint run (answers : list (answer (FS := gset Z))) (s : server) : option server :=
  match answers with
  | [] => Some s
  | a :: answers =>
      if decide (select_enabled a s)
      then match select_step a s with Ok s => run answers s | Fault _ => None end else None
  end.

Lemma run_reach answers s0 s s' : select_reach s0 s -> run answers s = Some s' -> select_reach s0 s'.
Proof.
  revert s; induction answers as [|a answers IH]; intros s Hr; cbn [run]; [by intros [= <-]|].
  destruct (decide (select_enabled a s)) as [He|]; [|done]. destruct (select_step a s) as [s1|] eqn:E; [|done].
  apply IH. by eapply select_next.
Qed.

Definition after (answers : list (answer (FS := gset Z))) (s : server) : server :=
  match run answers s with Some s => s | None => s end.

Definition accepts (connfd : Z) : list (answer (FS := gset Z)) := [ASelect 1 {[ 3%Z ]}; AAccept connfd].

(** Two clients; the first sends two bytes, of which one is echoed so far. *)
Definition echo_run : list (answer (FS := gset Z)) :=
  accepts 5 ++ accepts 7 ++ [ASelect 2 {[ 5; 7 ]}%Z; ARecv (str "hi"); ASend (SSent 1)].
Definition echoing : server := after echo_run (start_server 3).

Lemma echoing_reach : select_reach (start_server 3) echoing.
Proof. apply (run_reach echo_run _ (start_server 3)); [constructor|vm_compute; reflexivity]. Qed.

Lemma select_echoes_witness :
  s_in <$> conns echoing !! 5%Z = Some (str "hi") /\ s_out <$> conns echoing !! 5%Z = Some (str "h")
  /\ unsent 5 echoing = str "i" /\ exists s', select_step (ASend (SSent 1)) echoing = Ok s' /\ pc s' = Receiving 1 1 {[ 5; 7 ]}%Z.
Proof.
  destruct (select_echoes 3 echoing) as (Hstep & He & _); [done|exact echoing_reach|].
  split; [vm_compute; reflexivity|]. split; [vm_compute; reflexivity|]. split.
  - assert (Hc : conns echoing !! 5%Z = Some (mkSock (str "hi") (str "h") false)) by (vm_compute; reflexivity).
    apply (app_inv_head (str "h")). symmetry. exact (He 5%Z _ Hc eq_refl).
  - destruct (Hstep (ASend (SSent 1))) as [s' E]; [vm_compute; lia|]. exists s'. split; [exact E|].
    vm_compute in E. by injection E as <-.
Defined.

(** 64 clients, and a first one that has sent something. *)
Definition crowd : list (answer (FS := gset Z)) := flat_map (fun n => accepts (100 + Z.of_nat n)%Z) (seq 0 64).
Definition crowded : server := after crowd (start_server 3).
Definition crowded_later : server :=
  after [ASelect 1 {[ 100%Z ]}; ARecv (str "x"); ASend (SSent 1)] crowded.

Lemma crowded_reach : select_reach (start_server 3) crowded.
Proof. apply (run_reach crowd _ (start_server 3)); [constructor|vm_compute; reflexivity]. Qed.

Lemma select_starves_witness :
  client crowded !! 63 = Some 163%Z /\ s_out <$> conns crowded_later !! 100%Z = Some (str "x")
  /\ 163%Z ∉ members (allset crowded_later) /\ s_in <$> conns crowded_later !! 163%Z = Some [].
Proof.
  split; [vm_compute; reflexivity|]. split; [vm_compute; reflexivity|].
  destruct (select_starves 3 crowded 163 crowded_later) as [Hn Hc]; [done|exact crowded_reach| | |].
  - split; [vm_compute; discriminate|]. split; [eexists; vm_compute; reflexivity|].
    split; [|vm_compute; exact I]. apply (bool_decide_unpack _). vm_compute. exact I.
  - apply (run_reach [ASelect 1 {[ 100%Z ]}; ARecv (str "x"); ASend (SSent 1)] _ crowded); [constructor|vm_compute; reflexivity].
  - split; [exact Hn|]. rewrite Hc. vm_compute. reflexivity.
Defined.
End SelectDemo.
