(* ===== verification/SelectClient.v ===== *)
(** * The line client: src/mstest/select_client.cpp

    [str_cli] sends the lines of its input one by one and prints what comes
    back. Then the client together with the [select] server. *)
From S2P Require Import Prelude.
From S2P Require Import StringPiece.
From S2P Require Import SelectServer.

(** ** Lines *)

Definition newline : ascii := "010"%char.

(** At most [n] characters, up to a newline: what [fgets] stores, and what
    [readline] takes of the bytes that [my_read] has in [read_buf]. *)
Fixpoint take_line (n : nat) (l : bytes) : bytes * bytes :=
  match n, l with
  | O, _ => ([], l)
  | _, [] => ([], [])
  | S n, c :: l =>
      if Ascii.eqb c newline then ([c], l)
      else let '(line, rest) := take_line n l in (c :: line, rest)
  end.

(** The text of a character array as [strlen] and [fputs] read it. *)
Definition c_text (array : bytes) : res bytes := n ← strlen array; Ok (take n array).

Definition maxlen : nat := 1024.

(** The loop of [readline] ends. *)
Definition line_ends (line : bytes) : bool :=
  bool_decide (last line = Some newline) || (length line =? maxlen - 1).

(** ** The client

    Where [str_cli] is: before [Fgets], in the [send] of [writen], in
    [readline] with [line] stored so far, there in the [recv] of [my_read], or at
    its end. *)
Inductive cli_place :=
  | CFgets
  | CWriting (ptr : bytes)
  | CReadline (line : bytes)
  | CRecv (line : bytes)
  | CEnd.

Record cli := mkCli {
  input : bytes;          (* what is left of [fp] *)
  c_pc : cli_place;
  read_buf : bytes;       (* from [read_ptr], [read_cnt] bytes *)
  recvline : bytes;       (* the whole array *)
  printed : bytes;
  c_sent : bytes;         (* what [send] took *)
  c_got : bytes           (* what [recv] gave *)
}.

Definition set_cpc (p : cli_place) (c : cli) : cli :=
  mkCli (input c) p (read_buf c) (recvline c) (printed c) (c_sent c) (c_got c).
Definition set_input (l : bytes) (c : cli) : cli :=
  mkCli l (c_pc c) (read_buf c) (recvline c) (printed c) (c_sent c) (c_got c).
Definition set_read_buf (l : bytes) (c : cli) : cli :=
  mkCli (input c) (c_pc c) l (recvline c) (printed c) (c_sent c) (c_got c).

(** [str_cli] on a file and a connection; the array starts with what was on the
    stack. *)
Definition start_cli (text stack : bytes) : cli := mkCli text CFgets [] stack [] [] [].

(** [Fputs(recvline, stdout)]. *)
Definition print_line (array : bytes) (c : cli) : res cli :=
  text ← c_text array;
  Ok (mkCli (input c) CFgets (read_buf c) array (printed c ++ text) (c_sent c) (c_got c)).

(** [line] and a terminating NUL at the front of the array. *)
Definition stored (line : bytes) (array : bytes) : bytes := line ++ nul :: drop (S (length line)) array.

(** [Fgets], [strlen] and the entry of [writen]. *)
Definition next_line (c : cli) : res cli :=
  match take_line (maxlen - 1) (input c) with
  | ([], _) => Ok (set_cpc CEnd c)
  | (sendline, rest) =>
      text ← c_text (sendline ++ [nul]);
      Ok (set_cpc (match writen_test text with More ptr => CWriting ptr | Returned _ => CReadline [] end)
            (set_input rest c))
  end.

(** [readline] as far as the bytes in [read_buf] go. *)
Definition read_line (line : bytes) (c : cli) : res cli :=
  let '(more, rest) := take_line (maxlen - 1 - length line) (read_buf c) in
  let line := line ++ more in
  let c := set_read_buf rest c in
  if line_ends line then print_line (stored line (recvline c)) c else Ok (set_cpc (CRecv line) c).

(** [my_read] failed or met the end of the stream. *)
Definition end_of_stream (line : bytes) (c : cli) : res cli :=
  if length line =? 0 then Ok (set_cpc CEnd c) else print_line (stored line (recvline c)) c.
Definition recv_failed (line : bytes) (c : cli) : res cli :=
  print_line (line ++ drop (length line) (recvline c)) c.

Inductive cli_answer :=
  | CRun                       (* no call of the kernel *)
  | CSend (a : send_answer)
  | CData (d : bytes)
  | CIntr                      (* [WSAEINTR] *)
  | CError.

Definition cli_step (a : cli_answer) (c : cli) : res cli :=
  match c_pc c, a with
  | CFgets, CRun => next_line c
  | CWriting ptr, CSend a =>
      let c := mkCli (input c) (c_pc c) (read_buf c) (recvline c) (printed c) (c_sent c ++ taken a ptr) (c_got c) in
      Ok (set_cpc (match writen_round a ptr with More ptr => CWriting ptr | Returned _ => CReadline [] end) c)
  | CReadline line, CRun => read_line line c
  | CRecv line, CData [] => end_of_stream line c
  | CRecv line, CData d =>
      Ok (mkCli (input c) (CReadline line) d (recvline c) (printed c) (c_sent c) (c_got c ++ d))
  | CRecv line, CIntr => Ok c
  | CRecv line, CError => recv_failed line c
  | _, _ => Ok c
  end.

(** The peer echoes: what arrives is a beginning of what was sent; the
    connection stays up. *)
Definition cli_enabled (a : cli_answer) (c : cli) : Prop :=
  match c_pc c, a with
  | CFgets, CRun | CReadline _, CRun | CRecv _, CIntr => True
  | CWriting ptr, CSend a => send_fits a ptr /\ writen_round a ptr <> Returned false
  | CRecv _, CData d => d <> [] /\ length d <= 1024 /\ (c_got c ++ d) `prefix_of` c_sent c
  | _, _ => False
  end.

Inductive cli_reach (c0 : cli) : cli -> Prop :=
  | cli_start : cli_reach c0 c0
  | cli_next c a c' : cli_reach c0 c -> cli_enabled a c -> cli_step a c = Ok c' -> cli_reach c0 c'.

(** ** Chunks of the input *)

Definition only_last (l : bytes) : Prop := forall a b, l = a ++ newline :: b -> b = [].

(** What [fgets] gives of a text of whole lines. *)
Definition chunk (l : bytes) : Prop := l <> [] /\ only_last l /\ length l < maxlen /\ line_ends l = true.

Lemma take_line_all n (l : bytes) : only_last l -> length l <= n -> take_line n l = (l, []).
Proof.
  revert n; induction l as [|c l IH]; intros [|n] Ho Hl; try done; simpl in *; [lia|].
  destruct (Ascii.eqb_spec c newline) as [->|Hc]; [by rewrite (Ho [] l eq_refl)|].
  rewrite IH; [done| |lia]. intros a b ->. by apply (Ho (c :: a) b).
Qed.

Lemma take_line_spec n (l : bytes) :
  let '(line, rest) := take_line n l in
  l = line ++ rest /\ only_last line /\ length line <= n /\ (last line = Some newline \/ length line = n \/ rest = []).
Proof.
  revert l; induction n as [|n IH]; intros [|c l]; simpl; try (split_and!; [done| |simpl; lia|by auto]; by intros [] ?).
  destruct (Ascii.eqb_spec c newline) as [->|Hc].
  - split_and!; [done| |simpl; lia|by left]. intros [|x [|y a]] b; [by intros [= <-]|done..].
  - specialize (IH l). destruct (take_line n l) as [line rest]. destruct IH as (-> & Ho & Hl & Hend). split_and!.
    + done.
    + intros [|x a] b; [by intros [= -> _]|]. intros [= _ E]. by apply (Ho a b).
    + simpl. lia.
    + destruct Hend as [He|[He|He]]; [left|right; left; simpl; lia|by auto]. destruct line; [done|exact He].
Qed.

Lemma last_newline (l : bytes) : last l = Some newline -> newline ∈ l.
Proof. intros (l' & ->)%last_Some. set_solver. Qed.

(** The bytes of a chunk that have come so far: all of it, or no line yet. *)
Lemma chunk_part (l e : bytes) :
  chunk (l ++ e) -> only_last l /\ length l <= maxlen - 1 /\ (e = [] -> line_ends l = true) /\ (e <> [] -> line_ends l = false).
Proof.
  intros (_ & Ho & Hl & He). assert (Hnl : newline ∈ l -> e = []).
  { intros (a & b & ->)%list_elem_of_split. specialize (Ho a (b ++ e)). rewrite <- app_assoc in Ho. simpl in Ho.
    specialize (Ho eq_refl). by apply app_nil in Ho as [_ ?]. }
  split_and!.
  - intros a b ->. specialize (Ho a (b ++ e)). rewrite <- app_assoc in Ho. simpl in Ho. specialize (Ho eq_refl).
    by apply app_nil in Ho as [? _].
  - rewrite length_app in Hl. unfold maxlen in *. lia.
  - intros ->. by rewrite app_nil_r in He.
  - intros Hne. unfold line_ends. apply orb_false_iff. split.
    + apply bool_decide_eq_false. intros Hlast%last_newline. auto.
    + apply Nat.eqb_neq. rewrite length_app in Hl. destruct e; [done|]. simpl in Hl. unfold maxlen in *. lia.
Qed.

(** A part that is examined in two pieces. *)
Lemma only_last_app (a b : bytes) : only_last (a ++ b) -> only_last b.
Proof. intros Ho x y ->. by apply (Ho (a ++ x) y); rewrite <- app_assoc. Qed.

Lemma c_text_spec (l rest : bytes) : nul ∉ l -> c_text (l ++ nul :: rest) = Ok l.
Proof.
  intros Hn. unfold c_text, strlen. rewrite find_char_app by done. run_res. by rewrite take_app_length.
Qed.

Lemma print_stored line array c :
  nul ∉ line ->
  print_line (stored line array) c
  = Ok (mkCli (input c) CFgets (read_buf c) (stored line array) (printed c ++ line) (c_sent c) (c_got c)).
Proof. intros Hn. unfold print_line, stored. by rewrite c_text_spec. Qed.

Definition whole_lines (text : bytes) : Prop := text = [] \/ last text = Some newline.

Lemma whole_lines_rest a b : whole_lines (a ++ b) -> b <> [] -> whole_lines b.
Proof.
  intros [Hw|Hw] Hb; [by apply app_nil in Hw as [_ ?]|]. right. rewrite last_app in Hw.
  destruct (last b) eqn:E; [done|]. by apply last_None in E.
Qed.

(** [fgets] on a text of whole lines. *)
Lemma fgets_chunk text :
  whole_lines text -> text <> [] ->
  exists line rest, take_line (maxlen - 1) text = (line, rest) /\ text = line ++ rest /\ chunk line /\ whole_lines rest.
Proof.
  intros Hw Hne. pose proof (take_line_spec (maxlen - 1) text) as Hs.
  destruct (take_line (maxlen - 1) text) as [line rest]. destruct Hs as (-> & Ho & Hl & Hend). exists line, rest.
  assert (Hrest : whole_lines rest) by (destruct rest; [by left|]; by eapply whole_lines_rest).
  assert (Hline : line <> []).
  { intros ->. destruct Hend as [?|[?| ->]]; done. }
  split; [done|]. split; [done|]. split; [|done]. split; [done|]. split; [done|]. split; [unfold maxlen in *; lia|].
  unfold line_ends. apply orb_true_iff. destruct Hend as [He|[He| ->]]; [left; by apply bool_decide_eq_true|right; by apply Nat.eqb_eq|].
  left. apply bool_decide_eq_true. rewrite app_nil_r in Hw. by destruct Hw.
Qed.

(** ** The invariant *)

Section Client.
Context (text : bytes) (text_lines : whole_lines text) (text_chars : nul ∉ text).

(** The line being read or written is [line]; the rest of it has not come. *)
Definition expecting_line (line : bytes) (c : cli) : Prop :=
  exists rest, chunk (line ++ read_buf c ++ rest) /\ c_sent c = printed c ++ line ++ read_buf c ++ rest
    /\ c_got c = printed c ++ line ++ read_buf c /\ text = c_sent c ++ input c.

Definition cli_inv (c : cli) : Prop :=
  whole_lines (input c) /\
  match c_pc c with
  | CFgets => c_sent c = printed c /\ c_got c = printed c /\ read_buf c = [] /\ text = printed c ++ input c
  | CWriting ptr =>
      exists line, chunk line /\ c_sent c ++ ptr = printed c ++ line /\ ptr <> [] /\ c_got c = printed c
        /\ read_buf c = [] /\ text = c_sent c ++ ptr ++ input c /\ printed c `prefix_of` c_sent c
  | CReadline line => expecting_line line c
  | CRecv line => expecting_line line c /\ read_buf c = [] /\ c_got c <> c_sent c
  | CEnd => c_sent c = text /\ printed c = text
  end.

Lemma part_chars l : (exists a b, text = a ++ l ++ b) -> nul ∉ l.
Proof. intros (a & b & E) Hin. apply text_chars. rewrite E. set_solver. Qed.

Lemma next_line_inv c :
  cli_inv c -> c_pc c = CFgets -> exists c', next_line c = Ok c' /\ cli_inv c'.
Proof.
  intros [Hw Hi] Hpc. rewrite Hpc in Hi. destruct Hi as (Hs & Hg & Hb & Ht). unfold next_line.
  destruct (decide (input c = [])) as [Hn|Hn].
  - rewrite Hn. cbn [take_line]. exists (set_cpc CEnd c). split; [by unfold maxlen|]. rewrite Hn, app_nil_r in Ht.
    split; [done|]. cbn [set_cpc c_pc c_sent printed]. split; congruence.
  - destruct (fgets_chunk (input c) Hw Hn) as (line & rest & -> & Ei & Hc & Hr).
    assert (Hnul : nul ∉ line) by (apply part_chars; exists (printed c), rest; by rewrite Ht, Ei).
    destruct line as [|x line]; [by destruct Hc|]. cbv beta iota. rewrite c_text_spec by done. run_res. cbn [writen_test].
    eexists. split; [done|]. split; [done|]. cbn [set_cpc set_input c_pc c_sent printed c_got read_buf input].
    exists (x :: line). rewrite Hs, Hg. split_and!; try done. by rewrite Ht, Ei.
Qed.

Lemma expecting_part line c :
  expecting_line line c -> nul ∉ line ++ read_buf c.
Proof.
  intros (rest & _ & Hs & _ & Ht). apply part_chars. exists (printed c), (rest ++ input c).
  rewrite Ht, Hs. by rewrite <- !app_assoc.
Qed.

Lemma read_line_inv line c :
  whole_lines (input c) -> expecting_line line c -> exists c', read_line line c = Ok c' /\ cli_inv c'.
Proof.
  intros Hw He. pose proof (expecting_part line c He) as Hnul. destruct He as (rest & Hc & Hs & Hg & Ht).
  rewrite app_assoc in Hc. destruct (chunk_part _ _ Hc) as (Ho & Hl & Hend & Hmore). unfold read_line.
  rewrite take_line_all; [|by eapply only_last_app|rewrite length_app in Hl; lia].
  destruct rest as [|x rest].
  - rewrite Hend by done. rewrite print_stored by done. eexists. split; [done|]. split; [done|].
    cbn [c_pc c_sent c_got read_buf printed input set_read_buf]. rewrite app_nil_r in Hs. rewrite Hg, Hs in *.
    split_and!; try done.
  - rewrite Hmore by done. eexists. split; [done|]. split; [done|]. cbn [set_cpc c_pc]. split.
    + exists (x :: rest). cbn [set_cpc set_read_buf read_buf c_sent c_got printed input]. cbn [app]. rewrite Hs, Hg, <- !app_assoc.
      rewrite <- app_assoc in Hc. split_and!; [done|done|by rewrite app_nil_r|]. by rewrite Ht, Hs, <- !app_assoc.
    + cbn [set_cpc set_read_buf read_buf c_sent c_got]. split; [done|]. rewrite Hs, Hg. intros E.
      apply app_inv_head, app_inv_head in E. rewrite <- (app_nil_r (read_buf c)) in E at 1. by apply app_inv_head in E.
Qed.

Lemma cli_step_ok a c :
  cli_inv c -> cli_enabled a c -> exists c', cli_step a c = Ok c' /\ cli_inv c'.
Proof.
  intros Hi. pose proof Hi as [Hw Hp]. unfold cli_enabled, cli_step. destruct (c_pc c) as [|ptr|line|line|] eqn:Hpc; destruct a as [|a|d| |]; try done.
  - intros _. by apply next_line_inv.
  - intros [Hfit Hok]. destruct Hp as (line & Hc & Hs & Hptr & Hg & Hb & Ht & Hpre). eexists. split; [done|]. split; [done|].
    cbn [set_cpc c_pc]. pose proof (writen_round_spec a ptr Hfit Hptr) as Hwr.
    assert (Hpre' : printed c `prefix_of` c_sent c ++ taken a ptr) by by apply prefix_app_r.
    destruct (writen_round a ptr) as [rest|[]]; [| |done].
    + exists line. destruct Hwr as [Hne E]. cbn [set_cpc c_sent printed c_got read_buf input]. rewrite E in Hs, Ht.
      split_and!; try done; [by rewrite <- app_assoc|by rewrite Ht, <- !app_assoc].
    + exists line. rewrite <- Hwr in *. cbn [set_cpc c_sent printed c_got read_buf input]. rewrite Hb, Hg. cbn [app]. rewrite !app_nil_r.
      split_and!; try done. by rewrite Ht, <- app_assoc.
  - intros _. by apply read_line_inv.
  - destruct Hp as ((rest & Hc & Hs & Hg & Ht) & Hb & Hne). intros (Hd & _ & [z Hz]). destruct d as [|x d]; [done|].
    eexists. split; [done|]. split; [done|]. cbn [c_pc]. exists z. cbn [c_sent printed c_got read_buf input].
    rewrite Hb in *. cbn [app] in *. rewrite app_nil_r in Hg. rewrite Hg in *.
    assert (Erest : rest = (x :: d) ++ z).
    { rewrite Hs in Hz. rewrite <- !app_assoc in Hz. apply app_inv_head, app_inv_head in Hz. exact Hz. }
    subst rest. split_and!; try done. by rewrite <- app_assoc.
  - intros _. exists c. by split.
Qed.

Lemma cli_reach_inv stack c : cli_reach (start_cli text stack) c -> cli_inv c.
Proof.
  induction 1 as [|c a c' _ IH Hen E].
  - split; [exact text_lines|]. by cbn.
  - destruct (cli_step_ok a c IH Hen) as (c2 & E2 & Hi). rewrite E in E2. by injection E2 as ->.
Qed.

Lemma printed_part c : cli_inv c -> printed c `prefix_of` c_sent c /\ c_sent c `prefix_of` text.
Proof.
  intros [_ Hp]. destruct (c_pc c).
  - destruct Hp as (-> & _ & _ & ->). split; [done|by apply prefix_app_r].
  - destruct Hp as (line & _ & _ & _ & _ & _ & -> & ?). split; [done|by apply prefix_app_r].
  - destruct Hp as (rest & _ & Hs & _ & ->). split; [rewrite Hs; by apply prefix_app_r|by apply prefix_app_r].
  - destruct Hp as ((rest & _ & Hs & _ & ->) & _). split; [rewrite Hs; by apply prefix_app_r|by apply prefix_app_r].
  - destruct Hp as [-> ->]. done.
Qed.

(** [str_cli] on a text of whole lines of any length without NUL characters,
    with a peer that echoes in pieces of any size: no step fails; what it prints is
    a beginning of the text, never more than it sent; it waits in [recv] only
    while something it sent has not come back; and when it ends, it has sent and
    printed the whole text. *)
Theorem cli_prints stack c :
  cli_reach (start_cli text stack) c ->
  (forall a, cli_enabled a c -> exists c', cli_step a c = Ok c')
  /\ printed c `prefix_of` c_sent c /\ c_sent c `prefix_of` text
  /\ (forall line, c_pc c = CRecv line -> c_got c <> c_sent c)
  /\ (c_pc c = CEnd -> printed c = text /\ c_sent c = text).
Proof.
  intros Hr. pose proof (cli_reach_inv stack c Hr) as Hi. destruct (printed_part c Hi). split_and!; try done.
  - intros a Hen. destruct (cli_step_ok a c Hi Hen) as (c' & E & _). by exists c'.
  - intros line Hpc. destruct Hi as [_ Hp]. rewrite Hpc in Hp. apply Hp.
  - intros Hpc. destruct Hi as [_ Hp]. rewrite Hpc in Hp. by destruct Hp.
Qed.
End Client.

(** ** Concrete runs *)

#[export] Instance cli_place_eq_dec : EqDecision cli_place.
Proof. solve_decision. Defined.

#[export] Instance cli_enabled_dec a c : Decision (cli_enabled a c).
Proof. unfold cli_enabled. destruct (c_pc c), a; apply _. Defined.

Fixpoint run_cli (answers : list cli_answer) (c : cli) : option cli :=
  match answers with
  | [] => Some c
  | a :: answers =>
      if decide (cli_enabled a c)
      then match cli_step a c with Ok c => run_cli answers c | Fault _ => None end else None
  end.

Lemma run_cli_reach answers c0 c c' : cli_reach c0 c -> run_cli answers c = Some c' -> cli_reach c0 c'.
Proof.
  revert c; induction answers as [|a answers IH]; intros c Hr; cbn [run_cli]; [by intros [= <-]|].
  destruct (decide (cli_enabled a c)) as [He|]; [|done]. destruct (cli_step a c) as [c1|] eqn:E; [|done].
  apply IH. by eapply cli_next.
Qed.

Definition demo_text : bytes := str "hi" ++ [newline] ++ str "you" ++ [newline].
Definition demo_stack : bytes := replicate 1024 nul.
Definition demo_answers : list cli_answer :=
  [CRun; CSend (SSent 1); CSend SIntr; CSend (SSent 2); CRun; CData (str "h"); CRun; CData (str "i" ++ [newline]); CRun;
   CRun; CSend (SSent 4); CRun; CData (str "yo"); CRun].
Definition demo_cli : cli :=
  match run_cli demo_answers (start_cli demo_text demo_stack) with Some c => c | None => start_cli [] [] end.

Lemma demo_cli_reach : cli_reach (start_cli demo_text demo_stack) demo_cli.
Proof.
  apply (run_cli_reach demo_answers _ (start_cli demo_text demo_stack)); [constructor|vm_compute; reflexivity].
Qed.

Lemma cli_prints_witness :
  printed demo_cli = str "hi" ++ [newline] /\ c_pc demo_cli = CRecv (str "yo") /\ c_got demo_cli <> c_sent demo_cli
  /\ exists c, cli_step (CData (str "u" ++ [newline])) demo_cli = Ok c.
Proof.
  assert (Hn : nul ∉ demo_text) by (apply (bool_decide_unpack _); vm_compute; exact I).
  destruct (cli_prints demo_text (or_intror eq_refl) Hn demo_stack demo_cli demo_cli_reach) as (Hstep & _ & _ & Hw & _).
  split; [vm_compute; reflexivity|]. split; [vm_compute; reflexivity|].
  split; [apply (Hw (str "yo")); vm_compute; reflexivity|]. apply Hstep.
  apply (bool_decide_unpack _). vm_compute. exact I.
Defined.

(** The last line of the input has no newline: all that was sent has come back,
    and the client waits for more. *)
Lemma unfinished_line_waits :
  exists c, cli_reach (start_cli (str "abc") demo_stack) c
    /\ c_pc c = CRecv (str "abc") /\ c_got c = c_sent c /\ input c = [] /\ printed c = [].
Proof.
  set (answers := [CRun; CSend (SSent 3); CRun; CData (str "abc"); CRun]).
  destruct (run_cli answers (start_cli (str "abc") demo_stack)) as [c|] eqn:E; [|by vm_compute in E].
  exists c. split; [eapply (run_cli_reach answers); [constructor|exact E]|]. vm_compute in E. injection E as <-. done.
Qed.
