(* ===== verification/SelectEcho.v ===== *)
(** * The line client with the select server

    [str_cli] of src/mstest/select_client.cpp as a client of the server of
    select_server.cpp, which serves any number of others at the same time. The
    network between them loses and reorders nothing, delays what it likes and
    cuts it anywhere. *)
From S2P Require Import Prelude.
From S2P Require Import StringPiece.
From S2P Require Import SelectServer.
From S2P Require Import SelectClient.

Section SelectEcho.
Context {FS : Type} `{!FdSets FS, !FdSetLaws FS}.

(** The client, and the server for which its connection is the socket [x]. *)
Record echo_pair := mkPair { p_cli : cli; p_srv : server (FS := FS) }.

Inductive pair_op := OnCli (a : cli_answer) | OnSrv (a : answer (FS := FS)).

Definition pair_exec (op : pair_op) (p : echo_pair) : res echo_pair :=
  match op with
  | OnCli a => c ← cli_step a (p_cli p); Ok (mkPair c (p_srv p))
  | OnSrv a => s ← select_step a (p_srv p); Ok (mkPair (p_cli p) s)
  end.

Context (x : Z).

(** The network gives each side a beginning of what the other has sent, and
    breaks nothing; the client closes at its end. *)
Definition pair_enabled (op : pair_op) (p : echo_pair) : Prop :=
  match op with
  | OnCli a =>
      match c_pc (p_cli p), a with
      | CRecv _, CData d => d <> [] /\ length d <= 1024 /\
          exists c, conns (p_srv p) !! x = Some c /\ (c_got (p_cli p) ++ d) `prefix_of` s_out c
      | _, _ => cli_enabled a (p_cli p)
      end
  | OnSrv a => select_enabled a (p_srv p) /\
      match pc (p_srv p), a with
      | Receiving i _ _, ARecv d => client (p_srv p) !! i = Some x ->
          if decide (d = []) then c_pc (p_cli p) = CEnd
          else forall c, conns (p_srv p) !! x = Some c -> (s_in c ++ d) `prefix_of` c_sent (p_cli p)
      | Writing i _ _ ptr, ASend a => client (p_srv p) !! i = Some x -> writen_round a ptr <> Returned false
      | _, _ => True
      end
  end.

Inductive pair_reach (p0 : echo_pair) : echo_pair -> Prop :=
  | pair_start : pair_reach p0 p0
  | pair_next p op p' : pair_reach p0 p -> pair_enabled op p -> pair_exec op p = Ok p' -> pair_reach p0 p'.

(** ** What a step of the server does to one socket *)

Implicit Types (s : server (FS := FS)).

Definition sock_after (a : answer (FS := FS)) s (c : sock) : option sock :=
  match pc s, a with
  | Receiving i _ _, ARecv d =>
      if decide (client s !! i = Some x) then match d with [] => None | _ => Some (got d c) end else Some c
  | Writing i _ _ ptr, ASend a =>
      if decide (client s !! i = Some x)
      then Some (match writen_round a ptr with Returned false => fail (put (taken a ptr) c) | _ => put (taken a ptr) c end)
      else Some c
  | _, _ => Some c
  end.

Lemma conns_after a s s' c :
  select_enabled a s -> select_step a s = Ok s' -> conns s !! x = Some c -> conns s' !! x = sock_after a s c.
Proof.
  intros Hen E Hc. unfold select_enabled, select_step, sock_after in *.
  destruct (pc s) as [|nready rset|i nready rset|i nready rset ptr]; destruct a as [n rset1|connfd| |d| |sa]; try done.
  - destruct (FD_ISSET _ _); [by injection E as <-|]. by apply next_client_pc in E as (p & -> & _).
  - destruct Hen as (H0 & _ & Hnew). unfold add_client in E. rewrite (proj2 (Z.ltb_ge _ _) H0) in E.
    assert (Hne : connfd <> x) by congruence.
    destruct (_ <=? 0)%Z; [injection E as <-|apply next_client_pc in E as (p & -> & _)]; cbn [set_pc conns];
      by rewrite lookup_insert_ne.
  - by injection E as <-.
  - inv_res. destruct (client s !! i) as [fd|] eqn:Ei; [|done]. cbn [get_] in Ha. injection Ha as <-.
    destruct d as [|y d].
    + apply client_done_pc in E as (p & -> & _). cbn [set_pc drop_client conns]. case_decide as Hd.
      * injection Hd as ->. apply lookup_delete_eq.
      * rewrite lookup_delete_ne; [done|congruence].
    + injection E as <-. cbn [set_pc set_conns conns]. case_decide as Hd.
      * injection Hd as ->. by rewrite lookup_alter_eq, Hc.
      * rewrite lookup_alter_ne; [done|congruence].
  - inv_res. destruct (client s !! i) as [fd|] eqn:Ei; [|done]. cbn [get_] in Ha. injection Ha as <-.
    assert (Hput : alter (put (taken sa ptr)) fd (conns s) !! x
      = if decide (Some fd = Some x) then Some (put (taken sa ptr) c) else Some c).
    { case_decide as Hd; [injection Hd as ->; by rewrite lookup_alter_eq, Hc|rewrite lookup_alter_ne; [done|congruence]]. }
    destruct (writen_round sa ptr) as [rest|[]].
    + by injection E as <-.
    + by apply client_done_pc in E as (p & -> & _).
    + apply client_done_pc in E as (p & -> & _). cbn [set_pc set_conns conns]. case_decide as Hd.
      * injection Hd as ->. by rewrite lookup_alter_eq, Hput.
      * rewrite lookup_alter_ne; [done|congruence].
Qed.

(** ** Together *)

Section Text.
Context (text : bytes) (text_lines : whole_lines text) (text_chars : nul ∉ text).

(** The bytes on their way. *)
Definition linked (p : echo_pair) : Prop :=
  c_pc (p_cli p) = CEnd
  \/ exists c, conns (p_srv p) !! x = Some c /\ s_broken c = false
     /\ s_in c `prefix_of` c_sent (p_cli p) /\ c_got (p_cli p) `prefix_of` s_out c.

Definition pair_inv (p : echo_pair) : Prop := cli_inv text (p_cli p) /\ select_inv (p_srv p) /\ linked p.

Lemma sock_echo s c : select_inv s -> conns s !! x = Some c -> s_broken c = false -> s_in c = s_out c ++ unsent x s.
Proof. intros (_ & He & _). apply He. Qed.

(** The client only sends more, and ends only by itself. *)
Lemma cli_step_grows a c c' :
  cli_step a c = Ok c' -> c_sent c `prefix_of` c_sent c' /\ (match a with CData (_ :: _) => True | _ => c_got c' = c_got c end).
Proof.
  unfold cli_step. intros E. destruct (c_pc c) as [|ptr|line|line|]; destruct a as [|a|[|y d]| |]; try by injection E as <-.
  - unfold next_line in E. destruct (take_line _ _) as [[|y l] rest]; inv_res; done.
  - injection E as <-. split; [by apply prefix_app_r|done].
  - unfold read_line in E. destruct (take_line _ _) as [more rest].
    destruct (line_ends _); [unfold print_line in E; inv_res; done|by injection E as <-].
  - unfold end_of_stream, print_line in E. destruct (_ =? 0); [by injection E as <-|]. by inv_res.
  - unfold recv_failed, print_line in E. by inv_res.
Qed.

Lemma cli_enabled_of a p :
  pair_inv p -> pair_enabled (OnCli a) p -> cli_enabled a (p_cli p).
Proof.
  intros (_ & Hs & Hl). unfold pair_enabled, cli_enabled. destruct (c_pc (p_cli p)) eqn:Hpc; try done. destruct a; try done.
  intros (Hd & Hlen & c & Hc & Hp). split; [done|]. split; [done|].
  destruct Hl as [Hend|(c1 & Hc1 & Hb & Hin & _)]; [congruence|]. rewrite Hc in Hc1. injection Hc1 as <-.
  etrans; [exact Hp|]. etrans; [|exact Hin]. rewrite (sock_echo _ c Hs Hc Hb). by apply prefix_app_r.
Qed.

Lemma pair_step_ok op p :
  pair_inv p -> pair_enabled op p -> exists p', pair_exec op p = Ok p' /\ pair_inv p'.
Proof.
  intros Hinv Hen. pose proof Hinv as (Hc & Hs & Hl). destruct op as [a|a]; cbn [pair_exec].
  - pose proof (cli_enabled_of a p Hinv Hen) as Hen1.
    destruct (cli_step_ok text text_lines text_chars a (p_cli p) Hc Hen1) as (c' & E & Hc'). rewrite E. eexists. split; [done|].
    split; [done|]. split; [done|]. destruct (cli_step_grows a _ _ E) as [Hgrow Hgot].
    destruct Hl as [Hend|(c & Hsock & Hb & Hin & Hout)]; [unfold cli_enabled in Hen1; by rewrite Hend in Hen1|].
    right. exists c. cbn [p_cli p_srv]. split; [done|]. split; [done|]. split; [by etrans|].
    destruct a as [|sa|[|y d]| |]; try by rewrite Hgot. unfold pair_enabled, cli_enabled in *. unfold cli_step in E.
    destruct (c_pc (p_cli p)); try done. destruct Hen as (_ & _ & c1 & Hc1 & Hp). rewrite Hsock in Hc1. injection Hc1 as <-.
    by injection E as <-.
  - destruct Hen as [Hen Hnet]. destruct (select_step_ok a (p_srv p) Hs Hen) as (s' & E & Hs'). rewrite E. eexists. split; [done|].
    split; [done|]. split; [done|]. destruct Hl as [Hend|(c & Hsock & Hb & Hin & Hout)]; [by left|].
    pose proof (conns_after a _ s' c Hen E Hsock) as Hafter. unfold linked, sock_after in *. cbn [p_cli p_srv].
    destruct (pc (p_srv p)) as [|n r|i n r|i n r ptr]; destruct a as [n1 r1|fd| |d| |sa]; try (by right; exists c).
    + case_decide as Hd; [|by right; exists c]. specialize (Hnet Hd). destruct d as [|y d]; [by left|]. right. exists (got (y :: d) c).
      split; [done|]. split; [done|]. split; [by apply Hnet|done].
    + case_decide as Hd; [|by right; exists c]. specialize (Hnet Hd). right. exists (put (taken sa ptr) c).
      split; [by destruct (writen_round sa ptr) as [|[]]|]. split; [done|]. split; [done|]. by apply prefix_app_r.
Qed.

Lemma pair_reach_inv stack fd s0 p :
  (0 <= fd)%Z -> select_reach (start_server fd) s0 -> conns s0 !! x = Some (mkSock [] [] false) ->
  pair_reach (mkPair (start_cli text stack) s0) p -> pair_inv p.
Proof.
  intros H0 Hr Hx Hp. induction Hp as [|p op p' _ IH Hen E].
  - split; [eapply (cli_reach_inv text text_lines text_chars), cli_start|]. split; [by eapply select_reach_inv|].
    right. eexists. split; [exact Hx|]. split_and!; try done; apply prefix_nil.
  - destruct (pair_step_ok op p IH Hen) as (p2 & E2 & Hi). rewrite E in E2. by injection E2 as ->.
Qed.

(** C33: the line client and the [select] server together, for an input of
    whole lines without NUL characters and while no call of the two fails and the
    network breaks nothing, whatever other clients the server has: neither fails an
    assertion or leaves an array; what the client has printed is a beginning of its
    input, and all of it when the client has ended; and it never waits in [recv]
    unless bytes are on their way in one of the two directions, or the server is
    about to write some to it. (With an unfinished line at the end it does,
    [unfinished_line_waits].) *)
Theorem echo_service stack fd s0 p :
  (0 <= fd)%Z -> select_reach (start_server fd) s0 -> conns s0 !! x = Some (mkSock [] [] false) ->
  pair_reach (mkPair (start_cli text stack) s0) p ->
  (forall op, pair_enabled op p -> exists p', pair_exec op p = Ok p')
  /\ printed (p_cli p) `prefix_of` text
  /\ (c_pc (p_cli p) = CEnd -> printed (p_cli p) = text)
  /\ (forall line, c_pc (p_cli p) = CRecv line ->
       exists c, conns (p_srv p) !! x = Some c
         /\ (c_got (p_cli p) <> s_out c \/ s_in c <> c_sent (p_cli p) \/ unsent x (p_srv p) <> [])).
Proof.
  intros H0 Hr Hx Hp. pose proof (pair_reach_inv stack fd s0 p H0 Hr Hx Hp) as Hinv. pose proof Hinv as (Hc & Hs & Hl).
  split; [|split; [|split]].
  - intros op Hen. destruct (pair_step_ok op p Hinv Hen) as (p' & E & _). by exists p'.
  - destruct (printed_part text text_lines text_chars _ Hc). by etrans.
  - intros Hend. destruct Hc as [_ Hc]. rewrite Hend in Hc. apply Hc.
  - intros line Hpc. destruct Hl as [Hend|(c & Hsock & Hb & Hin & Hout)]; [congruence|]. exists c. split; [done|].
    destruct Hc as [_ Hc]. rewrite Hpc in Hc. destruct Hc as (_ & _ & Hne).
    destruct (decide (c_got (p_cli p) = s_out c)) as [E1|]; [|by left].
    destruct (decide (s_in c = c_sent (p_cli p))) as [E2|]; [|by right; left]. right; right. intros E3.
    apply Hne. by rewrite E1, <- E2, (sock_echo _ c Hs Hsock Hb), E3, app_nil_r.
Qed.
End Text.
End SelectEcho.

(** ** A line of two bytes, with another client connected *)
Module EchoDemo.
Import SelectDemo.

#[local] Instance pair_enabled_dec (op : pair_op (FS := gset Z)) p : Decision (pair_enabled 5 op p).
Proof.
  destruct op as [a|a]; cbn [pair_enabled].
  - destruct (c_pc (p_cli p)); try apply _. destruct a; try apply _.
    destruct (conns (p_srv p) !! 5%Z) as [c|].
    + destruct (decide (d <> [] /\ length d <= 1024 /\ (c_got (p_cli p) ++ d) `prefix_of` s_out c)) as [Hd|Hd].
      * left. destruct Hd as (? & ? & ?). eauto.
      * right. intros (? & ? & c1 & [= <-] & ?). by apply Hd.
    + right. by intros (_ & _ & c & ? & _).
  - apply and_dec; [apply _|]. destruct (pc (p_srv p)) as [|n r|i n r|i n r ptr]; try apply _; destruct a as [n1 r1|fd| |d| |sa]; try apply _.
    destruct (decide (client (p_srv p) !! i = Some 5%Z)) as [Hi|Hi]; [|by left].
    destruct (decide (d = [])); [destruct (decide (c_pc (p_cli p) = CEnd)); [left|right]; auto|].
    destruct (conns (p_srv p) !! 5%Z) as [c|]; [|by left].
    destruct (decide ((s_in c ++ d) `prefix_of` c_sent (p_cli p))); [left; by intros _ c1 [= <-]|right; eauto].
Defined.

Fixpoint run_pair (ops : list (pair_op (FS := gset Z))) (p : echo_pair) : option echo_pair :=
  match ops with
  | [] => Some p
  | op :: ops =>
      if decide (pair_enabled 5 op p)
      then match pair_exec op p with Ok p => run_pair ops p | Fault _ => None end else None
  end.

Lemma run_pair_reach ops p0 p p' : pair_reach 5 p0 p -> run_pair ops p = Some p' -> pair_reach 5 p0 p'.
Proof.
  revert p; induction ops as [|op ops IH]; intros p Hr; cbn [run_pair]; [by intros [= <-]|].
  destruct (decide (pair_enabled 5 op p)) as [He|]; [|done]. destruct (pair_exec op p) as [p1|] eqn:E; [|done].
  apply IH. by eapply pair_next.
Qed.

Definition line : bytes := str "a" ++ [newline].
Definition two_clients : server := after (accepts 5 ++ accepts 7) (start_server 3).
Definition echo_ops : list (pair_op (FS := gset Z)) :=
  [OnCli CRun; OnCli (CSend (SSent 2)); OnCli CRun; OnSrv (ASelect 2 {[ 5; 7 ]}%Z); OnSrv (ARecv line);
   OnSrv (ASend (SSent 1)); OnCli (CData (str "a")); OnCli CRun].
Definition echo_start : echo_pair := mkPair (start_cli line demo_stack) two_clients.
Definition echo_mid : echo_pair := match run_pair echo_ops echo_start with Some p => p | None => echo_start end.

Lemma echo_mid_reach : pair_reach 5 echo_start echo_mid.
Proof. apply (run_pair_reach echo_ops _ echo_start); [constructor|vm_compute; reflexivity]. Qed.

Lemma echo_service_witness :
  c_pc (p_cli echo_mid) = CRecv (str "a") /\ printed (p_cli echo_mid) = []
  /\ (exists c, conns (p_srv echo_mid) !! 5%Z = Some c) /\ unsent 5 (p_srv echo_mid) = [newline]
  /\ exists p, pair_exec (OnSrv (ASend (SSent 1))) echo_mid = Ok p.
Proof.
  assert (Hn : nul ∉ line) by (apply (bool_decide_unpack _); vm_compute; exact I).
  destruct (echo_service 5 line (or_intror eq_refl) Hn demo_stack 3 two_clients echo_mid) as (Hstep & _ & _ & Hw);
    [done| |vm_compute; reflexivity|exact echo_mid_reach|].
  - apply (run_reach (accepts 5 ++ accepts 7) _ (start_server 3)); [constructor|vm_compute; reflexivity].
  - assert (Hpc : c_pc (p_cli echo_mid) = CRecv (str "a")) by (vm_compute; reflexivity).
    split; [exact Hpc|]. split; [vm_compute; reflexivity|].
    split; [destruct (Hw _ Hpc) as (c & Hc & _); by exists c|]. split; [vm_compute; reflexivity|].
    apply Hstep. apply (bool_decide_unpack _). vm_compute. exact I.
Defined.
End EchoDemo.
