(* ===== verification/ShortUrl.v ===== *)
(** * Short URLs: [src/msexamples/shorturl/shorturl.cpp]

    A callback of [HttpServer] that redirects the paths of a table and lists
    the table at the root. The time it shows is an input. *)
From S2P Require Import Prelude.
From S2P Require Import Endian.
From S2P Require Import StdContainers.
From S2P Require Import StringPiece.
From S2P Require Import Format.
From S2P Require Import Timestamp.
From S2P Require Import Buffer.
From S2P Require Import BufferFacts.
From S2P Require Import TcpConnection.
From S2P Require Import Http.
From S2P Require Import HttpFacts.

(** The bytes of the icon: a PNG signature and zeros. *)
Definition favicon : bytes := (char_of_Z <$> [0x89; 0x50; 0x4E; 0x47; 0xD; 0xA; 0x1A; 0xA]%Z) ++ replicate 547 nul.

(** The table as [main] fills it. *)
Definition redirections : list (bytes * bytes) :=
  map_set (str "/2") (str "http://b.com") (map_set (str "/1") (str "http://a.com") []).

Section ShortUrl.
Context (redirections : list (bytes * bytes)) (now : bytes).

Fixpoint list_redirections (m : list (bytes * bytes)) (text : bytes) : bytes :=
  match m with
  | [] => text
  | i :: m => list_redirections m (text ++ str "<ul>" ++ i.1 ++ str " =&gt; " ++ i.2 ++ str "</ul>")
  end.

Definition onRequest (req : HttpRequest) (resp : HttpResponse) : HttpResponse :=
  match map_find (path_ req) redirections with
  | Some url =>
      let resp := setStatusCode k301MovedPermanently resp in
      let resp := setStatusMessage (str "Moved Permanently") resp in
      resp_addHeader (str "Location") url resp
  | None =>
      if decide (path_ req = str "/") then
        let resp := setStatusCode k200Ok resp in
        let resp := setStatusMessage (str "OK") resp in
        let resp := setContentType (str "text/html") resp in
        let text := list_redirections redirections [] in
        setBody (str "<html><head><title>My tiny short url service</title></head>"
                 ++ str "<body><h1>Known redirections</h1>"
                 ++ text
                 ++ str "Now is " ++ now
                 ++ str "</body></html>") resp
      else if decide (path_ req = str "/favicon.ico") then
        let resp := setStatusCode k200Ok resp in
        let resp := setStatusMessage (str "OK") resp in
        let resp := setContentType (str "image/png") resp in
        setBody favicon resp
      else
        let resp := setStatusCode k404NotFound resp in
        let resp := setStatusMessage (str "Not Found") resp in
        setCloseConnection true resp
  end.

(** ** Answers *)

(** The text of an answer: what every answer has, the headers of this one and
    its body. *)
Definition answer (status : bytes) (close : bool) (headers : list (bytes * bytes)) (body : bytes) : bytes :=
  str "HTTP/1.1 " ++ status ++ kCRLF
  ++ (if close then str "Connection: close"
      else str "Content-Length: " ++ fmt_d (Z.of_nat (length body)) ++ kCRLF ++ str "Connection: Keep-Alive") ++ kCRLF
  ++ concat ((fun f => f.1 ++ str ": " ++ f.2 ++ kCRLF) <$> headers) ++ kCRLF ++ body.

(** The page at the root lists every entry of the table, in its order. *)
Definition page : bytes :=
  str "<html><head><title>My tiny short url service</title></head><body><h1>Known redirections</h1>"
  ++ concat ((fun i => str "<ul>" ++ i.1 ++ str " =&gt; " ++ i.2 ++ str "</ul>") <$> redirections)
  ++ str "Now is " ++ now ++ str "</body></html>".

(** What a request for a path is answered, and whether the connection ends. *)
Definition reply_to (path : bytes) (close : bool) : bytes * bool :=
  match map_find path redirections with
  | Some url => (answer (str "301Moved Permanently") close [(str "Location", url)] [], close)
  | None =>
      if decide (path = str "/") then (answer (str "200OK") close [(str "Content-Type", str "text/html")] page, close)
      else if decide (path = str "/favicon.ico")
      then (answer (str "200OK") close [(str "Content-Type", str "image/png")] favicon, close)
      else (answer (str "404Not Found") true [] [], true)
  end.

Lemma list_redirections_concat m text :
  list_redirections m text
  = text ++ concat ((fun i => str "<ul>" ++ i.1 ++ str " =&gt; " ++ i.2 ++ str "</ul>") <$> m).
Proof.
  revert text. induction m as [|i m IH]; intros text; cbn [list_redirections fmap list_fmap concat]; [by rewrite app_nil_r|].
  by rewrite IH, <- !app_assoc.
Qed.

Lemma answer_text r status code :
  fmt_d (statusCode_ r) = code -> status = code ++ statusMessage_ r ->
  response_text r = answer status (closeConnection_ r) (resp_headers_ r) (body_ r).
Proof.
  intros <- ->. unfold response_text, answer. destruct (closeConnection_ r); by rewrite <- ?app_assoc.
Qed.

Lemma onRequest_reply req close :
  let resp := onRequest req (new_HttpResponse close) in
  response_text resp = (reply_to (path_ req) close).1 /\ closeConnection_ resp = (reply_to (path_ req) close).2.
Proof.
  cbn zeta. unfold onRequest, reply_to. destruct (map_find (path_ req) redirections) as [url|].
  { split; [|done]. by rewrite (answer_text _ (str "301Moved Permanently") (str "301")). }
  repeat case_decide; (split; [|done]).
  - rewrite list_redirections_concat. by rewrite (answer_text _ (str "200OK") (str "200")).
  - by rewrite (answer_text _ (str "200OK") (str "200")).
  - by rewrite (answer_text _ (str "404Not Found") (str "404")).
Qed.

(** The table and the page have sizes that an [int] holds. *)
Record table_ok : Prop := {
  tb_urls : Forall (fun i => int_sized i.2) redirections;
  tb_page : int_sized page
}.

Lemma find_in_table path url : map_find path redirections = Some url -> exists k, (k, url) ∈ redirections.
Proof.
  induction redirections as [|[k v] m IH]; [done|]. cbn [map_find]. repeat case_if; [done| |].
  - intros E. destruct (IH E) as [k' Hk]. exists k'. by right.
  - intros [= ->]. exists k. by left.
Qed.

Lemma onRequest_ok req close : table_ok -> response_ok (onRequest req (new_HttpResponse close)).
Proof.
  intros [Hu Hp]. unfold onRequest, response_ok. destruct (map_find (path_ req) redirections) as [url|] eqn:E.
  - split_and!; try done. cbn. apply Forall_cons. split; [|done]. split; [done|].
    apply find_in_table in E as [k Hk]. by eapply (proj1 (Forall_forall _ _) Hu (k, url)).
  - repeat case_decide; split_and!; try done; cbn -[favicon].
    + rewrite list_redirections_concat. exact Hp.
    + by repeat constructor.
    + by repeat constructor.
Qed.

Lemma path_of_target r t : path_ (request_of r t) = t_path r.
Proof.
  assert (H : forall fs q, path_ (add_fields fs q) = path_ q)
    by (induction fs as [|f fs IH]; intros q; [done|]; apply (IH (mkRequest _ _ _ _ _ _))).
  apply H.
Qed.

(** A well-formed request for a path is answered with the redirection of that
    path if it has one, the list of all redirections at the root, the icon, or
    404 with the end of the connection; what follows the request stays in the
    buffer. *)
Theorem shorturl_answers ans v0 t r rest b :
  table_ok -> target_ok r -> buf_inv b -> content b = request_text r ++ rest ->
  let reply := reply_to (t_path r) (wants_close (request_of r t)) in
  exists context b', onMessage onRequest ans t (expecting v0) b
    = Ok (USendBuffer reply.1 ans :: (if reply.2 then [UShutdown] else []), context, b')
    /\ content b' = rest /\ parse_state_ context = kExpectRequestLine /\ headers_ (request_ context) = [].
Proof.
  intros Ht Hr Hb Hc reply. pose proof (onRequest_reply (request_of r t) (wants_close (request_of r t))) as [E1 E2].
  rewrite path_of_target in E1, E2. fold reply in E1, E2.
  destruct (answers_request onRequest ans v0 t r rest b) as (b' & -> & _ & Hc'); [done..|by apply onRequest_ok|].
  rewrite E1, E2. by eexists _, b'.
Qed.
End ShortUrl.

Definition demo_request : target := mkTarget kGet (str "/2") [] kHttp11 [].

Lemma shorturl_answers_witness :
  exists context b', onMessage (onRequest redirections []) (Sent 1000) 7 new_HttpContext
      (filled (request_text demo_request ++ str "GET"))
    = Ok ([USendBuffer (answer (str "301Moved Permanently") false [(str "Location", str "http://b.com")] []) (Sent 1000)], context, b')
    /\ content b' = str "GET".
Proof.
  destruct (shorturl_answers redirections [] (Sent 1000) kUnkown 7 demo_request (str "GET")
    (filled (request_text demo_request ++ str "GET"))) as (c & b' & E & Hc & _).
  - split; [|vm_compute; reflexivity].
    apply Forall_cons_2; [vm_compute; reflexivity|]. apply Forall_cons_2; [vm_compute; reflexivity|apply Forall_nil_2].
  - split; try done; cbn; split_and!; try closed_not_in; try done; by left.
  - apply filled_spec.
  - apply filled_spec.
  - exists c, b'. split; [exact E|exact Hc].
Defined.
