(* ===== verification/PingPong.v ===== *)
(** * Throughput tests: [src/msexamples/pingpong], [netty/echo/echo_server.cpp]

    The pingpong client opens sessions with an echo server; each sends a block
    of bytes when it is connected and then whatever comes back. A session has
    the input buffer of its connection and the bytes under way in the two
    directions; its handlers run one at a time, those of different sessions
    interleave. The netty server echoes and counts. *)
From S2P Require Import Prelude.
From S2P Require Import Endian.
From S2P Require Import Format.
From S2P Require Import Timestamp.
From S2P Require Import Atomic.

(** The connection of a session: not made yet, kConnected, kDisconnecting after
    [shutdown], gone. *)
Inductive link := Unmade | Connected | Stopping | Gone.

#[export] Instance link_eq_dec : EqDecision link.
Proof. solve_decision. Defined.

(** A session; [arrived] is everything that its connection received. *)
Record PingSession := mkPing {
  p_link : link;
  p_input : bytes;
  to_server : bytes;
  to_client : bytes;
  arrived : bytes;
  bytesRead_ : Z;
  bytesWritten_ : Z;
  messagesRead_ : Z
}.

(** The constructor of [PingSession]. *)
Definition new_PingSession : PingSession := mkPing Unmade [] [] [] [] 0 0 0.

Inductive report := AllConnected | AllDisconnected (totalBytesRead totalMessagesRead : Z).

Record Client := mkClient {
  sessions_ : list PingSession;
  sessionCount_ : Z;
  message_ : bytes;
  numConnected_ : AtomicInteger;
  reports : list report;
  quitting : bool
}.

(** The constructor of [Client]. *)
Definition new_Client (blockSize sessionCount : nat) : Client :=
  mkClient (replicate sessionCount new_PingSession) (Z.of_nat sessionCount)
    ((fun i => char_of_Z (Z.of_nat i mod 128)) <$> seq 0 blockSize) new_AtomicInteger [] false.

Definition set_session (i : nat) (s : PingSession) (c : Client) : Client :=
  mkClient (<[i := s]> (sessions_ c)) (sessionCount_ c) (message_ c) (numConnected_ c) (reports c) (quitting c).

(** [onConnect], [onDisconnect]. *)
Definition onConnect (c : Client) : Client :=
  let '(n, numConnected) := incrementAndGet (numConnected_ c) in
  mkClient (sessions_ c) (sessionCount_ c) (message_ c) numConnected
    (reports c ++ if (n =? sessionCount_ c)%Z then [AllConnected] else []) (quitting c).

Definition sum64 (l : list Z) : Z := fold_left (fun total x => wrapS 64 (total + x)) l 0%Z.

Definition onDisconnect (c : Client) : Client :=
  let '(n, numConnected) := decrementAndGet (numConnected_ c) in
  if (n =? 0)%Z then
    mkClient (sessions_ c) (sessionCount_ c) (message_ c) numConnected
      (reports c ++ [AllDisconnected (sum64 (bytesRead_ <$> sessions_ c)) (sum64 (messagesRead_ <$> sessions_ c))]) true
  else mkClient (sessions_ c) (sessionCount_ c) (message_ c) numConnected (reports c) (quitting c).

(** [conn->send(buf)]: nothing happens unless it is connected. *)
Definition send_input (s : PingSession) : PingSession :=
  if decide (p_link s = Connected) then
    mkPing (p_link s) [] (to_server s ++ p_input s) (to_client s) (arrived s) (bytesRead_ s) (bytesWritten_ s) (messagesRead_ s)
  else s.

Definition ping_onMessage (s : PingSession) : PingSession :=
  let len := Z.of_nat (length (p_input s)) in
  send_input (mkPing (p_link s) (p_input s) (to_server s) (to_client s) (arrived s)
    (wrapS 64 (bytesRead_ s + len)) (wrapS 64 (bytesWritten_ s + len)) (wrapS 64 (messagesRead_ s + 1))).

Definition set_link (l : link) (s : PingSession) : PingSession :=
  mkPing l (p_input s) (to_server s) (to_client s) (arrived s) (bytesRead_ s) (bytesWritten_ s) (messagesRead_ s).

(** [PingSession::onConnection]. *)
Definition ping_onConnection (i : nat) (connected : bool) (s : PingSession) (c : Client) : Client :=
  if connected then
    let s := mkPing (p_link s) (p_input s) (to_server s ++ message_ c) (to_client s) (arrived s)
               (bytesRead_ s) (bytesWritten_ s) (messagesRead_ s) in
    onConnect (set_session i s c)
  else onDisconnect (set_session i s c).

(** [PingSession::stop]: [disconnect] of the client. *)
Definition ping_stop (s : PingSession) : PingSession :=
  if decide (p_link s = Connected) then set_link Stopping s else s.

Definition handleTimeout (c : Client) : Client :=
  mkClient (ping_stop <$> sessions_ c) (sessionCount_ c) (message_ c) (numConnected_ c) (reports c) (quitting c).

(** The server's [onMessage] with the next [n] bytes of a session. *)
Definition pong_onMessage (n : nat) (s : PingSession) : PingSession :=
  mkPing (p_link s) (p_input s) (drop n (to_server s)) (to_client s ++ take n (to_server s)) (arrived s)
    (bytesRead_ s) (bytesWritten_ s) (messagesRead_ s).

(** A connection is made, the server or the client reads, the timer expires, a
    connection ends. *)
Inductive ping_op :=
  | PingUp (i : nat)
  | ServerReads (i n : nat)
  | ClientReads (i n : nat)
  | PingTimeout
  | PingDown (i : nat).

(** The next [n] bytes for the client arrive. *)
Definition deliver (n : nat) (s : PingSession) : PingSession :=
  mkPing (p_link s) (p_input s ++ take n (to_client s)) (to_server s) (drop n (to_client s)) (arrived s ++ take n (to_client s))
    (bytesRead_ s) (bytesWritten_ s) (messagesRead_ s).

Definition is_open (s : PingSession) : bool := bool_decide (p_link s = Connected) || bool_decide (p_link s = Stopping).

Definition ping_step (op : ping_op) (c : Client) : Client :=
  match op with
  | PingUp i =>
      match sessions_ c !! i with
      | Some s => if decide (p_link s = Unmade) then ping_onConnection i true (set_link Connected s) c else c
      | None => c
      end
  | ServerReads i n =>
      match sessions_ c !! i with
      | Some s => if is_open s && (0 <? length (take n (to_server s))) then set_session i (pong_onMessage n s) c else c
      | None => c
      end
  | ClientReads i n =>
      match sessions_ c !! i with
      | Some s => if is_open s && (0 <? length (take n (to_client s))) then set_session i (ping_onMessage (deliver n s)) c else c
      | None => c
      end
  | PingTimeout => handleTimeout c
  | PingDown i =>
      match sessions_ c !! i with
      | Some s => if is_open s then ping_onConnection i false (set_link Gone s) c else c
      | None => c
      end
  end.

Definition ping_run (ops : list ping_op) (c : Client) : Client := fold_left (fun c op => ping_step op c) ops c.

(** ** What arrives *)

(** A text that repeats [m]. *)
Definition cyclic (m l : bytes) : Prop := forall j, j < length l -> l !! j = m !! (j `mod` length m).

Lemma cyclic_prefix m l k : cyclic m (l ++ k) -> cyclic m l.
Proof. intros H j Hj. rewrite <- H by (rewrite length_app; lia). by rewrite lookup_app_l. Qed.

Lemma cyclic_self m : cyclic m m.
Proof. intros j Hj. by rewrite Nat.mod_small. Qed.

(** What lies one repetition before the end goes on with it. *)
Lemma cyclic_repeat m a d e :
  cyclic m (a ++ d ++ e) -> length (d ++ e) = length m -> cyclic m (a ++ d ++ e ++ d).
Proof.
  intros H Hl j Hj. destruct (decide (j < length (a ++ d ++ e))) as [Hlt|Hge].
  - rewrite !app_assoc in *. rewrite lookup_app_l by done. by apply H.
  - assert (Hlen : length (a ++ d ++ e) = length a + length m) by (by rewrite length_app, Hl).
    assert (Hd : j - length m < length (a ++ d)) by (rewrite !length_app in *; lia).
    assert (Hm : length m <= j) by lia.
    rewrite !app_assoc in Hj |- *. rewrite lookup_app_r by (rewrite <- !app_assoc; lia).
    replace (j - length ((a ++ d) ++ e)) with (j - length m - length a) by (rewrite <- app_assoc; lia).
    rewrite <- (lookup_app_r a d) by lia. rewrite app_assoc in H.
    rewrite <- (lookup_app_l (a ++ d) e) by done. rewrite H by (rewrite length_app; lia).
    f_equal. replace j with (j - length m + 1 * length m) at 2 by lia. by rewrite Nat.Div0.mod_add.
Qed.

(** A session in every state. *)
Record session_inv (m : bytes) (s : PingSession) : Prop := {
  pi_cyclic : cyclic m (arrived s ++ to_client s ++ to_server s);
  pi_new : p_link s = Unmade -> s = new_PingSession;
  pi_up : p_link s = Connected -> p_input s = [] /\ length (to_client s ++ to_server s) = length m
    /\ bytesRead_ s = wrapS 64 (Z.of_nat (length (arrived s))) /\ bytesWritten_ s = bytesRead_ s
}.

Lemma new_session_inv m : session_inv m new_PingSession.
Proof. split; [by intros j Hj; cbn in Hj; lia|done|done]. Qed.

Lemma up_inv m s : session_inv m s -> p_link s = Unmade ->
  session_inv m (mkPing Connected (p_input s) (to_server s ++ m) (to_client s) (arrived s) (bytesRead_ s) (bytesWritten_ s)
    (messagesRead_ s)).
Proof. intros [_ Hn _] ->%Hn. split; [apply cyclic_self|done|done]. Qed.

Lemma pong_inv m n s : session_inv m s -> is_open s = true -> session_inv m (pong_onMessage n s).
Proof.
  intros [Hc Hn Hu] Ho. split; cbn [pong_onMessage p_link arrived to_client to_server p_input bytesRead_ bytesWritten_].
  - by rewrite <- (app_assoc (to_client s)), take_drop.
  - unfold is_open in Ho. intros E. by rewrite E in Ho.
  - intros E. destruct (Hu E) as (? & Hl & ? & ?). split_and!; [done| |done|done].
    by rewrite <- app_assoc, take_drop.
Qed.

Lemma ping_inv m n s : session_inv m s -> is_open s = true -> session_inv m (ping_onMessage (deliver n s)).
Proof.
  intros [Hc Hn Hu] Ho. unfold ping_onMessage, send_input, deliver. cbn [p_link].
  assert (Hc' : cyclic m ((arrived s ++ take n (to_client s)) ++ drop n (to_client s) ++ to_server s))
    by (by rewrite <- app_assoc, (app_assoc (take n _)), take_drop).
  case_decide as E.
  - destruct (Hu E) as (Ei & Hl & Hr & Hw).
    split; cbn [p_link arrived to_client to_server p_input bytesRead_ bytesWritten_]; [|by rewrite E|intros _; split_and!].
    + rewrite Ei. cbn [app]. set (d := take n _) in *. set (e := drop n (to_client s) ++ to_server s) in *.
      rewrite <- (app_assoc (arrived s)). replace (drop n (to_client s) ++ to_server s ++ d) with (e ++ d)
        by (unfold e; by rewrite <- app_assoc).
      apply cyclic_repeat; [by rewrite <- app_assoc in Hc'|]. unfold e, d. by rewrite app_assoc, take_drop.
    + done.
    + rewrite Ei. cbn [app]. rewrite <- Hl, !length_app, length_take, length_drop. lia.
    + rewrite Hr, Ei, wrapS_add by lia. cbn [app]. f_equal. rewrite length_app. lia.
    + by rewrite Hw.
  - split; cbn [p_link arrived to_client to_server p_input bytesRead_ bytesWritten_]; [done| |done].
    unfold is_open in Ho. intros E'. by rewrite E' in Ho.
Qed.

Lemma ping_stop_inv m s : session_inv m s -> session_inv m (ping_stop s).
Proof. intros Hs. unfold ping_stop. case_decide; [|done]. destruct Hs as [Hc _ _]. by split. Qed.

Lemma gone_inv m s : session_inv m s -> session_inv m (set_link Gone s).
Proof. intros [Hc _ _]. by split. Qed.

(** ** The client *)

Definition open_count (l : list PingSession) : nat := length (filter (fun s => is_open s = true) l).

Record client_inv (blockSize n : nat) (c : Client) : Prop := {
  ci_message : length (message_ c) = blockSize;
  ci_sessions : length (sessions_ c) = n;
  ci_each s : s ∈ sessions_ c -> session_inv (message_ c) s;
  ci_count : value_ (numConnected_ c) = Z.of_nat (open_count (sessions_ c))
}.

Lemma open_count_le l : open_count l <= length l.
Proof. apply length_filter. Qed.

Lemma open_count_insert l i s s' :
  l !! i = Some s ->
  open_count (<[i := s']> l) + (if is_open s then 1 else 0) = open_count l + (if is_open s' then 1 else 0).
Proof.
  assert (Hc : forall x k, open_count (x :: k) = (if is_open x then 1 else 0) + open_count k).
  { intros x k. unfold open_count. rewrite filter_cons. by destruct (is_open x). }
  revert i. induction l as [|x l IH]; intros [|i] E; try done.
  - injection E as ->. change (<[0:=s']> (s :: l)) with (s' :: l). rewrite !Hc. lia.
  - change (<[S i:=s']> (x :: l)) with (x :: <[i:=s']> l). rewrite !Hc. specialize (IH i E). lia.
Qed.

Lemma client_insert blockSize n c i s s' num reps q :
  client_inv blockSize n c -> sessions_ c !! i = Some s -> session_inv (message_ c) s' ->
  (value_ num + (if is_open s then 1 else 0) = value_ (numConnected_ c) + (if is_open s' then 1 else 0))%Z ->
  client_inv blockSize n (mkClient (<[i := s']> (sessions_ c)) (sessionCount_ c) (message_ c) num reps q).
Proof.
  intros [Hm Hs He Hc] Hi Hs' Hn. split; cbn [sessions_ message_ numConnected_]; [done|by rewrite length_insert| |].
  - intros x Hx. apply list_elem_of_lookup in Hx as [j Hj].
    apply list_lookup_insert_Some in Hj as [(-> & <- & _)|[_ Hj]]; [done|]. apply He. by eapply list_elem_of_lookup_2.
  - rewrite Hc in Hn. pose proof (open_count_insert _ i s s' Hi) as Ho. revert Hn Ho.
    destruct (is_open s), (is_open s'); intros; lia.
Qed.

Lemma count_step a x : (0 <= value_ a + x < 2 ^ 31)%Z -> value_ (addAndGet x a).2 = (value_ a + x)%Z.
Proof. intros Ha. cbn. apply wrapS_small; lia. Qed.

Lemma ping_stop_open s : is_open (ping_stop s) = is_open s.
Proof. unfold ping_stop. case_decide as E; [|done]. unfold is_open. by rewrite E. Qed.

Lemma ping_step_inv blockSize n op c :
  (Z.of_nat n < 2 ^ 31)%Z -> client_inv blockSize n c -> client_inv blockSize n (ping_step op c).
Proof.
  intros Hn H. pose proof H as [Hm Hs He Hc]. pose proof (open_count_le (sessions_ c)) as Hle.
  assert (Hin : forall i s, sessions_ c !! i = Some s -> session_inv (message_ c) s)
    by (intros i s Hi; apply He; by eapply list_elem_of_lookup_2).
  destruct op as [i|i k|i k| |i]; cbn [ping_step]; try (destruct (sessions_ c !! i) as [s|] eqn:Hi; [|done]).
  - case_decide as Hu; [|done]. pose proof (up_inv _ s (Hin _ _ Hi) Hu) as Hs'.
    assert (Hlt : open_count (sessions_ c) < length (sessions_ c)).
    { pose proof (open_count_insert _ i s (set_link Connected s) Hi) as Hx.
      pose proof (open_count_le (<[i := set_link Connected s]> (sessions_ c))) as Hl. rewrite length_insert in Hl.
      assert (is_open s = false) as Hx' by (unfold is_open; by rewrite Hu). change (is_open (set_link Connected s)) with true in Hx. rewrite Hx' in Hx. lia. }
    unfold ping_onConnection, onConnect. cbn [set_session numConnected_ sessions_ sessionCount_ message_ reports quitting].
    assert (Hv : (value_ (addAndGet 1 (numConnected_ c)).2 + (if is_open s then 1 else 0) = value_ (numConnected_ c) + 1)%Z).
    { rewrite count_step by lia. assert (is_open s = false) as -> by (unfold is_open; by rewrite Hu). lia. }
    unfold incrementAndGet. destruct (addAndGet 1 (numConnected_ c)) as [m num]. cbn [snd] in Hv.
    by apply (client_insert blockSize n c i s).
  - destruct (is_open s && _) eqn:Ho; [|done]. bool_props.
    apply (client_insert blockSize n c i s _ _ _ _ H Hi); [by apply pong_inv; [by apply (Hin i)|]|done].
  - destruct (is_open s && _) eqn:Ho; [|done]. bool_props.
    apply (client_insert blockSize n c i s _ _ _ _ H Hi); [by apply ping_inv; [by apply (Hin i)|]|].
    unfold ping_onMessage, send_input. by case_decide.
  - split; cbn [handleTimeout sessions_ message_ numConnected_]; [done|by rewrite length_fmap| |].
    + intros x Hx. apply list_elem_of_fmap in Hx as (y & -> & Hy). by apply ping_stop_inv, He.
    + rewrite Hc. f_equal. unfold open_count. clear. induction (sessions_ c) as [|s l IH]; [done|].
      cbn [fmap list_fmap]. rewrite !filter_cons, ping_stop_open. case_decide; cbn [length]; congruence.
  - destruct (is_open s) eqn:Ho; [|done]. pose proof (gone_inv _ s (Hin _ _ Hi)) as Hs'.
    assert (Hpos : 0 < open_count (sessions_ c)).
    { pose proof (open_count_insert _ i s (set_link Gone s) Hi) as Hx. rewrite Ho in Hx. change (is_open (set_link Gone s)) with false in Hx. cbv iota in Hx. lia. }
    unfold ping_onConnection, onDisconnect. cbn [set_session numConnected_ sessions_ sessionCount_ message_ reports quitting].
    assert (Hv : (value_ (addAndGet (-1) (numConnected_ c)).2 + (if is_open s then 1 else 0)
                  = value_ (numConnected_ c) + (if is_open (set_link Gone s) then 1 else 0))%Z)
      by (rewrite count_step by lia; rewrite Ho; change (is_open (set_link Gone s)) with false; cbv iota; lia).
    unfold decrementAndGet. destruct (addAndGet (-1) (numConnected_ c)) as [m num]. cbn [snd] in Hv.
    case_if; by apply (client_insert blockSize n c i s).
Qed.

Lemma new_client_inv blockSize n : client_inv blockSize n (new_Client blockSize n).
Proof.
  split; cbn [new_Client message_ sessions_ numConnected_].
  - by rewrite length_fmap, length_seq.
  - apply length_replicate.
  - intros s Hs. apply elem_of_replicate in Hs as [-> _]. apply new_session_inv.
  - unfold open_count. induction n; [done|]. cbn [replicate]. by rewrite filter_cons.
Qed.

Lemma ping_run_inv blockSize n ops : forall c,
  (Z.of_nat n < 2 ^ 31)%Z -> client_inv blockSize n c -> client_inv blockSize n (ping_run ops c).
Proof. induction ops as [|op ops IH]; intros c Hn Hc; [done|]. apply IH; [done|by apply ping_step_inv]. Qed.

(** However the sessions of the client interleave and whatever portions the
    bytes travel in: what has arrived in a session repeats the block that was
    sent; in a session that was not stopped exactly one block is under way and
    the bytes counted are those that arrived; the counter holds the number of
    connections. *)
Theorem pingpong_exact blockSize sessionCount ops i s :
  (Z.of_nat sessionCount < 2 ^ 31)%Z ->
  sessions_ (ping_run ops (new_Client blockSize sessionCount)) !! i = Some s ->
  let c := ping_run ops (new_Client blockSize sessionCount) in
  (forall j, j < length (arrived s) -> arrived s !! j = message_ c !! (j `mod` blockSize))
  /\ (p_link s = Connected -> length (to_client s) + length (to_server s) = blockSize
        /\ bytesRead_ s = wrapS 64 (Z.of_nat (length (arrived s))) /\ bytesWritten_ s = bytesRead_ s)
  /\ value_ (numConnected_ c) = Z.of_nat (open_count (sessions_ c)).
Proof.
  intros Hn Hi c. destruct (ping_run_inv blockSize sessionCount ops _ Hn (new_client_inv _ _)) as [Hm _ He Hc].
  fold c in Hm, He, Hc, Hi. destruct (He s) as [Hcy _ Hu]; [by eapply list_elem_of_lookup_2|]. split_and!; [| |done].
  - rewrite <- Hm. by apply (cyclic_prefix _ _ (to_client s ++ to_server s)).
  - intros E. destruct (Hu E) as (_ & Hl & Hr & Hw). by rewrite <- length_app, Hl, Hm.
Qed.

Definition ping_demo : list ping_op :=
  [PingUp 0; ServerReads 0 2; PingUp 1; ClientReads 0 1; ServerReads 0 5; ClientReads 0 4].

Lemma pingpong_exact_witness :
  exists s, sessions_ (ping_run ping_demo (new_Client 3 2)) !! 0 = Some s /\ length (arrived s) = 4
    /\ length (to_client s) + length (to_server s) = 3
    /\ bytesRead_ s = wrapS 64 4 /\ value_ (numConnected_ (ping_run ping_demo (new_Client 3 2))) = 2%Z.
Proof.
  destruct (sessions_ (ping_run ping_demo (new_Client 3 2)) !! 0) as [s|] eqn:E; [|vm_compute in E; discriminate].
  exists s. destruct (pingpong_exact 3 2 ping_demo 0 s) as (_ & Hu & Hc); [lia|exact E|].
  assert (Hs : p_link s = Connected /\ length (arrived s) = 4) by (vm_compute in E; injection E as <-; done).
  destruct Hs as [Hs Ha]. destruct (Hu Hs) as (Hl & Hr & _). rewrite Ha in Hr.
  split_and!; [done|exact Ha|exact Hl|exact Hr|]. rewrite Hc. vm_compute. reflexivity.
Defined.

(** Two faults of the count. After [stop] the input buffer is not emptied any
    more, and every further read counts again what the reads before it left: a
    session that received two bytes counts three. And the client reports and
    quits when the connections it has at the moment are gone, before the
    others were made. *)
Theorem stopped_counts_twice :
  (exists s, sessions_ (ping_run [PingUp 0; ServerReads 0 2; PingTimeout; ClientReads 0 1; ClientReads 0 1] (new_Client 2 1)) !! 0 = Some s
     /\ length (arrived s) = 2 /\ bytesRead_ s = 3%Z)
  /\ (let c := ping_run [PingUp 0; PingDown 0] (new_Client 2 2) in
      quitting c = true /\ reports c = [AllDisconnected 0 0] /\ p_link <$> sessions_ c !! 1 = Some Unmade).
Proof. split; [eexists; vm_compute; split_and!; reflexivity|vm_compute; split_and!; reflexivity]. Qed.

(** ** The netty echo server *)

Record EchoServer := mkEcho { transferred_ : AtomicInteger; receivedMessages_ : AtomicInteger; oldCounter_ : Z; startTime_ : Timestamp }.

Definition new_EchoServer (now : Timestamp) : EchoServer := mkEcho new_AtomicInteger new_AtomicInteger 0 now.

(** [onMessage]; the buffer is sent back. *)
Definition echo_onMessage (buf : bytes) (s : EchoServer) : bytes * EchoServer :=
  let len := Z.of_nat (length buf) in
  let '(_, transferred) := addAndGet (wrapS 32 len) (transferred_ s) in
  let '(_, received) := incrementAndGet (receivedMessages_ s) in
  (buf, mkEcho transferred received (oldCounter_ s) (startTime_ s)).

(** [printThroughput]: the bytes, the messages and the time that it prints
    ratios of. *)
Definition printThroughput (endTime : Timestamp) (s : EchoServer) : res (Z * Z * double * EchoServer) :=
  let newCounter := atomic_get (transferred_ s) in
  let bytes := (newCounter - oldCounter_ s)%Z in
  let '(msgs, received) := getAndSet 0 (receivedMessages_ s) in
  time ← timeDifference endTime (startTime_ s);
  Ok (bytes, msgs, time, mkEcho (transferred_ s) received newCounter endTime).

Lemma transferred_after bufs s :
  value_ (transferred_ s) = wrapS 32 (value_ (transferred_ s)) ->
  value_ (transferred_ (fold_left (fun s b => (echo_onMessage b s).2) bufs s))
    = wrapS 32 (value_ (transferred_ s) + Z.of_nat (length (concat bufs)))
  /\ oldCounter_ (fold_left (fun s b => (echo_onMessage b s).2) bufs s) = oldCounter_ s.
Proof.
  revert s. induction bufs as [|b bufs IH]; intros s Hs; cbn [fold_left concat length].
  - by rewrite Z.add_0_r.
  - set (s' := (echo_onMessage b s).2).
    assert (Ev : value_ (transferred_ s') = wrapS 32 (value_ (transferred_ s) + Z.of_nat (length b))).
    { unfold s'. cbn. by rewrite Z.add_comm, wrapS_add, Z.add_comm by lia. }
    destruct (IH s') as [-> ->]; [by rewrite Ev, wrapS_wrapS by lia|].
    split; [|done]. rewrite Ev, wrapS_add by lia. f_equal. rewrite length_app. lia.
Qed.

Lemma received_after bufs s :
  value_ (receivedMessages_ s) = wrapS 32 (value_ (receivedMessages_ s)) ->
  value_ (receivedMessages_ (fold_left (fun s b => (echo_onMessage b s).2) bufs s))
    = wrapS 32 (value_ (receivedMessages_ s) + Z.of_nat (length bufs))
  /\ startTime_ (fold_left (fun s b => (echo_onMessage b s).2) bufs s) = startTime_ s.
Proof.
  revert s. induction bufs as [|b bufs IH]; intros s Hs; cbn [fold_left length].
  - by rewrite Z.add_0_r.
  - set (s' := (echo_onMessage b s).2).
    assert (Ev : value_ (receivedMessages_ s') = wrapS 32 (value_ (receivedMessages_ s) + 1)) by done.
    destruct (IH s') as [-> ->]; [by rewrite Ev, wrapS_wrapS by lia|].
    split; [|done]. rewrite Ev, wrapS_add by lia. f_equal. lia.
Qed.

(** The server prints, modulo 2^32, the bytes and messages since it started:
    the byte count is that of a 64 bit counter which is in fact 32 bits wide,
    exact up to 2^31 - 1 and negative from then on. *)
Theorem throughput_wraps bufs now endTime time :
  timeDifference endTime now = Ok time ->
  exists s', printThroughput endTime (fold_left (fun s b => (echo_onMessage b s).2) bufs (new_EchoServer now))
    = Ok (wrapS 32 (Z.of_nat (length (concat bufs))), wrapS 32 (Z.of_nat (length bufs)), time, s')
  /\ ((Z.of_nat (length (concat bufs)) < 2 ^ 31)%Z ->
        wrapS 32 (Z.of_nat (length (concat bufs))) = Z.of_nat (length (concat bufs)))
  /\ ((2 ^ 31 <= Z.of_nat (length (concat bufs)) < 2 ^ 32)%Z -> (wrapS 32 (Z.of_nat (length (concat bufs))) < 0)%Z).
Proof.
  intros Ht. destruct (transferred_after bufs (new_EchoServer now)) as [Et Eo]; [done|].
  destruct (received_after bufs (new_EchoServer now)) as [Er Es]; [done|].
  unfold printThroughput, atomic_get, getAndSet. rewrite Et, Eo, Er, Es. cbn [new_EchoServer transferred_ receivedMessages_
    oldCounter_ startTime_ new_AtomicInteger value_]. rewrite Ht. run_res. rewrite Z.sub_0_r.
  eexists. split_and!; [done| |].
  - intros Hl. apply wrapS_small; lia.
  - intros Hl. unfold wrapS. rewrite wrapU_small by lia. change (32 - 1)%Z with 31%Z.
    rewrite (proj2 (Z.ltb_ge _ _)) by lia. lia.
Qed.

Lemma throughput_wraps_witness :
  exists time s', timeDifference 3000000 0 = Ok time
    /\ printThroughput 3000000 (fold_left (fun s b => (echo_onMessage b s).2) [str "abc"; str "d"] (new_EchoServer 0))
       = Ok (wrapS 32 4, wrapS 32 2, time, s').
Proof.
  destruct (timeDifference 3000000 0) as [time|] eqn:E; [|vm_compute in E; discriminate].
  destruct (throughput_wraps [str "abc"; str "d"] 0 3000000 time E) as (s' & Hs & _). by exists time, s'.
Defined.
