(* ===== verification/Thread.v ===== *)
(** * Threads: [src/msmuduo/base/Thread.h]

    A [Thread] object and the thread it starts, interleaved. What the system
    gives for a new thread is its handle and its id, or nothing; the function
    of the thread is one step that ends when the function returns. *)
From S2P Require Import Prelude.
From S2P Require Import Endian.
From S2P Require Import Format.
From S2P Require Import Atomic.

Record Thread := mkThread { started_ : bool; joined_ : bool; threadId_ : Z; tid_ : Z; name_ : bytes }.

(** The thread of the system: there is none yet, [run_helper] has been entered,
    [func_] runs, it has returned. *)
Inductive runner := NoThread | Entered | Running | Returned.

#[export] Instance runner_eq_dec : EqDecision runner.
Proof. solve_decision. Defined.

(** The object while it exists, the static counter, the thread, whether the
    system keeps a handle for it, whether the owner waits in [join], and
    whether a [join] returned. *)
Record thread_world := mkWorld {
  object : option Thread;
  numCreated_ : AtomicInteger;
  run_state : runner;
  handle_open : bool;
  in_join : bool;
  join_done : bool
}.

Section Thread.
Context `{Platform}.

Definition setDefaultName (t : Thread) (numCreated : AtomicInteger) : res (Thread * AtomicInteger) :=
  let '(num, numCreated) := incrementAndGet numCreated in
  if decide (name_ t = []) then
    buf ← snprintf_z 32 (str "Thread" ++ fmt_d num);
    Ok (mkThread (started_ t) (joined_ t) (threadId_ t) (tid_ t) buf, numCreated)
  else Ok (t, numCreated).

(** The constructor. *)
Definition new_Thread (name : bytes) (numCreated : AtomicInteger) : res (Thread * AtomicInteger) :=
  setDefaultName (mkThread false false 0 0 name) numCreated.

Definition new_world (name : bytes) (numCreated : AtomicInteger) : res thread_world :=
  '(t, numCreated) ← new_Thread name numCreated;
  Ok (mkWorld (Some t) numCreated NoThread false false false).

(** [start]; [created] is what the system answers. *)
Definition start (created : option (Z * Z)) (w : thread_world) : res thread_world :=
  t ← get_ NullDeref (object w);
  '(t, numCreated) ← setDefaultName t (numCreated_ w);
  assert_ (negb (started_ t));;
  match created with
  | None => Ok (mkWorld (Some (mkThread true (joined_ t) 0 (tid_ t) (name_ t))) numCreated
                  (run_state w) (handle_open w) (in_join w) (join_done w))
  | Some (handle, id) =>
      Ok (mkWorld (Some (mkThread true (joined_ t) handle (if win then id else tid_ t) (name_ t))) numCreated
            Entered true (in_join w) (join_done w))
  end.

(** [run]: the id is stored, then the function is called. *)
Definition run_enter (id : Z) (w : thread_world) : res thread_world :=
  t ← get_ NullDeref (object w);
  Ok (mkWorld (Some (mkThread (started_ t) (joined_ t) (threadId_ t) id (name_ t))) (numCreated_ w)
        Running (handle_open w) (in_join w) (join_done w)).

(** The function, a member of the object, returns. *)
Definition run_return (w : thread_world) : res thread_world :=
  t ← get_ NullDeref (object w);
  Ok (mkWorld (object w) (numCreated_ w) Returned (handle_open w) (in_join w) (join_done w)).

(** [join] up to the wait; joining no thread is undefined on Linux, and a wait
    that fails at once under WIN. *)
Definition join_call (w : thread_world) : res thread_world :=
  t ← get_ NullDeref (object w);
  assert_ (started_ t);;
  assert_ (negb (joined_ t));;
  let t' := mkThread (started_ t) true (threadId_ t) (tid_ t) (name_ t) in
  if decide (run_state w = NoThread) then
    if win then Ok (mkWorld (Some t') (numCreated_ w) (run_state w) (handle_open w) false true)
    else Fault NullDeref
  else Ok (mkWorld (Some t') (numCreated_ w) (run_state w) (handle_open w) true false).

(** The wait ends and the handle is closed. *)
Definition join_return (w : thread_world) : res thread_world :=
  t ← get_ NullDeref (object w);
  Ok (mkWorld (object w) (numCreated_ w) (run_state w) false false true).

(** The destructor; a thread that was not joined is detached on Linux and keeps
    its handle under WIN. *)
Definition delete_Thread (w : thread_world) : res thread_world :=
  t ← get_ NullDeref (object w);
  let closes := started_ t && negb (joined_ t) && negb win in
  if closes && bool_decide (run_state w = NoThread) then Fault NullDeref
  else Ok (mkWorld None (numCreated_ w) (run_state w) (if closes then false else handle_open w) false (join_done w)).

Inductive thread_op :=
  | OpStart (created : option (Z * Z))
  | OpEnter (id : Z)
  | OpReturn
  | OpJoin
  | OpJoined
  | OpDelete.

Definition thread_step (op : thread_op) (w : thread_world) : res thread_world :=
  match op with
  | OpStart created => start created w
  | OpEnter id => run_enter id w
  | OpReturn => run_return w
  | OpJoin => join_call w
  | OpJoined => join_return w
  | OpDelete => delete_Thread w
  end.

(** What can happen: the owner starts the thread once, joins it after that and
    deletes the object when it was not started or is joined; the thread goes
    on; the wait of [join] ends when the thread has ended. *)
Definition thread_enabled (op : thread_op) (w : thread_world) : Prop :=
  match op with
  | OpStart created => in_join w = false /\ is_Some created /\ exists t, object w = Some t /\ started_ t = false
  | OpEnter _ => run_state w = Entered
  | OpReturn => run_state w = Running
  | OpJoin => in_join w = false /\ exists t, object w = Some t /\ started_ t = true /\ joined_ t = false
  | OpJoined => in_join w = true /\ run_state w = Returned
  | OpDelete => in_join w = false /\ exists t, object w = Some t /\ (started_ t = false \/ join_done w = true)
  end.

Inductive thread_reach (w0 : thread_world) : list thread_op -> thread_world -> Prop :=
  | thread_init : thread_reach w0 [] w0
  | thread_next ops w op w' :
      thread_reach w0 ops w -> thread_enabled op w -> thread_step op w = Ok w' -> thread_reach w0 (ops ++ [op]) w'.

(** ** The life of a thread *)

Definition is_return (op : thread_op) : bool := match op with OpReturn => true | _ => false end.

Record world_inv (ops : list thread_op) (w : thread_world) : Prop := {
  wi_object : run_state w = Entered \/ run_state w = Running \/ in_join w = true -> is_Some (object w);
  wi_thread t : object w = Some t ->
    name_ t <> [] /\ (started_ t = true <-> run_state w <> NoThread) /\ joined_ t = in_join w || join_done w;
  wi_done : join_done w = true -> run_state w = Returned /\ in_join w = false;
  wi_handle : handle_open w = negb (join_done w) && negb (bool_decide (run_state w = NoThread));
  wi_none : in_join w = true -> run_state w <> NoThread;
  wi_once : length (filter (fun op => is_return op = true) ops) = if bool_decide (run_state w = Returned) then 1 else 0
}.

Lemma default_name t numCreated :
  exists t', setDefaultName t numCreated = Ok (t', (incrementAndGet numCreated).2)
    /\ name_ t' <> [] /\ (name_ t <> [] -> t' = t)
    /\ started_ t' = started_ t /\ joined_ t' = joined_ t /\ threadId_ t' = threadId_ t /\ tid_ t' = tid_ t
    /\ (name_ t = [] -> name_ t' = str "Thread" ++ fmt_d (incrementAndGet numCreated).1).
Proof.
  unfold setDefaultName. destruct (incrementAndGet numCreated) as [num a] eqn:E. cbn [fst snd].
  assert (Hn : (- 2 ^ 31 <= num < 2 ^ 31)%Z).
  { unfold incrementAndGet, addAndGet, getAndAdd in E. injection E as <- _. unfold wrapS.
    pose proof (wrapU_bound 32 (value_ numCreated + 1) ltac:(lia)). case_if; simpl in *; lia. }
  case_decide as En; [|by exists t].
  rewrite snprintf_z_fits; [run_res; eexists; split_and!; done|].
  assert (length (fmt_d num) <= 11); [|rewrite length_app; simpl; lia].
  unfold fmt_d. case_if; [cbn [str String.list_ascii_of_string app length]|].
  - pose proof (dec_length 10 (- num) ltac:(simpl; lia) ltac:(lia)). lia.
  - pose proof (dec_length 10 num ltac:(simpl; lia) ltac:(lia)). lia.
Qed.

Lemma new_world_inv name a :
  exists w, new_world name a = Ok w /\ world_inv [] w.
Proof.
  unfold new_world, new_Thread.
  destruct (default_name (mkThread false false 0 0 name) a) as (t & -> & Hn & _ & Hs & Hj & _). run_res.
  eexists. split; [done|]. split; cbn; try done.
  intros ? [= <-]. rewrite Hs, Hj. by split_and!.
Qed.

(** The steps keep the invariant and do not fail. *)
Lemma thread_step_inv ops w op :
  world_inv ops w -> thread_enabled op w -> exists w', thread_step op w = Ok w' /\ world_inv (ops ++ [op]) w'.
Proof.
  intros [Ho Ht Hd Hh Hn Hc] He.
  assert (Hcount : forall op', length (filter (fun op => is_return op = true) (ops ++ [op']))
    = (if bool_decide (run_state w = Returned) then 1 else 0) + if is_return op' then 1 else 0).
  { intros op'. rewrite filter_app, length_app, Hc. f_equal. by destruct op'. }
  destruct op as [created|id| | | |]; cbn [thread_step thread_enabled] in *.
  - destruct He as (Hi & [[handle id] ->] & t & Et & Hst). unfold start. rewrite Et. run_res.
    destruct (Ht t Et) as (Hname & Hrun & Hj). rewrite Hst in Hrun.
    assert (Er : run_state w = NoThread) by (destruct (run_state w); [done|discriminate (proj2 Hrun ltac:(done))..]).
    destruct (default_name t (numCreated_ w)) as (t' & -> & _ & Hsame & _). rewrite (Hsame Hname). run_res.
    rewrite Hst. run_res. eexists. split; [done|].
    assert (Hjd : join_done w = false) by (destruct (join_done w); [|done]; destruct (Hd eq_refl); congruence).
    split; cbn [object run_state in_join join_done handle_open].
    + by eexists.
    + intros ? [= <-]. by split_and!.
    + by rewrite Hjd.
    + by rewrite Hjd.
    + done.
    + by rewrite Hcount, Er.
  - destruct (Ho (or_introl He)) as [t Et]. unfold run_enter. rewrite Et. run_res. eexists. split; [done|].
    destruct (Ht t Et) as (Hname & Hrun & Hj).
    split; cbn [object run_state in_join join_done handle_open].
    + by eexists.
    + intros ? [= <-]. split_and!; [done| |done]. cbn. rewrite Hrun, He. done.
    + intros E. destruct (Hd E). congruence.
    + by rewrite Hh, He.
    + done.
    + by rewrite Hcount, He.
  - destruct (Ho (or_intror (or_introl He))) as [t Et]. unfold run_return. rewrite Et. run_res. eexists. split; [done|].
    destruct (Ht t Et) as (Hname & Hrun & Hj).
    split; cbn [object run_state in_join join_done handle_open].
    + by eexists.
    + intros ? [= <-]. split_and!; [done| |done]. rewrite Hrun, He. done.
    + intros E. destruct (Hd E). congruence.
    + by rewrite Hh, He.
    + done.
    + by rewrite Hcount, He.
  - destruct He as (Hi & t & Et & Hst & Hjt). unfold join_call. rewrite Et. run_res.
    destruct (Ht t Et) as (Hname & Hrun & Hj). rewrite Hst, Hjt. run_res.
    assert (Hr : run_state w <> NoThread) by (by apply Hrun). rewrite decide_False by done.
    rewrite Hjt, Hi in Hj. symmetry in Hj. cbn in Hj.
    eexists. split; [done|]. split; cbn [object run_state in_join join_done handle_open].
    + by eexists.
    + intros ? [= <-]. by split_and!.
    + done.
    + by rewrite Hh, Hj.
    + done.
    + by rewrite Hcount, Nat.add_0_r.
  - destruct He as [Hi Hr]. destruct (Ho (or_intror (or_intror Hi))) as [t Et]. unfold join_return. rewrite Et. run_res.
    destruct (Ht t Et) as (Hname & Hrun & Hj).
    eexists. split; [done|]. split; cbn [object run_state in_join join_done handle_open].
    + rewrite Hr. by intros [|[|]].
    + intros ? [= <-]. split_and!; [done|done|]. by rewrite Hj, Hi.
    + done.
    + done.
    + done.
    + by rewrite Hcount, Nat.add_0_r.
  - destruct He as (Hi & t & Et & Hend). unfold delete_Thread. rewrite Et. run_res.
    destruct (Ht t Et) as (Hname & Hrun & Hj). rewrite Hi in Hj. cbn in Hj.
    assert (Hcl : started_ t && negb (joined_ t) = false).
    { rewrite Hj. destruct Hend as [-> | ->]; [done|]. by rewrite andb_false_r. }
    assert (Hst : run_state w = NoThread \/ run_state w = Returned).
    { destruct Hend as [Hs|Hs]; [left|right; by apply Hd]. rewrite Hs in Hrun. destruct (run_state w); [done|discriminate (proj2 Hrun ltac:(done))..]. }
    rewrite Hcl. cbn [andb]. eexists. split; [done|]. split; cbn [object run_state in_join join_done handle_open].
    + intros [E|[E|E]]; [|by destruct Hst as [E'|E']; rewrite E' in E..|done]. destruct Hst as [E'|E']; by rewrite E' in E.
    + done.
    + intros E. by destruct (Hd E).
    + done.
    + done.
    + by rewrite Hcount, Nat.add_0_r.
Qed.

Lemma thread_reach_inv name a w0 ops w :
  new_world name a = Ok w0 -> thread_reach w0 ops w -> world_inv ops w.
Proof.
  intros E0. destruct (new_world_inv name a) as (w0' & E0' & H0). rewrite E0 in E0'. injection E0' as <-.
  induction 1 as [|ops w op w' _ IH He E]; [done|].
  destruct (thread_step_inv _ _ _ IH He) as (w2 & E2 & H2). congruence.
Qed.

(** A thread that its owner starts, joins and then deletes never touches an
    object that is gone, fails no assertion, and runs its function once: the
    function has returned when [join] returns, and exactly then the handle is
    closed; while the function is still to return, the owner cannot get past
    [join]. *)
Theorem thread_lifecycle name a w0 ops w :
  new_world name a = Ok w0 -> thread_reach w0 ops w ->
  (forall op, thread_enabled op w -> exists w', thread_step op w = Ok w')
  /\ (join_done w = true -> length (filter (fun op => is_return op = true) ops) = 1 /\ handle_open w = false)
  /\ (run_state w <> NoThread -> join_done w = false -> handle_open w = true)
  /\ (forall t, object w = Some t -> name_ t <> []).
Proof.
  intros E0 Hr. pose proof (thread_reach_inv name a w0 ops w E0 Hr) as Hw. split_and!.
  - intros op He. destruct (thread_step_inv _ _ _ Hw He) as (w' & E & _). by exists w'.
  - intros Hd. rewrite (wi_once _ _ Hw), (wi_handle _ _ Hw), Hd. destruct (wi_done _ _ Hw Hd) as [Hs _].
    by rewrite bool_decide_true.
  - intros Hs Hd. by rewrite (wi_handle _ _ Hw), Hd, bool_decide_false.
  - intros t Et. by destruct (wi_thread _ _ Hw t Et).
Qed.

(** [n] threads without names are made and started, one after the other. *)
Fixpoint start_many (n : nat) (a : AtomicInteger) : res (list bytes * AtomicInteger) :=
  match n with
  | O => Ok ([], a)
  | S n =>
      w ← new_world [] a;
      w ← start (Some (1, 1)%Z) w;
      t ← get_ NullDeref (object w);
      '(names, a) ← start_many n (numCreated_ w);
      Ok (name_ t :: names, a)
  end.

Lemma increment_value a : (0 <= value_ a < 2 ^ 31 - 1)%Z ->
  (incrementAndGet a).1 = (value_ a + 1)%Z /\ value_ (incrementAndGet a).2 = (value_ a + 1)%Z.
Proof. intros Ha. split; cbn; apply wrapS_small; lia. Qed.

Lemma start_many_names n a :
  (0 <= value_ a)%Z -> (value_ a + 2 * Z.of_nat n < 2 ^ 31)%Z ->
  exists a', start_many n a
    = Ok ((fun k => str "Thread" ++ fmt_d (value_ a + 1 + 2 * Z.of_nat k)) <$> seq 0 n, a')
    /\ value_ a' = (value_ a + 2 * Z.of_nat n)%Z.
Proof.
  revert a. induction n as [|n IH]; intros a H0 Hb; cbn [start_many]; [exists a; split; [done|lia]|].
  unfold new_world, new_Thread. destruct (default_name (mkThread false false 0 0 []) a)
    as (t & -> & Hn & _ & Hs & _ & _ & _ & Hname). run_res.
  unfold start. cbn [object numCreated_]. run_res.
  destruct (default_name t (incrementAndGet a).2) as (t' & -> & _ & Hsame & _). rewrite (Hsame Hn). run_res.
  rewrite Hs. cbn [object numCreated_ started_ negb assert_ name_]. run_res. cbn [object numCreated_ name_]. run_res.
  destruct (increment_value a) as [E1 E2]; [lia|].
  destruct (increment_value (incrementAndGet a).2) as [E3 E4]; [rewrite E2; lia|].
  destruct (IH (incrementAndGet (incrementAndGet a).2).2) as (a' & -> & Ea); [rewrite E4, E2; lia..|]. run_res.
  exists a'. split; [|rewrite Ea, E4, E2; lia]. rewrite Hname, E1 by done. cbn [seq fmap list_fmap].
  replace (value_ a + 1 + 2 * Z.of_nat 0)%Z with (value_ a + 1)%Z by lia.
  do 3 f_equal. rewrite <- fmap_S_seq, <- list_fmap_compose. apply list_fmap_ext. intros i k _.
  unfold compose. rewrite E4, E2. do 2 f_equal. lia.
Qed.

(** The default names of threads are different as long as the counter does
    not wrap; but every thread is counted twice, by the constructor and by
    [start], so the names have odd numbers and [numCreated] is twice the number
    of threads. *)
Theorem thread_names n :
  (2 * Z.of_nat n < 2 ^ 31)%Z ->
  exists names a, start_many n new_AtomicInteger = Ok (names, a) /\ NoDup names /\ length names = n
    /\ value_ a = (2 * Z.of_nat n)%Z.
Proof.
  intros Hn. destruct (start_many_names n new_AtomicInteger) as (a & -> & Ha); [done|done|].
  eexists _, a. split; [done|]. split_and!; [|by rewrite length_fmap, length_seq|done].
  apply NoDup_fmap_2_strong; [|apply NoDup_seq]. intros x y _ _ E. apply app_inv_head in E.
  cbn in E. unfold fmt_d in E. rewrite !(proj2 (Z.ltb_ge _ _)) in E by lia. apply dec_inj in E; lia.
Qed.
End Thread.

Fixpoint thread_run `{Platform} (ops : list thread_op) (w : thread_world) : res thread_world :=
  match ops with [] => Ok w | op :: ops => w ← thread_step op w; thread_run ops w end.

(** A run in which every step can happen. *)
Fixpoint all_enabled `{Platform} (ops : list thread_op) (w : thread_world) : Prop :=
  match ops with
  | [] => True
  | op :: ops => thread_enabled op w /\ match thread_step op w with Ok w => all_enabled ops w | Fault _ => False end
  end.

Lemma thread_run_reach `{Platform} w0 ops : forall pre w w',
  thread_reach w0 pre w -> all_enabled ops w -> thread_run ops w = Ok w' -> thread_reach w0 (pre ++ ops) w'.
Proof.
  induction ops as [|op ops IH]; intros pre w w' Hr Ha E; cbn [all_enabled thread_run] in *.
  - injection E as <-. by rewrite app_nil_r.
  - destruct Ha as [He Ha]. destruct (thread_step op w) as [w1|] eqn:E1; [|done].
    rewrite (app_assoc pre [op] ops : pre ++ op :: ops = _). apply (IH _ w1); [by eapply thread_next; [apply Hr|..]|done|done].
Qed.

Definition thread_demo : list thread_op := [OpStart (Some (7, 41)%Z); OpJoin; OpEnter 41; OpReturn; OpJoined; OpDelete].

Lemma thread_lifecycle_witness :
  exists w0 w, @new_world windows [] new_AtomicInteger = Ok w0 /\ @thread_run windows thread_demo w0 = Ok w
    /\ join_done w = true /\ handle_open w = false.
Proof.
  destruct (@new_world windows [] new_AtomicInteger) as [w0|] eqn:E0; [|vm_compute in E0; discriminate].
  assert (Hr : exists w, @thread_run windows thread_demo w0 = Ok w /\ @thread_reach windows w0 thread_demo w /\ join_done w = true).
  { vm_compute in E0. injection E0 as <-. eexists. split; [vm_compute; reflexivity|]. split; [|reflexivity].
    eapply (@thread_run_reach windows _ thread_demo []); [apply thread_init| |vm_compute; reflexivity].
    cbn. repeat split; try (eexists; split_and!; by (done || right)); done. }
  destruct Hr as (w & E & Hr & Hd). exists w0, w. split; [done|]. split; [exact E|]. split; [exact Hd|].
  destruct (@thread_lifecycle windows [] new_AtomicInteger w0 thread_demo w E0 Hr) as (_ & Hj & _). by apply Hj.
Defined.

(** Faults of the interface. When the system makes no thread, [start] says
    nothing, and under WIN a [join] returns although the function never ran.
    An object that is deleted before it is joined, as its destructor provides
    for, is used by the thread. On both systems. *)
Theorem thread_misuse :
  (exists w0 w, @new_world windows [] new_AtomicInteger = Ok w0 /\ @thread_run windows [OpStart None; OpJoin] w0 = Ok w
     /\ join_done w = true /\ run_state w = NoThread)
  /\ (forall P : Platform, exists w0, @new_world P [] new_AtomicInteger = Ok w0
        /\ @thread_run P [OpStart (Some (7, 41)%Z); OpDelete; OpEnter 41] w0 = Fault NullDeref).
Proof.
  split.
  { eexists _, _. split; [vm_compute; reflexivity|]. split; [vm_compute; reflexivity|]. by split. }
  intros [w b]. eexists. split; [vm_compute; reflexivity|]. by destruct w.
Qed.
